(* ===== verification/_CoqProject ===== *)
-Q . S2P
Prelude.v
CMem.v
StrScan.v
MemBlock.v
StrCopy.v
StrTok.v
StrDemo.v
Words.v
StrSearch.v
StrSearchProofs.v
StrSearchMain.v
ShellIO.v
Shell.v
ShellRun.v
ShellProofs.v
TimeConv.v
BlockHash.v
Sha2Spec.v
Sha256.v
Sha512.v
Md5.v
ToyHash.v
ToyHashProofs.v
CryptSpec.v
CryptHash.v
Des.v
DesSpec.v
DesTables.v
DesProofs.v
DesCrypt.v
BfSpec.v
Blowfish.v
BfCipher.v
BfKey.v
BfCrypt.v
Crypt.v
Avl.v
AvlProofs.v
AvlSearch.v
Hsearch.v
HsearchProofs.v
Qsort.v
Smooth.v
QsortBits.v
QsortProofs.v
SmoothSort.v
QsortSort.v
ListSearch.v
Utf8.v
Utf8Proofs.v
MbString.v
MbStringProofs.v
MbStringMain.v
MbConvert.v
IntScan.v
IntScanProofs.v
StrTol.v
Fnmatch.v
FnSpec.v
FnProofs.v
FnMain.v
FnPath.v
