(* ===== verification/Prelude.v ===== *)
(** * The C userspace of Rux

    Rux is an operating system whose kernel is written in Rust and whose
    userspace is C: the command shell (userspace/shell/src/shell.c), the musl
    C library it is linked with (toolchain/musl-1.2.5) and the toybox commands
    (userspace/toybox/toybox). This library models that C code and proves it
    correct. Paths below are relative to src/, and M stands for
    toolchain/musl-1.2.5/src.

    ** The parts and how they interact

    The shell reads a line with fgets, cuts it into words in place with
    strtok, compares the first word with the names of its builtins with strcmp
    and otherwise forks, builds a path with strncpy and calls execve. So the
    shell's model runs on the memory model and the models of the string
    functions; what it asks of the kernel is a parameter. The password hashes
    of M/crypt run on the hash functions of the same directory, and toybox's
    md5sum and sha*sum are a second implementation of these, proved to print
    the same digests; crypt_r chooses among the password hashes. Calendar
    time, search trees, hash tables, sorting, searching, integer reading and
    multibyte characters stand alone; fnmatch reads its pattern and its string
    with the multibyte functions.

    ** Files

    - [Prelude]: integers of a fixed width with wrap-around, the bit
      lemmas, tactics and hints the other files use.
    - [CMem]: memory as a finite map from addresses to bytes, C computations
      as state transformers that fail on an access outside it, on a misaligned
      word access or without fuel, and their weakest preconditions [wp].
    - [StrScan], [MemBlock], [StrCopy], [StrTok]: M/string. Scanning (strlen,
      memchr, strchrnul and their callers), block copies (memset, memcpy,
      memmove), copying (stpcpy, stpncpy, strlcpy and their callers),
      comparison, byte sets and tokenizers. The word-at-a-time paths are
      modelled as written. [StrDemo] applies their theorems to a concrete
      memory.
    - [Words], [StrSearch], [StrSearchProofs], [StrSearchMain]: strstr.c and
      memmem.c. [Words] is the theory of periods and critical positions that
      the two-way algorithm rests on.
    - [ShellIO], [Shell], [ShellRun], [ShellProofs]: shell.c. [kernel] is the
      record of system calls, [Sh] the monad of a shell with memory, output
      trace and process end, [dispatch] and [session] the specification.
      [ShellRun] says when they have a result and which process does what.
    - [TimeConv]: M/time, conversion between seconds and broken-down time.
    - [BlockHash], [Sha2Spec], [Sha256], [Sha512], [Md5]: the hash functions
      of M/crypt, over one theory of buffered block hashing (the class
      [HashAlg] in CryptHash is what they promise to their clients).
    - [CryptSpec]: the schemes SHA-crypt and MD5-crypt, as relations between
      key, setting and text that use nothing of the code's.
      [CryptHash]: sha256crypt, sha512crypt and md5crypt, proved against
      [HashAlg] and these.
    - [Des], [DesSpec], [DesTables], [DesProofs], [DesCrypt]: crypt_des.c and
      encrypt.c; DesSpec is FIPS 46-3.
    - [BfSpec]: Schneier's Blowfish with the key schedule of eksblowfish, the
      tables from the hexadecimal digits of pi, and the text format of bcrypt.
      [Blowfish], [BfCipher], [BfKey], [BfCrypt]: crypt_blowfish.c with its
      tables. [Crypt]: crypt_r.c and crypt.c over all five formats.
    - [ToyHash], [ToyHashProofs]: userspace/toybox/toybox/lib/hash.c.
    - [Avl], [AvlProofs], [AvlSearch]: M/search, the trees of tsearch.
    - [Hsearch], [HsearchProofs]: M/search/hsearch.c; keys are strings in the
      memory of [CMem], the table an array of entries.
    - [ListSearch]: lsearch.c on memory and insque.c on a heap of nodes.
    - [Qsort], [Smooth], [QsortBits], [QsortProofs], [SmoothSort],
      [QsortSort]: M/stdlib/qsort.c (smoothsort) and bsearch.c. [Qsort] is the
      code on memory, [Smooth] the Leonardo heaps it keeps and [QsortBits] the
      two-word bit set that encodes their sizes.
    - [Utf8], [Utf8Proofs]: M/multibyte, single characters and UTF-16.
    - [MbString], [MbStringProofs], [MbStringMain], [MbConvert]: the
      conversions of whole strings (wcsrtombs, mbsrtowcs and their variants),
      the loops of each, and the theorems.
    - [IntScan], [IntScanProofs], [StrTol]: M/internal/intscan.c with the FILE
      it reads from (shgetc, __uflow), its callers in M/stdlib (strtol.c,
      wcstol.c), atoi.c and its two sisters, and the digit printers of
      vfprintf.c. The class [Stream] is what a FILE promises to the scanner.
    - [Fnmatch], [FnSpec], [FnProofs], [FnMain], [FnPath]: M/regex/fnmatch.c on
      byte lists. [FnSpec] is the syntax of patterns and what they match,
      [FnProofs] the tokens and bracket expressions, [FnMain] the loops of
      fnmatch_internal and [FnPath] those of fnmatch and the theorems.

    ** What the theorems show

    - The shell: [main] has exactly the result of [session],
      [execute_command] that of [dispatch], one being defined when the other
      is, and they are defined when directories and files are finite; cat
      copies a whole file under short reads and writes; ls lists every entry;
      only the child forked is waited for, and a child never reads a command.
      A word of 255 bytes leaves the path buffer without its terminator (a
      bug): the path then goes on with what the memory holds behind it, a
      parameter of model and specification, which must end within the nine
      bytes up to the next object.
    - Strings and memory: each routine terminates, touches only what it may
      (in whole aligned words), leaves exactly the memory of a byte-wise
      reference and returns the documented result. strstr and memmem return
      the first occurrence, within linearly many rounds of each loop.
    - Time: conversion is the proleptic Gregorian calendar, fails exactly when
      the year leaves int, and both directions invert each other. Nothing
      overflows, but for one day of the month: with tm_mday = INT_MIN
      __tm_to_secs is undefined.
    - Hashes: feeding a message in any pieces gives the digest of RFC 1321 and
      FIPS 180-4 of the whole; toybox and musl agree.
    - Password hashes: the published algorithms, for every key and setting
      including the failures, each by a specification with its own tables,
      orders and radix 64. Of SHA-crypt it is the variant the comments of
      crypt_sha256.c and crypt_sha512.c state (at most 9999999 rounds, keys
      of at most 256 bytes, no malformed rounds); MD5-crypt has the limit of
      30000 bytes. crypt_authenticates: whatever crypt_r returns
      for a password is a setting that reproduces it, for all five formats,
      and the result fits its buffer.
    - DES: the table-driven cipher is the standard's, decryption inverts
      encryption.
    - Search trees: on an ordered AVL tree in memory tsearch, tfind, tdelete,
      twalk and tdestroy terminate, stay within their array of places, and act
      on the ordered list of keys; the result is an ordered AVL tree.
    - Hash tables: any sequence of hsearch_r calls behaves as a finite map,
      growth and lack of memory included, and a probe always finds a place.
    - Sorting: qsort leaves a sorted permutation of the elements for every
      total preorder; bsearch finds a matching element exactly when there is
      one; pntz misses the distance 64 (a bug no array in memory reaches).
    - Characters: mbrtowc decodes exactly the sequences of RFC 3629 from any
      state it can be left in, and decodes a number exactly from what wcrtomb
      writes for it. In both locales mbsrtowcs and wcsrtombs store exactly
      what fits of the string converted and leave pointer and state where they
      stopped; two places where they write where they should not are shown,
      one of which (no places, and a character pending) the theorem of
      mbsrtowcs leaves out.
    - Numbers: the strto* functions read the longest number the C standard
      allows and clamp it to their type, the wcsto* functions do the same on
      wide strings, and what the digit printers write is read back.
    - Filename patterns: fnmatch answers as [expected] says, for every pattern
      built from [token], every string of characters and all flags; with
      FNM_PERIOD no component of the pattern may start with an escaped period.
      Outside of that are shown: a pattern with a malformed byte on which it
      does not return, ranges that end beyond ASCII, an invalid byte between
      stars and an escaped leading period, which it does not take for one.

    ** Bounds and fuel

    Loops that are not structural take fuel and fail without it, so that the
    theorems, which give a result, include termination: for memory loops more
    fuel than bytes, for the trees 100 steps (fewer than 2^64 nodes make the
    height at most 91), for the shell's loops the number of lines and calls,
    for the hash table 8 times the entries and calls (up to 2^59 entries), for
    smoothsort the number of elements and their width (up to 2^44 elements, in
    an array of less than 2^62 bytes, more than the address space holds).
    Blowfish's passes are their 521 blocks. strstr and memmem take twice the
    needle and the haystack (of less than 2^62 bytes each), the string
    conversions the places and the bytes, the number scanner more than the
    bytes of the string and than the 60 of a chunk, fnmatch more than the bytes
    of pattern and string together.
    Integers are Z with the wrap-around or the overflow check of their C type
    written out where the code depends on it; size_t and pointers are 64 bits,
    long is 64 bits, words are little-endian as on the target. What malloc
    returns and what an uninitialised buffer holds are parameters.
    crypt_blowfish.c runs a self test; the theorems hold whatever its outcome,
    which they do not evaluate.

    ** Not modelled

    The Rust kernel and the Rust desktop are not C. Of musl: stdio apart from
    what number reading and printing need of it, malloc, threads, locale (the
    tables of towupper and iswctype are arguments of fnmatch), regcomp,
    regexec and glob, network, math and the system-call wrappers. Of toybox: everything but lib/hash.c; its commands
    are third-party tools that the system only installs. Headers that only
    declare and build scripts have no behaviour of their own. *)

From Stdlib Require Import ZArith Lia Bool.
From stdpp Require Import base tactics numbers list gmap.

Open Scope Z_scope.

(** ** Machine-width integers *)

(** Wrap-around of an unsigned [w]-bit integer. *)
Definition wrap (w z : Z) : Z := z `mod` 2 ^ w.

Abbreviation wrap8 := (wrap 8).
Abbreviation wrap16 := (wrap 16).
Abbreviation wrap32 := (wrap 32).
Abbreviation wrap64 := (wrap 64).

(** Two's complement reading of the low [w] bits of [z]. *)
Definition swrap (w z : Z) : Z :=
  let u := wrap w z in if u <? 2 ^ (w - 1) then u else u - 2 ^ w.

Abbreviation swrap32 := (swrap 32).
Abbreviation swrap64 := (swrap 64).

(** The value ranges of C's [int] and [long long] on this target. *)
Definition in_int (z : Z) : Prop := - 2 ^ 31 <= z < 2 ^ 31.
Definition in_llong (z : Z) : Prop := - 2 ^ 63 <= z < 2 ^ 63.
Definition in_range (w z : Z) : Prop := 0 <= z < 2 ^ w.

Abbreviation is_byte := (in_range 8).

Lemma wrap_range w z : 0 <= w -> in_range w (wrap w z).
Proof. intros; unfold in_range, wrap. apply Z.mod_pos_bound, Z.pow_pos_nonneg; lia. Qed.

Lemma wrap_small w z : in_range w z -> wrap w z = z.
Proof. apply Z.mod_small. Qed.

Lemma wrap_wrap w z : wrap w (wrap w z) = wrap w z.
Proof. unfold wrap. apply Zmod_mod. Qed.

Lemma wrap_add_l w a b : wrap w (wrap w a + b) = wrap w (a + b).
Proof. unfold wrap. apply Zplus_mod_idemp_l. Qed.

Lemma wrap_add_r w a b : wrap w (a + wrap w b) = wrap w (a + b).
Proof. unfold wrap. apply Zplus_mod_idemp_r. Qed.

Lemma wrap_sub_l w a b : wrap w (wrap w a - b) = wrap w (a - b).
Proof. unfold wrap. apply Zminus_mod_idemp_l. Qed.

Lemma wrap_sub_r w a b : wrap w (a - wrap w b) = wrap w (a - b).
Proof. unfold wrap. apply Zminus_mod_idemp_r. Qed.

Lemma swrap_small w z :
  0 < w -> - 2 ^ (w - 1) <= z < 2 ^ (w - 1) -> swrap w z = z.
Proof.
  intros Hw Hz. unfold swrap, wrap.
  assert (2 ^ w = 2 * 2 ^ (w - 1)) as E.
  { rewrite <- Z.pow_succ_r by lia. f_equal; lia. }
  destruct (decide (0 <= z)).
  - rewrite Z.mod_small by lia. destruct (Z.ltb_spec z (2 ^ (w - 1))); lia.
  - assert (z `mod` 2 ^ w = z + 2 ^ w) as ->.
    { symmetry. apply (Z.mod_unique_pos _ _ (-1)); lia. }
    destruct (Z.ltb_spec (z + 2 ^ w) (2 ^ (w - 1))); lia.
Qed.

Lemma lxor_range w a b : 0 <= w -> in_range w a -> in_range w b -> in_range w (Z.lxor a b).
Proof.
  unfold in_range. intros Hw Ha Hb. split; [apply Z.lxor_nonneg; lia|].
  destruct (Z.eq_dec (Z.lxor a b) 0) as [->|Hn]; [apply Z.pow_pos_nonneg; lia|].
  assert (0 <= Z.lxor a b) by (apply Z.lxor_nonneg; lia). apply Z.log2_lt_pow2; [lia|].
  destruct (Z.eq_dec w 0) as [->|]; [exfalso; apply Hn; replace a with 0 by lia; replace b with 0 by lia; done|].
  assert (forall x, 0 <= x < 2 ^ w -> Z.log2 x < w) as Hlog.
  { intros x Hx. destruct (Z.eq_dec x 0) as [->|]; [simpl; lia|]. apply Z.log2_lt_pow2; lia. }
  pose proof (Z.log2_lxor a b ltac:(lia) ltac:(lia)). pose proof (Hlog a Ha). pose proof (Hlog b Hb). lia.
Qed.

Lemma lor_in_range w a b : 0 <= w -> in_range w a -> in_range w b -> in_range w (Z.lor a b).
Proof.
  intros Hw Ha Hb. assert (Z.lor a b = Z.lor a b mod 2 ^ w) as ->; [|by apply wrap_range].
  apply Z.bits_inj'. intros n Hn. rewrite Z.testbit_mod_pow2, !Z.lor_spec by lia.
  rewrite <- (wrap_small w a), <- (wrap_small w b) by done. unfold wrap. rewrite !Z.testbit_mod_pow2 by lia.
  by destruct (n <? w).
Qed.

(** C's conditional on an integer: anything but zero is true. *)
Definition truth (z : Z) : bool := negb (z =? 0).

Create HintDb cint.
#[export] Hint Resolve wrap_range : cint.
Create Rewrite HintDb cint.
#[export] Hint Rewrite wrap_wrap wrap_add_l wrap_add_r wrap_sub_l wrap_sub_r : cint.

(** ** Comparison functions *)

(** A C comparison function (of qsort, bsearch, tsearch) orders its
    arguments, up to equivalence. *)
Class CmpOrder {A} (cmp : A -> A -> Z) : Prop := {
  cmp_anti : forall x y, Z.sgn (cmp y x) = - Z.sgn (cmp x y);
  cmp_trans : forall x y z, cmp x y < 0 -> cmp y z < 0 -> cmp x z < 0;
  cmp_equiv : forall x y z, cmp x y = 0 -> Z.sgn (cmp x z) = Z.sgn (cmp y z)
}.

Section cmp_order.
Context {A : Type} (cmp : A -> A -> Z) {O : CmpOrder cmp}.

Lemma cmp_flip x y : cmp x y < 0 <-> cmp y x > 0.
Proof. pose proof (cmp_anti x y). destruct (Z.sgn_spec (cmp x y)), (Z.sgn_spec (cmp y x)); lia. Qed.
Lemma cmp_flip_le x y : cmp x y <= 0 <-> 0 <= cmp y x.
Proof. pose proof (cmp_anti x y). destruct (Z.sgn_spec (cmp x y)), (Z.sgn_spec (cmp y x)); lia. Qed.

Lemma cmp_gt_trans k x y : cmp k y > 0 -> cmp x y < 0 -> cmp k x > 0.
Proof. intros H1 H2. apply cmp_flip. apply cmp_flip in H1. by eapply cmp_trans. Qed.
Lemma cmp_eq_gt k x y : cmp k y = 0 -> cmp x y < 0 -> cmp k x > 0.
Proof.
  intros H1 H2. apply cmp_flip in H2. pose proof (cmp_equiv k y x H1).
  destruct (Z.sgn_spec (cmp k x)), (Z.sgn_spec (cmp y x)); lia.
Qed.
Lemma cmp_eq_lt k x y : cmp k y = 0 -> cmp y x < 0 -> cmp k x < 0.
Proof.
  intros H1 H2. pose proof (cmp_equiv k y x H1). destruct (Z.sgn_spec (cmp k x)), (Z.sgn_spec (cmp y x)); lia.
Qed.

(** The order itself: reflexive, total and transitive. *)
Lemma cmp_refl x : cmp x x = 0.
Proof. pose proof (cmp_anti x x). destruct (Z.sgn_spec (cmp x x)); lia. Qed.
Lemma cmp_le_trans x y z : cmp x y <= 0 -> cmp y z <= 0 -> cmp x z <= 0.
Proof.
  intros H1 H2. destruct (Z.eq_dec (cmp x y) 0) as [H0|H0].
  - pose proof (cmp_equiv x y z H0). destruct (Z.sgn_spec (cmp x z)), (Z.sgn_spec (cmp y z)); lia.
  - destruct (Z.eq_dec (cmp y z) 0) as [H0'|H0']; [|pose proof (cmp_trans x y z); lia].
    assert (cmp y x > 0) as Hyx by (apply cmp_flip; lia). pose proof (cmp_equiv y z x H0').
    assert (cmp z x > 0) by (destruct (Z.sgn_spec (cmp z x)), (Z.sgn_spec (cmp y x)); lia).
    assert (cmp x z < 0) by (apply cmp_flip; lia). lia.
Qed.
End cmp_order.
