(* ===== verification/CMem.v ===== *)
(** * CMem: byte-addressed memory and a total-correctness logic for C code

    The C functions of the string library read and write memory through
    pointers.  Memory is a finite map from addresses to bytes; an address
    that is not in the map may not be touched.  A C computation is a state
    transformer that fails ([None]) on an access outside the map, on a
    misaligned word access, and when a loop exhausts its fuel; [wp c m Q]
    therefore says that [c] terminates without undefined behaviour and that
    its result satisfies [Q]. *)

From S2P Require Import Prelude.
From stdpp Require Import base tactics numbers list gmap.

Open Scope Z_scope.

Abbreviation memory := (gmap Z Z).

(** ** The monad *)

Definition C (A : Type) : Type := memory -> option (A * memory).

#[export] Instance C_ret : MRet C := fun A a m => Some (a, m).
#[export] Instance C_bind : MBind C := fun A B k c m =>
  match c m with Some (a, m') => k a m' | None => None end.

Definition undef {A} : C A := fun _ => None.

(** One byte through a pointer. *)
Definition load8 (p : Z) : C Z := fun m => b ← m !! p; Some (b, m).
Definition store8 (p v : Z) : C unit := fun m =>
  match m !! p with Some _ => Some (tt, <[p := wrap8 v]> m) | None => None end.

(** [k] consecutive bytes, little endian (the target is RISC-V). *)
Fixpoint load_le (k : nat) (p : Z) : C Z :=
  match k with
  | O => mret 0
  | S k => b ← load8 p; w ← load_le k (p + 1); mret (b + 256 * w)
  end.

Fixpoint store_le (k : nat) (p v : Z) : C unit :=
  match k with
  | O => mret tt
  | S k => store8 p v;; store_le k (p + 1) (v / 256)
  end.

(** A word access is defined only at an address aligned to its size. *)
Definition load_word (k : nat) (p : Z) : C Z :=
  if p `mod` Z.of_nat k =? 0 then load_le k p else undef.
Definition store_word (k : nat) (p v : Z) : C unit :=
  if p `mod` Z.of_nat k =? 0 then store_le k p v else undef.

Abbreviation load32 := (load_word 4).
Abbreviation load64 := (load_word 8).
Abbreviation store32 := (store_word 4).
Abbreviation store64 := (store_word 8).

(** A loop: the body either continues with a new state ([inl]) or leaves the
    loop with a value ([inr]). *)
Fixpoint loop {S R} (fuel : nat) (body : S -> C (S + R)) (s : S) : C R :=
  match fuel with
  | O => undef
  | S fuel =>
      r ← body s;
      match r with inl s' => loop fuel body s' | inr v => mret v end
  end.

(** ** Weakest preconditions *)

Definition wp {A} (c : C A) (m : memory) (Q : A -> memory -> Prop) : Prop :=
  match c m with Some (a, m') => Q a m' | None => False end.

Section wp.
Context {A B : Type}.
Implicit Types (m : memory).

Lemma wp_ret (a : A) m (Q : A -> memory -> Prop) : Q a m -> wp (mret a) m Q.
Proof. done. Qed.

Lemma wp_bind (c : C A) (k : A -> C B) m (Q : B -> memory -> Prop) :
  wp c m (fun a m' => wp (k a) m' Q) -> wp (c ≫= k) m Q.
Proof.
  unfold wp, mbind, C_bind. by destruct (c m) as [[a m']|].
Qed.

Lemma wp_bind_inv (c : C A) (k : A -> C B) m (Q : B -> memory -> Prop) :
  wp (c ≫= k) m Q -> wp c m (fun a m' => wp (k a) m' Q).
Proof.
  unfold wp, mbind, C_bind. by destruct (c m) as [[a m']|].
Qed.

Lemma wp_mono (c : C A) m (P Q : A -> memory -> Prop) :
  wp c m P -> (forall a m', P a m' -> Q a m') -> wp c m Q.
Proof. unfold wp. destruct (c m) as [[a m']|]; auto. Qed.

Lemma run_bind (c : C A) (k : A -> C B) m a m' : c m = Some (a, m') -> (c ≫= k) m = k a m'.
Proof. intros E. unfold mbind, C_bind. by rewrite E. Qed.
Lemma stop_bind (c : C A) (k : A -> C B) m : c m = None -> (c ≫= k) m = None.
Proof. intros E. unfold mbind, C_bind. by rewrite E. Qed.

Lemma wp_elim (c : C A) m (a : A) m' :
  wp c m (fun a' m'' => a' = a /\ m'' = m') <-> c m = Some (a, m').
Proof.
  unfold wp. destruct (c m) as [[a1 m1]|]; split; intros H; try done.
  - by destruct H as [-> ->].
  - by injection H.
Qed.
End wp.

(** Regrouping a read and the write that uses it. *)
Lemma C_bind_assoc {A B D} (c : C A) (f : A -> C B) (k : C D) m Q :
  wp ((c ≫= f);; k) m Q <-> wp (c ≫= fun a => f a;; k) m Q.
Proof.
  unfold wp, mbind, C_bind. destruct (c m) as [[a m']|]; [|done].
  by destruct (f a m') as [[b m'']|].
Qed.

Lemma wp_if {A} (b : bool) (c1 c2 : C A) m Q :
  (b = true -> wp c1 m Q) -> (b = false -> wp c2 m Q) ->
  wp (if b then c1 else c2) m Q.
Proof. destruct b; auto. Qed.

Lemma wp_load8 p b m Q : m !! p = Some b -> Q b m -> wp (load8 p) m Q.
Proof. intros H HQ. unfold wp, load8. simpl. by rewrite H. Qed.

Lemma wp_store8 p v m (Q : unit -> memory -> Prop) :
  is_Some (m !! p) -> Q tt (<[p := wrap8 v]> m) -> wp (store8 p v) m Q.
Proof. intros [b H] HQ. unfold wp, store8. by rewrite H. Qed.

(** The loop rule: an invariant, and a measure that bounds the iterations. *)
Lemma wp_loop {S R} (I : S -> memory -> Prop) (meas : S -> nat)
    (body : S -> C (S + R)) (Q : R -> memory -> Prop) fuel s m :
  (forall s m, I s m ->
     wp (body s) m (fun r m' =>
       match r with
       | inl s' => I s' m' /\ (meas s' < meas s)%nat
       | inr v => Q v m'
       end)) ->
  I s m -> (meas s < fuel)%nat -> wp (loop fuel body s) m Q.
Proof.
  intros Hbody. revert s m. induction fuel as [|fuel IH]; intros s m HI Hf; [lia|].
  simpl. apply wp_bind. eapply wp_mono; [by apply Hbody|].
  intros [s'|v] m'; simpl; [intros [HI' Hm]; apply IH; [done|lia]|].
  intros HQ. by apply wp_ret.
Qed.

(** ** Byte sequences in memory *)

(** [bytes_at m p l]: the bytes [l] are stored from address [p] on. *)
Fixpoint bytes_at (m : memory) (p : Z) (l : list Z) : Prop :=
  match l with
  | [] => True
  | b :: l => m !! p = Some b /\ bytes_at m (p + 1) l
  end.

(** [mem_write m p l]: the memory after the bytes [l] are stored at [p]. *)
Fixpoint mem_write (m : memory) (p : Z) (l : list Z) : memory :=
  match l with
  | [] => m
  | b :: l => mem_write (<[p := b]> m) (p + 1) l
  end.

Definition mapped (m : memory) (p : Z) (n : nat) : Prop :=
  forall q, p <= q < p + Z.of_nat n -> is_Some (m !! q).

Abbreviation lenZ l := (Z.of_nat (length l)).

Fixpoint le_combine (l : list Z) : Z :=
  match l with [] => 0 | b :: l => b + 256 * le_combine l end.

Fixpoint le_split (k : nat) (v : Z) : list Z :=
  match k with O => [] | S k => wrap8 v :: le_split k (v / 256) end.

Lemma bytes_at_app m p l1 l2 :
  bytes_at m p (l1 ++ l2) <-> bytes_at m p l1 /\ bytes_at m (p + lenZ l1) l2.
Proof.
  revert p. induction l1 as [|b l1 IH]; intros p; simpl.
  - replace (p + Z.of_nat 0) with p by lia. tauto.
  - rewrite IH. replace (p + Z.of_nat (S (length l1))) with (p + 1 + lenZ l1) by lia.
    tauto.
Qed.

Lemma bytes_at_lookup m p l i b :
  bytes_at m p l -> l !! i = Some b -> m !! (p + Z.of_nat i) = Some b.
Proof.
  revert p i. induction l as [|c l IH]; intros p i Hl Hi; [done|].
  destruct Hl as [Hp Hl]. destruct i as [|i]; simpl in *.
  - replace (p + Z.of_nat 0) with p by lia. congruence.
  - replace (p + Z.of_nat (S i)) with (p + 1 + Z.of_nat i) by lia. eauto.
Qed.

Lemma bytes_at_intro m p l :
  (forall i b, l !! i = Some b -> m !! (p + Z.of_nat i) = Some b) -> bytes_at m p l.
Proof.
  revert p. induction l as [|c l IH]; intros p H; simpl; [done|]. split.
  - specialize (H 0%nat c eq_refl). by replace (p + Z.of_nat 0) with p in H by lia.
  - apply IH. intros i b Hi. replace (p + 1 + Z.of_nat i) with (p + Z.of_nat (S i)) by lia.
    by apply H.
Qed.

Lemma bytes_at_mapped m p l : bytes_at m p l -> mapped m p (length l).
Proof.
  intros H q Hq.
  destruct (lookup_lt_is_Some_2 l (Z.to_nat (q - p))) as [b Hb]; [lia|].
  eapply bytes_at_lookup in Hb; [|done].
  replace (p + Z.of_nat (Z.to_nat (q - p))) with q in Hb by lia. eauto.
Qed.

Lemma bytes_at_inj m p l1 l2 :
  bytes_at m p l1 -> bytes_at m p l2 -> length l1 = length l2 -> l1 = l2.
Proof.
  revert p l2. induction l1 as [|b l1 IH]; intros p [|b2 l2] H1 H2 Hlen; try done.
  destruct H1, H2. f_equal; [congruence|]. eapply IH; eauto.
Qed.

Lemma mem_write_lookup m p l q :
  mem_write m p l !! q =
  if decide (p <= q < p + lenZ l) then l !! Z.to_nat (q - p) else m !! q.
Proof.
  revert m p. induction l as [|b l IH]; intros m p; simpl.
  - case_decide; [lia|done].
  - rewrite IH. destruct (decide (q = p)) as [->|Hne].
    + rewrite !decide_False by lia. rewrite lookup_insert_eq, decide_True by lia.
      by replace (Z.to_nat (p - p)) with 0%nat by lia.
    + rewrite lookup_insert_ne by done. repeat case_decide; try lia; [|done].
      by replace (Z.to_nat (q - p)) with (S (Z.to_nat (q - (p + 1)))) by lia.
Qed.

Lemma mem_write_app m p l1 l2 :
  mem_write m p (l1 ++ l2) = mem_write (mem_write m p l1) (p + lenZ l1) l2.
Proof.
  revert m p. induction l1 as [|b l1 IH]; intros m p; simpl.
  - by replace (p + Z.of_nat 0) with p by lia.
  - rewrite IH. f_equal. lia.
Qed.

Lemma mem_write_ne m p l q :
  ~ (p <= q < p + lenZ l) -> mem_write m p l !! q = m !! q.
Proof. intros. by rewrite mem_write_lookup, decide_False. Qed.

Lemma mem_write_bytes_at m p l : bytes_at (mem_write m p l) p l.
Proof.
  apply bytes_at_intro. intros i b Hi. pose proof (lookup_lt_Some _ _ _ Hi).
  rewrite mem_write_lookup, decide_True by lia.
  by replace (Z.to_nat (p + Z.of_nat i - p)) with i by lia.
Qed.

Lemma mem_write_id m p l : bytes_at m p l -> mem_write m p l = m.
Proof.
  intros H. apply map_eq. intros q. rewrite mem_write_lookup. case_decide; [|done].
  destruct (lookup_lt_is_Some_2 l (Z.to_nat (q - p))) as [b Hb]; [lia|].
  rewrite Hb. symmetry. eapply bytes_at_lookup in Hb; [|done]. rewrite <- Hb. f_equal; lia.
Qed.

Definition disjoint_ranges (p : Z) (n : nat) (q : Z) (k : nat) : Prop :=
  p + Z.of_nat n <= q \/ q + Z.of_nat k <= p.

Lemma bytes_at_mem_write_disjoint m p l q l' :
  disjoint_ranges p (length l) q (length l') ->
  bytes_at m q l' -> bytes_at (mem_write m p l) q l'.
Proof.
  intros Hd H. apply bytes_at_intro. intros i b Hi. pose proof (lookup_lt_Some _ _ _ Hi).
  unfold disjoint_ranges in Hd. rewrite mem_write_ne by lia. by eapply bytes_at_lookup.
Qed.

Lemma mapped_mem_write m p l q n : mapped m q n -> mapped (mem_write m p l) q n.
Proof.
  intros H a Ha. rewrite mem_write_lookup. case_decide; [|by apply H].
  apply lookup_lt_is_Some_2. lia.
Qed.

Lemma mapped_weaken m p n q k :
  mapped m p n -> p <= q -> q + Z.of_nat k <= p + Z.of_nat n -> mapped m q k.
Proof. intros H ? ? a ?. apply H. lia. Qed.

Lemma length_le_split k v : length (le_split k v) = k.
Proof. revert v. induction k as [|k IH]; intros v; simpl; auto. Qed.

Lemma le_split_byte n v : Forall is_byte (le_split n v).
Proof. revert v. induction n as [|n IH]; intros v; constructor; [by apply wrap_range|apply IH]. Qed.

Lemma le_split_combine l :
  Forall is_byte l -> le_split (length l) (le_combine l) = l.
Proof.
  induction 1 as [|b l Hb Hl IH]; simpl; [done|]. unfold in_range in Hb.
  rewrite Z.mul_comm. f_equal.
  - unfold wrap. change (2 ^ 8) with 256 in *. rewrite Z.mod_add, Z.mod_small by lia. done.
  - change (2 ^ 8) with 256 in *. rewrite Z.div_add, Z.div_small by lia.
    by rewrite Z.add_0_l.
Qed.

Lemma le_combine_range l :
  Forall is_byte l -> in_range (8 * lenZ l) (le_combine l).
Proof.
  unfold in_range. induction 1 as [|b l Hb Hl IH]; simpl le_combine; [done|].
  unfold in_range in Hb. change (2 ^ 8) with 256 in *.
  replace (8 * lenZ (b :: l)) with (8 + 8 * lenZ l) by (simpl; lia).
  rewrite Z.pow_add_r by lia. change (2 ^ 8) with 256. lia.
Qed.

Lemma le_combine_split n v : le_combine (le_split n v) = wrap (8 * Z.of_nat n) v.
Proof.
  revert v. induction n as [|n IH]; intros v; cbn [le_split le_combine].
  - unfold wrap. simpl. by rewrite Z.mod_1_r.
  - rewrite IH. unfold wrap. replace (8 * Z.of_nat (S n)) with (8 + 8 * Z.of_nat n) by lia.
    rewrite Z.pow_add_r by lia. change (2 ^ 8) with 256. rewrite Z.rem_mul_r by lia. done.
Qed.

Lemma wp_load_le m p l (Q : Z -> memory -> Prop) :
  bytes_at m p l -> Q (le_combine l) m -> wp (load_le (length l) p) m Q.
Proof.
  revert p Q. induction l as [|b l IH]; intros p Q Hl HQ; simpl; [by apply wp_ret|].
  destruct Hl as [Hb Hl].
  apply wp_bind. eapply wp_load8; [done|].
  apply wp_bind. apply IH; [done|]. by apply wp_ret.
Qed.

Lemma wp_load_word m k p l (Q : Z -> memory -> Prop) :
  p `mod` Z.of_nat k = 0 -> length l = k ->
  bytes_at m p l -> Q (le_combine l) m -> wp (load_word k p) m Q.
Proof.
  intros Ha <- Hl HQ. unfold load_word. rewrite Ha. simpl. by apply wp_load_le.
Qed.

Lemma wp_store_le m k p v (Q : unit -> memory -> Prop) :
  mapped m p k -> Q tt (mem_write m p (le_split k v)) -> wp (store_le k p v) m Q.
Proof.
  revert m p v Q. induction k as [|k IH]; intros m p v Q Hm HQ; simpl; [by apply wp_ret|].
  apply wp_bind, wp_store8; [apply Hm; lia|].
  apply IH; [|done]. intros q Hq.
  destruct (decide (q = p)) as [->|]; [rewrite lookup_insert_eq; eauto|].
  rewrite lookup_insert_ne by done. apply Hm. lia.
Qed.

Lemma wp_store_word m k p v (Q : unit -> memory -> Prop) :
  p `mod` Z.of_nat k = 0 -> mapped m p k ->
  Q tt (mem_write m p (le_split k v)) -> wp (store_word k p v) m Q.
Proof.
  intros Ha Hm HQ. unfold store_word. rewrite Ha. simpl. by apply wp_store_le.
Qed.

(** ** C strings *)

(** Every byte in memory is a byte. *)
Definition mem_ok (m : memory) : Prop := map_Forall (fun _ b => is_byte b) m.

(** [cstring m s l]: the nonzero bytes [l] followed by a NUL are stored at
    [s], and memory is mapped up to the end of the aligned eight-byte word
    that holds the NUL (memory is mapped by pages, so it always is). *)
Record cstring (m : memory) (s : Z) (l : list Z) : Prop := {
  cs_bytes : bytes_at m s (l ++ [0]);
  cs_nz : Forall (fun b => b <> 0) l;
  cs_pad : forall q, s + lenZ l < q < 8 * ((s + lenZ l) / 8 + 1) -> is_Some (m !! q)
}.

Lemma mapped_bytes m p n :
  mapped m p n -> exists l, length l = n /\ bytes_at m p l.
Proof.
  revert p. induction n as [|n IH]; intros p Hm; [by exists []|].
  destruct (Hm p) as [b Hb]; [lia|].
  destruct (IH (p + 1)) as (l & Hlen & Hl); [by eapply mapped_weaken; [done|lia..]|].
  exists (b :: l). simpl. auto.
Qed.

Lemma mem_ok_bytes m p l : mem_ok m -> bytes_at m p l -> Forall is_byte l.
Proof.
  intros Hok. revert p. induction l as [|b l IH]; intros p Hl; [done|].
  destruct Hl as [Hb Hl]. constructor; [by eapply Hok | eauto].
Qed.

Lemma mem_ok_write m p l : mem_ok m -> Forall is_byte l -> mem_ok (mem_write m p l).
Proof.
  intros Hok Hl q b. rewrite mem_write_lookup. case_decide; [|by apply Hok].
  intros Hb. by eapply Forall_lookup_1.
Qed.

Section cstring.
Context (m : memory) (s : Z) (l : list Z) (Hs : cstring m s l).

(** The bytes of the string, and the one that is zero. *)
Lemma cstring_byte p :
  s <= p <= s + lenZ l ->
  exists b, m !! p = Some b /\ (b = 0 <-> p = s + lenZ l).
Proof.
  intros Hp. destruct Hs as [Hb Hnz _].
  destruct (lookup_lt_is_Some_2 (l ++ [0]) (Z.to_nat (p - s))) as [b Hi];
    [rewrite length_app; simpl; lia|].
  exists b. split.
  - eapply bytes_at_lookup in Hi; [|done]. rewrite <- Hi. f_equal. lia.
  - destruct (decide (p = s + lenZ l)) as [->|Hne].
    + rewrite lookup_app_r in Hi by lia.
      replace (Z.to_nat (s + lenZ l - s) - length l)%nat with 0%nat in Hi by lia.
      simpl in Hi. naive_solver.
    + rewrite lookup_app_l in Hi by lia. split; [|done]. intros ->.
      by apply (Forall_lookup_1 _ _ _ _ Hnz) in Hi.
Qed.

(** An aligned word that starts in the string is mapped. *)
Lemma cstring_word w :
  s <= w <= s + lenZ l -> w `mod` 8 = 0 ->
  exists lw, length lw = 8%nat /\ bytes_at m w lw.
Proof.
  intros Hw Ha. apply mapped_bytes. intros q Hq.
  destruct (decide (q <= s + lenZ l)).
  - destruct (cstring_byte q) as (b & Hb & _); [lia|]. eauto.
  - apply (cs_pad _ _ _ Hs). split; [lia|].
    pose proof (Z.div_mod w 8 ltac:(lia)). pose proof (Z.div_le_mono w (s + lenZ l) 8 ltac:(lia)).
    lia.
Qed.

(** A word of the string holds a zero byte exactly when the string ends in it. *)
Lemma cstring_word_zero w lw :
  s <= w <= s + lenZ l -> length lw = 8%nat -> bytes_at m w lw ->
  (0 ∈ lw <-> s + lenZ l < w + 8).
Proof.
  intros Hw Hlen Hlw. split.
  - intros [i Hi]%list_elem_of_lookup. pose proof (lookup_lt_Some _ _ _ Hi).
    eapply bytes_at_lookup in Hi; [|done].
    destruct (decide (w + Z.of_nat i <= s + lenZ l)); [|lia].
    destruct (cstring_byte (w + Z.of_nat i)) as (b & Hb & Hz); [lia|].
    assert (b = 0) by congruence. apply Hz in H0. lia.
  - intros Hend. destruct (cstring_byte (s + lenZ l)) as (b & Hb & Hz); [lia|].
    destruct (lookup_lt_is_Some_2 lw (Z.to_nat (s + lenZ l - w))) as [b' Hi]; [lia|].
    apply list_elem_of_lookup. exists (Z.to_nat (s + lenZ l - w)).
    pose proof (bytes_at_lookup _ _ _ _ _ Hlw Hi) as Hb'.
    replace (w + Z.of_nat (Z.to_nat (s + lenZ l - w))) with (s + lenZ l) in Hb' by lia.
    rewrite Hi. f_equal. rewrite <- (proj2 Hz eq_refl). congruence.
Qed.
End cstring.

(** ** Proof automation for [wp] *)

Ltac wp_step :=
  lazy beta iota;
  lazymatch goal with
  | |- wp (_ ≫= _) _ _ => apply wp_bind
  | |- wp (mret _) _ _ => apply wp_ret
  | |- wp (load8 _) _ _ => eapply wp_load8
  | |- wp (store8 _ _) _ _ => apply wp_store8
  | |- wp (let '(_, _) := ?p in _) _ _ => destruct p
  end.

(** Equality of loop states, component by component. *)
Ltac tuple_lia :=
  repeat lazymatch goal with |- (_, _) = (_, _) => apply f_equal2 end; lia.
