(* ===== verification/StrScan.v ===== *)
(** * StrScan: the scanning functions of musl's string library

    [strlen], [memchr], [strchrnul] and the functions built on them.  They
    read memory eight bytes at a time and detect a zero byte in a word with
    the [HASZERO] mask; the theorems show that this agrees with a byte by
    byte scan and that no byte outside the aligned words that hold the
    argument is ever read. *)

From S2P Require Import Prelude CMem.
From stdpp Require Import base tactics numbers list gmap.
Open Scope Z_scope.

(** ** The word constants *)

Definition UCHAR_MAX : Z := 255.
Definition SIZE_MAX : Z := 2 ^ 64 - 1.
Definition ONES : Z := SIZE_MAX / UCHAR_MAX.
Definition HIGHS : Z := wrap64 (ONES * (UCHAR_MAX / 2 + 1)).
Definition HASZERO (x : Z) : Z :=
  Z.land (Z.land (wrap64 (x - ONES)) (wrap64 (Z.lnot x))) HIGHS.

(** sizeof(size_t) *)
Definition ALIGN : Z := 8.

(** ** The functions *)

Definition strlen (fuel : nat) (s : Z) : C Z :=
  let a := s in
  r ← loop fuel (fun s =>
        if truth (s `mod` ALIGN) then
          b ← load8 s;
          if b =? 0 then mret (inr (inr (s - a))) else mret (inl (s + 1))
        else mret (inr (inl s))) s;
  match r with
  | inr n => mret n
  | inl s =>
      w ← loop fuel (fun w =>
            x ← load64 w;
            if truth (HASZERO x) then mret (inr w) else mret (inl (w + 8))) s;
      s ← loop fuel (fun s =>
            b ← load8 s;
            if truth b then mret (inl (s + 1)) else mret (inr s)) w;
      mret (s - a)
  end.

Definition memchr (fuel : nat) (src c n : Z) : C Z :=
  let c := wrap8 c in
  '(s, n) ← loop fuel (fun '(s, n) =>
        if truth (Z.land s (ALIGN - 1)) && truth n then
          b ← load8 s;
          if b =? c then mret (inr (s, n)) else mret (inl (s + 1, n - 1))
        else mret (inr (s, n))) (src, n);
  '(s, n) ← (if truth n then
        b ← load8 s;
        if b =? c then mret (s, n) else
        let k := wrap64 (ONES * c) in
        loop fuel (fun '(w, n) =>
          if 8 <=? n then
            x ← load64 w;
            if truth (HASZERO (Z.lxor x k)) then mret (inr (w, n))
            else mret (inl (w + 8, n - 8))
          else mret (inr (w, n))) (s, n)
      else mret (s, n));
  '(s, n) ← loop fuel (fun '(s, n) =>
        if truth n then
          b ← load8 s;
          if b =? c then mret (inr (s, n)) else mret (inl (s + 1, n - 1))
        else mret (inr (s, n))) (s, n);
  mret (if truth n then s else 0).

Definition strnlen (fuel : nat) (s n : Z) : C Z :=
  p ← memchr fuel s 0 n;
  mret (if truth p then p - s else n).

Definition memrchr (fuel : nat) (m c n : Z) : C Z :=
  let c := wrap8 c in
  loop fuel (fun n =>
    if truth n then
      let n := n - 1 in
      b ← load8 (m + n);
      if b =? c then mret (inr (m + n)) else mret (inl n)
    else mret (inr 0)) n.

Definition strchrnul (fuel : nat) (s c : Z) : C Z :=
  let c := wrap8 c in
  if c =? 0 then n ← strlen fuel s; mret (s + n) else
  r ← loop fuel (fun s =>
        if truth (s `mod` ALIGN) then
          b ← load8 s;
          if (b =? 0) || (b =? c) then mret (inr (inr s)) else mret (inl (s + 1))
        else mret (inr (inl s))) s;
  match r with
  | inr s => mret s
  | inl s =>
      let k := wrap64 (ONES * c) in
      w ← loop fuel (fun w =>
            x ← load64 w;
            if negb (truth (HASZERO x)) && negb (truth (HASZERO (Z.lxor x k)))
            then mret (inl (w + 8)) else mret (inr w)) s;
      loop fuel (fun s =>
        b ← load8 s;
        if truth b && negb (b =? c) then mret (inl (s + 1)) else mret (inr s)) w
  end.

Definition strchr (fuel : nat) (s c : Z) : C Z :=
  r ← strchrnul fuel s c;
  b ← load8 r;
  mret (if b =? wrap8 c then r else 0).

Definition strrchr (fuel : nat) (s c : Z) : C Z :=
  n ← strlen fuel s;
  memrchr fuel s c (n + 1).

(** ** The zero-byte test *)

Fixpoint rep (n : nat) (b : Z) : Z :=
  match n with O => 0 | S n => b + 256 * rep n b end.

Lemma ONES_rep : ONES = rep 8 1. Proof. reflexivity. Qed.
Lemma HIGHS_rep : HIGHS = rep 8 128. Proof. reflexivity. Qed.

Lemma testbit_split a b i :
  0 <= a < 256 -> 0 <= i ->
  Z.testbit (a + 256 * b) i = if i <? 8 then Z.testbit a i else Z.testbit b (i - 8).
Proof.
  intros Ha Hi. destruct (Z.ltb_spec i 8).
  - rewrite <- (Z.mod_pow2_bits_low (a + 256 * b) 8) by lia.
    change (2 ^ 8) with 256. rewrite Z.mul_comm, Z.mod_add, Z.mod_small by lia. done.
  - replace i with (i - 8 + 8) at 1 by lia. rewrite <- Z.div_pow2_bits by lia.
    change (2 ^ 8) with 256. rewrite Z.mul_comm, Z.div_add, Z.div_small by lia. done.
Qed.

Lemma bitop_split (f : Z -> Z -> Z) (g : bool -> bool -> bool) a1 a2 b1 b2 :
  (forall x y i, 0 <= i -> Z.testbit (f x y) i = g (Z.testbit x i) (Z.testbit y i)) ->
  0 <= a1 < 256 -> 0 <= b1 < 256 -> 0 <= f a1 b1 < 256 ->
  f (a1 + 256 * a2) (b1 + 256 * b2) = f a1 b1 + 256 * f a2 b2.
Proof.
  intros Hf Ha Hb Hfab. apply Z.bits_inj'. intros i Hi.
  rewrite Hf, !testbit_split by lia.
  destruct (Z.ltb_spec i 8); by rewrite Hf by lia.
Qed.

Lemma byte_log2 x : 0 <= x -> is_byte x <-> Z.log2 x < 8.
Proof.
  intros Hx. unfold in_range. destruct (decide (x = 0)) as [->|]; [done|].
  rewrite <- Z.log2_lt_pow2 by lia. lia.
Qed.

Lemma land_byte a b : is_byte a -> is_byte b -> is_byte (Z.land a b).
Proof.
  intros Ha Hb. assert (0 <= a /\ 0 <= b) as [? ?] by (unfold in_range in *; lia).
  assert (0 <= Z.land a b) by (apply Z.land_nonneg; lia).
  rewrite byte_log2 in * by done. pose proof (Z.log2_land a b). lia.
Qed.

Lemma lxor_byte a b : is_byte a -> is_byte b -> is_byte (Z.lxor a b).
Proof.
  intros Ha Hb. assert (0 <= a /\ 0 <= b) as [? ?] by (unfold in_range in *; lia).
  assert (0 <= Z.lxor a b) by (apply Z.lxor_nonneg; lia).
  rewrite byte_log2 in * by done. pose proof (Z.log2_lxor a b). lia.
Qed.

Lemma land_split a1 a2 b1 b2 :
  0 <= a1 < 256 -> 0 <= b1 < 256 ->
  Z.land (a1 + 256 * a2) (b1 + 256 * b2) = Z.land a1 b1 + 256 * Z.land a2 b2.
Proof.
  intros. apply (bitop_split Z.land andb); try done; [|by apply land_byte].
  intros. apply Z.land_spec.
Qed.

Lemma lor_split a1 a2 b1 b2 : 0 <= a1 < 256 -> 0 <= b1 < 256 ->
  Z.lor (a1 + 256 * a2) (b1 + 256 * b2) = Z.lor a1 b1 + 256 * Z.lor a2 b2.
Proof. intros. apply (bitop_split Z.lor orb); try done; [intros; apply Z.lor_spec|]. change 256 with (2 ^ 8). apply lor_in_range; [lia|done|done]. Qed.

Lemma lxor_split a1 a2 b1 b2 :
  0 <= a1 < 256 -> 0 <= b1 < 256 ->
  Z.lxor (a1 + 256 * a2) (b1 + 256 * b2) = Z.lxor a1 b1 + 256 * Z.lxor a2 b2.
Proof.
  intros. apply (bitop_split Z.lxor xorb); try done; [|by apply lxor_byte].
  intros. apply Z.lxor_spec.
Qed.

(** The mask of one nonzero byte is empty: checked on all 255 values. *)
Lemma byte_mask b : 1 <= b < 256 -> Z.land (Z.land (b - 1) (255 - b)) 128 = 0.
Proof.
  intros Hb.
  assert (forallb (fun i => Z.land (Z.land (Z.of_nat i - 1) (255 - Z.of_nat i)) 128 =? 0)
            (seq 1 255) = true) as H by reflexivity.
  rewrite forallb_forall in H. specialize (H (Z.to_nat b)).
  rewrite Z2Nat.id in H by lia. apply Z.eqb_eq, H, in_seq. lia.
Qed.

Lemma haszero_combine l :
  Forall is_byte l ->
  Z.land (Z.land (le_combine l - rep (length l) 1) (Z.lnot (le_combine l)))
    (rep (length l) 128) <> 0 <-> 0 ∈ l.
Proof.
  induction 1 as [|b l Hb Hl IH]; simpl; [set_solver|].
  set (y := le_combine l) in *. set (o := rep (length l) 1) in *.
  unfold in_range in Hb. change (2 ^ 8) with 256 in Hb.
  replace (Z.lnot (b + 256 * y)) with ((255 - b) + 256 * Z.lnot y)
    by (unfold Z.lnot; lia).
  destruct (decide (b = 0)) as [->|Hnz].
  - replace (0 + 256 * y - (1 + 256 * o)) with (255 + 256 * (y - o - 1)) by lia.
    rewrite !land_split by (lia || (apply land_byte; unfold in_range; lia)).
    change (Z.land (Z.land 255 (255 - 0)) 128) with 128.
    rewrite elem_of_cons. split; [by left | lia].
  - replace (b + 256 * y - (1 + 256 * o)) with ((b - 1) + 256 * (y - o)) by lia.
    rewrite !land_split by (lia || (apply land_byte; unfold in_range; lia)).
    rewrite byte_mask by lia. rewrite elem_of_cons, <- IH. lia.
Qed.

Lemma land_wrap64 a b h :
  0 <= h < 2 ^ 64 -> Z.land (Z.land (wrap64 a) (wrap64 b)) h = Z.land (Z.land a b) h.
Proof.
  intros Hh. apply Z.bits_inj'. intros i Hi. rewrite !Z.land_spec. unfold wrap.
  destruct (Z.ltb_spec i 64).
  - by rewrite !Z.mod_pow2_bits_low by lia.
  - replace (Z.testbit h i) with false; [by rewrite !andb_false_r|].
    symmetry. destruct (decide (h = 0)) as [->|]; [apply Z.bits_0|].
    apply Z.bits_above_log2; [lia|].
    apply Z.lt_le_trans with 64; [apply Z.log2_lt_pow2; lia|lia].
Qed.

Lemma HASZERO_spec l :
  length l = 8%nat -> Forall is_byte l ->
  truth (HASZERO (le_combine l)) = bool_decide (0 ∈ l).
Proof.
  intros Hlen Hl. unfold HASZERO, truth. rewrite land_wrap64 by (by vm_compute).
  rewrite ONES_rep, HIGHS_rep, <- Hlen. pose proof (haszero_combine l Hl) as H.
  case_bool_decide as Hz; [apply H in Hz | apply not_iff_compat in H; apply H in Hz];
    destruct (Z.eqb_spec (Z.land (Z.land (le_combine l - rep (length l) 1)
      (Z.lnot (le_combine l))) (rep (length l) 128)) 0); by auto || lia.
Qed.

Lemma le_combine_lxor l c :
  Forall is_byte l -> is_byte c ->
  Z.lxor (le_combine l) (rep (length l) c) = le_combine (Z.lxor c <$> l).
Proof.
  intros Hl Hc. induction Hl as [|b l Hb Hl IH]; simpl; [done|].
  rewrite lxor_split by done. by rewrite IH, (Z.lxor_comm b c).
Qed.

Lemma HASZERO_lxor_spec l c :
  length l = 8%nat -> Forall is_byte l -> is_byte c ->
  truth (HASZERO (Z.lxor (le_combine l) (wrap64 (ONES * c)))) = bool_decide (c ∈ l).
Proof.
  intros Hlen Hl Hc.
  assert (wrap64 (ONES * c) = rep (length l) c) as ->.
  { rewrite Hlen, wrap_small.
    - rewrite ONES_rep. simpl. lia.
    - unfold in_range in *. change (2 ^ 8) with 256 in *. rewrite ONES_rep. simpl. lia. }
  assert (Forall is_byte (Z.lxor c <$> l)).
  { apply Forall_fmap. eapply Forall_impl; [done|]. intros b Hb. by apply lxor_byte. }
  rewrite le_combine_lxor, HASZERO_spec by (rewrite ?length_fmap; auto).
  apply bool_decide_ext. rewrite list_elem_of_fmap. split.
  - intros (b & Hb & Hin). symmetry in Hb. apply Z.lxor_eq in Hb. by subst.
  - intros Hin. exists c. by rewrite Z.lxor_nilpotent.
Qed.

(** ** Correctness of the scans *)

Lemma truth_true z : truth z = true <-> z <> 0.
Proof. unfold truth. destruct (Z.eqb_spec z 0); simpl; split; congruence. Qed.

Lemma truth_false z : truth z = false <-> z = 0.
Proof. unfold truth. destruct (Z.eqb_spec z 0); simpl; split; congruence. Qed.

Section strlen.
Context (m : memory) (a : Z) (l : list Z) (Hok : mem_ok m) (Hs : cstring m a l).

Lemma wp_strlen fuel : (S (length l) < fuel)%nat ->
  wp (strlen fuel a) m (fun n m' => n = lenZ l /\ m' = m).
Proof.
  intros Hf. unfold strlen. apply wp_bind.
  apply (wp_loop (fun s m' => m' = m /\ a <= s <= a + lenZ l)
           (fun s => Z.to_nat (a + lenZ l + 1 - s))); [|split; [done|lia]|lia].
  intros s ? [-> Hsr]. case_match eqn:Halign.
  - destruct (cstring_byte m a l Hs s Hsr) as (b & Hb & Hz).
    wp_step. wp_step; [done|]. destruct (Z.eqb_spec b 0); wp_step.
    + wp_step. split; [|done]. apply Hz in e. lia.
    + split; [split; [done|]|]; (assert (s <> a + lenZ l) by tauto); lia.
  - wp_step. apply truth_false in Halign. apply wp_bind.
    apply (wp_loop (fun w m' => m' = m /\ a <= w <= a + lenZ l /\ w `mod` 8 = 0)
             (fun w => Z.to_nat (a + lenZ l + 1 - w))); [|done|lia].
    clear s Hsr Halign. intros w ? (-> & Hw & Ha).
    destruct (cstring_word m a l Hs w Hw Ha) as (lw & Hlen & Hlw).
    wp_step. eapply wp_load_word; [done..|].
    rewrite HASZERO_spec by eauto using mem_ok_bytes.
    pose proof (cstring_word_zero m a l Hs w lw Hw Hlen Hlw) as Hz.
    case_bool_decide as Hin; wp_step.
    + apply wp_bind.
      apply (wp_loop (fun s m' => m' = m /\ a <= s <= a + lenZ l)
               (fun s => Z.to_nat (a + lenZ l + 1 - s))); [|done|lia].
      intros s ? [-> Hsr]. destruct (cstring_byte m a l Hs s Hsr) as (b & Hb & Hbz).
      wp_step. wp_step; [done|]. case_match eqn:Hbt; wp_step.
      * apply truth_true in Hbt. assert (s <> a + lenZ l) by tauto. split; [split; [done|]|]; lia.
      * wp_step. apply truth_false, Hbz in Hbt. split; [lia|done].
    + assert (w + 8 <= a + lenZ l) by (destruct (decide (a + lenZ l < w + 8)); [tauto|lia]).
      split; [split; [done|split; [lia|]]|lia].
      by rewrite Z.add_mod, Ha by lia.
Qed.
End strlen.

Lemma mod8_add8 w : w `mod` 8 = 0 -> (w + 8) `mod` 8 = 0.
Proof. intros H. by rewrite Z.add_mod, H by lia. Qed.

Lemma land7 p : Z.land p (ALIGN - 1) = p `mod` 8.
Proof. change (ALIGN - 1) with (Z.ones 3). by rewrite Z.land_ones by lia. Qed.

(** Extending a prefix without [c] by one byte, and by a word. *)
Lemma not_elem_take_S (l : list Z) k c b :
  c ∉ take k l -> l !! k = Some b -> b <> c -> c ∉ take (S k) l.
Proof. intros H Hk Hb. rewrite (take_S_r _ _ _ Hk). set_solver. Qed.

Lemma not_elem_take_word m p (l lw : list Z) k c :
  bytes_at m p l -> bytes_at m (p + Z.of_nat k) lw -> (k + length lw <= length l)%nat ->
  c ∉ take k l -> c ∉ lw -> c ∉ take (k + length lw) l.
Proof.
  intros Hl Hlw Hk Htake Hin. rewrite <- (take_drop k l) in Hl.
  apply bytes_at_app in Hl as [_ Hl]. rewrite length_take_le in Hl by lia.
  rewrite <- (take_drop (length lw) (drop k l)), bytes_at_app in Hl. destruct Hl as [Hl _].
  rewrite <- take_take_drop. rewrite (bytes_at_inj _ _ _ _ Hlw Hl) in Hin
    by (rewrite length_take, length_drop; lia). set_solver.
Qed.

Lemma list_find_first (l : list Z) k c :
  c ∉ take k l -> l !! k = Some c -> list_find (fun b => b = c) l = Some (k, c).
Proof.
  intros Hn Hk. apply list_find_Some. repeat split; [done..|].
  intros j b Hj Hjk ->. apply Hn, list_elem_of_lookup. exists j.
  by rewrite lookup_take_lt.
Qed.

Lemma list_find_none (l : list Z) k c :
  c ∉ take k l -> (length l <= k)%nat -> list_find (fun b => b = c) l = None.
Proof.
  intros Hn Hk. rewrite take_ge in Hn by done. apply list_find_None, Forall_forall.
  intros b Hb ->. done.
Qed.

Section memchr.
Context (m : memory) (src : Z) (l : list Z) (c : Z).
Context (Hok : mem_ok m) (Hl : bytes_at m src l) (Hc : is_byte c).

(** The state of all three loops: [k] bytes scanned, none of them [c]. *)
Definition memchr_inv (st : Z * Z) (m' : memory) : Prop :=
  m' = m /\ exists k : nat,
    st = (src + Z.of_nat k, lenZ l - Z.of_nat k) /\ (k <= length l)%nat /\ c ∉ take k l.

Definition memchr_stop (st : Z * Z) : Prop := snd st = 0 \/ m !! fst st = Some c.

Lemma memchr_byte k :
  (k < length l)%nat -> exists b, l !! k = Some b /\ m !! (src + Z.of_nat k) = Some b.
Proof.
  intros Hk. destruct (lookup_lt_is_Some_2 l k Hk) as [b Hb].
  exists b. split; [done|]. by eapply bytes_at_lookup.
Qed.

Lemma wp_memchr_bytes fuel (g : Z -> bool) st (Q : Z * Z -> memory -> Prop) :
  memchr_inv st m -> (length l < fuel)%nat ->
  (forall st, memchr_inv st m -> memchr_stop st \/ g (fst st) = false -> Q st m) ->
  wp (loop fuel (fun '(s, n) =>
        if g s && truth n then
          b ← load8 s;
          if b =? c then mret (inr (s, n)) else mret (inl (s + 1, n - 1))
        else mret (inr (s, n))) st) m Q.
Proof.
  intros Hst Hf HQ.
  apply (wp_loop memchr_inv (fun '(s, n) => Z.to_nat n)); [|done|].
  - intros st' m' Hst'. pose proof Hst' as (-> & k & -> & Hk & Hn).
    case_match eqn:Hg; [apply andb_prop in Hg as [Hg Ht]; apply truth_true in Ht|].
    + destruct (memchr_byte k) as (b & Hb & Hmb); [lia|].
      wp_step. wp_step; [done|]. destruct (Z.eqb_spec b c) as [->|Hne]; wp_step.
      * apply HQ; [done|left; by right].
      * split; [|lia]. split; [done|]. exists (S k). split; [f_equal; lia|]. split; [lia|].
        by eapply not_elem_take_S.
    + wp_step. apply HQ; [done|]. apply andb_false_iff in Hg as [Hg|Hg]; [by right|].
      apply truth_false in Hg. by left; left.
  - destruct Hst as (_ & k & -> & Hk & _). lia.
Qed.

Lemma wp_memchr_words fuel s n (Q : Z * Z -> memory -> Prop) :
  memchr_inv (s, n) m -> s `mod` 8 = 0 -> (length l < fuel)%nat ->
  (forall st, memchr_inv st m -> Q st m) ->
  wp (loop fuel (fun '(w, n) =>
        if 8 <=? n then
          x ← load64 w;
          if truth (HASZERO (Z.lxor x (wrap64 (ONES * c)))) then mret (inr (w, n))
          else mret (inl (w + 8, n - 8))
        else mret (inr (w, n))) (s, n)) m Q.
Proof.
  intros Hst Ha Hf HQ.
  apply (wp_loop (fun st m' => memchr_inv st m' /\ fst st `mod` 8 = 0)
           (fun '(s, n) => Z.to_nat n)); [|done|].
  - intros st' m' [Hst' Ha']. pose proof Hst' as (-> & k & -> & Hk & Hn). simpl in Ha'.
    destruct (Z.leb_spec 8 (lenZ l - Z.of_nat k)); [|wp_step; by apply HQ].
    destruct (mapped_bytes m (src + Z.of_nat k) 8) as (lw & Hlen & Hlw).
    { eapply mapped_weaken; [by apply (bytes_at_mapped _ _ _ Hl)|lia..]. }
    wp_step. eapply wp_load_word; [done..|].
    rewrite HASZERO_lxor_spec by eauto using mem_ok_bytes.
    case_bool_decide as Hin; wp_step; [by apply HQ|].
    split; [|lia]. split; [|by apply mod8_add8]. split; [done|].
    exists (k + length lw)%nat. split; [rewrite Hlen; f_equal; lia|].
    split; [lia|]. eapply not_elem_take_word; eauto. lia.
  - destruct Hst as (_ & k & [= -> ->] & Hk & _). lia.
Qed.

Lemma memchr_result st :
  memchr_inv st m -> memchr_stop st ->
  (if truth (snd st) then fst st else 0) =
  match list_find (fun b => b = c) l with Some (i, _) => src + Z.of_nat i | None => 0 end.
Proof.
  intros (_ & k & -> & Hk & Hn) Hstop. simpl. case_match eqn:Ht.
  - apply truth_true in Ht. destruct Hstop as [Hz|Hb]; [simpl in Hz; lia|].
    destruct (memchr_byte k) as (b & Hlb & Hmb); [lia|]. simpl in Hb.
    rewrite Hb in Hmb. injection Hmb as <-. by rewrite (list_find_first l k c).
  - apply truth_false in Ht. by rewrite (list_find_none l k c) by (done || lia).
Qed.
End memchr.

Lemma wp_memchr m src l c fuel :
  mem_ok m -> bytes_at m src l -> (length l < fuel)%nat ->
  wp (memchr fuel src c (lenZ l)) m (fun r m' => m' = m /\
    r = match list_find (fun b => b = wrap8 c) l with
        | Some (i, _) => src + Z.of_nat i | None => 0 end).
Proof.
  intros Hok Hl Hf. unfold memchr. assert (is_byte (wrap8 c)) as Hc by (apply wrap_range; lia).
  assert (memchr_inv m src l (wrap8 c) (src, lenZ l) m) as Hinit.
  { split; [done|]. exists 0%nat. split; [f_equal; lia|]. split; [lia|]. simpl. set_solver. }
  apply wp_bind.
  apply (wp_memchr_bytes _ _ _ _ Hl _ (fun s => truth (Z.land s (ALIGN - 1)))); [done..|].
  intros [s n] Hst Hstop. simpl. apply wp_bind.
  apply (wp_mono _ _ (memchr_inv m src l (wrap8 c))).
  - case_match eqn:Ht; [|by wp_step]. apply truth_true in Ht.
    pose proof Hst as (_ & k & [= -> ->] & Hk & Hn).
    destruct (memchr_byte _ _ _ Hl k) as (b & Hb & Hmb); [lia|].
    wp_step. wp_step; [done|]. destruct (Z.eqb_spec b (wrap8 c)) as [->|Hne]; [by wp_step|].
    apply (wp_memchr_words _ _ _ _ Hok Hl); [done..| |done|done].
    rewrite <- land7. destruct Hstop as [[Hz|Hz]|Hz]; [simpl in Hz; lia| |by apply truth_false].
    simpl in Hz. congruence.
  - clear s n Hst Hstop. intros [s n] m' Hst. pose proof Hst as [-> _]. apply wp_bind.
    apply (wp_memchr_bytes _ _ _ _ Hl _ (fun _ => true)); [done..|].
    intros [s' n'] Hst' [Hstop|]; [|done]. wp_step.
    split; [done|]. by apply (memchr_result _ _ _ _ Hl (s', n')).
Qed.

(** Index of the first [c] in [l], or the length of [l]. *)
Definition chr_index (c : Z) (l : list Z) : nat :=
  match list_find (fun b => b = c) l with Some (i, _) => i | None => length l end.

Lemma chr_index_found (l : list Z) k c :
  c ∉ take k l -> l !! k = Some c -> chr_index c l = k.
Proof. intros. unfold chr_index. by rewrite (list_find_first l k c). Qed.

Lemma chr_index_none (l : list Z) c : c ∉ take (length l) l -> chr_index c l = length l.
Proof. intros H. unfold chr_index. by rewrite (list_find_none l (length l) c). Qed.

Lemma chr_index_le (l : list Z) c : (chr_index c l <= length l)%nat.
Proof.
  unfold chr_index. destruct (list_find _ l) as [[i b]|] eqn:E; [|done].
  apply list_find_Some in E as (Hi & _). apply lookup_lt_Some in Hi. lia.
Qed.

Section strchrnul.
Context (m : memory) (a : Z) (l : list Z) (c : Z).
Context (Hok : mem_ok m) (Hs : cstring m a l) (Hc : is_byte c).

Definition strchrnul_inv (s : Z) (m' : memory) : Prop :=
  m' = m /\ exists k : nat, s = a + Z.of_nat k /\ (k <= length l)%nat /\ c ∉ take k l.

Lemma strchrnul_byte k :
  (k <= length l)%nat -> c ∉ take k l ->
  exists b, m !! (a + Z.of_nat k) = Some b /\
    ((b = 0 \/ b = c) -> chr_index c l = k) /\
    (b <> 0 -> b <> c -> (k < length l)%nat /\ c ∉ take (S k) l).
Proof.
  intros Hk Hn. destruct (cstring_byte m a l Hs (a + Z.of_nat k)) as (b & Hb & Hz); [lia|].
  exists b. split; [done|].
  assert (forall b', b <> 0 -> b' = b -> l !! k = Some b') as Hl.
  { intros b' Hnz ->. destruct (lookup_lt_is_Some_2 l k) as [b' Hb'].
    { destruct (decide (k = length l)) as [->|]; [tauto|lia]. }
    pose proof (bytes_at_lookup m a (l ++ [0]) k b' (cs_bytes _ _ _ Hs)) as H.
    rewrite lookup_app_l in H by (apply lookup_lt_Some in Hb'; lia).
    rewrite Hb'. specialize (H Hb'). congruence. }
  split.
  - intros Hbc. destruct (decide (b = 0)) as [E|Hnz].
    + apply Hz in E. replace k with (length l) in * by lia. by apply chr_index_none.
    + destruct Hbc as [|Hbc]; [done|]. apply chr_index_found; auto.
  - intros Hnz Hbc. pose proof (Hl b Hnz eq_refl) as Hlk.
    split; [by eapply lookup_lt_Some|]. by eapply not_elem_take_S.
Qed.

Lemma strchrnul_word k lw :
  (k <= length l)%nat -> c ∉ take k l ->
  length lw = 8%nat -> bytes_at m (a + Z.of_nat k) lw -> 0 ∉ lw -> c ∉ lw ->
  (k + 8 <= length l)%nat /\ c ∉ take (k + 8) l.
Proof.
  intros Hk Hn Hlen Hlw Hz Hcl.
  pose proof (cstring_word_zero m a l Hs (a + Z.of_nat k) lw ltac:(lia) Hlen Hlw) as Hzw.
  assert (k + 8 <= length l)%nat by (destruct (decide (a + lenZ l < a + Z.of_nat k + 8)); [tauto|lia]).
  split; [done|]. rewrite <- Hlen. eapply not_elem_take_word; eauto; [|lia].
  pose proof (cs_bytes _ _ _ Hs) as H'. apply bytes_at_app in H' as [H' _]. done.
Qed.

Lemma wp_strchrnul_tail fuel s :
  strchrnul_inv s m -> (length l < fuel)%nat ->
  wp (loop fuel (fun s =>
        b ← load8 s;
        if truth b && negb (b =? c) then mret (inl (s + 1)) else mret (inr s)) s) m
     (fun r m' => r = a + Z.of_nat (chr_index c l) /\ m' = m).
Proof.
  intros Hst Hf.
  apply (wp_loop strchrnul_inv (fun s => Z.to_nat (a + lenZ l - s))); [|done|].
  - clear s Hst. intros s m' (-> & k & -> & Hk & Hn).
    destruct (strchrnul_byte k Hk Hn) as (b & Hb & Hstop & Hgo).
    wp_step. wp_step; [done|]. case_match eqn:Hg; wp_step.
    + apply andb_prop in Hg as [Ht Hbc]. apply truth_true in Ht.
      destruct (Z.eqb_spec b c) as [|Hne]; [done|].
      destruct Hgo as [? ?]; [done..|]. split; [|lia]. split; [done|].
      exists (S k). split; [lia|]. done.
    + split; [|done]. rewrite Hstop; [done|].
      apply andb_false_iff in Hg as [Hg|Hg]; [left; by apply truth_false in Hg|].
      destruct (Z.eqb_spec b c); [by right|done].
  - destruct Hst as (_ & k & -> & Hk & _). lia.
Qed.

Lemma wp_strchrnul_words fuel s :
  strchrnul_inv s m -> s `mod` 8 = 0 -> (length l < fuel)%nat ->
  wp (loop fuel (fun w =>
        x ← load64 w;
        if negb (truth (HASZERO x)) && negb (truth (HASZERO (Z.lxor x (wrap64 (ONES * c)))))
        then mret (inl (w + 8)) else mret (inr w)) s) m strchrnul_inv.
Proof.
  intros Hst Ha Hf.
  apply (wp_loop (fun s m' => strchrnul_inv s m' /\ s `mod` 8 = 0)
           (fun s => Z.to_nat (a + lenZ l - s))); [|done|].
  - clear s Hst Ha. intros s m' [Hst Ha]. pose proof Hst as (-> & k & -> & Hk & Hn).
    destruct (cstring_word m a l Hs (a + Z.of_nat k)) as (lw & Hlen & Hlw); [lia|done|].
    wp_step. eapply wp_load_word; [done..|].
    rewrite HASZERO_spec, HASZERO_lxor_spec by eauto using mem_ok_bytes.
    do 2 case_bool_decide; simpl; wp_step; try done.
    destruct (strchrnul_word k lw) as [? ?]; [done..|].
    split; [|lia]. split; [|by apply mod8_add8]. split; [done|].
    exists (k + 8)%nat. split; [lia|done].
  - destruct Hst as (_ & k & -> & Hk & _). lia.
Qed.
End strchrnul.

Lemma wp_strchrnul m a l c fuel :
  mem_ok m -> cstring m a l -> (S (length l) < fuel)%nat ->
  wp (strchrnul fuel a c) m (fun r m' => r = a + Z.of_nat (chr_index (wrap8 c) l) /\ m' = m).
Proof.
  intros Hok Hs Hf. unfold strchrnul.
  assert (is_byte (wrap8 c)) as Hc by (apply wrap_range; lia).
  destruct (Z.eqb_spec (wrap8 c) 0) as [Hc0|Hc0].
  - apply wp_bind. eapply wp_mono; [by apply wp_strlen|]. intros n m' [-> ->].
    wp_step. split; [|done]. rewrite Hc0, chr_index_none; [done|].
    rewrite take_ge by done. intros Hin. pose proof (cs_nz _ _ _ Hs) as H.
    rewrite Forall_forall in H. by apply H in Hin.
  - apply wp_bind.
    apply (wp_loop (strchrnul_inv m a l (wrap8 c)) (fun s => Z.to_nat (a + lenZ l - s)));
      [| |lia].
    2: { split; [done|]. exists 0%nat. split; [lia|]. split; [lia|]. simpl. set_solver. }
    intros s m' Hst. pose proof Hst as (-> & k & -> & Hk & Hn). case_match eqn:Ha.
    + destruct (strchrnul_byte m a l (wrap8 c) Hs k Hk Hn) as (b & Hb & Hstop & Hgo).
      wp_step. wp_step; [done|].
      destruct (Z.eqb_spec b 0); [|destruct (Z.eqb_spec b (wrap8 c))]; simpl; wp_step.
      1,2: wp_step; by rewrite Hstop by auto.
      destruct Hgo as [? ?]; [done..|]. split; [|lia]. split; [done|].
      exists (S k). split; [lia|done].
    + wp_step. apply truth_false in Ha. apply wp_bind.
      eapply wp_mono; [apply wp_strchrnul_words; (done || lia)|].
      intros w m' Hw. pose proof Hw as [-> _]. apply wp_strchrnul_tail; (done || lia).
Qed.

(** Index of the last [c] in [l]. *)
Fixpoint last_index (c : Z) (l : list Z) : option nat :=
  match l with
  | [] => None
  | b :: l => match last_index c l with
              | Some i => Some (S i)
              | None => if b =? c then Some 0%nat else None
              end
  end.

Lemma last_index_snoc c l b :
  last_index c (l ++ [b]) = if b =? c then Some (length l) else last_index c l.
Proof.
  induction l as [|a l IH]; simpl; [done|]. rewrite IH. by destruct (b =? c).
Qed.

Lemma wp_memrchr m p l c fuel :
  bytes_at m p l -> (length l < fuel)%nat ->
  wp (memrchr fuel p c (lenZ l)) m (fun r m' => m' = m /\
    r = match last_index (wrap8 c) l with Some i => p + Z.of_nat i | None => 0 end).
Proof.
  intros Hl Hf. unfold memrchr.
  apply (wp_loop (fun n m' => m' = m /\ exists l1 l2, l = l1 ++ l2 /\ n = lenZ l1 /\
            last_index (wrap8 c) l = last_index (wrap8 c) l1)
          Z.to_nat); [| |lia].
  2: { split; [done|]. exists l, []. by rewrite app_nil_r. }
  intros n m' (-> & l1 & l2 & -> & -> & Hli). case_match eqn:Ht.
  - destruct l1 as [|b l1 _] using rev_ind; [done|]. rewrite length_app in *. simpl length in *.
    rewrite <- app_assoc, bytes_at_app in Hl. destruct Hl as [_ Hl]. simpl in Hl.
    replace (Z.of_nat (length l1 + 1) - 1) with (lenZ l1) by lia.
    wp_step. wp_step; [apply Hl|]. rewrite Hli, last_index_snoc.
    destruct (b =? wrap8 c); wp_step; [done|]. split; [|lia]. split; [done|].
    exists l1, (b :: l2). by rewrite <- app_assoc.
  - apply truth_false in Ht. destruct l1; [|done]. wp_step. by rewrite Hli.
Qed.

Lemma strnlen_spec m s l fuel :
  0 < s -> mem_ok m -> bytes_at m s l -> (length l < fuel)%nat ->
  strnlen fuel s (lenZ l) m = Some (Z.of_nat (chr_index 0 l), m).
Proof.
  intros Hs Hok Hl Hf. apply wp_elim. unfold strnlen. apply wp_bind.
  eapply wp_mono; [by apply wp_memchr|]. intros p m' [-> ->]. wp_step. split; [|done].
  unfold chr_index. change (wrap8 0) with 0.
  destruct (list_find _ l) as [[i b]|]; [|done].
  rewrite (proj2 (truth_true _)) by lia. lia.
Qed.

(** *** Claims *)

(** On a NUL-terminated string whose last word is mapped, [strlen]
    terminates, reads only mapped memory (word reads aligned), leaves memory
    as it is and returns the number of bytes before the NUL. *)
Theorem strlen_correct m s l fuel :
  mem_ok m -> cstring m s l -> (S (length l) < fuel)%nat ->
  strlen fuel s m = Some (lenZ l, m).
Proof. intros. apply wp_elim. by apply wp_strlen. Qed.

(** [memchr] on [n] readable bytes returns the address of the first byte
    equal to [(unsigned char)c], or a null pointer when there is none, and
    reads nothing outside the [n] bytes. *)
Theorem memchr_correct m src l c fuel :
  mem_ok m -> bytes_at m src l -> (length l < fuel)%nat ->
  memchr fuel src c (lenZ l) m =
  Some (match list_find (fun b => b = wrap8 c) l with
        | Some (i, _) => src + Z.of_nat i | None => 0 end, m).
Proof.
  intros. apply wp_elim. eapply wp_mono; [by apply wp_memchr|]. naive_solver.
Qed.

(** [strchr] returns the address of the first [(unsigned char)c] of the
    string, the address of its NUL when that is 0, and a null pointer when
    the string does not contain the byte. *)
Theorem strchr_correct m s l c fuel :
  mem_ok m -> cstring m s l -> (S (length l) < fuel)%nat ->
  strchr fuel s c m =
  Some (match list_find (fun b => b = wrap8 c) (l ++ [0]) with
        | Some (i, _) => s + Z.of_nat i | None => 0 end, m).
Proof.
  intros Hok Hs Hf. apply wp_elim. unfold strchr. apply wp_bind.
  eapply wp_mono; [by apply wp_strchrnul|]. intros r m' [-> ->].
  destruct (cstring_byte m s l Hs (s + Z.of_nat (chr_index (wrap8 c) l))) as (b & Hb & Hz).
  { pose proof (chr_index_le l (wrap8 c)). lia. }
  wp_step. wp_step; [done|]. wp_step. split; [|done].
  unfold chr_index in *. destruct (list_find _ l) as [[i b']|] eqn:E.
  - rewrite (list_find_app_l _ _ _ _ _ E). apply list_find_Some in E as (Hi & -> & _).
    assert (m !! (s + Z.of_nat i) = Some (wrap8 c)) as H.
    { eapply bytes_at_lookup; [apply (cs_bytes _ _ _ Hs)|]. by apply lookup_app_l_Some. }
    assert (b = wrap8 c) as -> by congruence. by rewrite Z.eqb_refl.
  - rewrite (list_find_app_r _ _ _ E). assert (b = 0) as -> by (apply Hz; lia). cbn [list_find].
    destruct (Z.eqb_spec 0 (wrap8 c)) as [Hc|Hc];
      [by rewrite decide_True by done | by rewrite decide_False by done].
Qed.

(** [strrchr] returns the address of the last [(unsigned char)c] of the
    string (its NUL included), or a null pointer. *)
Theorem strrchr_correct m s l c fuel :
  mem_ok m -> cstring m s l -> (S (length l) < fuel)%nat ->
  strrchr fuel s c m =
  Some (match last_index (wrap8 c) (l ++ [0]) with
        | Some i => s + Z.of_nat i | None => 0 end, m).
Proof.
  intros Hok Hs Hf. apply wp_elim. unfold strrchr. apply wp_bind.
  eapply wp_mono; [by apply wp_strlen|]. intros n m' [-> ->].
  replace (lenZ l + 1) with (lenZ (l ++ [0])) by (rewrite length_app; simpl; lia).
  eapply wp_mono; [apply wp_memrchr; [apply Hs|rewrite length_app; simpl; lia]|].
  naive_solver.
Qed.
