(* ===== verification/MemBlock.v ===== *)
(** * MemBlock: musl's [memset], [memcpy] and [memmove]

    The block operations write memory with aligned 32- and 64-bit stores,
    overlapping head and tail fills and (in [memcpy]) words assembled by
    shifts when source and destination are aligned differently.  The
    theorems show that each equals the byte-wise reference: afterwards
    memory is exactly [mem_write m dest bytes]. *)

From S2P Require Import Prelude CMem StrScan.
From stdpp Require Import base tactics numbers list gmap.
Open Scope Z_scope.

(** ** The functions *)

Definition memset (fuel : nat) (dest c n : Z) : C Z :=
  let s := dest in
  if n =? 0 then mret dest else
  store8 (s + 0) c;; store8 (s + (n - 1)) c;;
  if n <=? 2 then mret dest else
  store8 (s + 1) c;; store8 (s + 2) c;;
  store8 (s + (n - 2)) c;; store8 (s + (n - 3)) c;;
  if n <=? 6 then mret dest else
  store8 (s + 3) c;; store8 (s + (n - 4)) c;;
  if n <=? 8 then mret dest else
  let k := Z.land (wrap64 (- s)) 3 in
  let s := s + k in
  let n := n - k in
  let n := Z.land n (wrap64 (-4)) in
  let c32 := wrap32 ((2 ^ 32 - 1) / 255 * wrap8 c) in
  store32 (s + 0) c32;; store32 (s + n - 4) c32;;
  if n <=? 8 then mret dest else
  store32 (s + 4) c32;; store32 (s + 8) c32;;
  store32 (s + n - 12) c32;; store32 (s + n - 8) c32;;
  if n <=? 24 then mret dest else
  store32 (s + 12) c32;; store32 (s + 16) c32;;
  store32 (s + 20) c32;; store32 (s + 24) c32;;
  store32 (s + n - 28) c32;; store32 (s + n - 24) c32;;
  store32 (s + n - 20) c32;; store32 (s + n - 16) c32;;
  let k := 24 + Z.land s 4 in
  let s := s + k in
  let n := n - k in
  let c64 := Z.lor c32 (wrap64 (Z.shiftl c32 32)) in
  loop fuel (fun '(s, n) =>
    if 32 <=? n then
      store64 (s + 0) c64;; store64 (s + 8) c64;;
      store64 (s + 16) c64;; store64 (s + 24) c64;;
      mret (inl (s + 32, n - 32))
    else mret (inr tt)) (s, n);;
  mret dest.

(** [k] times [*d++ = *s++]. *)
Fixpoint copy8 (k : nat) (d s : Z) : C (Z * Z) :=
  match k with
  | O => mret (d, s)
  | S k => b ← load8 s; store8 d b;; copy8 k (d + 1) (s + 1)
  end.

(** [*(u32 * )(d+o) = *(u32 * )(s+o)] *)
Definition copy32 (d s : Z) : C unit := x ← load32 s; store32 d x.

(** [(w LS a) | (x RS (32-a))] on a little-endian machine. *)
Definition shift_in (a w x : Z) : Z :=
  Z.lor (Z.shiftr w a) (wrap32 (Z.shiftl x (32 - a))).

(** One round of the shifted copy: four words, each assembled from the last
    bytes of one source word and the first bytes of the next. *)
Definition shift_round (a o : Z) (d s w : Z) : C Z :=
  x ← load32 (s + o); store32 (d + 0) (shift_in a w x);;
  w ← load32 (s + (o + 4)); store32 (d + 4) (shift_in a x w);;
  x ← load32 (s + (o + 8)); store32 (d + 8) (shift_in a w x);;
  w ← load32 (s + (o + 12)); store32 (d + 12) (shift_in a x w);;
  mret w.

(** The three cases of the switch: [o] is the destination's misalignment,
    [j = 4 - o] bytes are copied first. *)
Definition shift_copy (fuel : nat) (o : Z) (d s n : Z) : C (Z * Z * Z) :=
  let j := 4 - o in
  w ← load32 s;
  '(d, s) ← copy8 (Z.to_nat j) d s;
  let n := n - j in
  loop fuel (fun '(d, s, n, w) =>
    if 16 + o <=? n then
      w ← shift_round (8 * j) o d s w;
      mret (inl (d + 16, s + 16, n - 16, w))
    else mret (inr (d, s, n))) (d, s, n, w).

Definition copy_if (n : Z) (bit : Z) (d s : Z) : C (Z * Z) :=
  if truth (Z.land n bit) then copy8 (Z.to_nat bit) d s else mret (d, s).

Definition memcpy (fuel : nat) (dest src n : Z) : C Z :=
  '(d, s, n) ← loop fuel (fun '(d, s, n) =>
      if truth (s `mod` 4) && truth n then
        '(d, s) ← copy8 1 d s; mret (inl (d, s, n - 1))
      else mret (inr (d, s, n))) (dest, src, n);
  if d `mod` 4 =? 0 then
    '(d, s, n) ← loop fuel (fun '(d, s, n) =>
        if 16 <=? n then
          copy32 (d + 0) (s + 0);; copy32 (d + 4) (s + 4);;
          copy32 (d + 8) (s + 8);; copy32 (d + 12) (s + 12);;
          mret (inl (d + 16, s + 16, n - 16))
        else mret (inr (d, s, n))) (d, s, n);
    '(d, s) ← (if truth (Z.land n 8) then
        copy32 (d + 0) (s + 0);; copy32 (d + 4) (s + 4);; mret (d + 8, s + 8)
      else mret (d, s));
    '(d, s) ← (if truth (Z.land n 4) then
        copy32 (d + 0) (s + 0);; mret (d + 4, s + 4)
      else mret (d, s));
    '(d, s) ← copy_if n 2 d s;
    copy_if n 1 d s;;
    mret dest
  else
    '(d, s, n) ← (if 32 <=? n then
        match d `mod` 4 with
        | 1 => shift_copy fuel 1 d s n
        | 2 => shift_copy fuel 2 d s n
        | _ => shift_copy fuel 3 d s n
        end
      else mret (d, s, n));
    '(d, s) ← copy_if n 16 d s;
    '(d, s) ← copy_if n 8 d s;
    '(d, s) ← copy_if n 4 d s;
    '(d, s) ← copy_if n 2 d s;
    copy_if n 1 d s;;
    mret dest.

Definition mempcpy (fuel : nat) (dest src n : Z) : C Z :=
  p ← memcpy fuel dest src n; mret (p + n).

Definition WS : Z := 8.

Definition memmove_forward (fuel : nat) (dest d s n : Z) : C Z :=
  r ← (if s `mod` WS =? d `mod` WS then
      r ← loop fuel (fun '(d, s, n) =>
          if truth (d `mod` WS) then
            if n =? 0 then mret (inr (inr dest)) else
            '(d, s) ← copy8 1 d s; mret (inl (d, s, n - 1))
          else mret (inr (inl (d, s, n)))) (d, s, n);
      match r with
      | inr p => mret (inr p)
      | inl (d, s, n) =>
          r ← loop fuel (fun '(d, s, n) =>
              if WS <=? n then
                x ← load64 s; store64 d x;;
                mret (inl (d + WS, s + WS, n - WS))
              else mret (inr (d, s, n))) (d, s, n);
          mret (inl r)
      end
    else mret (inl (d, s, n)));
  match r with
  | inr p => mret p
  | inl (d, s, n) =>
      loop fuel (fun '(d, s, n) =>
        if truth n then '(d, s) ← copy8 1 d s; mret (inl (d, s, n - 1))
        else mret (inr tt)) (d, s, n);;
      mret dest
  end.

Definition memmove_backward (fuel : nat) (dest d s n : Z) : C Z :=
  r ← (if s `mod` WS =? d `mod` WS then
      r ← loop fuel (fun n =>
          if truth ((d + n) `mod` WS) then
            if n =? 0 then mret (inr (inr dest)) else
            let n := n - 1 in
            b ← load8 (s + n); store8 (d + n) b;; mret (inl n)
          else mret (inr (inl n))) n;
      match r with
      | inr p => mret (inr p)
      | inl n =>
          r ← loop fuel (fun n =>
              if WS <=? n then
                let n := n - WS in
                x ← load64 (s + n); store64 (d + n) x;; mret (inl n)
              else mret (inr n)) n;
          mret (inl r)
      end
    else mret (inl n));
  match r with
  | inr p => mret p
  | inl n =>
      loop fuel (fun n =>
        if truth n then
          let n := n - 1 in
          b ← load8 (s + n); store8 (d + n) b;; mret (inl n)
        else mret (inr tt)) n;;
      mret dest
  end.

Definition memmove (fuel : nat) (dest src n : Z) : C Z :=
  let d := dest in
  let s := src in
  if d =? s then mret d else
  if wrap64 (wrap64 (s - d) - n) <=? wrap64 (-2 * n) then memcpy fuel d s n else
  if d <? s then memmove_forward fuel dest d s n
  else memmove_backward fuel dest d s n.

Definition bcopy (fuel : nat) (s1 s2 n : Z) : C unit := memmove fuel s2 s1 n;; mret tt.
Definition bzero (fuel : nat) (s n : Z) : C unit := memset fuel s 0 n;; mret tt.

(** ** memset *)

Section memset.
Context (m0 : memory) (d c : Z) (n : nat).
Context (Hmap : mapped m0 d n).

(** [filled m W]: every address in [W] holds [c], every other one is either
    untouched or a byte of the region that holds [c]. *)
Definition filled (m : memory) (W : Z -> Prop) : Prop :=
  forall q, (d <= q < d + Z.of_nat n /\ m !! q = Some (wrap8 c)) \/
            (~ W q /\ m !! q = m0 !! q).

Lemma filled_init : filled m0 (fun _ => False).
Proof. intros q. right. tauto. Qed.

Lemma filled_mapped m W p k :
  filled m W -> d <= p -> p + Z.of_nat k <= d + Z.of_nat n -> mapped m p k.
Proof.
  intros HW Hp Hk q Hq. destruct (HW q) as [[_ ->]|[_ ->]]; [done|]. apply Hmap. lia.
Qed.

Lemma filled_write m W p k :
  filled m W -> d <= p -> p + Z.of_nat k <= d + Z.of_nat n ->
  filled (mem_write m p (replicate k (wrap8 c))) (fun q => W q \/ p <= q < p + Z.of_nat k).
Proof.
  intros HW Hp Hk q. rewrite mem_write_lookup, length_replicate. case_decide as Hq.
  - left. split; [lia|]. apply lookup_replicate_2. lia.
  - destruct (HW q) as [[? ->]|[? ->]]; [by left|]. right. tauto.
Qed.

Lemma filled_weaken m (W W' : Z -> Prop) :
  filled m W -> (forall q, W' q -> W q) -> filled m W'.
Proof. intros HW Hsub q. destruct (HW q) as [|[? ?]]; [by left|right; auto]. Qed.

Lemma filled_done m W :
  filled m W -> (forall q, d <= q < d + Z.of_nat n -> W q) ->
  m = mem_write m0 d (replicate n (wrap8 c)).
Proof.
  intros HW Hall. apply map_eq. intros q. rewrite mem_write_lookup, length_replicate.
  case_decide as Hq; destruct (HW q) as [[? ->]|[? ->]]; try done; try lia.
  - symmetry. apply lookup_replicate_2. lia.
  - by destruct H; apply Hall.
Qed.

Lemma wp_fill8 m W p (Q : unit -> memory -> Prop) :
  filled m W -> d <= p < d + Z.of_nat n ->
  (forall m', filled m' (fun q => W q \/ p <= q < p + 1) -> Q tt m') ->
  wp (store8 p c) m Q.
Proof.
  intros HW Hp HQ. apply wp_store8; [apply (filled_mapped _ _ p 1 HW); lia|].
  apply HQ. apply (filled_write m W p 1 HW); lia.
Qed.

Lemma wp_fill_word m W p k v (Q : unit -> memory -> Prop) :
  filled m W -> p `mod` Z.of_nat k = 0 -> v = le_combine (replicate k (wrap8 c)) ->
  d <= p -> p + Z.of_nat k <= d + Z.of_nat n ->
  (forall m', filled m' (fun q => W q \/ p <= q < p + Z.of_nat k) -> Q tt m') ->
  wp (store_word k p v) m Q.
Proof.
  intros HW Ha -> Hp Hk HQ. apply wp_store_word; [done|by eapply filled_mapped|].
  replace (le_split k _) with (replicate k (wrap8 c)).
  - apply HQ. by apply filled_write.
  - pose proof (le_split_combine (replicate k (wrap8 c))) as E.
    rewrite length_replicate in E. symmetry. apply E.
    apply Forall_replicate, wrap_range. lia.
Qed.
End memset.

Lemma land_m4 n : in_range 64 n -> Z.land n (wrap64 (-4)) = n - n `mod` 4.
Proof.
  intros Hn. unfold wrap. rewrite <- Z.land_ones by lia.
  rewrite (Z.land_comm (-4)), Z.land_assoc, Z.land_ones, Z.mod_small by (unfold in_range in Hn; lia).
  change (-4) with (Z.lnot (Z.ones 2)). rewrite <- Z.ldiff_land, Z.ldiff_ones_r by lia.
  rewrite Z.shiftl_mul_pow2, Z.shiftr_div_pow2 by lia.
  change (2 ^ 2) with 4. pose proof (Z.div_mod n 4). lia.
Qed.

Lemma land3 p : Z.land p 3 = p `mod` 4.
Proof. change 3 with (Z.ones 2). by rewrite Z.land_ones by lia. Qed.

Lemma neg_land3 s : Z.land (wrap64 (- s)) 3 = (- s) `mod` 4.
Proof.
  rewrite land3. unfold wrap. rewrite Z.mod_mod_divide; [done|].
  exists (2 ^ 62). reflexivity.
Qed.

Lemma land_pow2 n k : 0 <= k -> Z.land n (2 ^ k) = if Z.testbit n k then 2 ^ k else 0.
Proof.
  intros Hk. apply Z.bits_inj'. intros i Hi. rewrite Z.land_spec, Z.pow2_bits_eqb by done.
  destruct (Z.eqb_spec k i) as [->|Hne].
  - destruct (Z.testbit n i); simpl; [by rewrite Z.pow2_bits_true|by rewrite Z.bits_0].
  - rewrite andb_false_r. destruct (Z.testbit n k); [by rewrite Z.pow2_bits_false|by rewrite Z.bits_0].
Qed.

(** Adding [p land 4] to a multiple of 4 makes it a multiple of 8. *)
Lemma align8_up s : s `mod` 4 = 0 -> (s + (24 + Z.land s 4)) `mod` 8 = 0 /\ 0 <= Z.land s 4 <= 4.
Proof.
  intros Hs. change (Z.land s 4) with (Z.land s (2 ^ 2)). rewrite land_pow2 by lia.
  change (2 ^ 2) with 4. rewrite Z.testbit_odd, Z.shiftr_div_pow2 by lia. change (2 ^ 2) with 4.
  pose proof (Z.div_mod s 4 ltac:(lia)) as E.
  destruct (Z.odd (s / 4)) eqn:Hodd.
  - apply Z.odd_spec in Hodd as [j Hj]. split; [|lia].
    replace (s + (24 + 4)) with ((j + 4) * 8) by lia. apply Z.mod_mul. lia.
  - rewrite <- Z.negb_even in Hodd. apply negb_false_iff, Z.even_spec in Hodd as [j Hj]. split; [|lia].
    replace (s + (24 + 0)) with ((j + 3) * 8) by lia. apply Z.mod_mul. lia.
Qed.

Lemma c32_combine c :
  wrap32 ((2 ^ 32 - 1) / 255 * wrap8 c) = le_combine (replicate 4 (wrap8 c)).
Proof.
  pose proof (wrap_range 8 c ltac:(lia)) as H. unfold in_range in H. change (2 ^ 8) with 256 in H.
  change ((2 ^ 32 - 1) / 255) with 16843009.
  rewrite wrap_small; [simpl; lia|]. unfold in_range. lia.
Qed.

Lemma lor_shiftl_add a b k :
  0 <= k -> 0 <= a < 2 ^ k -> Z.lor a (Z.shiftl b k) = a + 2 ^ k * b.
Proof.
  intros Hk Ha. rewrite <- Z.add_nocarry_lor; [by rewrite Z.shiftl_mul_pow2, Z.mul_comm|].
  apply Z.bits_inj'. intros i Hi. rewrite Z.land_spec, Z.bits_0, Z.shiftl_spec by lia.
  destruct (Z.ltb_spec i k); [by rewrite (Z.testbit_neg_r b), andb_false_r by lia|].
  replace (Z.testbit a i) with false; [done|]. symmetry.
  destruct (decide (a = 0)) as [->|]; [apply Z.bits_0|]. apply Z.bits_above_log2; [lia|].
  apply Z.lt_le_trans with k; [apply Z.log2_lt_pow2; lia|lia].
Qed.

Lemma c64_combine c c32 :
  c32 = le_combine (replicate 4 (wrap8 c)) ->
  Z.lor c32 (wrap64 (Z.shiftl c32 32)) = le_combine (replicate 8 (wrap8 c)).
Proof.
  intros ->. pose proof (le_combine_range (replicate 4 (wrap8 c))) as H.
  unfold in_range in H. rewrite length_replicate in H. change (8 * Z.of_nat 4) with 32 in H.
  specialize (H ltac:(apply Forall_replicate, wrap_range; lia)).
  rewrite (wrap_small 64) by (unfold in_range; rewrite Z.shiftl_mul_pow2 by lia; lia).
  rewrite lor_shiftl_add by lia. simpl. lia.
Qed.

(** Keep only the most recent state of the fill. *)
Ltac filled_clear :=
  match goal with
  | H1 : filled _ _ _ _ ?m1 _, H2 : filled _ _ _ _ ?m2 _ |- wp _ ?m2 _ =>
      unify m2 m2; clear H1
  end.
Ltac mod_lia := change (Z.of_nat 4) with 4 in *; change (Z.of_nat 8) with 8 in *;
  Z.div_mod_to_equations; lia.
Ltac fill8 :=
  apply wp_bind; eapply wp_fill8;
    [eassumption|eassumption|lia|intros ? ?; filled_clear].
Ltac fill_word tac :=
  apply wp_bind; eapply wp_fill_word;
    [eassumption|eassumption|tac|eassumption|lia|lia|intros ? ?; filled_clear].
Ltac filled_ret := wp_step; split; [done|]; eapply filled_done; [eassumption|simpl; lia].

(** The final loop: [s] up to eight-byte alignment and the last 28 bytes are
    filled already, so a remainder below 32 is covered. *)
Lemma wp_memset_loop m0 m d c (n : nat) (s e c64 : Z) fuel :
  mapped m0 d n -> c64 = le_combine (replicate 8 (wrap8 c)) ->
  d <= s -> e <= d + Z.of_nat n -> s `mod` 8 = 0 -> e `mod` 4 = 0 -> 0 <= e - s ->
  (Z.to_nat (e - s) < fuel)%nat ->
  filled m0 d c n m (fun q => d <= q < s \/ e - 28 <= q < d + Z.of_nat n) ->
  wp (loop fuel (fun '(s, n) =>
    if 32 <=? n then
      store64 (s + 0) c64;; store64 (s + 8) c64;;
      store64 (s + 16) c64;; store64 (s + 24) c64;;
      mret (inl (s + 32, n - 32))
    else mret (inr tt)) (s, e - s)) m
   (fun _ m' => m' = mem_write m0 d (replicate n (wrap8 c))).
Proof.
  intros Hm Hc Hds Hen Hs8 He Hes Hf Hfill.
  apply (wp_loop (fun st m' => exists s, st = (s, e - s) /\ s `mod` 8 = 0 /\ d <= s /\ 0 <= e - s /\
            filled m0 d c n m' (fun q => d <= q < s \/ e - 28 <= q < d + Z.of_nat n))
          (fun '(s, r) => Z.to_nat r)); [|by exists s|done].
  clear s Hds Hs8 Hes Hf Hfill. intros st m' (s & -> & Hs8 & Hds & Hes & Hfill).
  destruct (Z.leb_spec 32 (e - s)).
  - do 4 fill_word mod_lia. wp_step. split; [|lia]. exists (s + 32).
    split; [f_equal; lia|]. split; [mod_lia|]. split; [lia|]. split; [lia|].
    eapply filled_weaken; [eassumption|]. simpl. lia.
  - wp_step. eapply filled_done; [eassumption|]. simpl. intros q Hq.
    assert (e - 28 <= s) by mod_lia. lia.
Qed.

Lemma wp_memset m d c n fuel :
  0 < d -> d + Z.of_nat n <= 2 ^ 64 -> mapped m d n -> (n < fuel)%nat ->
  wp (memset fuel d c (Z.of_nat n)) m (fun r m' =>
    r = d /\ m' = mem_write m d (replicate n (wrap8 c))).
Proof.
  intros Hd Hn Hm Hf. unfold memset.
  pose proof (filled_init m d c n) as HW.
  destruct (Z.eqb_spec (Z.of_nat n) 0); [filled_ret|].
  do 2 fill8. destruct (Z.leb_spec (Z.of_nat n) 2); [filled_ret|].
  do 4 fill8. destruct (Z.leb_spec (Z.of_nat n) 6); [filled_ret|].
  do 2 fill8. destruct (Z.leb_spec (Z.of_nat n) 8); [filled_ret|].
  rewrite neg_land3, land_m4
    by (pose proof (Z.mod_pos_bound (- d) 4 ltac:(lia)); unfold in_range; lia).
  set (s1 := d + (- d) `mod` 4).
  set (n1 := Z.of_nat n - (- d) `mod` 4 - (Z.of_nat n - (- d) `mod` 4) `mod` 4).
  assert (s1 `mod` 4 = 0 /\ n1 `mod` 4 = 0 /\ d <= s1 <= d + 3 /\
          d + Z.of_nat n - 3 <= s1 + n1 <= d + Z.of_nat n) as (Hs1 & Hn1 & Hds & Hsn)
    by (unfold s1, n1; Z.div_mod_to_equations; lia).
  clearbody s1 n1. assert (exists b, n1 = 4 * b) as [b Hb] by (exists (n1 / 4); mod_lia).
  set (c32 := wrap32 _). pose proof (c32_combine c : c32 = _) as Hc32.
  do 2 fill_word mod_lia. destruct (Z.leb_spec n1 8); [filled_ret|].
  do 4 fill_word mod_lia. destruct (Z.leb_spec n1 24); [filled_ret|].
  do 8 fill_word mod_lia.
  pose proof (c64_combine c c32 Hc32) as Hc64. set (c64 := Z.lor _ _) in *. clearbody c64 c32.
  destruct (align8_up s1 Hs1) as [Hs8 Hk]. set (k := Z.land s1 4) in *. clearbody k.
  apply wp_bind. replace (n1 - (24 + k)) with (s1 + n1 - (s1 + (24 + k))) by lia.
  eapply wp_mono.
  - eapply wp_memset_loop; try eassumption; try lia; [mod_lia|].
    eapply filled_weaken; [eassumption|]. simpl. lia.
  - intros [] m'' ->. by wp_step.
Qed.

(** ** Forward copies *)

Definition slice (k n : nat) (l : list Z) : list Z := take n (drop k l).

Lemma length_slice k n l : (k + n <= length l)%nat -> length (slice k n l) = n.
Proof. intros. unfold slice. rewrite length_take, length_drop. lia. Qed.

Lemma take_slice k n l : take (k + n) l = take k l ++ slice k n l.
Proof. unfold slice. by rewrite take_take_drop. Qed.

Lemma slice_bytes m p l k n :
  bytes_at m p l -> (k + n <= length l)%nat -> bytes_at m (p + Z.of_nat k) (slice k n l).
Proof.
  intros Hl Hk. rewrite <- (take_drop k l) in Hl. apply bytes_at_app in Hl as [_ Hl].
  rewrite length_take_le in Hl by lia. unfold slice.
  rewrite <- (take_drop n (drop k l)) in Hl. by apply bytes_at_app in Hl as [Hl _].
Qed.

Lemma Forall_slice (P : Z -> Prop) k n l : Forall P l -> Forall P (slice k n l).
Proof. intros. unfold slice. by apply Forall_take, Forall_drop. Qed.

Lemma le_combine_app l1 l2 :
  le_combine (l1 ++ l2) = le_combine l1 + 2 ^ (8 * lenZ l1) * le_combine l2.
Proof.
  induction l1 as [|b l1 IH]; simpl le_combine; [change (8 * lenZ []) with 0; lia|].
  rewrite IH. replace (8 * lenZ (b :: l1)) with (8 + 8 * lenZ l1) by (simpl; lia).
  rewrite Z.pow_add_r by lia. change (2 ^ 8) with 256. lia.
Qed.

(** The word assembled from the end of [w] and the start of [x]. *)
Lemma shift_in_combine (j : nat) wl xl :
  (0 < j < 4)%nat -> length wl = 4%nat -> length xl = 4%nat ->
  Forall is_byte wl -> Forall is_byte xl ->
  shift_in (8 * Z.of_nat j) (le_combine wl) (le_combine xl) =
  le_combine (drop j wl ++ take j xl).
Proof.
  intros Hj Hwl Hxl Hw Hx. unfold shift_in. rewrite le_combine_app.
  rewrite <- (take_drop j wl) at 1. rewrite <- (take_drop j xl) at 1.
  rewrite !le_combine_app, length_drop, !length_take, Hwl, Hxl.
  pose proof (le_combine_range (take j wl) (Forall_take _ _ _ Hw)) as R1.
  pose proof (le_combine_range (drop j wl) (Forall_drop _ _ _ Hw)) as R2.
  pose proof (le_combine_range (take j xl) (Forall_take _ _ _ Hx)) as R3.
  unfold in_range in *. rewrite length_take, Hwl in R1. rewrite length_drop, Hwl in R2.
  rewrite length_take, Hxl in R3. rewrite !Nat.min_l in * by lia.
  replace (8 * Z.of_nat (4 - j)) with (32 - 8 * Z.of_nat j) in * by lia.
  set (a := 8 * Z.of_nat j) in *. assert (8 <= a <= 24) by lia.
  rewrite Z.shiftr_div_pow2, Z.mul_comm, Z.div_add, Z.div_small, Z.add_0_l by lia.
  rewrite Z.shiftl_mul_pow2, Z.mul_add_distr_r by lia.
  rewrite <- Z.mul_assoc, (Z.mul_comm (le_combine (drop j xl))), Z.mul_assoc, <- Z.pow_add_r by lia.
  replace (a + (32 - a)) with 32 by lia. unfold wrap. rewrite (Z.mul_comm (2 ^ 32)), Z.mod_add by lia.
  assert (2 ^ 32 = 2 ^ a * 2 ^ (32 - a)) by (rewrite <- Z.pow_add_r by lia; f_equal; lia).
  rewrite Z.mod_small by nia. rewrite <- Z.shiftl_mul_pow2 by lia.
  by rewrite lor_shiftl_add by lia.
Qed.

Section copy.
Context (m0 : memory) (d0 s0 : Z) (l : list Z).
Context (Hl : bytes_at m0 s0 l) (Hbytes : Forall is_byte l).
Context (Hmap : mapped m0 d0 (length l)).
Context (Hdir : d0 <= s0 \/ s0 + lenZ l <= d0).

(** The first [k] bytes have been copied. *)
Definition copied (k : nat) (m : memory) : Prop :=
  (k <= length l)%nat /\ m = mem_write m0 d0 (take k l).

Lemma copied_read k k' n m :
  copied k m -> (k <= k')%nat -> (k' + n <= length l)%nat ->
  bytes_at m (s0 + Z.of_nat k') (slice k' n l).
Proof.
  intros [Hk ->] Hk' Hn. apply bytes_at_mem_write_disjoint; [|by apply slice_bytes].
  unfold disjoint_ranges. rewrite length_take_le, length_slice by lia. lia.
Qed.

Lemma copied_write k n m :
  copied k m -> (k + n <= length l)%nat ->
  copied (k + n) (mem_write m (d0 + Z.of_nat k) (slice k n l)).
Proof.
  intros [Hk ->] Hn. split; [done|]. rewrite take_slice, mem_write_app.
  by rewrite length_take_le by lia.
Qed.

Lemma copied_mapped k m : copied k m -> mapped m d0 (length l).
Proof. intros [_ ->]. by apply mapped_mem_write. Qed.

Lemma slice_1 k b : l !! k = Some b -> slice k 1 l = [b].
Proof. intros H. unfold slice. rewrite (drop_S _ _ _ H). done. Qed.

Lemma wp_copy8 n k m d s (Q : Z * Z -> memory -> Prop) :
  copied k m -> (k + n <= length l)%nat -> d = d0 + Z.of_nat k -> s = s0 + Z.of_nat k ->
  (forall m', copied (k + n) m' ->
    Q (d0 + Z.of_nat (k + n), s0 + Z.of_nat (k + n)) m') ->
  wp (copy8 n d s) m Q.
Proof.
  revert k m d s. induction n as [|n IH]; intros k m d s Hc Hn -> -> HQ; simpl.
  - wp_step. rewrite Nat.add_0_r in HQ. by apply HQ.
  - destruct (lookup_lt_is_Some_2 l k) as [b Hb]; [lia|].
    pose proof (copied_read k k 1 m Hc ltac:(lia) ltac:(lia)) as Hr.
    pose proof (copied_write k 1 m Hc ltac:(lia)) as Hw.
    rewrite (slice_1 _ _ Hb) in Hr, Hw. simpl in Hr, Hw.
    wp_step. wp_step; [apply Hr|]. wp_step. wp_step.
    { apply (copied_mapped _ _ Hc). lia. }
    rewrite wrap_small by (by eapply (Forall_lookup_1 _ _ _ _ Hbytes)).
    apply (IH (k + 1)%nat); [done|lia|lia|lia|].
    intros m' Hm'. replace (k + 1 + n)%nat with (k + S n)%nat in Hm' |- * by lia. by apply HQ.
Qed.

Lemma copied_slice_bytes k n : Forall is_byte (slice k n l).
Proof. by apply Forall_slice. Qed.

(** A word-sized copy of the next [w] bytes. *)
Lemma wp_copy_word w k m d s (Q : unit -> memory -> Prop) :
  copied k m -> (k + w <= length l)%nat -> d = d0 + Z.of_nat k -> s = s0 + Z.of_nat k ->
  d `mod` Z.of_nat w = 0 -> s `mod` Z.of_nat w = 0 ->
  (forall m', copied (k + w) m' -> Q tt m') ->
  wp (x ← load_word w s; store_word w d x) m Q.
Proof.
  intros Hc Hw -> -> Hd Hs HQ. apply wp_bind.
  eapply wp_load_word; [done|by apply (length_slice k w l)|by eapply copied_read|].
  apply wp_store_word; [done|eapply mapped_weaken; [by eapply copied_mapped|lia|lia]|].
  apply HQ. pose proof (le_split_combine _ (copied_slice_bytes k w)) as E.
  rewrite length_slice in E by lia. rewrite E. by apply copied_write.
Qed.
End copy.

Lemma slice_shift k (j o : nat) l :
  (j + o = 4)%nat -> (j <= k)%nat -> (k + o + 4 <= length l)%nat ->
  drop j (slice (k - j) 4 l) ++ take j (slice (k + o) 4 l) = slice k 4 l.
Proof.
  intros Hjo Hk Hlen. unfold slice.
  rewrite skipn_firstn_comm, drop_drop, take_take.
  replace (k - j + j)%nat with k by lia. replace (4 - j)%nat with o by lia.
  replace (Nat.min j 4) with j by lia. replace 4%nat with (o + j)%nat by lia.
  rewrite <- drop_drop. by rewrite take_take_drop.
Qed.

Section shift.
Context (m0 : memory) (d0 s0 : Z) (l : list Z).
Context (Hl : bytes_at m0 s0 l) (Hbytes : Forall is_byte l).
Context (Hmap : mapped m0 d0 (length l)).
Context (Hdir : d0 <= s0 \/ s0 + lenZ l <= d0).
Context (j o : nat) (Hjo : (j + o = 4)%nat) (Hj : (0 < j < 4)%nat).

Lemma wp_shift_step {A} k m d s w (K : Z -> C A) (Q : A -> memory -> Prop) :
  copied m0 d0 l k m -> (j <= k)%nat -> (k + o + 4 <= length l)%nat ->
  d = d0 + Z.of_nat k -> s = s0 + Z.of_nat (k + o) ->
  d `mod` 4 = 0 -> s `mod` 4 = 0 -> w = le_combine (slice (k - j) 4 l) ->
  (forall m', copied m0 d0 l (k + 4) m' ->
     wp (K (le_combine (slice (k + 4 - j) 4 l))) m' Q) ->
  wp (x ← load32 s; store32 d (shift_in (8 * Z.of_nat j) w x);; K x) m Q.
Proof.
  intros Hc Hk Hn -> -> Hd Hs -> HK. apply wp_bind.
  eapply wp_load_word; [done|by apply (length_slice (k + o) 4 l)|eapply copied_read; (done || lia)|].
  rewrite shift_in_combine, slice_shift
    by first [done | by apply Forall_slice | apply length_slice; lia | lia].
  apply wp_bind, wp_store_word;
    [done|eapply mapped_weaken; [by eapply copied_mapped|lia|lia]|].
  pose proof (le_split_combine (slice k 4 l) (Forall_slice _ _ _ _ Hbytes)) as E.
  rewrite length_slice in E by lia. rewrite E.
  replace (k + o)%nat with (k + 4 - j)%nat by lia. apply HK.
  apply (copied_write _ _ _ k 4); (done || lia).
Qed.

Lemma wp_shift_round k m d s w (Q : Z -> memory -> Prop) :
  copied m0 d0 l k m -> (j <= k)%nat -> (k + o + 16 <= length l)%nat ->
  d = d0 + Z.of_nat k -> s = s0 + Z.of_nat k ->
  d `mod` 4 = 0 -> (s + Z.of_nat o) `mod` 4 = 0 -> w = le_combine (slice (k - j) 4 l) ->
  (forall m', copied m0 d0 l (k + 16) m' -> Q (le_combine (slice (k + 16 - j) 4 l)) m') ->
  wp (shift_round (8 * Z.of_nat j) (Z.of_nat o) d s w) m Q.
Proof.
  intros Hc Hk Hn Hd Hs Hda Hsa Hw HQ. unfold shift_round.
  apply (wp_shift_step k); [done|lia|lia|lia|lia|mod_lia|mod_lia|done|]. clear m Hc. intros m Hc.
  apply (wp_shift_step (k + 4)); [done|lia|lia|lia|lia|mod_lia|mod_lia|done|]. clear m Hc. intros m Hc.
  apply (wp_shift_step (k + 4 + 4)); [done|lia|lia|lia|lia|mod_lia|mod_lia|done|]. clear m Hc. intros m Hc.
  apply (wp_shift_step (k + 4 + 4 + 4)); [done|lia|lia|lia|lia|mod_lia|mod_lia|done|]. clear m Hc. intros m Hc.
  wp_step. replace (k + 4 + 4 + 4 + 4)%nat with (k + 16)%nat in * by lia. by apply HQ.
Qed.

Lemma wp_shift_copy fuel k m d s n (Q : Z * Z * Z -> memory -> Prop) :
  copied m0 d0 l k m -> d = d0 + Z.of_nat k -> s = s0 + Z.of_nat k ->
  n = lenZ l - Z.of_nat k -> 32 <= n -> d `mod` 4 = Z.of_nat o -> s `mod` 4 = 0 ->
  (length l < fuel)%nat ->
  (forall k' m', copied m0 d0 l k' m' -> lenZ l - Z.of_nat k' < 32 ->
     Q (d0 + Z.of_nat k', s0 + Z.of_nat k', lenZ l - Z.of_nat k') m') ->
  wp (shift_copy fuel (Z.of_nat o) d s n) m Q.
Proof.
  intros Hc -> -> -> Hn Hda Hsa Hf HQ. unfold shift_copy. apply wp_bind.
  eapply wp_load_word; [done|apply (length_slice k 4 l); lia|eapply copied_read; (done || lia)|].
  apply wp_bind. replace (Z.to_nat (4 - Z.of_nat o)) with j by lia.
  eapply wp_copy8; [done..|lia|done|done|]. intros m1 Hc1.
  apply (wp_loop (fun '(d, s, n, w) m' => exists k', d = d0 + Z.of_nat k' /\ s = s0 + Z.of_nat k' /\
            n = lenZ l - Z.of_nat k' /\ (k + j <= k')%nat /\ d `mod` 4 = 0 /\
            (s + Z.of_nat o) `mod` 4 = 0 /\
            w = le_combine (slice (k' - j) 4 l) /\ copied m0 d0 l k' m')
          (fun '(d, s, n, w) => Z.to_nat n)); [| |lia].
  - intros [[[d s] n] w] m' (k' & -> & -> & -> & Hk' & Hd' & Hs' & Hw' & Hc').
    destruct (Z.leb_spec (16 + Z.of_nat o) (lenZ l - Z.of_nat k')).
    + apply wp_bind. replace (8 * (4 - Z.of_nat o)) with (8 * Z.of_nat j) by lia.
      eapply (wp_shift_round k'); [done|lia|lia|done|done|done|done|done|].
      intros m2 Hc2. wp_step. split; [|lia]. exists (k' + 16)%nat.
      repeat split; try lia; try mod_lia; by apply Hc2.
    + wp_step. apply HQ; [done|lia].
  - exists (k + j)%nat. repeat split; try lia; try mod_lia; try apply Hc1.
    by replace (k + j - j)%nat with k by lia.
Qed.
End shift.

(** The bytes copied for one bit of the remaining count. *)
Definition bitval (n b : Z) : nat := if truth (Z.land n b) then Z.to_nat b else 0%nat.

Lemma bitval_sum n :
  0 <= n < 32 ->
  (bitval n 16 + bitval n 8 + bitval n 4 + bitval n 2 + bitval n 1)%nat = Z.to_nat n.
Proof.
  intros Hn.
  assert (forallb (fun i => let n := Z.of_nat i in
    (bitval n 16 + bitval n 8 + bitval n 4 + bitval n 2 + bitval n 1 =? i)%nat) (seq 0 32) = true)
    as H by reflexivity.
  rewrite forallb_forall in H. specialize (H (Z.to_nat n)). cbv zeta in H.
  rewrite Z2Nat.id in H by lia. apply Nat.eqb_eq, H, in_seq. lia.
Qed.

Lemma bitval_16 n : 0 <= n < 16 -> bitval n 16 = 0%nat.
Proof.
  intros Hn. unfold bitval. change 16 with (2 ^ 4) at 1. rewrite land_pow2 by lia.
  rewrite Z.testbit_odd, Z.shiftr_div_pow2, Z.div_small by lia. done.
Qed.

Section memcpy.
Context (m0 : memory) (d0 s0 : Z) (l : list Z).
Context (Hl : bytes_at m0 s0 l) (Hbytes : Forall is_byte l).
Context (Hmap : mapped m0 d0 (length l)).
Context (Hdir : d0 <= s0 \/ s0 + lenZ l <= d0).

Lemma wp_copy_if n b k m d s (Q : Z * Z -> memory -> Prop) :
  copied m0 d0 l k m -> (k + bitval n b <= length l)%nat ->
  d = d0 + Z.of_nat k -> s = s0 + Z.of_nat k ->
  (forall m', copied m0 d0 l (k + bitval n b) m' ->
    Q (d0 + Z.of_nat (k + bitval n b), s0 + Z.of_nat (k + bitval n b)) m') ->
  wp (copy_if n b d s) m Q.
Proof.
  unfold copy_if, bitval. intros Hc Hn -> -> HQ. case_match.
  - eapply wp_copy8; done.
  - wp_step. rewrite Nat.add_0_r in HQ. by apply HQ.
Qed.

Lemma wp_memcpy_head fuel (Q : Z * Z * Z -> memory -> Prop) :
  (length l < fuel)%nat ->
  (forall k m, copied m0 d0 l k m ->
     (s0 + Z.of_nat k) `mod` 4 = 0 \/ lenZ l - Z.of_nat k = 0 ->
     Q (d0 + Z.of_nat k, s0 + Z.of_nat k, lenZ l - Z.of_nat k) m) ->
  wp (loop fuel (fun '(d, s, n) =>
    if truth (s `mod` 4) && truth n then
      '(d, s) ← copy8 1 d s; mret (inl (d, s, n - 1))
    else mret (inr (d, s, n))) (d0, s0, lenZ l)) m0 Q.
Proof.
  intros Hf HQ.
  apply (wp_loop (fun st m => exists k, st = (d0 + Z.of_nat k, s0 + Z.of_nat k, lenZ l - Z.of_nat k)
            /\ copied m0 d0 l k m) (fun '(d, s, n) => Z.to_nat n)); [| |lia].
  - intros st m (k & -> & Hc). pose proof Hc as [Hk _].
    case_match eqn:Hg; [apply andb_prop in Hg as [_ Hn]; apply truth_true in Hn|].
    + apply wp_bind. eapply wp_copy8; [done..|lia|done|done|]. intros m' Hc'. wp_step.
      split; [|lia]. exists (k + 1)%nat. split; [tuple_lia|done].
    + wp_step. apply HQ; [done|].
      apply andb_false_iff in Hg as [Hg|Hg]; apply truth_false in Hg; auto.
  - exists 0%nat. split; [tuple_lia|]. split; [lia|done].
Qed.

Lemma wp_memcpy_words fuel k m (Q : Z * Z * Z -> memory -> Prop) :
  copied m0 d0 l k m -> (length l < fuel)%nat ->
  (d0 + Z.of_nat k) `mod` 4 = 0 -> (s0 + Z.of_nat k) `mod` 4 = 0 \/ lenZ l - Z.of_nat k = 0 ->
  (forall k m, copied m0 d0 l k m -> lenZ l - Z.of_nat k < 16 ->
     (d0 + Z.of_nat k) `mod` 4 = 0 -> (s0 + Z.of_nat k) `mod` 4 = 0 \/ lenZ l - Z.of_nat k = 0 ->
     Q (d0 + Z.of_nat k, s0 + Z.of_nat k, lenZ l - Z.of_nat k) m) ->
  wp (loop fuel (fun '(d, s, n) =>
      if 16 <=? n then
        copy32 (d + 0) (s + 0);; copy32 (d + 4) (s + 4);;
        copy32 (d + 8) (s + 8);; copy32 (d + 12) (s + 12);;
        mret (inl (d + 16, s + 16, n - 16))
      else mret (inr (d, s, n)))
    (d0 + Z.of_nat k, s0 + Z.of_nat k, lenZ l - Z.of_nat k)) m Q.
Proof.
  intros Hc Hf Hd Hs HQ.
  apply (wp_loop (fun st m => exists k, st = (d0 + Z.of_nat k, s0 + Z.of_nat k, lenZ l - Z.of_nat k)
            /\ copied m0 d0 l k m /\ (d0 + Z.of_nat k) `mod` 4 = 0 /\
            ((s0 + Z.of_nat k) `mod` 4 = 0 \/ lenZ l - Z.of_nat k = 0))
            (fun '(d, s, n) => Z.to_nat n)); [|by exists k|lia].
  clear k m Hc Hd Hs. intros st m (k & -> & Hc & Hd & Hs). pose proof Hc as [Hk _].
  destruct (Z.leb_spec 16 (lenZ l - Z.of_nat k)); [|wp_step; by apply HQ].
  destruct Hs as [Hs|]; [|lia]. unfold copy32.
  apply wp_bind. eapply (wp_copy_word _ _ _ _ Hl Hbytes Hmap Hdir 4 k);
    [done|lia|lia|lia|mod_lia|mod_lia|]. clear m Hc. intros m Hc.
  apply wp_bind. eapply (wp_copy_word _ _ _ _ Hl Hbytes Hmap Hdir 4 (k + 4));
    [done|lia|lia|lia|mod_lia|mod_lia|]. clear m Hc. intros m Hc.
  apply wp_bind. eapply (wp_copy_word _ _ _ _ Hl Hbytes Hmap Hdir 4 (k + 4 + 4));
    [done|lia|lia|lia|mod_lia|mod_lia|]. clear m Hc. intros m Hc.
  apply wp_bind. eapply (wp_copy_word _ _ _ _ Hl Hbytes Hmap Hdir 4 (k + 4 + 4 + 4));
    [done|lia|lia|lia|mod_lia|mod_lia|]. clear m Hc. intros m Hc.
  wp_step. split; [|lia]. exists (k + 4 + 4 + 4 + 4)%nat. split; [tuple_lia|].
  split; [done|]. split; [mod_lia|left; mod_lia].
Qed.
End memcpy.

Lemma copied_all m0 d0 l k m :
  copied m0 d0 l k m -> k = length l -> m = mem_write m0 d0 l.
Proof. intros [_ ->] ->. by rewrite take_ge. Qed.

Section memcpy_tails.
Context (m0 : memory) (d0 s0 : Z) (l : list Z).
Context (Hl : bytes_at m0 s0 l) (Hbytes : Forall is_byte l).
Context (Hmap : mapped m0 d0 (length l)).
Context (Hdir : d0 <= s0 \/ s0 + lenZ l <= d0).

Lemma bitval_true n b : truth (Z.land n b) = true -> bitval n b = Z.to_nat b.
Proof. intros H. unfold bitval. by rewrite H. Qed.

Lemma bitval_false n b : truth (Z.land n b) = false -> bitval n b = 0%nat.
Proof. intros H. unfold bitval. by rewrite H. Qed.

Lemma wp_tail_aligned (dest : Z) k m :
  copied m0 d0 l k m -> lenZ l - Z.of_nat k < 16 ->
  (d0 + Z.of_nat k) `mod` 4 = 0 -> (s0 + Z.of_nat k) `mod` 4 = 0 \/ lenZ l - Z.of_nat k = 0 ->
  wp (let d := d0 + Z.of_nat k in let s := s0 + Z.of_nat k in let n := lenZ l - Z.of_nat k in
    '(d, s) ← (if truth (Z.land n 8) then
        copy32 (d + 0) (s + 0);; copy32 (d + 4) (s + 4);; mret (d + 8, s + 8)
      else mret (d, s));
    '(d, s) ← (if truth (Z.land n 4) then
        copy32 (d + 0) (s + 0);; mret (d + 4, s + 4)
      else mret (d, s));
    '(d, s) ← copy_if n 2 d s;
    copy_if n 1 d s;;
    mret dest) m (fun r m' => r = dest /\ m' = mem_write m0 d0 l).
Proof.
  intros Hc Hn Hd Hs. cbv zeta. set (n := lenZ l - Z.of_nat k) in *. pose proof Hc as [Hk _].
  assert (0 <= n < 16) as Hn16 by lia.
  pose proof (bitval_sum n ltac:(lia)) as Hsum. rewrite bitval_16 in Hsum by done.
  apply wp_bind, (wp_mono _ _ (fun st m' => let k' := (k + bitval n 8)%nat in
    st = (d0 + Z.of_nat k', s0 + Z.of_nat k') /\ copied m0 d0 l k' m')).
  { case_match eqn:Ht; [|wp_step; rewrite (bitval_false n 8 Ht), Nat.add_0_r; done].
    pose proof (bitval_true n 8 Ht) as E. rewrite E in *.
    destruct Hs as [Hs|Hs]; [|lia]. unfold copy32.
    apply wp_bind. eapply (wp_copy_word _ _ _ _ Hl Hbytes Hmap Hdir 4 k);
      [done|lia|lia|lia|mod_lia|mod_lia|]. clear m Hc. intros m Hc.
    apply wp_bind. eapply (wp_copy_word _ _ _ _ Hl Hbytes Hmap Hdir 4 (k + 4));
      [done|lia|lia|lia|mod_lia|mod_lia|]. clear m Hc. intros m Hc.
    wp_step. replace (k + 4 + 4)%nat with (k + Z.to_nat 8)%nat in Hc by lia. split; [tuple_lia|done]. }
  clear m Hc. intros st m [-> Hc]. simpl.
  apply wp_bind, (wp_mono _ _ (fun st m' => let k' := (k + bitval n 8 + bitval n 4)%nat in
    st = (d0 + Z.of_nat k', s0 + Z.of_nat k') /\ copied m0 d0 l k' m')).
  { case_match eqn:Ht; [|wp_step; rewrite (bitval_false n 4 Ht), Nat.add_0_r; done].
    pose proof (bitval_true n 4 Ht) as E. rewrite E in *.
    assert (Z.of_nat (bitval n 8) `mod` 4 = 0) by (unfold bitval; by case_match).
    destruct Hs as [Hs|Hs]; [|lia]. unfold copy32.
    apply wp_bind. eapply (wp_copy_word _ _ _ _ Hl Hbytes Hmap Hdir 4 (k + bitval n 8));
      [done|lia|lia|lia|mod_lia|mod_lia|]. clear m Hc. intros m Hc.
    wp_step. change (Z.to_nat 4) with 4%nat. split; [tuple_lia|done]. }
  clear m Hc. intros st m [-> Hc]. simpl.
  apply wp_bind. eapply wp_copy_if; [done..|lia|done|done|]. clear m Hc. intros m Hc.
  apply wp_bind. eapply wp_copy_if; [done..|lia|done|done|]. clear m Hc. intros m Hc.
  wp_step. split; [done|]. eapply copied_all; [done|lia].
Qed.

Lemma wp_tail_bytes (dest : Z) k m :
  copied m0 d0 l k m -> lenZ l - Z.of_nat k < 32 ->
  wp (let d := d0 + Z.of_nat k in let s := s0 + Z.of_nat k in let n := lenZ l - Z.of_nat k in
    '(d, s) ← copy_if n 16 d s;
    '(d, s) ← copy_if n 8 d s;
    '(d, s) ← copy_if n 4 d s;
    '(d, s) ← copy_if n 2 d s;
    copy_if n 1 d s;;
    mret dest) m (fun r m' => r = dest /\ m' = mem_write m0 d0 l).
Proof.
  intros Hc Hn. cbv zeta. set (n := lenZ l - Z.of_nat k) in *. pose proof Hc as [Hk _].
  pose proof (bitval_sum n ltac:(lia)) as Hsum.
  do 5 (apply wp_bind; eapply wp_copy_if; [done..|lia|done|done|]; clear m Hc; intros m Hc).
  wp_step. split; [done|]. eapply copied_all; [done|lia].
Qed.
End memcpy_tails.

Lemma wp_memcpy m d s l fuel :
  bytes_at m s l -> Forall is_byte l -> mapped m d (length l) ->
  d <= s \/ s + lenZ l <= d -> (length l < fuel)%nat ->
  wp (memcpy fuel d s (lenZ l)) m (fun r m' => r = d /\ m' = mem_write m d l).
Proof.
  intros Hl Hb Hm Hdir Hf. unfold memcpy. apply wp_bind.
  apply wp_memcpy_head; [done..|]. intros k m1 Hc Ha. pose proof Hc as [Hk _].
  destruct (Z.eqb_spec ((d + Z.of_nat k) `mod` 4) 0) as [Hd0|Hd0].
  - apply wp_bind. eapply wp_memcpy_words; [done..|]. intros. by apply wp_tail_aligned.
  - apply wp_bind. apply (wp_mono _ _ (fun st m' => exists k', copied m d l k' m' /\
      st = (d + Z.of_nat k', s + Z.of_nat k', lenZ l - Z.of_nat k') /\ lenZ l - Z.of_nat k' < 32)).
    + destruct (Z.leb_spec 32 (lenZ l - Z.of_nat k)); [|wp_step; by exists k].
      destruct Ha as [Ha|]; [|lia].
      assert (forall j o, (j + o = 4)%nat -> (0 < j < 4)%nat -> (d + Z.of_nat k) `mod` 4 = Z.of_nat o ->
        wp (shift_copy fuel (Z.of_nat o) (d + Z.of_nat k) (s + Z.of_nat k) (lenZ l - Z.of_nat k)) m1
          (fun st m' => exists k', copied m d l k' m' /\
            st = (d + Z.of_nat k', s + Z.of_nat k', lenZ l - Z.of_nat k') /\ lenZ l - Z.of_nat k' < 32))
        as Hshift by (intros; eapply wp_shift_copy; try done; eauto).
      assert ((d + Z.of_nat k) `mod` 4 = 1 \/ (d + Z.of_nat k) `mod` 4 = 2 \/ (d + Z.of_nat k) `mod` 4 = 3)
        as [E|[E|E]] by mod_lia; rewrite E.
      * apply (Hshift 3%nat 1%nat); lia.
      * apply (Hshift 2%nat 2%nat); lia.
      * apply (Hshift 1%nat 3%nat); lia.
    + intros st m' (k' & Hc' & -> & Hn). by apply wp_tail_bytes.
Qed.

(** ** memmove *)

Section forward.
Context (m0 : memory) (d0 s0 : Z) (l : list Z).
Context (Hl : bytes_at m0 s0 l) (Hbytes : Forall is_byte l).
Context (Hmap : mapped m0 d0 (length l)).
Context (Hdir : d0 <= s0 \/ s0 + lenZ l <= d0).

Abbreviation fwd k := (d0 + Z.of_nat k, s0 + Z.of_nat k, lenZ l - Z.of_nat k).

(** The loop rule for a forward copy: the state is the number of bytes copied. *)
Lemma wp_forward_loop {R} (P : nat -> Prop) (body : Z * Z * Z -> C (Z * Z * Z + R))
    (Q : R -> memory -> Prop) fuel k m :
  (forall k m, P k -> copied m0 d0 l k m -> wp (body (fwd k)) m (fun r m' =>
     match r with
     | inl st => exists k', st = fwd k' /\ (k < k')%nat /\ P k' /\ copied m0 d0 l k' m'
     | inr v => Q v m'
     end)) ->
  P k -> copied m0 d0 l k m -> (length l < fuel)%nat ->
  wp (loop fuel body (fwd k)) m Q.
Proof.
  intros Hbody HP Hc Hf.
  apply (wp_loop (fun st m => exists k, st = fwd k /\ P k /\ copied m0 d0 l k m)
           (fun '(d, s, n) => Z.to_nat n)); [|by exists k|lia].
  intros st m' (k' & -> & HP' & Hc'). eapply wp_mono; [by apply Hbody|].
  intros [st|v] m''; [|done]. intros (k'' & -> & Hk & HP'' & Hc'').
  pose proof Hc'' as [? _]. split; [by exists k''|lia].
Qed.

Lemma wp_memmove_forward fuel :
  (length l < fuel)%nat ->
  wp (memmove_forward fuel d0 d0 s0 (lenZ l)) m0
    (fun r m' => r = d0 /\ m' = mem_write m0 d0 l).
Proof.
  intros Hf. unfold memmove_forward. apply wp_bind.
  apply (wp_mono _ _ (fun r m' => match r with
    | inr p => p = d0 /\ m' = mem_write m0 d0 l
    | inl st => exists k, st = fwd k /\ copied m0 d0 l k m' end)).
  - assert (copied m0 d0 l 0 m0) as Hinit by (split; [lia|done]).
    assert ((d0, s0, lenZ l) = fwd 0%nat) as E by tuple_lia. rewrite E at 1. clear E.
    destruct (Z.eqb_spec (s0 `mod` WS) (d0 `mod` WS)) as [Heq|]; [|wp_step; exists 0%nat; split; [tuple_lia|done]].
    apply wp_bind. apply (wp_forward_loop (fun _ => True)); [|done..].
    intros k m _ Hc. pose proof Hc as [Hk _]. case_match eqn:Ha.
    + destruct (Z.eqb_spec (lenZ l - Z.of_nat k) 0); [wp_step; wp_step; split; [done|]; eapply copied_all; [done|lia]|].
      apply wp_bind. eapply wp_copy8; [done..|lia|done|done|]. intros m' Hc'. wp_step.
      exists (k + 1)%nat. split; [tuple_lia|]. split; [lia|done].
    + wp_step. apply truth_false in Ha. apply wp_bind.
      apply (wp_forward_loop (fun k => (d0 + Z.of_nat k) `mod` 8 = 0)); [|done..].
      clear k m Hc Hk Ha. intros k m Ha Hc. pose proof Hc as [Hk _]. unfold WS in *.
      destruct (Z.leb_spec 8 (lenZ l - Z.of_nat k)); [|wp_step; wp_step; by exists k].
      pose proof (wp_copy_word _ _ _ _ Hl Hbytes Hmap Hdir 8 k m (d0 + Z.of_nat k) (s0 + Z.of_nat k)) as Hw.
      rewrite <- (C_bind_assoc). apply wp_bind.
      apply Hw; [done|lia|done|done|mod_lia|mod_lia|]. intros m' Hc'. wp_step.
      exists (k + 8)%nat. split; [tuple_lia|]. split; [lia|]. split; [mod_lia|done].
  - intros [st|p] m'; [|intros [-> ->]; by wp_step]. intros (k & -> & Hc). apply wp_bind.
    apply (wp_forward_loop (fun _ => True)); [|done..].
    clear k m' Hc. intros k m _ Hc. pose proof Hc as [Hk _].
    case_match eqn:Hn; [apply truth_true in Hn|apply truth_false in Hn].
    + apply wp_bind. eapply wp_copy8; [done..|lia|done|done|]. intros m' Hc'. wp_step.
      exists (k + 1)%nat. split; [tuple_lia|]. split; [lia|done].
    + wp_step. wp_step. split; [done|]. eapply copied_all; [done|lia].
Qed.
End forward.

Section backward.
Context (m0 : memory) (d0 s0 : Z) (l : list Z).
Context (Hl : bytes_at m0 s0 l) (Hbytes : Forall is_byte l).
Context (Hmap : mapped m0 d0 (length l)) (Hdir : s0 <= d0).

(** The bytes from offset [k] on have been copied. *)
Definition bcopied (k : nat) (m : memory) : Prop :=
  (k <= length l)%nat /\ m = mem_write m0 (d0 + Z.of_nat k) (drop k l).

Lemma bcopied_read k k' n m :
  bcopied k m -> (k' + n <= k)%nat -> bytes_at m (s0 + Z.of_nat k') (slice k' n l).
Proof.
  intros [Hk ->] Hn. apply bytes_at_mem_write_disjoint; [|by apply slice_bytes; [|lia]].
  unfold disjoint_ranges. rewrite length_slice, length_drop by lia. lia.
Qed.

Lemma mem_write_comm_back k n :
  (k + n <= length l)%nat ->
  mem_write (mem_write m0 (d0 + Z.of_nat (k + n)) (drop (k + n) l)) (d0 + Z.of_nat k) (slice k n l) =
  mem_write m0 (d0 + Z.of_nat k) (drop k l).
Proof.
  intros Hk. apply map_eq. intros q. rewrite !mem_write_lookup, length_slice, !length_drop by lia.
  unfold slice. repeat case_decide; try lia; try done.
  - rewrite lookup_take_lt by lia. done.
  - rewrite !lookup_drop. f_equal. lia.
Qed.

Lemma bcopied_write k n m :
  bcopied (k + n) m ->
  bcopied k (mem_write m (d0 + Z.of_nat k) (slice k n l)).
Proof. intros [Hk ->]. split; [lia|]. by apply mem_write_comm_back. Qed.

Lemma bcopied_mapped k m : bcopied k m -> mapped m d0 (length l).
Proof. intros [_ ->]. by apply mapped_mem_write. Qed.

(** One step of a backward loop: the last [w] bytes not yet copied. *)
Lemma wp_back_word w k m (Q : unit -> memory -> Prop) :
  bcopied (k + w) m ->
  (d0 + Z.of_nat k) `mod` Z.of_nat w = 0 -> (s0 + Z.of_nat k) `mod` Z.of_nat w = 0 ->
  (forall m', bcopied k m' -> Q tt m') ->
  wp (x ← load_word w (s0 + Z.of_nat k); store_word w (d0 + Z.of_nat k) x) m Q.
Proof.
  intros Hc Hd Hs HQ. pose proof Hc as [Hk _]. apply wp_bind.
  eapply wp_load_word; [done|by apply (length_slice k w l)|by eapply bcopied_read|].
  apply wp_store_word; [done|eapply mapped_weaken; [by eapply bcopied_mapped|lia|lia]|].
  apply HQ. pose proof (le_split_combine _ (Forall_slice _ k w _ Hbytes)) as E.
  rewrite length_slice in E by lia. rewrite E. by apply bcopied_write.
Qed.

Lemma wp_back_byte k m (Q : unit -> memory -> Prop) :
  bcopied (k + 1) m -> (forall m', bcopied k m' -> Q tt m') ->
  wp (b ← load8 (s0 + Z.of_nat k); store8 (d0 + Z.of_nat k) b) m Q.
Proof.
  intros Hc HQ. pose proof Hc as [Hk _].
  destruct (lookup_lt_is_Some_2 l k) as [b Hb]; [lia|].
  pose proof (bcopied_read _ k 1 m Hc ltac:(lia)) as Hr. pose proof (bcopied_write k 1 m Hc) as Hw.
  rewrite (slice_1 _ _ _ Hb) in Hr, Hw. destruct Hr as [Hr _].
  wp_step. wp_step; [done|]. wp_step; [apply (bcopied_mapped _ _ Hc); lia|].
  rewrite wrap_small by (by eapply (Forall_lookup_1 _ _ _ _ Hbytes)). by apply HQ.
Qed.

Lemma wp_backward_loop {R} (P : nat -> Prop) (body : Z -> C (Z + R))
    (Q : R -> memory -> Prop) fuel k m :
  (forall k m, P k -> bcopied k m -> wp (body (Z.of_nat k)) m (fun r m' =>
     match r with
     | inl n => exists k', n = Z.of_nat k' /\ (k' < k)%nat /\ P k' /\ bcopied k' m'
     | inr v => Q v m'
     end)) ->
  P k -> bcopied k m -> (length l < fuel)%nat ->
  wp (loop fuel body (Z.of_nat k)) m Q.
Proof.
  intros Hbody HP Hc Hf. pose proof Hc as [Hk _].
  apply (wp_loop (fun n m => exists k, n = Z.of_nat k /\ P k /\ bcopied k m) Z.to_nat);
    [|by exists k|lia].
  intros st m' (k' & -> & HP' & Hc'). eapply wp_mono; [by apply Hbody|].
  intros [st|v] m''; [|done]. intros (k'' & -> & Hk' & HP'' & Hc''). split; [by exists k''|lia].
Qed.

Lemma bcopied_all k m : bcopied k m -> k = 0%nat -> m = mem_write m0 d0 l.
Proof. intros [_ ->] ->. f_equal. lia. Qed.

Lemma wp_memmove_backward fuel :
  (length l < fuel)%nat ->
  wp (memmove_backward fuel d0 d0 s0 (lenZ l)) m0
    (fun r m' => r = d0 /\ m' = mem_write m0 d0 l).
Proof.
  intros Hf. unfold memmove_backward. apply wp_bind.
  apply (wp_mono _ _ (fun r m' => match r with
    | inr p => p = d0 /\ m' = mem_write m0 d0 l
    | inl n => exists k, n = Z.of_nat k /\ bcopied k m' end)).
  - assert (bcopied (length l) m0) as Hinit by (split; [lia|by rewrite drop_ge]).
    destruct (Z.eqb_spec (s0 `mod` WS) (d0 `mod` WS)) as [Heq|]; [|wp_step; by eexists].
    apply wp_bind. apply (wp_backward_loop (fun _ => True)); [|done..].
    intros k m _ Hc. pose proof Hc as [Hk _]. case_match eqn:Ha.
    + destruct (Z.eqb_spec (Z.of_nat k) 0); [wp_step; wp_step; split; [done|]; eapply bcopied_all; [done|lia]|].
      replace (Z.of_nat k - 1) with (Z.of_nat (k - 1)) by lia. rewrite <- C_bind_assoc.
      apply wp_bind, wp_back_byte; [by replace (k - 1 + 1)%nat with k by lia|].
      intros m' Hc'. wp_step. exists (k - 1)%nat. split; [lia|]. split; [lia|done].
    + wp_step. apply truth_false in Ha. apply wp_bind.
      apply (wp_backward_loop (fun k => (d0 + Z.of_nat k) `mod` 8 = 0)); [|done..].
      clear k m Hc Hk Ha. intros k m Ha Hc. pose proof Hc as [Hk _]. unfold WS in *.
      destruct (Z.leb_spec 8 (Z.of_nat k)); [|wp_step; wp_step; by exists k].
      replace (Z.of_nat k - 8) with (Z.of_nat (k - 8)) by lia. rewrite <- C_bind_assoc.
      apply wp_bind, wp_back_word; [by replace (k - 8 + 8)%nat with k by lia|mod_lia|mod_lia|].
      intros m' Hc'. wp_step. exists (k - 8)%nat. split; [lia|]. split; [lia|]. split; [mod_lia|done].
  - intros [st|p] m'; [|intros [-> ->]; by wp_step]. intros (k & -> & Hc). apply wp_bind.
    apply (wp_backward_loop (fun _ => True)); [|done..].
    clear k m' Hc. intros k m _ Hc. pose proof Hc as [Hk _].
    case_match eqn:Hn; [apply truth_true in Hn|apply truth_false in Hn].
    + replace (Z.of_nat k - 1) with (Z.of_nat (k - 1)) by lia. rewrite <- C_bind_assoc.
      apply wp_bind, wp_back_byte; [by replace (k - 1 + 1)%nat with k by lia|].
      intros m' Hc'. wp_step. exists (k - 1)%nat. split; [lia|]. split; [lia|done].
    + wp_step. wp_step. split; [done|]. eapply bcopied_all; [done|lia].
Qed.
End backward.

(** The unsigned comparison of [memmove] detects disjoint regions. *)
Lemma memmove_test d s n :
  0 < d -> 0 < s -> d + n <= 2 ^ 63 -> s + n <= 2 ^ 63 -> 0 < n ->
  (wrap64 (wrap64 (s - d) - n) <=? wrap64 (-2 * n)) = true ->
  d + n <= s \/ s + n <= d.
Proof.
  intros Hd Hs Hdn Hsn Hn. rewrite wrap_sub_l. unfold wrap.
  rewrite Z.leb_le. intros H.
  assert ((-2 * n) `mod` 2 ^ 64 = 2 ^ 64 - 2 * n) as E.
  { symmetry. apply (Z.mod_unique_pos _ _ (-1)); lia. }
  rewrite E in H. destruct (decide (0 <= s - d - n)); [lia|].
  assert ((s - d - n) `mod` 2 ^ 64 = 2 ^ 64 + (s - d - n)) as E'.
  { symmetry. apply (Z.mod_unique_pos _ _ (-1)); lia. }
  rewrite E' in H. lia.
Qed.

Lemma wp_memmove m d s l fuel :
  bytes_at m s l -> Forall is_byte l -> mapped m d (length l) ->
  0 < d -> 0 < s -> d + lenZ l <= 2 ^ 63 -> s + lenZ l <= 2 ^ 63 -> (length l < fuel)%nat ->
  wp (memmove fuel d s (lenZ l)) m (fun r m' => r = d /\ m' = mem_write m d l).
Proof.
  intros Hl Hb Hm Hd Hs Hdn Hsn Hf. unfold memmove.
  destruct (Z.eqb_spec d s) as [->|Hne]; [wp_step; by rewrite mem_write_id|].
  case_match eqn:Ht.
  - apply wp_memcpy; try done. destruct (decide (0 < lenZ l)); [|lia].
    apply memmove_test in Ht; lia.
  - destruct (Z.ltb_spec d s); [apply wp_memmove_forward | apply wp_memmove_backward]; (done || lia).
Qed.

(** *** Claims *)

(** [memset] terminates without touching a byte outside the [n] bytes at
    [dest] (all its word stores aligned), returns [dest], and leaves exactly
    those bytes equal to [(unsigned char)c]. *)
Theorem memset_correct m d c n fuel :
  0 < d -> d + Z.of_nat n <= 2 ^ 64 -> mapped m d n -> (n < fuel)%nat ->
  memset fuel d c (Z.of_nat n) m =
  Some (d, mem_write m d (replicate n (wrap8 c))).
Proof. intros. apply wp_elim. by apply wp_memset. Qed.

(** C25: [memcpy] between disjoint regions, for every alignment of source and
    destination and every length, equals the byte-wise copy: it returns
    [dest], memory changes exactly in the destination, and every word access
    is aligned and in bounds. *)
Theorem memcpy_correct m d s l fuel :
  bytes_at m s l -> Forall is_byte l -> mapped m d (length l) ->
  disjoint_ranges d (length l) s (length l) -> (length l < fuel)%nat ->
  memcpy fuel d s (lenZ l) m = Some (d, mem_write m d l).
Proof.
  intros Hl Hb Hm Hd Hf. apply wp_elim. apply wp_memcpy; try done.
  unfold disjoint_ranges in Hd. lia.
Qed.

(** C26: [memmove] copies correctly for arbitrary, also overlapping, regions:
    afterwards the destination holds the bytes the source held before, and
    nothing else has changed. *)
Theorem memmove_correct m d s l fuel :
  bytes_at m s l -> Forall is_byte l -> mapped m d (length l) ->
  0 < d -> 0 < s -> d + lenZ l <= 2 ^ 63 -> s + lenZ l <= 2 ^ 63 -> (length l < fuel)%nat ->
  memmove fuel d s (lenZ l) m = Some (d, mem_write m d l).
Proof. intros. apply wp_elim. by apply wp_memmove. Qed.
