(* ===== verification/StrCopy.v ===== *)
(** * StrCopy: musl's string copying functions

    [stpcpy], [stpncpy], [strlcpy] and the functions built on them.  Like the
    scans they work a word at a time when source and destination have the
    same alignment; the theorems give the exact memory each leaves behind,
    truncation and zero padding included. *)

From S2P Require Import Prelude CMem StrScan MemBlock.
From stdpp Require Import base tactics numbers list gmap.
Open Scope Z_scope.

(** ** The functions *)

Definition stpcpy (fuel : nat) (d s : Z) : C Z :=
  r ← (if s `mod` ALIGN =? d `mod` ALIGN then
      r ← loop fuel (fun '(d, s) =>
          if truth (s `mod` ALIGN) then
            b ← load8 s; store8 d b;;
            if b =? 0 then mret (inr (inr d)) else mret (inl (d + 1, s + 1))
          else mret (inr (inl (d, s)))) (d, s);
      match r with
      | inr d => mret (inr d)
      | inl (wd, ws) =>
          r ← loop fuel (fun '(wd, ws) =>
              x ← load64 ws;
              if truth (HASZERO x) then mret (inr (wd, ws))
              else store64 wd x;; mret (inl (wd + 8, ws + 8))) (wd, ws);
          mret (inl r)
      end
    else mret (inl (d, s)));
  match r with
  | inr d => mret d
  | inl (d, s) =>
      loop fuel (fun '(d, s) =>
        b ← load8 s; store8 d b;;
        if truth b then mret (inl (d + 1, s + 1)) else mret (inr d)) (d, s)
  end.

Definition strcpy (fuel : nat) (dest src : Z) : C Z :=
  stpcpy fuel dest src;; mret dest.

Definition strcat (fuel : nat) (dest src : Z) : C Z :=
  n ← strlen fuel dest;
  strcpy fuel (dest + n) src;;
  mret dest.

(** [for (; g(s) && n && ( *d=*s); n--, s++, d++);] *)
Definition copy_until_nul (fuel : nat) (g : Z -> bool) (d s n : Z) : C (Z * Z * Z) :=
  loop fuel (fun '(d, s, n) =>
    if g s && truth n then
      b ← load8 s; store8 d b;;
      if truth b then mret (inl (d + 1, s + 1, n - 1)) else mret (inr (d, s, n))
    else mret (inr (d, s, n))) (d, s, n).

(** [for (; n>=sizeof(size_t) && !HASZERO( *ws); ...) *wd = *ws;] *)
Definition copy_words (fuel : nat) (d s n : Z) : C (Z * Z * Z) :=
  loop fuel (fun '(wd, ws, n) =>
    if 8 <=? n then
      x ← load64 ws;
      if truth (HASZERO x) then mret (inr (wd, ws, n))
      else store64 wd x;; mret (inl (wd + 8, ws + 8, n - 8))
    else mret (inr (wd, ws, n))) (d, s, n).

Definition stpncpy (fuel : nat) (d s n : Z) : C Z :=
  r ← (if Z.land s (ALIGN - 1) =? Z.land d (ALIGN - 1) then
      '(d, s, n) ← copy_until_nul fuel (fun s => truth (Z.land s (ALIGN - 1))) d s n;
      if negb (truth n) then mret (inr (d, n)) else
      b ← load8 s;
      if negb (truth b) then mret (inr (d, n)) else
      r ← copy_words fuel d s n;
      mret (inl r)
    else mret (inl (d, s, n)));
  '(d, n) ← (match r with
      | inr dn => mret dn
      | inl (d, s, n) =>
          '(d, s, n) ← copy_until_nul fuel (fun _ => true) d s n;
          mret (d, n)
      end);
  memset fuel d 0 n;;
  mret d.

Definition strncpy (fuel : nat) (d s n : Z) : C Z :=
  stpncpy fuel d s n;; mret d.

Definition strlcpy (fuel : nat) (d s n : Z) : C Z :=
  let d0 := d in
  '(d, s) ← (if n =? 0 then mret (d, s) else
    let n := n - 1 in
    '(d, s, n) ← (if Z.land s (ALIGN - 1) =? Z.land d (ALIGN - 1) then
        '(d, s, n) ← copy_until_nul fuel (fun s => truth (Z.land s (ALIGN - 1))) d s n;
        if truth n then
          b ← load8 s;
          if truth b then copy_words fuel d s n else mret (d, s, n)
        else mret (d, s, n)
      else mret (d, s, n));
    '(d, s, n) ← copy_until_nul fuel (fun _ => true) d s n;
    store8 d 0;;
    mret (d, s));
  l ← strlen fuel s;
  mret (d - d0 + l).

Definition strlcat (fuel : nat) (d s n : Z) : C Z :=
  l ← strnlen fuel d n;
  if l =? n then k ← strlen fuel s; mret (l + k) else
  k ← strlcpy fuel (d + l) s (n - l);
  mret (l + k).

(** ** The state of a string copy *)

Lemma cstring_mem_write m s l p w :
  cstring m s l -> disjoint_ranges p (length w) s (S (length l)) ->
  cstring (mem_write m p w) s l.
Proof.
  intros [Hb Hnz Hpad] Hd. split; [|done|].
  - apply bytes_at_mem_write_disjoint; [|done]. by rewrite length_app, Nat.add_1_r.
  - intros q Hq. rewrite mem_write_lookup. case_decide; [|by apply Hpad].
    apply lookup_lt_is_Some_2. lia.
Qed.

Lemma cstring_drop m s l k :
  cstring m s l -> (k <= length l)%nat -> cstring m (s + Z.of_nat k) (drop k l).
Proof.
  intros [Hb Hnz Hpad] Hk. rewrite <- (take_drop k l) in Hb, Hnz, Hpad.
  rewrite <- app_assoc, bytes_at_app, length_take_le in Hb by done.
  apply Forall_app in Hnz as [_ Hnz]. destruct Hb as [_ Hb]. split; [done..|].
  intros q Hq. apply Hpad. rewrite length_app, length_take_le by done.
  replace (s + Z.of_nat (k + length (drop k l))) with (s + Z.of_nat k + lenZ (drop k l)) by lia. done.
Qed.

Section strcopy.
Context (m0 : memory) (d0 s0 : Z) (l : list Z).
Context (Hok : mem_ok m0) (Hs : cstring m0 s0 l).

Abbreviation L := (l ++ [0]).

Lemma string_bytes : Forall is_byte L.
Proof. by eapply mem_ok_bytes, Hs. Qed.

Lemma string_bytes_l : Forall is_byte l.
Proof. pose proof string_bytes as H. by apply Forall_app in H as [H _]. Qed.

(** The invariant of every copy loop: [k] bytes of the string, at most [N],
    have been copied. *)
Context (N : nat) (Hmap : mapped m0 d0 N).
Context (Hdis : disjoint_ranges d0 N s0 (S (length l))).

Definition scopied (k : nat) (m : memory) : Prop :=
  (k <= length l)%nat /\ (k <= N)%nat /\ m = mem_write m0 d0 (take k l).

(** ... or the NUL has been copied as well. *)
Definition sdone (k : nat) (m : memory) : Prop :=
  k = length l /\ (k < N)%nat /\ m = mem_write m0 d0 L.

Lemma scopied_init : scopied 0 m0.
Proof. split; [lia|]. split; [lia|done]. Qed.

Lemma scopied_cstring k m : scopied k m -> cstring m s0 l.
Proof.
  intros (Hk & HN & ->). apply cstring_mem_write; [done|]. unfold disjoint_ranges in *.
  rewrite length_take_le by lia. lia.
Qed.

Lemma scopied_ok k m : scopied k m -> mem_ok m.
Proof.
  intros (_ & _ & ->). apply mem_ok_write; [done|]. apply Forall_take, string_bytes_l.
Qed.

Lemma scopied_mapped k m : scopied k m -> mapped m d0 N.
Proof. intros (_ & _ & ->). by apply mapped_mem_write. Qed.

Lemma scopied_write k n m :
  scopied k m -> (k + n <= length l)%nat -> (k + n <= N)%nat ->
  scopied (k + n) (mem_write m (d0 + Z.of_nat k) (slice k n l)).
Proof.
  intros (Hk & HN & ->) Hn HnN. split; [done|]. split; [done|].
  rewrite take_slice, mem_write_app. by rewrite length_take_le by lia.
Qed.

(** Copying the next byte of the string. *)
Lemma wp_scopy_byte {A} k m (K : Z -> C A) (Q : A -> memory -> Prop) :
  scopied k m -> (k < N)%nat ->
  ((k < length l)%nat -> forall b m', b <> 0 -> scopied (S k) m' -> wp (K b) m' Q) ->
  (forall m', sdone k m' -> wp (K 0) m' Q) ->
  wp (b ← load8 (s0 + Z.of_nat k); store8 (d0 + Z.of_nat k) b;; K b) m Q.
Proof.
  intros Hc HkN Hnz Hz. pose proof Hc as (Hk & _ & Hm).
  destruct (lookup_lt_is_Some_2 L k) as [b Hb]; [rewrite length_app; simpl; lia|].
  pose proof (bytes_at_lookup _ _ _ _ _ (cs_bytes _ _ _ (scopied_cstring _ _ Hc)) Hb) as Hlb.
  wp_step. wp_step; [done|]. wp_step. wp_step; [apply (scopied_mapped _ _ Hc); lia|].
  rewrite wrap_small by (by eapply (Forall_lookup_1 _ _ _ _ string_bytes)).
  destruct (decide (k = length l)) as [->|Hne].
  - rewrite lookup_app_r, Nat.sub_diag in Hb by lia. injection Hb as <-. apply Hz.
    split; [done|]. split; [done|]. rewrite Hm, take_ge by done. by rewrite mem_write_app.
  - rewrite lookup_app_l in Hb by lia. apply Hnz; [lia| |].
    + by apply (Forall_lookup_1 _ _ _ _ (cs_nz _ _ _ Hs) Hb).
    + pose proof (scopied_write k 1 m Hc ltac:(lia) ltac:(lia)) as Hw.
      rewrite (slice_1 _ _ _ Hb), Nat.add_1_r in Hw. done.
Qed.

(** Copying the next word when the string does not end in it. *)
Lemma wp_scopy_word {A} k m (Kz K : C A) (Q : A -> memory -> Prop) :
  scopied k m -> (s0 + Z.of_nat k) `mod` 8 = 0 -> (d0 + Z.of_nat k) `mod` 8 = 0 ->
  (k + 8 <= N \/ length l < k + 8)%nat ->
  wp Kz m Q ->
  (forall m', scopied (k + 8) m' -> wp K m' Q) ->
  wp (x ← load64 (s0 + Z.of_nat k);
      if truth (HASZERO x) then Kz else store64 (d0 + Z.of_nat k) x;; K) m Q.
Proof.
  intros Hc Hsa Hda HN Hz HK. pose proof Hc as (Hk & HkN & Hm).
  pose proof (scopied_cstring _ _ Hc) as Hcs.
  destruct (cstring_word m s0 l Hcs (s0 + Z.of_nat k)) as (lw & Hlen & Hlw); [lia|done|].
  wp_step. eapply wp_load_word; [done..|].
  rewrite HASZERO_spec by eauto using mem_ok_bytes, scopied_ok.
  pose proof (cstring_word_zero m s0 l Hcs (s0 + Z.of_nat k) lw ltac:(lia) Hlen Hlw) as Hzw.
  case_bool_decide as Hin; [done|].
  assert (k + 8 <= length l)%nat by (destruct (decide (s0 + lenZ l < s0 + Z.of_nat k + 8)); [tauto|lia]).
  apply wp_bind, wp_store_word; [done|eapply mapped_weaken; [by eapply scopied_mapped|lia|lia]|].
  pose proof (le_split_combine lw) as E. rewrite Hlen in E.
  rewrite E by eauto using mem_ok_bytes, scopied_ok.
  assert (lw = slice k 8 l) as ->.
  { eapply bytes_at_inj; [done|apply slice_bytes; [|lia]|by rewrite length_slice].
    pose proof (cs_bytes _ _ _ Hcs) as H'. by apply bytes_at_app in H' as [H' _]. }
  apply HK. apply scopied_write; (done || lia).
Qed.
End strcopy.

(** ** stpcpy *)

Lemma mod8_shift a b : a `mod` 8 = b `mod` 8 -> forall k, (a + k) `mod` 8 = (b + k) `mod` 8.
Proof. intros H k. rewrite Z.add_mod, H, <- Z.add_mod by lia. done. Qed.

Section stpcpy.
Context (m0 : memory) (d0 s0 : Z) (l : list Z).
Context (Hok : mem_ok m0) (Hs : cstring m0 s0 l).
Context (Hmap : mapped m0 d0 (S (length l))).
Context (Hdis : disjoint_ranges d0 (S (length l)) s0 (S (length l))).

Abbreviation N := (S (length l)).
Abbreviation at_ k := (d0 + Z.of_nat k, s0 + Z.of_nat k).

Lemma wp_stpcpy fuel :
  (S (length l) < fuel)%nat ->
  wp (stpcpy fuel d0 s0) m0 (fun r m' => r = d0 + lenZ l /\ m' = mem_write m0 d0 (l ++ [0])).
Proof.
  intros Hf. unfold stpcpy.
  assert (forall k m, sdone m0 d0 l N k m ->
    d0 + Z.of_nat k = d0 + lenZ l /\ m = mem_write m0 d0 (l ++ [0])) as Hdone.
  { intros k m (-> & _ & ->). done. }
  apply wp_bind, (wp_mono _ _ (fun r m' => match r with
    | inr r => r = d0 + lenZ l /\ m' = mem_write m0 d0 (l ++ [0])
    | inl st => exists k, st = at_ k /\ scopied m0 d0 l N k m' end)).
  - destruct (Z.eqb_spec (s0 `mod` ALIGN) (d0 `mod` ALIGN)) as [Heq|];
      [|wp_step; exists 0%nat; split; [tuple_lia|apply scopied_init]].
    pose proof (mod8_shift _ _ Heq) as Heq'. apply wp_bind.
    apply (wp_loop (fun st m => exists k, st = at_ k /\ scopied m0 d0 l N k m)
             (fun st => Z.to_nat (d0 + lenZ l + 1 - fst st))); [| |simpl; lia].
    2: { exists 0%nat. split; [tuple_lia|apply scopied_init]. }
    intros st m (k & -> & Hc). pose proof Hc as (Hk & _ & _). case_match eqn:Ha.
    + eapply wp_scopy_byte; [done..|lia| |].
      * intros Hlt b m' Hb Hc'. destruct (Z.eqb_spec b 0); [done|]. wp_step.
        split; [|simpl; lia]. exists (S k). split; [tuple_lia|done].
      * intros m' Hd. simpl. wp_step. wp_step. by apply Hdone in Hd.
    + wp_step. apply truth_false in Ha. apply wp_bind.
      apply (wp_loop (fun st m => exists k, st = at_ k /\ scopied m0 d0 l N k m /\
                (s0 + Z.of_nat k) `mod` 8 = 0)
               (fun st => Z.to_nat (d0 + lenZ l + 1 - fst st))); [|by exists k|simpl; lia].
      clear k m Hc Hk Ha. intros st m (k & -> & Hc & Ha). pose proof Hc as (Hk & _ & _).
      eapply wp_scopy_word; [done..|by rewrite <- Heq'|lia| |].
      * wp_step. wp_step. by exists k.
      * intros m' Hc'. pose proof Hc' as (Hk' & _ & _). wp_step. split; [|simpl; lia].
        exists (k + 8)%nat. split; [tuple_lia|]. split; [done|].
        rewrite Nat2Z.inj_add, Z.add_assoc. by apply mod8_add8.
  - intros [st|r] m'; [|intros [-> ->]; by wp_step]. intros (k & -> & Hc).
    apply (wp_loop (fun st m => exists k, st = at_ k /\ scopied m0 d0 l N k m)
             (fun st => Z.to_nat (d0 + lenZ l + 1 - fst st))); [|by exists k|simpl; lia].
    clear k m' Hc. intros st m (k & -> & Hc). pose proof Hc as (Hk & _ & _).
    eapply wp_scopy_byte; [done..|lia| |].
    + intros Hlt b m' Hb Hc'. rewrite (proj2 (truth_true b) Hb). wp_step.
      split; [|simpl; lia]. exists (S k). split; [tuple_lia|done].
    + intros m' Hd. simpl. wp_step. by apply Hdone in Hd.
Qed.
End stpcpy.

Lemma wp_strcpy m d s l fuel :
  mem_ok m -> cstring m s l -> mapped m d (S (length l)) ->
  disjoint_ranges d (S (length l)) s (S (length l)) -> (S (length l) < fuel)%nat ->
  wp (strcpy fuel d s) m (fun r m' => r = d /\ m' = mem_write m d (l ++ [0])).
Proof.
  intros. unfold strcpy. apply wp_bind. eapply wp_mono; [by apply wp_stpcpy|].
  intros r m' [-> ->]. by wp_step.
Qed.

(** ** Bounded copies *)

Section bounded.
Context (m0 : memory) (d0 s0 : Z) (l : list Z).
Context (Hok : mem_ok m0) (Hs : cstring m0 s0 l).
Context (N : nat) (Hmap : mapped m0 d0 N).
Context (Hdis : disjoint_ranges d0 N s0 (S (length l))).

Abbreviation at3 k := (d0 + Z.of_nat k, s0 + Z.of_nat k, Z.of_nat N - Z.of_nat k).
Abbreviation cop := (scopied m0 d0 l N).
Abbreviation don := (sdone m0 d0 l N).

Lemma wp_copy_until_nul fuel (g : Z -> bool) k m (Q : Z * Z * Z -> memory -> Prop) :
  cop k m -> (N < fuel)%nat ->
  (forall k m, cop k m -> g (s0 + Z.of_nat k) = false \/ k = N -> Q (at3 k) m) ->
  (forall k m, don k m -> Q (at3 k) m) ->
  wp (copy_until_nul fuel g (d0 + Z.of_nat k) (s0 + Z.of_nat k) (Z.of_nat N - Z.of_nat k)) m Q.
Proof.
  intros Hc Hf HQ HQd. unfold copy_until_nul.
  apply (wp_loop (fun st m => exists k, st = at3 k /\ cop k m)
           (fun '(d, s, n) => Z.to_nat n)); [|by exists k|lia].
  clear k m Hc. intros st m (k & -> & Hc). pose proof Hc as (Hk & HN & _).
  case_match eqn:Hg; [apply andb_prop in Hg as [_ Hg]; apply truth_true in Hg|].
  - eapply wp_scopy_byte; [done..|lia| |].
    + intros Hlt b m' Hb Hc'. rewrite (proj2 (truth_true b) Hb). wp_step.
      split; [|lia]. exists (S k). split; [tuple_lia|done].
    + intros m' Hd. simpl. wp_step. by apply HQd.
  - wp_step. apply HQ; [done|]. apply andb_false_iff in Hg as [Hg|Hg]; [by left|].
    apply truth_false in Hg. right. lia.
Qed.

Lemma wp_copy_words fuel k m (Q : Z * Z * Z -> memory -> Prop) :
  cop k m -> (N < fuel)%nat ->
  (s0 + Z.of_nat k) `mod` 8 = 0 -> s0 `mod` 8 = d0 `mod` 8 ->
  (forall k m, cop k m -> Q (at3 k) m) ->
  wp (copy_words fuel (d0 + Z.of_nat k) (s0 + Z.of_nat k) (Z.of_nat N - Z.of_nat k)) m Q.
Proof.
  intros Hc Hf Ha Heq HQ. unfold copy_words.
  apply (wp_loop (fun st m => exists k, st = at3 k /\ cop k m /\ (s0 + Z.of_nat k) `mod` 8 = 0)
           (fun '(d, s, n) => Z.to_nat n)); [|by exists k|lia].
  clear k m Hc Ha. intros st m (k & -> & Hc & Ha). pose proof Hc as (Hk & HN & _).
  destruct (Z.leb_spec 8 (Z.of_nat N - Z.of_nat k)); [|wp_step; by apply HQ].
  eapply wp_scopy_word; [done..|by rewrite <- (mod8_shift _ _ Heq)|lia| |].
  - wp_step. by apply HQ.
  - intros m' Hc'. wp_step. split; [|lia].
    exists (k + 8)%nat. split; [tuple_lia|]. split; [done|].
    rewrite Nat2Z.inj_add, Z.add_assoc. by apply mod8_add8.
Qed.

(** The state in which a bounded copy ends. *)
Definition bounded_end (k : nat) (m : memory) : Prop :=
  (cop k m /\ (k = N \/ k = length l)) \/ don k m.

(** The word-wise first half shared by [stpncpy] and [strlcpy]. *)
Lemma wp_bounded_aligned fuel (Q : Z * Z * Z -> memory -> Prop) :
  (N < fuel)%nat -> Z.land s0 (ALIGN - 1) = Z.land d0 (ALIGN - 1) ->
  (forall k m, cop k m -> (s0 + Z.of_nat k) `mod` 8 = 0 \/ k = N -> Q (at3 k) m) ->
  (forall k m, don k m -> Q (at3 k) m) ->
  wp (copy_until_nul fuel (fun s => truth (Z.land s (ALIGN - 1))) d0 s0 (Z.of_nat N)) m0 Q.
Proof.
  intros Hf Heq HQ HQd.
  replace d0 with (d0 + Z.of_nat 0) at 1 by lia. replace s0 with (s0 + Z.of_nat 0) at 1 by lia.
  replace (Z.of_nat N) with (Z.of_nat N - Z.of_nat 0) by lia.
  apply wp_copy_until_nul; [apply scopied_init|done| |done].
  intros k m Hc [Hg|]; [|by apply HQ; [|right]]. apply HQ; [done|left].
  by rewrite <- land7; apply truth_false.
Qed.
End bounded.

Section bounded_functions.
Context (m0 : memory) (d0 s0 : Z) (l : list Z).
Context (Hok : mem_ok m0) (Hs : cstring m0 s0 l).
Context (N : nat) (Hmap : mapped m0 d0 N).
Context (Hdis : disjoint_ranges d0 N s0 (S (length l))).

Abbreviation at3 k := (d0 + Z.of_nat k, s0 + Z.of_nat k, Z.of_nat N - Z.of_nat k).
Abbreviation cop := (scopied m0 d0 l N).
Abbreviation don := (sdone m0 d0 l N).
Abbreviation fin := (bounded_end m0 d0 l N).

Lemma bounded_end_k k m : fin k m -> k = Nat.min N (length l).
Proof. intros [[(? & ? & _) ?]|(? & ? & _)]; lia. Qed.

(** The last byte-wise loop ends at the bound or at the NUL. *)
Lemma wp_bounded_tail fuel k m (Q : Z * Z * Z -> memory -> Prop) :
  cop k m -> (N < fuel)%nat -> (forall k m, fin k m -> Q (at3 k) m) ->
  wp (copy_until_nul fuel (fun _ => true) (d0 + Z.of_nat k) (s0 + Z.of_nat k)
        (Z.of_nat N - Z.of_nat k)) m Q.
Proof.
  intros Hc Hf HQ. apply (wp_copy_until_nul _ _ _ _ Hok Hs N Hmap Hdis); [done..| |].
  - intros k' m' Hc' [|]; [done|]. apply HQ. left. auto.
  - intros k' m' Hd. apply HQ. by right.
Qed.

Lemma cop_byte k m :
  cop k m -> exists b, m !! (s0 + Z.of_nat k) = Some b /\ (b = 0 <-> k = length l).
Proof.
  intros Hc. pose proof Hc as (Hk & _ & _).
  destruct (cstring_byte m s0 l (scopied_cstring _ _ _ _ Hs _ Hdis _ _ Hc) (s0 + Z.of_nat k))
    as (b & Hb & Hz); [lia|]. exists b. split; [done|]. rewrite Hz. lia.
Qed.

Lemma don_byte k m : don k m -> m !! (s0 + Z.of_nat k) = Some 0.
Proof.
  intros (-> & Hk & ->).
  assert (cstring (mem_write m0 d0 (l ++ [0])) s0 l) as Hcs.
  { apply cstring_mem_write; [done|]. unfold disjoint_ranges in *.
    rewrite length_app. simpl. lia. }
  destruct (cstring_byte _ _ _ Hcs (s0 + lenZ l)) as (b & Hb & Hz); [lia|].
  by rewrite (proj2 Hz eq_refl) in Hb.
Qed.

Lemma bounded_fill k m :
  fin k m -> mem_write m (d0 + Z.of_nat k) (replicate (N - k) 0) =
  mem_write m0 d0 (take N l ++ replicate (N - length l) 0).
Proof.
  intros Hfin. pose proof (bounded_end_k k m Hfin) as Hk. rewrite mem_write_app, length_take.
  destruct Hfin as [[(Hkl & HkN & ->) _]|(-> & HkN & ->)].
  - replace (length (take k l)) with k by (rewrite length_take; lia).
    rewrite Hk. f_equal; [|f_equal; lia]. f_equal.
    destruct (decide (N <= length l)%nat); [by rewrite Nat.min_l|].
    rewrite Nat.min_r, !take_ge by lia. done.
  - rewrite take_ge, Nat.min_r by lia. rewrite mem_write_app. simpl.
    destruct (N - length l)%nat eqn:E; [lia|]. simpl.
    by rewrite insert_insert_eq.
Qed.

Lemma wp_stpncpy fuel :
  0 < d0 -> d0 + Z.of_nat N <= 2 ^ 64 -> (N < fuel)%nat ->
  wp (stpncpy fuel d0 s0 (Z.of_nat N)) m0 (fun r m' =>
    r = d0 + Z.of_nat (Nat.min N (length l)) /\
    m' = mem_write m0 d0 (take N l ++ replicate (N - length l) 0)).
Proof.
  intros Hd HdN Hf. unfold stpncpy. apply wp_bind.
  apply (wp_mono _ _ (fun r m' => match r with
    | inl st => exists k, st = at3 k /\ cop k m'
    | inr st => exists k, st = (d0 + Z.of_nat k, Z.of_nat N - Z.of_nat k) /\ fin k m' end)).
  - destruct (Z.eqb_spec (Z.land s0 (ALIGN - 1)) (Z.land d0 (ALIGN - 1))) as [Heq|];
      [|wp_step; exists 0%nat; split; [tuple_lia|apply scopied_init]].
    apply wp_bind, (wp_bounded_aligned _ _ _ _ Hok Hs N Hmap Hdis); [done..| |].
    + intros k m Hc Ha. destruct (cop_byte k m Hc) as (b & Hb & Hz). pose proof Hc as (? & ? & _).
      case_match eqn:Hn; [apply negb_true_iff, truth_false in Hn|apply negb_false_iff, truth_true in Hn].
      { wp_step. exists k. split; [done|]. left. split; [done|]. lia. }
      wp_step. wp_step; [done|].
      case_match eqn:Hbz; [apply negb_true_iff, truth_false, Hz in Hbz|].
      { wp_step. exists k. split; [done|]. left. auto. }
      destruct Ha as [Ha|]; [|lia]. apply wp_bind.
      apply (wp_copy_words _ _ _ _ Hok Hs N Hmap Hdis); [done..|by rewrite <- !land7|].
      intros k' m' Hc'. wp_step. by exists k'.
    + intros k m Hdn. pose proof Hdn as (? & ? & _).
      rewrite (proj2 (truth_true _)) by lia. simpl. wp_step. wp_step; [by eapply don_byte|].
      simpl. wp_step. exists k. split; [done|]. by right.
  - intros r m' Hr.
    apply wp_bind, (wp_mono _ _ (fun st m' => exists k,
      st = (d0 + Z.of_nat k, Z.of_nat N - Z.of_nat k) /\ fin k m')).
    + destruct r as [st|st]; [|by wp_step]. destruct Hr as (k & -> & Hc).
      apply wp_bind, wp_bounded_tail; [done..|]. intros k' m'' Hfin. wp_step. by exists k'.
    + clear r m' Hr. intros st m (k & -> & Hfin). pose proof (bounded_end_k k m Hfin) as Hk.
      apply wp_bind. replace (Z.of_nat N - Z.of_nat k) with (Z.of_nat (N - k)) by lia.
      eapply wp_mono; [apply wp_memset; [lia|lia| |lia]|].
      * apply (mapped_weaken m d0 N); [|lia|lia]. destruct Hfin as [[Hc _]|(_ & _ & ->)];
          [by eapply scopied_mapped|by apply mapped_mem_write].
      * intros r m' [-> ->]. wp_step. change (wrap8 0) with 0.
        split; [by rewrite Hk|by apply bounded_fill].
Qed.
End bounded_functions.

(** [strncpy(d, s, n)] writes exactly [n] bytes: the first [n] bytes of
    the string, followed by NULs when the string is shorter; the copy is not
    terminated when the string has [n] bytes or more. *)
Theorem strncpy_correct m d s l N fuel :
  mem_ok m -> cstring m s l -> mapped m d N ->
  disjoint_ranges d N s (S (length l)) ->
  0 < d -> d + Z.of_nat N <= 2 ^ 64 -> (N < fuel)%nat ->
  strncpy fuel d s (Z.of_nat N) m =
  Some (d, mem_write m d (take N l ++ replicate (N - length l) 0)).
Proof.
  intros. apply wp_elim. unfold strncpy. apply wp_bind.
  eapply wp_mono; [by eapply (wp_stpncpy m d s l)|]. intros r m' [_ ->]. by wp_step.
Qed.

(** Copying the NUL a second time changes nothing. *)
Lemma wp_copy_until_nul_done m0 d0 s0 l :
  cstring m0 s0 l -> forall N, mapped m0 d0 N -> disjoint_ranges d0 N s0 (S (length l)) ->
  forall fuel k m, sdone m0 d0 l N k m -> (0 < fuel)%nat ->
  copy_until_nul fuel (fun _ => true) (d0 + Z.of_nat k) (s0 + Z.of_nat k) (Z.of_nat N - Z.of_nat k) m =
  Some ((d0 + Z.of_nat k, s0 + Z.of_nat k, Z.of_nat N - Z.of_nat k), m).
Proof.
  intros Hs N Hmap Hdis fuel k m Hd Hf. apply wp_elim.
  pose proof (don_byte _ _ _ _ Hs _ Hdis k m Hd) as Hb. destruct Hd as (-> & Hk & ->).
  destruct fuel as [|fuel]; [lia|]. unfold copy_until_nul. simpl loop. apply wp_bind.
  rewrite (proj2 (truth_true _)) by lia. wp_step. wp_step; [done|].
  wp_step. wp_step; [by apply (mapped_mem_write _ _ _ d0 N); [|lia]|]. simpl. wp_step. wp_step.
  split; [done|]. apply insert_id. change (wrap8 0) with 0.
  rewrite mem_write_lookup, decide_True by (rewrite length_app; simpl; lia).
  rewrite lookup_app_r by lia. by replace (Z.to_nat _ - _)%nat with 0%nat by lia.
Qed.

Section strlcpy.
Context (m0 : memory) (d0 s0 : Z) (l : list Z).
Context (Hok : mem_ok m0) (Hs : cstring m0 s0 l).
Context (N : nat) (Hmap : mapped m0 d0 (S N)).
Context (Hdis : disjoint_ranges d0 (S N) s0 (S (length l))).

Abbreviation at3 k := (d0 + Z.of_nat k, s0 + Z.of_nat k, Z.of_nat N - Z.of_nat k).
Abbreviation fin := (bounded_end m0 d0 l N).

Lemma strlcpy_map : mapped m0 d0 N.
Proof. eapply mapped_weaken; [done|lia..]. Qed.

Lemma strlcpy_dis : disjoint_ranges d0 N s0 (S (length l)).
Proof. unfold disjoint_ranges in *. lia. Qed.

(** Terminating the copy: whether or not the NUL was copied already. *)
Lemma strlcpy_terminate k m :
  fin k m -> is_Some (m !! (d0 + Z.of_nat k)) /\
    <[d0 + Z.of_nat k := wrap8 0]> m = mem_write m0 d0 (take N l ++ [0]).
Proof.
  intros Hfin. pose proof (bounded_end_k _ _ _ _ k m Hfin) as Hk.
  rewrite mem_write_app, length_take. simpl. change (wrap8 0) with 0.
  destruct Hfin as [[(Hkl & HkN & ->) _]|(-> & HkN & ->)]; (split;
    [apply (mapped_mem_write _ _ _ d0 (S N)); [done|lia]|]).
  - rewrite Hk. do 2 f_equal. destruct (decide (N <= length l)%nat).
    + by rewrite Nat.min_l.
    + rewrite Nat.min_r, !take_ge by lia. done.
  - rewrite take_ge, Nat.min_r by lia. rewrite mem_write_app. simpl.
    by rewrite insert_insert_eq.
Qed.

Lemma wp_strlcpy fuel :
  (S N < fuel)%nat -> (S (length l) < fuel)%nat ->
  wp (strlcpy fuel d0 s0 (Z.of_nat (S N))) m0 (fun r m' =>
    r = lenZ l /\ m' = mem_write m0 d0 (take N l ++ [0])).
Proof.
  intros HfN Hfl. unfold strlcpy.
  apply wp_bind, (wp_mono _ _ (fun st m' => m' = mem_write m0 d0 (take N l ++ [0]) /\
    exists k, (k <= length l)%nat /\ st = (d0 + Z.of_nat k, s0 + Z.of_nat k))).
  - destruct (Z.eqb_spec (Z.of_nat (S N)) 0); [lia|].
    replace (Z.of_nat (S N) - 1) with (Z.of_nat N) by lia.
    pose proof strlcpy_map as HmN. pose proof strlcpy_dis as HdN.
    apply wp_bind, (wp_mono _ _ (fun st m' => exists k, st = at3 k /\
      (scopied m0 d0 l N k m' \/ sdone m0 d0 l N k m'))).
    + destruct (Z.eqb_spec (Z.land s0 (ALIGN - 1)) (Z.land d0 (ALIGN - 1))) as [Heq|];
        [|wp_step; exists 0%nat; split; [tuple_lia|left; apply scopied_init]].
      apply wp_bind, (wp_bounded_aligned _ _ _ _ Hok Hs N HmN HdN); [lia|done| |].
      * intros k m Hc Ha. destruct (cop_byte _ _ _ _ Hs _ HdN k m Hc) as (b & Hb & Hz).
        pose proof Hc as (? & ? & _).
        case_match eqn:Hn; [apply truth_true in Hn|wp_step; eauto].
        wp_step. wp_step; [done|]. case_match; [|wp_step; eauto].
        destruct Ha as [Ha|]; [|lia].
        apply (wp_copy_words _ _ _ _ Hok Hs N HmN HdN); [done|lia|done|by rewrite <- !land7|].
        eauto.
      * intros k m Hdn. pose proof Hdn as (? & ? & _).
        rewrite (proj2 (truth_true _)) by lia. wp_step.
        wp_step; [by eapply (don_byte _ _ _ _ Hs)|]. simpl. wp_step. eauto.
    + intros st m' (k & -> & Hst).
      apply wp_bind, (wp_mono _ _ (fun st m' => exists k, st = at3 k /\ fin k m')).
      * destruct Hst as [Hc|Hd].
        { eapply wp_bounded_tail; [done..|lia|]. eauto. }
        pose proof (wp_copy_until_nul_done _ _ _ _ Hs _ HmN HdN fuel k m' Hd ltac:(lia)) as E.
        apply wp_elim in E. eapply wp_mono; [exact E|]. intros st m'' [-> ->].
        exists k. split; [done|]. by right.
      * clear k m' Hst. intros st m (k & -> & Hfin).
        destruct (strlcpy_terminate k m Hfin) as [Hmp E].
        pose proof (bounded_end_k _ _ _ _ k m Hfin) as Hk.
        wp_step. wp_step; [done|]. wp_step. split; [done|]. exists k. split; [lia|done].
  - intros st m' (-> & k & Hk & ->). apply wp_bind.
    eapply wp_mono; [apply wp_strlen|].
    + apply mem_ok_write; [done|]. apply Forall_app. split; [|by repeat constructor].
      apply Forall_take. by eapply string_bytes_l.
    + apply cstring_drop; [|done]. apply cstring_mem_write; [done|].
      unfold disjoint_ranges in *. rewrite length_app, length_take. simpl. lia.
    + rewrite length_drop. lia.
    + intros n m' [-> ->]. wp_step. rewrite length_drop. split; [lia|done].
Qed.
End strlcpy.

(** [strlcpy(d, s, n)] with [n > 0] stores the first [n - 1] bytes of the
    string and a NUL, nothing else, and returns the length of the string, so
    that a result [>= n] tells the caller that the copy was truncated. *)
Theorem strlcpy_correct m d s l N fuel :
  mem_ok m -> cstring m s l -> mapped m d (S N) ->
  disjoint_ranges d (S N) s (S (length l)) ->
  (S N < fuel)%nat -> (S (length l) < fuel)%nat ->
  strlcpy fuel d s (Z.of_nat (S N)) m = Some (lenZ l, mem_write m d (take N l ++ [0])).
Proof. intros. apply wp_elim. by apply wp_strlcpy. Qed.

(** [strcat] appends the source string and its NUL to the destination
    string and changes nothing else. *)
Theorem strcat_correct m d s dl l fuel :
  mem_ok m -> cstring m d dl -> cstring m s l ->
  mapped m (d + lenZ dl) (S (length l)) ->
  disjoint_ranges (d + lenZ dl) (S (length l)) s (S (length l)) ->
  (S (length dl) < fuel)%nat -> (S (length l) < fuel)%nat ->
  strcat fuel d s m = Some (d, mem_write m (d + lenZ dl) (l ++ [0])).
Proof.
  intros. apply wp_elim. unfold strcat. apply wp_bind.
  eapply wp_mono; [by apply wp_strlen|]. intros n m' [-> ->]. apply wp_bind.
  eapply wp_mono; [by apply wp_strcpy|]. intros r m' [-> ->]. by wp_step.
Qed.

Lemma chr_index_cstring m d dl bs :
  cstring m d dl -> bytes_at m d bs -> (length dl < length bs)%nat -> chr_index 0 bs = length dl.
Proof.
  intros Hd Hbs Hlen. assert (forall i, (i <= length dl)%nat -> bs !! i = (dl ++ [0]) !! i) as E.
  { intros i Hi. destruct (lookup_lt_is_Some_2 bs i) as [b Hb]; [lia|].
    destruct (lookup_lt_is_Some_2 (dl ++ [0]) i) as [b' Hb']; [rewrite length_app; simpl; lia|].
    rewrite Hb, Hb'. pose proof (bytes_at_lookup _ _ _ _ _ Hbs Hb).
    pose proof (bytes_at_lookup _ _ _ _ _ (cs_bytes _ _ _ Hd) Hb'). congruence. }
  apply chr_index_found.
  - intros [i Hi]%list_elem_of_lookup. apply lookup_take_Some in Hi as [Hi Hlt].
    rewrite E, lookup_app_l in Hi by lia.
    by apply (Forall_lookup_1 _ _ _ _ (cs_nz _ _ _ Hd)) in Hi.
  - rewrite E by lia. by rewrite lookup_app_r, Nat.sub_diag.
Qed.

(** [strlcat(d, s, n)] onto a string that ends within the [n] bytes
    appends as much of the source as leaves room for the NUL and returns the
    sum of the two lengths. *)
Theorem strlcat_correct m d s dl l n fuel :
  0 < d -> mem_ok m -> cstring m d dl -> cstring m s l ->
  (length dl < n)%nat -> mapped m d n -> disjoint_ranges d n s (S (length l)) ->
  (n < fuel)%nat -> (S (length l) < fuel)%nat ->
  strlcat fuel d s (Z.of_nat n) m =
  Some (lenZ dl + lenZ l, mem_write m (d + lenZ dl) (take (n - length dl - 1) l ++ [0])).
Proof.
  intros Hd Hok Hdl Hs Hn Hm Hdis Hf Hfl. apply wp_elim. unfold strlcat. apply wp_bind.
  destruct (mapped_bytes m d n Hm) as (bs & Hlen & Hbs).
  assert (wp (strnlen fuel d (Z.of_nat n)) m (fun r m' => r = lenZ dl /\ m' = m)) as Hsn.
  { apply wp_elim. rewrite <- Hlen, strnlen_spec, (chr_index_cstring m d dl bs) by (done || lia). done. }
  eapply wp_mono; [exact Hsn|]. intros k m' [-> ->].
  destruct (Z.eqb_spec (lenZ dl) (Z.of_nat n)); [lia|]. apply wp_bind.
  replace (Z.of_nat n - lenZ dl) with (Z.of_nat (S (n - length dl - 1))) by lia.
  eapply wp_mono; [apply wp_strlcpy; try done|].
  - eapply mapped_weaken; [done|lia..].
  - unfold disjoint_ranges in *. lia.
  - lia.
  - intros r m' [-> ->]. by wp_step.
Qed.
