(* ===== verification/StrTok.v ===== *)
(** * StrTok: comparison, byte sets and tokenizers of musl's string library

    [strcmp]/[strncmp]/[memcmp], the 256-bit byte sets of [strspn] and
    [strcspn], and [strtok]/[strtok_r]/[strsep], which cut a string in place.
    The theorems relate the pointer code to functions on byte lists. *)

From S2P Require Import Prelude CMem StrScan MemBlock StrCopy.
From stdpp Require Import base tactics numbers list gmap.
Open Scope Z_scope.

(** ** Comparisons *)

Definition strcmp (fuel : nat) (l r : Z) : C Z :=
  '(l, r) ← loop fuel (fun '(l, r) =>
      a ← load8 l; b ← load8 r;
      if (a =? b) && truth a then mret (inl (l + 1, r + 1)) else mret (inr (l, r))) (l, r);
  a ← load8 l; b ← load8 r;
  mret (a - b).

Definition strncmp (fuel : nat) (l r n : Z) : C Z :=
  if n =? 0 then mret 0 else
  let n := n - 1 in
  '(l, r) ← loop fuel (fun '(l, r, n) =>
      a ← load8 l; b ← load8 r;
      if truth a && truth b && truth n && (a =? b)
      then mret (inl (l + 1, r + 1, n - 1)) else mret (inr (l, r))) (l, r, n);
  a ← load8 l; b ← load8 r;
  mret (a - b).

Definition memcmp (fuel : nat) (vl vr n : Z) : C Z :=
  '(l, r, n) ← loop fuel (fun '(l, r, n) =>
      if truth n then
        a ← load8 l; b ← load8 r;
        if a =? b then mret (inl (l + 1, r + 1, n - 1)) else mret (inr (l, r, n))
      else mret (inr (l, r, n))) (vl, vr, n);
  if truth n then a ← load8 l; b ← load8 r; mret (a - b) else mret 0.

(** ** Byte sets: [size_t byteset[32/sizeof(size_t)]] *)

Definition byteset0 : list Z := replicate 4 0.

(** [BITOP(a, b, |=)] and [BITOP(a, b, &)] *)
Definition bitop_or (a : list Z) (b : Z) : list Z :=
  let i := Z.to_nat (b / 64) in
  <[i := Z.lor (a !!! i) (wrap64 (Z.shiftl 1 (b `mod` 64)))]> a.
Definition bitop_and (a : list Z) (b : Z) : Z :=
  Z.land (a !!! Z.to_nat (b / 64)) (wrap64 (Z.shiftl 1 (b `mod` 64))).

(** [for (; *c && BITOP(byteset, *c, |=); c++);] *)
Definition fill_byteset (fuel : nat) (c : Z) : C (list Z) :=
  loop fuel (fun '(c, bs) =>
    b ← load8 c;
    if truth b then
      let bs := bitop_or bs b in
      if truth (bs !!! Z.to_nat (b / 64)) then mret (inl (c + 1, bs)) else mret (inr bs)
    else mret (inr bs)) (c, byteset0).

Definition strspn (fuel : nat) (s c : Z) : C Z :=
  let a := s in
  c0 ← load8 c;
  if c0 =? 0 then mret 0 else
  c1 ← load8 (c + 1);
  if c1 =? 0 then
    s ← loop fuel (fun s =>
        b ← load8 s; c0 ← load8 c;
        if b =? c0 then mret (inl (s + 1)) else mret (inr s)) s;
    mret (s - a)
  else
    bs ← fill_byteset fuel c;
    s ← loop fuel (fun s =>
        b ← load8 s;
        if truth b && truth (bitop_and bs b) then mret (inl (s + 1)) else mret (inr s)) s;
    mret (s - a).

Definition strcspn (fuel : nat) (s c : Z) : C Z :=
  let a := s in
  c0 ← load8 c;
  single ← (if c0 =? 0 then mret true else c1 ← load8 (c + 1); mret (c1 =? 0));
  if (single : bool) then c0 ← load8 c; p ← strchrnul fuel s c0; mret (p - a) else
  bs ← fill_byteset fuel c;
  s ← loop fuel (fun s =>
      b ← load8 s;
      if truth b && negb (truth (bitop_and bs b)) then mret (inl (s + 1)) else mret (inr s)) s;
  mret (s - a).

Definition strpbrk (fuel : nat) (s b : Z) : C Z :=
  n ← strcspn fuel s b;
  let s := s + n in
  c ← load8 s;
  mret (if truth c then s else 0).

(** ** Tokenizers.  The static [p] of [strtok], the [*p] of [strtok_r] and
    the [*str] of [strsep] are passed and returned explicitly: the result is
    the token (or null) and the new value of the variable. *)

Definition strtok (fuel : nat) (s sep p : Z) : C (Z * Z) :=
  let s := if s =? 0 then p else s in
  if s =? 0 then mret (0, p) else
  n ← strspn fuel s sep;
  let s := s + n in
  b ← load8 s;
  if b =? 0 then mret (0, 0) else
  n ← strcspn fuel s sep;
  let p := s + n in
  b ← load8 p;
  if truth b then store8 p 0;; mret (s, p + 1) else mret (s, 0).

Definition strtok_r (fuel : nat) (s sep p : Z) : C (Z * Z) :=
  let s := if s =? 0 then p else s in
  if s =? 0 then mret (0, p) else
  n ← strspn fuel s sep;
  let s := s + n in
  b ← load8 s;
  if b =? 0 then mret (0, 0) else
  n ← strcspn fuel s sep;
  let p := s + n in
  b ← load8 p;
  if truth b then store8 p 0;; mret (s, p + 1) else mret (s, 0).

Definition strsep (fuel : nat) (str sep : Z) : C (Z * Z) :=
  let s := str in
  if s =? 0 then mret (0, str) else
  n ← strcspn fuel s sep;
  let e := s + n in
  b ← load8 e;
  if truth b then store8 e 0;; mret (s, e + 1) else mret (s, 0).

(** ** The specification functions *)

(** Length of the longest prefix whose bytes satisfy [P]. *)
Fixpoint span (P : Z -> bool) (l : list Z) : nat :=
  match l with [] => 0%nat | b :: l => if P b then S (span P l) else 0%nat end.

Definition mem_bool (cs : list Z) (b : Z) : bool := existsb (Z.eqb b) cs.

Lemma span_le P l : (span P l <= length l)%nat.
Proof. induction l as [|b l IH]; simpl; [done|]. destruct (P b); lia. Qed.

Lemma span_ext P Q l : Forall (fun b => P b = Q b) l -> span P l = span Q l.
Proof. induction 1 as [|b l Hb _ IH]; simpl; [done|]. by rewrite Hb, IH. Qed.

Lemma mem_bool_spec cs b : mem_bool cs b = true <-> b ∈ cs.
Proof.
  unfold mem_bool. rewrite existsb_exists. split.
  - intros (x & Hx & E). apply Z.eqb_eq in E as ->. by apply list_elem_of_In.
  - intros H. exists b. by rewrite <- list_elem_of_In, Z.eqb_refl.
Qed.

(** A scan over a string: the loop shared by [strspn] and [strcspn]. *)
Lemma wp_scan m s l (P : Z -> bool) (body : Z -> C (Z + Z)) fuel :
  cstring m s l -> P 0 = false ->
  (forall p b, m !! p = Some b -> s <= p <= s + lenZ l ->
     wp (body p) m (fun r m' => m' = m /\ r = if P b then inl (p + 1) else inr p)) ->
  (length l < fuel)%nat ->
  wp (loop fuel body s) m (fun r m' => m' = m /\ r = s + Z.of_nat (span P l)).
Proof.
  intros Hs HP Hbody. revert s Hs Hbody fuel.
  induction l as [|c l IH]; intros s Hs Hbody [|fuel] Hf; try (simpl in Hf; lia).
  - pose proof (cs_bytes _ _ _ Hs) as [Hb _]. simpl in *.
    apply wp_bind. eapply wp_mono; [by apply (Hbody s 0); [|lia]|].
    intros r m' [-> ->]. rewrite HP. wp_step. split; [done|lia].
  - pose proof (cs_bytes _ _ _ Hs) as [Hb _]. simpl in *.
    apply wp_bind. eapply wp_mono; [by apply (Hbody s c); [|lia]|].
    intros r m' [-> ->]. destruct (P c); [|wp_step; split; [done|lia]].
    pose proof (cstring_drop m s (c :: l) 1 Hs ltac:(simpl; lia)) as Hs'. simpl in Hs'.
    change (Z.of_nat 1) with 1 in Hs'. rewrite drop_0 in Hs'.
    eapply wp_mono; [apply IH; [done| |simpl in Hf; lia]|].
    + intros p b Hpb Hp. apply Hbody; [done|simpl; lia].
    + intros r m' [-> ->]. split; [done|lia].
Qed.

(** ** Byte sets *)

Lemma bit_pow2 c : is_byte c -> wrap64 (Z.shiftl 1 (c `mod` 64)) = 2 ^ (c `mod` 64).
Proof.
  intros Hc. pose proof (Z.mod_pos_bound c 64 ltac:(lia)) as H.
  rewrite Z.shiftl_mul_pow2, Z.mul_1_l by lia. apply wrap_small.
  split; [lia|]. apply Z.pow_lt_mono_r; lia.
Qed.

Lemma word_index x : is_byte x -> (Z.to_nat (x / 64) < 4)%nat.
Proof.
  unfold in_range. change (2 ^ 8) with 256. intros Hx.
  assert (0 <= x / 64 < 4) by (split; [apply Z.div_pos; lia|apply Z.div_lt_upper_bound; lia]). lia.
Qed.

Lemma truth_bitop_and a c :
  is_byte c -> truth (bitop_and a c) = Z.testbit (a !!! Z.to_nat (c / 64)) (c `mod` 64).
Proof.
  intros Hc. unfold bitop_and. pose proof (Z.mod_pos_bound c 64 ltac:(lia)) as H.
  rewrite bit_pow2, land_pow2 by (done || lia).
  destruct (Z.testbit _ _); [|done]. apply truth_true. lia.
Qed.

Lemma bitop_or_and a b c :
  length a = 4%nat -> is_byte b -> is_byte c ->
  truth (bitop_and (bitop_or a b) c) = (c =? b) || truth (bitop_and a c).
Proof.
  intros Ha Hb Hc. rewrite !truth_bitop_and by done. unfold bitop_or.
  pose proof (Z.mod_pos_bound b 64 ltac:(lia)). pose proof (Z.mod_pos_bound c 64 ltac:(lia)).
  destruct (decide (Z.to_nat (c / 64) = Z.to_nat (b / 64))) as [E|E].
  - rewrite E, list_lookup_total_insert_eq by (rewrite Ha; by apply word_index).
    rewrite Z.lor_spec, bit_pow2, Z.pow2_bits_eqb, orb_comm by (done || lia). f_equal.
    unfold in_range in *. assert (c / 64 = b / 64).
    { apply Z2Nat.inj in E; [done|apply Z.div_pos; lia..]. }
    pose proof (Z.div_mod b 64 ltac:(lia)). pose proof (Z.div_mod c 64 ltac:(lia)).
    destruct (Z.eqb_spec (b `mod` 64) (c `mod` 64)), (Z.eqb_spec c b); try done; lia.
  - rewrite list_lookup_total_insert_ne by done.
    destruct (Z.eqb_spec c b) as [->|]; [done|done].
Qed.

Lemma length_bitop_or a b : length (bitop_or a b) = length a.
Proof. apply length_insert. Qed.

Section byteset.
Context (m : memory) (c : Z) (cl : list Z) (Hok : mem_ok m) (Hc : cstring m c cl).

Lemma cl_bytes : Forall is_byte cl.
Proof. eapply string_bytes_l; eauto. Qed.

Lemma wp_fill_byteset fuel :
  (length cl < fuel)%nat ->
  wp (fill_byteset fuel c) m (fun bs m' => m' = m /\
    forall b, is_byte b -> truth (bitop_and bs b) = mem_bool cl b).
Proof.
  intros Hf. unfold fill_byteset.
  apply (wp_loop (fun '(p, bs) m' => m' = m /\ length bs = 4%nat /\ exists k,
      (k <= length cl)%nat /\ p = c + Z.of_nat k /\
      forall b, is_byte b -> truth (bitop_and bs b) = mem_bool (take k cl) b)
    (fun '(p, bs) => Z.to_nat (c + lenZ cl - p))); [| |lia].
  2: { split; [done|]. split; [done|]. exists 0%nat. split; [lia|]. split; [lia|].
    intros b Hb. rewrite truth_bitop_and by done.
    assert (byteset0 !!! Z.to_nat (b / 64) = 0) as ->; [|apply Z.bits_0].
    by apply lookup_total_replicate_2, word_index. }
  intros [p bs] m' (-> & Hlen & k & Hk & -> & Hbs).
  destruct (cstring_byte m c cl Hc (c + Z.of_nat k)) as (b & Hb & Hz); [lia|].
  wp_step. wp_step; [done|]. case_match eqn:Ht.
  - apply truth_true in Ht. assert (k < length cl)%nat by (destruct (decide (k = length cl)); [subst; tauto|lia]).
    assert (cl !! k = Some b) as Hlk.
    { destruct (lookup_lt_is_Some_2 cl k) as [b' Hb']; [done|].
      pose proof (bytes_at_lookup _ _ _ k b' (cs_bytes _ _ _ Hc)) as E.
      rewrite lookup_app_l in E by done. specialize (E Hb'). congruence. }
    assert (is_byte b) as Hbb by (by eapply (Forall_lookup_1 _ _ _ _ cl_bytes)).
    assert (forall x, is_byte x -> truth (bitop_and (bitop_or bs b) x) = mem_bool (take (S k) cl) x) as Hnew.
    { intros x Hx. rewrite bitop_or_and, Hbs by done. rewrite (take_S_r _ _ _ Hlk).
      unfold mem_bool. rewrite existsb_app. simpl. by rewrite orb_false_r, orb_comm. }
    assert (truth (bitop_or bs b !!! Z.to_nat (b / 64)) = true) as ->.
    { pose proof (Hnew b Hbb) as E. rewrite truth_bitop_and in E by done.
      destruct (truth (_ !!! _)) eqn:T; [done|]. apply truth_false in T. rewrite T, Z.bits_0 in E.
      symmetry in E. apply not_true_iff_false in E. destruct E. apply mem_bool_spec.
      rewrite (take_S_r _ _ _ Hlk). apply elem_of_app. right. by left. }
    wp_step. split; [|lia]. split; [done|]. split; [by rewrite length_bitop_or|].
    exists (S k). split; [lia|]. split; [lia|done].
  - apply truth_false, Hz in Ht. assert (k = length cl) as -> by lia.
    wp_step. split; [done|]. by rewrite take_ge in Hbs.
Qed.
End byteset.

(** ** strspn and strcspn *)

Lemma chr_index_span c l : chr_index c l = span (fun b => negb (b =? c)) l.
Proof.
  unfold chr_index. induction l as [|b l IH]; simpl; [done|].
  case_decide as E; destruct (Z.eqb_spec b c); try done; simpl.
  rewrite <- IH. by destruct (list_find _ l) as [[i x]|].
Qed.

Ltac span_eq :=
  match goal with
  | |- _ + Z.of_nat ?a - _ = Z.of_nat ?b => assert (a = b) as ->; [apply span_ext|lia]
  end.

Section span.
Context (m : memory) (s c : Z) (l cl : list Z) (Hok : mem_ok m).
Context (Hs : cstring m s l) (Hc : cstring m c cl).

Lemma l_byte p b : m !! p = Some b -> is_byte b.
Proof. apply Hok. Qed.

Lemma mem_bool_0 : mem_bool cl 0 = false.
Proof.
  apply not_true_iff_false. rewrite mem_bool_spec. intros H.
  pose proof (cs_nz _ _ _ Hc) as Hnz. rewrite Forall_forall in Hnz. by apply Hnz in H.
Qed.

(** The first two bytes of the set decide its length. *)
Lemma set_head :
  match cl with
  | [] => m !! c = Some 0
  | [x] => x <> 0 /\ m !! c = Some x /\ m !! (c + 1) = Some 0
  | x :: y :: _ => x <> 0 /\ y <> 0 /\ m !! c = Some x /\ m !! (c + 1) = Some y
  end.
Proof.
  pose proof (cs_bytes _ _ _ Hc) as Hb. pose proof (cs_nz _ _ _ Hc) as Hnz.
  destruct cl as [|x [|y cl']]; simpl in Hb; [tauto|..].
  - apply Forall_cons in Hnz as [? _]. tauto.
  - apply Forall_cons in Hnz as [? Hnz]. apply Forall_cons in Hnz as [? _]. tauto.
Qed.

Lemma wp_strspn fuel :
  (length l < fuel)%nat -> (length cl < fuel)%nat ->
  wp (strspn fuel s c) m (fun n m' => m' = m /\ n = Z.of_nat (span (mem_bool cl) l)).
Proof.
  intros Hfl Hfc. unfold strspn. pose proof set_head as Hh. pose proof mem_bool_0 as H0.
  destruct cl as [|x [|y cl']] eqn:Ecl.
  - wp_step. wp_step; [done|]. simpl. wp_step. split; [done|]. by destruct l.
  - destruct Hh as (Hx & Hcx & Hc1). wp_step. wp_step; [done|].
    destruct (Z.eqb_spec x 0); [done|]. wp_step. wp_step; [done|]. simpl. apply wp_bind.
    eapply wp_mono; [apply (wp_scan m s l (mem_bool [x])); [done|done| |done]|].
    + intros p b Hb _. wp_step. wp_step; [done|]. wp_step. wp_step; [done|].
      simpl. rewrite orb_false_r. by destruct (b =? x); wp_step.
    + intros r m' [-> ->]. wp_step. split; [done|lia].
  - destruct Hh as (Hx & Hy & Hcx & Hc1). wp_step. wp_step; [done|].
    destruct (Z.eqb_spec x 0); [done|]. wp_step. wp_step; [done|].
    destruct (Z.eqb_spec y 0); [done|]. apply wp_bind.
    eapply wp_mono; [apply wp_fill_byteset; [done|exact Hc|done]|]. intros bs m' [-> Hbs].
    apply wp_bind. eapply wp_mono; [apply (wp_scan m s l (mem_bool (x :: y :: cl'))); [done|done| |done]|].
    + intros p b Hb _. wp_step. wp_step; [done|]. rewrite Hbs by eauto using l_byte.
      case_match eqn:E; wp_step.
      * apply andb_prop in E as [_ ->]. done.
      * apply andb_false_iff in E as [E| ->]; [|done]. apply truth_false in E as ->. by rewrite H0.
    + intros r m' [-> ->]. wp_step. split; [done|lia].
Qed.

Lemma wp_strcspn fuel :
  (S (length l) < fuel)%nat -> (length cl < fuel)%nat ->
  wp (strcspn fuel s c) m (fun n m' => m' = m /\ n = Z.of_nat (span (fun b => negb (mem_bool cl b)) l)).
Proof.
  intros Hfl Hfc. unfold strcspn. pose proof set_head as Hh. pose proof mem_bool_0 as H0.
  destruct cl as [|x [|y cl']] eqn:Ecl.
  - wp_step. wp_step; [done|]. simpl. wp_step. wp_step. wp_step. wp_step; [done|]. apply wp_bind.
    eapply wp_mono; [by apply wp_strchrnul|]. intros r m' [-> ->]. wp_step. split; [done|].
    rewrite chr_index_span. span_eq.
    eapply Forall_impl; [apply (cs_nz _ _ _ Hs)|]. simpl. intros b Hb.
    change (wrap8 0) with 0. by destruct (Z.eqb_spec b 0).
  - destruct Hh as (Hx & Hcx & Hc1). wp_step. wp_step; [done|]. apply wp_bind.
    destruct (Z.eqb_spec x 0); [done|]. wp_step. wp_step; [done|]. simpl. wp_step. wp_step.
    wp_step; [done|]. apply wp_bind.
    eapply wp_mono; [by apply wp_strchrnul|]. intros r m' [-> ->]. wp_step. split; [done|].
    rewrite chr_index_span, wrap_small by eauto using l_byte.
    span_eq. apply Forall_true. intros b. simpl. by rewrite orb_false_r.
  - destruct Hh as (Hx & Hy & Hcx & Hc1). wp_step. wp_step; [done|]. apply wp_bind.
    destruct (Z.eqb_spec x 0); [done|]. wp_step. wp_step; [done|].
    wp_step. destruct (Z.eqb_spec y 0); [done|]. apply wp_bind.
    eapply wp_mono; [apply wp_fill_byteset; [done|exact Hc|done]|]. intros bs m' [-> Hbs].
    apply wp_bind. eapply wp_mono;
      [apply (wp_scan m s l (fun b => truth b && negb (mem_bool (x :: y :: cl') b))); [done|done| |lia]|].
    + intros p b Hb _. wp_step. wp_step; [done|]. rewrite Hbs by eauto using l_byte.
      case_match; by wp_step.
    + intros r m' [-> ->]. wp_step. split; [done|].
      span_eq. eapply Forall_impl; [apply (cs_nz _ _ _ Hs)|].
      intros b Hb. cbv beta. by rewrite (proj2 (truth_true b) Hb).
Qed.
End span.

(** ** Comparisons *)

(** The comparison of two strings as byte lists: the difference of the first
    bytes that differ, the end of a string counting as 0. *)
Fixpoint strcmp_ref (l1 l2 : list Z) : Z :=
  match l1, l2 with
  | [], [] => 0
  | [], b :: _ => 0 - b
  | a :: _, [] => a - 0
  | a :: l1, b :: l2 => if a =? b then strcmp_ref l1 l2 else a - b
  end.

Lemma strcmp_ref_zero l1 l2 :
  Forall (fun b => b <> 0) l1 -> Forall (fun b => b <> 0) l2 ->
  strcmp_ref l1 l2 = 0 <-> l1 = l2.
Proof.
  intros H1. revert l2. induction H1 as [|a l1 Ha H1 IH]; intros [|b l2] H2; simpl.
  - done.
  - apply Forall_cons in H2 as [? _]. split; [lia|done].
  - split; [lia|done].
  - apply Forall_cons in H2 as [? H2]. destruct (Z.eqb_spec a b) as [->|].
    + rewrite IH by done. split; congruence.
    + split; [lia|congruence].
Qed.

Lemma strcmp_ref_antisym l1 l2 : strcmp_ref l2 l1 = - strcmp_ref l1 l2.
Proof.
  revert l2. induction l1 as [|a l1 IH]; intros [|b l2]; simpl; try lia.
  rewrite (Z.eqb_sym b a). destruct (a =? b); [apply IH|lia].
Qed.

Lemma cstring_tail m s a l : cstring m s (a :: l) -> cstring m (s + 1) l.
Proof.
  intros H. pose proof (cstring_drop m s (a :: l) 1 H ltac:(simpl; lia)) as H'.
  simpl in H'. by rewrite drop_0 in H'.
Qed.

Lemma cstring_head m s l :
  cstring m s l -> m !! s = Some (match l with [] => 0 | a :: _ => a end).
Proof. intros H. pose proof (cs_bytes _ _ _ H) as Hb. by destruct l; destruct Hb. Qed.

Lemma wp_strcmp m p1 p2 l1 l2 fuel :
  cstring m p1 l1 -> cstring m p2 l2 -> (length l1 < fuel)%nat ->
  wp (strcmp fuel p1 p2) m (fun r m' => m' = m /\ r = strcmp_ref l1 l2).
Proof.
  intros H1 H2 Hf. unfold strcmp. apply wp_bind.
  revert p1 p2 l2 fuel H1 H2 Hf. induction l1 as [|a l1 IH]; intros p1 p2 l2 [|fuel] H1 H2 Hf;
    try (simpl in Hf; lia); pose proof (cstring_head _ _ _ H1) as Hh1;
    pose proof (cstring_head _ _ _ H2) as Hh2; simpl in Hh1; simpl loop;
    wp_step; wp_step; wp_step; [done| |done|]; wp_step; wp_step; [done| |done|].
  - rewrite andb_false_r. wp_step. wp_step. wp_step. wp_step; [done|]. wp_step. wp_step; [done|].
    wp_step. split; [done|]. destruct l2; simpl; lia.
  - assert (a <> 0) as Ha by (pose proof (cs_nz _ _ _ H1) as Hn; by apply Forall_cons in Hn as [? _]).
    rewrite (proj2 (truth_true a) Ha), andb_true_r. destruct l2 as [|b l2].
    + destruct (Z.eqb_spec a 0); [done|]. wp_step. wp_step. wp_step. wp_step; [done|]. wp_step.
      wp_step; [done|]. by wp_step.
    + simpl. destruct (Z.eqb_spec a b) as [->|].
      * wp_step. apply IH; [by eapply cstring_tail..|simpl in Hf; lia].
      * wp_step. wp_step. wp_step. wp_step; [done|]. wp_step. wp_step; [done|]. by wp_step.
Qed.

(** ** Tokenizers *)

(** The maximal runs of bytes that are not separators. *)
Fixpoint tokens_from (cl cur l : list Z) : list (list Z) :=
  match l with
  | [] => match cur with [] => [] | _ => [cur] end
  | b :: l =>
      if mem_bool cl b then
        match cur with [] => tokens_from cl [] l | _ => cur :: tokens_from cl [] l end
      else tokens_from cl (cur ++ [b]) l
  end.

Definition tokens (cl l : list Z) : list (list Z) := tokens_from cl [] l.

Lemma tokens_skip cl l : tokens cl l = tokens cl (drop (span (mem_bool cl) l) l).
Proof.
  unfold tokens. induction l as [|b l IH]; simpl; [done|].
  destruct (mem_bool cl b) eqn:E; simpl; [done|]. by rewrite E.
Qed.

Lemma tokens_run cl cur l :
  cur <> [] -> let n := span (fun b => negb (mem_bool cl b)) l in
  tokens_from cl cur l = (cur ++ take n l) :: tokens cl (drop (S n) l).
Proof.
  revert cur. induction l as [|b l IH]; intros cur Hc; simpl.
  - rewrite app_nil_r. by destruct cur.
  - destruct (mem_bool cl b) eqn:E; simpl.
    + rewrite drop_0, app_nil_r. by destruct cur.
    + rewrite IH by (by destruct cur). by rewrite <- app_assoc.
Qed.

(** The tokens of a string, by the scans the code performs. *)
Lemma tokens_spec cl l :
  let rest := drop (span (mem_bool cl) l) l in
  let n := span (fun b => negb (mem_bool cl b)) rest in
  tokens cl l = match rest with [] => [] | _ => take n rest :: tokens cl (drop (S n) rest) end.
Proof.
  cbv zeta. rewrite tokens_skip. set (rest := drop _ l).
  assert (forall b r, rest = b :: r -> mem_bool cl b = false) as Hhd.
  { subst rest. clear. induction l as [|a l IH]; simpl; [done|].
    destruct (mem_bool cl a) eqn:E; [done|]. simpl. intros b r [= <- _]. done. }
  destruct rest as [|b r] eqn:E; [done|]. unfold tokens at 1. simpl.
  rewrite (Hhd b r eq_refl). simpl. by rewrite (tokens_run cl [b] r).
Qed.

Lemma cstring_frame m m' s l :
  cstring m s l -> (forall q, s <= q <= s + lenZ l -> m' !! q = m !! q) ->
  (forall q, is_Some (m !! q) -> is_Some (m' !! q)) -> cstring m' s l.
Proof.
  intros [Hb Hnz Hpad] Heq Hdom. split; [|done|auto].
  apply bytes_at_intro. intros i b Hi. pose proof (lookup_lt_Some _ _ _ Hi) as Hlt.
  rewrite length_app in Hlt. simpl in Hlt. rewrite Heq by lia. by eapply bytes_at_lookup.
Qed.

(** Cutting a string in two with a NUL. *)
Lemma cstring_cut m s l1 b l2 :
  cstring m s (l1 ++ b :: l2) ->
  let m' := mem_write m (s + lenZ l1) [0] in
  cstring m' s l1 /\ cstring m' (s + lenZ l1 + 1) l2.
Proof.
  intros Hs m'. assert (forall q, is_Some (m !! q) -> is_Some (m' !! q)) as Hdom.
  { intros q Hq. subst m'. rewrite mem_write_lookup. case_decide as Hd; [|done].
    apply lookup_lt_is_Some_2. simpl in *. lia. }
  split.
  - destruct Hs as [Hb Hnz Hpad]. split.
    + apply bytes_at_app. split; [|apply mem_write_bytes_at].
      rewrite <- app_assoc, bytes_at_app in Hb. destruct Hb as [Hb _].
      apply bytes_at_mem_write_disjoint; [|done]. right. lia.
    + by apply Forall_app in Hnz as [Hnz _].
    + intros q Hq. apply Hdom. destruct (decide (q <= s + lenZ (l1 ++ b :: l2))).
      * apply (bytes_at_mapped _ _ _ Hb). rewrite !length_app in *. simpl in *. lia.
      * apply Hpad. split; [lia|]. assert ((s + lenZ l1) / 8 <= (s + lenZ (l1 ++ b :: l2)) / 8); [|lia].
        apply Z.div_le_mono; [lia|]. rewrite length_app. lia.
  - pose proof (cstring_drop m s (l1 ++ b :: l2) (length l1 + 1) Hs) as H.
    rewrite length_app in H. specialize (H ltac:(simpl; lia)).
    rewrite drop_app_ge in H by lia. replace (length l1 + 1 - length l1)%nat with 1%nat in H by lia.
    simpl in H. rewrite drop_0 in H.
    replace (s + Z.of_nat (length l1 + 1)) with (s + lenZ l1 + 1) in H by lia.
    eapply cstring_frame; [done| |done]. intros q Hq. apply mem_write_ne. simpl. lia.
Qed.

(** What a successful call of a tokenizer on the string [l] at [a] leaves
    behind: the token [tok] at [t], cut off in place, and in [p'] the rest of
    the string (or null when the token was the last). *)
Record token_cut (cl : list Z) (m : memory) (a : Z) (l : list Z)
    (t p' : Z) (m' : memory) (tok : list Z) (toks : list (list Z)) : Prop := {
  tc_token : cstring m' t tok;
  tc_start : a <= t;
  tc_rest : (p' = 0 /\ toks = [] /\ t + lenZ tok <= a + lenZ l) \/
    (p' = t + lenZ tok + 1 /\ exists l', cstring m' p' l' /\ tokens cl l' = toks /\
       p' + lenZ l' = a + lenZ l);
  tc_frame : forall q, ~ (a <= q <= a + lenZ l) -> m' !! q = m !! q;
  tc_mapped : forall q, is_Some (m !! q) -> is_Some (m' !! q);
  tc_ok : mem_ok m'
}.

Section strtok.
Context (m : memory) (a sep : Z) (l cl : list Z) (Hok : mem_ok m).
Context (Hs : cstring m a l) (Hc : cstring m sep cl) (Ha : 0 < a).

(** The second half of [strtok]: cutting the token that starts at the
    first byte of [rest]. *)
Lemma token_cut_here k :
  let rest := drop k l in
  let n := span (fun b => negb (mem_bool cl b)) rest in
  (k <= length l)%nat ->
  exists b, m !! (a + Z.of_nat k + Z.of_nat n) = Some b /\
    (b = 0 -> token_cut cl m a l (a + Z.of_nat k) 0 m (take n rest) (tokens cl (drop (S n) rest))) /\
    (b <> 0 -> token_cut cl m a l (a + Z.of_nat k) (a + Z.of_nat k + Z.of_nat n + 1)
       (<[a + Z.of_nat k + Z.of_nat n := wrap8 0]> m) (take n rest) (tokens cl (drop (S n) rest))).
Proof.
  intros rest n Hk. pose proof (cstring_drop m a l k Hs Hk) as Hr. fold rest in Hr.
  pose proof (span_le (fun b => negb (mem_bool cl b)) rest) as Hn. fold n in Hn.
  assert (length rest = length l - k)%nat as Hlen by apply length_drop.
  destruct (cstring_byte m _ rest Hr (a + Z.of_nat k + Z.of_nat n)) as (b & Hb & Hz); [lia|].
  exists b. split; [done|]. split.
  - intros E. apply Hz in E. assert (n = length rest) as En by lia.
    rewrite take_ge, drop_ge by lia. split; [done|lia|left; split; [done|split; [done|lia]]|done|done|done].
  - intros Hnz. assert (n < length rest)%nat as Hlt.
    { destruct (decide (n = length rest)) as [E|]; [|lia]. destruct Hnz. apply Hz. lia. }
    destruct (lookup_lt_is_Some_2 rest n Hlt) as [b' Hb'].
    pose proof (take_drop_middle rest n b' Hb') as Hsplit. rewrite <- Hsplit in Hr.
    apply cstring_cut in Hr as [Hr1 Hr2]. rewrite length_take_le in Hr1, Hr2 by lia.
    change (<[a + Z.of_nat k + Z.of_nat n:=wrap8 0]> m) with (mem_write m (a + Z.of_nat k + Z.of_nat n) [0]).
    split; [done|lia| | | |].
    + right. rewrite length_take_le by lia. split; [done|]. exists (drop (S n) rest).
      split; [done|]. split; [done|]. rewrite length_drop. lia.
    + intros q Hq. apply mem_write_ne. simpl. lia.
    + intros q Hq. rewrite mem_write_lookup. case_decide; [|done].
      apply lookup_lt_is_Some_2. simpl in *. lia.
    + apply mem_ok_write; [done|]. by repeat constructor.
Qed.

Lemma wp_strtok s p fuel :
  (if s =? 0 then p else s) = a ->
  (S (length l) < fuel)%nat -> (length cl < fuel)%nat ->
  wp (strtok fuel s sep p) m (fun '(t, p') m' =>
    match tokens cl l with
    | [] => t = 0 /\ p' = 0 /\ m' = m
    | tok :: toks => token_cut cl m a l t p' m' tok toks
    end).
Proof.
  intros Hsp Hfl Hfc. unfold strtok. rewrite Hsp. destruct (Z.eqb_spec a 0); [lia|].
  apply wp_bind. eapply wp_mono; [apply (wp_strspn m a sep l cl); (done || lia)|].
  intros r m' [-> ->]. rewrite tokens_spec. set (k := span (mem_bool cl) l).
  pose proof (span_le (mem_bool cl) l : (k <= length l)%nat) as Hk.
  pose proof (cstring_drop m a l k Hs Hk) as Hr.
  pose proof (cstring_head _ _ _ Hr) as Hh.
  wp_step. wp_step; [done|]. destruct (drop k l) as [|b rest] eqn:Er.
  - simpl. wp_step. done.
  - assert (b <> 0) as Hb by (pose proof (cs_nz _ _ _ Hr) as Hn; by apply Forall_cons in Hn as [? _]).
    destruct (Z.eqb_spec b 0); [done|]. rewrite <- Er in *. apply wp_bind.
    eapply wp_mono; [apply (wp_strcspn m (a + Z.of_nat k) sep (drop k l) cl); try done|].
    { rewrite length_drop. lia. }
    intros r m' [-> ->]. destruct (token_cut_here k Hk) as (b' & Hb' & Hz & Hnz).
    wp_step. wp_step; [done|]. destruct (truth b') eqn:Ht; [apply truth_true in Ht|apply truth_false in Ht].
    + wp_step. wp_step; [by eexists|]. wp_step. by apply Hnz.
    + wp_step. by apply Hz.
Qed.
End strtok.

(** [strspn] and [strcspn] return the length of the longest prefix of the
    string made of bytes in, respectively not in, the set: the 256-bit table
    the code builds is membership in the set string. *)
Theorem strspn_strcspn_correct m s c l cl fuel :
  mem_ok m -> cstring m s l -> cstring m c cl ->
  (S (length l) < fuel)%nat -> (length cl < fuel)%nat ->
  strspn fuel s c m = Some (Z.of_nat (span (mem_bool cl) l), m) /\
  strcspn fuel s c m = Some (Z.of_nat (span (fun b => negb (mem_bool cl b)) l), m).
Proof.
  intros. split; apply wp_elim;
    (eapply wp_mono; [apply (wp_strspn m s c l cl) || apply (wp_strcspn m s c l cl); (done || lia)|]);
    intros r m' [-> ->]; done.
Qed.

(** [strcmp] returns the difference of the first bytes in which the
    strings differ; it is 0 exactly for equal strings, and swapping the
    arguments negates it. *)
Theorem strcmp_correct m p1 p2 l1 l2 fuel :
  cstring m p1 l1 -> cstring m p2 l2 -> (length l1 < fuel)%nat -> (length l2 < fuel)%nat ->
  exists d, strcmp fuel p1 p2 m = Some (d, m) /\ strcmp fuel p2 p1 m = Some (- d, m) /\
    (d = 0 <-> l1 = l2).
Proof.
  intros H1 H2 Hf1 Hf2. exists (strcmp_ref l1 l2). split_and!.
  - apply wp_elim. eapply wp_mono; [by apply wp_strcmp|]. by intros r m' [-> ->].
  - rewrite <- strcmp_ref_antisym. apply wp_elim. eapply wp_mono; [by apply wp_strcmp|].
    by intros r m' [-> ->].
  - apply strcmp_ref_zero; by eapply cs_nz.
Qed.

(** C31: one call of [strtok] returns the first token of the string, NUL
    terminated in place, and leaves the saved pointer at a string whose
    tokens are the remaining ones; it returns null and clears the pointer
    when there is no token, and writes nothing outside the string. *)
Theorem strtok_correct m a sep l cl s p fuel :
  mem_ok m -> cstring m a l -> cstring m sep cl -> 0 < a ->
  (if s =? 0 then p else s) = a -> (S (length l) < fuel)%nat -> (length cl < fuel)%nat ->
  exists t p' m', strtok fuel s sep p m = Some ((t, p'), m') /\
    match tokens cl l with
    | [] => t = 0 /\ p' = 0 /\ m' = m
    | tok :: toks => token_cut cl m a l t p' m' tok toks
    end.
Proof.
  intros Hok Hs Hc Ha Hsp Hfl Hfc.
  pose proof (wp_strtok m a sep l cl Hok Hs Hc Ha s p fuel Hsp Hfl Hfc) as H. unfold wp in H.
  destruct (strtok fuel s sep p m) as [[[t p'] m']|]; [eauto|done].
Qed.
