(* ===== verification/StrDemo.v ===== *)
(** * StrDemo: the string functions on a concrete memory

    A page of 128 bytes that holds the strings "hello" at 68 and "lo" at
    128, zero elsewhere: each theorem on the string and memory functions is
    applied to it, so its hypotheses can be met. *)

From S2P Require Import Prelude CMem StrScan MemBlock StrCopy StrTok.
From Stdlib Require Import ZArith Lia Bool List.
From stdpp Require Import base tactics numbers list gmap option.
Open Scope Z_scope.

Definition hello : list Z := [104; 101; 108; 108; 111].
Definition lo : list Z := [108; 111].
Definition page : memory := mem_write ∅ 64 (replicate 128 0).
Definition demo : memory := mem_write (mem_write page 68 hello) 128 lo.

Lemma page_ok : mem_ok page.
Proof.
  apply mem_ok_write; [apply map_Forall_empty|]. apply Forall_replicate. unfold in_range. lia.
Qed.
Lemma page_mapped p n : 64 <= p -> p + Z.of_nat n <= 192 -> mapped page p n.
Proof.
  intros H1 H2 q Hq. unfold page. rewrite mem_write_lookup, length_replicate, decide_True by lia.
  rewrite lookup_replicate_2 by lia. done.
Qed.
Lemma demo_ok : mem_ok demo.
Proof. unfold demo. do 2 (apply mem_ok_write; [|repeat apply List.Forall_cons; try apply List.Forall_nil; unfold in_range; lia]). apply page_ok. Qed.
Lemma demo_mapped p n : 64 <= p -> p + Z.of_nat n <= 192 -> mapped demo p n.
Proof. intros H1 H2. unfold demo. do 2 apply mapped_mem_write. by apply page_mapped. Qed.

Lemma page_string (m : memory) s l :
  (forall p n, 64 <= p -> p + Z.of_nat n <= 192 -> mapped m p n) -> 64 <= s -> s + lenZ l < 184 -> forallb (fun b => negb (b =? 0)) l = true ->
  forallb (fun '(i, b) => bool_decide (m !! (s + Z.of_nat i) = Some b)) (zip (seq 0 (S (length l))) (l ++ [0])) = true ->
  cstring m s l.
Proof.
  intros Hm H1 H2 Hnz Hb. rewrite forallb_forall in Hnz, Hb. split.
  - apply bytes_at_intro. intros i b Hi. specialize (Hb (i, b)). cbn beta iota in Hb.
    rewrite bool_decide_eq_true in Hb. apply Hb, list_elem_of_In, (list_elem_of_lookup_2 _ i), lookup_zip_with_Some.
    exists i, b. pose proof (lookup_lt_Some _ _ _ Hi) as L. rewrite length_app in L. cbn [length] in L.
    split_and!; [done|rewrite lookup_seq_lt by lia; done|done].
  - apply List.Forall_forall. intros b Hin. apply Hnz in Hin. by destruct (Z.eqb_spec b 0).
  - intros q Hq. apply (Hm q 1%nat); [lia| |lia].
    pose proof (Z.div_mod (s + lenZ l) 8). pose proof (Z.mod_pos_bound (s + lenZ l) 8). lia.
Qed.

Lemma hello_string : cstring demo 68 hello.
Proof. apply page_string; [apply demo_mapped|lia|cbn; lia|reflexivity|vm_compute; reflexivity]. Qed.
Lemma lo_string : cstring demo 128 lo.
Proof. apply page_string; [apply demo_mapped|lia|cbn; lia|reflexivity|vm_compute; reflexivity]. Qed.

#[local] Hint Resolve demo_ok hello_string lo_string : demo.
Ltac on_page := first [solve [auto with demo] | apply demo_mapped; cbn; lia | unfold disjoint_ranges; cbn; lia | cbn; lia | reflexivity].

Lemma strlen_witness : strlen 16 68 demo = Some (5, demo).
Proof. apply (strlen_correct demo 68 hello 16); on_page. Defined.

Lemma memchr_witness : memchr 16 68 (256 + 108) 5 demo = Some (70, demo).
Proof. apply (memchr_correct demo 68 hello (256 + 108) 16); [on_page| |on_page]. by repeat split. Defined.

Lemma strchr_witness : strchr 16 68 0 demo = Some (73, demo).
Proof. apply (strchr_correct demo 68 hello 0 16); on_page. Defined.

Lemma strrchr_witness : strrchr 16 68 108 demo = Some (71, demo).
Proof. apply (strrchr_correct demo 68 hello 108 16); on_page. Defined.

Lemma memset_witness : memset 32 80 (-1) 20 demo = Some (80, mem_write demo 80 (replicate 20 255)).
Proof. apply (memset_correct demo 80 (-1) 20 32); on_page. Defined.

Lemma hello_bytes : Forall is_byte hello.
Proof. repeat apply List.Forall_cons; try apply List.Forall_nil; unfold in_range; lia. Qed.

Lemma memcpy_witness : memcpy 16 90 68 5 demo = Some (90, mem_write demo 90 hello).
Proof. apply (memcpy_correct demo 90 68 hello 16); [by repeat split|apply hello_bytes|on_page..]. Defined.

Lemma memmove_witness : memmove 16 70 68 5 demo = Some (70, mem_write demo 70 hello).
Proof. apply (memmove_correct demo 70 68 hello 16); [by repeat split|apply hello_bytes|on_page..]. Defined.

Lemma strncpy_witness : strncpy 16 90 68 8 demo = Some (90, mem_write demo 90 (hello ++ [0; 0; 0])).
Proof. apply (strncpy_correct demo 90 68 hello 8 16); on_page. Defined.

Lemma strlcpy_witness : strlcpy 16 90 68 4 demo = Some (5, mem_write demo 90 [104; 101; 108; 0]).
Proof. apply (strlcpy_correct demo 90 68 hello 3 16); on_page. Defined.

Lemma strcat_witness : strcat 16 68 128 demo = Some (68, mem_write demo 73 (lo ++ [0])).
Proof. apply (strcat_correct demo 68 128 hello lo 16); on_page. Defined.

Lemma strlcat_witness : strlcat 16 68 128 7 demo = Some (7, mem_write demo 73 [108; 0]).
Proof. apply (strlcat_correct demo 68 128 hello lo 7 16); on_page. Defined.

Lemma strspn_strcspn_witness : strspn 16 68 128 demo = Some (0, demo) /\ strcspn 16 68 128 demo = Some (2, demo).
Proof. apply (strspn_strcspn_correct demo 68 128 hello lo 16); on_page. Defined.

Lemma strcmp_witness :
  exists d, strcmp 16 68 128 demo = Some (d, demo) /\ strcmp 16 128 68 demo = Some (- d, demo) /\ (d = 0 <-> hello = lo).
Proof. apply (strcmp_correct demo 68 128 hello lo 16); on_page. Defined.

Lemma strtok_witness :
  exists t p' m', strtok 16 68 128 0 demo = Some ((t, p'), m') /\ token_cut lo demo 68 hello t p' m' [104; 101] [].
Proof. apply (strtok_correct demo 68 128 hello lo 68 0 16); on_page. Defined.
