(* ===== verification/Words.v ===== *)
(** * Words: periods, maximal suffixes and critical positions

    The combinatorics behind the two-way search of strstr and memmem. A word
    is a function from positions to letters with a length. The search for a
    maximal suffix keeps the invariant [suffix_inv]; the later of the maximal
    suffixes for the order of the letters and its converse starts at a
    critical position ([critical]), where every local repetition is a period
    of the word; that bounds the occurrences after a mismatch. *)

From S2P Require Import Prelude.
From Stdlib Require Import ZArith Lia Bool.
Open Scope Z_scope.

Abbreviation letters := (Z -> Z).

(** ** Comparing suffixes *)

(** Within the first [m] letters the suffix at [t] is smaller than the one at
    [i] by a letter. *)
Definition smaller (x : letters) (m t i : Z) : Prop :=
  exists d, 0 <= d /\ t + d < m /\ i + d < m /\ (forall e, 0 <= e < d -> x (t + e) = x (i + e)) /\ x (t + d) < x (i + d).

(** They do not differ before the end. *)
Definition prefixed (x : letters) (m t i : Z) : Prop := forall d, 0 <= d -> t + d < m -> x (t + d) = x (i + d).

Definition below (x : letters) (m t i : Z) : Prop := smaller x m t i \/ prefixed x m t i.

Lemma smaller_trans x m a b c : smaller x m a b -> smaller x m b c -> smaller x m a c.
Proof.
  intros (d & Hd & Had & Hbd & Heq & Hlt) (d' & Hd' & Hbd' & Hcd & Heq' & Hlt').
  destruct (Z_lt_le_dec d d'); [|destruct (Z_lt_le_dec d' d)].
  - exists d. repeat split; try lia; [|specialize (Heq' d); lia].
    intros e He. rewrite Heq, Heq' by lia. reflexivity.
  - exists d'. repeat split; try lia; [|specialize (Heq d'); lia].
    intros e He. rewrite Heq, Heq' by lia. reflexivity.
  - assert (d = d') as -> by lia. exists d'. repeat split; try lia.
    intros e He. rewrite Heq, Heq' by lia. reflexivity.
Qed.

Lemma smaller_more x m m' t i : m <= m' -> smaller x m t i -> smaller x m' t i.
Proof. intros Hm (d & Hd & Ht & Hi & H). exists d. repeat split; try lia; apply H. Qed.

(** One more letter decides, or does not. *)
Lemma below_step x m t i : t < m -> i < t -> below x m t i -> x m <= x (i + (m - t)) -> below x (m + 1) t i.
Proof.
  intros Ht Hi [H|H] Hx; [left; apply smaller_more with m; [lia|exact H]|].
  destruct (Z.eq_dec (x m) (x (i + (m - t)))) as [E|E].
  - right. intros d Hd Htd. destruct (Z.eq_dec (t + d) m) as [<-|]; [|apply H; lia].
    now replace (t + d - t) with d in E by lia.
  - left. exists (m - t). repeat split; try lia; [|replace (t + (m - t)) with m by lia; lia].
    intros e He. apply H; lia.
Qed.

(** ** The search for the maximal suffix *)

(** The suffix at [i] is maximal among those that start before [m], and [p]
    is the least period of the letters from [i] to [m]; [j] is a multiple of
    [p] further, [k] letters before [m]. *)
Record suffix_inv (x : letters) (l i j k p : Z) : Prop := {
  si_pos : 0 <= i < j; si_k : 1 <= k <= p; si_div : (p | j - i); si_len : j + k - 1 <= l;
  si_before : forall t, 0 <= t < i -> smaller x l t i;
  si_after : forall t, i < t < j + k - 1 -> below x (j + k - 1) t i;
  si_period : forall t, i <= t -> t + p < j + k - 1 -> x t = x (t + p);
  si_least : forall t, i < t < i + p -> smaller x (j + k - 1) t i }.

Lemma suffix_inv_init x l : 1 <= l -> suffix_inv x l 0 1 1 1.
Proof. intros Hl. split; intros; try lia. now exists 1. Qed.

Lemma multiple_step p n : 0 < p -> 0 < n -> (p | n) -> exists r, n = p + r /\ 0 <= r /\ (p | r).
Proof. intros Hp Hn [q ->]. assert (0 < q) by nia. exists ((q - 1) * p). repeat split; [ring|apply Z.mul_nonneg_nonneg; lia|now exists (q - 1)]. Qed.

(** A period gives equal letters at multiples of it. *)
Lemma period_multiple (x : letters) a b p : 1 <= p -> (forall t, a <= t -> t + p < b -> x t = x (t + p)) ->
  forall r t, (p | r) -> 0 <= r -> a <= t -> t + r < b -> x t = x (t + r).
Proof.
  intros Hp H r t [q ->] Hr Ht Hb. assert (0 <= q) as Hq by nia. revert t Ht Hb. pattern q. apply natlike_ind; [|clear q Hr Hq|exact Hq].
  - intros t _ _. f_equal. lia.
  - intros q Hq IH t Ht Hb. rewrite IH by lia. rewrite H by lia. f_equal. lia.
Qed.

Section step.
Context (x : letters) (l i j k p : Z) (I : suffix_inv x l i j k p) (Hm : j + k - 1 < l).

Let m := j + k - 1.

(** The letter a period before the next, and the one compared with it. *)
Lemma gap : i + p <= j.
Proof.
  destruct I as [H1 H2 H3 _ _ _ _ _]. destruct (multiple_step p (j - i)) as (r & Hr & H & _); [lia|lia|exact H3|lia].
Qed.
Lemma period_letter : x (m - p) = x (i + k - 1).
Proof.
  pose proof gap. destruct I as [H1 H2 H3 _ _ _ H7 _]. fold m in H7. symmetry.
  destruct (multiple_step p (j - i)) as (r & Hr & Hr0 & Hd); [lia|lia|exact H3|].
  rewrite (period_multiple x i m p ltac:(lia) H7 r (i + k - 1)) by (assumption || lia). f_equal. lia.
Qed.
(** What an undecided suffix has there. *)
Lemma undecided_letter t : i < t < m -> smaller x m t i \/ (prefixed x m t i /\ x (m - p) <= x (i + (m - t))).
Proof.
  intros Ht. pose proof gap as Hg. destruct I as [H1 H2 H3 H4 H5 H6 H7 H8]. fold m in H6, H7, H8.
  destruct (H6 t Ht) as [|Hp]; [now left|]. destruct (Z_lt_le_dec t (i + p)); [left; apply H8; lia|]. right. split; [exact Hp|].
  replace (m - p) with (t - p + (m - t)) by lia. destruct (Z.eq_dec (t - p) i) as [->|]; [lia|].
  destruct (H6 (t - p)) as [(d & Hd & Hd1 & Hd2 & Heq & Hlt)|Hq]; [lia| |rewrite Hq by lia; lia].
  destruct (Z_lt_le_dec d (m - t)).
  { exfalso. pose proof (Hp d Hd ltac:(lia)) as E. pose proof (H7 (t - p + d) ltac:(lia) ltac:(lia)) as E'.
    replace (t - p + d + p) with (t + d) in E' by lia. lia. }
  destruct (Z.eq_dec d (m - t)) as [<-|]; [lia|]. rewrite Heq by lia. lia.
Qed.

Lemma letter_le t : i <= t < m -> x t <= x i.
Proof.
  intros Ht. destruct (Z.eq_dec t i) as [->|]; [lia|]. destruct I as [H1 H2 H3 H4 H5 H6 H7 H8]. fold m in H6.
  destruct (H6 t ltac:(lia)) as [(d & Hd & Hd1 & Hd2 & Heq & Hlt)|Hp].
  - destruct (Z.eq_dec d 0) as [->|]; [rewrite !Z.add_0_r in Hlt; lia|]. specialize (Heq 0 ltac:(lia)). rewrite !Z.add_0_r in Heq. lia.
  - specialize (Hp 0 ltac:(lia) ltac:(lia)). rewrite !Z.add_0_r in Hp. lia.
Qed.
Lemma below_last : x m <= x i -> below x (m + 1) m i.
Proof.
  intros Hx. pose proof gap. destruct (Z.eq_dec (x m) (x i)) as [E|E].
  - right. intros d Hd Htd. replace d with 0 by lia. now rewrite !Z.add_0_r.
  - left. exists 0. rewrite !Z.add_0_r. destruct I. repeat split; try lia.
Qed.

(** The three branches of the loop. *)
Lemma suffix_equal : x (i + k - 1) = x m -> suffix_inv x l i (if k =? p then j + p else j) (if k =? p then 1 else k + 1) p.
Proof.
  intros E. pose proof gap as Hg. pose proof period_letter as Hl. pose proof I as [H1 H2 H3 H4 H5 H6 H7 H8]. fold m in H4, H6, H7, H8.
  assert ((if k =? p then j + p else j) + (if k =? p then 1 else k + 1) - 1 = m + 1) as Em by (destruct (Z.eqb_spec k p); lia).
  split; rewrite ?Em; try assumption; try lia.
  - destruct (Z.eqb_spec k p); lia.
  - destruct (Z.eqb_spec k p); lia.
  - destruct (Z.eqb_spec k p); [|assumption]. replace (j + p - i) with (j - i + p) by lia. apply Z.divide_add_r; [assumption|apply Z.divide_refl].
  - intros t Ht. destruct (Z.eq_dec t m) as [->|].
    + apply below_last. pose proof (letter_le (m - p) ltac:(lia)). lia.
    + destruct (undecided_letter t ltac:(lia)) as [Hs|[Hp Hx]]; [left; apply smaller_more with m; [lia|exact Hs]|].
      apply below_step; [lia|lia|now right|lia].
  - intros t Ht Htp. destruct (Z.eq_dec (t + p) m) as [Et|]; [|apply H7; lia]. rewrite Et. replace t with (m - p) by lia. lia.
  - intros t Ht. apply smaller_more with m; [lia|]. now apply H8.
Qed.

Lemma suffix_greater : x m < x (i + k - 1) -> suffix_inv x l i (j + k) 1 (j + k - i).
Proof.
  intros E. pose proof gap as Hg. pose proof period_letter as Hl. pose proof I as [H1 H2 H3 H4 H5 H6 H7 H8]. fold m in H4, H6, H7, H8.
  assert (Hall : forall t, i < t < m + 1 -> smaller x (m + 1) t i).
  { intros t Ht. destruct (Z.eq_dec t m) as [->|].
    - exists 0. rewrite !Z.add_0_r. pose proof (letter_le (m - p) ltac:(lia)). repeat split; try lia.
    - destruct (undecided_letter t ltac:(lia)) as [Hs|[Hp Hx]]; [apply smaller_more with m; [lia|exact Hs]|].
      exists (m - t). replace (t + (m - t)) with m by lia. repeat split; try lia. intros e He. apply Hp; lia. }
  split; replace (j + k + 1 - 1) with (m + 1) by lia; try lia.
  - apply Z.divide_refl.
  - exact H5.
  - intros t Ht. left. now apply Hall.
  - intros t Ht. apply Hall. lia.
Qed.

Lemma suffix_less : x (i + k - 1) < x m -> suffix_inv x l j (j + 1) 1 1.
Proof.
  intros E. pose proof gap as Hg. pose proof I as [H1 H2 H3 H4 H5 H6 H7 H8]. fold m in H4, H6, H7, H8.
  assert (Hj : forall e, 0 <= e < k - 1 -> x (i + e) = x (j + e)).
  { intros e He. replace (j + e) with (i + e + (j - i)) by lia. apply (period_multiple x i m p ltac:(lia) H7); [exact H3|lia..]. }
  assert (Hij : smaller x l i j).
  { exists (k - 1). replace (i + (k - 1)) with (i + k - 1) by lia. replace (j + (k - 1)) with m by lia. repeat split; try lia. exact Hj. }
  split; replace (j + 1 + 1 - 1) with (j + 1) by lia; try lia.
  - replace (j + 1 - j) with 1 by lia. apply Z.divide_refl.
  - intros t Ht. destruct (Z_lt_le_dec t i); [apply smaller_trans with i; [now apply H5|exact Hij]|].
    destruct (Z.eq_dec t i) as [->|]; [exact Hij|]. destruct (H6 t ltac:(lia)) as [(d & Hd & Hd1 & Hd2 & Heq & Hlt)|Hp].
    + destruct (Z_lt_le_dec d (k - 1)).
      * exists d. repeat split; try lia; [|rewrite <- Hj by lia; lia]. intros e He. rewrite Heq by lia. apply Hj. lia.
      * exists (k - 1). replace (j + (k - 1)) with m by lia. repeat split; try lia.
        { intros e He. rewrite Heq by lia. apply Hj. lia. }
        destruct (Z.eq_dec d (k - 1)) as [->|]; [|rewrite Heq by lia]; replace (i + (k - 1)) with (i + k - 1) in * by lia; lia.
    + exists (k - 1). replace (j + (k - 1)) with m by lia. repeat split; try lia.
      * intros e He. rewrite Hp by lia. apply Hj. lia.
      * rewrite Hp by lia. replace (i + (k - 1)) with (i + k - 1) by lia. lia.
Qed.

(** The loop advances. *)
Lemma suffix_advances : i + k + 1 <= j + 1.
Proof. pose proof gap. destruct I. lia. Qed.
End step.

(** ** The critical position *)

(** Moving by [s] repeats, at the position [c], what fits on both sides. *)
Definition repeats (x : letters) (l c s : Z) : Prop := forall i, 0 <= i < c -> c <= i + s < l -> x i = x (i + s).
Definition period (x : letters) (l s : Z) : Prop := forall i, 0 <= i -> i + s < l -> x i = x (i + s).

(** Every local repetition at [c] is a period, longer than what precedes. *)
Definition critical (x : letters) (l c : Z) : Prop := forall s, 1 <= s -> repeats x l c s -> c < s /\ period x l s.

Definition negate (x : letters) : letters := fun i => - x i.

Definition maximal (x : letters) (l c : Z) : Prop :=
  0 <= c < l /\ (forall t, 0 <= t < c -> smaller x l t c) /\ (forall t, c < t < l -> below x l t c).

Lemma suffix_inv_maximal x l i j k p : suffix_inv x l i j k p -> j + k - 1 = l -> maximal x l i.
Proof. intros [H1 H2 H3 H4 H5 H6 H7 H8] E. rewrite E in H6. split; [lia|]. now split. Qed.

(** The critical factorization theorem. *)
Lemma critical_later x l c1 c2 : maximal x l c1 -> maximal (negate x) l c2 -> c2 <= c1 -> critical x l c1.
Proof.
  intros (Hc1 & B1 & A1) (Hc2 & _ & A2) Hle s Hs Hr.
  assert (c1 < s) as Hcs.
  { destruct (Z_lt_le_dec c1 s); [lia|]. exfalso. destruct (B1 (c1 - s) ltac:(lia)) as (d & Hd & Hd1 & Hd2 & Heq & Hlt).
    destruct (Z_lt_le_dec d s).
    { rewrite (Hr (c1 - s + d)) in Hlt by lia. replace (c1 - s + d + s) with (c1 + d) in Hlt by lia. lia. }
    destruct (A1 (c1 + s) ltac:(lia)) as [(d' & Hd' & Hd1' & Hd2' & Heq' & Hlt')|Hp].
    - destruct (Z_lt_le_dec d' (d - s)).
      + specialize (Heq (s + d') ltac:(lia)). replace (c1 - s + (s + d')) with (c1 + d') in Heq by lia.
        replace (c1 + (s + d')) with (c1 + s + d') in Heq by lia. lia.
      + destruct (Z.eq_dec d' (d - s)) as [->|].
        * replace (c1 + s + (d - s)) with (c1 + d) in Hlt' by lia. replace (c1 + (d - s)) with (c1 - s + d) in Hlt' by lia. lia.
        * specialize (Heq' (d - s) ltac:(lia)). replace (c1 + s + (d - s)) with (c1 + d) in Heq' by lia. replace (c1 + (d - s)) with (c1 - s + d) in Heq' by lia. lia.
    - specialize (Hp (d - s) ltac:(lia) ltac:(lia)). replace (c1 + s + (d - s)) with (c1 + d) in Hp by lia. replace (c1 + (d - s)) with (c1 - s + d) in Hp by lia. lia. }
  split; [exact Hcs|]. intros i Hi His. destruct (Z_lt_le_dec i c1); [apply Hr; lia|].
  destruct (A1 (c1 + s) ltac:(lia)) as [(d & Hd & Hd1 & Hd2 & Heq & Hlt)|Hp].
  - exfalso. destruct (A2 (c2 + s) ltac:(lia)) as [(e & He & He1 & He2 & Heqe & Hlte)|Hp]; unfold negate in *.
    + destruct (Z_lt_le_dec e (c1 - c2)).
      { pose proof (Hr (c2 + e) ltac:(lia) ltac:(lia)) as E. replace (c2 + e + s) with (c2 + s + e) in E by lia. lia. }
      destruct (Z_lt_le_dec e (c1 - c2 + d)).
      { specialize (Heq (e - (c1 - c2)) ltac:(lia)). replace (c1 + s + (e - (c1 - c2))) with (c2 + s + e) in Heq by lia.
        replace (c1 + (e - (c1 - c2))) with (c2 + e) in Heq by lia. lia. }
      destruct (Z.eq_dec e (c1 - c2 + d)) as [->|].
      { replace (c2 + s + (c1 - c2 + d)) with (c1 + s + d) in Hlte by lia. replace (c2 + (c1 - c2 + d)) with (c1 + d) in Hlte by lia. lia. }
      specialize (Heqe (c1 - c2 + d) ltac:(lia)). replace (c2 + s + (c1 - c2 + d)) with (c1 + s + d) in Heqe by lia. replace (c2 + (c1 - c2 + d)) with (c1 + d) in Heqe by lia. lia.
    + specialize (Hp (c1 - c2 + d) ltac:(lia) ltac:(lia)). replace (c2 + s + (c1 - c2 + d)) with (c1 + s + d) in Hp by lia. replace (c2 + (c1 - c2 + d)) with (c1 + d) in Hp by lia. lia.
  - specialize (Hp (i - c1) ltac:(lia) ltac:(lia)). replace (c1 + s + (i - c1)) with (i + s) in Hp by lia. replace (c1 + (i - c1)) with i in Hp by lia. lia.
Qed.

Lemma critical_negate x l c : critical (negate x) l c -> critical x l c.
Proof.
  intros H s Hs Hr. destruct (H s Hs) as [H1 H2]; [intros i Hi His; unfold negate; rewrite (Hr i) by lia; reflexivity|].
  split; [exact H1|]. intros i Hi His. specialize (H2 i Hi His). unfold negate in H2. lia.
Qed.
Lemma maximal_negate x l c : maximal x l c -> maximal (negate (negate x)) l c.
Proof.
  intros (H1 & H2 & H3). split; [exact H1|]. split; [intros t Ht; specialize (H2 t Ht)|intros t Ht; specialize (H3 t Ht)].
  - destruct H2 as (d & Hd & Hd1 & Hd2 & Heq & Hlt). exists d. unfold negate. repeat split; try lia. intros e He. rewrite Heq by lia. reflexivity.
  - destruct H3 as [(d & Hd & Hd1 & Hd2 & Heq & Hlt)|Hp]; unfold negate.
    + left. exists d. unfold negate. repeat split; try lia. intros e He. rewrite Heq by lia. reflexivity.
    + right. intros d Hd Htd. rewrite Hp by lia. reflexivity.
Qed.
Lemma critical_max x l c1 c2 : maximal x l c1 -> maximal (negate x) l c2 -> critical x l (Z.max c1 c2).
Proof.
  intros H1 H2. destruct (Z_le_gt_dec c2 c1).
  - rewrite Z.max_l by lia. now apply critical_later with c2.
  - rewrite Z.max_r by lia. apply critical_negate. apply critical_later with c1; [exact H2|now apply maximal_negate|lia].
Qed.

(** ** The search *)

Section search.
Context (x h : letters) (l c p : Z).

(** The word occurs in [h] at [s]. *)
Definition occurs (s : Z) : Prop := forall i, 0 <= i < l -> h (s + i) = x i.

Hypothesis Hc : critical x l c.
Hypothesis Hcl : 0 <= c < l.
(** [p] is the least period of the right part. *)
Hypothesis Hp : 1 <= p <= l - c.
Hypothesis Hper : forall t, c <= t -> t + p < l -> x t = x (t + p).
Hypothesis Hleast : forall r, 1 <= r < p -> exists t, c <= t /\ t + r < l /\ x t <> x (t + r).

(** An occurrence that begins where the right part agrees up to [k] repeats
    locally. *)
Lemma occurrence_repeats k s : 1 <= s -> (c + s <= k \/ k = l) -> (forall i, c <= i < k -> h i = x i) -> occurs s -> repeats x l c s.
Proof. intros Hs Hk Hm Ho i Hi His. rewrite <- (Ho i) by lia. rewrite (Z.add_comm s i). apply Hm. lia. Qed.

Lemma no_occurrence_right k : c <= k < l -> (forall i, c <= i < k -> h i = x i) -> h k <> x k -> forall s, 0 <= s <= k - c -> ~ occurs s.
Proof.
  intros Hk Hm Hne s Hs Ho. destruct (Z.eq_dec s 0) as [->|].
  { apply Hne. rewrite <- (Ho k) by lia. reflexivity. }
  destruct (Hc s ltac:(lia)) as [_ Hps]; [apply (occurrence_repeats k); (assumption || lia)|]. apply Hne.
  specialize (Ho (k - s) ltac:(lia)). replace (s + (k - s)) with k in Ho by lia. rewrite Ho.
  rewrite (Hps (k - s)) by lia. f_equal. lia.
Qed.

(** Periods of the word are periods of the right part. *)
Lemma least_period s : 1 <= s -> period x l s -> p <= s.
Proof.
  intros Hs H. destruct (Z_lt_le_dec s p); [|lia]. destruct (Hleast s ltac:(lia)) as (t & Ht & Hts & Hne). exfalso. apply Hne. apply H; lia.
Qed.

(** A word whose period is at most its right part has the period [p]. *)
Lemma short_period s : 1 <= s -> c < s -> s <= l - c -> period x l s -> forall i, 0 <= i < c -> x i = x (i + p).
Proof.
  intros Hs Hcs Hsl H. pose proof (least_period s Hs H).
  assert (Hmul : forall r t, (p | r) -> 0 <= r -> c <= t -> t + r < l -> x t = x (t + r)).
  { apply (period_multiple x c l p); [lia|]. exact Hper. }
  assert (p | s) as Hdiv.
  { apply Z.mod_divide; [lia|]. destruct (Z.eq_dec (s mod p) 0) as [|Hr]; [assumption|exfalso].
    pose proof (Z.mod_pos_bound s p ltac:(lia)) as Hb. set (r := s mod p) in *.
    assert (Hd : (p | s - r)) by (exists (s / p); pose proof (Z.div_mod s p ltac:(lia)); lia).
    pose proof (Z.mod_le s p ltac:(lia) ltac:(lia)) as Hrs. fold r in Hrs.
    destruct (Hc r ltac:(lia)) as [_ Hpr].
    - intros i Hi Hir. rewrite (H i) by lia. symmetry. rewrite (Hmul (s - r) (i + r)) by (assumption || lia). f_equal. lia.
    - pose proof (least_period r ltac:(lia) Hpr). lia. }
  intros i Hi. rewrite (H i) by lia. destruct (Z_lt_le_dec (i + p) c).
  - rewrite (H (i + p)) by lia. rewrite (Hper (i + s)) by lia. f_equal. lia.
  - destruct Hdiv as [q Hq]. assert (0 <= s - p) by lia. symmetry.
    rewrite (Hmul (s - p) (i + p)) by (lia || (exists (q - 1); lia)). f_equal. lia.
Qed.

Definition shift_left : Z -> Prop := fun P =>
  (P = p /\ forall i, 0 <= i < c -> x i = x (i + p)) \/ (P = Z.max c (l - c + 1) /\ exists i, 0 <= i < c /\ x i <> x (i + p)).

Lemma no_occurrence_left P j : shift_left P -> (forall i, c <= i < l -> h i = x i) -> 0 <= j < c -> h j <> x j ->
  forall s, 0 <= s < P -> ~ occurs s.
Proof.
  intros HP Hm Hj Hne s Hs Ho. destruct (Z.eq_dec s 0) as [->|].
  { apply Hne. rewrite <- (Ho j) by lia. reflexivity. }
  destruct (Hc s ltac:(lia)) as [Hcs Hps]; [apply (occurrence_repeats l); (assumption || lia)|].
  pose proof (least_period s ltac:(lia) Hps). destruct HP as [[-> _]|[-> (i & Hi & Hnei)]]; [lia|].
  apply Hnei. apply (short_period s); (assumption || lia).
Qed.

(** The period carries what has been read of the word to the next position. *)
Lemma period_whole : (forall i, 0 <= i < c -> x i = x (i + p)) -> period x l p /\ c < p.
Proof.
  intros H. assert (period x l p) as Hw by (intros i Hi Hip; destruct (Z_lt_le_dec i c); [apply H|apply Hper]; lia). split; [exact Hw|].
  destruct (Hc p ltac:(lia)) as [Hcp _]; [|exact Hcp]. intros i Hi Hip. apply Hw; lia.
Qed.

(** After a shift by the last byte: what is remembered reaches at least as far. *)
Lemma no_occurrence_memory mem s : mem = l - p -> period x l p -> (forall i, 0 <= i < mem -> h i = x i) -> h (l - 1) <> x (l - 1) ->
  0 <= s < mem -> ~ occurs s.
Proof.
  intros -> Hw Hm Hne Hs Ho. apply Hne. pose proof (Ho (l - 1 - s) ltac:(lia)) as H1. replace (s + (l - 1 - s)) with (l - 1) in H1 by lia.
  rewrite H1. replace (l - 1 - s) with (l - 1 - p - s + p) by lia. rewrite <- (Hw (l - 1 - p - s)) by lia.
  rewrite <- (Ho (l - 1 - p - s)) by lia. replace (s + (l - 1 - p - s)) with (l - 1 - p) by lia. rewrite Hm by lia.
  rewrite (Hw (l - 1 - p)) by lia. f_equal. lia.
Qed.
End search.
