(* ===== verification/StrSearch.v ===== *)
(** * StrSearch: strstr and memmem, musl src/string

    Short needles are compared as one machine word that slides over the
    haystack, longer ones are searched with the two-way algorithm: the needle
    is cut at a critical position, its right part is compared first, and the
    distances to move by come from its period, a table of its bytes and what
    is remembered of the last comparison. The two files share their text but
    for the end of the haystack and of the needle, which are the arguments
    [avail] and [inside] here. A size_t is written with its wrap-around. *)

From S2P Require Import Prelude CMem StrScan MemBlock StrCopy StrTok.
From stdpp Require Import base tactics numbers list gmap.
Open Scope Z_scope.

(** ** The byte tables: [byteset] and the uninitialised [shift] *)

Definition mark (t : list Z * gmap Z Z) (b i : Z) : list Z * gmap Z Z :=
  (bitop_or (fst t) b, <[b := wrap64 (i + 1)]> (snd t)).
Definition tables0 : list Z * gmap Z Z := (byteset0, ∅).

Definition fill_strstr (fuel : nat) (h n : Z) : C (Z * (list Z * gmap Z Z)) :=
  loop fuel (fun '(l, t) =>
    a ← load8 (n + l);
    if truth a then
      b ← load8 (h + l);
      if truth b then mret (inl (wrap64 (l + 1), mark t a l)) else mret (inr (l, t))
    else mret (inr (l, t))) (0, tables0).

Definition fill_memmem (fuel : nat) (n l : Z) : C (list Z * gmap Z Z) :=
  loop fuel (fun '(i, t) =>
    if i <? l then
      a ← load8 (n + i);
      mret (inl (wrap64 (i + 1), mark t a i))
    else mret (inr t)) (0, tables0).

(** ** The critical position *)

(** The loop that computes a maximal suffix; [gt] is one of the two
    comparisons. *)
Definition max_suffix (gt : Z -> Z -> bool) (fuel : nat) (n l : Z) : C (Z * Z) :=
  loop fuel (fun '(ip, jp, k, p) =>
    if wrap64 (jp + k) <? l then
      a ← load8 (n + wrap64 (ip + k));
      b ← load8 (n + wrap64 (jp + k));
      if a =? b then
        if k =? p then mret (inl (ip, wrap64 (jp + p), 1, p)) else mret (inl (ip, jp, wrap64 (k + 1), p))
      else if gt a b then
        let jp := wrap64 (jp + k) in mret (inl (ip, jp, 1, wrap64 (jp - ip)))
      else mret (inl (jp, wrap64 (jp + 1), 1, 1))
    else mret (inr (ip, p))) (wrap64 (-1), 0, 1, 1).

Definition MAX (a b : Z) : Z := if b <? a then a else b.

(** The values of [ms], [p] and [mem0]. *)
Definition factor (fuel : nat) (n l : Z) : C (Z * Z * Z) :=
  '(ms, p0) ← max_suffix (fun a b => b <? a) fuel n l;
  '(ip, p) ← max_suffix (fun a b => a <? b) fuel n l;
  let '(ms, p) := if wrap64 (ms + 1) <? wrap64 (ip + 1) then (ip, p) else (ms, p0) in
  d ← memcmp fuel n (n + p) (wrap64 (ms + 1));
  if truth d then mret (ms, wrap64 (MAX ms (wrap64 (l - ms - 1)) + 1), 0)
  else mret (ms, p, wrap64 (l - p)).

(** ** The search loop *)

Section search.
(** The end of the haystack as far as it is known, from [h] and the old one,
    or nothing when too little is left; whether [k] is an index of [n]. *)
Variable avail : Z -> Z -> C (option Z).
Variable inside : Z -> C bool.
Variables (fuel : nat) (n l : Z) (t : list Z * gmap Z Z) (ms p mem0 : Z).

Definition compare_right (h k : Z) : C Z :=
  loop fuel (fun k =>
    more ← inside k;
    if (more : bool) then
      a ← load8 (n + k); b ← load8 (h + k);
      if a =? b then mret (inl (wrap64 (k + 1))) else mret (inr k)
    else mret (inr k)) k.

Definition compare_left (h mem : Z) : C Z :=
  loop fuel (fun k =>
    if mem <? k then
      a ← load8 (n + (k - 1)); b ← load8 (h + (k - 1));
      if a =? b then mret (inl (k - 1)) else mret (inr k)
    else mret (inr k)) (wrap64 (ms + 1)).

Definition compare (h z mem : Z) : C (Z * Z * Z + Z) :=
  k ← compare_right h (MAX (wrap64 (ms + 1)) mem);
  more ← inside k;
  if (more : bool) then mret (inl (h + wrap64 (k - ms), z, 0)) else
  k ← compare_left h mem;
  if k <=? mem then mret (inr h) else mret (inl (h + p, z, mem0)).

Definition search_step (st : Z * Z * Z) : C (Z * Z * Z + Z) :=
  let '(h, z, mem) := st in
  r ← avail h z;
  match r with
  | None => mret (inr 0)
  | Some z =>
      b ← load8 (h + (l - 1));
      if truth (bitop_and (fst t) b) then
        match snd t !! b with
        | None => undef
        | Some s =>
            let k := wrap64 (l - s) in
            if truth k then mret (inl (h + (if k <? mem then mem else k), z, 0)) else compare h z mem
        end
      else mret (inl (h + l, z, 0))
  end.

Definition search (h z : Z) : C Z := loop fuel search_step (h, z, 0).
End search.

(** ** strstr.c *)

Definition grow_strstr (fuel : nat) (l h z : Z) : C (option Z) :=
  if wrap64 (z - h) <? l then
    let grow := Z.lor l 63 in
    z2 ← memchr fuel z 0 grow;
    if truth z2 then (if wrap64 (z2 - h) <? l then mret None else mret (Some z2)) else mret (Some (z + grow))
  else mret (Some z).

Definition twoway_strstr (fuel : nat) (h n : Z) : C Z :=
  '(l, t) ← fill_strstr fuel h n;
  b ← load8 (n + l);
  if truth b then mret 0 else
  '(ms, p, mem0) ← factor fuel n l;
  search (grow_strstr fuel l) (fun k => b ← load8 (n + k); mret (truth b)) fuel n l t ms p mem0 h h.

(** Two, three and four bytes in a word of [w] bits. *)
Definition shl_or (a b : Z) : Z := Z.lor (Z.shiftl a 8) b.

(** The loop of the three routines: [hw] holds the [w] bytes up to [h]. *)
Definition slide_strstr (fuel : nat) (w nw : Z) (next : Z -> Z -> Z) (h hw : Z) : C Z :=
  h ← loop fuel (fun '(h, hw) =>
      b ← load8 h;
      if truth b && negb (hw =? nw) then c ← load8 (h + 1); mret (inl (h + 1, next hw c)) else mret (inr h)) (h, hw);
  b ← load8 h;
  mret (if truth b then h - (w - 1) else 0).

Definition twobyte_strstr (fuel : nat) (h n : Z) : C Z :=
  n0 ← load8 n; n1 ← load8 (n + 1);
  h0 ← load8 h; h1 ← load8 (h + 1);
  slide_strstr fuel 2 (wrap16 (shl_or n0 n1)) (fun hw c => wrap16 (shl_or hw c)) (h + 1) (wrap16 (shl_or h0 h1)).

Definition three (a b c : Z) : Z := Z.lor (Z.lor (Z.shiftl a 24) (Z.shiftl b 16)) (Z.shiftl c 8).

Definition threebyte_strstr (fuel : nat) (h n : Z) : C Z :=
  n0 ← load8 n; n1 ← load8 (n + 1); n2 ← load8 (n + 2);
  h0 ← load8 h; h1 ← load8 (h + 1); h2 ← load8 (h + 2);
  slide_strstr fuel 3 (wrap32 (three n0 n1 n2)) (fun hw c => wrap32 (Z.shiftl (Z.lor hw c) 8)) (h + 2) (wrap32 (three h0 h1 h2)).

Definition four (a b c d : Z) : Z := Z.lor (three a b c) d.

Definition fourbyte_strstr (fuel : nat) (h n : Z) : C Z :=
  n0 ← load8 n; n1 ← load8 (n + 1); n2 ← load8 (n + 2); n3 ← load8 (n + 3);
  h0 ← load8 h; h1 ← load8 (h + 1); h2 ← load8 (h + 2); h3 ← load8 (h + 3);
  slide_strstr fuel 4 (wrap32 (four n0 n1 n2 n3)) (fun hw c => wrap32 (shl_or hw c)) (h + 3) (wrap32 (four h0 h1 h2 h3)).

(** What follows once the first byte of the needle is found at [h]. *)
Definition strstr_from (fuel : nat) (h n : Z) : C Z :=
  n1 ← load8 (n + 1);
  if negb (truth n1) then mret h else
  h1 ← load8 (h + 1);
  if negb (truth h1) then mret 0 else
  n2 ← load8 (n + 2);
  if negb (truth n2) then twobyte_strstr fuel h n else
  h2 ← load8 (h + 2);
  if negb (truth h2) then mret 0 else
  n3 ← load8 (n + 3);
  if negb (truth n3) then threebyte_strstr fuel h n else
  h3 ← load8 (h + 3);
  if negb (truth h3) then mret 0 else
  n4 ← load8 (n + 4);
  if negb (truth n4) then fourbyte_strstr fuel h n else
  twoway_strstr fuel h n.

Definition strstr (fuel : nat) (h n : Z) : C Z :=
  n0 ← load8 n;
  if negb (truth n0) then mret h else
  h ← strchr fuel h n0;
  if negb (truth h) then mret h else
  strstr_from fuel h n.

(** ** memmem.c *)

Definition twoway_memmem (fuel : nat) (h z n l : Z) : C Z :=
  t ← fill_memmem fuel n l;
  '(ms, p, mem0) ← factor fuel n l;
  search (fun h z => mret (if wrap64 (z - h) <? l then None else Some z)) (fun k => mret (k <? l)) fuel n l t ms p mem0 h z.

(** Here [hw] holds the [w] bytes before [h], and [k] bytes are left. *)
Definition slide (fuel : nat) (w nw : Z) (next : Z -> Z -> Z) (h k hw : Z) : C Z :=
  r ← loop fuel (fun '(h, k, hw) =>
      if truth k then
        if hw =? nw then mret (inr (inr (h - w))) else
        c ← load8 h; mret (inl (h + 1, k - 1, next hw c))
      else mret (inr (inl (h, hw)))) (h, k, hw);
  mret (match r with inr h => h | inl (h, hw) => if hw =? nw then h - w else 0 end).

Definition twobyte_memmem (fuel : nat) (h k n : Z) : C Z :=
  n0 ← load8 n; n1 ← load8 (n + 1);
  h0 ← load8 h; h1 ← load8 (h + 1);
  slide fuel 2 (wrap16 (shl_or n0 n1)) (fun hw c => wrap16 (shl_or hw c)) (h + 2) (k - 2) (wrap16 (shl_or h0 h1)).

Definition threebyte_memmem (fuel : nat) (h k n : Z) : C Z :=
  n0 ← load8 n; n1 ← load8 (n + 1); n2 ← load8 (n + 2);
  h0 ← load8 h; h1 ← load8 (h + 1); h2 ← load8 (h + 2);
  slide fuel 3 (wrap32 (three n0 n1 n2)) (fun hw c => wrap32 (Z.shiftl (Z.lor hw c) 8)) (h + 3) (k - 3) (wrap32 (three h0 h1 h2)).

Definition fourbyte_memmem (fuel : nat) (h k n : Z) : C Z :=
  n0 ← load8 n; n1 ← load8 (n + 1); n2 ← load8 (n + 2); n3 ← load8 (n + 3);
  h0 ← load8 h; h1 ← load8 (h + 1); h2 ← load8 (h + 2); h3 ← load8 (h + 3);
  slide fuel 4 (wrap32 (four n0 n1 n2 n3)) (fun hw c => wrap32 (shl_or hw c)) (h + 4) (k - 4) (wrap32 (four h0 h1 h2 h3)).

Definition memmem_from (fuel : nat) (h k n l : Z) : C Z :=
  if k <? l then mret 0 else
  if l =? 2 then twobyte_memmem fuel h k n else
  if l =? 3 then threebyte_memmem fuel h k n else
  if l =? 4 then fourbyte_memmem fuel h k n else
  twoway_memmem fuel h (h + k) n l.

Definition memmem (fuel : nat) (h0 k n l : Z) : C Z :=
  if negb (truth l) then mret h0 else
  if k <? l then mret 0 else
  n0 ← load8 n;
  h ← memchr fuel h0 n0 k;
  if negb (truth h) || (l =? 1) then mret h else
  memmem_from fuel h (wrap64 (k - (h - h0))) n l.
