(* ===== verification/StrSearchProofs.v ===== *)
(** * StrSearchProofs: strstr and memmem find the first occurrence

    The loops of the two-way search keep the invariants of [Words]; no
    occurrence of the needle begins before the position they have reached. *)

From Stdlib Require Import ZArith Lia Bool.
From stdpp Require Import base tactics numbers list gmap.
From S2P Require Import Prelude CMem StrScan MemBlock StrCopy StrTok Words StrSearch.
Open Scope Z_scope.

(** The bytes in memory from an address on. *)
Definition letters_at (m : memory) (n : Z) : letters := fun i => default 0 (m !! (n + i)).

Lemma wrap64_pred i k : 0 <= i -> 1 <= k -> i + k - 1 < 2 ^ 64 -> wrap64 (wrap64 (i - 1) + k) = i + k - 1.
Proof. intros. rewrite wrap_add_l, wrap_small by (unfold in_range; lia). lia. Qed.

(** ** The critical position *)

Section needle.
Context (m : memory) (n l : Z).
Let x := letters_at m n.
Hypothesis Hx : forall i, 0 <= i < l -> m !! (n + i) = Some (x i).
Hypothesis Hl : 1 <= l < 2 ^ 62.

Definition right_period (c p : Z) : Prop :=
  1 <= p <= l - c /\ (forall t, c <= t -> t + p < l -> x t = x (t + p)) /\
  (forall r, 1 <= r < p -> exists t, c <= t /\ t + r < l /\ x t <> x (t + r)).

Lemma wp_max_suffix y gt fuel :
  (y = x \/ y = negate x) -> (forall i j, gt (x i) (x j) = (y j <? y i)) -> 2 * l + 2 < Z.of_nat fuel ->
  wp (max_suffix gt fuel n l) m (fun '(ip, p) m' => m' = m /\ exists c, ip = wrap64 (c - 1) /\ maximal y l c /\ right_period c p).
Proof.
  intros Hy Hgt Hf. unfold max_suffix.
  assert (Hxy : forall i j, x i = x j <-> y i = y j) by (intros; destruct Hy as [->| ->]; unfold negate; lia).
  apply (wp_loop (fun st m' => m' = m /\ exists i j k p, st = (wrap64 (i - 1), j - 1, k, p) /\ suffix_inv y l i j k p)
    (fun '(ip, jp, k, p) => Z.to_nat (2 * l + 2 - (wrap64 (ip + 1) + jp + k)))).
  - intros st m' (-> & i & j & k & p & -> & I). pose proof I as [H1 H2 H3 H4 H5 H6 H7 H8]. pose proof (gap y l i j k p I) as Hg.
    replace (wrap64 (j - 1 + k)) with (j + k - 1) by (rewrite wrap_small; [lia|unfold in_range; lia]).
    assert (Hi1 : forall i', 0 <= i' < l -> wrap64 (wrap64 (i' - 1) + 1) = i') by (intros; rewrite wrap64_pred by lia; lia).
    rewrite Hi1 by lia. destruct (Z.ltb_spec (j + k - 1) l) as [Hm|Hm].
    + wp_step. rewrite wrap64_pred by lia. wp_step; [apply Hx; lia|]. wp_step. wp_step; [apply Hx; lia|]. rewrite Hgt.
      destruct (Z.eqb_spec (x (i + k - 1)) (x (j + k - 1))) as [E|E].
      * apply Hxy in E. pose proof (suffix_equal y l i j k p I Hm E) as I'. destruct (Z.eqb_spec k p) as [->|]; wp_step; (split; [split; [done|]|]).
        { exists i, (j + p), 1, p. split; [|done]. rewrite (wrap_small _ (j - 1 + p)) by (unfold in_range; lia). tuple_lia. }
        { rewrite Hi1 by lia. rewrite wrap_small by (unfold in_range; lia). lia. }
        { exists i, j, (k + 1), p. split; [|done]. rewrite (wrap_small _ (k + 1)) by (unfold in_range; lia). done. }
        { rewrite Hi1 by lia. rewrite (wrap_small _ (k + 1)) by (unfold in_range; lia). lia. }
      * destruct (Z.ltb_spec (y (j + k - 1)) (y (i + k - 1))) as [Hlt|Hge]; wp_step; (split; [split; [done|]|]).
        { exists i, (j + k), 1, (j + k - i). split; [|by apply (suffix_greater y l i j k p)].
          rewrite wrap_sub_r, (wrap_small _ (j + k - 1 - _)) by (unfold in_range; lia). tuple_lia. }
        { rewrite Hi1 by lia. lia. }
        { exists j, (j + 1), 1, 1. split; [|apply (suffix_less y l i j k p); [done|done|]].
          - rewrite !wrap_small by (unfold in_range; lia). tuple_lia.
          - assert (y (i + k - 1) <> y (j + k - 1)) by (by rewrite <- Hxy). lia. }
        { replace (j - 1 + 1) with j by lia. rewrite !wrap_small by (unfold in_range; lia). lia. }
    + wp_step. split; [done|]. exists i. split; [done|]. assert (Em : j + k - 1 = l) by lia. split; [by eapply suffix_inv_maximal|].
      rewrite Em in H7, H8. split; [lia|]. split; [intros t Ht Htp; apply Hxy; by apply H7|].
      intros r Hr. destruct (H8 (i + r) ltac:(lia)) as (d & Hd & Hd1 & Hd2 & _ & Hlt). exists (i + d). split; [lia|]. split; [lia|].
      rewrite Hxy. replace (i + d + r) with (i + r + d) by lia. lia.
  - split; [done|]. exists 0, 1, 1, 1. split; [done|]. apply suffix_inv_init. lia.
  - change (wrap64 (wrap64 (-1) + 1)) with 0. lia.
Qed.

Lemma wp_memcmp_equal a b k xa xb fuel :
  (forall i, 0 <= i < k -> m !! (a + i) = Some (xa i) /\ m !! (b + i) = Some (xb i)) -> 0 <= k < Z.of_nat fuel ->
  wp (memcmp fuel a b k) m (fun d m' => m' = m /\ if truth d then exists i, 0 <= i < k /\ xa i <> xb i else forall i, 0 <= i < k -> xa i = xb i).
Proof.
  intros Hab Hf. unfold memcmp. apply wp_bind.
  apply (wp_loop (fun '(p, q, r) m' => m' = m /\ exists i, 0 <= i <= k /\ p = a + i /\ q = b + i /\ r = k - i /\ forall j, 0 <= j < i -> xa j = xb j)
    (fun '(_, _, r) => Z.to_nat r)); [| |lia].
  2: { split; [done|]. exists 0. split_and!; try lia. }
  intros [[p q] r] m' (-> & i & Hi & -> & -> & -> & Heq). destruct (truth (k - i)) eqn:Ht.
  - apply truth_true in Ht. destruct (Hab i ltac:(lia)) as [Ha Hb]. do 2 (wp_step; wp_step; [done|]).
    destruct (Z.eqb_spec (xa i) (xb i)) as [E|E]; wp_step.
    + split; [|lia]. split; [done|]. exists (i + 1). split_and!; try lia. intros j Hj. destruct (Z.eq_dec j i) as [->|]; [done|apply Heq; lia].
    + rewrite (proj2 (truth_true _) Ht). do 2 (wp_step; wp_step; [done|]). wp_step. split; [done|].
      rewrite (proj2 (truth_true _)) by lia. exists i. split; [lia|done].
  - wp_step. rewrite Ht. apply truth_false in Ht. wp_step. split; [done|]. change (truth 0) with false. intros j Hj. apply Heq. lia.
Qed.

Lemma wp_factor fuel : 2 * l + 2 < Z.of_nat fuel ->
  wp (factor fuel n l) m (fun '(ms, p, mem0) m' => m' = m /\ exists c q, ms = wrap64 (c - 1) /\ critical x l c /\ 0 <= c < l /\
    right_period c q /\ shift_left x l c q p /\ (mem0 = 0 \/ (mem0 = l - p /\ p = q /\ forall i, 0 <= i < c -> x i = x (i + q)))).
Proof.
  intros Hf. unfold factor. wp_step. eapply wp_mono; [apply (wp_max_suffix x); [by left|done|done]|].
  intros [ms p0] m' (-> & c1 & -> & M1 & R1). wp_step. eapply wp_mono; [apply (wp_max_suffix (negate x)); [by right| |done]|].
  { intros i j. unfold negate. destruct (Z.ltb_spec (x i) (x j)), (Z.ltb_spec (- x j) (- x i)); (done || lia). }
  intros [ip p] m' (-> & c2 & -> & M2 & R2). pose proof (critical_max x l c1 c2 M1 M2) as Hcr.
  destruct M1 as [Hc1 _]. destruct M2 as [Hc2 _]. rewrite !wrap64_pred by lia. replace (c1 + 1 - 1) with c1 by lia. replace (c2 + 1 - 1) with c2 by lia.
  assert (exists c q, (if c1 <? c2 then (wrap64 (c2 - 1), p) else (wrap64 (c1 - 1), p0)) = (wrap64 (c - 1), q) /\ critical x l c /\ 0 <= c < l /\ right_period c q)
    as (c & q & -> & Hc & Hcl & HR).
  { destruct (Z.ltb_spec c1 c2).
    - exists c2, p. by rewrite Z.max_r in Hcr by lia.
    - exists c1, p0. by rewrite Z.max_l in Hcr by lia. }
  clear Hcr. lazy beta iota. rewrite wrap64_pred by lia. replace (c + 1 - 1) with c by lia. pose proof HR as [Hq _].
  wp_step. eapply wp_mono; [apply (wp_memcmp_equal n (n + q) c x (fun i => x (i + q))); [|lia]|].
  { intros i Hi. split; [apply Hx; lia|]. replace (n + q + i) with (n + (i + q)) by lia. apply Hx. lia. }
  intros d m' [-> Hd]. destruct (truth d); wp_step; (split; [done|]); exists c, q; (split; [done|]); (split; [done|]); (split; [done|]); (split; [done|]).
  - destruct Hd as (i & Hi & Hne). split; [|by left]. right. split; [|by exists i].
    rewrite (wrap_small _ (c - 1)) by (unfold in_range; lia). rewrite (wrap_small _ (l - _ - 1)) by (unfold in_range; lia).
    unfold MAX. rewrite wrap_small; destruct (Z.ltb_spec (l - (c - 1) - 1) (c - 1)); unfold in_range; lia.
  - split; [by left|]. right. split; [|done]. apply wrap_small. unfold in_range. lia.
Qed.
End needle.

(** ** The search *)

Section search.
Context (m : memory) (n l h0 L : Z).
Let x := letters_at m n.
Let hx := letters_at m h0.
Hypothesis Hx : forall i, 0 <= i < l -> m !! (n + i) = Some (x i).
Hypothesis Hh : forall i, 0 <= i < L -> m !! (h0 + i) = Some (hx i).
Hypothesis Hok : mem_ok m.
Hypothesis Hl : 1 <= l < 2 ^ 62.
Hypothesis HL : 0 <= L < 2 ^ 62.

(** No occurrence begins before [o]. *)
Definition reached (o : Z) : Prop := forall s, 0 <= s < o -> ~ occurs x hx l s.
Definition seen (o : Z) : letters := fun i => hx (o + i).

Lemma reached_add o k : reached o -> (forall s, 0 <= s < k -> ~ occurs x (seen o) l s) -> reached (o + k).
Proof.
  intros Ho Hk s Hs Hoc. destruct (Z_lt_le_dec s o); [by apply (Ho s ltac:(lia))|]. apply (Hk (s - o) ltac:(lia)).
  intros i Hi. unfold seen. rewrite <- (Hoc i Hi). f_equal. lia.
Qed.

(** What a search returns: the first occurrence, or null when none fits. *)
Definition result (r : Z) : Prop :=
  exists o, 0 <= o /\ reached o /\ ((r = h0 + o /\ occurs x hx l o /\ o + l <= L) \/ (r = 0 /\ L < o + l)).

(** The tables of the bytes of the needle. *)
Definition tables_ok (t : list Z * gmap Z Z) (k : Z) : Prop :=
  length (fst t) = 4%nat /\
  (forall b, is_byte b -> (truth (bitop_and (fst t) b) = true <-> exists i, 0 <= i < k /\ x i = b)) /\
  (forall b i, 0 <= i < k -> x i = b -> exists s, snd t !! b = Some s /\ 1 <= s <= k /\ x (s - 1) = b /\ forall j, s <= j < k -> x j <> b).

Lemma tables_ok_0 : tables_ok tables0 0.
Proof.
  split; [done|]. split; [|intros; lia]. intros b Hb. rewrite truth_bitop_and by done. unfold tables0. cbn [fst].
  assert (byteset0 !!! Z.to_nat (b / 64) = 0) as ->; [by apply lookup_total_replicate_2, word_index|].
  rewrite Z.bits_0. split; [discriminate|intros (i & Hi & _); lia].
Qed.

Lemma tables_ok_mark t k : 0 <= k < l -> tables_ok t k -> tables_ok (mark t (x k) k) (k + 1).
Proof.
  intros Hk (H1 & H2 & H3). assert (Hb : is_byte (x k)) by (eapply Hok, Hx; lia). unfold mark, tables_ok. cbn [fst snd].
  split; [by rewrite length_bitop_or|]. split.
  - intros b Hbb. rewrite bitop_or_and by done. rewrite orb_true_iff, H2, Z.eqb_eq by done. split.
    + intros [->|(i & Hi & E)]; [exists k; split; [lia|done]|exists i; split; [lia|done]].
    + intros (i & Hi & E). destruct (Z.eq_dec i k) as [->|]; [by left|right; exists i; split; [lia|done]].
  - intros b i Hi E. destruct (Z.eq_dec (x k) b) as [Eb|Eb].
    + exists (k + 1). rewrite Eb, lookup_insert_eq, wrap_small by (unfold in_range; lia). split_and!; [done|lia|lia| |lia]. by replace (k + 1 - 1) with k by lia.
    + rewrite lookup_insert_ne by done. destruct (H3 b i) as (s & Hs & Hs1 & Hs2 & Hs3); [|done|].
      { destruct (Z.eq_dec i k) as [->|]; [done|lia]. }
      exists s. split_and!; [done|lia|lia|done|]. intros j Hj. destruct (Z.eq_dec j k) as [->|]; [done|apply Hs3; lia].
Qed.

Context (fuel : nat) (avail : Z -> Z -> C (option Z)) (inside : Z -> C bool) (ends : Z -> Prop) (t : list Z * gmap Z Z) (c q p mem0 : Z).
Hypothesis Hf : l + L + 1 < Z.of_nat fuel.
(** [ends] holds of the ends of the haystack that are found. *)
Hypothesis Hav : forall o e, 0 <= o <= e -> e <= L -> ends e ->
  wp (avail (h0 + o) (h0 + e)) m (fun r m' => m' = m /\
    match r with None => L < o + l | Some z => exists e', z = h0 + e' /\ o + l <= e' <= L /\ ends e' end).
Hypothesis Hin : forall k, 0 <= k <= l -> wp (inside k) m (fun r m' => m' = m /\ r = (k <? l)).
Hypothesis Ht : tables_ok t l.
Hypothesis Hc : critical x l c.
Hypothesis Hcl : 0 <= c < l.
Hypothesis HR : right_period m n l c q.
Hypothesis HP : shift_left x l c q p.
Hypothesis Hm0 : mem0 = 0 \/ (mem0 = l - p /\ p = q /\ forall i, 0 <= i < c -> x i = x (i + q)).

Definition remembers (o mem : Z) : Prop :=
  mem = 0 \/ (mem = l - q /\ period x l q /\ c < q /\ forall i, 0 <= i < mem -> seen o i = x i).

Lemma remembers_range o mem : remembers o mem -> 0 <= mem <= l.
Proof. destruct HR as [? _]. intros [->|(-> & _)]; lia. Qed.

Lemma p_range : 1 <= p <= l.
Proof. destruct HR as [H _]. destruct HP as [[-> _]|[-> (i & Hi & _)]]; lia. Qed.

Lemma seen_byte o i : 0 <= o + i < L -> m !! (h0 + o + i) = Some (seen o i).
Proof. intros Hi. rewrite <- Z.add_assoc. by apply Hh. Qed.

Lemma wp_compare_right o k : 0 <= o -> o + l <= L -> c <= k <= l -> (forall i, c <= i < k -> seen o i = x i) ->
  wp (compare_right inside fuel n (h0 + o) k) m (fun k m' => m' = m /\ c <= k <= l /\ (forall i, c <= i < k -> seen o i = x i) /\
    (k < l -> seen o k <> x k)).
Proof.
  intros Ho HoL Hk Hm. unfold compare_right.
  apply (wp_loop (fun k m' => m' = m /\ c <= k <= l /\ forall i, c <= i < k -> seen o i = x i) (fun k => Z.to_nat (l - k))); [|done|lia].
  clear k Hk Hm. intros k m' (-> & Hk & Hm). wp_step. eapply wp_mono; [apply Hin; lia|]. intros ? ? [-> ->].
  destruct (Z.ltb_spec k l); [|wp_step; split_and!; try done; lia].
  wp_step. wp_step; [apply Hx; lia|]. wp_step. wp_step; [apply seen_byte; lia|]. destruct (Z.eqb_spec (x k) (seen o k)) as [E|E]; wp_step.
  - rewrite wrap_small by (unfold in_range; lia). split; [|lia]. split; [done|]. split; [lia|].
    intros i Hi. destruct (Z.eq_dec i k) as [->|]; [done|apply Hm; lia].
  - split_and!; try done; lia.
Qed.

Lemma wp_compare_left o mem : 0 <= o -> o + l <= L -> 0 <= mem ->
  wp (compare_left fuel n (wrap64 (c - 1)) (h0 + o) mem) m (fun k m' => m' = m /\ 0 <= k <= c /\ (forall i, k <= i < c -> seen o i = x i) /\
    (mem < k -> seen o (k - 1) <> x (k - 1))).
Proof.
  intros Ho HoL Hmem. unfold compare_left. rewrite wrap64_pred by lia. replace (c + 1 - 1) with c by lia.
  apply (wp_loop (fun k m' => m' = m /\ 0 <= k <= c /\ forall i, k <= i < c -> seen o i = x i) (fun k => Z.to_nat k)); [|split_and!; (done || lia)|lia].
  intros k m' (-> & Hk & Hm). destruct (Z.ltb_spec mem k); [|wp_step; split_and!; try done; lia].
  wp_step. wp_step; [apply Hx; lia|]. wp_step. wp_step; [apply seen_byte; lia|].
  destruct (Z.eqb_spec (x (k - 1)) (seen o (k - 1))) as [E|E]; wp_step.
  - split; [|lia]. split; [done|]. split; [lia|]. intros i Hi. destruct (Z.eq_dec i (k - 1)) as [->|]; [done|apply Hm; lia].
  - split_and!; try done; lia.
Qed.

Definition search_inv (st : Z * Z * Z) : Prop :=
  exists o e mem, st = (h0 + o, h0 + e, mem) /\ 0 <= o <= e /\ e <= L /\ ends e /\ reached o /\ remembers o mem.

(** One step returns the result or moves on. *)
Definition step_ok (o : Z) (r : Z * Z * Z + Z) : Prop :=
  match r with inl st => search_inv st /\ h0 + o < fst (fst st) | inr r => result r end.

Lemma moved o e k : 0 <= o -> 1 <= k -> o + k <= e <= L -> ends e -> reached o -> (forall s, 0 <= s < k -> ~ occurs x (seen o) l s) -> step_ok o (inl (h0 + o + k, h0 + e, 0)).
Proof.
  intros Ho Hk He Hen Hr Hno. split; [|simpl; lia]. exists (o + k), e, 0. split_and!; try lia; [tuple_lia|done|by apply reached_add|by left].
Qed.

Lemma wp_compare o e mem : 0 <= o -> o + l <= e <= L -> ends e -> reached o -> remembers o mem ->
  wp (compare inside fuel n (wrap64 (c - 1)) p mem0 (h0 + o) (h0 + e) mem) m (fun r m' => m' = m /\ step_ok o r).
Proof.
  intros Ho He Hen Hr Hmem. pose proof (remembers_range o mem Hmem) as Hmr. pose proof p_range as Hpr. destruct HR as (Hq & Hper & Hleast).
  unfold compare. rewrite wrap64_pred by lia. replace (c + 1 - 1) with c by lia.
  assert (Hk0 : MAX c mem = Z.max c mem) by (unfold MAX; destruct (Z.ltb_spec mem c); lia). rewrite Hk0.
  wp_step. eapply wp_mono; [apply wp_compare_right; [done|lia|lia|]|].
  { intros i Hi. destruct Hmem as [->|(_ & _ & _ & Hm)]; [lia|apply Hm; lia]. }
  intros k ? (-> & Hk & Hm & Hne). wp_step. eapply wp_mono; [apply Hin; lia|]. intros ? ? [-> ->].
  destruct (Z.ltb_spec k l) as [Hkl|Hkl].
  { wp_step. split; [done|]. rewrite wrap_sub_r, wrap_small by (unfold in_range; lia). apply moved; try done; try lia.
    intros s Hs. apply (no_occurrence_right x (seen o) l c Hc Hcl k); [lia|done|by apply Hne|lia]. }
  assert (k = l) as -> by lia. clear Hne Hkl. wp_step. eapply wp_mono; [apply wp_compare_left; lia|].
  intros j ? (-> & Hj & Hmj & Hne). destruct (Z.leb_spec j mem) as [Hjm|Hjm]; wp_step; (split; [done|]).
  - exists o. split_and!; try done. left. split_and!; [done| |lia]. intros i Hi. change (seen o i = x i).
    destruct (Z_lt_le_dec i c); [|apply Hm; lia]. destruct (Z_lt_le_dec i j); [|apply Hmj; lia].
    destruct Hmem as [->|(_ & _ & _ & Hm')]; [lia|apply Hm'; lia].
  - assert (reached (o + p)) as Hr'.
    { apply reached_add; [done|]. apply (no_occurrence_left x (seen o) l c q Hc Hcl Hq Hper Hleast p (j - 1) HP Hm); [lia|apply Hne; lia]. }
    split; [|simpl; lia]. exists (o + p), e, mem0. split_and!; try lia; [tuple_lia|done|done|].
    destruct Hm0 as [->|(-> & -> & Hw)]; [by left|right]. destruct (period_whole x l c q Hc Hq Hper Hw) as [Hpw Hcq]. split_and!; try done.
    intros i Hi. unfold seen. replace (o + q + i) with (o + (i + q)) by lia. change (seen o (i + q) = x i). rewrite Hm by lia. symmetry. apply Hpw; lia.
Qed.

Lemma wp_search_step o e mem : 0 <= o <= e -> e <= L -> ends e -> reached o -> remembers o mem ->
  wp (search_step avail inside fuel n l t (wrap64 (c - 1)) p mem0 (h0 + o, h0 + e, mem)) m (fun r m' => m' = m /\ step_ok o r).
Proof.
  intros Ho He Hen Hr Hmem. pose proof (remembers_range o mem Hmem) as Hmr. unfold search_step. wp_step. eapply wp_mono; [apply Hav; done|].
  intros [z|] ? [-> Hz].
  2:{ wp_step. split; [done|]. exists o. split_and!; try done; [lia|]. by right. }
  destruct Hz as (e' & -> & He' & Hen'). wp_step. wp_step; [apply seen_byte; lia|]. set (b := seen o (l - 1)).
  assert (Hb : is_byte b) by (eapply Hok, seen_byte; lia). destruct Ht as (_ & Ht1 & Ht2).
  assert (Hlast : forall s, 0 <= s < l -> occurs x (seen o) l s -> x (l - 1 - s) = b).
  { intros s Hs Hoc. rewrite <- (Hoc (l - 1 - s)) by lia. unfold b. f_equal. lia. }
  destruct (truth (bitop_and t.1 b)) eqn:Hbit.
  - apply Ht1 in Hbit as (i & Hi & Ei); [|done]. destruct (Ht2 b i Hi Ei) as (s & -> & Hs & Es & Hafter).
    rewrite (wrap_small _ (l - s)) by (unfold in_range; lia). destruct (truth (l - s)) eqn:Hls; [|apply wp_compare; (done || lia)].
    apply truth_true in Hls. wp_step. split; [done|].
    assert (Hno : forall s', 0 <= s' < l - s -> ~ occurs x (seen o) l s').
    { intros s' Hs' Hoc. apply (Hafter (l - 1 - s')); [lia|]. apply Hlast; [lia|done]. }
    destruct (Z.ltb_spec (l - s) mem); (apply moved; try done; try lia).
    intros s' Hs'. destruct Hmem as [->|(-> & Hpw & _ & Hm)]; [lia|]. destruct HR as [Hq _].
    apply (no_occurrence_memory x (seen o) l c q Hq (l - q)); [done|done|done| |done].
    intros E. apply (Hafter (l - 1)); [lia|]. by symmetry.
  - wp_step. split; [done|]. apply moved; try done; try lia. intros s Hs Hoc.
    assert (truth (bitop_and t.1 b) = true) as E; [|congruence]. apply Ht1; [done|]. exists (l - 1 - s). split; [lia|]. by apply Hlast.
Qed.

(** The loop returns the first occurrence. *)
Lemma wp_search e z : z = h0 + e -> 0 <= e <= L -> ends e -> wp (search avail inside fuel n l t (wrap64 (c - 1)) p mem0 h0 z) m (fun r m' => m' = m /\ result r).
Proof.
  intros -> He Hen. unfold search. apply (wp_loop (fun st m' => m' = m /\ search_inv st) (fun '(h, _, _) => Z.to_nat (h0 + L - h))).
  - intros st m' (-> & o & e' & mem & -> & Ho & He' & Hen' & Hr & Hmem). eapply wp_mono; [by apply wp_search_step|].
    intros [[[h z] mem']|r] m' [-> Hst]; [|done]. destruct Hst as [Hinv Hlt]. split; [done|].
    destruct Hinv as (o' & e'' & mem'' & [= -> -> ->] & Ho' & He'' & _). simpl in Hlt. lia.
  - split; [done|]. exists 0, e, 0. split_and!; try lia; [tuple_lia|done|intros s Hs; lia|by left].
  - lia.
Qed.
End search.
