(* ===== verification/StrSearchMain.v ===== *)
(** * StrSearchMain: the entry points of strstr.c and memmem.c

    The sliding windows for short needles, the ends of the haystack, and the
    theorems: both functions return the first occurrence of the needle. *)

From Stdlib Require Import ZArith Lia Bool.
From stdpp Require Import base tactics numbers list gmap.
From S2P Require Import Prelude CMem StrScan MemBlock StrCopy StrTok StrDemo Words StrSearch StrSearchProofs.
Open Scope Z_scope.

(** ** Short needles *)

Lemma shl_or_add a b : is_byte b -> shl_or a b = a * 256 + b.
Proof. intros Hb. unfold shl_or. rewrite Z.lor_comm, lor_shiftl_add; unfold in_range in *; lia. Qed.

Lemma three_add a b c : is_byte a -> is_byte b -> is_byte c -> three a b c = ((a * 256 + b) * 256 + c) * 256.
Proof.
  unfold in_range. intros Ha Hb Hc. unfold three. rewrite (Z.shiftl_mul_pow2 c), (Z.shiftl_mul_pow2 b) by lia.
  rewrite (Z.lor_comm (Z.shiftl a 24)), lor_shiftl_add by lia.
  replace (b * 2 ^ 16 + 2 ^ 24 * a) with (Z.shiftl (b + 256 * a) 16) by (rewrite Z.shiftl_mul_pow2; lia).
  rewrite Z.lor_comm, lor_shiftl_add by lia. lia.
Qed.

(** A word that holds the [w] letters from a position on. *)
Record window (w : Z) (code : letters -> Z) (next : Z -> Z -> Z) : Prop := {
  win_pos : 1 <= w;
  win_inj : forall y z, (forall i, 0 <= i < w -> is_byte (y i) /\ is_byte (z i)) -> code y = code z -> forall i, 0 <= i < w -> y i = z i;
  win_ext : forall y z, (forall i, 0 <= i < w -> y i = z i) -> code y = code z;
  win_next : forall y y', (forall i, 0 <= i <= w -> is_byte (y i)) -> (forall i, y' i = y (1 + i)) -> next (code y) (y w) = code y' }.

Definition code2 (y : letters) : Z := y 0 * 256 + y 1.
Definition code3 (y : letters) : Z := ((y 0 * 256 + y 1) * 256 + y 2) * 256.
Definition code4 (y : letters) : Z := ((y 0 * 256 + y 1) * 256 + y 2) * 256 + y 3.

Lemma wrap_drop w a b : 0 <= w -> wrap w (a + 2 ^ w * b) = wrap w a.
Proof. intros Hw. unfold wrap. rewrite Z.mul_comm. apply Z.mod_add. pose proof (Z.pow_pos_nonneg 2 w). lia. Qed.

Lemma window_2 : window 2 code2 (fun hw c => wrap16 (shl_or hw c)).
Proof.
  split; [lia|..]; unfold code2, in_range; change (2 ^ 8) with 256.
  - intros y z Hb E i Hi. pose proof (Hb 0 ltac:(lia)). pose proof (Hb 1 ltac:(lia)). assert (i = 0 \/ i = 1) as [->| ->] by lia; lia.
  - intros y z E. by rewrite !E by lia.
  - intros y y' Hb E. pose proof (Hb 0 ltac:(lia)). pose proof (Hb 1 ltac:(lia)). pose proof (Hb 2 ltac:(lia)). rewrite !E, shl_or_add by done.
    change (1 + 0) with 1. change (1 + 1) with 2. replace ((y 0 * 256 + y 1) * 256 + y 2) with (y 1 * 256 + y 2 + 2 ^ 16 * y 0) by lia. rewrite wrap_drop, wrap_small; unfold in_range; lia.
Qed.
Lemma window_4 : window 4 code4 (fun hw c => wrap32 (shl_or hw c)).
Proof.
  split; [lia|..]; unfold code4, in_range; change (2 ^ 8) with 256.
  - intros y z Hb E i Hi. pose proof (Hb 0 ltac:(lia)). pose proof (Hb 1 ltac:(lia)). pose proof (Hb 2 ltac:(lia)). pose proof (Hb 3 ltac:(lia)).
    assert (i = 0 \/ i = 1 \/ i = 2 \/ i = 3) as [->|[->|[->| ->]]] by lia; lia.
  - intros y z E. by rewrite !E by lia.
  - intros y y' Hb E. pose proof (Hb 0 ltac:(lia)). pose proof (Hb 1 ltac:(lia)). pose proof (Hb 2 ltac:(lia)). pose proof (Hb 3 ltac:(lia)). pose proof (Hb 4 ltac:(lia)).
    rewrite !E, shl_or_add by done. change (1 + 0) with 1. change (1 + 1) with 2. change (1 + 2) with 3. change (1 + 3) with 4.
    replace ((((y 0 * 256 + y 1) * 256 + y 2) * 256 + y 3) * 256 + y 4) with (((y 1 * 256 + y 2) * 256 + y 3) * 256 + y 4 + 2 ^ 32 * y 0) by lia.
    rewrite wrap_drop, wrap_small; unfold in_range; lia.
Qed.
Lemma window_3 : window 3 code3 (fun hw c => wrap32 (Z.shiftl (Z.lor hw c) 8)).
Proof.
  split; [lia|..]; unfold code3, in_range; change (2 ^ 8) with 256.
  - intros y z Hb E i Hi. pose proof (Hb 0 ltac:(lia)). pose proof (Hb 1 ltac:(lia)). pose proof (Hb 2 ltac:(lia)).
    assert (i = 0 \/ i = 1 \/ i = 2) as [->|[->| ->]] by lia; lia.
  - intros y z E. by rewrite !E by lia.
  - intros y y' Hb E. pose proof (Hb 0 ltac:(lia)). pose proof (Hb 1 ltac:(lia)). pose proof (Hb 2 ltac:(lia)). pose proof (Hb 3 ltac:(lia)).
    rewrite !E. change (1 + 0) with 1. change (1 + 1) with 2. change (1 + 2) with 3.
    replace (((y 0 * 256 + y 1) * 256 + y 2) * 256) with (Z.shiftl ((y 0 * 256 + y 1) * 256 + y 2) 8) by (rewrite Z.shiftl_mul_pow2; lia).
    rewrite Z.lor_comm, lor_shiftl_add, Z.shiftl_mul_pow2 by lia.
    replace ((y 3 + 2 ^ 8 * ((y 0 * 256 + y 1) * 256 + y 2)) * 2 ^ 8) with (((y 1 * 256 + y 2) * 256 + y 3) * 256 + 2 ^ 32 * y 0) by lia.
    rewrite wrap_drop, wrap_small; unfold in_range; lia.
Qed.

Section slide.
Context (m : memory) (n h0 L w : Z) (fuel : nat) (code : letters -> Z) (next : Z -> Z -> Z).
Let x := letters_at m n.
Let hx := letters_at m h0.
Hypothesis W : window w code next.
Hypothesis Hx : forall i, 0 <= i < w -> m !! (n + i) = Some (x i).
Hypothesis Hh : forall i, 0 <= i < L -> m !! (h0 + i) = Some (hx i).
Hypothesis Hok : mem_ok m.
Hypothesis Hw : w <= L.
Hypothesis Hf : L + 1 < Z.of_nat fuel.

Abbreviation seen := (seen m h0).
Abbreviation reached := (reached m n w h0).
Abbreviation result := (result m n w h0 L).

Lemma seen_is_byte o i : 0 <= o + i < L -> is_byte (seen o i).
Proof. intros Hi. eapply Hok. by apply Hh. Qed.

Lemma code_equal o : 0 <= o -> o + w <= L -> code (seen o) = code x <-> occurs x hx w o.
Proof.
  intros Ho HoL. split; intros E.
  - intros i Hi. change (seen o i = x i). apply (win_inj _ _ _ W (seen o) x); [|done|done].
    intros j Hj. split; [apply seen_is_byte; lia|eapply Hok, Hx; lia].
  - apply (win_ext _ _ _ W). intros i Hi. by apply E.
Qed.

Lemma next_code o : 0 <= o -> o + w < L -> next (code (seen o)) (seen o w) = code (seen (o + 1)).
Proof.
  intros Ho HoL. apply (win_next _ _ _ W); [intros i Hi; apply seen_is_byte; lia|]. intros i. unfold StrSearchProofs.seen. f_equal. lia.
Qed.

Lemma reached_next o : reached o -> ~ occurs x hx w o -> reached (o + 1).
Proof. intros Hr Hn s Hs. destruct (Z.eq_dec s o) as [->|]; [done|apply Hr; lia]. Qed.

Lemma wp_slide : wp (slide fuel w (code x) next (h0 + w) (L - w) (code (seen 0))) m (fun r m' => m' = m /\ result r).
Proof.
  unfold slide. pose proof (win_pos _ _ _ W) as Hw1. wp_step.
  apply (wp_loop (fun st m' => m' = m /\ exists o, st = (h0 + o + w, L - w - o, code (seen o)) /\ 0 <= o <= L - w /\ reached o) (fun '(_, k, _) => Z.to_nat k)); [| |lia].
  2: { split; [done|]. exists 0. split_and!; [tuple_lia|lia|lia|intros s Hs; lia]. }
  intros st m' (-> & o & -> & Ho & Hr). destruct (truth (L - w - o)) eqn:Ht.
  - apply truth_true in Ht. destruct (Z.eqb_spec (code (seen o)) (code x)) as [E|E].
    + do 2 wp_step. split; [done|]. exists o. split_and!; try done; [lia|]. left. split_and!; [lia|by apply code_equal; [lia..|]|lia].
    + wp_step. wp_step; [|wp_step]; [replace (h0 + o + w) with (h0 + (o + w)) by lia; apply Hh; lia|]. split; [|lia]. split; [done|].
      exists (o + 1). change (hx (o + w)) with (seen o w). rewrite next_code by lia. split_and!; [tuple_lia|lia|lia|].
      apply reached_next; [done|]. rewrite <- code_equal by lia. done.
  - apply truth_false in Ht. do 2 wp_step. destruct (Z.eqb_spec (code (seen o)) (code x)) as [E|E]; (split; [done|]).
    + exists o. split_and!; try done; [lia|]. left. split_and!; [lia|by apply code_equal; [lia..|]|lia].
    + exists (o + 1). split_and!; [lia| |right; lia]. apply reached_next; [done|]. rewrite <- code_equal by lia. done.
Qed.

Hypothesis Hend : m !! (h0 + L) = Some 0.
Hypothesis Hnz : forall i, 0 <= i < L -> hx i <> 0.

Lemma wp_slide_strstr : wp (slide_strstr fuel w (code x) next (h0 + (w - 1)) (code (seen 0))) m (fun r m' => m' = m /\ result r).
Proof.
  unfold slide_strstr. pose proof (win_pos _ _ _ W) as Hw1. wp_step.
  apply (wp_loop (fun '(p, hw) m' => m' = m /\ exists o, p = h0 + o + (w - 1) /\ 0 <= o <= L - w + 1 /\ (o <= L - w -> hw = code (seen o)) /\ reached o)
    (fun '(p, _) => Z.to_nat (h0 + L - p))); [| |lia].
  2: { split; [done|]. exists 0. split_and!; (done || lia || (intros s Hs; lia)). }
  intros [p hw] m' (-> & o & -> & Ho & Hhw & Hr).
  assert (exists b, m !! (h0 + o + (w - 1)) = Some b /\ (truth b = (o <=? L - w))) as (b & Hb & Htb).
  { replace (h0 + o + (w - 1)) with (h0 + (o + (w - 1))) by lia. destruct (Z.leb_spec o (L - w)).
    - exists (hx (o + (w - 1))). split; [apply Hh; lia|]. apply truth_true, Hnz. lia.
    - exists 0. replace (o + (w - 1)) with L by lia. done. }
  wp_step. wp_step; [done|]. rewrite Htb. destruct (Z.leb_spec o (L - w)); cbn [andb].
  2: { do 2 wp_step. wp_step; [done|]. wp_step. rewrite Htb. destruct (Z.leb_spec o (L - w)); [lia|]. split; [done|]. exists o. split_and!; try done; [lia|]. right. lia. }
  rewrite Hhw by done. destruct (Z.eqb_spec (code (seen o)) (code x)) as [E|E]; cbn [negb].
  - do 2 wp_step. wp_step; [done|]. wp_step. rewrite Htb. destruct (Z.leb_spec o (L - w)); [|lia]. split; [done|]. exists o. split_and!; try done; [lia|].
    left. split_and!; [lia|by apply code_equal; [lia..|]|lia].
  - wp_step. replace (h0 + o + (w - 1) + 1) with (h0 + (o + w)) by lia.
    assert (reached (o + 1)) as Hr' by (apply reached_next; [done|]; rewrite <- code_equal by lia; done).
    destruct (Z.eq_dec (o + w) L) as [EL|].
    + wp_step; [by rewrite EL|]. wp_step. split; [|lia]. split; [done|]. exists (o + 1). split_and!; (done || lia).
    + wp_step; [apply Hh; lia|]. wp_step. split; [|lia]. split; [done|]. exists (o + 1). split_and!; try (done || lia).
      intros _. change (hx (o + w)) with (seen o w). apply next_code; lia.
Qed.
End slide.

(** ** The end of a string *)

(** memchr for the NUL of a string may be given more bytes than there are. *)
Section memchr_nul.
Context (m : memory) (s : Z) (l : list Z) (N : Z) (Hok : mem_ok m) (Hs : cstring m s l) (HN : lenZ l < N).

Definition nul_inv (st : Z * Z) (m' : memory) : Prop := m' = m /\ exists k, st = (s + k, N - k) /\ 0 <= k <= lenZ l.

Lemma wp_nul_bytes (g : Z -> bool) st fuel (Q : Z * Z -> memory -> Prop) :
  nul_inv st m -> lenZ l < Z.of_nat fuel ->
  (forall st, nul_inv st m -> m !! fst st = Some 0 \/ g (fst st) = false -> Q st m) ->
  wp (loop fuel (fun '(s, n) =>
        if g s && truth n then
          b ← load8 s;
          if b =? 0 then mret (inr (s, n)) else mret (inl (s + 1, n - 1))
        else mret (inr (s, n))) st) m Q.
Proof.
  intros Hst Hf HQ. apply (wp_loop nul_inv (fun '(p, _) => Z.to_nat (s + lenZ l - p))); [|done|destruct Hst as (_ & k & -> & Hk); lia].
  intros st' m' Hst'. pose proof Hst' as (-> & k & -> & Hk). rewrite (proj2 (truth_true (N - k))), andb_true_r by lia.
  destruct (g (s + k)) eqn:Hg; [|wp_step; apply HQ; [done|by right]].
  destruct (cstring_byte m s l Hs (s + k)) as (b & Hb & Hz); [lia|]. wp_step. wp_step; [done|]. destruct (Z.eqb_spec b 0) as [->|Hne]; wp_step.
  - apply HQ; [done|by left].
  - assert (s + k <> s + lenZ l) by tauto. split; [|lia]. split; [done|]. exists (k + 1). split; [tuple_lia|lia].
Qed.

Lemma wp_memchr_nul fuel : lenZ l + 1 < Z.of_nat fuel -> wp (memchr fuel s 0 N) m (fun r m' => m' = m /\ r = s + lenZ l).
Proof.
  intros Hf. unfold memchr. change (wrap8 0) with 0. wp_step.
  apply (wp_nul_bytes (fun s => truth (Z.land s (ALIGN - 1)))); [split; [done|]; exists 0; split; [tuple_lia|lia]|lia|].
  intros [p n] Hst Hstop. lazy beta iota. wp_step. apply (wp_mono _ _ nul_inv).
  - pose proof Hst as (_ & k & [= -> ->] & Hk). rewrite (proj2 (truth_true (N - k))) by lia.
    destruct (cstring_byte m s l Hs (s + k)) as (b & Hb & Hz); [lia|]. wp_step. wp_step; [done|]. destruct (Z.eqb_spec b 0) as [->|Hne]; [by wp_step|].
    apply (wp_loop (fun st m' => nul_inv st m' /\ fst st `mod` 8 = 0) (fun '(p, _) => Z.to_nat (s + lenZ l - p))).
    + intros st m' [Hst' Ha]. pose proof Hst' as (-> & j & -> & Hj). cbn [fst] in Ha. destruct (Z.leb_spec 8 (N - j)); [|by wp_step].
      destruct (cstring_word m s l Hs (s + j)) as (lw & Hlen & Hlw); [lia|done|]. wp_step. eapply wp_load_word; [done..|].
      rewrite HASZERO_lxor_spec by (done || eauto using mem_ok_bytes).
      pose proof (cstring_word_zero m s l Hs (s + j) lw ltac:(lia) Hlen Hlw) as Hzw. case_bool_decide as Hin; wp_step; [done|].
      assert (s + j + 8 <= s + lenZ l) by (destruct (Z_lt_le_dec (s + lenZ l) (s + j + 8)); [tauto|lia]).
      split; [|lia]. split; [|cbn [fst]; by apply mod8_add8]. split; [done|]. exists (j + 8). split; [tuple_lia|lia].
    + split; [done|]. cbn [fst]. rewrite <- land7. destruct Hstop as [Hz0|Hz0]; [cbn [fst] in Hz0; congruence|]. by apply truth_false in Hz0.
    + lia.
  - intros [p' n'] m' Hst'. pose proof Hst' as [-> _]. wp_step. apply (wp_nul_bytes (fun _ => true)); [done|lia|].
    intros [p2 n2] Hst2 [Hz|]; [|done]. pose proof Hst2 as (_ & k & [= -> ->] & Hk). cbn [fst] in Hz. wp_step.
    rewrite (proj2 (truth_true (N - k))) by lia. split; [done|]. destruct (cstring_byte m s l Hs (s + k)) as (b & Hb & Hbz); [lia|].
    apply Hbz. congruence.
Qed.
End memchr_nul.

Lemma lor_63 l : 0 <= l -> l <= Z.lor l 63.
Proof.
  intros Hl. assert (Z.lor l 63 = l + Z.ldiff 63 l) as ->.
  { rewrite Z.add_nocarry_lor; apply Z.bits_inj'; intros i Hi; rewrite ?Z.lor_spec, ?Z.land_spec, Z.ldiff_spec, ?Z.bits_0;
      by destruct (Z.testbit l i), (Z.testbit 63 i). }
  assert (0 <= Z.ldiff 63 l) by (apply Z.ldiff_nonneg; lia). lia.
Qed.

(** ** First occurrences in lists *)

Fixpoint find_sub (nl hl : list Z) : option nat :=
  if bool_decide (take (length nl) hl = nl) then Some 0%nat else
  match hl with [] => None | _ :: hl => S <$> find_sub nl hl end.

Lemma find_sub_spec nl hl :
  match find_sub nl hl with
  | Some i => (i <= length hl)%nat /\ take (length nl) (drop i hl) = nl /\ forall j, (j < i)%nat -> take (length nl) (drop j hl) <> nl
  | None => forall j, take (length nl) (drop j hl) <> nl
  end.
Proof.
  induction hl as [|b hl IH]; cbn [find_sub]; case_bool_decide as E.
  - split_and!; [simpl; lia|done|lia].
  - intros j. by rewrite drop_nil.
  - split_and!; [lia|done|lia].
  - destruct (find_sub nl hl) as [i|]; cbn [fmap option_fmap option_map].
    + destruct IH as (H1 & H2 & H3). split_and!; [simpl; lia|done|]. intros [|j] Hj; [done|apply H3; lia].
    + intros [|j]; [done|apply IH].
Qed.

Lemma take_skip b nl (hl : list Z) j : (forall b', hl !! j = Some b' -> b' <> b) -> take (length (b :: nl)) (drop j hl) <> b :: nl.
Proof.
  intros Hb E. destruct (drop j hl) as [|b' tl] eqn:Ed; [done|]. cbn [length take] in E. injection E as E _.
  apply (Hb b'); [|done]. rewrite <- (Nat.add_0_r j), <- lookup_drop, Ed. done.
Qed.

Lemma find_sub_skip b nl (hl : list Z) a : (a <= length hl)%nat -> (forall j b', (j < a)%nat -> hl !! j = Some b' -> b' <> b) ->
  find_sub (b :: nl) hl = (fun i => a + i)%nat <$> find_sub (b :: nl) (drop a hl).
Proof.
  revert hl. induction a as [|a IH]; intros hl Ha Hb; [rewrite drop_0; by destruct (find_sub _ _)|].
  destruct hl as [|b0 hl]; [simpl in Ha; lia|]. cbn [find_sub drop]. rewrite bool_decide_eq_false_2.
  2: { apply (take_skip b nl (b0 :: hl) 0). intros b' Hb'. by apply (Hb 0%nat); [lia|]. }
  rewrite (IH hl); [by destruct (find_sub _ _)|simpl in Ha; lia|]. intros j b' Hj Hl. apply (Hb (S j)); [lia|done].
Qed.

(** A search by positions is a search in the list. *)
Lemma letters_lookup m p l i : bytes_at m p l -> 0 <= i < lenZ l -> m !! (p + i) = Some (letters_at m p i) /\ l !! Z.to_nat i = Some (letters_at m p i).
Proof.
  intros Hb Hi. destruct (lookup_lt_is_Some_2 l (Z.to_nat i)) as [b Hl]; [lia|]. pose proof (bytes_at_lookup m p l _ b Hb Hl) as E.
  rewrite Z2Nat.id in E by lia. unfold letters_at. rewrite E. done.
Qed.

Lemma occurs_take m n h nl hl s : bytes_at m n nl -> bytes_at m h hl -> 0 <= s -> s + lenZ nl <= lenZ hl ->
  occurs (letters_at m n) (letters_at m h) (lenZ nl) s <-> take (length nl) (drop (Z.to_nat s) hl) = nl.
Proof.
  intros Hn Hh Hs Hl. split.
  - intros Ho. apply list_eq. intros i. destruct (decide (i < length nl)%nat) as [Hi|Hi].
    + rewrite lookup_take_lt, lookup_drop by done. specialize (Ho (Z.of_nat i) ltac:(lia)).
      destruct (letters_lookup m n nl (Z.of_nat i) Hn ltac:(lia)) as [_ E1]. destruct (letters_lookup m h hl (s + Z.of_nat i) Hh ltac:(lia)) as [_ E2].
      rewrite Nat2Z.id in E1. replace (Z.to_nat (s + Z.of_nat i)) with (Z.to_nat s + i)%nat in E2 by lia. rewrite E1, E2, Ho. done.
    + rewrite (proj2 (lookup_ge_None nl i)), lookup_ge_None by lia. rewrite length_take. lia.
  - intros E i Hi. destruct (letters_lookup m n nl i Hn ltac:(lia)) as [_ E1]. destruct (letters_lookup m h hl (s + i) Hh ltac:(lia)) as [_ E2].
    rewrite <- E, lookup_take_lt, lookup_drop in E1 by lia. replace (Z.to_nat (s + i)) with (Z.to_nat s + Z.to_nat i)%nat in E2 by lia. congruence.
Qed.

Lemma result_find m n h nl hl r : bytes_at m n nl -> bytes_at m h hl -> (length nl <> 0)%nat -> result m n (lenZ nl) h (lenZ hl) r ->
  r = match find_sub nl hl with Some i => h + Z.of_nat i | None => 0 end.
Proof.
  intros Hn Hh Hl (o & Ho & Hr & H). pose proof (find_sub_spec nl hl) as Hf.
  assert (Hbefore : forall i, (i <= length hl)%nat -> take (length nl) (drop i hl) = nl -> o <= Z.of_nat i).
  { intros i Hi E. destruct (Z_lt_le_dec (Z.of_nat i) o) as [Hlt|]; [exfalso|lia]. apply (Hr (Z.of_nat i)); [lia|].
    apply (occurs_take m n h nl hl); [done|done|lia| |by rewrite Nat2Z.id].
    apply (f_equal length) in E. rewrite length_take, length_drop in E. lia. }
  assert (Hlen : forall i, take (length nl) (drop i hl) = nl -> (i + length nl <= length hl)%nat).
  { intros i E. apply (f_equal length) in E. rewrite length_take, length_drop in E. lia. }
  destruct H as [(-> & Hoc & HL)|[-> HL]].
  - apply (occurs_take m n h nl hl) in Hoc; [|done..]. destruct (find_sub nl hl) as [i|]; [|by destruct (Hf (Z.to_nat o))].
    destruct Hf as (H1 & H2 & H3). pose proof (Hbefore i H1 H2). destruct (decide (Z.to_nat o < i)%nat) as [Hlt|]; [by destruct (H3 _ Hlt)|lia].
  - destruct (find_sub nl hl) as [i|]; [|done]. destruct Hf as (H1 & H2 & _). pose proof (Hbefore i H1 H2). pose proof (Hlen i H2). lia.
Qed.

(** ** The two-way search on strings and blocks *)

Lemma cstring_letter m s l i : cstring m s l -> 0 <= i <= lenZ l ->
  m !! (s + i) = Some (letters_at m s i) /\ (letters_at m s i = 0 <-> i = lenZ l).
Proof.
  intros Hs Hi. destruct (cstring_byte m s l Hs (s + i)) as (b & Hb & Hz); [lia|]. unfold letters_at. rewrite Hb. split; [done|]. cbn [default from_option id].
  rewrite Hz. lia.
Qed.

Lemma truth_letter m s l i : cstring m s l -> 0 <= i <= lenZ l -> truth (letters_at m s i) = (i <? lenZ l).
Proof.
  intros Hs Hi. destruct (cstring_letter m s l i Hs Hi) as [_ Hz]. destruct (Z.ltb_spec i (lenZ l)).
  - apply truth_true. intros E. apply Hz in E. lia.
  - apply truth_false, Hz. lia.
Qed.

Section strings.
Context (m : memory) (n h : Z) (nl hl : list Z) (fuel : nat).
Hypothesis Hok : mem_ok m.
Hypothesis Hn : cstring m n nl.
Hypothesis Hh : cstring m h hl.
Hypothesis Hnl : 1 <= lenZ nl < 2 ^ 62.
Hypothesis Hhl : lenZ hl < 2 ^ 62.
Hypothesis Hpos : 0 < h.
Hypothesis Hf : 2 * lenZ nl + lenZ hl + 4 < Z.of_nat fuel.

Lemma n_letter i : 0 <= i < lenZ nl -> m !! (n + i) = Some (letters_at m n i).
Proof. intros Hi. by apply (cstring_letter m n nl i Hn); lia. Qed.
Lemma h_letter i : 0 <= i < lenZ hl -> m !! (h + i) = Some (letters_at m h i).
Proof. intros Hi. by apply (cstring_letter m h hl i Hh); lia. Qed.

Lemma wp_fill_strstr : wp (fill_strstr fuel h n) m (fun '(l, t) m' => m' = m /\ l = Z.min (lenZ nl) (lenZ hl) /\ tables_ok m n t l).
Proof.
  unfold fill_strstr. apply (wp_loop (fun '(l, t) m' => m' = m /\ 0 <= l <= Z.min (lenZ nl) (lenZ hl) /\ tables_ok m n t l) (fun '(l, _) => Z.to_nat (lenZ nl - l))); [| |lia].
  2: { split_and!; try done; try lia. apply tables_ok_0. }
  intros [l t] m' (-> & Hl & Ht). wp_step. wp_step; [by apply (cstring_letter m n nl l Hn); lia|]. rewrite (truth_letter m n nl) by (done || lia).
  destruct (Z.ltb_spec l (lenZ nl)); [|wp_step; split_and!; (done || lia)].
  wp_step. wp_step; [by apply (cstring_letter m h hl l Hh); lia|]. rewrite (truth_letter m h hl) by (done || lia).
  destruct (Z.ltb_spec l (lenZ hl)); wp_step; [|split_and!; (done || lia)].
  rewrite wrap_small by (unfold in_range; lia). split; [|lia]. split; [done|]. split; [lia|]. apply (tables_ok_mark m n (lenZ nl)); try (done || lia). exact n_letter.
Qed.

Lemma wp_grow_strstr o e : 0 <= o <= e -> e <= lenZ hl -> wp (grow_strstr fuel (lenZ nl) (h + o) (h + e)) m (fun r m' => m' = m /\
    match r with None => lenZ hl < o + lenZ nl | Some z => exists e', z = h + e' /\ o + lenZ nl <= e' <= lenZ hl end).
Proof.
  intros Ho He. unfold grow_strstr. rewrite (wrap_small _ (h + e - (h + o))) by (unfold in_range; lia).
  destruct (Z.ltb_spec (h + e - (h + o)) (lenZ nl)); [|wp_step; split; [done|]; exists e; lia].
  set (g := Z.lor (lenZ nl) 63). pose proof (lor_63 (lenZ nl) ltac:(lia)) as Hg. fold g in Hg.
  pose proof (cstring_drop m h hl (Z.to_nat e) Hh ltac:(lia)) as Hz. rewrite Z2Nat.id in Hz by lia. set (zl := drop (Z.to_nat e) hl) in *.
  assert (El : lenZ zl = lenZ hl - e) by (unfold zl; rewrite length_drop; lia). wp_step. destruct (Z_lt_le_dec (lenZ zl) g) as [Hlt|Hge].
  - eapply wp_mono; [apply (wp_memchr_nul m (h + e) zl g Hok Hz Hlt); lia|]. intros z2 ? [-> ->].
    rewrite (proj2 (truth_true _)) by lia. rewrite El. replace (h + e + (lenZ hl - e)) with (h + lenZ hl) by lia. rewrite wrap_small by (unfold in_range; lia).
    destruct (Z.ltb_spec (h + lenZ hl - (h + o)) (lenZ nl)); wp_step; (split; [done|]); [lia|]. exists (lenZ hl). lia.
  - set (zg := take (Z.to_nat g) zl). assert (Eg : lenZ zg = g) by (unfold zg; rewrite length_take; lia).
    assert (Hzg : bytes_at m (h + e) zg).
    { pose proof (cs_bytes _ _ _ Hz) as Hb. rewrite <- (take_drop (Z.to_nat g) zl), <- app_assoc in Hb. by apply bytes_at_app in Hb as [? _]. }
    rewrite <- Eg at 1. eapply wp_mono; [apply wp_memchr; [done|done|lia]|]. intros z2 ? [-> ->]. change (wrap8 0) with 0.
    assert (list_find (fun b => b = 0) zg = None) as ->.
    { apply list_find_None. unfold zg, zl. apply Forall_take, Forall_drop. exact (cs_nz _ _ _ Hh). }
    change (truth 0) with false. wp_step. split; [done|]. exists (e + g). lia.
Qed.

Lemma wp_twoway_strstr : wp (twoway_strstr fuel h n) m (fun r m' => m' = m /\ result m n (lenZ nl) h (lenZ hl) r).
Proof.
  unfold twoway_strstr. wp_step. eapply wp_mono; [apply wp_fill_strstr|]. intros [l t] ? (-> & -> & Ht). wp_step.
  wp_step; [by apply (cstring_letter m n nl _ Hn); lia|]. rewrite (truth_letter m n nl) by (done || lia).
  destruct (Z.ltb_spec (lenZ nl `min` lenZ hl) (lenZ nl)).
  { wp_step. split; [done|]. exists 0. split_and!; [lia|intros s Hs; lia|right; lia]. }
  assert (lenZ nl `min` lenZ hl = lenZ nl) as Em by lia. rewrite Em in Ht |- *. wp_step. eapply wp_mono; [apply (wp_factor m n (lenZ nl) n_letter); lia|].
  intros [[ms p] mem0] ? (-> & c & q & -> & Hc & Hcl & HR & HP & Hm0).
  apply (wp_search m n (lenZ nl) h (lenZ hl) n_letter h_letter Hok Hnl ltac:(lia) fuel _ _ (fun _ => True) t c q p mem0) with (e := 0); try (done || lia).
  - intros o e Ho He _. eapply wp_mono; [by apply wp_grow_strstr|]. intros [z|] ? [-> Hz]; (split; [done|]); [|done]. destruct Hz as (e' & ? & ?). by exists e'.
  - intros k Hk. wp_step. wp_step; [by apply (cstring_letter m n nl _ Hn); lia|]. wp_step. split; [done|]. by apply truth_letter.
Qed.
End strings.

Section blocks.
Context (m : memory) (n h : Z) (nl hl : list Z) (fuel : nat).
Hypothesis Hok : mem_ok m.
Hypothesis Hn : bytes_at m n nl.
Hypothesis Hh : bytes_at m h hl.
Hypothesis Hnl : 1 <= lenZ nl < 2 ^ 62.
Hypothesis Hhl : lenZ hl < 2 ^ 62.
Hypothesis Hf : 2 * lenZ nl + lenZ hl + 4 < Z.of_nat fuel.

Lemma block_letter p l i : bytes_at m p l -> 0 <= i < lenZ l -> m !! (p + i) = Some (letters_at m p i).
Proof. intros Hp Hi. by apply (letters_lookup m p l). Qed.

Lemma wp_twoway_memmem : wp (twoway_memmem fuel h (h + lenZ hl) n (lenZ nl)) m (fun r m' => m' = m /\ result m n (lenZ nl) h (lenZ hl) r).
Proof.
  unfold twoway_memmem. assert (Hnx : forall i, 0 <= i < lenZ nl -> m !! (n + i) = Some (letters_at m n i)) by (intros; by eapply block_letter).
  wp_step. apply (wp_mono _ _ (fun t m' => m' = m /\ tables_ok m n t (lenZ nl))).
  - unfold fill_memmem. apply (wp_loop (fun '(i, t) m' => m' = m /\ 0 <= i <= lenZ nl /\ tables_ok m n t i) (fun '(i, _) => Z.to_nat (lenZ nl - i))); [| |lia].
    2: { split_and!; try done; try lia. apply tables_ok_0. }
    intros [i t] m' (-> & Hi & Ht). destruct (Z.ltb_spec i (lenZ nl)).
    + wp_step. wp_step; [apply Hnx; lia|]. wp_step. rewrite wrap_small by (unfold in_range; lia). split; [|lia]. split; [done|]. split; [lia|].
      apply (tables_ok_mark m n (lenZ nl)); (done || lia).
    + wp_step. split; [done|]. by replace (lenZ nl) with i by lia.
  - intros t ? [-> Ht]. wp_step. eapply wp_mono; [apply (wp_factor m n (lenZ nl) Hnx); lia|].
    intros [[ms p] mem0] ? (-> & c & q & -> & Hc & Hcl & HR & HP & Hm0).
    apply (wp_search m n (lenZ nl) h (lenZ hl) Hnx ltac:(intros; by eapply block_letter) Hok Hnl ltac:(lia) fuel _ _ (fun e => e = lenZ hl) t c q p mem0)
      with (e := lenZ hl); try (done || lia).
    + intros o e Ho He ->. wp_step. split; [done|]. rewrite (wrap_small _ (h + lenZ hl - (h + o))) by (unfold in_range; lia).
      destruct (Z.ltb_spec (h + lenZ hl - (h + o)) (lenZ nl)); [lia|]. exists (lenZ hl). split_and!; (done || lia).
Qed.
End blocks.

(** ** Short needles in memory *)

Lemma letter_0 (m : memory) p b : m !! (p + 0) = Some b -> m !! p = Some b.
Proof. by rewrite Z.add_0_r. Qed.

Lemma code2_word y : is_byte (y 0) -> is_byte (y 1) -> wrap16 (shl_or (y 0) (y 1)) = code2 y.
Proof. intros H0 H1. rewrite shl_or_add by done. unfold in_range in *. rewrite wrap_small; unfold in_range, code2; lia. Qed.
Lemma code3_word y : is_byte (y 0) -> is_byte (y 1) -> is_byte (y 2) -> wrap32 (three (y 0) (y 1) (y 2)) = code3 y.
Proof. intros H0 H1 H2. rewrite three_add by done. unfold in_range in *. rewrite wrap_small; unfold in_range, code3; lia. Qed.
Lemma code4_word y : is_byte (y 0) -> is_byte (y 1) -> is_byte (y 2) -> is_byte (y 3) -> wrap32 (four (y 0) (y 1) (y 2) (y 3)) = code4 y.
Proof.
  intros H0 H1 H2 H3. unfold four. rewrite three_add by done.
  replace (((y 0 * 256 + y 1) * 256 + y 2) * 256) with (Z.shiftl ((y 0 * 256 + y 1) * 256 + y 2) 8) by (rewrite Z.shiftl_mul_pow2; lia).
  change (Z.lor (Z.shiftl ?a 8) ?b) with (shl_or a b). rewrite shl_or_add by done. unfold in_range in *. rewrite wrap_small; unfold in_range, code4; lia.
Qed.

Ltac load_letter H := wp_step; wp_step; [first [apply H; lia | apply letter_0, H; lia]|].

Section short.
Context (m : memory) (n h l L : Z) (fuel : nat).
Hypothesis Hok : mem_ok m.
Hypothesis Hn : forall i, 0 <= i < l -> m !! (n + i) = Some (letters_at m n i).
Hypothesis Hh : forall i, 0 <= i < L -> m !! (h + i) = Some (letters_at m h i).
Hypothesis Hf : L + 1 < Z.of_nat fuel.
Hypothesis Hw : l <= L.

Lemma wp_twobyte_memmem : l = 2 -> wp (twobyte_memmem fuel h L n) m (fun r m' => m' = m /\ result m n l h L r).
Proof.
  intros ->. unfold twobyte_memmem. do 2 load_letter Hn. do 2 load_letter Hh.
  rewrite (code2_word (letters_at m n)), (code2_word (letters_at m h)) by (eapply Hok; (apply Hn || apply Hh); lia). by apply (wp_slide m n h L 2 fuel code2 _ window_2).
Qed.
Lemma wp_threebyte_memmem : l = 3 -> wp (threebyte_memmem fuel h L n) m (fun r m' => m' = m /\ result m n l h L r).
Proof.
  intros ->. unfold threebyte_memmem. do 3 load_letter Hn. do 3 load_letter Hh.
  rewrite (code3_word (letters_at m n)), (code3_word (letters_at m h)) by (eapply Hok; (apply Hn || apply Hh); lia). by apply (wp_slide m n h L 3 fuel code3 _ window_3).
Qed.
Lemma wp_fourbyte_memmem : l = 4 -> wp (fourbyte_memmem fuel h L n) m (fun r m' => m' = m /\ result m n l h L r).
Proof.
  intros ->. unfold fourbyte_memmem. do 4 load_letter Hn. do 4 load_letter Hh.
  rewrite (code4_word (letters_at m n)), (code4_word (letters_at m h)) by (eapply Hok; (apply Hn || apply Hh); lia). by apply (wp_slide m n h L 4 fuel code4 _ window_4).
Qed.

Hypothesis Hend : m !! (h + L) = Some 0.
Hypothesis Hnz : forall i, 0 <= i < L -> letters_at m h i <> 0.

Lemma wp_twobyte_strstr : l = 2 -> wp (twobyte_strstr fuel h n) m (fun r m' => m' = m /\ result m n l h L r).
Proof.
  intros ->. unfold twobyte_strstr. do 2 load_letter Hn. do 2 load_letter Hh.
  rewrite (code2_word (letters_at m n)), (code2_word (letters_at m h)) by (eapply Hok; (apply Hn || apply Hh); lia). by apply (wp_slide_strstr m n h L 2 fuel code2 _ window_2).
Qed.
Lemma wp_threebyte_strstr : l = 3 -> wp (threebyte_strstr fuel h n) m (fun r m' => m' = m /\ result m n l h L r).
Proof.
  intros ->. unfold threebyte_strstr. do 3 load_letter Hn. do 3 load_letter Hh.
  rewrite (code3_word (letters_at m n)), (code3_word (letters_at m h)) by (eapply Hok; (apply Hn || apply Hh); lia). by apply (wp_slide_strstr m n h L 3 fuel code3 _ window_3).
Qed.
Lemma wp_fourbyte_strstr : l = 4 -> wp (fourbyte_strstr fuel h n) m (fun r m' => m' = m /\ result m n l h L r).
Proof.
  intros ->. unfold fourbyte_strstr. do 4 load_letter Hn. do 4 load_letter Hh.
  rewrite (code4_word (letters_at m n)), (code4_word (letters_at m h)) by (eapply Hok; (apply Hn || apply Hh); lia). by apply (wp_slide_strstr m n h L 4 fuel code4 _ window_4).
Qed.
End short.

(** ** The entry points *)

Lemma result_here m n h l L : 0 <= l -> occurs (letters_at m n) (letters_at m h) l 0 -> l <= L -> result m n l h L h.
Proof. intros Hl Ho HL. exists 0. split_and!; [lia|intros s Hs; lia|left; split_and!; [lia|done|lia]]. Qed.
Lemma result_too_short m n h l L : L < l -> result m n l h L 0.
Proof. intros HL. exists 0. split_and!; [lia|intros s Hs; lia|right; lia]. Qed.

Lemma wp_strstr_from m n h nl hl fuel :
  mem_ok m -> cstring m n nl -> cstring m h hl -> 1 <= lenZ nl < 2 ^ 62 -> 1 <= lenZ hl < 2 ^ 62 -> 0 < h ->
  letters_at m h 0 = letters_at m n 0 -> 2 * lenZ nl + lenZ hl + 4 < Z.of_nat fuel ->
  wp (strstr_from fuel h n) m (fun r m' => m' = m /\ result m n (lenZ nl) h (lenZ hl) r).
Proof.
  intros Hok Hn Hh Hnl Hhl Hpos H0 Hf. unfold strstr_from.
  assert (Hnx : forall i, 0 <= i < lenZ nl -> m !! (n + i) = Some (letters_at m n i)) by (intros i Hi; apply (cstring_letter m n nl i Hn); lia).
  assert (Hhx : forall i, 0 <= i < lenZ hl -> m !! (h + i) = Some (letters_at m h i)) by (intros i Hi; apply (cstring_letter m h hl i Hh); lia).
  assert (Hend : m !! (h + lenZ hl) = Some 0).
  { destruct (cstring_letter m h hl (lenZ hl) Hh ltac:(lia)) as [E Hz]. rewrite E. f_equal. by apply Hz. }
  assert (Hnz : forall i, 0 <= i < lenZ hl -> letters_at m h i <> 0).
  { intros i Hi E. apply (cstring_letter m h hl i Hh) in E; lia. }
  wp_step. wp_step; [by apply (cstring_letter m n nl 1 Hn); lia|]. rewrite (truth_letter m n nl) by (done || lia).
  destruct (Z.ltb_spec 1 (lenZ nl)); cbn [negb].
  2: { wp_step. split; [done|]. apply result_here; [lia| |lia]. intros i Hi. by replace i with 0 by lia. }
  wp_step. wp_step; [by apply (cstring_letter m h hl 1 Hh); lia|]. rewrite (truth_letter m h hl) by (done || lia).
  destruct (Z.ltb_spec 1 (lenZ hl)); cbn [negb]; [|wp_step; split; [done|apply result_too_short; lia]].
  wp_step. wp_step; [by apply (cstring_letter m n nl 2 Hn); lia|]. rewrite (truth_letter m n nl) by (done || lia).
  destruct (Z.ltb_spec 2 (lenZ nl)); cbn [negb]; [|by apply wp_twobyte_strstr; (done || lia)].
  wp_step. wp_step; [by apply (cstring_letter m h hl 2 Hh); lia|]. rewrite (truth_letter m h hl) by (done || lia).
  destruct (Z.ltb_spec 2 (lenZ hl)); cbn [negb]; [|wp_step; split; [done|apply result_too_short; lia]].
  wp_step. wp_step; [by apply (cstring_letter m n nl 3 Hn); lia|]. rewrite (truth_letter m n nl) by (done || lia).
  destruct (Z.ltb_spec 3 (lenZ nl)); cbn [negb]; [|by apply wp_threebyte_strstr; (done || lia)].
  wp_step. wp_step; [by apply (cstring_letter m h hl 3 Hh); lia|]. rewrite (truth_letter m h hl) by (done || lia).
  destruct (Z.ltb_spec 3 (lenZ hl)); cbn [negb]; [|wp_step; split; [done|apply result_too_short; lia]].
  wp_step. wp_step; [by apply (cstring_letter m n nl 4 Hn); lia|]. rewrite (truth_letter m n nl) by (done || lia).
  destruct (Z.ltb_spec 4 (lenZ nl)); cbn [negb]; [|by apply wp_fourbyte_strstr; (done || lia)].
  apply wp_twoway_strstr; (done || lia).
Qed.

(** The first byte of the needle: either it is nowhere, or the search goes on
    from its first place. *)
Lemma first_byte b nl (hl : list Z) :
  match list_find (fun b' => b' = b) hl with
  | Some (i, b') => (i < length hl)%nat /\ hl !! i = Some b /\ find_sub (b :: nl) hl = (fun j => i + j)%nat <$> find_sub (b :: nl) (drop i hl)
  | None => find_sub (b :: nl) hl = None
  end.
Proof.
  destruct (list_find _ hl) as [[i b']|] eqn:E.
  - apply list_find_Some in E as (Hi & -> & Hb). pose proof (lookup_lt_Some _ _ _ Hi). split_and!; [done|done|].
    apply find_sub_skip; [lia|]. intros j b' Hj Hl. by eapply Hb.
  - apply list_find_None in E. rewrite (find_sub_skip b nl hl (length hl)); [|done|].
    + by rewrite drop_all.
    + intros j b' _ Hl. by apply (Forall_lookup_1 _ _ _ _ E Hl).
Qed.

Lemma wrap8_byte b : is_byte b -> wrap8 b = b.
Proof. apply wrap_small. Qed.

(** C7: [strstr] returns the address of the first occurrence of the needle in
    the haystack, or a null pointer when there is none: with the sliding
    words for short needles and the two-way algorithm for the others it
    computes what a comparison at every position would, it terminates, reads
    nothing but the two strings (and the word that ends the haystack) and
    writes nothing. *)
Theorem strstr_correct m h n hl nl fuel :
  mem_ok m -> cstring m h hl -> cstring m n nl -> 0 < h -> lenZ hl < 2 ^ 62 -> lenZ nl < 2 ^ 62 ->
  2 * lenZ nl + lenZ hl + 4 < Z.of_nat fuel ->
  strstr fuel h n m = Some (match find_sub nl hl with Some i => h + Z.of_nat i | None => 0 end, m).
Proof.
  intros Hok Hh Hn Hpos Hhl Hnl Hf. apply wp_elim. unfold strstr. wp_step. wp_step; [by apply cstring_head|].
  destruct nl as [|b nl]; [change (negb (truth 0)) with true; wp_step; split; [destruct hl; simpl; lia|done]|].
  pose proof (cs_nz _ _ _ Hn) as Hnz. pose proof (Forall_inv Hnz) as Hb. cbv beta in Hb. rewrite (proj2 (truth_true b) Hb). cbn [negb].
  assert (Hbb : is_byte b) by (pose proof (cs_bytes _ _ _ Hn) as [E _]; by eapply Hok).
  wp_step. eapply wp_mono; [apply wp_elim, (strchr_correct m h hl b); [done|done|lia]|]. intros r ? [-> ->]. rewrite wrap8_byte by done.
  pose proof (first_byte b nl hl) as Hfb. destruct (list_find (fun b' => b' = b) hl) as [[i b']|] eqn:E.
  - rewrite (list_find_app_l _ _ _ _ _ E). destruct Hfb as (Hi & Hl & ->). rewrite (proj2 (truth_true _)) by lia. cbn [negb].
    pose proof (cstring_drop m h hl i Hh ltac:(lia)) as Hd. set (hd := drop i hl) in *. assert (Ed : lenZ hd = lenZ hl - Z.of_nat i) by (unfold hd; rewrite length_drop; lia).
    eapply wp_mono; [apply (wp_strstr_from m n (h + Z.of_nat i) (b :: nl) hd); try (done || lia); [simpl; simpl in Hnl; lia|]|].
    + unfold letters_at. rewrite !Z.add_0_r. rewrite (cstring_head m n _ Hn). pose proof (cs_bytes _ _ _ Hh) as Hbs.
      rewrite (bytes_at_lookup m h (hl ++ [0]) i b); [done|done|]. by apply lookup_app_l_Some.
    + intros r ? [-> Hr]. split; [|done]. apply (result_find m n _ (b :: nl) hd) in Hr.
      * rewrite Hr. destruct (find_sub (b :: nl) hd); cbn [fmap option_fmap option_map]; lia.
      * pose proof (cs_bytes _ _ _ Hn) as Hbs. by apply bytes_at_app in Hbs as [? _].
      * pose proof (cs_bytes _ _ _ Hd) as Hbs. by apply bytes_at_app in Hbs as [? _].
      * done.
  - rewrite Hfb. rewrite list_find_app_r by done. cbn [list_find]. rewrite decide_False by done. cbn [fmap option_fmap option_map].
    change (negb (truth 0)) with true. by wp_step.
Qed.

Lemma wp_memmem_from m n h nl hl fuel :
  mem_ok m -> bytes_at m n nl -> bytes_at m h hl -> 2 <= lenZ nl < 2 ^ 62 -> lenZ hl < 2 ^ 62 ->
  2 * lenZ nl + lenZ hl + 4 < Z.of_nat fuel ->
  wp (memmem_from fuel h (lenZ hl) n (lenZ nl)) m (fun r m' => m' = m /\ result m n (lenZ nl) h (lenZ hl) r).
Proof.
  intros Hok Hn Hh Hnl Hhl Hf. unfold memmem_from.
  assert (Hnx : forall i, 0 <= i < lenZ nl -> m !! (n + i) = Some (letters_at m n i)) by (intros i Hi; by apply (letters_lookup m n nl)).
  assert (Hhx : forall i, 0 <= i < lenZ hl -> m !! (h + i) = Some (letters_at m h i)) by (intros i Hi; by apply (letters_lookup m h hl)).
  destruct (Z.ltb_spec (lenZ hl) (lenZ nl)); [wp_step; split; [done|by apply result_too_short]|].
  destruct (Z.eqb_spec (lenZ nl) 2); [by apply wp_twobyte_memmem; (done || lia)|].
  destruct (Z.eqb_spec (lenZ nl) 3); [by apply wp_threebyte_memmem; (done || lia)|].
  destruct (Z.eqb_spec (lenZ nl) 4); [by apply wp_fourbyte_memmem; (done || lia)|].
  apply wp_twoway_memmem; (done || lia).
Qed.

(** C8: [memmem] returns the address of the first occurrence of a block of
    bytes, zero bytes included, in another, or a null pointer, and reads no
    byte outside the two blocks. *)
Theorem memmem_correct m h n hl nl fuel :
  mem_ok m -> bytes_at m h hl -> bytes_at m n nl -> 0 < h -> lenZ hl < 2 ^ 62 -> lenZ nl < 2 ^ 62 ->
  2 * lenZ nl + lenZ hl + 4 < Z.of_nat fuel ->
  memmem fuel h (lenZ hl) n (lenZ nl) m = Some (match find_sub nl hl with Some i => h + Z.of_nat i | None => 0 end, m).
Proof.
  intros Hok Hh Hn Hpos Hhl Hnl Hf. apply wp_elim. unfold memmem.
  destruct nl as [|b nl]; [change (negb (truth (lenZ []))) with true; wp_step; split; [destruct hl; simpl; lia|done]|]. rewrite (proj2 (truth_true (lenZ (b :: nl)))) by (simpl; lia). cbn [negb].
  destruct (Z.ltb_spec (lenZ hl) (lenZ (b :: nl))) as [Hlt|Hge].
  { wp_step. split; [|done]. by apply (result_find m n h (b :: nl) hl 0 Hn Hh); [|apply result_too_short]. }
  pose proof Hn as [Hn0 _]. assert (Hbb : is_byte b) by (by eapply Hok). wp_step. wp_step; [done|]. wp_step.
  eapply wp_mono; [apply wp_memchr; [done|done|lia]|]. intros r ? [-> ->]. rewrite wrap8_byte by done.
  pose proof (first_byte b nl hl) as Hfb. destruct (list_find (fun b' => b' = b) hl) as [[i b']|] eqn:E; [|rewrite Hfb; change (negb (truth 0)) with true; cbn [orb]; by wp_step].
  destruct Hfb as (Hi & Hl & Hfind). rewrite (proj2 (truth_true _)) by lia. cbn [negb orb].
  pose proof Hh as Hd. rewrite <- (take_drop i hl) in Hd. apply bytes_at_app in Hd as [_ Hd]. rewrite length_take_le in Hd by lia.
  rewrite Hfind. set (hd := drop i hl) in *. assert (Ed : lenZ hd = lenZ hl - Z.of_nat i) by (unfold hd; rewrite length_drop; lia).
  destruct (Z.eqb_spec (lenZ (b :: nl)) 1) as [E1|E1].
  - wp_step. split; [|done]. destruct nl; [|simpl in E1; lia]. assert (hd = b :: drop (S i) hl) as -> by (unfold hd; by apply drop_S).
    cbn [find_sub length take]. rewrite bool_decide_eq_true_2 by done. cbn [fmap option_fmap option_map]. lia.
  - replace (wrap64 (lenZ hl - (h + Z.of_nat i - h))) with (lenZ hd) by (rewrite wrap_small; unfold in_range; lia).
    eapply wp_mono; [apply (wp_memmem_from m n (h + Z.of_nat i) (b :: nl) hd); try (done || lia); simpl in *; lia|].
    intros r ? [-> Hr]. split; [|done]. apply (result_find m n _ (b :: nl) hd) in Hr; [|done..].
    rewrite Hr. destruct (find_sub (b :: nl) hd); cbn [fmap option_fmap option_map]; lia.
Qed.

(** ** A periodic needle of six bytes in a haystack with near misses *)

Definition search_needle : list Z := [97; 97; 98; 97; 97; 98].
Definition search_hay : list Z := [97; 97; 98; 97; 97; 97; 97; 98; 97; 98; 97; 97; 98; 97; 97; 98; 97].
Definition search_mem : memory := mem_write (mem_write page 64 search_hay) 128 search_needle.

Lemma search_mem_ok : mem_ok search_mem.
Proof. unfold search_mem. do 2 (apply mem_ok_write; [|repeat apply List.Forall_cons; try apply List.Forall_nil; unfold in_range; lia]). apply page_ok. Qed.
Lemma search_mem_mapped p n : 64 <= p -> p + Z.of_nat n <= 192 -> mapped search_mem p n.
Proof. intros H1 H2. unfold search_mem. do 2 apply mapped_mem_write. by apply page_mapped. Qed.
Lemma hay_string : cstring search_mem 64 search_hay.
Proof. apply page_string; [apply search_mem_mapped|lia|cbn; lia|reflexivity|vm_compute; reflexivity]. Qed.
Lemma needle_string : cstring search_mem 128 search_needle.
Proof. apply page_string; [apply search_mem_mapped|lia|cbn; lia|reflexivity|vm_compute; reflexivity]. Qed.

Lemma strstr_witness : strstr 100 64 128 search_mem = Some (74, search_mem).
Proof.
  exact (strstr_correct search_mem 64 128 search_hay search_needle 100 search_mem_ok hay_string needle_string
    ltac:(lia) ltac:(cbn; lia) ltac:(cbn; lia) ltac:(cbn; lia)).
Defined.
Lemma memmem_witness : memmem 100 64 17 128 6 search_mem = Some (74, search_mem).
Proof.
  exact (memmem_correct search_mem 64 128 search_hay search_needle 100 search_mem_ok ltac:(repeat (split; [reflexivity|]); exact I)
    ltac:(repeat (split; [reflexivity|]); exact I) ltac:(lia) ltac:(cbn; lia) ltac:(cbn; lia) ltac:(cbn; lia)).
Defined.
