(* ===== verification/ShellIO.v ===== *)
(** * ShellIO: what the shell asks of the kernel, and its output

    The shell runs on system calls that are not part of the C sources; they
    are the fields of [kernel], functions on an abstract kernel state.  A
    computation of the shell either returns, ends the process ([exit]) or
    replaces it ([execve]).  The trace records the library calls with an
    outside effect in program order. *)

From S2P Require Import Prelude CMem.
From Stdlib Require Import String Ascii Strings.Byte.
From stdpp Require Import base tactics numbers list gmap.
Open Scope Z_scope.

(** ** Bytes of string literals *)

Definition bytes_of (s : string) : list Z :=
  (fun c => Z.of_N (N_of_ascii c)) <$> list_ascii_of_string s.
Definition NL : list Z := [10].
Definition byte_val (b : Byte.byte) : Z := Z.of_N (Byte.to_N b).

Lemma byte_vals_ok l : Forall is_byte (byte_val <$> l).
Proof.
  apply Forall_fmap, Forall_forall. intros b _. unfold compose, byte_val, in_range.
  pose proof (Byte.to_N_bounded b). lia.
Qed.

(** ** The kernel interface *)

(** A result or an [errno]. *)
Inductive sysres (A : Type) : Type :=
| Ok (a : A)
| Err (errno : Z).
Arguments Ok {A} a.
Arguments Err {A} errno.

Record kernel (K : Type) := {
  sys_opendir : list Z -> K -> sysres Z * K;
  sys_readdir : Z -> K -> option (Z * list Z) * K;  (* d_type, d_name *)
  sys_closedir : Z -> K -> K;
  sys_open : list Z -> K -> sysres Z * K;
  sys_read : Z -> Z -> K -> sysres (list Z) * K;
  sys_write : list Z -> K -> sysres Z * K;
  sys_close : Z -> K -> K;
  sys_fork : K -> Z * K;
  sys_execve : list Z -> list (list Z) -> K -> bool * K;  (* true: image replaced *)
  sys_waitpid : Z -> K -> K;
  sys_gettimeofday : K -> (Z * Z) * K;
  sys_getpid : K -> Z;
  sys_getppid : K -> Z
}.
Arguments sys_opendir {K}. Arguments sys_readdir {K}. Arguments sys_closedir {K}.
Arguments sys_open {K}. Arguments sys_read {K}. Arguments sys_write {K}.
Arguments sys_close {K}. Arguments sys_fork {K}. Arguments sys_execve {K}.
Arguments sys_waitpid {K}. Arguments sys_gettimeofday {K}.
Arguments sys_getpid {K}. Arguments sys_getppid {K}.

(** ** Traces and outcomes *)

Inductive event :=
| Printf (bytes : list Z)       (* buffered output through stdio *)
| Write (bytes : list Z)        (* bytes accepted by write(2) on stdout *)
| Forked (pid : Z)
| Waited (pid : Z).

Inductive outcome (A : Type) : Type :=
| Returns (a : A)
| Exits (code : Z)
| Execs (path : list Z) (argv : list (list Z)).
Arguments Returns {A} a.
Arguments Exits {A} code.
Arguments Execs {A} path argv.

Section io.
Context {K : Type} (sys : kernel K).

Record io := mk_io { io_k : K; io_stdin : list Byte.byte; io_trace : list event }.

Definition IO (A : Type) : Type := io -> option (outcome A * io).

#[global] Instance IO_ret : MRet IO := fun A a w => Some (Returns a, w).
#[global] Instance IO_bind : MBind IO := fun A B f c w =>
  match c w with
  | Some (Returns a, w') => f a w'
  | Some (Exits n, w') => Some (Exits n, w')
  | Some (Execs p v, w') => Some (Execs p v, w')
  | None => None
  end.

Definition call {A} (f : K -> A * K) : IO A := fun w =>
  let '(a, k) := f (io_k w) in Some (Returns a, mk_io k (io_stdin w) (io_trace w)).
Definition emit (e : event) : IO unit := fun w =>
  Some (Returns tt, mk_io (io_k w) (io_stdin w) (io_trace w ++ [e])).
Definition printf (b : list Z) : IO unit := emit (Printf b).
Definition exit {A} (code : Z) : IO A := fun w => Some (Exits code, w).
Definition execs {A} (p : list Z) (v : list (list Z)) : IO A := fun w => Some (Execs p v, w).

Fixpoint io_loop {S R} (fuel : nat) (body : S -> IO (S + R)) (s : S) : IO R :=
  match fuel with
  | O => fun _ => None
  | S fuel =>
      r ← body s;
      match r with inl s' => io_loop fuel body s' | inr v => mret v end
  end.

(** [fgets(s, n, stdin)]: the bytes of the next line, at most [n - 1] of
    them and the newline included; [None] at end of file. *)
Fixpoint take_line (n : nat) (l : list Byte.byte) : list Byte.byte * list Byte.byte :=
  match n, l with
  | S n, b :: l => if byte_val b =? 10 then ([b], l) else
                   let '(a, r) := take_line n l in (b :: a, r)
  | _, _ => ([], l)
  end.
Definition get_line (n : nat) : IO (option (list Z)) := fun w =>
  match io_stdin w with
  | [] => Some (Returns None, w)
  | _ => let '(a, r) := take_line n (io_stdin w) in
         Some (Returns (Some (byte_val <$> a)), mk_io (io_k w) r (io_trace w))
  end.

Lemma take_line_length n l : (length (take_line n l).1 <= n)%nat.
Proof.
  revert l. induction n as [|n IH]; intros [|b l]; simpl; try lia.
  destruct (_ =? _); simpl; [lia|]. specialize (IH l). destruct (take_line n l). simpl in *. lia.
Qed.

Lemma get_line_spec n w a w' :
  get_line n w = Some (Returns a, w') ->
  forall line, a = Some line -> (length line <= n)%nat /\ Forall is_byte line.
Proof.
  unfold get_line. intros H line ->. destruct (io_stdin w) as [|b l]; [done|].
  pose proof (take_line_length n (b :: l)) as Hlen. destruct (take_line n (b :: l)) as [x r].
  injection H as <- <-. split; [by rewrite length_fmap|apply byte_vals_ok].
Qed.
End io.
Arguments io : clear implicits.
Arguments mk_io {K}.
Arguments io_k {K}. Arguments io_stdin {K}. Arguments io_trace {K}.
Arguments IO : clear implicits.

(** ** printf conversions *)

(** [%d] / [%ld] *)
Fixpoint dec_digits (fuel : nat) (n : Z) (acc : list Z) : list Z :=
  match fuel with
  | O => acc
  | S fuel =>
      let acc := 48 + n `mod` 10 :: acc in
      if n / 10 =? 0 then acc else dec_digits fuel (n / 10) acc
  end.
Definition fmt_d (n : Z) : list Z :=
  if n <? 0 then 45 :: dec_digits 20 (- n) [] else dec_digits 20 n [].
(** [%06ld] *)
Definition fmt_06d (n : Z) : list Z :=
  let d := dec_digits 20 (Z.abs n) [] in
  let sign := if n <? 0 then [45] else [] in
  sign ++ replicate (6 - length sign - length d) 48 ++ d.

(** ** Memory on top of I/O *)

Section sh.
Context {K : Type}.

(** The shell's memory and the static pointer of [strtok]. *)
Record local := mk_local { lmem : memory; strtok_p : Z }.

Definition Sh (A : Type) : Type := local -> io K -> option (outcome A * local * io K).

#[global] Instance Sh_ret : MRet Sh := fun A a s w => Some (Returns a, s, w).
#[global] Instance Sh_bind : MBind Sh := fun A B f c s w =>
  match c s w with
  | Some (Returns a, s', w') => f a s' w'
  | Some (Exits n, s', w') => Some (Exits n, s', w')
  | Some (Execs p v, s', w') => Some (Execs p v, s', w')
  | None => None
  end.

Definition mem {A} (c : C A) : Sh A := fun s w =>
  match c (lmem s) with
  | Some (a, m) => Some (Returns a, mk_local m (strtok_p s), w)
  | None => None
  end.
Definition lift {A} (c : IO K A) : Sh A := fun s w =>
  match c w with Some (o, w') => Some (o, s, w') | None => None end.
Definition get_p : Sh Z := fun s w => Some (Returns (strtok_p s), s, w).
Definition set_p (p : Z) : Sh unit := fun s w =>
  Some (Returns tt, mk_local (lmem s) p, w).

Fixpoint sh_loop {S R} (fuel : nat) (body : S -> Sh (S + R)) (s : S) : Sh R :=
  match fuel with
  | O => fun _ _ => None
  | S fuel =>
      r ← body s;
      match r with inl s' => sh_loop fuel body s' | inr v => mret v end
  end.

(** ** Refinement: the memory-level code runs without undefined behaviour
    and does what the I/O specification does, and the local state it leaves
    satisfies [P]; the code runs out of the bound of a loop exactly where the
    specification does. *)

Definition refines {A} (c : Sh A) (s : local) (sp : IO K A) (P : A -> local -> Prop) : Prop :=
  forall w, match sp w with
    | None => c s w = None
    | Some (o, w') => exists s', c s w = Some (o, s', w') /\
        forall a, o = Returns a -> P a s'
    end.

Lemma refines_ret {A} (a : A) s (P : A -> local -> Prop) :
  P a s -> refines (mret a) s (mret a) P.
Proof. intros HP w. exists s. split; [done|]. by intros ? [= <-]. Qed.

Lemma refines_lift {A} (c : IO K A) s (P : A -> local -> Prop) :
  (forall a, P a s) -> refines (lift c) s c P.
Proof. intros HP w. unfold lift. destruct (c w) as [[o w']|]; [|done]. eauto. Qed.

Lemma refines_lift_post {A} (c : IO K A) s (P : A -> local -> Prop) :
  (forall w a w', c w = Some (Returns a, w') -> P a s) -> refines (lift c) s c P.
Proof. intros HP w. unfold lift. destruct (c w) as [[o w']|] eqn:E; [|done]. naive_solver. Qed.

Lemma refines_mem {A B} (c : C A) (k : A -> Sh B) s sp (P : B -> local -> Prop) :
  wp c (lmem s) (fun a m' => refines (k a) (mk_local m' (strtok_p s)) sp P) ->
  refines (mem c ≫= k) s sp P.
Proof.
  unfold wp. intros H w. unfold mbind, Sh_bind, mem.
  destruct (c (lmem s)) as [[a m']|]; [|done]. apply H.
Qed.

Lemma refines_bind {A B} (c : Sh A) (k : A -> Sh B) s (sp1 : IO K A) (sp2 : A -> IO K B)
    (P : A -> local -> Prop) (Q : B -> local -> Prop) :
  refines c s sp1 P -> (forall a s', P a s' -> refines (k a) s' (sp2 a) Q) ->
  refines (c ≫= k) s (sp1 ≫= sp2) Q.
Proof.
  intros Hc Hk w. specialize (Hc w). unfold mbind, Sh_bind, IO_bind.
  destruct (sp1 w) as [[[a|n|p v] w']|].
  - destruct Hc as (s' & -> & HP). apply Hk. by apply HP.
  - destruct Hc as (s' & -> & _). by eexists.
  - destruct Hc as (s' & -> & _). by eexists.
  - by rewrite Hc.
Qed.

Lemma refines_run {A B} (c : Sh A) (k : A -> Sh B) s sp (P : B -> local -> Prop) a s' :
  (forall w, c s w = Some (Returns a, s', w)) -> refines (k a) s' sp P -> refines (c ≫= k) s sp P.
Proof. intros Hc Hk w. unfold mbind, Sh_bind. rewrite Hc. apply Hk. Qed.

Lemma refines_bind_assoc {A B D} (c : Sh A) (f : A -> Sh B) (k : B -> Sh D) s sp
    (P : D -> local -> Prop) :
  refines (c ≫= (fun x => f x ≫= k)) s sp P -> refines ((c ≫= f) ≫= k) s sp P.
Proof.
  intros H w. specialize (H w). unfold mbind, Sh_bind in *.
  by destruct (c s w) as [[[[]?]?]|].
Qed.

Lemma refines_get_p {B} (k : Z -> Sh B) s sp (P : B -> local -> Prop) :
  refines (k (strtok_p s)) s sp P -> refines (get_p ≫= k) s sp P.
Proof. done. Qed.

Lemma refines_set_p {B} p (k : unit -> Sh B) s sp (P : B -> local -> Prop) :
  refines (k tt) (mk_local (lmem s) p) sp P -> refines (set_p p ≫= k) s sp P.
Proof. done. Qed.

Lemma refines_mono {A} (c : Sh A) s sp (P Q : A -> local -> Prop) :
  refines c s sp P -> (forall a s', P a s' -> Q a s') -> refines c s sp Q.
Proof.
  intros H HPQ w. specialize (H w). destruct (sp w) as [[o w']|]; [|done].
  destruct H as (s' & -> & HP). eauto.
Qed.

(** A loop that only reads and changes memory refines [mret]: its rule. *)
Lemma refines_sh_loop {S R B} (I : S -> local -> Prop) (meas : S -> nat)
    (body : S -> Sh (S + R)) (k : R -> Sh B) (sp : IO K B) (Q : B -> local -> Prop) fuel st s :
  (forall st s, I st s -> exists r s', (forall w, body st s w = Some (Returns r, s', w)) /\
     match r with
     | inl st' => I st' s' /\ (meas st' < meas st)%nat
     | inr v => refines (k v) s' sp Q
     end) ->
  I st s -> (meas st < fuel)%nat -> refines (sh_loop fuel body st ≫= k) s sp Q.
Proof.
  intros Hbody. revert st s. induction fuel as [|fuel IH]; intros st s HI Hf; [lia|].
  destruct (Hbody st s HI) as ([st'|v] & s' & Hstep & Hr); intros w.
  - destruct Hr as [HI' Hm]. specialize (IH st' s' HI' ltac:(lia) w).
    unfold mbind, Sh_bind in *. simpl. unfold mbind, Sh_bind. by rewrite Hstep.
  - specialize (Hr w). unfold mbind, Sh_bind in *. simpl. unfold mbind, Sh_bind.
    by rewrite Hstep.
Qed.
End sh.
Arguments Sh : clear implicits.
Arguments local : clear implicits.
