(* ===== verification/Shell.v ===== *)
(** * Shell: the Rux C shell, userspace/shell/src/shell.c

    The command interpreter of the system: prompt, line input, tokenizing
    with [strtok], the builtins, and fork/execve/waitpid for programs.  The
    code works on memory (the line buffer, the path buffer, string literals)
    through the models of musl's string functions; [dispatch] is the
    specification of a command on byte lists, and the refinement theorems
    show that the code implements it. *)

From S2P Require Import Prelude CMem StrScan MemBlock StrCopy StrTok ShellIO.
From Stdlib Require Import String Ascii.
From stdpp Require Import base tactics numbers list gmap.
Open Scope Z_scope.

Definition MAX_CMD_LEN : Z := 256.
Definition MAX_ARGS : nat := 16.

(** dirent.h *)
Definition DT_FIFO : Z := 1.
Definition DT_CHR : Z := 2.
Definition DT_DIR : Z := 4.
Definition DT_BLK : Z := 6.
Definition DT_REG : Z := 8.
Definition DT_LNK : Z := 10.
Definition DT_SOCK : Z := 12.

(** The string literals the code compares with. *)
Inductive lit := L_sep | L_echo | L_help | L_exit | L_quit | L_time | L_pid | L_ls | L_cat.

Definition lit_bytes (x : lit) : list Z :=
  match x with
  | L_sep => [32; 9; 10]
  | L_echo => bytes_of "echo" | L_help => bytes_of "help" | L_exit => bytes_of "exit"
  | L_quit => bytes_of "quit" | L_time => bytes_of "time" | L_pid => bytes_of "pid"
  | L_ls => bytes_of "ls" | L_cat => bytes_of "cat"
  end.

Definition lit_index (x : lit) : Z :=
  match x with
  | L_sep => 0 | L_echo => 1 | L_help => 2 | L_exit => 3 | L_quit => 4
  | L_time => 5 | L_pid => 6 | L_ls => 7 | L_cat => 8
  end.

Section shell.
Context {K : Type} (sys : kernel K).
(** Fuel for the loops of the string functions. *)
Context (fuel : nat).
(** The line buffer of [main], the path buffer of [execute_command] and the
    address of the literals, each in a slot of eight bytes. *)
Context (cmd_buf path_buf rodata : Z).

Definition lit_addr (x : lit) : Z := rodata + 8 * lit_index x.

(** ** Output *)

Definition print_welcome : IO K unit :=
  printf NL;;
  printf (bytes_of "========================================" ++ NL);;
  printf (bytes_of "  Rux OS Shell v0.3 (musl libc)" ++ NL);;
  printf (bytes_of "========================================" ++ NL);;
  printf (bytes_of "Type 'help' for available commands" ++ NL);;
  printf NL.

Definition print_help : IO K unit :=
  printf (bytes_of "Rux OS Shell v0.3" ++ NL);;
  printf (bytes_of "Available commands:" ++ NL);;
  printf (bytes_of "  echo <args>  - Print arguments" ++ NL);;
  printf (bytes_of "  help         - Show this help message" ++ NL);;
  printf (bytes_of "  ls [dir]     - List directory contents" ++ NL);;
  printf (bytes_of "  cat <file>   - Display file contents" ++ NL);;
  printf (bytes_of "  time         - Show current time" ++ NL);;
  printf (bytes_of "  pid          - Show process ID" ++ NL);;
  printf (bytes_of "  exit         - Exit the shell" ++ NL);;
  printf (bytes_of "  <program>    - Execute external program" ++ NL);;
  printf NL.

(** ** Builtins and programs, on the bytes of their arguments *)

Definition type_char (d_type : Z) : Z :=
  if d_type =? DT_DIR then 100 else
  if d_type =? DT_REG then 45 else
  if d_type =? DT_LNK then 108 else
  if d_type =? DT_BLK then 98 else
  if d_type =? DT_CHR then 99 else
  if d_type =? DT_FIFO then 112 else
  if d_type =? DT_SOCK then 115 else 63.

(** [None] stands for a null argument. *)
Definition cmd_ls (n : nat) (dirname : option (list Z)) : IO K unit :=
  let path := default (bytes_of ".") dirname in
  dir ← call (sys_opendir sys path);
  match dir with
  | Err errno =>
      printf (bytes_of "ls: cannot open directory '" ++ path ++ bytes_of "': " ++ fmt_d errno ++ NL)
  | Ok dir =>
      printf (bytes_of "Contents of " ++ path ++ bytes_of ":" ++ NL);;
      io_loop n (fun _ : unit =>
        entry ← call (sys_readdir sys dir);
        match entry with
        | None => mret (inr tt)
        | Some (d_type, d_name) =>
            printf (bytes_of "  " ++ [type_char d_type] ++ bytes_of " " ++ d_name ++ NL);;
            mret (inl tt)
        end) tt;;
      call (fun k => (tt, sys_closedir sys dir k))
  end.

(** The inner loop of [cmd_cat]: write all of [buf]; [false] on an error,
    which has been reported. *)
Definition write_all (n : nat) (fd : Z) (buf : list Z) : IO K bool :=
  io_loop n (fun bytes_written : nat =>
    if (bytes_written <? length buf)%nat then
      r ← call (sys_write sys (drop bytes_written buf));
      match r with
      | Err errno =>
          printf (NL ++ bytes_of "cat: write error: " ++ fmt_d errno ++ NL);;
          call (fun k => (tt, sys_close sys fd k));;
          mret (inr false)
      | Ok k =>
          emit (Write (take (Z.to_nat k) (drop bytes_written buf)));;
          mret (inl (bytes_written + Z.to_nat k)%nat)
      end
    else mret (inr true)) 0%nat.

Definition cmd_cat (n : nat) (filename : option (list Z)) : IO K unit :=
  match filename with
  | None =>
      printf (bytes_of "cat: missing file operand" ++ NL);;
      printf (bytes_of "Usage: cat <filename>" ++ NL)
  | Some filename =>
      fd ← call (sys_open sys filename);
      match fd with
      | Err errno =>
          printf (bytes_of "cat: cannot open '" ++ filename ++ bytes_of "': " ++ fmt_d errno ++ NL)
      | Ok fd =>
          r ← io_loop n (fun _ : unit =>
              r ← call (sys_read sys fd 512);
              match r with
              | Err errno => mret (inr (Some (Err errno)))
              | Ok [] => mret (inr (Some (Ok tt)))
              | Ok buf =>
                  ok ← write_all n fd buf;
                  mret (if (ok : bool) then inl tt else inr None)
              end) tt;
          match r with
          | None => mret tt
          | Some r =>
              (match r with
               | Err errno => printf (NL ++ bytes_of "cat: read error: " ++ fmt_d errno ++ NL)
               | Ok _ => mret tt
               end);;
              call (fun k => (tt, sys_close sys fd k))
          end
      end
  end.

Definition run_external (path : list Z) (argv : list (list Z)) : IO K Z :=
  pid ← call (sys_fork sys);
  emit (Forked pid);;
  if pid <? 0 then
    printf (bytes_of "fork failed" ++ NL);; mret (-1)
  else if pid =? 0 then
    replaced ← call (sys_execve sys path argv);
    if (replaced : bool) then execs path argv else
    printf (bytes_of "execve failed: " ++ path ++ NL);;
    exit 1
  else
    call (fun k => (tt, sys_waitpid sys pid k));;
    emit (Waited pid);;
    mret 0.

(** ** execute_command *)

(** The bytes of the C string at [p]. *)
Definition read_cstr (p : Z) : C (list Z) :=
  loop fuel (fun '(p, l) =>
    b ← load8 p;
    if truth b then mret (inl (p + 1, l ++ [b])) else mret (inr l)) (p, []).

(** The bytes [l] from [p] on, one store each. *)
Fixpoint store_bytes (p : Z) (l : list Z) : C unit :=
  match l with
  | [] => mret tt
  | b :: l => store8 p b;; store_bytes (p + 1) l
  end.

(** [snprintf(path, sizeof(path), "/bin/%s", s)] *)
Definition snprintf_bin (path s : Z) : C unit :=
  l ← read_cstr s;
  store_bytes path (take 255 (bytes_of "/bin/" ++ l) ++ [0]).

(** The C strings of an argument array, up to its null pointer; [None]
    stands for an array element that has not been assigned. *)
Fixpoint read_argv (args : list (option Z)) : C (list (list Z)) :=
  match args with
  | Some p :: args =>
      if p =? 0 then mret [] else
      s ← read_cstr p; v ← read_argv args; mret (s :: v)
  | _ => undef
  end.

Definition arg (args : list (option Z)) (i : nat) : C Z :=
  match args !! i with Some (Some p) => mret p | _ => undef end.

Definition is_command (p : Z) (x : lit) : C bool :=
  r ← strcmp fuel p (lit_addr x); mret (r =? 0).

Definition strtok_call (s : Z) : Sh K Z :=
  p ← get_p;
  '(t, p) ← mem (strtok fuel s (lit_addr L_sep) p);
  set_p p;;
  mret t.

Definition opt_cstr (p : Z) : C (option (list Z)) :=
  if p =? 0 then mret None else l ← read_cstr p; mret (Some l).

(** The path of the program [a0] names: copied when it starts with ['/']
    or ['.'], else under /bin. *)
Definition fill_path (a0 : Z) : C unit :=
  c ← load8 a0;
  if (c =? 47) || (c =? 46) then strncpy fuel path_buf a0 (256 - 1);; mret tt
  else snprintf_bin path_buf a0.

(** The part of [execute_command] after the argument array is filled. *)
Definition run_command (n : nat) (args : list (option Z)) (argc : nat) : Sh K unit :=
  a0 ← mem (arg args 0);
  is_echo ← mem (is_command a0 L_echo);
  if (is_echo : bool) then
    sh_loop fuel (fun i =>
      if (i <? argc)%nat then
        p ← mem (arg args i);
        l ← mem (read_cstr p);
        lift (printf l);;
        (if (i <? argc - 1)%nat then lift (printf (bytes_of " ")) else mret tt);;
        mret (inl (S i))
      else mret (inr tt)) 1%nat;;
    lift (printf NL)
  else
  is_help ← mem (is_command a0 L_help);
  if (is_help : bool) then lift print_help else
  is_exit ← mem (is_command a0 L_exit);
  is_quit ← (if (is_exit : bool) then mret true else mem (is_command a0 L_quit));
  if (is_quit : bool) then
    lift (printf (bytes_of "Goodbye!" ++ NL));; lift (exit 0)
  else
  is_time ← mem (is_command a0 L_time);
  if (is_time : bool) then
    '(sec, usec) ← lift (call (sys_gettimeofday sys));
    lift (printf (bytes_of "Current time: " ++ fmt_d sec ++ bytes_of "." ++ fmt_06d usec ++
                  bytes_of " seconds since epoch" ++ NL))
  else
  is_pid ← mem (is_command a0 L_pid);
  if (is_pid : bool) then
    pid ← lift (call (fun k => (sys_getpid sys k, k)));
    lift (printf (bytes_of "PID: " ++ fmt_d pid ++ NL));;
    ppid ← lift (call (fun k => (sys_getppid sys k, k)));
    lift (printf (bytes_of "PPID: " ++ fmt_d ppid ++ NL))
  else
  is_ls ← mem (is_command a0 L_ls);
  if (is_ls : bool) then
    p ← (if (1 <? argc)%nat then mem (arg args 1) else mret 0);
    d ← mem (opt_cstr p);
    lift (cmd_ls n d)
  else
  is_cat ← mem (is_command a0 L_cat);
  if (is_cat : bool) then
    p ← (if (1 <? argc)%nat then mem (arg args 1) else mret 0);
    f ← mem (opt_cstr p);
    lift (cmd_cat n f)
  else
  mem (fill_path a0);;
  path ← mem (read_cstr path_buf);
  argv ← mem (read_argv args);
  lift (run_external path argv);;
  mret tt.

Definition execute_command (n : nat) (cmd : Z) : Sh K unit :=
  cmd ← mem (loop fuel (fun cmd =>
      b ← load8 cmd;
      if (b =? 32) || (b =? 9) then mret (inl (cmd + 1)) else mret (inr cmd)) cmd);
  b ← mem (load8 cmd);
  if b =? 0 then mret tt else
  token ← strtok_call cmd;
  '(args, argc) ← sh_loop fuel (fun '(token, args, argc) =>
      if truth token && (argc <? MAX_ARGS - 1)%nat then
        let args := <[argc := Some token]> args in
        token ← strtok_call 0;
        mret (inl (token, args, S argc))
      else mret (inr (args, argc)))
    (token, replicate MAX_ARGS None, 0%nat);
  let args : list (option Z) := <[argc := Some 0]> args in
  if (argc =? 0)%nat then mret tt else
  run_command n args argc.

(** ** main *)

(** [fgets(cmd, sizeof(cmd), stdin)] *)
Definition fgets_cmd : Sh K bool :=
  r ← lift (get_line (Z.to_nat (MAX_CMD_LEN - 1)));
  match r with
  | None => mret false
  | Some line => mem (store_bytes cmd_buf (line ++ [0]));; mret true
  end.

Definition main_step (n : nat) : Sh K (unit + Z) :=
  lift (printf (bytes_of "rux> "));;
  ok ← fgets_cmd;
  if negb ok then mret (inr 0) else
  len ← mem (strlen fuel cmd_buf);
  (if 0 <? len then
     b ← mem (load8 (cmd_buf + len - 1));
     if b =? 10 then mem (store8 (cmd_buf + len - 1) 0) else mret tt
   else mret tt);;
  execute_command n cmd_buf;;
  mret (inl tt).

Definition main (n lines : nat) : Sh K Z :=
  lift print_welcome;;
  sh_loop lines (fun _ : unit => main_step n) tt.

(** ** The specification *)

Definition bytes_eqb (l1 l2 : list Z) : bool := bool_decide (l1 = l2).

Fixpoint echo_args (l : list (list Z)) : IO K unit :=
  match l with
  | [] => mret tt
  | [a] => printf a
  | a :: l => printf a;; printf (bytes_of " ");; echo_args l
  end.

(** The program to run for a command word. A word of 255 bytes that starts
    with ['/'] or ['.'] fills the path buffer without a NUL (shell.c:211), so
    that the path goes on with the string [junk] that the memory happens to
    hold from the last byte of the buffer on. *)
Definition names_file (a0 : list Z) : bool := bool_decide (head a0 = Some 47) || bool_decide (head a0 = Some 46).
Definition resolve (junk a0 : list Z) : list Z :=
  if names_file a0 then take 255 a0 ++ (if (length a0 <? 255)%nat then [] else junk)
  else take 255 (bytes_of "/bin/" ++ a0).

(** The string at the last byte of the path buffer after a command: a path
    under /bin that has to be cut leaves a NUL there (no builtin is that
    long). *)
Definition leaves (junk : list Z) (argv : list (list Z)) : list Z :=
  match argv with
  | [] => junk
  | a0 :: _ =>
      if names_file a0 || (length (bytes_of "/bin/" ++ a0) <? 255)%nat then junk else []
  end.

(** What a command does, from its argument vector. *)
Definition dispatch (junk : list Z) (n : nat) (argv : list (list Z)) : IO K unit :=
  match argv with
  | [] => mret tt
  | a0 :: rest =>
      if bytes_eqb a0 (bytes_of "echo") then echo_args rest;; printf NL
      else if bytes_eqb a0 (bytes_of "help") then print_help
      else if bytes_eqb a0 (bytes_of "exit") || bytes_eqb a0 (bytes_of "quit") then
        printf (bytes_of "Goodbye!" ++ NL);; exit 0
      else if bytes_eqb a0 (bytes_of "time") then
        '(sec, usec) ← call (sys_gettimeofday sys);
        printf (bytes_of "Current time: " ++ fmt_d sec ++ bytes_of "." ++ fmt_06d usec ++
                bytes_of " seconds since epoch" ++ NL)
      else if bytes_eqb a0 (bytes_of "pid") then
        pid ← call (fun k => (sys_getpid sys k, k));
        printf (bytes_of "PID: " ++ fmt_d pid ++ NL);;
        ppid ← call (fun k => (sys_getppid sys k, k));
        printf (bytes_of "PPID: " ++ fmt_d ppid ++ NL)
      else if bytes_eqb a0 (bytes_of "ls") then cmd_ls n (head rest)
      else if bytes_eqb a0 (bytes_of "cat") then cmd_cat n (head rest)
      else run_external (resolve junk a0) argv;; mret tt
  end.

(** The argument vector of a command line: its first 15 words. *)
Definition parse (line : list Z) : list (list Z) :=
  take (MAX_ARGS - 1) (tokens (lit_bytes L_sep) line).

(** A session: prompt, line (up to a NUL byte, if it has one), command;
    until the end of the input. *)
Fixpoint session_loop (n lines : nat) (junk : list Z) : IO K Z :=
  match lines with
  | O => fun _ => None
  | S lines =>
      printf (bytes_of "rux> ");;
      r ← get_line 255;
      match r with
      | None => mret 0
      | Some line =>
          let argv := parse (take (span truth line) line) in
          dispatch junk n argv;; session_loop n lines (leaves junk argv)
      end
  end.

Definition session (junk : list Z) (n lines : nat) : IO K Z :=
  print_welcome;; session_loop n lines junk.
End shell.
