(* ===== verification/ShellRun.v ===== *)
(** * ShellRun: what a session does to processes, and that it ends

    Two logics for the I/O monad of the shell, each with a rule per
    combinator. [traced]: the events of a computation are those of a shell
    that forks, waits and never comes back from the child. [ends]: a
    computation finishes, and keeps a property of the world; a session ends
    where directories and files do. *)

From S2P Require Import Prelude CMem ShellIO Shell.
From Stdlib Require Import String Ascii Lia.
From stdpp Require Import base tactics numbers list.
Open Scope Z_scope.

(** ** Processes *)

(** The events of the shell's own process: it waits for every child, at once
    and for that child only. *)
Fixpoint parent (tr : list event) : bool :=
  match tr with
  | [] => true
  | Forked pid :: tr =>
      if pid =? 0 then false
      else if pid <? 0 then parent tr
      else match tr with Waited p :: tr => (p =? pid) && parent tr | _ => false end
  | Waited _ :: _ => false
  | _ :: tr => parent tr
  end.

(** How a run that made the events [tr] ends: in the shell's process with a
    return or [exit(0)]; in a child, right after it was forked, by becoming
    the program or, when that failed, by a message and [exit(1)]. *)
Definition run_ok {A} (o : outcome A) (tr : list event) : Prop :=
  match o with
  | Returns _ => parent tr = true
  | Exits code =>
      code = 0 /\ parent tr = true \/
      code = 1 /\ exists pre msg, tr = pre ++ [Forked 0; Printf msg] /\ parent pre = true
  | Execs _ _ => exists pre, tr = pre ++ [Forked 0] /\ parent pre = true
  end.

Lemma parent_app tr1 tr2 : parent tr1 = true -> parent tr2 = true -> parent (tr1 ++ tr2) = true.
Proof.
  intros H1 H2. remember (length tr1) as n eqn:En. assert (length tr1 <= n)%nat as Hn by lia. clear En. revert tr1 H1 Hn.
  induction n as [|n IH]; intros [|e tr1] H1 Hn; [done|simpl in Hn; lia|done|]. simpl in Hn. destruct e as [b|b|pid|pid]; simpl in *; [apply IH; [done|lia]..| |done].
  destruct (pid =? 0); [done|]. destruct (pid <? 0); [apply IH; [done|lia]|].
  destruct tr1 as [|[b|b|p|p] tr1]; try done. simpl in *. apply andb_true_iff in H1 as [-> H1]. apply IH; [done|lia].
Qed.

Lemma run_ok_app {A B} tr1 tr2 (a : A) (o : outcome B) : run_ok (Returns a) tr1 -> run_ok o tr2 -> run_ok o (tr1 ++ tr2).
Proof.
  intros H1. destruct o as [b|code|p v]; simpl in *.
  - by apply parent_app.
  - intros [[-> H2]|(-> & pre & msg & -> & H2)]; [left; split; [done|by apply parent_app]|right; split; [done|]].
    exists (tr1 ++ pre), msg. split; [by rewrite app_assoc|by apply parent_app].
  - intros (pre & -> & H2). exists (tr1 ++ pre). split; [by rewrite app_assoc|by apply parent_app].
Qed.

Section traced.
Context {K : Type} (sys : kernel K).

Definition traced {A} (c : IO K A) : Prop :=
  forall w o w', c w = Some (o, w') -> exists tr, io_trace w' = io_trace w ++ tr /\ run_ok o tr.

Lemma traced_ret {A} (a : A) : traced (mret a).
Proof. intros w o w' [= <- <-]. exists []. by rewrite app_nil_r. Qed.
Lemma traced_none {A} : traced (fun _ : io K => @None (outcome A * io K)).
Proof. done. Qed.
Lemma traced_bind {A B} (c : IO K A) (k : A -> IO K B) : traced c -> (forall a, traced (k a)) -> traced (c ≫= k).
Proof.
  intros Hc Hk w o w' E. unfold mbind, IO_bind in E. destruct (c w) as [[[a|n|p v] w1]|] eqn:E1; [|injection E as <- <-..|done].
  - destruct (Hc _ _ _ E1) as (tr1 & Et1 & H1), (Hk a _ _ _ E) as (tr2 & Et2 & H2). exists (tr1 ++ tr2).
    split; [by rewrite Et2, Et1, app_assoc|by eapply run_ok_app].
  - exact (Hc _ _ _ E1).
  - exact (Hc _ _ _ E1).
Qed.
Lemma traced_call {A} (f : K -> A * K) : traced (call f).
Proof. intros w o w' E. unfold call in E. destruct (f (io_k w)) as [a k]. injection E as <- <-. exists []. by rewrite app_nil_r. Qed.
Lemma traced_emit e : parent [e] = true -> traced (emit (K := K) e).
Proof. intros He w o w' E. injection E as <- <-. by exists [e]. Qed.
Lemma traced_exit {A} : traced (exit (K := K) (A := A) 0).
Proof. intros w o w' [= <- <-]. exists []. split; [by rewrite app_nil_r|by left]. Qed.
Lemma traced_line n : traced (get_line (K := K) n).
Proof.
  intros w o w' E. unfold get_line in E. destruct (io_stdin w); [injection E as <- <-; exists []; by rewrite app_nil_r|].
  destruct (take_line _ _). injection E as <- <-. exists []. by rewrite app_nil_r.
Qed.
Lemma traced_loop {S R} n (body : S -> IO K (S + R)) s : (forall s, traced (body s)) -> traced (io_loop n body s).
Proof. intros Hb. revert s. induction n as [|n IH]; intros s; simpl; [done|]. apply traced_bind; [done|]. intros [s'|v]; [apply IH|apply traced_ret]. Qed.

(** The only command that makes processes. *)
Lemma traced_run_external path argv : traced (run_external sys path argv).
Proof.
  intros w o w'. unfold run_external, mbind, IO_bind, call. simpl. destruct (sys_fork sys (io_k w)) as [pid k]. simpl.
  destruct (Z.ltb_spec pid 0) as [Hn|Hn]; simpl.
  { intros [= <- <-]. simpl. exists [Forked pid; Printf (bytes_of "fork failed" ++ NL)]. rewrite <- app_assoc. split; [done|]. simpl.
    destruct (Z.eqb_spec pid 0); [lia|]. by destruct (Z.ltb_spec pid 0); [|lia]. }
  destruct (Z.eqb_spec pid 0) as [->|Hz]; simpl.
  - destruct (sys_execve sys path argv k) as [[] k']; simpl; intros [= <- <-]; simpl; [by exists [Forked 0]; split; [|by exists []]|].
    eexists [Forked 0; Printf _]. rewrite <- app_assoc. split; [done|]. right. split; [done|]. by exists [], (bytes_of "execve failed: " ++ path ++ NL).
  - intros [= <- <-]. simpl. exists [Forked pid; Waited pid]. rewrite <- app_assoc. split; [done|]. simpl.
    destruct (Z.eqb_spec pid 0); [done|]. destruct (Z.ltb_spec pid 0); [lia|]. by rewrite Z.eqb_refl.
Qed.
End traced.

Create HintDb traced.
#[export] Hint Resolve traced_ret traced_none traced_call traced_exit traced_line traced_run_external : traced.
#[export] Hint Extern 1 (traced (emit _)) => by apply traced_emit : traced.
#[export] Hint Extern 1 (traced (printf _)) => by apply traced_emit : traced.
Ltac traced := repeat first
  [ solve [auto with traced]
  | apply traced_bind; [|intros ?]
  | apply traced_loop; intros ?
  | match goal with |- traced (match ?x with _ => _ end) => destruct x end ].

Section sessions.
Context {K : Type} (sys : kernel K).

Lemma traced_ls n name : traced (cmd_ls sys n name).
Proof. unfold cmd_ls. traced. Qed.
Lemma traced_cat n name : traced (cmd_cat sys n name).
Proof. unfold cmd_cat, write_all. traced. Qed.
Lemma traced_echo l : traced (echo_args (K := K) l).
Proof. induction l as [|a [|b l] IH]; simpl; traced. Qed.
Lemma traced_dispatch junk n argv : traced (dispatch sys junk n argv).
Proof. unfold dispatch, print_help. pose proof traced_ls. pose proof traced_cat. pose proof traced_echo. traced. Qed.
Lemma traced_session junk n lines : traced (session sys junk n lines).
Proof.
  unfold session. apply traced_bind; [unfold print_welcome; traced|]. intros _. revert junk. induction lines as [|lines IH]; intros junk; cbn [session_loop]; [done|].
  pose proof traced_dispatch. traced.
Qed.
End sessions.

(** ** Termination *)

(** A kernel on which every directory and every file comes to an end within
    [n] entries and bytes: [Inv] holds of its states, [entries] and
    [bytes_left] count what is left of an open directory and of an open file,
    reads make them fewer, and a write that succeeds takes at least a byte. *)
Record finite_kernel {K} (sys : kernel K) (n : nat) (Inv : K -> Prop) (entries bytes_left : Z -> K -> nat) : Prop := {
  fk_opendir p k r k' : Inv k -> sys_opendir sys p k = (r, k') -> Inv k' /\ forall d, r = Ok d -> (entries d k' < n)%nat;
  fk_readdir d k r k' : Inv k -> sys_readdir sys d k = (r, k') -> Inv k' /\ (r <> None -> (entries d k' < entries d k)%nat);
  fk_closedir d k : Inv k -> Inv (sys_closedir sys d k);
  fk_open p k r k' : Inv k -> sys_open sys p k = (r, k') -> Inv k' /\ forall fd, r = Ok fd -> (bytes_left fd k' < n)%nat;
  fk_read fd k r k' : Inv k -> sys_read sys fd 512 k = (r, k') ->
    Inv k' /\ forall buf, r = Ok buf -> (length buf < n)%nat /\ (buf <> [] -> (bytes_left fd k' < bytes_left fd k)%nat);
  fk_write b k r k' : Inv k -> b <> [] -> sys_write sys b k = (r, k') ->
    Inv k' /\ (forall c, r = Ok c -> 1 <= c) /\ forall fd, bytes_left fd k' = bytes_left fd k;
  fk_close fd k : Inv k -> Inv (sys_close sys fd k);
  fk_fork k : Inv k -> Inv (sys_fork sys k).2;
  fk_execve p v k : Inv k -> Inv (sys_execve sys p v k).2;
  fk_waitpid p k : Inv k -> Inv (sys_waitpid sys p k);
  fk_time k : Inv k -> Inv (sys_gettimeofday sys k).2
}.

Section ends.
Context {K : Type}.

(** [c] finishes; if it returns [a], the world satisfies [Q a]. *)
Definition ends {A} (c : IO K A) (w : io K) (Q : A -> io K -> Prop) : Prop :=
  exists o w', c w = Some (o, w') /\ forall a, o = Returns a -> Q a w'.

Lemma ends_ret {A} (a : A) w (Q : A -> io K -> Prop) : Q a w -> ends (mret a) w Q.
Proof. intros HQ. exists (Returns a), w. split; [done|]. by intros ? [= <-]. Qed.
Lemma ends_bind {A B} (c : IO K A) (k : A -> IO K B) w (Q : A -> io K -> Prop) (R : B -> io K -> Prop) :
  ends c w Q -> (forall a w', Q a w' -> ends (k a) w' R) -> ends (c ≫= k) w R.
Proof.
  intros (o & w' & E & HQ) Hk. unfold ends, mbind, IO_bind. rewrite E. destruct o as [a|n|p v]; [by apply Hk, HQ|by eexists _, _..].
Qed.
Lemma ends_emit e w (Q : unit -> io K -> Prop) : Q tt (mk_io (io_k w) (io_stdin w) (io_trace w ++ [e])) -> ends (emit e) w Q.
Proof. intros HQ. eexists _, _. split; [done|]. by intros ? [= <-]. Qed.
Lemma ends_call {A} (f : K -> A * K) w (Q : A -> io K -> Prop) :
  (forall a k, f (io_k w) = (a, k) -> Q a (mk_io k (io_stdin w) (io_trace w))) -> ends (call f) w Q.
Proof. intros HQ. unfold ends, call. destruct (f (io_k w)) as [a k] eqn:E. eexists _, _. split; [done|]. intros ? [= <-]. by apply HQ. Qed.
Lemma ends_loop {S R} (I : S -> io K -> Prop) (meas : S -> io K -> nat) n (body : S -> IO K (S + R)) s w (Q : R -> io K -> Prop) :
  (forall s w, I s w -> ends (body s) w (fun r w' => match r with inl s' => I s' w' /\ (meas s' w' < meas s w)%nat | inr v => Q v w' end)) ->
  I s w -> (meas s w < n)%nat -> ends (io_loop n body s) w Q.
Proof.
  intros Hb. revert s w. induction n as [|n IH]; intros s w HI Hm; [lia|]. simpl. eapply ends_bind; [by apply Hb|].
  intros [s'|v] w' Hr; [apply IH; [apply Hr|destruct Hr; lia]|by apply ends_ret].
Qed.
End ends.

Section finite.
Context {K : Type} (sys : kernel K) (n : nat) (Inv : K -> Prop) (entries bytes_left : Z -> K -> nat) (F : finite_kernel sys n Inv entries bytes_left).

(** The kernel is in order and the input is [l]. *)
Definition fine (l : list Byte.byte) (w : io K) : Prop := Inv (io_k w) /\ io_stdin w = l.

Lemma ends_printf b l w (Q : unit -> io K -> Prop) : fine l w -> (forall w', fine l w' -> io_k w' = io_k w -> Q tt w') -> ends (printf b) w Q.
Proof. intros [Hi Hl] HQ. apply ends_emit. apply HQ; [by split|done]. Qed.
Lemma ends_act {A} (f : K -> A * K) l w : fine l w -> Inv (f (io_k w)).2 -> ends (call f) w (fun _ => fine l).
Proof. intros [Hi Hl] Hf. apply ends_call. intros a k E. rewrite E in Hf. by split. Qed.

Ltac print := match goal with
  | H : fine ?l ?w |- ends _ ?w _ => eapply (ends_bind _ _ _ (fun _ => fine l)); [eapply ends_printf; [exact H|]; intros ? ? _; assumption|]; intros [] ? ?
  end.

Lemma ls_ends name l w : fine l w -> ends (cmd_ls sys n name) w (fun _ => fine l).
Proof.
  intros [Hi Hl]. unfold cmd_ls. eapply (ends_bind _ _ _ (fun r w => fine l w /\ forall d, r = Ok d -> (entries d (io_k w) < n)%nat)).
  { apply ends_call. intros r k E. by destruct (fk_opendir _ _ _ _ _ F _ _ _ _ Hi E). }
  intros [dir|e] w1 [H1 Hd]; [|by eapply ends_printf].
  eapply (ends_bind _ _ _ (fun _ w => fine l w /\ (entries dir (io_k w) < n)%nat)).
  { eapply ends_printf; [done|]. intros w' Hw' ->. split; [done|by apply Hd]. }
  intros _ w2 [H2 He]. eapply (ends_bind _ _ _ (fun _ => fine l)).
  - apply (ends_loop (fun _ => fine l) (fun _ w => entries dir (io_k w))); [|done|done]. clear w w1 Hi Hl Hd H1 w2 H2 He.
    intros [] w [Hi Hl]. eapply (ends_bind _ _ _ (fun r w' => fine l w' /\ (r <> None -> (entries dir (io_k w') < entries dir (io_k w))%nat))).
    { apply ends_call. intros r k E. by destruct (fk_readdir _ _ _ _ _ F _ _ _ _ Hi E). }
    intros [[ty nm]|] w1 [H1 Hlt]; [|by apply ends_ret]. eapply (ends_bind _ _ _ (fun _ w' => fine l w' /\ io_k w' = io_k w1)); [by eapply ends_printf|].
    intros _ w2 [H2 E]. apply ends_ret. split; [done|]. rewrite E. by apply Hlt.
  - intros _ w3 H3. apply ends_act; [done|]. apply (fk_closedir _ _ _ _ _ F), H3.
Qed.

Lemma write_all_ends fd buf l w : (length buf < n)%nat -> fine l w ->
  ends (write_all sys n fd buf) w (fun ok w' => fine l w' /\ (ok = true -> bytes_left fd (io_k w') = bytes_left fd (io_k w))).
Proof.
  intros Hn Hw. unfold write_all. apply (ends_loop (fun _ w' => fine l w' /\ bytes_left fd (io_k w') = bytes_left fd (io_k w)) (fun i _ => length buf - i)%nat); [|done|lia].
  intros i w1 [H1 E1]. destruct (Nat.ltb_spec i (length buf)); [|by apply ends_ret].
  eapply (ends_bind _ _ _ (fun r w' => fine l w' /\ (forall c, r = Ok c -> 1 <= c) /\ bytes_left fd (io_k w') = bytes_left fd (io_k w))).
  { apply ends_call. intros r k E. assert (drop i buf <> []) as Hne by (intros E0; apply (f_equal length) in E0; rewrite length_drop in E0; simpl in E0; lia).
    destruct (fk_write _ _ _ _ _ F _ _ _ _ (proj1 H1) Hne E) as (Hi & Hc & Hb). split; [split; [done|apply H1]|]. split; [done|]. simpl. by rewrite Hb. }
  intros [c|e] w2 (H2 & Hc & E2).
  - specialize (Hc c eq_refl). eapply (ends_bind _ _ _ (fun _ w' => fine l w' /\ io_k w' = io_k w2)); [by apply ends_emit|].
    intros _ w3 [H3 E3]. apply ends_ret. split; [split; [done|by rewrite E3]|lia].
  - print. eapply (ends_bind _ _ _ (fun _ => fine l)); [apply ends_act; [eassumption|]; apply (fk_close _ _ _ _ _ F); by match goal with H : fine l ?x |- Inv (io_k ?x) => apply H end|].
    intros _ w4 H4. by apply ends_ret.
Qed.

Lemma cat_ends name l w : fine l w -> ends (cmd_cat sys n name) w (fun _ => fine l).
Proof.
  intros [Hi Hl]. unfold cmd_cat. destruct name as [name|]; [|assert (fine l w) by done; print; by eapply ends_printf].
  eapply (ends_bind _ _ _ (fun r w => fine l w /\ forall fd, r = Ok fd -> (bytes_left fd (io_k w) < n)%nat)).
  { apply ends_call. intros r k E. by destruct (fk_open _ _ _ _ _ F _ _ _ _ Hi E). }
  intros [fd|e] w1 [H1 Hd]; [|by eapply ends_printf]. specialize (Hd fd eq_refl).
  eapply (ends_bind _ _ _ (fun _ => fine l)).
  - apply (ends_loop (fun _ => fine l) (fun _ w => bytes_left fd (io_k w))); [|done|done]. clear w w1 Hi Hl Hd H1.
    intros [] w [Hi Hl]. eapply (ends_bind _ _ _ (fun r w' => fine l w' /\ forall buf, r = Ok buf -> (length buf < n)%nat /\ (buf <> [] -> (bytes_left fd (io_k w') < bytes_left fd (io_k w))%nat))).
    { apply ends_call. intros r k E. by destruct (fk_read _ _ _ _ _ F _ _ _ _ Hi E). }
    intros [[|b buf]|e] w1 [H1 Hr]; [by apply ends_ret| |by apply ends_ret]. destruct (Hr _ eq_refl) as [Hlen Hlt].
    eapply ends_bind; [by apply write_all_ends|]. intros [] w2 [H2 E]; apply ends_ret; [|done]. split; [done|]. rewrite E by done. by apply Hlt.
  - intros [[r|e]|] w2 H2; [| |by apply ends_ret].
    + eapply (ends_bind _ _ _ (fun _ => fine l)); [by apply ends_ret|]. intros _ w3 H3. apply ends_act; [done|]. apply (fk_close _ _ _ _ _ F), H3.
    + print. apply ends_act; [done|]. apply (fk_close _ _ _ _ _ F). by match goal with H : fine l ?x |- Inv (io_k ?x) => apply H end.
Qed.

Lemma external_ends path argv l w : fine l w -> ends (run_external sys path argv) w (fun _ => fine l).
Proof.
  intros [Hi Hl]. unfold run_external. eapply (ends_bind _ _ _ (fun _ => fine l)); [apply ends_act; [done|]; by apply (fk_fork _ _ _ _ _ F)|].
  intros pid w1 H1. eapply (ends_bind _ _ _ (fun _ => fine l)); [apply ends_emit; exact H1|]. intros _ w2 H2. destruct (pid <? 0); [print; by apply ends_ret|]. destruct (pid =? 0).
  - eapply (ends_bind _ _ _ (fun _ => fine l)); [apply ends_act; [done|]; apply (fk_execve _ _ _ _ _ F), H2|]. intros [] w3 H3; [by eexists _, _|]. print. by eexists _, _.
  - eapply (ends_bind _ _ _ (fun _ => fine l)); [apply ends_act; [done|]; apply (fk_waitpid _ _ _ _ _ F), H2|]. intros _ w3 H3.
    eapply (ends_bind _ _ _ (fun _ => fine l)); [apply ends_emit; exact H3|]. intros _ w4 H4. by apply ends_ret.
Qed.

Lemma echo_ends args l w : fine l w -> ends (echo_args args) w (fun _ => fine l).
Proof.
  revert w. induction args as [|a [|b args] IH]; intros w Hw; cbn [echo_args]; [by apply ends_ret|by eapply ends_printf|]. print. print. by apply IH.
Qed.

Lemma dispatch_ends junk argv l w : fine l w -> ends (dispatch sys junk n argv) w (fun _ => fine l).
Proof.
  intros Hw. unfold dispatch. destruct argv as [|a0 rest]; [by apply ends_ret|].
  destruct (bytes_eqb a0 (bytes_of "echo")).
  { eapply (ends_bind _ _ _ (fun _ => fine l)); [by apply echo_ends|]. intros _ w1 H1. by eapply ends_printf. }
  destruct (bytes_eqb a0 (bytes_of "help")); [unfold print_help; do 10 print; by eapply ends_printf|].
  destruct (_ || _); [print; by eexists _, _|].
  destruct (bytes_eqb a0 (bytes_of "time")).
  { eapply (ends_bind _ _ _ (fun _ => fine l)); [apply ends_act; [done|]; apply (fk_time _ _ _ _ _ F), Hw|]. intros [sec usec] w1 H1. by eapply ends_printf. }
  destruct (bytes_eqb a0 (bytes_of "pid")).
  { do 2 (eapply (ends_bind _ _ _ (fun _ => fine l)); [apply ends_act; [eassumption|]; by match goal with H : fine l ?x |- context [?x] => apply H end|]; intros ? ? ?;
      first [print|by eapply ends_printf]). }
  destruct (bytes_eqb a0 (bytes_of "ls")); [by apply ls_ends|]. destruct (bytes_eqb a0 (bytes_of "cat")); [by apply cat_ends|].
  eapply (ends_bind _ _ _ (fun _ => fine l)); [by apply external_ends|]. intros _ w1 H1. by apply ends_ret.
Qed.

Lemma take_line_rest m l : (length (take_line m l).2 <= length l)%nat.
Proof.
  revert l. induction m as [|m IH]; intros [|b l]; simpl; [lia..|]. destruct (byte_val b =? 10); [simpl; lia|].
  specialize (IH l). destruct (take_line m l). simpl in *. lia.
Qed.
Lemma take_line_less m b l : (length (take_line (S m) (b :: l)).2 <= length l)%nat.
Proof.
  cbn [take_line]. destruct (byte_val b =? 10); [simpl; lia|]. pose proof (take_line_rest m l). by destruct (take_line m l).
Qed.
#[local] Opaque take_line.
Lemma get_line_ends l w : fine l w -> ends (get_line 255) w (fun r w' => exists l', fine l' w' /\ (r <> None -> (length l' < length l)%nat)).
Proof.
  intros [Hi Hl]. unfold ends, get_line. rewrite Hl. destruct l as [|b l].
  - eexists _, _. split; [done|]. intros a [= <-]. by exists [].
  - pose proof (take_line_less 254 b l) as Hless. destruct (take_line 255 (b :: l)) as [x r]. eexists _, _. split; [done|]. intros a _. exists r. split; [by split|]. simpl in *. lia.
Qed.
#[local] Transparent take_line.

(** Reading takes at least a byte of the input. *)
Lemma session_ends junk lines w : Inv (io_k w) -> (length (io_stdin w) < lines)%nat -> exists o w', session sys junk n lines w = Some (o, w').
Proof.
  intros Hi Hl. assert (ends (session sys junk n lines) w (fun _ _ => True)) as (o & w' & E & _); [|by exists o, w']. unfold session.
  assert (fine (io_stdin w) w) as Hw by done. remember (io_stdin w) as l eqn:El. clear El Hi.
  eapply (ends_bind _ _ _ (fun _ => fine l)); [unfold print_welcome; do 5 print; by eapply ends_printf|]. clear w Hw. intros _ w Hw.
  revert junk l w Hl Hw. induction lines as [|lines IH]; intros junk l w Hl Hw; [lia|]. cbn [session_loop]. print.
  eapply ends_bind; [by apply get_line_ends|]. intros [line|] w2 (l' & H2 & Hlt); [|by apply ends_ret]. cbv zeta.
  eapply (ends_bind _ _ _ (fun _ => fine l')); [by apply dispatch_ends|]. intros _ w3 H3. apply (IH _ l'); [|done]. specialize (Hlt ltac:(done)). lia.
Qed.
End finite.
