(* ===== verification/ShellProofs.v ===== *)
(** * ShellProofs: the shell implements its specification

    [main] refines [session] and [execute_command] refines [dispatch]: for
    every memory in which the buffers and literals of the program are laid
    out, every input and every kernel, the code on memory gives the result of
    the specification, and both end where directories and files do. Then the
    builtins: [cat] copies a file under short reads and writes, [ls] lists
    every entry; and a forked child never comes back to the prompt. *)

From S2P Require Import Prelude CMem StrScan MemBlock StrCopy StrTok ShellIO Shell ShellRun.
From Stdlib Require Import String Ascii.
From stdpp Require Import base tactics numbers list gmap.
Open Scope Z_scope.

(** ** Reading strings *)

Lemma wp_read_cstr fuel m p l :
  cstring m p l -> (length l < fuel)%nat ->
  wp (read_cstr fuel p) m (fun r m' => r = l /\ m' = m).
Proof.
  intros Hs Hf. unfold read_cstr.
  apply (wp_loop (fun '(q, acc) m' => m' = m /\ exists k, (k <= length l)%nat /\
      q = p + Z.of_nat k /\ acc = take k l) (fun '(q, acc) => Z.to_nat (p + lenZ l - q))); [| |lia].
  2: { split; [done|]. exists 0%nat. split; [lia|]. split; [lia|done]. }
  intros [q acc] m' (-> & k & Hk & -> & ->).
  pose proof (cstring_head _ _ _ (cstring_drop m p l k Hs Hk)) as Hb.
  wp_step. wp_step; [done|].
  destruct (drop k l) as [|b rest] eqn:E.
  - simpl. wp_step. split; [|done]. apply (f_equal length) in E. rewrite length_drop in E.
    simpl in E. by rewrite take_ge by lia.
  - assert (l !! k = Some b) as Hlk.
    { rewrite <- (take_drop k l), E. rewrite lookup_app_r; rewrite length_take_le by done; [|lia].
      by rewrite Nat.sub_diag. }
    assert (b <> 0) by (by apply (Forall_lookup_1 _ _ _ _ (cs_nz _ _ _ Hs) Hlk)).
    pose proof (lookup_lt_Some _ _ _ Hlk).
    rewrite (proj2 (truth_true b)) by done. wp_step. split; [|lia]. split; [done|].
    exists (S k). split; [lia|]. split; [lia|]. by rewrite (take_S_r _ _ _ Hlk).
Qed.

Lemma wp_store_bytes m p l :
  mapped m p (length l) -> Forall is_byte l ->
  wp (store_bytes p l) m (fun _ m' => m' = mem_write m p l).
Proof.
  intros Hm Hl. revert m p Hm. induction Hl as [|b l Hb Hl IH]; intros m p Hm; simpl; [done|].
  wp_step. wp_step; [apply Hm; simpl; lia|]. rewrite wrap_small by done. apply IH.
  apply (mapped_mem_write m p [b]). eapply mapped_weaken; [done|simpl; lia..].
Qed.

(** A null first argument continues at the saved pointer. *)
Lemma strtok_null fuel sep p : p <> 0 -> strtok fuel 0 sep p = strtok fuel p sep p.
Proof. intros H. unfold strtok. by rewrite (proj2 (Z.eqb_neq p 0) H). Qed.

(** Leading blanks and a final newline do not change the words of a line. *)
Lemma tokens_skip_blanks l :
  tokens (lit_bytes L_sep) l =
  tokens (lit_bytes L_sep) (drop (span (mem_bool [32; 9]) l) l).
Proof.
  unfold tokens. induction l as [|b l IH]; [done|]. simpl. rewrite !orb_false_r.
  destruct (b =? 32) eqn:E1; [exact IH|]. destruct (b =? 9) eqn:E2; [exact IH|].
  simpl. by rewrite E1, E2, orb_false_r.
Qed.

Lemma tokens_from_newline cur l :
  tokens_from (lit_bytes L_sep) cur (l ++ [10]) = tokens_from (lit_bytes L_sep) cur l.
Proof.
  revert cur. induction l as [|b l IH]; intros cur; simpl; [by destruct cur|].
  destruct (_ || _); [|apply IH]. destruct cur; by rewrite IH.
Qed.

(** A string that fits a buffer of 256 bytes. *)
Lemma cstring_buf m p l k :
  mapped m p 264 -> (length l <= 255)%nat -> Forall (fun b => b <> 0) l ->
  bytes_at m p (l ++ replicate (S k) 0) -> cstring m p l.
Proof.
  intros Hm Hlen Hnz Hb. split; [|done|].
  - change (replicate (S k) 0) with ([0] ++ replicate k 0) in Hb. rewrite app_assoc in Hb.
    by apply bytes_at_app in Hb as [Hb _].
  - intros q Hq. apply Hm. pose proof (Z.div_mod (p + lenZ l) 8 ltac:(lia)).
    pose proof (Z.mod_pos_bound (p + lenZ l) 8 ltac:(lia)). lia.
Qed.

Section shell_proofs.
Context {K : Type} (sys : kernel K) (fuel : nat) (cmd_buf path_buf rodata : Z).

(** The memory of the shell: the two buffers (and the rest of the stack
    behind them) are mapped, the literals are in place, and none overlap. *)
Record layout (m : memory) : Prop := {
  ly_ok : mem_ok m;
  ly_lit : forall x, cstring m (lit_addr rodata x) (lit_bytes x);
  ly_cmd : mapped m cmd_buf 264;
  ly_path : mapped m path_buf 264
}.

Context (Hfuel : (300 <= fuel)%nat).
Context (Hcmd : 0 < cmd_buf) (Hpath : 0 < path_buf) (Hpath64 : path_buf + 264 <= 2 ^ 64).
Context (Hcp : disjoint_ranges cmd_buf 264 path_buf 264).
Context (Hcr : disjoint_ranges cmd_buf 264 rodata 72).
Context (Hpr : disjoint_ranges path_buf 264 rodata 72).

Lemma lit_in_rodata x : rodata <= lit_addr rodata x /\ lit_addr rodata x + lenZ (lit_bytes x) < rodata + 72.
Proof. unfold lit_addr. destruct x; simpl; lia. Qed.

(** A change inside the buffers keeps the layout. *)
Lemma layout_frame m m' :
  layout m -> mem_ok m' -> (forall q, is_Some (m !! q) -> is_Some (m' !! q)) ->
  (forall q, rodata <= q < rodata + 72 -> m' !! q = m !! q) -> layout m'.
Proof.
  intros [Hok Hlit Hc Hp] Hok' Hdom Heq. split; [done| |intros q Hq; apply Hdom, Hc; lia|intros q Hq; apply Hdom, Hp; lia].
  intros x. eapply cstring_frame; [apply Hlit| |done]. intros q Hq. apply Heq.
  pose proof (lit_in_rodata x). lia.
Qed.

Lemma mem_write_dom m p l q : is_Some (m !! q) -> is_Some (mem_write m p l !! q).
Proof.
  intros H. rewrite mem_write_lookup. case_decide; [|done]. apply lookup_lt_is_Some_2. lia.
Qed.

Lemma layout_write m p l :
  layout m -> Forall is_byte l -> disjoint_ranges p (length l) rodata 72 ->
  layout (mem_write m p l).
Proof.
  intros Hl Hb Hd. eapply layout_frame; [done|apply mem_ok_write; [apply Hl|done]|apply mem_write_dom|].
  intros q Hq. apply mem_write_ne. unfold disjoint_ranges in Hd. lia.
Qed.

(** The string from the last byte of the path buffer on: what a path that
    fills the buffer goes on with. *)
Definition trailing (m : memory) (junk : list Z) : Prop := cstring m (path_buf + 255) junk /\ (length junk <= 8)%nat.
Definition state (junk : list Z) (m : memory) : Prop := layout m /\ trailing m junk.

Lemma state_frame junk m m' :
  state junk m -> mem_ok m' -> (forall q, is_Some (m !! q) -> is_Some (m' !! q)) ->
  (forall q, rodata <= q < rodata + 72 -> m' !! q = m !! q) ->
  (forall q, path_buf + 255 <= q < path_buf + 264 -> m' !! q = m !! q) -> state junk m'.
Proof.
  intros [Hl [Hj Hlen]] Hok Hdom Hro Hpb. split; [by apply (layout_frame m)|split; [|done]].
  eapply cstring_frame; [exact Hj| |done]. intros q Hq. apply Hpb. lia.
Qed.
Lemma state_write junk m p l :
  state junk m -> Forall is_byte l -> disjoint_ranges p (length l) rodata 72 -> disjoint_ranges p (length l) path_buf 264 ->
  state junk (mem_write m p l).
Proof.
  intros Hs Hb Hd Hd'. eapply state_frame; [done|apply mem_ok_write; [apply Hs|done]|apply mem_write_dom| |];
    intros q Hq; apply mem_write_ne; unfold disjoint_ranges in *; lia.
Qed.

(** [argp m t v]: [t] points to the word [v] in the line buffer. *)
Definition argp (m : memory) (t : Z) (v : list Z) : Prop :=
  cstring m t v /\ cmd_buf <= t /\ t + lenZ v < cmd_buf + 256.

Lemma is_command_spec m p v x :
  layout m -> argp m p v -> Forall (fun b => b <> 0) (lit_bytes x) ->
  wp (is_command fuel rodata p x) m (fun r m' => m' = m /\ r = bytes_eqb v (lit_bytes x)).
Proof.
  intros Hl (Hv & ? & ?) Hnz. unfold is_command. apply wp_bind.
  eapply wp_mono; [apply (wp_strcmp m p _ v (lit_bytes x)); [done|apply Hl|lia]|].
  intros r m' [-> ->]. wp_step. split; [done|]. unfold bytes_eqb.
  destruct (strcmp_ref_zero v (lit_bytes x) (cs_nz _ _ _ Hv) Hnz) as [H1 H2].
  case_bool_decide; destruct (Z.eqb_spec (strcmp_ref v (lit_bytes x)) 0); naive_solver.
Qed.

(** ** Tokenizing the line *)

Abbreviation sep := (lit_bytes L_sep).

(** What the saved pointer [p] of [strtok] still holds: the words [toks];
    the line ends at [E]. *)
Definition rest_ok (E : Z) (m : memory) (p : Z) (toks : list (list Z)) : Prop :=
  (p = 0 /\ toks = []) \/
  (cmd_buf <= p /\ exists l, cstring m p l /\ tokens sep l = toks /\ p + lenZ l = E).

(** A word that lies before the part still to be cut. *)
Definition before (p : Z) (m : memory) (t : Z) (v : list Z) : Prop :=
  argp m t v /\ (p = 0 \/ t + lenZ v < p).

(** The result [t] of a call of [strtok] when the words [all] remain. *)
Definition tok_state (E : Z) (m : memory) (p t : Z) (all : list (list Z)) : Prop :=
  match all with
  | [] => t = 0
  | v :: toks => t <> 0 /\ before p m t v /\ rest_ok E m p toks
  end.

Lemma token_cut_state junk m a l t p' m' tok toks :
  state junk m -> cmd_buf <= a -> a + lenZ l < cmd_buf + 256 ->
  token_cut sep m a l t p' m' tok toks ->
  state junk m' /\ tok_state (a + lenZ l) m' p' t (tok :: toks) /\
  (forall t v, argp m t v -> t + lenZ v < a -> before p' m' t v).
Proof.
  intros Hl Ha Hlen [Htok Hstart Hrest Hframe Hmapped Hok].
  assert (t + lenZ tok <= a + lenZ l /\ (p' = 0 \/ t + lenZ tok < p')) as [Hend Hp'].
  { destruct Hrest as [(-> & _ & ?)|(-> & l' & _ & _ & ?)]; [split; [lia|by left]|lia]. }
  split_and!.
  - eapply state_frame; [done|done|done| |]; intros q Hq; apply Hframe;
      unfold disjoint_ranges in *; lia.
  - split; [lia|]. split; [split; [split; [done|lia]|done]|].
    destruct Hrest as [(-> & -> & _)|(-> & l' & Hl' & Ht' & ?)]; [by left|right].
    split; [lia|]. by exists l'.
  - intros t' v (Hv & ? & ?) Hlt. split.
    + split; [|lia]. eapply cstring_frame; [done| |done]. intros q Hq. apply Hframe. lia.
    + destruct Hrest as [(-> & _)|(-> & _)]; [by left|right; lia].
Qed.

Lemma strtok_call_first junk m p a l :
  state junk m -> cmd_buf <= a -> a + lenZ l < cmd_buf + 256 -> cstring m a l ->
  exists t p' m', (forall w : io K, strtok_call fuel rodata a (mk_local m p) w =
      Some (Returns t, mk_local m' p', w)) /\
    state junk m' /\ tok_state (a + lenZ l) m' p' t (tokens sep l) /\
    (forall t v, argp m t v -> t + lenZ v < a -> before p' m' t v).
Proof.
  intros Hl Ha Hlen Hs.
  pose proof (wp_strtok m a (lit_addr rodata L_sep) l sep (ly_ok _ (proj1 Hl)) Hs (ly_lit _ (proj1 Hl) L_sep)
    ltac:(lia) a p fuel) as H.
  destruct (Z.eqb_spec a 0); [lia|]. specialize (H eq_refl ltac:(lia) ltac:(simpl; lia)).
  unfold wp in H. unfold strtok_call.
  destruct (strtok fuel a (lit_addr rodata L_sep) p m) as [[[t p'] m']|] eqn:E; [|done].
  exists t, p', m'. split.
  { intros w. unfold mbind, Sh_bind, get_p, mem. simpl. by rewrite E. }
  destruct (tokens sep l) as [|tok toks].
  - destruct H as (-> & -> & ->). split; [done|]. split; [done|].
    intros t v Hv _. split; [done|by left].
  - by apply (token_cut_state junk m a l).
Qed.

Lemma strtok_call_next junk E m p toks :
  state junk m -> E < cmd_buf + 256 -> rest_ok E m p toks ->
  exists t p' m', (forall w : io K, strtok_call fuel rodata 0 (mk_local m p) w =
      Some (Returns t, mk_local m' p', w)) /\
    state junk m' /\ tok_state E m' p' t toks /\
    (forall t v, before p m t v -> before p' m' t v).
Proof.
  intros Hl HE [[-> ->]|(Hp & l & Hs & <- & <-)].
  - exists 0, 0, m. split_and!; [|done|done|done]. intros w. reflexivity.
  - pose proof (strtok_call_first junk m p p l Hl Hp HE Hs) as (t & p' & m' & Hrun & Hl' & Ht & Hbef).
    exists t, p', m'. split_and!; [|done|done|].
    + intros w. rewrite <- (Hrun w). unfold strtok_call, mbind, Sh_bind, get_p, mem. simpl.
      by rewrite strtok_null by lia.
    + intros t' v [Hv [->|Hlt]]; [lia|]. by apply Hbef.
Qed.


(** ** The argument vector *)

Definition args_ok (m : memory) (args : list (option Z)) (argv : list (list Z)) : Prop :=
  (length argv <= 15)%nat /\ args !! length argv = Some (Some 0) /\
  forall i v, argv !! i = Some v ->
    exists t, args !! i = Some (Some t) /\ t <> 0 /\ argp m t v.

(** The state of the argument loop: [argc] words stored, [all] to come. *)
Definition parse_inv (junk : list Z) (E : Z) (ALL : list (list Z))
    (st : Z * list (option Z) * nat) (s : local) : Prop :=
  let '(token, args, argc) := st in
  state junk (lmem s) /\ exists ptrs dn all,
    argc = length dn /\ (argc <= 15)%nat /\
    args = (Some <$> ptrs) ++ replicate (16 - argc) None /\
    Forall2 (before (strtok_p s) (lmem s)) ptrs dn /\
    tok_state E (lmem s) (strtok_p s) token all /\ dn ++ all = ALL.

Lemma parse_inv_done junk E ALL token args argc s :
  parse_inv junk E ALL (token, args, argc) s ->
  truth token && (argc <? MAX_ARGS - 1)%nat = false ->
  argc = length (take 15 ALL) /\ args_ok (lmem s) (<[argc := Some 0]> args) (take 15 ALL).
Proof.
  intros (Hl & ptrs & dn & all & -> & Hargc & -> & Hf2 & Ht & <-) Hg.
  assert (take 15 (dn ++ all) = dn) as ->.
  { apply andb_false_iff in Hg as [Hg|Hg].
    - apply truth_false in Hg. destruct all as [|v toks].
      + by rewrite app_nil_r, take_ge.
      + by destruct Ht.
    - apply Nat.ltb_ge in Hg. unfold MAX_ARGS in Hg. rewrite take_app_le by lia.
      by rewrite take_ge by lia. }
  pose proof (Forall2_length _ _ _ Hf2) as Hlen. split; [done|]. split; [done|]. split.
  - apply list_lookup_insert_eq. rewrite length_app, length_fmap, length_replicate. lia.
  - intros i v Hi. pose proof (lookup_lt_Some _ _ _ Hi).
    rewrite list_lookup_insert_ne by lia.
    destruct (Forall2_lookup_r _ _ _ _ _ Hf2 Hi) as (t & Hti & [Hargp _]).
    exists t. rewrite lookup_app_l by (rewrite length_fmap; lia).
    rewrite list_lookup_fmap, Hti. split; [done|]. split; [|done]. destruct Hargp as (_ & ? & _). lia.
Qed.

Lemma parse_inv_step junk E ALL token args argc s :
  E < cmd_buf + 256 -> parse_inv junk E ALL (token, args, argc) s ->
  truth token && (argc <? MAX_ARGS - 1)%nat = true ->
  exists t p' m', (forall w : io K, strtok_call fuel rodata 0 s w = Some (Returns t, mk_local m' p', w)) /\
    parse_inv junk E ALL (t, <[argc := Some token]> args, S argc) (mk_local m' p').
Proof.
  intros HE (Hl & ptrs & dn & all & -> & Hargc & -> & Hf2 & Ht & <-) Hg.
  apply andb_prop in Hg as [Htok Hlt]. apply truth_true in Htok. apply Nat.ltb_lt in Hlt.
  unfold MAX_ARGS in Hlt. destruct all as [|v toks]; [done|]. destruct Ht as (_ & Hbef & Hrest).
  destruct (strtok_call_next junk E _ _ _ Hl HE Hrest) as (t & p' & m' & Hrun & Hl' & Ht' & Hpres).
  exists t, p', m'. split; [by destruct s|]. split; [done|].
  pose proof (Forall2_length _ _ _ Hf2) as Hlen.
  exists (ptrs ++ [token]), (dn ++ [v]), toks. split_and!.
  - rewrite length_app. simpl. lia.
  - lia.
  - rewrite insert_app_r_alt by (rewrite length_fmap; lia).
    rewrite length_fmap, Hlen, Nat.sub_diag, fmap_app, <- app_assoc. f_equal.
    destruct (16 - length dn)%nat eqn:En; [lia|]. simpl. f_equal. f_equal. lia.
  - apply Forall2_app; [|constructor; [by apply Hpres|constructor]].
    eapply Forall2_impl; [done|]. intros t' v'. apply Hpres.
  - done.
  - by rewrite <- app_assoc.
Qed.

Lemma refines_parse {B} junk (E : Z) (ALL : list (list Z)) token s (k : list (option Z) * nat -> Sh K B) sp Q :
  E < cmd_buf + 256 -> state junk (lmem s) -> tok_state E (lmem s) (strtok_p s) token ALL ->
  (forall args s', state junk (lmem s') -> args_ok (lmem s') (<[length (take 15 ALL) := Some 0]> args) (take 15 ALL) ->
     refines (k (args, length (take 15 ALL))) s' sp Q) ->
  refines (sh_loop fuel (fun '(token, args, argc) =>
      if truth token && (argc <? MAX_ARGS - 1)%nat then
        let args := <[argc := Some token]> args in
        token ← strtok_call fuel rodata 0;
        mret (inl (token, args, S argc))
      else mret (inr (args, argc))) (token, replicate MAX_ARGS None, 0%nat) ≫= k) s sp Q.
Proof.
  intros HE Hl Ht Hk.
  apply (refines_sh_loop (parse_inv junk E ALL) (fun '(_, _, argc) => (16 - argc)%nat)); [| |lia].
  - intros [[tok args] argc] s' Hinv. destruct (_ && _) eqn:Hg.
    + destruct (parse_inv_step junk E ALL tok args argc s' HE Hinv Hg) as (t & p' & m' & Hrun & Hinv').
      exists (inl (t, <[argc := Some tok]> args, S argc)), (mk_local m' p'). split.
      * intros w. unfold mbind, Sh_bind. by rewrite Hrun.
      * split; [done|]. apply andb_prop in Hg as [_ Hg]. apply Nat.ltb_lt in Hg. unfold MAX_ARGS in Hg. lia.
    + exists (inr (args, argc)), s'. split; [done|].
      destruct (parse_inv_done junk E ALL tok args argc s' Hinv Hg) as [-> Hok].
      apply Hk; [apply Hinv|done].
  - split; [done|]. exists [], [], ALL. split_and!; (done || lia || constructor).
Qed.

(** ** Commands *)

Lemma args_lookup m args argv i v :
  args_ok m args argv -> argv !! i = Some v ->
  exists t, argp m t v /\ t <> 0 /\ forall Q, Q t m -> wp (arg args i) m Q.
Proof.
  intros (_ & _ & H) Hi. destruct (H i v Hi) as (t & Ht & Hnz & Ha). exists t.
  split; [done|]. split; [done|]. intros Q HQ. unfold arg. rewrite Ht. by apply wp_ret.
Qed.

Lemma wp_read_arg m t v (Q : list Z -> memory -> Prop) :
  argp m t v -> Q v m -> wp (read_cstr fuel t) m Q.
Proof.
  intros (Hv & ? & ?) HQ. eapply wp_mono; [apply (wp_read_cstr fuel m t v); [done|lia]|].
  by intros r m' [-> ->].
Qed.

Lemma wp_read_argv m argv args :
  Forall2 (fun a v => exists t, a = Some t /\ t <> 0 /\ argp m t v) args argv ->
  forall tl, wp (read_argv fuel (args ++ Some 0 :: tl)) m (fun r m' => m' = m /\ r = argv).
Proof.
  induction 1 as [|a v args argv (t & -> & Ht & Hv) _ IH]; intros tl; simpl; [by wp_step|].
  destruct (Z.eqb_spec t 0); [done|]. apply wp_bind. eapply wp_read_arg; [done|].
  apply wp_bind. eapply wp_mono; [apply IH|]. intros r m' [-> ->]. by wp_step.
Qed.

Lemma args_ok_read m args argv :
  args_ok m args argv -> wp (read_argv fuel args) m (fun r m' => m' = m /\ r = argv).
Proof.
  intros (Hlen & H0 & H). pose proof (take_drop_middle args (length argv) _ H0) as <-.
  apply wp_read_argv. apply Forall2_same_length_lookup. pose proof (lookup_lt_Some _ _ _ H0).
  split; [rewrite length_take; lia|]. intros i a v Ha Hv. destruct (H i v Hv) as (t & Ht & ?).
  exists t. split; [|done]. rewrite lookup_take_lt in Ha by (eapply lookup_lt_Some; eauto). congruence.
Qed.

(** [echo] prints the arguments from index [i] on. *)
Lemma echo_loop m p args argv i n rem (w : io K) :
  args_ok m args argv -> drop i argv = rem -> (length rem < n)%nat ->
  exists w', echo_args rem w = Some (Returns tt, w') /\
    sh_loop n (fun i =>
      if (i <? length argv)%nat then
        p ← mem (arg args i);
        l ← mem (read_cstr fuel p);
        lift (printf l);;
        (if (i <? length argv - 1)%nat then lift (printf (bytes_of " ")) else mret tt);;
        mret (inl (S i))
      else mret (inr tt)) i (mk_local m p) w = Some (Returns tt, mk_local m p, w').
Proof.
  intros Hargs. revert i n w. induction rem as [|v rem IH]; intros i [|n] w Hi Hn;
    try (simpl in Hn; lia).
  - exists w. split; [done|]. simpl. unfold mbind, Sh_bind.
    apply (f_equal length) in Hi. rewrite length_drop in Hi. simpl in Hi.
    by rewrite (proj2 (Nat.ltb_ge i (length argv))) by lia.
  - assert (argv !! i = Some v) as Hv.
    { pose proof (lookup_drop argv i 0) as E. rewrite Hi, Nat.add_0_r in E. by rewrite <- E. }
    pose proof (lookup_lt_Some _ _ _ Hv) as Hlt.
    assert (drop (S i) argv = rem) as Hi' by (rewrite (drop_S _ _ _ Hv) in Hi; congruence).
    destruct (args_lookup _ _ _ _ _ Hargs Hv) as (t & Ht & _ & Harg).
    assert (arg args i m = Some (t, m)) as Ea by (apply wp_elim; by apply Harg).
    assert (read_cstr fuel t m = Some (v, m)) as Er by (apply wp_elim; by eapply wp_read_arg).
    pose proof (f_equal length Hi) as Hlen. rewrite length_drop in Hlen. simpl in Hlen.
    simpl sh_loop. unfold mbind at 1, Sh_bind at 1.
    rewrite (proj2 (Nat.ltb_lt i (length argv))) by lia.
    unfold mbind at 1, Sh_bind at 1. unfold mem at 1. simpl lmem. rewrite Ea.
    unfold mbind at 1, Sh_bind at 1. unfold mem at 1. simpl lmem. rewrite Er.
    destruct rem as [|v' rem'].
    + simpl in Hlen. rewrite (proj2 (Nat.ltb_ge i (length argv - 1))) by lia.
      set (w1 := mk_io (io_k w) (io_stdin w) (io_trace w ++ [Printf v])).
      destruct (IH (S i) n w1 Hi') as (w' & Hw' & Hrun); [simpl in *; lia|].
      injection Hw' as <-. exists w1. split; [done|]. exact Hrun.
    + simpl in Hlen. rewrite (proj2 (Nat.ltb_lt i (length argv - 1))) by lia.
      set (w1 := mk_io (io_k w) (io_stdin w) ((io_trace w ++ [Printf v]) ++ [Printf (bytes_of " ")])).
      destruct (IH (S i) n w1 Hi') as (w' & Hw' & Hrun); [simpl in *; lia|].
      exists w'. split; [exact Hw'|]. exact Hrun.
Qed.

(** The path buffer after either way of filling it holds the path as a C
    string, and the arguments are untouched. *)
Lemma args_ok_path m args argv w :
  args_ok m args argv -> (length w <= 256)%nat -> args_ok (mem_write m path_buf w) args argv.
Proof.
  intros (? & ? & H') Hlen. split; [done|]. split; [done|]. intros i v Hi.
  destruct (H' i v Hi) as (t & Ht & Hnz' & (Hc & ? & ?)). exists t. split; [done|]. split; [done|].
  split; [|done]. apply cstring_mem_write; [done|]. unfold disjoint_ranges in *. lia.
Qed.

Lemma trailing_path junk m w : state junk m -> Forall is_byte w -> (length w <= 255)%nat -> state junk (mem_write m path_buf w).
Proof.
  intros Hs Hw Hlen. eapply state_frame; [done|apply mem_ok_write; [apply Hs|done]|apply mem_write_dom| |];
    intros q Hq; apply mem_write_ne; unfold disjoint_ranges in *; lia.
Qed.
Lemma trailing_cut junk m w : state junk m -> Forall is_byte w -> length w = 255%nat -> state [] (mem_write m path_buf (w ++ [0])).
Proof.
  intros [Hl _] Hw Hlen. assert (Forall is_byte (w ++ [0])) by (apply Forall_app; split; [done|by repeat constructor]). split.
  - apply layout_write; [done|done|]. rewrite length_app. simpl. unfold disjoint_ranges in *. lia.
  - split; [|simpl; lia]. split; [|constructor|].
    + pose proof (mem_write_bytes_at m path_buf (w ++ [0])) as Hb. apply bytes_at_app in Hb as [_ Hb]. by rewrite Hlen in Hb.
    + intros q Hq. simpl in Hq. rewrite Z.add_0_r in Hq. apply mem_write_dom, (ly_path _ Hl).
      pose proof (Z.div_mod (path_buf + 255) 8 ltac:(lia)). pose proof (Z.mod_pos_bound (path_buf + 255) 8 ltac:(lia)). lia.
Qed.

Lemma path_string m w path k :
  layout m -> (length w <= 256)%nat -> w = path ++ replicate (S k) 0 -> Forall (fun b => b <> 0) path -> cstring (mem_write m path_buf w) path_buf path.
Proof.
  intros Hl Hlen -> Hnz. rewrite length_app, length_replicate in Hlen.
  eapply cstring_buf; [apply mapped_mem_write, Hl|lia|done|]. apply mem_write_bytes_at.
Qed.

(** A word that fills the buffer goes on with what follows. *)
Lemma path_full junk m v :
  state junk m -> Forall is_byte v -> Forall (fun b => b <> 0) v -> length v = 255%nat -> cstring (mem_write m path_buf v) path_buf (v ++ junk).
Proof.
  intros Hs Hb Hnz Hlen. destruct (trailing_path junk m v Hs Hb ltac:(lia)) as [_ [[Hj Hjnz Hpad] _]]. split.
  - rewrite <- app_assoc. apply bytes_at_app. split; [apply mem_write_bytes_at|]. by rewrite Hlen.
  - by apply Forall_app.
  - rewrite length_app, Hlen. replace (path_buf + Z.of_nat (255 + length junk)) with (path_buf + 255 + lenZ junk) by lia. exact Hpad.
Qed.

Lemma wp_fill_path junk m args argv a0 v rest :
  state junk m -> args_ok m args argv -> argp m a0 v ->
  wp (fill_path fuel path_buf a0) m (fun _ m' => state (leaves junk (v :: rest)) m' /\ args_ok m' args argv /\
    cstring m' path_buf (resolve junk v) /\ (length (resolve junk v) <= 263)%nat).
Proof.
  intros Hl Hargs Ha. pose proof Ha as (Hv & Ha1 & Ha2).
  pose proof (cstring_head _ _ _ Hv) as Hh. unfold fill_path. wp_step. wp_step; [done|].
  assert ((match v with [] => 0 | a :: _ => a end =? 47) || (match v with [] => 0 | a :: _ => a end =? 46) = names_file v) as ->.
  { unfold names_file. destruct v as [|b v']; simpl; [done|].
    destruct (Z.eqb_spec b 47), (Z.eqb_spec b 46); repeat case_bool_decide; simpl; congruence. }
  pose proof (string_bytes_l m a0 v (ly_ok _ (proj1 Hl)) Hv) as Hvb. pose proof (cs_nz _ _ _ Hv) as Hnz.
  unfold resolve, leaves. destruct (names_file v) eqn:Eb; cbn [orb].
  - apply wp_bind. change (256 - 1) with (Z.of_nat 255). apply wp_bind.
    eapply wp_mono.
    + eapply (wp_stpncpy m path_buf a0 v); [apply Hl|done| | |done|lia|lia].
      * eapply mapped_weaken; [apply (ly_path _ (proj1 Hl))|lia|lia].
      * unfold disjoint_ranges in *. lia.
    + intros r m' [_ ->]. wp_step. wp_step. rewrite take_ge by lia. set (w := v ++ replicate (255 - length v) 0).
      assert (Hwl : length w = 255%nat) by (unfold w; rewrite length_app, length_replicate; lia).
      assert (Hwb : Forall is_byte w) by (apply Forall_app; split; [done|by apply Forall_replicate]).
      assert (length junk <= 8)%nat by apply Hl. split; [apply trailing_path; [done|done|lia]|]. split; [apply args_ok_path; [done|lia]|].
      destruct (Nat.ltb_spec (length v) 255).
      * rewrite app_nil_r. split; [|lia]. apply (path_string m w v (254 - length v)); [apply Hl|lia| |done]. unfold w. by replace (255 - length v)%nat with (S (254 - length v)) by lia.
      * split; [|rewrite length_app; lia]. assert (w = v) as -> by (unfold w; replace (255 - length v)%nat with 0%nat by lia; apply app_nil_r). by apply path_full.
  - unfold snprintf_bin. apply wp_bind. eapply wp_read_arg; [done|].
    set (path := take 255 (bytes_of "/bin/" ++ v)).
    assert (Forall is_byte path) as Hpb by (apply Forall_take, Forall_app; split; [by repeat constructor|done]).
    assert (Forall is_byte (path ++ [0])) as Hpb0 by (apply Forall_app; split; [done|by repeat constructor]).
    assert (length path <= 255)%nat by (subst path; rewrite length_take; lia).
    eapply wp_mono; [apply wp_store_bytes; [|done]|].
    + eapply mapped_weaken; [apply (ly_path _ (proj1 Hl))|lia|rewrite length_app; change (length [0]) with 1%nat; lia].
    + intros [] m' ->. assert (length (path ++ [0]) = S (length path)) as Hl1 by (rewrite length_app; simpl; lia). split_and!; [|apply args_ok_path; [done|lia]| |lia].
      * destruct (Nat.ltb_spec (length (bytes_of "/bin/" ++ v)) 255); [apply trailing_path; [done|done|]|apply (trailing_cut junk); [done|done|]];
          rewrite ?Hl1; subst path; rewrite length_take; lia.
      * apply (path_string m (path ++ [0]) path 0); [apply Hl|lia|done|]. apply Forall_take, Forall_app. by split; [repeat constructor|].
Qed.

Ltac command x :=
  apply refines_mem; eapply wp_mono;
    [eapply (is_command_spec _ _ _ x); [eassumption|eassumption|by repeat constructor]|];
  let b := fresh "b" in intros b ? [-> ->]; simpl strtok_p;
  unfold lit_bytes at 1.

(** The second half of [execute_command], on a parsed argument vector. *)
Lemma refines_run_command junk n args argv v rest s :
  state junk (lmem s) -> args_ok (lmem s) args argv -> argv = v :: rest ->
  refines (run_command sys fuel path_buf rodata n args (length argv)) s
    (dispatch sys junk n argv) (fun _ s => state (leaves junk argv) (lmem s)).
Proof.
  intros Hl Hargs Hargv. destruct s as [m p]. simpl lmem in *.
  destruct (args_lookup m args argv 0 v Hargs ltac:(by rewrite Hargv)) as (a0 & Ha & _ & Harg).
  assert (Hlay : layout m) by apply Hl.
  (* a builtin leaves the path buffer alone *)
  assert (Hbuiltin : forall {A} (c : Sh K A) sp b, bytes_eqb v b = true -> leaves junk (b :: rest) = junk ->
    refines c (mk_local m p) sp (fun _ s => state junk (lmem s)) -> refines c (mk_local m p) sp (fun _ s => state (leaves junk argv) (lmem s))).
  { intros A c sp b Hb Hj. apply bool_decide_eq_true in Hb as <-. by rewrite Hargv, Hj. }
  unfold run_command. apply refines_mem, Harg. replace (dispatch sys junk n argv) with (dispatch sys junk n (v :: rest)) by (by rewrite Hargv). unfold dispatch.
  command L_echo. destruct (bytes_eqb v (bytes_of "echo")) eqn:E.
  { apply (Hbuiltin _ _ _ _ E eq_refl). apply (refines_bind _ _ _ _ _ (fun _ s => s = mk_local m p)).
    - intros w. destruct (echo_loop m p args argv 1 fuel rest w Hargs) as (w' & Hw' & Hrun);
        [by rewrite Hargv|destruct Hargs as [? _]; rewrite Hargv in *; simpl in *; lia|].
      rewrite Hw'. by eexists.
    - intros [] s ->. by apply refines_lift. }
  clear E. command L_help. destruct (bytes_eqb v (bytes_of "help")) eqn:E; [apply (Hbuiltin _ _ _ _ E eq_refl); by apply refines_lift|].
  clear E. command L_exit. destruct (bytes_eqb v (bytes_of "exit")); simpl orb.
  { change (mret true ≫= ?k) with (k true). simpl.
    apply (refines_bind _ _ _ _ _ (fun _ _ => True)); [by apply refines_lift|]. intros _ s _ w. by eexists. }
  command L_quit. destruct (bytes_eqb v (bytes_of "quit")).
  { apply (refines_bind _ _ _ _ _ (fun _ _ => True)); [by apply refines_lift|]. intros _ s _ w. by eexists. }
  command L_time. destruct (bytes_eqb v (bytes_of "time")) eqn:E.
  { apply (Hbuiltin _ _ _ _ E eq_refl). apply (refines_bind _ _ _ _ _ (fun _ s => state junk (lmem s))); [by apply refines_lift|].
    intros [sec usec] s Hs. by apply refines_lift. }
  clear E. command L_pid. destruct (bytes_eqb v (bytes_of "pid")) eqn:E.
  { apply (Hbuiltin _ _ _ _ E eq_refl). do 3 (apply (refines_bind _ _ _ _ _ (fun _ s => state junk (lmem s))); [by apply refines_lift|]; intros ? ? ?).
    by apply refines_lift. }
  assert (forall (k : option (list Z) -> IO K unit),
    refines (p ← (if (1 <? length argv)%nat then mem (arg args 1) else mret 0);
             d ← mem (opt_cstr fuel p); lift (k d)) (mk_local m p) (k (head rest))
      (fun _ s => state junk (lmem s))) as Hopt.
  { intros k. destruct rest as [|v1 rest']; subst argv; simpl.
    - apply refines_mem. unfold opt_cstr. simpl. wp_step. by apply refines_lift.
    - destruct (args_lookup _ _ _ 1 v1 Hargs eq_refl) as (t & Ht & Hnz & Hw).
      apply refines_mem, Hw. apply refines_mem. unfold opt_cstr.
      destruct (Z.eqb_spec t 0); [done|]. wp_step. eapply wp_read_arg; [done|]. wp_step.
      by apply refines_lift. }
  clear E. command L_ls. destruct (bytes_eqb v (bytes_of "ls")) eqn:E; [apply (Hbuiltin _ _ _ _ E eq_refl), Hopt|].
  clear E. command L_cat. destruct (bytes_eqb v (bytes_of "cat")) eqn:E; [apply (Hbuiltin _ _ _ _ E eq_refl), Hopt|].
  clear Hopt Hbuiltin. subst argv. apply refines_mem. eapply wp_mono; [by apply (wp_fill_path junk m args (v :: rest) a0 v rest)|].
  intros _ m' (Hl' & Hargs' & Hpath' & Hlen). apply refines_mem. eapply wp_mono; [apply (wp_read_cstr _ _ _ (resolve junk v)); [done|lia]|].
  intros r m1 [-> ->]. apply refines_mem. eapply wp_mono; [by apply args_ok_read|].
  intros r m1 [-> ->]. apply (refines_bind _ _ _ _ _ (fun _ s => state (leaves junk (v :: rest)) (lmem s))); [by apply refines_lift|].
  intros _ s Hs. by apply refines_ret.
Qed.

(** ** A whole command line *)

Lemma refines_execute_command junk n m p a l :
  state junk m -> cstring m a l -> cmd_buf <= a -> a + lenZ l < cmd_buf + 256 ->
  refines (execute_command sys fuel path_buf rodata n a) (mk_local m p)
    (dispatch sys junk n (parse l)) (fun _ s => state (leaves junk (parse l)) (lmem s)).
Proof.
  intros Hl Hs Ha Hlen. unfold execute_command. apply refines_mem.
  set (blank := mem_bool [32; 9]).
  eapply wp_mono; [apply (wp_scan m a l blank); [done|done| |lia]|].
  { intros q b Hb _. wp_step. wp_step; [done|]. subst blank. simpl.
    rewrite orb_false_r. by destruct (_ || _); wp_step. }
  intros r m' [-> ->]. simpl lmem. simpl strtok_p. set (k := span blank l).
  pose proof (span_le blank l) as Hk. fold k in Hk.
  pose proof (cstring_drop m a l k Hs Hk) as Hs'.
  assert (parse l = parse (drop k l)) as -> by
    (unfold parse; f_equal; apply tokens_skip_blanks).
  pose proof (cstring_head _ _ _ Hs') as Hb. apply refines_mem. simpl lmem. simpl strtok_p.
  wp_step; [done|].
  assert (lenZ (drop k l) = lenZ l - Z.of_nat k) as Hd by (rewrite length_drop; lia).
  destruct (drop k l) as [|b l'] eqn:El.
  { rewrite Z.eqb_refl. by apply refines_ret. }
  assert (b <> 0) as Hnz by (pose proof (cs_nz _ _ _ Hs') as Hf; by inversion Hf).
  destruct (Z.eqb_spec b 0); [done|].
  destruct (strtok_call_first junk m p (a + Z.of_nat k) (b :: l') Hl ltac:(lia) ltac:(lia) Hs')
    as (t & p' & m1 & Hrun & Hl1 & Ht & _).
  eapply (refines_run _ _ _ _ _ _ _ Hrun).
  eapply refines_parse; [|exact Hl1|exact Ht|]; [lia|]. intros args s' Hl' Hargs.
  fold (parse (b :: l')). change (take 15 (tokens sep (b :: l'))) with (parse (b :: l')) in *.
  destruct (parse (b :: l')) as [|v rest] eqn:Ep; [by apply refines_ret|]. simpl Nat.eqb. cbv iota.
  by apply (refines_run_command junk n _ (v :: rest) v rest).
Qed.

(** ** The main loop *)

Lemma cstring_cut_nul m p l :
  mapped m p 264 -> (length l <= 255)%nat -> bytes_at m p (l ++ [0]) ->
  cstring m p (take (span truth l) l).
Proof.
  intros Hm Hlen Hb. set (k := span truth l). pose proof (span_le truth l) as Hk. fold k in Hk.
  assert (Forall (fun b => b <> 0) (take k l)) as Hnz.
  { subst k. clear. induction l as [|b l IH]; simpl; [done|].
    destruct (truth b) eqn:E; [|done]. constructor; [by apply truth_true|done]. }
  assert (exists tl, l ++ [0] = take k l ++ 0 :: tl) as [tl Htl].
  { subst k. clear. induction l as [|b l IH]; simpl; [by exists []|].
    destruct (truth b) eqn:E.
    - destruct IH as [tl Htl]. exists tl. simpl. by rewrite Htl.
    - apply truth_false in E as ->. by exists (l ++ [0]). }
  assert (length (take k l) <= 255)%nat by (rewrite length_take; lia).
  apply (cstring_buf m p _ 0); [done|done|done|]. rewrite Htl in Hb.
  change (0 :: tl) with ([0] ++ tl) in Hb. rewrite app_assoc in Hb.
  by apply bytes_at_app in Hb as [Hb _].
Qed.

(** The newline that ends the line is cut off. *)
Lemma refines_chomp {B} junk m p l (k : unit -> Sh K B) sp Q :
  state junk m -> cstring m cmd_buf l -> (length l <= 255)%nat ->
  (forall m' l', state junk m' -> cstring m' cmd_buf l' -> (length l' <= 255)%nat ->
     tokens sep l' = tokens sep l -> refines (k tt) (mk_local m' p) sp Q) ->
  refines ((if 0 <? lenZ l then
     b ← mem (load8 (cmd_buf + lenZ l - 1));
     if b =? 10 then mem (store8 (cmd_buf + lenZ l - 1) 0) else mret tt
   else mret tt) ≫= k) (mk_local m p) sp Q.
Proof.
  intros Hl Hs Hlen Hk. destruct l as [|x l0] using rev_ind; simpl; [by apply (Hk m [])|]. clear IHl0.
  rewrite length_app in *. change (length [x]) with 1%nat in *.
  destruct (Z.ltb_spec 0 (Z.of_nat (length l0 + 1))); [|lia].
  replace (cmd_buf + Z.of_nat (length l0 + 1) - 1) with (cmd_buf + lenZ l0) by lia.
  pose proof (cs_bytes _ _ _ Hs) as Hb. rewrite <- app_assoc in Hb.
  apply bytes_at_app in Hb as [Hb0 [Hx _]].
  apply refines_bind_assoc, refines_mem. wp_step; [done|].
  destruct (Z.eqb_spec x 10) as [->|]; [|apply (Hk m (l0 ++ [x])); [done|done|rewrite length_app; simpl; lia|done]].
  apply refines_mem. wp_step; [by eexists|]. simpl strtok_p.
  apply (Hk _ l0); [| |lia|by unfold tokens; rewrite tokens_from_newline].
  - apply (state_write junk m (cmd_buf + lenZ l0) [0]); [done|by repeat constructor|..];
      unfold disjoint_ranges in *; simpl; lia.
  - apply (cstring_cut m cmd_buf l0 10 []). done.
Qed.

(** One round of the loop: what follows the command runs after it. *)
Lemma refines_main_step {B} junk n s (k : unit + Z -> Sh K B) (sp0 : IO K B) (sp : list Z -> IO K B) Q :
  state junk (lmem s) ->
  (forall s', refines (k (inr 0)) s' sp0 Q) -> (forall junk' s', state junk' (lmem s') -> refines (k (inl tt)) s' (sp junk') Q) ->
  refines (main_step sys fuel cmd_buf path_buf rodata n ≫= k) s
    (printf (bytes_of "rux> ");; r ← get_line 255;
     match r with
     | None => sp0
     | Some line => let argv := parse (take (span truth line) line) in dispatch sys junk n argv;; sp (leaves junk argv)
     end) Q.
Proof.
  intros Hl Hk0 Hk. unfold main_step. apply refines_bind_assoc.
  apply (refines_bind _ _ _ _ _ (fun _ s => state junk (lmem s))); [by apply refines_lift|].
  intros _ [m p] Hm. simpl lmem in Hm. apply refines_bind_assoc. unfold fgets_cmd. apply refines_bind_assoc.
  apply (refines_bind _ _ _ _ _ (fun r s => s = mk_local m p /\
    forall line, r = Some line -> (length line <= 255)%nat /\ Forall is_byte line)).
  { apply refines_lift_post. intros w a w' Hw. split; [done|]. by eapply get_line_spec. }
  intros [line|] s' [-> Hline]; [|apply Hk0].
  destruct (Hline line eq_refl) as [Hlen Hbytes]. clear Hline. cbv zeta.
  apply refines_bind_assoc, refines_mem.
  assert (Forall is_byte (line ++ [0])) as Hb0 by (apply Forall_app; split; [done|by repeat constructor]).
  eapply wp_mono; [apply wp_store_bytes; [|done]|].
  { eapply mapped_weaken; [apply (ly_cmd _ (proj1 Hm))|lia|rewrite length_app; simpl; lia]. }
  intros _ m1 ->. simpl strtok_p.
  assert (state junk (mem_write m cmd_buf (line ++ [0]))) as Hl1.
  { apply state_write; [done|done|..]; rewrite length_app; unfold disjoint_ranges in *; simpl; lia. }
  assert (cstring (mem_write m cmd_buf (line ++ [0])) cmd_buf (take (span truth line) line)) as Hs.
  { apply cstring_cut_nul; [apply Hl1|done|apply mem_write_bytes_at]. }
  set (m1 := mem_write _ _ _) in *. set (l := take (span truth line) line) in *.
  assert (length l <= 255)%nat by (subst l; rewrite length_take; lia).
  change (mret true ≫= ?k) with (k true). simpl negb. cbv iota. apply refines_bind_assoc, refines_mem.
  eapply wp_mono; [apply (wp_strlen m1 cmd_buf l); [apply Hl1|done|lia]|]. intros r m' [-> ->]. simpl strtok_p.
  apply refines_bind_assoc. apply (refines_chomp junk); [done|done|done|]. intros m2 l2 Hl2 Hs2 Hlen2 Htok.
  assert (parse l = parse l2) as -> by (unfold parse; by rewrite Htok).
  apply refines_bind_assoc. apply (refines_bind _ _ _ _ _ (fun _ s => state (leaves junk (parse l2)) (lmem s))).
  - apply refines_execute_command; [done|done|lia|lia].
  - intros _ s2 Hs'. by apply Hk.
Qed.

Lemma refines_main junk n lines s :
  state junk (lmem s) ->
  refines (main sys fuel cmd_buf path_buf rodata n lines) s (session sys junk n lines) (fun _ _ => True).
Proof.
  intros Hl. unfold main, session.
  apply (refines_bind _ _ _ _ _ (fun _ s => state junk (lmem s))); [by apply refines_lift|].
  intros _ s' Hs'. clear s Hl. revert junk s' Hs'. induction lines as [|lines IH]; intros junk s Hs; [done|].
  cbn [sh_loop session_loop]. apply refines_main_step; [done| |].
  - intros s'. by apply refines_ret.
  - intros junk' s' Hs'. by apply IH.
Qed.
End shell_proofs.

(** ** The builtins against the kernel *)

(** [append w es k]: the world [w] after the events [es], kernel state [k]. *)
Definition append {K} (w : io K) (es : list event) (k : K) : io K :=
  mk_io k (io_stdin w) (io_trace w ++ es).

Section cat.
Context {K : Type} (sys : kernel K) (fd : Z) (rem : K -> list Z).
(** The open file [fd] has the bytes [rem k] left: a read returns some of
    them, none only at the end; a write to stdout accepts at least one byte
    and leaves the file alone. *)
Context (Hread : forall k, exists buf k', sys_read sys fd 512 k = (Ok buf, k') /\
           rem k = buf ++ rem k' /\ (buf = [] -> rem k = [])).
Context (Hwrite : forall k b, b <> [] -> exists c k', sys_write sys b k = (Ok c, k') /\
           1 <= c <= lenZ b /\ rem k' = rem k).

Lemma write_all_ok n buf w off :
  (length buf - off < n)%nat -> (off <= length buf)%nat ->
  exists chunks k', concat chunks = drop off buf /\ rem k' = rem (io_k w) /\
    io_loop n (fun bytes_written : nat =>
      if (bytes_written <? length buf)%nat then
        r ← call (sys_write sys (drop bytes_written buf));
        match r with
        | Err errno =>
            printf (NL ++ bytes_of "cat: write error: " ++ fmt_d errno ++ NL);;
            call (fun k => (tt, sys_close sys fd k));;
            mret (inr false)
        | Ok k =>
            emit (Write (take (Z.to_nat k) (drop bytes_written buf)));;
            mret (inl (bytes_written + Z.to_nat k)%nat)
        end
      else mret (inr true)) off w = Some (Returns true, append w (Write <$> chunks) k').
Proof.
  revert w off. induction n as [|n IH]; intros w off Hn Hoff; [lia|].
  simpl. unfold mbind at 1, IO_bind at 1. destruct (Nat.ltb_spec off (length buf)) as [Hlt|Hge].
  - destruct (Hwrite (io_k w) (drop off buf)) as (c & k1 & Ew & Hc & Hr).
    { intros E. apply (f_equal length) in E. rewrite length_drop in E. simpl in E. lia. }
    rewrite length_drop in Hc.
    unfold mbind at 1, IO_bind at 1. unfold call. rewrite Ew.
    destruct (IH (append w [Write (take (Z.to_nat c) (drop off buf))] k1) (off + Z.to_nat c)%nat)
      as (chunks & k2 & Hch & Hr2 & Hrun); [lia|lia|].
    exists (take (Z.to_nat c) (drop off buf) :: chunks), k2. split_and!.
    + simpl. rewrite Hch, <- drop_drop. apply take_drop.
    + by rewrite Hr2.
    + unfold append in *. simpl in *. rewrite <- app_assoc in Hrun. exact Hrun.
  - exists [], (io_k w). split_and!; [by rewrite drop_ge|done|].
    unfold append. simpl. rewrite app_nil_r. by destruct w.
Qed.

Lemma cat_loop_ok n w m :
  (length (rem (io_k w)) < n)%nat -> (length (rem (io_k w)) < m)%nat ->
  exists chunks k', concat chunks = rem (io_k w) /\ rem k' = [] /\
    io_loop n (fun _ : unit =>
      r ← call (sys_read sys fd 512);
      match r with
      | Err errno => mret (inr (Some (Err errno)))
      | Ok [] => mret (inr (Some (Ok tt)))
      | Ok buf =>
          ok ← write_all sys m fd buf;
          mret (if (ok : bool) then inl tt else inr None)
      end) tt w = Some (Returns (Some (Ok tt)), append w (Write <$> chunks) k').
Proof.
  revert w. induction n as [|n IH]; intros w Hn Hm; [lia|].
  destruct (Hread (io_k w)) as (buf & k1 & Er & Hrem & Hnil).
  simpl. unfold mbind at 1, IO_bind at 1. unfold mbind at 1, IO_bind at 1. unfold call. rewrite Er.
  destruct buf as [|b buf].
  - exists [], k1. simpl in Hrem. split_and!; [by rewrite Hnil|by rewrite <- Hrem, Hnil|].
    unfold append. simpl. by rewrite app_nil_r.
  - pose proof (f_equal length Hrem) as Hlen. rewrite length_app in Hlen.
    destruct (write_all_ok m (b :: buf) (append w [] k1) 0) as (c1 & k2 & Hc1 & Hr2 & Hrun1);
      [simpl in *; lia|lia|].
    assert (length (b :: buf) = S (length buf)) as Hsl by done.
    destruct (IH (append w (Write <$> c1) k2)) as (c2 & k3 & Hc2 & Hr3 & Hrun2).
    { simpl io_k. rewrite Hr2. simpl. lia. }
    { simpl io_k. rewrite Hr2. simpl. lia. }
    exists (c1 ++ c2), k3. split_and!.
    + rewrite concat_app, Hc1, Hc2, Hrem. simpl io_k. by rewrite Hr2.
    + done.
    + unfold mbind at 1, IO_bind at 1. unfold write_all.
      replace (mk_io k1 (io_stdin w) (io_trace w)) with (append w [] k1)
        by (unfold append; by rewrite app_nil_r).
      rewrite Hrun1. simpl in *. unfold append in *. simpl in *.
      rewrite app_nil_r, fmap_app, app_assoc. exact Hrun2.
Qed.

(** C33: [cat] of a file that opens copies its whole contents to standard
    output, in order and once, whatever the sizes of the reads and of the
    partial writes, and closes the file. *)
Theorem cat_copies_file name n w k0 :
  sys_open sys name (io_k w) = (Ok fd, k0) -> (length (rem k0) < n)%nat ->
  exists chunks k', concat chunks = rem k0 /\ rem k' = [] /\
    cmd_cat sys n (Some name) w =
      Some (Returns tt, append w (Write <$> chunks) (sys_close sys fd k')).
Proof.
  intros Ho Hn. destruct (cat_loop_ok n (append w [] k0) n Hn Hn) as (chunks & k' & Hc & Hr & Hrun).
  exists chunks, k'. split_and!; [done|done|].
  unfold cmd_cat, mbind at 1, IO_bind at 1. unfold call at 1. rewrite Ho.
  replace (mk_io k0 (io_stdin w) (io_trace w)) with (append w [] k0)
    by (unfold append; by rewrite app_nil_r).
  unfold mbind at 1, IO_bind at 1. rewrite Hrun. unfold append. simpl. by rewrite app_nil_r.
Qed.
End cat.

Section ls.
Context {K : Type} (sys : kernel K) (dir : Z) (ents : K -> list (Z * list Z)).
(** The open directory [dir] has the entries [ents k] left. *)
Context (Hreaddir : forall k, exists k', sys_readdir sys dir k = (head (ents k), k') /\
           ents k' = tail (ents k)).

Definition entry_line (e : Z * list Z) : event :=
  Printf (bytes_of "  " ++ [type_char e.1] ++ bytes_of " " ++ e.2 ++ NL).

Lemma ls_loop_ok n w :
  (length (ents (io_k w)) < n)%nat ->
  exists k', ents k' = [] /\ io_loop n (fun _ : unit =>
        entry ← call (sys_readdir sys dir);
        match entry with
        | None => mret (inr tt)
        | Some (d_type, d_name) =>
            printf (bytes_of "  " ++ [type_char d_type] ++ bytes_of " " ++ d_name ++ NL);;
            mret (inl tt)
        end) tt w = Some (Returns tt, append w (entry_line <$> ents (io_k w)) k').
Proof.
  revert w. induction n as [|n IH]; intros w Hn; [lia|].
  destruct (Hreaddir (io_k w)) as (k1 & Er & Ht).
  simpl. unfold mbind at 1, IO_bind at 1. unfold mbind at 1, IO_bind at 1. unfold call. rewrite Er.
  destruct (ents (io_k w)) as [|[ty nm] es]; simpl in *.
  - exists k1. split; [done|]. unfold append. by rewrite app_nil_r.
  - destruct (IH (append w [entry_line (ty, nm)] k1)) as (k2 & Hk2 & Hrun).
    { simpl. rewrite Ht. lia. }
    exists k2. split; [done|]. simpl in Hrun. rewrite Ht in Hrun. unfold append in *. simpl in *.
    rewrite <- app_assoc in Hrun. exact Hrun.
Qed.

(** [ls] of a directory that opens prints one line for every entry, in
    the order of the directory and with the letter of its type, and closes
    the directory. *)
Theorem ls_lists_all name n w k0 :
  let path := default (bytes_of ".") name in
  sys_opendir sys path (io_k w) = (Ok dir, k0) -> (length (ents k0) < n)%nat ->
  exists k', ents k' = [] /\ cmd_ls sys n name w = Some (Returns tt,
    append w (Printf (bytes_of "Contents of " ++ path ++ bytes_of ":" ++ NL) :: (entry_line <$> ents k0))
      (sys_closedir sys dir k')).
Proof.
  intros path Ho Hn. set (e0 := Printf (bytes_of "Contents of " ++ path ++ bytes_of ":" ++ NL)).
  destruct (ls_loop_ok n (append w [e0] k0) Hn) as (k' & Hk' & Hrun).
  exists k'. split; [done|]. unfold cmd_ls, mbind at 1, IO_bind at 1. unfold call at 1. fold path.
  rewrite Ho. change (printf _ ≫= ?k) with (fun w => k tt (append w [e0] (io_k w))). cbv beta.
  simpl io_k. unfold mbind at 1, IO_bind at 1.
  replace (append (mk_io k0 (io_stdin w) (io_trace w)) [e0] k0) with (append w [e0] k0) by done.
  rewrite Hrun. unfold append. simpl. by rewrite <- app_assoc.
Qed.
End ls.

Section correctness.
Context {K : Type} (sys : kernel K) (fuel : nat) (cmd_buf path_buf rodata : Z).

(** Where the compiler put the buffers and the literals. *)
Record placement : Prop := {
  pl_fuel : (300 <= fuel)%nat;
  pl_cmd : 0 < cmd_buf;
  pl_path : 0 < path_buf;
  pl_path64 : path_buf + 264 <= 2 ^ 64;
  pl_cp : disjoint_ranges cmd_buf 264 path_buf 264;
  pl_cr : disjoint_ranges cmd_buf 264 rodata 72;
  pl_pr : disjoint_ranges path_buf 264 rodata 72
}.

(** C1: The shell implements its specification: for every kernel, every
    input and every bound on the loops, [main] working on memory performs
    exactly the output and the system calls of [session], which reads lines,
    splits them into words and dispatches commands on byte lists. The two are
    equal as results: no undefined behaviour stops [main] before [session],
    and it runs out of a bound exactly when [session] does. Words that overrun
    the path buffer are included: reading behind the array, undefined in C, is
    reading the memory there, which [trailing] says holds the string [junk]
    and a NUL within nine bytes from the buffer's last one. A session ends when
    directories and files end and [lines] exceeds the bytes of the input. *)
Theorem main_refines_session junk n lines m p (w : io K) :
  placement -> layout cmd_buf path_buf rodata m -> trailing path_buf m junk ->
  (fun r => (r.1.1, r.2)) <$> main sys fuel cmd_buf path_buf rodata n lines (mk_local m p) w = session sys junk n lines w /\
  (forall Inv entries bytes_left, finite_kernel sys n Inv entries bytes_left -> Inv (io_k w) -> (length (io_stdin w) < lines)%nat ->
    exists o w', session sys junk n lines w = Some (o, w')).
Proof.
  intros [] Hl Hj. split; [|intros; by eapply session_ends].
  pose proof (refines_main sys fuel cmd_buf path_buf rodata
    ltac:(done) ltac:(done) ltac:(done) ltac:(done) ltac:(done) ltac:(done) ltac:(done)
    junk n lines (mk_local m p) (conj Hl Hj) w) as H.
  destruct (session sys junk n lines w) as [[o w']|]; [destruct H as (s' & -> & _)|rewrite H]; done.
Qed.

(** C2: A command line stored as a C string in the line buffer is executed as
    the command made of its first fifteen words, for every line that fits the
    buffer: the same outcome, output and system calls, and the program's memory
    keeps its layout. A word of 255 bytes that starts with ['/'] or ['.'] and
    overruns the path buffer is included: its path goes on with the string
    [junk] that [trailing] puts behind it. A command ends when directories and
    files do. *)
Theorem execute_command_refines_dispatch junk n m p l (w : io K) :
  placement -> layout cmd_buf path_buf rodata m -> trailing path_buf m junk ->
  cstring m cmd_buf l -> (length l <= 255)%nat ->
  match dispatch sys junk n (parse l) w with
  | Some (o, w') =>
      exists s', execute_command sys fuel path_buf rodata n cmd_buf (mk_local m p) w = Some (o, s', w') /\
        (forall a, o = Returns a -> layout cmd_buf path_buf rodata (lmem s') /\ trailing path_buf (lmem s') (leaves junk (parse l)))
  | None => execute_command sys fuel path_buf rodata n cmd_buf (mk_local m p) w = None
  end /\
  (forall Inv entries bytes_left, finite_kernel sys n Inv entries bytes_left -> Inv (io_k w) ->
    exists o w', dispatch sys junk n (parse l) w = Some (o, w')).
Proof.
  intros [] Hl Hj Hs Hlen. split.
  - pose proof (refines_execute_command sys fuel cmd_buf path_buf rodata
      ltac:(done) ltac:(done) ltac:(done) ltac:(done) ltac:(done) ltac:(done) ltac:(done)
      junk n m p cmd_buf l (conj Hl Hj) Hs ltac:(lia) ltac:(lia) w) as H.
    destruct (dispatch sys junk n (parse l) w) as [[o w']|]; exact H.
  - intros Inv entries bytes_left F Hi.
    destruct (dispatch_ends sys n Inv entries bytes_left F junk (parse l) (io_stdin w) w (conj Hi eq_refl)) as (o & w' & E & _). by exists o, w'.
Qed.

(** C34: In every run of the shell, on any kernel and input, the shell's own
    process waits for each child it forks, at once and for nothing else; a
    child never reads another command: right after the fork it becomes the
    program, or prints a message and exits with status 1; and only a child
    exits with that status. *)
Theorem main_processes junk n lines m p (w : io K) o s' w' :
  placement -> layout cmd_buf path_buf rodata m -> trailing path_buf m junk ->
  main sys fuel cmd_buf path_buf rodata n lines (mk_local m p) w = Some (o, s', w') ->
  exists tr, io_trace w' = io_trace w ++ tr /\ run_ok o tr.
Proof.
  intros [] Hl Hj E. apply (traced_session sys junk n lines).
  pose proof (refines_main sys fuel cmd_buf path_buf rodata
    ltac:(done) ltac:(done) ltac:(done) ltac:(done) ltac:(done) ltac:(done) ltac:(done)
    junk n lines (mk_local m p) (conj Hl Hj) w) as H.
  destruct (session sys junk n lines w) as [[o1 w1]|]; [destruct H as (s1 & E1 & _)|]; congruence.
Qed.

(** C35: a program path of 255 bytes that starts with ['/'] or ['.'] is
    copied without a terminating NUL: the last byte of the path buffer is
    not written, so the path the program is run with depends on what the
    buffer held before. *)
Theorem long_path_unterminated m a0 v :
  placement -> layout cmd_buf path_buf rodata m -> argp cmd_buf m a0 v ->
  length v = 255%nat -> head v = Some 47 \/ head v = Some 46 ->
  exists m', fill_path fuel path_buf a0 m = Some (tt, m') /\
    bytes_at m' path_buf v /\ m' !! (path_buf + 255) = m !! (path_buf + 255).
Proof.
  intros [] Hl (Hv & ? & ?) Hlen Hh.
  cut (wp (fill_path fuel path_buf a0) m (fun _ m' => m' = mem_write m path_buf v)).
  { unfold wp. destruct (fill_path fuel path_buf a0 m) as [[[] m']|]; [|done]. intros ->.
    eexists. split; [done|]. split; [apply mem_write_bytes_at|]. apply mem_write_ne. lia. }
  pose proof (cstring_head _ _ _ Hv) as Hb. unfold fill_path. wp_step. wp_step; [done|].
  destruct v as [|b v']; [done|]. simpl in Hh.
  assert ((b =? 47) || (b =? 46) = true) as ->.
  { apply orb_true_iff. rewrite !Z.eqb_eq. destruct Hh as [[= ->]|[= ->]]; auto. }
  apply wp_bind. change (256 - 1) with (Z.of_nat 255). apply wp_bind.
  eapply wp_mono.
  - eapply (wp_stpncpy m path_buf a0 (b :: v')); [apply Hl|done| | |done|lia|lia].
    + eapply mapped_weaken; [apply (ly_path _ _ _ _ Hl)|lia|lia].
    + unfold disjoint_ranges in *. lia.
  - intros r m' [_ ->]. wp_step. wp_step. f_equal. rewrite Hlen, take_ge by lia. simpl.
    by rewrite app_nil_r.
Qed.
End correctness.

(** ** A concrete machine: the hypotheses of the theorems hold *)

Module Demo.

(** One open file and one open directory, short reads and writes. *)
Definition fs : Type := list Z * list (Z * list Z).
Definition fs_kernel : kernel fs := {|
sys_opendir _ k := (Ok 4, k);
sys_readdir _ k := (head k.2, (k.1, tail k.2));
sys_closedir _ k := k;
sys_open _ k := (Ok 3, k);
sys_read _ n k := (Ok (take 2 k.1), (drop 2 k.1, k.2));
sys_write b k := (Ok 1, k);
sys_close _ k := k;
sys_fork k := (7, k);
sys_execve _ _ k := (true, k);
sys_waitpid _ k := k;
sys_gettimeofday k := ((1, 2), k);
sys_getpid _ := 1;
sys_getppid _ := 0
|}.

Definition all_lits : list lit :=
[L_sep; L_echo; L_help; L_exit; L_quit; L_time; L_pid; L_ls; L_cat].
Definition slot (x : lit) : list Z := lit_bytes x ++ replicate (8 - length (lit_bytes x)) 0.
Definition image (line : list Z) : memory :=
mem_write (mem_write (mem_write ∅ 4096 (concat (slot <$> all_lits))) 2048 (replicate 264 0))
  1024 (line ++ replicate (264 - length line) 0).

Lemma image_placement : placement 300 1024 2048 4096.
Proof. split; unfold disjoint_ranges; lia. Qed.

Lemma image_layout line :
Forall is_byte line -> (length line <= 255)%nat -> layout 1024 2048 4096 (image line).
Proof.
intros Hl Hlen. set (lits := concat (slot <$> all_lits)).
assert (forall m p l, mapped (mem_write m p l) p (length l)) as Hmap.
{ intros m p l q Hq. rewrite mem_write_lookup. case_decide; [|lia]. apply lookup_lt_is_Some_2. lia. }
assert (length (line ++ replicate (264 - length line) 0) = 264%nat) as Hlen'
  by (rewrite length_app, length_replicate; lia).
split.
- unfold image. repeat apply mem_ok_write; [by intros ? ? ?| |by apply Forall_replicate|].
  + by repeat constructor.
  + apply Forall_app; split; [done|by apply Forall_replicate].
- intros x. unfold image.
  assert (disjoint_ranges 1024 264 (lit_addr 4096 x) (length (lit_bytes x) + 1) /\
          disjoint_ranges 2048 264 (lit_addr 4096 x) (length (lit_bytes x) + 1)) as [Hd1 Hd2].
  { unfold disjoint_ranges, lit_addr. destruct x; simpl; lia. }
  apply cstring_mem_write; [|unfold disjoint_ranges in *; lia].
  apply cstring_mem_write; [|rewrite length_replicate; unfold disjoint_ranges in *; lia].
  split.
  + destruct x; by repeat split.
  + destruct x; by repeat constructor.
  + intros q Hq. apply (Hmap ∅ 4096 lits). change (Z.of_nat (length lits)) with 72.
    destruct x; unfold lit_addr in Hq; simpl in Hq;
      match type of Hq with context [?a / 8] => change (a / 8) with (Z.div a 8) in Hq end;
      vm_compute Z.div in Hq; lia.
- unfold image. rewrite <- Hlen' at 3. apply Hmap.
- unfold image. apply mapped_mem_write. apply (Hmap _ 2048 (replicate 264 0)).
Qed.

Lemma image_cstring line :
Forall (fun b => b <> 0) line -> (length line <= 255)%nat -> cstring (image line) 1024 line.
Proof.
intros Hnz Hlen. apply (cstring_buf (image line) 1024 line (263 - length line)); [|done|done|].
- intros q Hq. unfold image. rewrite mem_write_lookup, length_app, length_replicate.
  case_decide; [|lia]. apply lookup_lt_is_Some_2. rewrite length_app, length_replicate. lia.
- replace (S (263 - length line)) with (264 - length line)%nat by lia. apply mem_write_bytes_at.
Qed.

Definition typed (s : string) : list Byte.byte := list_byte_of_string s.

(** A session: [echo hi there] and [exit]. *)
Definition world (stdin : list Byte.byte) (file : list Z) (entries : list (Z * list Z)) : io fs :=
mk_io (file, entries) stdin [].
Definition two_lines : list Byte.byte :=
typed "echo hi  there" ++ [Byte.x0a] ++ typed "exit" ++ [Byte.x0a].
Definition after {A} (c : IO fs A) (w : io fs) : io fs :=
match c w with Some (_, w') => w' | None => w end.

Lemma image_trailing line : (length line <= 264)%nat -> trailing 2048 (image line) [].
Proof.
intros Hlen. split; [|simpl; lia]. unfold image.
assert (length (line ++ replicate (264 - length line) 0) = 264%nat) as Hlen' by (rewrite length_app, length_replicate; lia).
apply cstring_mem_write; [|rewrite Hlen'; unfold disjoint_ranges; simpl; lia].
set (m := mem_write _ 4096 _). pose proof (mem_write_bytes_at m 2048 (replicate 264 0)) as Hb. change 264%nat with (255 + (1 + 8))%nat in Hb at 2.
rewrite !replicate_add in Hb. apply bytes_at_app in Hb as [_ Hb]. apply bytes_at_app in Hb as [Hb _]. split; [exact Hb|constructor|].
intros q Hq. change (2048 + 255 + Z.of_nat (length (@nil Z))) with 2303 in Hq. change (2303 / 8) with 287 in Hq. rewrite mem_write_lookup, length_replicate. case_decide; [|lia].
apply lookup_lt_is_Some_2. rewrite length_replicate. lia.
Qed.

Lemma fs_finite n : finite_kernel fs_kernel n (fun k => length k.1 < n /\ length k.2 < n)%nat (fun _ k => length k.2) (fun _ k => length k.1).
Proof.
split; simpl; try done.
- intros _ k r k' Hk [= <- <-]. split; [done|]. intros d _. lia.
- intros _ k r k' [H1 H2] [= <- <-]. destruct k as [l [|e es]]; simpl in *; (split; [lia|]); intros; [done|lia].
- intros _ k r k' Hk [= <- <-]. split; [done|]. intros d _. lia.
- intros _ k r k' [H1 H2] [= <- <-]. simpl. rewrite length_drop. split; [lia|]. intros buf [= <-]. rewrite length_take. split; [lia|].
  intros Hne. destruct k.1; [done|]. simpl. lia.
- intros b k r k' Hk _ [= <- <-]. split; [done|]. split; [|done]. intros c [= <-]. lia.
Qed.

Lemma main_refines_session_witness :
((fun r => (r.1.1, r.2)) <$> main fs_kernel 300 1024 2048 4096 5 31 (mk_local (image []) 0) (world two_lines [] []) =
   Some (Exits 0, after (session fs_kernel [] 5 31) (world two_lines [] []))) /\
(exists o w', session fs_kernel [] 5 31 (world two_lines [] []) = Some (o, w')).
Proof.
destruct (main_refines_session fs_kernel 300 1024 2048 4096 [] 5 31 (image []) 0 (world two_lines [] []) image_placement
  (image_layout [] ltac:(constructor) ltac:(simpl; lia)) (image_trailing [] ltac:(simpl; lia))) as [E Hends]. split.
- etransitivity; [exact E|]. vm_compute. reflexivity.
- apply (Hends _ _ _ (fs_finite 5)); [simpl; lia|vm_compute; lia].
Defined.

Lemma execute_command_witness :
(exists s', execute_command fs_kernel 300 2048 4096 5 1024
    (mk_local (image (bytes_of "  ls /")) 0) (world [] [] [(4, bytes_of "bin")]) =
  Some (Returns tt, s', append (world [] [] []) [Printf (bytes_of "Contents of /:" ++ NL);
    Printf (bytes_of "  d bin" ++ NL)] ([], [])) /\
  (forall a : unit, Returns tt = Returns a -> layout 1024 2048 4096 (lmem s') /\ trailing 2048 (lmem s') [])) /\
(exists o w', dispatch fs_kernel [] 5 (parse (bytes_of "  ls /")) (world [] [] [(4, bytes_of "bin")]) = Some (o, w')).
Proof.
destruct (execute_command_refines_dispatch fs_kernel 300 1024 2048 4096 [] 5 (image (bytes_of "  ls /")) 0 (bytes_of "  ls /") (world [] [] [(4, bytes_of "bin")]) image_placement
  (image_layout (bytes_of "  ls /") ltac:(by repeat constructor) ltac:(simpl; lia)) (image_trailing (bytes_of "  ls /") ltac:(simpl; lia))
  (image_cstring (bytes_of "  ls /") ltac:(by repeat constructor) ltac:(simpl; lia)) ltac:(simpl; lia)) as [H Hends].
split; [exact H|]. apply (Hends _ _ _ (fs_finite 5)). simpl. lia.
Defined.

(** One line that runs a program. *)
Definition one_program : list Byte.byte := typed "true" ++ [Byte.x0a].
Lemma main_processes_witness :
exists tr, io_trace (after (session fs_kernel [] 5 9) (world one_program [] [])) = [] ++ tr /\ run_ok (Returns 0) tr.
Proof.
destruct (main fs_kernel 300 1024 2048 4096 5 9 (mk_local (image []) 0) (world one_program [] [])) as [[[o s'] w']|] eqn:E; [|exfalso; revert E; vm_compute; discriminate].
assert ((o, w') = (Returns 0, after (session fs_kernel [] 5 9) (world one_program [] []))) as Eo.
{ apply (f_equal (fmap (fun r => (r.1.1, r.2)))) in E. apply (inj Some). etransitivity; [exact (eq_sym E)|]. vm_compute. reflexivity. }
injection Eo as -> ->.
exact (main_processes fs_kernel 300 1024 2048 4096 [] 5 9 (image []) 0 (world one_program [] []) (Returns 0) s' _ image_placement
  (image_layout [] ltac:(constructor) ltac:(simpl; lia)) (image_trailing [] ltac:(simpl; lia)) E).
Defined.

Lemma cat_copies_file_witness :
exists chunks k', concat chunks = [104; 105; 10] /\ k'.1 = [] /\
  cmd_cat fs_kernel 9 (Some (bytes_of "f")) (world [] [104; 105; 10] []) =
    Some (Returns tt, append (world [] [104; 105; 10] []) (Write <$> chunks) k').
Proof.
apply (cat_copies_file fs_kernel 3 fst) with (k0 := ([104; 105; 10], [])); [| |reflexivity|simpl; lia].
- intros [l es]. exists (take 2 l), (drop 2 l, es). split; [done|]. split; [exact (eq_sym (take_drop 2 l))|].
  by destruct l.
- intros k b Hb. exists 1, k. split; [done|]. destruct b; [done|simpl; split; [lia|done]].
Defined.

Lemma ls_lists_all_witness :
exists k', k'.2 = [] /\ cmd_ls fs_kernel 9 None (world [] [] [(4, bytes_of "bin"); (8, bytes_of "f")]) =
  Some (Returns tt, append (world [] [] [(4, bytes_of "bin"); (8, bytes_of "f")])
    [Printf (bytes_of "Contents of .:" ++ NL); Printf (bytes_of "  d bin" ++ NL);
     Printf (bytes_of "  - f" ++ NL)] k').
Proof.
apply (ls_lists_all fs_kernel 4 snd) with (name := None)
  (k0 := ([], [(4, bytes_of "bin"); (8, bytes_of "f")])); [|reflexivity|simpl; lia].
intros [f es]. by exists (f, tail es).
Defined.

Definition long_word : list Z := 47 :: replicate 254 97.

Lemma long_path_unterminated_witness :
exists m', fill_path 300 2048 1024 (image long_word) = Some (tt, m') /\
  bytes_at m' 2048 long_word /\ m' !! (2048 + 255) = image long_word !! (2048 + 255).
Proof.
apply (long_path_unterminated 300 1024 2048 4096 (image long_word) 1024 long_word).
- apply image_placement.
- apply image_layout; [by repeat constructor|simpl; lia].
- split; [|simpl; lia]. apply image_cstring; [by repeat constructor|simpl; lia].
- reflexivity.
- by left.
Defined.
End Demo.
