(* ===== verification/TimeConv.v ===== *)
(** * TimeConv: calendar time, toolchain/musl-1.2.5/src/time

    [__secs_to_tm], [__tm_to_secs], [__year_to_secs], [__month_to_secs],
    [gmtime_r] and [timegm].  Signed arithmetic is checked: a result outside
    the type is [None] (undefined behaviour).  The reference is the proleptic
    Gregorian calendar, [civil_secs]. *)

From S2P Require Import Prelude.
From Stdlib Require Import ZArith Lia Bool List.
From stdpp Require Import base tactics numbers list option.
Open Scope Z_scope.

Record tm := mk_tm {
  tm_sec : Z; tm_min : Z; tm_hour : Z; tm_mday : Z; tm_mon : Z; tm_year : Z;
  tm_wday : Z; tm_yday : Z; tm_isdst : Z; tm_gmtoff : Z; tm_zone : Z
}.

Definition INT_MAX : Z := 2147483647.
Definition INT_MIN : Z := -2147483648.

(** The value of an [int] or [long long] expression; [None] on overflow. *)
Definition ck32 (z : Z) : option Z := if (INT_MIN <=? z) && (z <=? INT_MAX) then Some z else None.
Definition ck64 (z : Z) : option Z := if (- 2 ^ 63 <=? z) && (z <? 2 ^ 63) then Some z else None.
(** Conversion to [int] keeps the low bits. *)
Abbreviation to_int := (swrap 32).

Definition LEAPOCH : Z := 946684800 + 86400 * (31 + 29).
Definition DAYS_PER_400Y : Z := 365 * 400 + 97.
Definition DAYS_PER_100Y : Z := 365 * 100 + 24.
Definition DAYS_PER_4Y : Z := 365 * 4 + 1.

Definition days_in_month : list Z := [31; 30; 31; 30; 31; 31; 30; 31; 30; 31; 31; 29].

(** The loop over the months: index and remaining days; reading past the
    table is undefined. *)
Fixpoint months_loop (tab : list Z) (months remdays : Z) : option (Z * Z) :=
  match tab with
  | [] => None
  | d :: tab =>
      if d <=? remdays then months_loop tab (months + 1) (remdays - d) else Some (months, remdays)
  end.

(** The result code and the object [*tm] after the call. *)
Definition __secs_to_tm (t : Z) (tm0 : tm) : option (Z * tm) :=
  if (t <? INT_MIN * 31622400) || (INT_MAX * 31622400 <? t) then Some (-1, tm0) else
  secs ← ck64 (t - LEAPOCH);
  let days := secs `quot` 86400 in
  let remsecs := to_int (secs `rem` 86400) in
  let '(remsecs, days) := if remsecs <? 0 then (remsecs + 86400, days - 1) else (remsecs, days) in
  let wday := to_int ((3 + days) `rem` 7) in
  let wday := if wday <? 0 then wday + 7 else wday in
  let qc_cycles := to_int (days `quot` DAYS_PER_400Y) in
  let remdays := to_int (days `rem` DAYS_PER_400Y) in
  let '(remdays, qc_cycles) :=
    if remdays <? 0 then (remdays + DAYS_PER_400Y, qc_cycles - 1) else (remdays, qc_cycles) in
  let c_cycles := remdays `quot` DAYS_PER_100Y in
  let c_cycles := if c_cycles =? 4 then c_cycles - 1 else c_cycles in
  remdays ← ck32 (remdays - c_cycles * DAYS_PER_100Y);
  let q_cycles := remdays `quot` DAYS_PER_4Y in
  let q_cycles := if q_cycles =? 25 then q_cycles - 1 else q_cycles in
  remdays ← ck32 (remdays - q_cycles * DAYS_PER_4Y);
  let remyears := remdays `quot` 365 in
  let remyears := if remyears =? 4 then remyears - 1 else remyears in
  remdays ← ck32 (remdays - remyears * 365);
  let leap := Z.b2z ((remyears =? 0) && (negb (q_cycles =? 0) || (c_cycles =? 0))) in
  yday ← ck32 (remdays + 31 + 28 + leap);
  let yday := if 365 + leap <=? yday then yday - (365 + leap) else yday in
  years ← ck64 (remyears + 4 * q_cycles + 100 * c_cycles + 400 * qc_cycles);
  '(months, remdays) ← months_loop days_in_month 0 remdays;
  let '(months, years) := if 10 <=? months then (months - 12, years + 1) else (months, years) in
  if (INT_MAX <? years + 100) || (years + 100 <? INT_MIN) then Some (-1, tm0) else
  Some (0, {|
    tm_year := to_int (years + 100);
    tm_mon := months + 2;
    tm_mday := remdays + 1;
    tm_wday := wday;
    tm_yday := yday;
    tm_hour := remsecs `quot` 3600;
    tm_min := (remsecs `quot` 60) `rem` 60;
    tm_sec := remsecs `rem` 60;
    tm_isdst := tm_isdst tm0; tm_gmtoff := tm_gmtoff tm0; tm_zone := tm_zone tm0 |}).

(** Seconds and the leap flag. *)
Definition __year_to_secs (year : Z) : option (Z * Z) :=
  if wrap64 (year - 2) <=? 136 then
    let y := to_int year in
    let leaps := Z.shiftr (y - 68) 2 in
    let '(leaps, is_leap) :=
      if Z.land (y - 68) 3 =? 0 then (leaps - 1, 1) else (leaps, 0) in
    a ← ck32 (31536000 * (y - 70));
    b ← ck32 (86400 * leaps);
    r ← ck32 (a + b);
    Some (r, is_leap)
  else
    year1 ← ck64 (year - 100);
    let cycles := to_int (year1 `quot` 400) in
    let rem := to_int (year1 `rem` 400) in
    let '(cycles, rem) := if rem <? 0 then (cycles - 1, rem + 400) else (cycles, rem) in
    let '(is_leap, centuries, leaps) :=
      if rem =? 0 then (1, 0, 0)
      else
        let '(centuries, rem) :=
          if 200 <=? rem then
            if 300 <=? rem then (3, rem - 300) else (2, rem - 200)
          else
            if 100 <=? rem then (1, rem - 100) else (0, rem) in
        if rem =? 0 then (0, centuries, 0)
        else (Z.b2z (rem `mod` 4 =? 0), centuries, rem / 4) in
    leaps ← ck32 (leaps + (97 * cycles + 24 * centuries - is_leap));
    a ← ck64 (year1 * 31536000);
    r ← ck64 (a + leaps * 86400 + 946684800 + 86400);
    Some (r, is_leap).

Definition secs_through_month : list Z :=
  [0; 31*86400; 59*86400; 90*86400;
   120*86400; 151*86400; 181*86400; 212*86400;
   243*86400; 273*86400; 304*86400; 334*86400].

Definition __month_to_secs (month is_leap : Z) : option Z :=
  t ← (if month <? 0 then None else secs_through_month !! Z.to_nat month);
  ck32 (if negb (is_leap =? 0) && (2 <=? month) then t + 86400 else t).

Definition __tm_to_secs (tm : tm) : option Z :=
  let year := tm_year tm in
  let month := tm_mon tm in
  let '(month, year) :=
    if (12 <=? month) || (month <? 0) then
      let adj := month `quot` 12 in
      let month := month `rem` 12 in
      let '(adj, month) := if month <? 0 then (adj - 1, month + 12) else (adj, month) in
      (month, year + adj)
    else (month, year) in
  '(t, is_leap) ← __year_to_secs year;
  ms ← __month_to_secs month is_leap;
  t ← ck64 (t + ms);
  d ← ck32 (tm_mday tm - 1);
  t ← ck64 (t + 86400 * d);
  t ← ck64 (t + 3600 * tm_hour tm);
  t ← ck64 (t + 60 * tm_min tm);
  ck64 (t + tm_sec tm).

Section gmtime.
(** The address of the string "UTC". *)
Context (__utc : Z).

Definition set_utc (x : tm) : tm :=
  mk_tm (tm_sec x) (tm_min x) (tm_hour x) (tm_mday x) (tm_mon x) (tm_year x)
    (tm_wday x) (tm_yday x) 0 0 __utc.

(** [None] inside is the null pointer with errno = EOVERFLOW. *)
Definition gmtime_r (t : Z) (tm0 : tm) : option (option tm) :=
  '(r, tm) ← __secs_to_tm t tm0;
  if r <? 0 then Some None else Some (Some (set_utc tm)).

(** The return value and [*tm]; -1 with errno = EOVERFLOW. *)
Definition timegm (new x : tm) : option (Z * tm) :=
  t ← __tm_to_secs x;
  '(r, new) ← __secs_to_tm t new;
  if r <? 0 then Some (-1, x) else Some (t, set_utc new).
End gmtime.

(** ** The calendar *)

Definition is_leap (y : Z) : bool :=
  (y `mod` 4 =? 0) && (negb (y `mod` 100 =? 0) || (y `mod` 400 =? 0)).

(** Days from 1970-01-01 to January 1 of year [y]. *)
Definition days_before_year (y : Z) : Z :=
  365 * (y - 1970) + (y - 1) / 4 - (y - 1) / 100 + (y - 1) / 400 - 477.

Definition month_days (leap : bool) : list Z :=
  [31; if leap then 29 else 28; 31; 30; 31; 30; 31; 31; 30; 31; 30; 31].

(** Days from January 1 to the first day of month [mon], counted from 0. *)
Definition days_before_month (leap : bool) (mon : Z) : Z :=
  foldr Z.add 0 (take (Z.to_nat mon) (month_days leap)).

(** Seconds from the epoch of a broken-down time; months outside a year
    carry over, all other fields count as they are. *)
Definition civil_secs (tm : tm) : Z :=
  let y := 1900 + tm_year tm + tm_mon tm / 12 in
  86400 * (days_before_year y + days_before_month (is_leap y) (tm_mon tm `mod` 12) + tm_mday tm - 1)
  + 3600 * tm_hour tm + 60 * tm_min tm + tm_sec tm.

(** A broken-down time with all fields in their ranges. *)
Definition valid_tm (tm : tm) : Prop :=
  let y := 1900 + tm_year tm in
  INT_MIN <= tm_year tm <= INT_MAX /\ 0 <= tm_mon tm < 12 /\
  (exists d, month_days (is_leap y) !! Z.to_nat (tm_mon tm) = Some d /\ 1 <= tm_mday tm <= d) /\
  0 <= tm_hour tm < 24 /\ 0 <= tm_min tm < 60 /\ 0 <= tm_sec tm < 60 /\
  tm_wday tm = (civil_secs tm / 86400 + 4) `mod` 7 /\
  tm_yday tm = days_before_month (is_leap y) (tm_mon tm) + tm_mday tm - 1.

Definition epoch0 : tm := mk_tm 0 0 0 0 0 0 0 0 0 0 0.
Example feb29 : __secs_to_tm 951782400 epoch0 = Some (0, mk_tm 0 0 0 29 1 100 2 59 0 0 0).
Proof. reflexivity. Qed.
Example neg1 : (__secs_to_tm (-1) epoch0 ≫= fun r => __tm_to_secs (r.2)) = Some (-1).
Proof. reflexivity. Qed.
Example far : (__secs_to_tm 1234567890123 epoch0 ≫= fun r => __tm_to_secs (r.2)) = Some 1234567890123.
Proof. reflexivity. Qed.

(** ** Checked arithmetic *)

Lemma ck32_ok z : INT_MIN <= z <= INT_MAX -> ck32 z = Some z.
Proof. intros. unfold ck32. by rewrite !(proj2 (Z.leb_le _ _)) by lia. Qed.
Lemma ck64_ok z : - 2 ^ 63 <= z < 2 ^ 63 -> ck64 z = Some z.
Proof. intros. unfold ck64. rewrite (proj2 (Z.leb_le _ _)), (proj2 (Z.ltb_lt _ _)) by lia. done. Qed.
Lemma to_int_ok z : INT_MIN <= z <= INT_MAX -> to_int z = z.
Proof. intros. apply swrap_small; unfold INT_MIN, INT_MAX in *; lia. Qed.

Ltac Zify.zify_post_hook ::= Z.to_euclidean_division_equations.
Ltac tlia := unfold INT_MIN, INT_MAX, LEAPOCH, DAYS_PER_400Y, DAYS_PER_100Y, DAYS_PER_4Y in *; lia.
Ltac ck := first [rewrite ck32_ok by tlia | rewrite ck64_ok by tlia]; simpl.

(** ** Years *)

(** Truncating division followed by a correction of a negative remainder. *)
Lemma quot_fix a n : 0 < n ->
  (if a `rem` n <? 0 then (a `quot` n - 1, a `rem` n + n) else (a `quot` n, a `rem` n)) = (a / n, a `mod` n).
Proof.
  intros Hn. pose proof (Z.quot_rem' a n) as E. pose proof (Z.rem_bound_abs a n ltac:(lia)) as B.
  rewrite (Z.abs_eq n) in B by lia.
  destruct (Z.ltb_spec (a `rem` n) 0).
  - rewrite <- (Z.div_unique_pos a n (a `quot` n - 1) (a `rem` n + n)),
      <- (Z.mod_unique_pos a n (a `quot` n - 1) (a `rem` n + n)) by lia. done.
  - rewrite <- (Z.div_unique_pos a n (a `quot` n) (a `rem` n)),
      <- (Z.mod_unique_pos a n (a `quot` n) (a `rem` n)) by lia. done.
Qed.

Lemma is_leap_small r c : 0 <= r < 100 ->
  is_leap (100 * c + r) = if r =? 0 then c `mod` 4 =? 0 else r `mod` 4 =? 0.
Proof.
  intros Hr. unfold is_leap.
  replace ((100 * c + r) `mod` 4) with (r `mod` 4) by lia.
  replace ((100 * c + r) `mod` 100) with r by lia.
  destruct (Z.eqb_spec r 0) as [->|Hne]; simpl.
  - replace ((100 * c + 0) `mod` 400) with (100 * (c `mod` 4)) by lia.
    destruct (Z.eqb_spec (c `mod` 4) 0) as [->|]; [done|]. apply Z.eqb_neq. lia.
  - by rewrite andb_true_r.
Qed.

(** The day count by cycle, century and year. *)
Lemma days_before_year_cycle q k r : 0 <= k < 4 -> 0 <= r < 100 ->
  days_before_year (2000 + 400 * q + 100 * k + r) =
  10957 + 365 * (400 * q + 100 * k + r) + 97 * q + 24 * k + (r + 3) / 4
  + (if negb (k =? 0) && (r =? 0) then 1 else 0).
Proof.
  intros. unfold days_before_year.
  replace ((2000 + 400 * q + 100 * k + r - 1) / 4) with (499 + 100 * q + 25 * k + (r + 3) / 4) by lia.
  replace ((2000 + 400 * q + 100 * k + r - 1) / 100) with (19 + 4 * q + k + (r + 99) / 100) by lia.
  replace ((2000 + 400 * q + 100 * k + r - 1) / 400) with (4 + q + (100 * k + r + 399) / 400) by lia.
  destruct (Z.eqb_spec k 0), (Z.eqb_spec r 0); simpl; lia.
Qed.

Lemma year_to_secs_correct y :
  -3000000000 <= y <= 3000000000 ->
  __year_to_secs y = Some (86400 * days_before_year (1900 + y), Z.b2z (is_leap (1900 + y))).
Proof.
  intros Hy. unfold __year_to_secs, wrap64. destruct (Z.leb_spec ((y - 2) `mod` 2 ^ 64) 136) as [Hf|Hs].
  - assert (2 <= y <= 138) by lia. rewrite to_int_ok by tlia.
    rewrite Z.shiftr_div_pow2 by lia. change 3 with (Z.ones 2). rewrite Z.land_ones by lia.
    change (2 ^ 2) with 4.
    assert (is_leap (1900 + y) = ((y - 68) `mod` 4 =? 0)) as ->.
    { unfold is_leap. destruct (Z.eqb_spec ((y - 68) `mod` 4) 0).
      - rewrite (proj2 (Z.eqb_eq _ _)) by lia. simpl. apply orb_true_iff.
        rewrite negb_true_iff, Z.eqb_neq, Z.eqb_eq. lia.
      - by rewrite (proj2 (Z.eqb_neq _ _)) by lia. }
    unfold days_before_year. destruct (Z.eqb_spec ((y - 68) `mod` 4) 0); repeat ck; f_equal; f_equal; lia.
  - clear Hs. ck. rewrite !to_int_ok by tlia.
    rewrite (quot_fix (y - 100) 400) by lia.
    set (q := (y - 100) / 400). set (rem := (y - 100) `mod` 400).
    assert (y = 100 + 400 * q + rem) as Ey by lia. assert (0 <= rem < 400) as Hrem by lia.
    assert (-8000000 <= q <= 8000000) as Hq by lia. clearbody q rem. subst y.
    set (k := rem / 100). set (r := rem `mod` 100).
    assert (rem = 100 * k + r /\ 0 <= k < 4 /\ 0 <= r < 100) as (Erem & Hk & Hr) by lia.
    clearbody k r. subst rem.
    replace (1900 + (100 + 400 * q + (100 * k + r))) with (2000 + 400 * q + 100 * k + r) by lia.
    rewrite days_before_year_cycle by done.
    replace (2000 + 400 * q + 100 * k + r) with (100 * (20 + 4 * q + k) + r) by lia.
    rewrite is_leap_small by done. replace ((20 + 4 * q + k) `mod` 4) with k by lia.
    assert (k = 0 \/ k = 1 \/ k = 2 \/ k = 3) as Hk4 by lia.
    destruct Hk4 as [E|[E|[E|E]]]; subst k; simpl Z.eqb; simpl negb; cbv iota.
    all: repeat match goal with
      | |- context [?a <=? ?b] => destruct (Z.leb_spec a b); [|lia] || (destruct (Z.leb_spec a b); [lia|])
      | |- context [?a =? 0] => lazymatch a with context [Z.modulo] => fail | _ => destruct (Z.eqb_spec a 0) end
      end; try lia.
    all: simpl; repeat ck.
    all: try (f_equal; f_equal; lia). 
    all: match goal with |- context [ck32 (?e / 4 + _)] => replace e with r by lia end.
    all: destruct (Z.eqb_spec (r `mod` 4) 0); cbn [Z.b2z]; repeat ck; f_equal; f_equal; lia.
Qed.

(** ** Months *)

Lemma month_to_secs_correct month leap :
  0 <= month < 12 ->
  __month_to_secs month (Z.b2z leap) = Some (86400 * days_before_month leap month).
Proof.
  intros H. assert (exists n, (n < 12)%nat /\ month = Z.of_nat n) as (n & Hn & ->).
  { exists (Z.to_nat month). lia. }
  do 12 (destruct n as [|n]; [by destruct leap|]). lia.
Qed.

Lemma days_before_month_bound leap month : 0 <= days_before_month leap month <= 366.
Proof.
  unfold days_before_month. generalize (Z.to_nat month). intros n.
  do 13 (destruct n as [|n]; [destruct leap; simpl; lia|]). destruct leap; simpl; lia.
Qed.

(** ** From broken-down time to seconds *)

Lemma month_carry month :
  (if (12 <=? month) || (month <? 0) then
     let '(adj, month) := if month `rem` 12 <? 0 then (month `quot` 12 - 1, month `rem` 12 + 12)
                          else (month `quot` 12, month `rem` 12) in
     Some (month, adj)
   else Some (month, 0)) = Some (month `mod` 12, month / 12).
Proof.
  rewrite quot_fix by lia.
  destruct (Z.leb_spec 12 month), (Z.ltb_spec month 0); simpl; try done.
  by rewrite Z.mod_small, Z.div_small by lia.
Qed.

Definition int_fields (x : tm) : Prop :=
  INT_MIN <= tm_year x <= INT_MAX /\ INT_MIN <= tm_mon x <= INT_MAX /\
  INT_MIN <= tm_mday x <= INT_MAX /\ INT_MIN <= tm_hour x <= INT_MAX /\
  INT_MIN <= tm_min x <= INT_MAX /\ INT_MIN <= tm_sec x <= INT_MAX.

Lemma tm_to_secs_spec x : int_fields x -> __tm_to_secs x = if tm_mday x =? INT_MIN then None else Some (civil_secs x).
Proof.
  intros (Hy & Hmon & Hd & Hh & Hmi & Hs). unfold __tm_to_secs.
  assert (E : forall A (k : Z -> Z -> A),
    (let '(month, year) :=
      if (12 <=? tm_mon x) || (tm_mon x <? 0) then
        let adj := tm_mon x `quot` 12 in let month := tm_mon x `rem` 12 in
        let '(adj, month) := if month <? 0 then (adj - 1, month + 12) else (adj, month) in
        (month, tm_year x + adj)
      else (tm_mon x, tm_year x) in k month year) = k (tm_mon x `mod` 12) (tm_year x + tm_mon x / 12)).
  { intros A k. pose proof (month_carry (tm_mon x)) as E.
    destruct ((12 <=? tm_mon x) || (tm_mon x <? 0)).
    - cbv zeta. destruct (tm_mon x `rem` 12 <? 0); injection E as E1 E2; by rewrite <- E1, <- E2.
    - injection E as E1 E2. by rewrite <- E1, <- E2, Z.add_0_r. }
  rewrite (E _ (fun month year => '(t, is_leap) ← __year_to_secs year; _)). clear E.
  rewrite year_to_secs_correct by tlia. simpl.
  rewrite month_to_secs_correct by lia. simpl.
  pose proof (days_before_month_bound (is_leap (1900 + (tm_year x + tm_mon x / 12))) (tm_mon x `mod` 12)).
  unfold civil_secs. rewrite !Z.add_assoc in *. set (y := 1900 + tm_year x + tm_mon x / 12) in *.
  assert (-3000000000 <= y <= 3000000000) by tlia.
  assert (-1200000000000 <= days_before_year y <= 1200000000000) by (unfold days_before_year; lia).
  destruct (Z.eqb_spec (tm_mday x) INT_MIN) as [->|Hmin]; [by ck|]. repeat ck. f_equal. lia.
Qed.

(** ** From seconds to broken-down time *)

Lemma quot_fix_swap a n : 0 < n ->
  (if a `rem` n <? 0 then (a `rem` n + n, a `quot` n - 1) else (a `rem` n, a `quot` n)) = (a `mod` n, a / n).
Proof. intros Hn. pose proof (quot_fix a n Hn) as E. by destruct (_ <? 0); injection E as <- <-. Qed.

Lemma rem_fix a n : 0 < n -> (if a `rem` n <? 0 then a `rem` n + n else a `rem` n) = a `mod` n.
Proof. intros Hn. pose proof (quot_fix a n Hn) as E. by destruct (_ <? 0); injection E as _ <-. Qed.

Lemma is_leap_spec y : is_leap y = true <-> y `mod` 4 = 0 /\ (y `mod` 100 <> 0 \/ y `mod` 400 = 0).
Proof.
  unfold is_leap. rewrite andb_true_iff, orb_true_iff, negb_true_iff, Z.eqb_neq, !Z.eqb_eq. done.
Qed.

Lemma days_before_year_succ y :
  days_before_year (y + 1) = days_before_year y + 365 + Z.b2z (is_leap y).
Proof.
  unfold days_before_year. destruct (is_leap y) eqn:E.
  - apply is_leap_spec in E. simpl. lia.
  - assert (~ (y `mod` 4 = 0 /\ (y `mod` 100 <> 0 \/ y `mod` 400 = 0))) by (rewrite <- is_leap_spec; congruence).
    simpl. lia.
Qed.

Lemma days_before_year_mono y1 y2 :
  y1 < y2 -> days_before_year y1 + 365 + Z.b2z (is_leap y1) <= days_before_year y2.
Proof. rewrite <- days_before_year_succ. unfold days_before_year. intros. lia. Qed.

(** A day counted from 2000-03-01 by cycles of 400, 100, 4 and 1 years. *)
Record march_day (D qc c q y rd : Z) : Prop := {
  md_day : D = 146097 * qc + 36524 * c + 1461 * q + 365 * y + rd;
  md_c : 0 <= c <= 3; md_q : 0 <= q <= 24; md_y : 0 <= y <= 3; md_rd : 0 <= rd <= 365;
  md_leap : rd = 365 -> y = 3 /\ (q < 24 \/ c = 3)
}.

Section march.
Context (D qc c q y rd : Z) (H : march_day D qc c q y rd).
Abbreviation Y := (y + 4 * q + 100 * c + 400 * qc).

(** January 1 of the second civil year is 306 days after March 1. *)
Lemma march_january : days_before_year (2001 + Y) = D + 11017 + 306 - rd.
Proof. destruct H. unfold days_before_year. lia. Qed.

Lemma march_this_year :
  days_before_year (2000 + Y) = D + 11017 - rd - 59 - Z.b2z (is_leap (2000 + Y)).
Proof.
  pose proof (days_before_year_succ (2000 + Y)) as E.
  replace (2000 + Y + 1) with (2001 + Y) in E by lia. rewrite march_january in E. lia.
Qed.

Lemma march_leap_flag :
  (y =? 0) && (negb (q =? 0) || (c =? 0)) = is_leap (2000 + Y).
Proof.
  destruct H. apply eq_true_iff_eq. rewrite is_leap_spec.
  rewrite andb_true_iff, orb_true_iff, negb_true_iff, Z.eqb_neq, !Z.eqb_eq. lia.
Qed.

Lemma march_feb29 : rd = 365 -> is_leap (2001 + Y) = true.
Proof. intros E. destruct H as [? ? ? ? ? Hl]. destruct (Hl E) as [-> ?]. apply is_leap_spec. lia. Qed.
End march.

(** The month loop finds the month of the day [rd] of the March year. *)
Lemma months_loop_spec rd leap leap' :
  0 <= rd <= 365 -> (rd = 365 -> leap' = true) ->
  exists mo d, months_loop days_in_month 0 rd = Some (mo, d) /\
    ((0 <= mo < 10 /\ rd < 306 /\
      days_before_month leap (mo + 2) + d = rd + 59 + Z.b2z leap /\
      exists md, month_days leap !! Z.to_nat (mo + 2) = Some md /\ 1 <= d + 1 <= md) \/
     (10 <= mo < 12 /\ 306 <= rd /\
      days_before_month leap' (mo - 10) + d = rd - 306 /\
      exists md, month_days leap' !! Z.to_nat (mo - 10) = Some md /\ 1 <= d + 1 <= md)).
Proof.
  intros Hrd Hl. unfold days_in_month. simpl.
  repeat match goal with |- context [?a <=? ?b] => destruct (Z.leb_spec a b) end; try lia;
    eexists _, _; (split; [reflexivity|]).
  all: simpl Z.add; simpl Z.sub.
  all: first [left; split; [lia|]; split; [lia|] | right; split; [lia|]; split; [lia|]].
  all: split; [unfold days_before_month, month_days; destruct leap, leap'; simpl; lia|].
  all: eexists; split; [reflexivity|].
  all: destruct leap, leap'; try lia; (destruct (decide (rd = 365)) as [E|]; [by specialize (Hl E)|lia]).
Qed.

(** The part of [__secs_to_tm] that splits a day count into cycles. *)
Lemma march_split D :
  let rd0 := D `mod` DAYS_PER_400Y in
  let c := if rd0 `quot` DAYS_PER_100Y =? 4 then rd0 `quot` DAYS_PER_100Y - 1 else rd0 `quot` DAYS_PER_100Y in
  let rd1 := rd0 - c * DAYS_PER_100Y in
  let q := if rd1 `quot` DAYS_PER_4Y =? 25 then rd1 `quot` DAYS_PER_4Y - 1 else rd1 `quot` DAYS_PER_4Y in
  let rd2 := rd1 - q * DAYS_PER_4Y in
  let y := if rd2 `quot` 365 =? 4 then rd2 `quot` 365 - 1 else rd2 `quot` 365 in
  let rd := rd2 - y * 365 in
  march_day D (D / DAYS_PER_400Y) c q y rd /\ 0 <= rd0 < 146097 /\ 0 <= rd1 < 36525 /\ 0 <= rd2 < 1462.
Proof.
  intros rd0 c rd1 q rd2 y rd. 
  change DAYS_PER_400Y with 146097 in *. change DAYS_PER_100Y with 36524 in *.
  change DAYS_PER_4Y with 1461 in *.
  assert (0 <= rd0 < 146097) as H0 by (apply Z.mod_pos_bound; lia).
  assert (D = 146097 * (D / 146097) + rd0) as HD by apply Z_div_mod_eq_full.
  generalize dependent (D / 146097). intros qc HD. clearbody rd0.
  assert (0 <= c <= 3 /\ 0 <= rd1 < 36525 /\ (rd1 = 36524 -> c = 3)) as (Hc & Hrd1 & Hc3).
  { subst rd1 c. destruct (Z.eqb_spec (rd0 `quot` 36524) 4); lia. }
  assert (0 <= q <= 24 /\ 0 <= rd2 < 1462 /\ (1460 <= rd2 -> q < 24 \/ c = 3)) as (Hq & Hrd2 & Hq24).
  { subst rd2 q. clearbody c rd1. destruct (Z.eqb_spec (rd1 `quot` 1461) 25); lia. }
  assert (rd2 < 1461) as Hlt.
  { subst rd2 q. clearbody c rd1. destruct (Z.eqb_spec (rd1 `quot` 1461) 25); lia. }
  assert (0 <= y <= 3 /\ 0 <= rd <= 365 /\ (rd = 365 -> y = 3 /\ 1460 <= rd2)) as (Hy & Hrd & Hl).
  { subst rd y. clearbody rd2. destruct (Z.eqb_spec (rd2 `quot` 365) 4); lia. }
  split; [|lia]. split; lia.
Qed.

(** The fields a successful conversion computes. *)
Definition converted (t : Z) (tm0 x : tm) : Prop :=
  0 <= tm_mon x < 12 /\
  (exists d, month_days (is_leap (1900 + tm_year x)) !! Z.to_nat (tm_mon x) = Some d /\ 1 <= tm_mday x <= d) /\
  0 <= tm_hour x < 24 /\ 0 <= tm_min x < 60 /\ 0 <= tm_sec x < 60 /\
  tm_wday x = (civil_secs x / 86400 + 4) `mod` 7 /\
  tm_yday x = days_before_month (is_leap (1900 + tm_year x)) (tm_mon x) + tm_mday x - 1 /\
  civil_secs x = t /\
  tm_isdst x = tm_isdst tm0 /\ tm_gmtoff x = tm_gmtoff tm0 /\ tm_zone x = tm_zone tm0.

(** A civil day and a time of day. *)
Lemma civil_secs_split x D r :
  0 <= tm_mon x < 12 -> 0 <= r < 86400 ->
  tm_hour x = r / 3600 -> tm_min x = (r / 60) `mod` 60 -> tm_sec x = r `mod` 60 ->
  days_before_year (1900 + tm_year x) + days_before_month (is_leap (1900 + tm_year x)) (tm_mon x)
    + tm_mday x - 1 = D ->
  civil_secs x = 86400 * D + r /\ civil_secs x / 86400 = D.
Proof.
  intros Hm Hr Hh Hmi Hs HD. unfold civil_secs.
  rewrite Z.div_small, Z.mod_small, Z.add_0_r by lia. rewrite HD, Hh, Hmi, Hs. lia.
Qed.

Lemma converted_intro t tm0 D r yr mon mday yday md :
  let leap := is_leap (1900 + yr) in
  t = LEAPOCH + 86400 * D + r -> 0 <= r < 86400 -> 0 <= mon < 12 ->
  month_days leap !! Z.to_nat mon = Some md -> 1 <= mday <= md ->
  days_before_year (1900 + yr) + days_before_month leap mon + mday - 1 = D + 11017 ->
  yday = days_before_month leap mon + mday - 1 ->
  converted t tm0 (mk_tm (r `rem` 60) ((r `quot` 60) `rem` 60) (r `quot` 3600) mday mon yr
    ((3 + D) `mod` 7) yday (tm_isdst tm0) (tm_gmtoff tm0) (tm_zone tm0)).
Proof.
  intros leap Ht Hr Hmon Hmd Hmday HD Hyday.
  set (x := mk_tm _ _ _ _ _ _ _ _ _ _ _).
  destruct (civil_secs_split x (D + 11017) r) as [E1 E2]; [done|done|subst x; simpl; lia..|done|].
  unfold converted. rewrite E2, E1. simpl. fold leap.
  split_and!; try done; try lia; [by exists md|unfold LEAPOCH in *; lia].
Qed.

#[local] Arguments months_loop : simpl never.

Lemma secs_to_tm_run t tm0 :
  INT_MIN * 31622400 <= t <= INT_MAX * 31622400 ->
  exists x, converted t tm0 x /\
    __secs_to_tm t tm0 = if (INT_MAX <? tm_year x) || (tm_year x <? INT_MIN) then Some (-1, tm0) else Some (0, x).
Proof.
  intros Ht. unfold __secs_to_tm.
  rewrite (proj2 (Z.ltb_ge _ _)), (proj2 (Z.ltb_ge _ _)) by lia. simpl orb. cbv iota.
  ck. rewrite (to_int_ok ((t - LEAPOCH) `rem` 86400)) by tlia.
  rewrite quot_fix_swap by lia.
  set (D := (t - LEAPOCH) / 86400). set (r := (t - LEAPOCH) `mod` 86400).
  assert (t = LEAPOCH + 86400 * D + r /\ 0 <= r < 86400) as [Et Hr] by (subst D r; lia). 
  assert (-800000000000 <= D <= 800000000000) as HD by tlia. clearbody D r.
  rewrite (to_int_ok ((3 + D) `rem` 7)) by tlia. rewrite rem_fix by lia.
  rewrite (to_int_ok (D `quot` DAYS_PER_400Y)), (to_int_ok (D `rem` DAYS_PER_400Y)) by tlia.
  rewrite quot_fix_swap by tlia.
  destruct (march_split D) as (Hmd & Hr0 & Hr1 & Hr2).
  set (rd0 := D `mod` DAYS_PER_400Y) in *.
  set (c := if rd0 `quot` DAYS_PER_100Y =? 4 then _ else _) in *.
  set (rd1 := rd0 - c * DAYS_PER_100Y) in *. rewrite (ck32_ok rd1) by tlia. simpl.
  set (q := if rd1 `quot` DAYS_PER_4Y =? 25 then _ else _) in *.
  set (rd2 := rd1 - q * DAYS_PER_4Y) in *. rewrite (ck32_ok rd2) by tlia. simpl.
  set (y := if rd2 `quot` 365 =? 4 then _ else _) in *.
  set (rd := rd2 - y * 365) in *.
  set (qc := D / DAYS_PER_400Y) in *.
  clearbody rd0 c rd1 q rd2 y qc. pose proof Hmd as [HDay Hc Hq Hy Hrd _].
  clearbody rd. rewrite (ck32_ok rd) by tlia. simpl.
  rewrite (march_leap_flag D qc c q y rd Hmd).
  pose proof (march_this_year D qc c q y rd Hmd) as Hthis.
  pose proof (march_january D qc c q y rd Hmd) as Hjan.
  pose proof (march_feb29 D qc c q y rd Hmd) as Hfeb. clear Hmd.
  rewrite (ck64_ok (y + 4 * q + 100 * c + 400 * qc)) by tlia.
  set (Y := y + 4 * q + 100 * c + 400 * qc) in *.
  set (leap := is_leap (2000 + Y)) in *.
  assert (0 <= Z.b2z leap <= 1) as Hb by (destruct leap; simpl; lia).
  rewrite ck32_ok by tlia. simpl.
  destruct (months_loop_spec rd leap (is_leap (2001 + Y)) Hrd Hfeb) as (mo & d & Hml & Hcase).
  rewrite Hml. simpl.
  assert (-8000000000 <= Y <= 8000000000) as HY by (subst Y; tlia). clearbody Y.
  destruct Hcase as [(Hmo & Hlt & Hdays & md & Hmd & Hmday)|(Hmo & Hlt & Hdays & md & Hmd & Hmday)].
  - rewrite (proj2 (Z.leb_gt 10 mo)), (proj2 (Z.leb_gt (365 + Z.b2z leap) _)) by lia.
    subst leap. replace (2000 + Y) with (1900 + (Y + 100)) in * by lia. eexists. split.
    + apply (converted_intro t tm0 D r (Y + 100) (mo + 2) (d + 1)
        (rd + 31 + 28 + Z.b2z (is_leap (1900 + (Y + 100)))) md); (done || lia).
    + simpl. destruct (_ || _) eqn:Eg; [done|]. by rewrite to_int_ok by
        (apply orb_false_iff in Eg as [?%Z.ltb_ge ?%Z.ltb_ge]; lia).
  - rewrite (proj2 (Z.leb_le 10 mo)), (proj2 (Z.leb_le (365 + Z.b2z leap) _)) by lia.
    replace (mo - 10) with (mo - 12 + 2) in * by lia. eexists. split.
    + replace (2001 + Y) with (1900 + (Y + 1 + 100)) in * by lia.
      apply (converted_intro t tm0 D r (Y + 1 + 100) (mo - 12 + 2) (d + 1)
        (rd + 31 + 28 + Z.b2z leap - (365 + Z.b2z leap)) md); (done || lia).
    + simpl. destruct (_ || _) eqn:Eg; [done|]. by rewrite to_int_ok by
        (apply orb_false_iff in Eg as [?%Z.ltb_ge ?%Z.ltb_ge]; lia).
Qed.

(** ** A time has one valid representation *)

Lemma month_days_mono leap (m1 m2 : nat) d :
  (m1 < m2 < 12)%nat -> month_days leap !! m1 = Some d ->
  days_before_month leap (Z.of_nat m1) + d <= days_before_month leap (Z.of_nat m2).
Proof.
  unfold days_before_month. rewrite !Nat2Z.id. intros Hm.
  do 12 (destruct m1 as [|m1]; [intros [= <-]; do 12 (destruct m2 as [|m2];
    [destruct leap; simpl; lia|]); lia|]). lia.
Qed.

Lemma day_of_year_bound leap (m : nat) d :
  month_days leap !! m = Some d ->
  0 <= days_before_month leap (Z.of_nat m) /\ 1 <= d /\
  days_before_month leap (Z.of_nat m) + d <= 365 + Z.b2z leap.
Proof.
  unfold days_before_month. rewrite Nat2Z.id.
  do 12 (destruct m as [|m]; [intros [= <-]; destruct leap; simpl; lia|]). done.
Qed.

Definition date_of (x : tm) : Z * Z * Z * Z * Z * Z * Z * Z :=
  (tm_year x, tm_mon x, tm_mday x, tm_hour x, tm_min x, tm_sec x, tm_wday x, tm_yday x).

Section valid.
Context (x : tm) (Hx : valid_tm x).

Lemma valid_secs :
  civil_secs x = 86400 * (days_before_year (1900 + tm_year x) + tm_yday x) +
    3600 * tm_hour x + 60 * tm_min x + tm_sec x.
Proof.
  destruct Hx as (_ & Hm & _ & _ & _ & _ & _ & Hyd). unfold civil_secs.
  rewrite Z.div_small, Z.mod_small, Z.add_0_r by lia. lia.
Qed.

Lemma valid_yday : 0 <= tm_yday x < 365 + Z.b2z (is_leap (1900 + tm_year x)).
Proof.
  destruct Hx as (_ & Hm & (d & Hd & Hmd) & _ & _ & _ & _ & ->).
  apply day_of_year_bound in Hd. rewrite Z2Nat.id in Hd by lia. lia.
Qed.

Lemma valid_int_fields : int_fields x.
Proof.
  destruct Hx as (Hy & Hm & (d & Hd & Hmd) & ? & ? & ? & _).
  apply day_of_year_bound in Hd. rewrite Z2Nat.id in Hd by lia.
  assert (Z.b2z (is_leap (1900 + tm_year x)) <= 1) by (by destruct (is_leap _)).
  unfold int_fields. tlia.
Qed.

Lemma valid_to_secs : __tm_to_secs x = Some (civil_secs x).
Proof.
  rewrite tm_to_secs_spec by apply valid_int_fields. destruct Hx as (_ & _ & (d & Hd & Hmd) & _). destruct (Z.eqb_spec (tm_mday x) INT_MIN); [tlia|done].
Qed.
End valid.

Lemma valid_unique x y :
  valid_tm x -> valid_tm y -> civil_secs x = civil_secs y -> date_of x = date_of y.
Proof.
  intros Hx Hy E. pose proof (valid_secs x Hx) as Ex. pose proof (valid_secs y Hy) as Ey.
  pose proof (valid_yday x Hx) as Bx. pose proof (valid_yday y Hy) as By.
  destruct Hx as (_ & Hmx & (dx & Hdx & Hmdx) & ? & ? & ? & Hwx & Hyx).
  destruct Hy as (_ & Hmy & (dy & Hdy & Hmdy) & ? & ? & ? & Hwy & Hyy).
  assert (tm_year x = tm_year y) as Eyear.
  { destruct (Z.lt_trichotomy (tm_year x) (tm_year y)) as [Hlt|[?|Hlt]]; [|done|].
    - pose proof (days_before_year_mono (1900 + tm_year x) (1900 + tm_year y) ltac:(lia)). lia.
    - pose proof (days_before_year_mono (1900 + tm_year y) (1900 + tm_year x) ltac:(lia)). lia. }
  rewrite Eyear in *. assert (tm_yday x = tm_yday y) as Eyday by lia.
  assert (tm_mon x = tm_mon y) as Emon.
  { destruct (Z.lt_trichotomy (tm_mon x) (tm_mon y)) as [Hlt|[?|Hlt]]; [|done|].
    - pose proof (month_days_mono _ (Z.to_nat (tm_mon x)) (Z.to_nat (tm_mon y)) dx ltac:(lia) Hdx) as Hm.
      rewrite !Z2Nat.id in Hm by lia. lia.
    - pose proof (month_days_mono _ (Z.to_nat (tm_mon y)) (Z.to_nat (tm_mon x)) dy ltac:(lia) Hdy) as Hm.
      rewrite !Z2Nat.id in Hm by lia. lia. }
  rewrite Emon in *. unfold date_of. rewrite Emon, Eyear, Hwx, Hwy, E, Eyday.
  by replace (tm_mday x) with (tm_mday y) by lia; replace (tm_hour x) with (tm_hour y) by lia;
    replace (tm_min x) with (tm_min y) by lia; replace (tm_sec x) with (tm_sec y) by lia.
Qed.

Lemma valid_secs_range x :
  valid_tm x -> INT_MIN * 31622400 <= civil_secs x <= INT_MAX * 31622400.
Proof.
  intros Hx. rewrite (valid_secs x Hx). pose proof (valid_yday x Hx).
  assert (Z.b2z (is_leap (1900 + tm_year x)) <= 1) by (by destruct (is_leap _)).
  destruct Hx as (Hy & _ & _ & ? & ? & ? & _). unfold days_before_year. tlia.
Qed.

Lemma secs_to_tm_spec t tm0 :
  exists r x, __secs_to_tm t tm0 = Some (r, x) /\
    ((r = 0 /\ valid_tm x /\ civil_secs x = t) \/
     (r = -1 /\ x = tm0 /\ forall y, valid_tm y -> civil_secs y <> t)).
Proof.
  destruct (decide (INT_MIN * 31622400 <= t <= INT_MAX * 31622400)) as [Ht|Ht].
  - destruct (secs_to_tm_run t tm0 Ht) as (x & Hc & Hrun). rewrite Hrun.
    destruct Hc as (Hmon & Hmday & Hh & Hmi & Hs & Hw & Hyd & Hcs & _).
    destruct (_ || _) eqn:Eg.
    + exists (-1), tm0. split; [done|]. right. split_and!; [done|done|]. intros y Hy Ey.
      pose proof Hy as (Hyy & _). apply orb_true_iff in Eg. rewrite !Z.ltb_lt in Eg.
      pose proof (valid_secs y Hy) as E1. pose proof (valid_yday y Hy) as By.
      destruct Hy as (_ & _ & _ & ? & ? & ? & _).
      destruct Hmday as (d & Hd & Hmd). apply day_of_year_bound in Hd. rewrite Z2Nat.id in Hd by lia.
      assert (civil_secs x = 86400 * (days_before_year (1900 + tm_year x) + tm_yday x) +
        3600 * tm_hour x + 60 * tm_min x + tm_sec x) as E2.
      { unfold civil_secs. rewrite Z.div_small, Z.mod_small, Z.add_0_r by lia. lia. }
      destruct Eg.
      * pose proof (days_before_year_mono (1900 + tm_year y) (1900 + tm_year x) ltac:(lia)). lia.
      * pose proof (days_before_year_mono (1900 + tm_year x) (1900 + tm_year y) ltac:(lia)). lia.
    + exists 0, x. split; [done|]. left. apply orb_false_iff in Eg. rewrite !Z.ltb_ge in Eg.
      split_and!; [done| |done]. unfold valid_tm. split_and!; (done || lia).
  - exists (-1), tm0. split.
    + unfold __secs_to_tm. replace ((t <? INT_MIN * 31622400) || (INT_MAX * 31622400 <? t)) with true; [done|].
      symmetry. apply orb_true_iff. rewrite !Z.ltb_lt. lia.
    + right. split_and!; [done|done|]. intros y Hy <-. by apply Ht, valid_secs_range.
Qed.

Lemma tm_to_secs_set_utc utc x : __tm_to_secs (set_utc utc x) = __tm_to_secs x.
Proof. by destruct x. Qed.
Lemma date_of_set_utc utc x : date_of (set_utc utc x) = date_of x.
Proof. by destruct x. Qed.

Lemma gmtime_r_run utc t n z :
  __secs_to_tm t n = Some (0, z) -> gmtime_r utc t n = Some (Some (set_utc utc z)).
Proof. intros E. unfold gmtime_r. by rewrite E. Qed.
Lemma timegm_run utc x t n z :
  __tm_to_secs x = Some t -> __secs_to_tm t n = Some (0, z) -> timegm utc n x = Some (t, set_utc utc z).
Proof. intros Et E. unfold timegm. rewrite Et. unfold mbind, option_bind. by rewrite E. Qed.

(** ** The theorems *)

(** C4: [__secs_to_tm] is total and exact: either it succeeds with the one
    valid broken-down time (all fields in range, leap days, weekday and day of
    the year right) of that many seconds since the epoch, or it fails without
    touching [*tm] and no broken-down time with an [int] year represents the
    argument.  No arithmetic in it overflows. *)
Theorem secs_to_tm_correct t tm0 :
  exists r x, __secs_to_tm t tm0 = Some (r, x) /\
    ((r = 0 /\ valid_tm x /\ civil_secs x = t) \/
     (r = -1 /\ x = tm0 /\ forall y, valid_tm y -> civil_secs y <> t)).
Proof. apply secs_to_tm_spec. Qed.

(** C30: [__tm_to_secs] computes the seconds since the epoch of any
    broken-down time with [int] fields, out-of-range months and other fields
    included, without overflow, but for one value: where [tm_mday] is INT_MIN,
    [tm_mday-1] overflows and the call is undefined. *)
Theorem tm_to_secs_correct x : int_fields x -> __tm_to_secs x = if tm_mday x =? INT_MIN then None else Some (civil_secs x).
Proof. apply tm_to_secs_spec. Qed.

Lemma tm_to_secs_correct_witness :
  __tm_to_secs (mk_tm 0 0 0 1 (-13) 100 0 0 0 0 0) = Some 912470400 /\
  __tm_to_secs (mk_tm 0 0 0 (-2147483648) 0 100 0 0 0 0 0) = None.
Proof.
  split.
  - exact (tm_to_secs_correct (mk_tm 0 0 0 1 (-13) 100 0 0 0 0 0) ltac:(unfold int_fields; simpl; tlia)).
  - exact (tm_to_secs_correct (mk_tm 0 0 0 (-2147483648) 0 100 0 0 0 0 0) ltac:(unfold int_fields; simpl; tlia)).
Defined.

(** C29: [timegm] inverts [gmtime_r], and [gmtime_r] of [timegm] gives back
    every valid broken-down time. *)
Theorem timegm_gmtime_inverse utc new t tm0 x :
  (gmtime_r utc t tm0 = Some (Some x) -> timegm utc new x = Some (t, x)) /\
  (valid_tm x -> exists t' y, timegm utc new x = Some (t', y) /\ t' = civil_secs x /\
     date_of y = date_of x /\ gmtime_r utc t' tm0 = Some (Some y)).
Proof.
  assert (forall y, valid_tm y -> forall n, exists z, __secs_to_tm (civil_secs y) n = Some (0, z) /\
    valid_tm z /\ civil_secs z = civil_secs y) as Hok.
  { intros y Hy n. destruct (secs_to_tm_spec (civil_secs y) n) as (r & z & E & [(-> & Hz & Hc)|(_ & _ & H)]).
    - by exists z.
    - by destruct (H y Hy). }
  assert (forall y z, date_of y = date_of z -> set_utc utc y = set_utc utc z) as Hset.
  { intros y z E. unfold date_of in E. unfold set_utc. congruence. }
  split.
  - destruct (secs_to_tm_spec t tm0) as (r & y & E & [(-> & Hy & Hc)|(-> & _ & _)]).
    + rewrite (gmtime_r_run _ _ _ _ E). intros [= <-].
      destruct (Hok y Hy new) as (z & Ez & Hz & Hcz). rewrite Hc in Ez.
      rewrite (timegm_run utc _ t new z); [|by rewrite tm_to_secs_set_utc, <- Hc; apply valid_to_secs|done].
      do 2 f_equal. by apply Hset, valid_unique.
    + unfold gmtime_r. by rewrite E.
  - intros Hx. destruct (Hok x Hx new) as (z & Ez & Hz & Hcz). destruct (Hok x Hx tm0) as (z' & Ez' & Hz' & Hcz').
    exists (civil_secs x), (set_utc utc z). split_and!.
    + apply timegm_run; [by apply valid_to_secs|done].
    + done.
    + rewrite date_of_set_utc. by apply valid_unique.
    + rewrite (gmtime_r_run _ _ _ _ Ez'). do 2 f_equal. apply Hset, valid_unique; congruence.
Qed.
