(* ===== verification/BlockHash.v ===== *)
(** * BlockHash: buffered block hashing, shared by the hash functions

    A context with a message length, a chaining value and a block buffer,
    the update and pad operations that musl's MD5, SHA-256 and SHA-512 have in
    common (the block size, the place of the length field, its encoding and
    the compression function are parameters), and the theorem that any way of
    feeding a message in pieces hashes the padded message block by block. *)

From S2P Require Import Prelude.
From Stdlib Require Import ZArith Lia Bool List.
From stdpp Require Import base tactics numbers list.
Open Scope Z_scope.

(** ** Words *)

Definition add32 (a b : Z) : Z := wrap32 (a + b).
Definition add64 (a b : Z) : Z := wrap64 (a + b).
Definition at_ (l : list Z) (i : nat) : Z := nth i l 0.

Lemma at_cons (x : Z) l i : at_ (x :: l) (S i) = at_ l i.
Proof. done. Qed.
Lemma at_zip_lxor a b i : length a = length b -> at_ (zip_with Z.lxor a b) i = Z.lxor (at_ a i) (at_ b i).
Proof.
  revert b i. induction a as [|x a IH]; intros [|y b] i Hl; try done; [by destruct i|].
  destruct i as [|i]; [done|]. rewrite !at_cons. cbn [zip_with]. rewrite at_cons. apply IH. by injection Hl.
Qed.
Lemma at_drop (l : list Z) n i : at_ (drop n l) i = at_ l (n + i).
Proof. revert l. induction n as [|n IH]; intros [|x l]; try done; [by destruct i|]. exact (IH l). Qed.
Lemma at_take b n i : (i < n)%nat -> at_ (take n b) i = at_ b i.
Proof.
  intros Hi. unfold at_. rewrite !nth_lookup.
  by rewrite lookup_take_lt.
Qed.
Lemma at_fmap_seq (f : nat -> Z) n k : (k < n)%nat -> at_ (f <$> seq 0 n) k = f k.
Proof.
  intros Hk. unfold at_. rewrite nth_lookup, list_lookup_fmap, lookup_seq_lt by done. done.
Qed.
Lemma at_app_l l l' i : (i < length l)%nat -> at_ (l ++ l') i = at_ l i.
Proof. intros. by apply app_nth1. Qed.

(** [len] as eight bytes, least or most significant byte first. *)
Definition le_bytes8 (v : Z) : list Z :=
  [wrap8 v; wrap8 (Z.shiftr v 8); wrap8 (Z.shiftr v 16); wrap8 (Z.shiftr v 24);
   wrap8 (Z.shiftr v 32); wrap8 (Z.shiftr v 40); wrap8 (Z.shiftr v 48); wrap8 (Z.shiftr v 56)].
Definition be_bytes8 (v : Z) : list Z :=
  [wrap8 (Z.shiftr v 56); wrap8 (Z.shiftr v 48); wrap8 (Z.shiftr v 40); wrap8 (Z.shiftr v 32);
   wrap8 (Z.shiftr v 24); wrap8 (Z.shiftr v 16); wrap8 (Z.shiftr v 8); wrap8 v].
Definition le_bytes4 (v : Z) : list Z :=
  [wrap8 v; wrap8 (Z.shiftr v 8); wrap8 (Z.shiftr v 16); wrap8 (Z.shiftr v 24)].
Definition be_bytes4 (v : Z) : list Z :=
  [wrap8 (Z.shiftr v 24); wrap8 (Z.shiftr v 16); wrap8 (Z.shiftr v 8); wrap8 v].

(** ** The context *)

Record hash_ctx := mk_ctx { len : Z; hs : list Z; buf : list Z }.

(** [memcpy(buf + r, p, len)] *)
Definition splice (b : list Z) (r : nat) (p : list Z) : list Z :=
  take r b ++ p ++ drop (r + length p) b.

Lemma splice_0 b p : (length p <= length b)%nat -> length (splice b 0 p) = length b /\ take (length p) (splice b 0 p) = p.
Proof.
  intros H. unfold splice. simpl. split; [rewrite length_app, length_drop; lia|].
  by rewrite take_app_length.
Qed.

Lemma splice_length b r p : (r + length p <= length b)%nat -> length (splice b r p) = length b.
Proof. intros H. unfold splice. rewrite !length_app, length_take, length_drop. lia. Qed.

Lemma splice_take b r p : (r <= length b)%nat -> take (r + length p) (splice b r p) = take r b ++ p.
Proof.
  intros H. unfold splice. rewrite app_assoc. apply take_app_length'.
  rewrite length_app, length_take. lia.
Qed.

Lemma splice_app (b1 b2 b3 p : list Z) r :
  r = length b1 -> length p = length b2 -> splice (b1 ++ b2 ++ b3) r p = b1 ++ p ++ b3.
Proof.
  intros -> E. unfold splice. rewrite take_app_length, E, drop_app_add, drop_app_length. done.
Qed.

Section block_hash.
(** Block size, end of the message part of the last block, place of the
    length field, its encoding, compression. *)
Context (B lim field : nat) (enc : Z -> list Z) (compress : list Z -> list Z -> list Z).

Definition process (s : hash_ctx) (b : list Z) : hash_ctx :=
  mk_ctx (len s) (compress (hs s) b) (buf s).

(** The loop over whole blocks: the context and what is left of the data. *)
Fixpoint update_blocks (n : nat) (s : hash_ctx) (p : list Z) : hash_ctx * list Z :=
  match n with
  | O => (s, p)
  | S n => if (length p <? B)%nat then (s, p)
           else update_blocks n (process s (take B p)) (drop B p)
  end.

Definition update (s : hash_ctx) (p : list Z) : hash_ctx :=
  let r := Z.to_nat (len s `mod` Z.of_nat B) in
  let s := mk_ctx (wrap64 (len s + Z.of_nat (length p))) (hs s) (buf s) in
  let rest (s : hash_ctx) (p : list Z) :=
    let '(s, p) := update_blocks (length p) s p in
    mk_ctx (len s) (hs s) (splice (buf s) 0 p) in
  if (r =? 0)%nat then rest s p
  else if (length p <? B - r)%nat then mk_ctx (len s) (hs s) (splice (buf s) r p)
  else
    let s := mk_ctx (len s) (hs s) (splice (buf s) r (take (B - r) p)) in
    rest (process s (buf s)) (drop (B - r) p).

Definition pad (s : hash_ctx) : hash_ctx :=
  let r := Z.to_nat (len s `mod` Z.of_nat B) in
  let s := mk_ctx (len s) (hs s) (splice (buf s) r [128]) in
  let r := S r in
  let '(s, r) :=
    if (lim <? r)%nat then
      let s := mk_ctx (len s) (hs s) (splice (buf s) r (replicate (B - r) 0)) in
      (process s (buf s), 0%nat)
    else (s, r) in
  let s := mk_ctx (len s) (hs s) (splice (buf s) r (replicate (field - r) 0)) in
  let s := mk_ctx (wrap64 (len s * 8)) (hs s) (buf s) in
  let s := mk_ctx (len s) (hs s) (splice (buf s) field (enc (len s))) in
  process s (buf s).

(** ** The reference: hash the padded message block by block *)

Fixpoint fold_blocks (n : nat) (h l : list Z) : list Z :=
  match n with
  | O => h
  | S n => if (length l <? B)%nat then h
           else fold_blocks n (compress h (take B l)) (drop B l)
  end.
Definition hash_blocks (h l : list Z) : list Z := fold_blocks (length l) h l.

(** A one bit, the fewest zero bytes, the length in bits. *)
Definition padding (n : nat) : list Z :=
  128 :: replicate ((B + lim - 1 - n `mod` B) `mod` B + (field - lim)) 0
  ++ enc (wrap64 (Z.of_nat n * 8)).

(** ** Correctness *)

Context (HB : (0 < B)%nat).

Lemma fold_blocks_fuel n m h l :
  (length l <= n)%nat -> (length l <= m)%nat -> fold_blocks n h l = fold_blocks m h l.
Proof.
  revert m h l. induction n as [|n IH]; intros [|m] h l Hn Hm; simpl; try done.
  - destruct l; [|simpl in *; lia]. by rewrite (proj2 (Nat.ltb_lt _ _)) by (simpl; lia).
  - destruct l; [|simpl in *; lia]. by rewrite (proj2 (Nat.ltb_lt _ _)) by (simpl; lia).
  - destruct (Nat.ltb_spec (length l) B); [done|]. apply IH; rewrite length_drop; lia.
Qed.

Lemma hash_blocks_step h b l :
  length b = B -> hash_blocks h (b ++ l) = hash_blocks (compress h b) l.
Proof.
  intros Hb. unfold hash_blocks. destruct (length (b ++ l)) as [|n] eqn:En; rewrite length_app in En; [lia|].
  simpl. rewrite length_app, (proj2 (Nat.ltb_ge _ _)) by lia.
  rewrite take_app_length', drop_app_length' by done. apply fold_blocks_fuel; lia.
Qed.

Lemma hash_blocks_short h l : (length l < B)%nat -> hash_blocks h l = h.
Proof.
  intros Hl. unfold hash_blocks. destruct (length l) eqn:E; simpl; [done|].
  by rewrite (proj2 (Nat.ltb_lt _ _)) by lia.
Qed.

Lemma hash_blocks_one h b : length b = B -> hash_blocks h b = compress h b.
Proof.
  intros Hb. pose proof (hash_blocks_step h b [] Hb) as E. rewrite app_nil_r in E.
  by rewrite E, hash_blocks_short by (simpl; lia).
Qed.

Lemma hash_blocks_app k h a l :
  length a = (B * k)%nat -> hash_blocks h (a ++ l) = hash_blocks (hash_blocks h a) l.
Proof.
  revert h a. induction k as [|k IH]; intros h a Ha.
  - destruct a; [|simpl in Ha; lia]. simpl. by rewrite (hash_blocks_short h []) by (simpl; lia).
  - rewrite <- (take_drop B a), <- app_assoc.
    assert (length (take B a) = B) as Ht by (rewrite length_take; nia).
    rewrite (hash_blocks_step _ _ (drop B a ++ l)), (hash_blocks_step _ _ (drop B a)) by done.
    apply IH. rewrite length_drop. nia.
Qed.

Context (Hdiv : (Z.of_nat B | 2 ^ 64)).
Context (Hlim : (0 < lim < B)%nat) (Hfield : (lim <= field)%nat).
Context (Henc : forall v, length (enc v) = (B - field)%nat) (Hfb : (field <= B)%nat).

(** [holds iv s msg]: the context after the bytes [msg]: whole blocks are in
    the chaining value, the rest is in the buffer. *)
Record holds (iv : list Z) (s : hash_ctx) (msg : list Z) : Prop := {
  ho_len : len s = wrap64 (Z.of_nat (length msg));
  ho_buf : length (buf s) = B;
  ho_split : exists k a t, msg = a ++ t /\ length a = (B * k)%nat /\ (length t < B)%nat /\
    hs s = hash_blocks iv a /\ take (length t) (buf s) = t
}.

Lemma holds_r iv s msg : holds iv s msg -> Z.to_nat (len s `mod` Z.of_nat B) = (length msg `mod` B)%nat.
Proof.
  intros [Hl _ _]. rewrite Hl. unfold wrap. destruct Hdiv as [q Hq].
  rewrite Hq, (Z.mul_comm q), Z.rem_mul_r by lia.
  rewrite Z.mul_comm, Z_mod_plus_full, Z.mod_mod by lia. rewrite <- Nat2Z.inj_mod. lia.
Qed.

Lemma update_blocks_spec n s p :
  (length p <= n)%nat ->
  exists k a t, update_blocks n s p = (mk_ctx (len s) (hash_blocks (hs s) a) (buf s), t) /\
    p = a ++ t /\ length a = (B * k)%nat /\ (length t < B)%nat.
Proof.
  revert s p. induction n as [|n IH]; intros s p Hn; simpl.
  - exists 0%nat, [], p. destruct p; [|simpl in *; lia]. destruct s. split_and!; (done || simpl; lia).
  - destruct (Nat.ltb_spec (length p) B) as [Hlt|Hge].
    + exists 0%nat, [], p. destruct s. split_and!; (done || simpl; lia).
    + assert (length (take B p) = B) as Ht by (rewrite length_take; lia).
      destruct (IH (process s (take B p)) (drop B p)) as (k & a & t & E & Hp & Ha & Hlt);
        [rewrite length_drop; lia|].
      exists (S k), (take B p ++ a), t. split_and!; [|by rewrite <- app_assoc, <- Hp, take_drop| |done].
      * rewrite E. simpl. by rewrite hash_blocks_step.
      * rewrite length_app. nia.
Qed.

Lemma holds_init iv b : length b = B -> holds iv (mk_ctx 0 iv b) [].
Proof.
  intros Hb. split; [done|done|]. exists 0%nat, [], []. split_and!; (done || simpl; lia).
Qed.

(** Data after a whole number of blocks. *)
Lemma holds_rest iv s p k a L :
  hs s = hash_blocks iv a -> length a = (B * k)%nat -> length (buf s) = B ->
  len s = wrap64 (Z.of_nat (length (a ++ p))) -> (length p <= L)%nat ->
  holds iv (let '(s, p) := update_blocks L s p in mk_ctx (len s) (hs s) (splice (buf s) 0 p)) (a ++ p).
Proof.
  intros Hh Ha Hb Hl HL. destruct (update_blocks_spec L s p HL) as (k' & a' & t & E & -> & Ha' & Ht).
  rewrite E. simpl. destruct (splice_0 (buf s) t ltac:(lia)) as [Hs1 Hs2].
  split; [done|simpl; lia|]. exists (k + k')%nat, (a ++ a'), t. simpl. split_and!; [by rewrite app_assoc| |done| |done].
  - rewrite length_app. lia.
  - rewrite (hash_blocks_app k) by done. by rewrite Hh.
Qed.

Lemma holds_update iv s msg p : holds iv s msg -> holds iv (update s p) (msg ++ p).
Proof.
  intros Hs. pose proof (holds_r _ _ _ Hs) as Hr.
  destruct Hs as [Hl Hb (k & a & t & -> & Ha & Ht & Hh & Htake)].
  assert (length (a ++ t) `mod` B = length t)%nat as Hmod.
  { rewrite length_app, Ha, Nat.add_comm, Nat.mul_comm, Nat.Div0.mod_add. by apply Nat.mod_small. }
  unfold update. rewrite Hr, Hmod.
  assert (wrap64 (len s + Z.of_nat (length p)) = wrap64 (Z.of_nat (length ((a ++ t) ++ p)))) as Hlen.
  { rewrite Hl, wrap_add_l. f_equal. rewrite (length_app (a ++ t)). lia. }
  destruct (Nat.eqb_spec (length t) 0) as [H0|H0].
  - destruct t; [|done]. rewrite app_nil_r in *. by apply (holds_rest iv _ p k a).
  - destruct (Nat.ltb_spec (length p) (B - length t)) as [Hlt|Hge].
    + split; [done|simpl; by rewrite splice_length by lia|].
      exists k, a, (t ++ p). simpl. rewrite length_app.
      split_and!; [by rewrite app_assoc|done|lia|done|].
      rewrite splice_take by lia. by rewrite Htake.
    + set (b := splice (buf s) (length t) (take (B - length t) p)).
      assert (b = t ++ take (B - length t) p) as Eb.
      { pose proof (splice_take (buf s) (length t) (take (B - length t) p) ltac:(lia)) as E.
        rewrite take_ge in E; [fold b in E; by rewrite E, Htake|].
        rewrite splice_length; rewrite length_take; lia. }
      assert (length b = B) as Hlb by (rewrite Eb, length_app, length_take; lia).
      replace ((a ++ t) ++ p) with ((a ++ b) ++ drop (B - length t) p)
        by (rewrite Eb, <- !app_assoc, take_drop; done).
      apply (holds_rest iv _ _ (S k)); simpl.
      * rewrite (hash_blocks_app k) by done. by rewrite Hh, (hash_blocks_one _ b).
      * rewrite length_app. lia.
      * done.
      * rewrite Hlen. do 2 f_equal. rewrite Eb. by rewrite <- !app_assoc, take_drop.
      * done.
Qed.

(** The last block(s). *)
Lemma hash_pad iv s msg : holds iv s msg ->
  hs (pad s) = hash_blocks iv (msg ++ padding (length msg)).
Proof.
  intros Hs. pose proof (holds_r _ _ _ Hs) as Hr.
  destruct Hs as [Hl Hb (k & a & t & -> & Ha & Ht & Hh & Htake)].
  assert (length (a ++ t) `mod` B = length t)%nat as Hmod.
  { rewrite length_app, Ha, Nat.add_comm, Nat.mul_comm, Nat.Div0.mod_add. by apply Nat.mod_small. }
  assert (buf s = t ++ drop (length t) (buf s)) as Eb by (rewrite <- Htake at 1; by rewrite take_drop).
  set (d := drop (length t) (buf s)) in *.
  assert (length d = (B - length t)%nat) as Hd by (subst d; rewrite length_drop; lia).
  destruct d as [|x d]; [simpl in Hd; lia|]. simpl in Hd.
  unfold pad. rewrite Hr, Hmod. cbn [len hs buf]. rewrite Eb.
  change (t ++ x :: d) with (t ++ [x] ++ d). rewrite splice_app by done.
  rewrite <- app_assoc, (hash_blocks_app k), <- Hh by done. unfold padding. rewrite Hmod.
  rewrite Hl. assert (wrap64 (wrap64 (Z.of_nat (length (a ++ t))) * 8) =
    wrap64 (Z.of_nat (length (a ++ t)) * 8)) as E8 by (unfold wrap; apply Zmult_mod_idemp_l).
  destruct (Nat.ltb_spec lim (S (length t))) as [Hgt|Hle]; cbn [process len hs buf]; rewrite E8.
  - (* the length does not fit: an extra block *)
    assert (splice (t ++ [128] ++ d) (S (length t)) (replicate (B - S (length t)) 0) =
      t ++ [128] ++ replicate (B - S (length t)) 0) as E1.
    { pose proof (splice_app (t ++ [128]) d [] (replicate (B - S (length t)) 0) (S (length t))) as E.
      rewrite app_nil_r, <- !app_assoc, app_nil_r in E. apply E; rewrite ?length_app, ?length_replicate; simpl; lia. }
    rewrite E1. set (b1 := t ++ [128] ++ replicate (B - S (length t)) 0).
    assert (length b1 = B) as Hb1 by (subst b1; rewrite !length_app, length_replicate; simpl; lia).
    assert ((B + lim - 1 - length t) `mod` B = B + lim - 1 - length t)%nat as -> by (apply Nat.mod_small; lia).
    replace (t ++ 128 :: replicate (B + lim - 1 - length t + (field - lim)) 0 ++ enc _)
      with (b1 ++ (replicate field 0 ++ enc (wrap64 (Z.of_nat (length (a ++ t)) * 8)))).
    2: { subst b1. rewrite <- !app_assoc. simpl. f_equal. f_equal.
         rewrite app_assoc, <- replicate_add. f_equal. f_equal. lia. }
    rewrite hash_blocks_step by done. rewrite Nat.sub_0_r.
    rewrite hash_blocks_one by (rewrite length_app, length_replicate, Henc; lia). f_equal.
    unfold splice. simpl take at 1. rewrite length_replicate. simpl.
    rewrite take_app_length' by (rewrite length_replicate; done).
    rewrite Henc, drop_ge; [by rewrite app_nil_r|]. rewrite length_app, length_replicate, length_drop. lia.
  - assert ((B + lim - 1 - length t) `mod` B = lim - 1 - length t)%nat as ->.
    { replace (B + lim - 1 - length t)%nat with (lim - 1 - length t + 1 * B)%nat by lia.
      rewrite Nat.Div0.mod_add. apply Nat.mod_small. lia. }
    replace (lim - 1 - length t + (field - lim))%nat with (field - S (length t))%nat by lia.
    set (z := replicate (field - S (length t)) 0).
    assert (length z = (field - S (length t))%nat) as Hz by apply length_replicate.
    rewrite hash_blocks_one by (rewrite length_app; simpl; rewrite length_app, Hz, Henc; lia). f_equal.
    rewrite <- (take_drop (field - S (length t)) d).
    set (d1 := take _ d). set (d2 := drop _ d).
    assert (length d1 = length z /\ length d2 = (B - field)%nat) as [Hd1 Hd2].
    { subst d1 d2. rewrite length_take, length_drop. lia. }
    pose proof (splice_app (t ++ [128]) d1 d2 z (S (length t))) as E1.
    rewrite <- !app_assoc in E1. rewrite E1; [|rewrite length_app; simpl; lia|done].
    pose proof (splice_app (t ++ [128] ++ z) d2 [] (enc (wrap64 (Z.of_nat (length (a ++ t)) * 8))) field) as E2.
    rewrite <- !app_assoc, !app_nil_r in E2. apply E2; [rewrite !length_app; simpl; lia|by rewrite Henc].
Qed.

(** Any sequence of updates. *)
Lemma holds_updates iv s msg ps : holds iv s msg -> holds iv (foldl update s ps) (msg ++ concat ps).
Proof.
  revert s msg. induction ps as [|p ps IH]; intros s msg Hs; simpl; [by rewrite app_nil_r|].
  rewrite app_assoc. by apply IH, holds_update.
Qed.

Lemma hash_stream iv b ps : length b = B ->
  hs (pad (foldl update (mk_ctx 0 iv b) ps)) =
  hash_blocks iv (concat ps ++ padding (length (concat ps))).
Proof. intros Hb. apply hash_pad. apply (holds_updates iv _ []). by apply holds_init. Qed.
End block_hash.

(** Two compression functions that agree on the chaining values that occur. *)
Lemma hash_blocks_ext B (c1 c2 : list Z -> list Z -> list Z) (I : list Z -> Prop) h l :
  (forall h b, I h -> c1 h b = c2 h b /\ I (c2 h b)) -> I h ->
  hash_blocks B c1 h l = hash_blocks B c2 h l.
Proof.
  intros Hc. unfold hash_blocks. generalize (length l) as n. intros n. revert h l.
  induction n as [|n IH]; intros h l HI; simpl; [done|]. destruct (_ <? _)%nat; [done|].
  destruct (Hc h (take B l) HI) as [-> HI']. by apply IH.
Qed.

(** What every compression keeps, hashing keeps. *)
Lemma hash_blocks_inv B c (I : list Z -> Prop) h l :
  (forall h b, I h -> I (c h b)) -> I h -> I (hash_blocks B c h l).
Proof.
  intros Hc. unfold hash_blocks. generalize (length l) as n. intros n. revert h l.
  induction n as [|n IH]; intros h l HI; simpl; [done|]. destruct (_ <? _)%nat; [done|]. auto.
Qed.
