(* ===== verification/Sha2Spec.v ===== *)
(** * Sha2Spec: the SHA-2 compression functions of FIPS 180-4

    The reference that musl's crypt_sha256.c and crypt_sha512.c and toybox's
    hash.c are proved to implement, with the bit identities that relate the
    optimised forms of Ch and Maj to the standard's. *)

From S2P Require Import Prelude BlockHash.
From Stdlib Require Import ZArith Lia Bool List.
From stdpp Require Import base tactics numbers list.
Open Scope Z_scope.

(** ** Bit identities *)

Ltac bits :=
  apply Z.bits_inj'; intros ? ?;
  rewrite ?Z.lxor_spec, ?Z.land_spec, ?Z.lor_spec, ?Z.lxor_spec, ?Z.land_spec, ?Z.lor_spec, ?Z.lnot_spec by done;
  repeat match goal with |- context [Z.testbit ?a ?i] => destruct (Z.testbit a i) end; reflexivity.

Definition Ch_std (x y z : Z) : Z := Z.lxor (Z.land x y) (Z.land (Z.lnot x) z).
Definition Maj_std (x y z : Z) : Z := Z.lxor (Z.lxor (Z.land x y) (Z.land x z)) (Z.land y z).

Lemma Ch_select x y z : Z.lxor z (Z.land x (Z.lxor y z)) = Ch_std x y z.
Proof. unfold Ch_std. bits. Qed.
Lemma Maj_or x y z : Z.lor (Z.land x y) (Z.land z (Z.lor x y)) = Maj_std x y z.
Proof. unfold Maj_std. bits. Qed.

(** ** The compression function *)

(** Word size, rounds, round constants, and the rotation (and shift) counts
    of the functions Sigma0, Sigma1, sigma0, sigma1. *)
Record sha2 := {
  sw : Z; srounds : nat; sK : list Z;
  sS0 : Z * Z * Z; sS1 : Z * Z * Z; sR0 : Z * Z * Z; sR1 : Z * Z * Z
}.

Section sha2.
Context (p : sha2).
Definition rotr (x k : Z) : Z := Z.lor (Z.shiftr x k) (wrap (sw p) (Z.shiftl x (sw p - k))).
Definition Sigma (c : Z * Z * Z) (x : Z) : Z :=
  Z.lxor (Z.lxor (rotr x c.1.1) (rotr x c.1.2)) (rotr x c.2).
Definition sigma (c : Z * Z * Z) (x : Z) : Z :=
  Z.lxor (Z.lxor (rotr x c.1.1) (rotr x c.1.2)) (Z.shiftr x c.2).
Definition sum (l : list Z) : Z := wrap (sw p) (foldr Z.add 0 l).

(** The next word of the message schedule. *)
Definition next_word (W : list Z) : Z :=
  let t := length W in
  sum [sigma (sR1 p) (at_ W (t - 2)); at_ W (t - 7); sigma (sR0 p) (at_ W (t - 15)); at_ W (t - 16)].
Fixpoint schedule (n : nat) (W : list Z) : list Z :=
  match n with O => W | S n => schedule n (W ++ [next_word W]) end.

Definition round (st : list Z) (k w : Z) : list Z :=
  match st with
  | [a; b; c; d; e; f; g; h] =>
      let T1 := sum [h; Sigma (sS1 p) e; Ch_std e f g; k; w] in
      let T2 := sum [Sigma (sS0 p) a; Maj_std a b c] in
      [sum [T1; T2]; a; b; c; sum [d; T1]; e; f; g]
  | _ => st
  end.

(** A block of sixteen words, most significant byte first. *)
Definition be_word (b : list Z) (n : nat) (i : nat) : Z :=
  foldl (fun acc j => Z.lor (Z.shiftl acc 8) (at_ b (n * i + j))) 0 (seq 0 n).
Definition block_words (b : list Z) : list Z :=
  be_word b (Z.to_nat (sw p / 8)) <$> seq 0 16.

Definition sha2_compress (h b : list Z) : list Z :=
  let W := schedule (srounds p - 16) (block_words b) in
  zip_with (fun x y => sum [x; y]) h
    (foldl (fun st kw => round st kw.1 kw.2) h (zip (sK p) W)).
End sha2.

(** ** Lists of state words *)

Lemma list8 {A} (l : list A) : length l = 8%nat ->
  exists a b c d e f g h, l = [a; b; c; d; e; f; g; h].
Proof.
  intros H. do 8 (destruct l as [|? l]; [simpl in H; lia|]). destruct l; [|simpl in H; lia].
  by eexists _, _, _, _, _, _, _, _.
Qed.

Lemma round_length p st k w : length (round p st k w) = length st.
Proof. unfold round. by repeat case_match. Qed.

Lemma sum_mod p l : wrap (sw p) (sum p l) = sum p l.
Proof. unfold sum. apply wrap_wrap. Qed.

(** A word of the schedule depends on the words before it. *)
Lemma schedule_length p n W : length (schedule p n W) = (length W + n)%nat.
Proof. revert W. induction n as [|n IH]; intros W; simpl; [lia|]. rewrite IH, length_app. simpl. lia. Qed.

(** ** From loops with an index to the reference *)

Lemma foldl_schedule p (f : list Z -> nat -> Z) n W0 :
  (forall W, f W (length W) = next_word p W) ->
  foldl (fun W i => W ++ [f W i]) W0 (seq (length W0) n) = schedule p n W0.
Proof.
  intros Hf. revert W0. induction n as [|n IH]; intros W0; simpl; [done|].
  rewrite Hf. replace (S (length W0)) with (length (W0 ++ [next_word p W0])); [apply IH|].
  rewrite length_app. simpl. lia.
Qed.

Lemma list_at l : at_ l <$> seq 0 (length l) = l.
Proof.
  apply list_eq. intros i. rewrite list_lookup_fmap. destruct (decide (i < length l)%nat).
  - rewrite lookup_seq_lt by done. simpl. destruct (lookup_lt_is_Some_2 l i) as [x Hx]; [done|].
    rewrite Hx. f_equal. by apply nth_lookup_Some.
  - rewrite lookup_seq_ge, lookup_ge_None_2 by lia. done.
Qed.

(** A loop over the round constants and the schedule. *)
Lemma foldl_zip_at (K W : list Z) {S} (g : S -> Z -> Z -> S) (step : S -> nat -> S) (I : S -> Prop) n st :
  (forall st i, I st -> step st i = g st (at_ K i) (at_ W i) /\ I (step st i)) ->
  length K = n -> length W = n -> I st ->
  foldl step st (seq 0 n) = foldl (fun st kw => g st kw.1 kw.2) st (zip K W).
Proof.
  intros Hstep HK HW HI. rewrite <- (list_at K), <- (list_at W), HK, HW. clear HK HW.
  generalize (seq 0 n) as js. intros js. revert st HI.
  induction js as [|i js IH]; intros st HI; simpl; [done|].
  destruct (Hstep st i HI) as [<- HI']. by apply IH.
Qed.

(** Chained additions and a sum reduce the same total. *)
Ltac sum_eq := unfold sum, add32, add64; cbn [foldr]; simpl (sw _);
  repeat (rewrite <- ?Z.add_assoc, ?wrap_add_l, ?wrap_add_r; rewrite ?Z.add_assoc, ?wrap_add_l, ?wrap_add_r);
  apply f_equal; lia.

(** ** The constants *)

(** [k] is the first [w] bits of the fractional part of the cube (square)
    root of [p]. *)
Definition frac_root (e w p k : Z) : bool :=
  existsb (fun i => ((i * 2 ^ w + k) ^ e <=? p * 2 ^ (e * w)) && (p * 2 ^ (e * w) <? (i * 2 ^ w + k + 1) ^ e))
    [1; 2; 3; 4; 5; 6; 7].

Definition primes : list Z :=
  [2; 3; 5; 7; 11; 13; 17; 19; 23; 29; 31; 37; 41; 43; 47; 53; 59; 61; 67; 71; 73; 79; 83; 89; 97;
   101; 103; 107; 109; 113; 127; 131; 137; 139; 149; 151; 157; 163; 167; 173; 179; 181; 191; 193;
   197; 199; 211; 223; 227; 229; 233; 239; 241; 251; 257; 263; 269; 271; 277; 281; 283; 293; 307;
   311; 313; 317; 331; 337; 347; 349; 353; 359; 367; 373; 379; 383; 389; 397; 401; 409].

Definition roots_ok (e w : Z) (ps ks : list Z) : bool :=
  (length ps =? length ks)%nat && forallb (fun pk => frac_root e w pk.1 pk.2) (zip ps ks).
