(* ===== verification/Sha256.v ===== *)
(** * Sha256: SHA-256, toolchain/musl-1.2.5/src/crypt/crypt_sha256.c

    The hash function of the $5$ password scheme: compression, padding,
    buffered update and digest, proved equal to FIPS 180-4. *)

From S2P Require Import Prelude BlockHash Sha2Spec.
From Stdlib Require Import ZArith Lia Bool List.
From stdpp Require Import base tactics numbers list.
Open Scope Z_scope.

Definition ror (n k : Z) : Z := Z.lor (Z.shiftr n k) (wrap32 (Z.shiftl n (32 - k))).
Definition Ch (x y z : Z) : Z := Z.lxor z (Z.land x (Z.lxor y z)).
Definition Maj (x y z : Z) : Z := Z.lor (Z.land x y) (Z.land z (Z.lor x y)).
Definition S0 (x : Z) : Z := Z.lxor (Z.lxor (ror x 2) (ror x 13)) (ror x 22).
Definition S1 (x : Z) : Z := Z.lxor (Z.lxor (ror x 6) (ror x 11)) (ror x 25).
Definition R0 (x : Z) : Z := Z.lxor (Z.lxor (ror x 7) (ror x 18)) (Z.shiftr x 3).
Definition R1 (x : Z) : Z := Z.lxor (Z.lxor (ror x 17) (ror x 19)) (Z.shiftr x 10).

Definition K : list Z :=
  [0x428A2F98; 0x71374491; 0xB5C0FBCF; 0xE9B5DBA5; 0x3956C25B; 0x59F111F1; 0x923F82A4; 0xAB1C5ED5;
   0xD807AA98; 0x12835B01; 0x243185BE; 0x550C7DC3; 0x72BE5D74; 0x80DEB1FE; 0x9BDC06A7; 0xC19BF174;
   0xE49B69C1; 0xEFBE4786; 0x0FC19DC6; 0x240CA1CC; 0x2DE92C6F; 0x4A7484AA; 0x5CB0A9DC; 0x76F988DA;
   0x983E5152; 0xA831C66D; 0xB00327C8; 0xBF597FC7; 0xC6E00BF3; 0xD5A79147; 0x06CA6351; 0x14292967;
   0x27B70A85; 0x2E1B2138; 0x4D2C6DFC; 0x53380D13; 0x650A7354; 0x766A0ABB; 0x81C2C92E; 0x92722C85;
   0xA2BFE8A1; 0xA81A664B; 0xC24B8B70; 0xC76C51A3; 0xD192E819; 0xD6990624; 0xF40E3585; 0x106AA070;
   0x19A4C116; 0x1E376C08; 0x2748774C; 0x34B0BCB5; 0x391C0CB3; 0x4ED8AA4A; 0x5B9CCA4F; 0x682E6FF3;
   0x748F82EE; 0x78A5636F; 0x84C87814; 0x8CC70208; 0x90BEFFFA; 0xA4506CEB; 0xBEF9A3F7; 0xC67178F2].

(** Word [i] of the block. *)
Definition load_word (b : list Z) (i : nat) : Z :=
  Z.lor (Z.lor (Z.lor (Z.shiftl (at_ b (4 * i)) 24) (Z.shiftl (at_ b (4 * i + 1)) 16))
    (Z.shiftl (at_ b (4 * i + 2)) 8)) (at_ b (4 * i + 3)).

(** One iteration of the main loop on the variables [a] to [h]. *)
Definition step (W : list Z) (st : list Z) (i : nat) : list Z :=
  match st with
  | [a; b; c; d; e; f; g; h] =>
      let t1 := add32 (add32 (add32 (add32 h (S1 e)) (Ch e f g)) (at_ K i)) (at_ W i) in
      let t2 := add32 (S0 a) (Maj a b c) in
      [add32 t1 t2; a; b; c; add32 d t1; e; f; g]
  | _ => st
  end.

Definition processblock (h b : list Z) : list Z :=
  let W := load_word b <$> seq 0 16 in
  let W := foldl (fun W i => W ++ [add32 (add32 (add32 (R1 (at_ W (i - 2))) (at_ W (i - 7)))
                                           (R0 (at_ W (i - 15)))) (at_ W (i - 16))]) W (seq 16 48) in
  zip_with add32 h (foldl (step W) h (seq 0 64)).

Definition pad (s : hash_ctx) : hash_ctx := BlockHash.pad 64 56 56 be_bytes8 processblock s.

Definition sha256_init (b : list Z) : hash_ctx := mk_ctx 0
  [0x6a09e667; 0xbb67ae85; 0x3c6ef372; 0xa54ff53a; 0x510e527f; 0x9b05688c; 0x1f83d9ab; 0x5be0cd19] b.

Definition sha256_sum (s : hash_ctx) : list Z :=
  let s := pad s in concat (be_bytes4 <$> hs s).

Definition sha256_update (s : hash_ctx) (m : list Z) : hash_ctx :=
  BlockHash.update 64 processblock s m.

(** ** Correctness *)

Definition sha256_params : sha2 := {|
  sw := 32; srounds := 64; sK := K;
  sS0 := (2, 13, 22); sS1 := (6, 11, 25);
  sR0 := (7, 18, 3); sR1 := (17, 19, 10) |}.
Abbreviation P := sha256_params.

(** SHA-256 of a message, from the standard. *)
Definition sha256 (msg : list Z) : list Z :=
  concat (be_bytes4 <$> hash_blocks 64 (sha2_compress P) (hs (sha256_init []))
    (msg ++ padding 64 56 56 be_bytes8 (length msg))).

Lemma sha256_load_word_be b i : load_word b i = be_word b 4 i.
Proof.
  unfold load_word, be_word. simpl. rewrite Z.shiftl_0_l, Z.lor_0_l.
  repeat rewrite ?Z.shiftl_lor, ?Z.shiftl_shiftl by lia. rewrite ?Nat.add_0_r. done.
Qed.

Lemma sha256_processblock_correct h b :
  length h = 8%nat -> processblock h b = sha2_compress P h b.
Proof.
  intros Hh. unfold processblock, sha2_compress.
  change R0 with (sigma P (sR0 P)). change R1 with (sigma P (sR1 P)).
  assert (load_word b <$> seq 0 16 = block_words P b) as ->.
  { apply list_fmap_ext. intros _ i _. apply sha256_load_word_be. }
  change (seq 16 48) with (seq (length (block_words P b)) 48).
  rewrite (foldl_schedule P); [|intros W; unfold next_word; sum_eq].
  change (srounds P - 16)%nat with 48%nat. set (W := schedule P 48 (block_words P b)).
  assert (length W = 64%nat) as HW by (subst W; by rewrite schedule_length).
  rewrite (foldl_zip_at K W (round P) (step W) (fun st => length st = 8%nat)); [|  |done|done|done].
  - apply zip_with_ext; [intros x y; sum_eq|done|done].
  - intros st i Hst. destruct (list8 st Hst) as (a & b' & c & d & e & f & g & h' & ->).
    split; [|done]. unfold step, round, Ch, Maj.
    change S0 with (Sigma P (sS0 P)). change S1 with (Sigma P (sS1 P)). rewrite Ch_select, Maj_or.
    assert (add32 (add32 (add32 (add32 h' (Sigma P (sS1 P) e)) (Ch_std e f g)) (at_ K i)) (at_ W i) =
      sum P [h'; Sigma P (sS1 P) e; Ch_std e f g; at_ K i; at_ W i]) as -> by sum_eq.
    assert (forall x y, add32 x y = sum P [x; y]) as E2 by (intros; sum_eq).
    by rewrite !E2.
Qed.

Lemma sha256_compress_length h b : length h = 8%nat -> length (sha2_compress P h b) = 8%nat.
Proof.
  intros Hh. unfold sha2_compress. rewrite length_zip_with, Hh.
  assert (forall l st, length st = 8%nat -> length (foldl (fun st kw => round P st kw.1 kw.2) st l) = 8%nat) as H.
  { induction l as [|[k w] l IH]; intros st Hst; simpl; [done|]. apply IH. by rewrite round_length. }
  rewrite H; done.
Qed.

Lemma sha256_sum_of msgs b :
  length b = 64%nat ->
  sha256_sum (foldl sha256_update (sha256_init b) msgs) = sha256 (concat msgs).
Proof.
  intros Hb. unfold sha256_sum, pad, sha256.
  assert (Z.of_nat 64 | 2 ^ 64) as Hd by (by exists (2 ^ 58)).
  pose proof (hash_stream 64 56 56 be_bytes8 processblock ltac:(lia) Hd ltac:(lia) ltac:(lia)
    ltac:(done) ltac:(lia) (hs (sha256_init [])) b msgs Hb) as E.
  do 2 f_equal. etransitivity; [exact E|].
  apply hash_blocks_ext with (I := fun h => length h = 8%nat); [|done].
  intros h x Hh. rewrite sha256_processblock_correct by done. split; [done|by apply sha256_compress_length].
Qed.

(** C28: hashing a message in any pieces with [sha256_init], [sha256_update]
    and [sha256_sum], from any contents of the block buffer, gives the SHA-256
    of the whole message as FIPS 180-4 defines it. *)
Theorem sha256_streaming msgs b :
  length b = 64%nat ->
  sha256_sum (foldl sha256_update (sha256_init b) msgs) = sha256 (concat msgs).
Proof. apply sha256_sum_of. Qed.

Lemma sha256_streaming_witness :
  sha256_sum (foldl sha256_update (sha256_init (replicate 64 0)) [[97]; [98; 99]]) = sha256 [97; 98; 99].
Proof. exact (sha256_streaming [[97]; [98; 99]] (replicate 64 0) ltac:(reflexivity)). Defined.

(** The round constants are the first 32 bits of the fractional parts of
    the cube roots of the first 64 primes, and the initial hash value those
    of the square roots of the first 8 primes. *)
Theorem sha256_constants :
  roots_ok 3 32 (take 64 primes) K = true /\
  roots_ok 2 32 (take 8 primes) (hs (sha256_init [])) = true.
Proof. split; reflexivity. Qed.

Example sha256_abc : take 4 (sha256 [97; 98; 99]) = [186; 120; 22; 191].
Proof. reflexivity. Qed.
