(* ===== verification/Sha512.v ===== *)
(** * Sha512: SHA-512, toolchain/musl-1.2.5/src/crypt/crypt_sha512.c

    The hash function of the $6$ password scheme: compression, padding,
    buffered update and digest, proved equal to FIPS 180-4. *)

From S2P Require Import Prelude BlockHash Sha2Spec.
From Stdlib Require Import ZArith Lia Bool List.
From stdpp Require Import base tactics numbers list.
Open Scope Z_scope.

Definition ror (n k : Z) : Z := Z.lor (Z.shiftr n k) (wrap64 (Z.shiftl n (64 - k))).
Definition Ch (x y z : Z) : Z := Z.lxor z (Z.land x (Z.lxor y z)).
Definition Maj (x y z : Z) : Z := Z.lor (Z.land x y) (Z.land z (Z.lor x y)).
Definition S0 (x : Z) : Z := Z.lxor (Z.lxor (ror x 28) (ror x 34)) (ror x 39).
Definition S1 (x : Z) : Z := Z.lxor (Z.lxor (ror x 14) (ror x 18)) (ror x 41).
Definition R0 (x : Z) : Z := Z.lxor (Z.lxor (ror x 1) (ror x 8)) (Z.shiftr x 7).
Definition R1 (x : Z) : Z := Z.lxor (Z.lxor (ror x 19) (ror x 61)) (Z.shiftr x 6).

Definition K : list Z :=
  [0x428a2f98d728ae22; 0x7137449123ef65cd; 0xb5c0fbcfec4d3b2f; 0xe9b5dba58189dbbc;
   0x3956c25bf348b538; 0x59f111f1b605d019; 0x923f82a4af194f9b; 0xab1c5ed5da6d8118;
   0xd807aa98a3030242; 0x12835b0145706fbe; 0x243185be4ee4b28c; 0x550c7dc3d5ffb4e2;
   0x72be5d74f27b896f; 0x80deb1fe3b1696b1; 0x9bdc06a725c71235; 0xc19bf174cf692694;
   0xe49b69c19ef14ad2; 0xefbe4786384f25e3; 0x0fc19dc68b8cd5b5; 0x240ca1cc77ac9c65;
   0x2de92c6f592b0275; 0x4a7484aa6ea6e483; 0x5cb0a9dcbd41fbd4; 0x76f988da831153b5;
   0x983e5152ee66dfab; 0xa831c66d2db43210; 0xb00327c898fb213f; 0xbf597fc7beef0ee4;
   0xc6e00bf33da88fc2; 0xd5a79147930aa725; 0x06ca6351e003826f; 0x142929670a0e6e70;
   0x27b70a8546d22ffc; 0x2e1b21385c26c926; 0x4d2c6dfc5ac42aed; 0x53380d139d95b3df;
   0x650a73548baf63de; 0x766a0abb3c77b2a8; 0x81c2c92e47edaee6; 0x92722c851482353b;
   0xa2bfe8a14cf10364; 0xa81a664bbc423001; 0xc24b8b70d0f89791; 0xc76c51a30654be30;
   0xd192e819d6ef5218; 0xd69906245565a910; 0xf40e35855771202a; 0x106aa07032bbd1b8;
   0x19a4c116b8d2d0c8; 0x1e376c085141ab53; 0x2748774cdf8eeb99; 0x34b0bcb5e19b48a8;
   0x391c0cb3c5c95a63; 0x4ed8aa4ae3418acb; 0x5b9cca4f7763e373; 0x682e6ff3d6b2b8a3;
   0x748f82ee5defb2fc; 0x78a5636f43172f60; 0x84c87814a1f0ab72; 0x8cc702081a6439ec;
   0x90befffa23631e28; 0xa4506cebde82bde9; 0xbef9a3f7b2c67915; 0xc67178f2e372532b;
   0xca273eceea26619c; 0xd186b8c721c0c207; 0xeada7dd6cde0eb1e; 0xf57d4f7fee6ed178;
   0x06f067aa72176fba; 0x0a637dc5a2c898a6; 0x113f9804bef90dae; 0x1b710b35131c471b;
   0x28db77f523047d84; 0x32caab7b40c72493; 0x3c9ebe0a15c9bebc; 0x431d67c49c100d4c;
   0x4cc5d4becb3e42b6; 0x597f299cfc657e2a; 0x5fcb6fab3ad6faec; 0x6c44198c4a475817].

(** Word [i] of the block. *)
Definition load_word (b : list Z) (i : nat) : Z :=
  Z.lor (Z.lor (Z.lor (Z.lor (Z.lor (Z.lor (Z.lor (Z.shiftl (at_ b (8 * i)) 56) (Z.shiftl (at_ b (8 * i + 1)) 48))
    (Z.shiftl (at_ b (8 * i + 2)) 40)) (Z.shiftl (at_ b (8 * i + 3)) 32))
    (Z.shiftl (at_ b (8 * i + 4)) 24)) (Z.shiftl (at_ b (8 * i + 5)) 16))
    (Z.shiftl (at_ b (8 * i + 6)) 8)) (at_ b (8 * i + 7)).

(** One iteration of the main loop on the variables [a] to [h]. *)
Definition step (W : list Z) (st : list Z) (i : nat) : list Z :=
  match st with
  | [a; b; c; d; e; f; g; h] =>
      let t1 := add64 (add64 (add64 (add64 h (S1 e)) (Ch e f g)) (at_ K i)) (at_ W i) in
      let t2 := add64 (S0 a) (Maj a b c) in
      [add64 t1 t2; a; b; c; add64 d t1; e; f; g]
  | _ => st
  end.

Definition processblock (h b : list Z) : list Z :=
  let W := load_word b <$> seq 0 16 in
  let W := foldl (fun W i => W ++ [add64 (add64 (add64 (R1 (at_ W (i - 2))) (at_ W (i - 7)))
                                           (R0 (at_ W (i - 15)))) (at_ W (i - 16))]) W (seq 16 64) in
  zip_with add64 h (foldl (step W) h (seq 0 80)).

Definition pad (s : hash_ctx) : hash_ctx := BlockHash.pad 128 112 120 be_bytes8 processblock s.

Definition sha512_init (b : list Z) : hash_ctx := mk_ctx 0
  [0x6a09e667f3bcc908; 0xbb67ae8584caa73b; 0x3c6ef372fe94f82b; 0xa54ff53a5f1d36f1;
   0x510e527fade682d1; 0x9b05688c2b3e6c1f; 0x1f83d9abfb41bd6b; 0x5be0cd19137e2179] b.

Definition sha512_sum (s : hash_ctx) : list Z :=
  let s := pad s in concat (be_bytes8 <$> hs s).

Definition sha512_update (s : hash_ctx) (m : list Z) : hash_ctx :=
  BlockHash.update 128 processblock s m.

(** ** Correctness *)

Definition sha512_params : sha2 := {|
  sw := 64; srounds := 80; sK := K;
  sS0 := (28, 34, 39); sS1 := (14, 18, 41);
  sR0 := (1, 8, 7); sR1 := (19, 61, 6) |}.
Abbreviation P := sha512_params.

(** SHA-512 of a message, from the standard. *)
Definition sha512 (msg : list Z) : list Z :=
  concat (be_bytes8 <$> hash_blocks 128 (sha2_compress P) (hs (sha512_init []))
    (msg ++ padding 128 112 120 be_bytes8 (length msg))).

Lemma sha512_load_word_be b i : load_word b i = be_word b 8 i.
Proof.
  unfold load_word, be_word. simpl. rewrite Z.shiftl_0_l, Z.lor_0_l.
  repeat rewrite ?Z.shiftl_lor, ?Z.shiftl_shiftl by lia. rewrite ?Nat.add_0_r. done.
Qed.

Lemma sha512_processblock_correct h b :
  length h = 8%nat -> processblock h b = sha2_compress P h b.
Proof.
  intros Hh. unfold processblock, sha2_compress.
  change R0 with (sigma P (sR0 P)). change R1 with (sigma P (sR1 P)).
  assert (load_word b <$> seq 0 16 = block_words P b) as ->.
  { apply list_fmap_ext. intros _ i _. apply sha512_load_word_be. }
  change (seq 16 64) with (seq (length (block_words P b)) 64).
  rewrite (foldl_schedule P); [|intros W; unfold next_word; sum_eq].
  change (srounds P - 16)%nat with 64%nat. set (W := schedule P 64 (block_words P b)).
  assert (length W = 80%nat) as HW by (subst W; by rewrite schedule_length).
  rewrite (foldl_zip_at K W (round P) (step W) (fun st => length st = 8%nat)); [|  |done|done|done].
  - apply zip_with_ext; [intros x y; sum_eq|done|done].
  - intros st i Hst. destruct (list8 st Hst) as (a & b' & c & d & e & f & g & h' & ->).
    split; [|done]. unfold step, round, Ch, Maj.
    change S0 with (Sigma P (sS0 P)). change S1 with (Sigma P (sS1 P)). rewrite Ch_select, Maj_or.
    assert (add64 (add64 (add64 (add64 h' (Sigma P (sS1 P) e)) (Ch_std e f g)) (at_ K i)) (at_ W i) =
      sum P [h'; Sigma P (sS1 P) e; Ch_std e f g; at_ K i; at_ W i]) as -> by sum_eq.
    assert (forall x y, add64 x y = sum P [x; y]) as E2 by (intros; sum_eq).
    by rewrite !E2.
Qed.

Lemma sha512_compress_length h b : length h = 8%nat -> length (sha2_compress P h b) = 8%nat.
Proof.
  intros Hh. unfold sha2_compress. rewrite length_zip_with, Hh.
  assert (forall l st, length st = 8%nat -> length (foldl (fun st kw => round P st kw.1 kw.2) st l) = 8%nat) as H.
  { induction l as [|[k w] l IH]; intros st Hst; simpl; [done|]. apply IH. by rewrite round_length. }
  rewrite H; done.
Qed.

Lemma sha512_sum_of msgs b :
  length b = 128%nat ->
  sha512_sum (foldl sha512_update (sha512_init b) msgs) = sha512 (concat msgs).
Proof.
  intros Hb. unfold sha512_sum, pad, sha512.
  assert (Z.of_nat 128 | 2 ^ 64) as Hd by (by exists (2 ^ 57)).
  pose proof (hash_stream 128 112 120 be_bytes8 processblock ltac:(lia) Hd ltac:(lia) ltac:(lia)
    ltac:(done) ltac:(lia) (hs (sha512_init [])) b msgs Hb) as E.
  do 2 f_equal. etransitivity; [exact E|].
  apply hash_blocks_ext with (I := fun h => length h = 8%nat); [|done].
  intros h x Hh. rewrite sha512_processblock_correct by done. split; [done|by apply sha512_compress_length].
Qed.

(** Hashing a message in any pieces with [sha512_init], [sha512_update]
    and [sha512_sum], from any contents of the block buffer, gives the SHA-512
    of the whole message as FIPS 180-4 defines it. *)
Theorem sha512_streaming msgs b :
  length b = 128%nat ->
  sha512_sum (foldl sha512_update (sha512_init b) msgs) = sha512 (concat msgs).
Proof. apply sha512_sum_of. Qed.

Lemma sha512_streaming_witness :
  sha512_sum (foldl sha512_update (sha512_init (replicate 128 0)) [[97]; [98; 99]]) = sha512 [97; 98; 99].
Proof. exact (sha512_streaming [[97]; [98; 99]] (replicate 128 0) ltac:(reflexivity)). Defined.

(** The round constants are the first 64 bits of the fractional parts of
    the cube roots of the first 80 primes, and the initial hash value those
    of the square roots of the first 8 primes. *)
Theorem sha512_constants :
  roots_ok 3 64 (take 80 primes) K = true /\
  roots_ok 2 64 (take 8 primes) (hs (sha512_init [])) = true.
Proof. split; reflexivity. Qed.

Example sha512_abc : take 4 (sha512 [97; 98; 99]) = [221; 175; 53; 161].
Proof. reflexivity. Qed.
