(* ===== verification/Md5.v ===== *)
(** * Md5: MD5, toolchain/musl-1.2.5/src/crypt/crypt_md5.c

    The hash function of the $1$ password scheme, with RFC 1321's description
    of the compression function (64 operations on rotating registers) as the
    reference. *)

From S2P Require Import Prelude BlockHash Sha2Spec.
From Stdlib Require Import ZArith Lia Bool List.
From stdpp Require Import base tactics numbers list.
Open Scope Z_scope.

Definition rol (n k : Z) : Z := Z.lor (wrap32 (Z.shiftl n k)) (Z.shiftr n (32 - k)).
Definition F (x y z : Z) : Z := Z.lxor z (Z.land x (Z.lxor y z)).
Definition G (x y z : Z) : Z := Z.lxor y (Z.land z (Z.lxor y x)).
Definition H (x y z : Z) : Z := Z.lxor (Z.lxor x y) z.
Definition I (x y z : Z) : Z := Z.lxor y (Z.lor x (wrap32 (Z.lnot z))).
(** The new value of [a]. *)
Definition FF (a b c d w s t : Z) : Z := add32 (rol (add32 a (add32 (add32 (F b c d) w) t)) s) b.
Definition GG (a b c d w s t : Z) : Z := add32 (rol (add32 a (add32 (add32 (G b c d) w) t)) s) b.
Definition HH (a b c d w s t : Z) : Z := add32 (rol (add32 a (add32 (add32 (H b c d) w) t)) s) b.
Definition II (a b c d w s t : Z) : Z := add32 (rol (add32 a (add32 (add32 (I b c d) w) t)) s) b.

Definition tab : list Z :=
  [0xd76aa478; 0xe8c7b756; 0x242070db; 0xc1bdceee; 0xf57c0faf; 0x4787c62a; 0xa8304613; 0xfd469501;
   0x698098d8; 0x8b44f7af; 0xffff5bb1; 0x895cd7be; 0x6b901122; 0xfd987193; 0xa679438e; 0x49b40821;
   0xf61e2562; 0xc040b340; 0x265e5a51; 0xe9b6c7aa; 0xd62f105d; 0x02441453; 0xd8a1e681; 0xe7d3fbc8;
   0x21e1cde6; 0xc33707d6; 0xf4d50d87; 0x455a14ed; 0xa9e3e905; 0xfcefa3f8; 0x676f02d9; 0x8d2a4c8a;
   0xfffa3942; 0x8771f681; 0x6d9d6122; 0xfde5380c; 0xa4beea44; 0x4bdecfa9; 0xf6bb4b60; 0xbebfbc70;
   0x289b7ec6; 0xeaa127fa; 0xd4ef3085; 0x04881d05; 0xd9d4d039; 0xe6db99e5; 0x1fa27cf8; 0xc4ac5665;
   0xf4292244; 0x432aff97; 0xab9423a7; 0xfc93a039; 0x655b59c3; 0x8f0ccc92; 0xffeff47d; 0x85845dd1;
   0x6fa87e4f; 0xfe2ce6e0; 0xa3014314; 0x4e0811a1; 0xf7537e82; 0xbd3af235; 0x2ad7d2bb; 0xeb86d391].

Definition load_le (b : list Z) (i : nat) : Z :=
  Z.lor (Z.lor (Z.lor (at_ b (4 * i)) (Z.shiftl (at_ b (4 * i + 1)) 8))
    (Z.shiftl (at_ b (4 * i + 2)) 16)) (Z.shiftl (at_ b (4 * i + 3)) 24).

(** The body of one of the four loops: four operations, [i] advancing. *)
Definition quad (f : Z -> Z -> Z -> Z -> Z -> Z -> Z -> Z) (idx : nat -> nat) (s1 s2 s3 s4 : Z)
    (W : list Z) (st : list Z) (i : nat) : list Z :=
  match st with
  | [a; b; c; d] =>
      let a := f a b c d (at_ W (idx i)) s1 (at_ tab i) in
      let d := f d a b c (at_ W (idx (i + 1))) s2 (at_ tab (i + 1)) in
      let c := f c d a b (at_ W (idx (i + 2))) s3 (at_ tab (i + 2)) in
      let b := f b c d a (at_ W (idx (i + 3))) s4 (at_ tab (i + 3)) in
      [a; b; c; d]
  | _ => st
  end%nat.

(** [while (i < hi)], four operations at a time. *)
Definition quads (f : list Z -> nat -> list Z) (lo : nat) (st : list Z) : list Z :=
  foldl (fun st j => f st (lo + 4 * j)%nat) st (seq 0 4).

Definition processblock (h b : list Z) : list Z :=
  let W := load_le b <$> seq 0 16 in
  let st := quads (quad FF (fun i => i) 7 12 17 22 W) 0 h in
  let st := quads (quad GG (fun i => (5 * i + 1) `mod` 16)%nat 5 9 14 20 W) 16 st in
  let st := quads (quad HH (fun i => (3 * i + 5) `mod` 16)%nat 4 11 16 23 W) 32 st in
  let st := quads (quad II (fun i => (7 * i) `mod` 16)%nat 6 10 15 21 W) 48 st in
  zip_with add32 h st.

Definition pad (s : hash_ctx) : hash_ctx := BlockHash.pad 64 56 56 le_bytes8 processblock s.

Definition md5_init (b : list Z) : hash_ctx :=
  mk_ctx 0 [0x67452301; 0xefcdab89; 0x98badcfe; 0x10325476] b.

Definition md5_sum (s : hash_ctx) : list Z :=
  let s := pad s in concat (le_bytes4 <$> hs s).

Definition md5_update (s : hash_ctx) (m : list Z) : hash_ctx :=
  BlockHash.update 64 processblock s m.

(** ** The reference, RFC 1321 *)

Definition md5_f (i : nat) (x y z : Z) : Z :=
  if (i <? 16)%nat then Z.lor (Z.land x y) (Z.land (Z.lnot x) z)
  else if (i <? 32)%nat then Z.lor (Z.land x z) (Z.land y (Z.lnot z))
  else if (i <? 48)%nat then Z.lxor (Z.lxor x y) z
  else Z.lxor y (Z.lor x (wrap32 (Z.lnot z))).
Definition md5_k (i : nat) : nat :=
  (if i <? 16 then i else if i <? 32 then (5 * i + 1) `mod` 16
   else if i <? 48 then (3 * i + 5) `mod` 16 else (7 * i) `mod` 16)%nat.
Definition md5_s (i : nat) : Z :=
  at_ [7; 12; 17; 22; 5; 9; 14; 20; 4; 11; 16; 23; 6; 10; 15; 21] (4 * (i / 16) + i `mod` 4).

(** Operation [i]: [a = b + ((a + f(b,c,d) + X[k] + T[i]) <<< s)], then the
    registers rotate. *)
Definition md5_op (W : list Z) (st : list Z) (i : nat) : list Z :=
  match st with
  | [a; b; c; d] =>
      [d; wrap32 (b + rol (wrap32 (a + md5_f i b c d + at_ W (md5_k i) + at_ tab i)) (md5_s i)); b; c]
  | _ => st
  end.

Definition md5_compress (h b : list Z) : list Z :=
  let W := (fun i => foldr (fun j acc => Z.lor (at_ b (4 * i + j)) (Z.shiftl acc 8)) 0 (seq 0 4)) <$> seq 0 16 in
  zip_with (fun x y => wrap32 (x + y)) h (foldl (md5_op W) h (seq 0 64)).

Definition md5 (msg : list Z) : list Z :=
  concat (le_bytes4 <$> hash_blocks 64 md5_compress (hs (md5_init []))
    (msg ++ padding 64 56 56 le_bytes8 (length msg))).

Example md5_abc : md5_sum (md5_update (md5_init (replicate 64 0)) [97; 98; 99]) =
  [0x90; 0x01; 0x50; 0x98; 0x3c; 0xd2; 0x4f; 0xb0; 0xd6; 0x96; 0x3f; 0x7d; 0x28; 0xe1; 0x7f; 0x72].
Proof. vm_compute. reflexivity. Qed.
Example md5_abc' : take 4 (md5 [97; 98; 99]) = [0x90; 0x01; 0x50; 0x98].
Proof. vm_compute. reflexivity. Qed.

(** ** Correctness *)

Lemma F_select x y z : F x y z = Z.lor (Z.land x y) (Z.land (Z.lnot x) z).
Proof. unfold F. bits. Qed.
Lemma G_select x y z : G x y z = Z.lor (Z.land x z) (Z.land y (Z.lnot z)).
Proof. unfold G. bits. Qed.

Lemma list4 {A} (l : list A) : length l = 4%nat -> exists a b c d, l = [a; b; c; d].
Proof.
  intros E. do 4 (destruct l as [|? l]; [simpl in E; lia|]). destruct l; [|simpl in E; lia].
  by eexists _, _, _, _.
Qed.

Lemma add_op a b x w t s :
  add32 (rol (add32 a (add32 (add32 x w) t)) s) b = wrap32 (b + rol (wrap32 (a + x + w + t)) s).
Proof.
  unfold add32. rewrite wrap_add_l, wrap_add_r, (Z.add_comm _ b), !Z.add_assoc. done.
Qed.

(** Four operations of the reference are the body of a loop. *)
Lemma quad_ops W st f idx s1 s2 s3 s4 i :
  length st = 4%nat ->
  (forall j a b c d w s t, (j < 4)%nat ->
     f a b c d w s t = add32 (rol (add32 a (add32 (add32 (md5_f (i + j) b c d) w) t)) s) b) ->
  (forall j, (j < 4)%nat -> md5_k (i + j) = idx (i + j)%nat) ->
  md5_s i = s1 -> md5_s (i + 1) = s2 -> md5_s (i + 2) = s3 -> md5_s (i + 3) = s4 ->
  quad f idx s1 s2 s3 s4 W st i = foldl (md5_op W) st [i; (i + 1); (i + 2); (i + 3)]%nat.
Proof.
  intros Hst Hf Hk <- <- <- <-. destruct (list4 st Hst) as (a & b & c & d & ->).
  pose proof (Hk 0%nat ltac:(lia)) as K0. pose proof (Hk 1%nat ltac:(lia)) as K1.
  pose proof (Hk 2%nat ltac:(lia)) as K2. pose proof (Hk 3%nat ltac:(lia)) as K3.
  assert (forall a b c d w s t, f a b c d w s t =
    add32 (rol (add32 a (add32 (add32 (md5_f i b c d) w) t)) s) b) as F0.
  { intros. rewrite (Hf 0%nat) by lia. by rewrite Nat.add_0_r. }
  rewrite Nat.add_0_r in K0.
  pose proof (fun a b c d w s t => Hf 1%nat a b c d w s t ltac:(lia)) as F1.
  pose proof (fun a b c d w s t => Hf 2%nat a b c d w s t ltac:(lia)) as F2.
  pose proof (fun a b c d w s t => Hf 3%nat a b c d w s t ltac:(lia)) as F3.
  unfold quad. cbv zeta. cbn [foldl md5_op]. rewrite K0, K1, K2, K3, <- !add_op.
  set (a1 := f a _ _ _ _ _ _). rewrite <- F0. fold a1.
  set (d1 := f d _ _ _ _ _ _). rewrite <- F1. fold d1.
  set (c1 := f c _ _ _ _ _ _). rewrite <- F2. fold c1.
  by rewrite <- F3.
Qed.

Lemma md5_op_length W st i : length (md5_op W st i) = length st.
Proof. unfold md5_op. by repeat case_match. Qed.
Lemma md5_ops_length W st l : length (foldl (md5_op W) st l) = length st.
Proof. revert st. induction l as [|i l IH]; intros st; simpl; [done|]. by rewrite IH, md5_op_length. Qed.

Lemma quad_length f idx s1 s2 s3 s4 W st i : length (quad f idx s1 s2 s3 s4 W st i) = length st.
Proof. unfold quad. by repeat case_match. Qed.

Lemma quads_ops W st f idx s1 s2 s3 s4 lo :
  length st = 4%nat ->
  (forall i a b c d w s t, (lo <= i < lo + 16)%nat ->
     f a b c d w s t = add32 (rol (add32 a (add32 (add32 (md5_f i b c d) w) t)) s) b) ->
  (forall i, (lo <= i < lo + 16)%nat -> md5_k i = idx i) ->
  (forall j, (j < 4)%nat -> md5_s (lo + 4 * j) = s1 /\ md5_s (lo + 4 * j + 1) = s2 /\
     md5_s (lo + 4 * j + 2) = s3 /\ md5_s (lo + 4 * j + 3) = s4) ->
  quads (quad f idx s1 s2 s3 s4 W) lo st = foldl (md5_op W) st (seq lo 16).
Proof.
  intros Hst Hf Hk Hs. unfold quads. change (seq 0 4) with [0; 1; 2; 3]%nat. cbn [foldl].
  assert (forall st j, (j < 4)%nat -> length st = 4%nat -> quad f idx s1 s2 s3 s4 W st (lo + 4 * j) =
    foldl (md5_op W) st [lo + 4 * j; lo + 4 * j + 1; lo + 4 * j + 2; lo + 4 * j + 3]%nat) as Hq.
  { intros st' j Hj Hst'. destruct (Hs j Hj) as (? & ? & ? & ?). apply quad_ops; try done.
    - intros. apply Hf. lia.
    - intros. apply Hk. lia. }
  rewrite !Hq by (lia || by rewrite ?quad_length, ?md5_ops_length, ?quad_length).
  rewrite <- !foldl_app. cbn [app seq]. f_equal. repeat (apply (f_equal2 cons); [lia|]). done.
Qed.

Lemma md5_processblock_correct h b : length h = 4%nat -> processblock h b = md5_compress h b.
Proof.
  intros Hh. unfold processblock, md5_compress.
  assert (load_le b <$> seq 0 16 = (fun i => foldr (fun j acc => Z.lor (at_ b (4 * i + j)) (Z.shiftl acc 8)) 0 (seq 0 4)) <$> seq 0 16) as ->.
  { apply list_fmap_ext. intros _ i _. unfold load_le. simpl foldr.
    repeat rewrite ?Z.shiftl_lor, ?Z.shiftl_shiftl, ?Z.shiftl_0_l, ?Z.lor_0_r, <- ?Z.lor_assoc by lia.
    by rewrite Nat.add_0_r. }
  set (W := _ <$> seq 0 16).
  change (seq 0 64) with (seq 0 16 ++ seq 16 16 ++ seq 32 16 ++ seq 48 16). rewrite !foldl_app.
  f_equal.
  assert (forall j, (j < 4)%nat -> forall q, (q < 4)%nat ->
    md5_s (16 * q + 4 * j) = at_ [7; 5; 4; 6] q /\ md5_s (16 * q + 4 * j + 1) = at_ [12; 9; 11; 10] q /\
    md5_s (16 * q + 4 * j + 2) = at_ [17; 14; 16; 15] q /\ md5_s (16 * q + 4 * j + 3) = at_ [22; 20; 23; 21] q) as Hs.
  { intros j Hj q Hq. do 4 (destruct j as [|j]; [do 4 (destruct q as [|q]; [by vm_compute|]); lia|]). lia. }
  rewrite (quads_ops W h FF); [|done| | |intros j Hj; exact (Hs j Hj 0%nat ltac:(lia))].
  rewrite (quads_ops W _ GG); [|by rewrite md5_ops_length| | |intros j Hj; exact (Hs j Hj 1%nat ltac:(lia))].
  rewrite (quads_ops W _ HH); [|by rewrite !md5_ops_length| | |intros j Hj; exact (Hs j Hj 2%nat ltac:(lia))].
  rewrite (quads_ops W _ II); [|by rewrite !md5_ops_length| | |intros j Hj; exact (Hs j Hj 3%nat ltac:(lia))].
  { done. }
  all: clear Hs; intros i; unfold md5_k, md5_f, FF, GG, HH, II; intros; rewrite ?F_select, ?G_select;
    repeat match goal with |- context [(i <? ?k)%nat] => destruct (Nat.ltb_spec i k); try lia end; done.
Qed.

Lemma md5_compress_length h b : length h = 4%nat -> length (md5_compress h b) = 4%nat.
Proof. intros Hh. unfold md5_compress. by rewrite length_zip_with, md5_ops_length, Hh. Qed.

Lemma md5_sum_of msgs b :
  length b = 64%nat -> md5_sum (foldl md5_update (md5_init b) msgs) = md5 (concat msgs).
Proof.
  intros Hb. unfold md5_sum, pad, md5. assert (Z.of_nat 64 | 2 ^ 64) as Hd by (by exists (2 ^ 58)).
  pose proof (hash_stream 64 56 56 le_bytes8 processblock ltac:(lia) Hd ltac:(lia) ltac:(lia)
    ltac:(done) ltac:(lia) (hs (md5_init [])) b msgs Hb) as E.
  do 2 f_equal. etransitivity; [exact E|].
  apply hash_blocks_ext with (I := fun h => length h = 4%nat); [|done].
  intros h x Hh. rewrite md5_processblock_correct by done. split; [done|by apply md5_compress_length].
Qed.

(** Hashing a message in any pieces with [md5_init], [md5_update] and
    [md5_sum], from any contents of the block buffer, gives the MD5 of the
    whole message as RFC 1321 defines it. *)
Theorem md5_streaming msgs b :
  length b = 64%nat -> md5_sum (foldl md5_update (md5_init b) msgs) = md5 (concat msgs).
Proof. apply md5_sum_of. Qed.

Lemma md5_streaming_witness :
  md5_sum (foldl md5_update (md5_init (replicate 64 0)) [[97]; [98; 99]]) = md5 [97; 98; 99].
Proof. exact (md5_streaming [[97]; [98; 99]] (replicate 64 0) ltac:(reflexivity)). Defined.
