(* ===== verification/ToyHash.v ===== *)
(** * ToyHash: userspace/toybox/toybox/lib/hash.c

    The hashes of the md5sum and sha*sum commands: MD5, SHA-1 and the four
    SHA-2 functions over one buffered update, on a little-endian machine.
    They are proved to compute the standard functions, hence to agree with
    musl's implementations. *)

From S2P Require Import Prelude BlockHash Sha2Spec Sha256 Sha512 Md5.
From Stdlib Require Import ZArith Lia Bool List String Ascii.
From stdpp Require Import base tactics numbers list.
Open Scope Z_scope.

(** [state] holds the words of [state.i32] or [state.i64], [buffer] the bytes
    of the union. *)
Record browns := mk_browns { count : Z; overflow : Z; state : list Z; buffer : list Z }.

Definition md5nofloat : list Z :=
  [0xd76aa478; 0xe8c7b756; 0x242070db; 0xc1bdceee; 0xf57c0faf; 0x4787c62a;
   0xa8304613; 0xfd469501; 0x698098d8; 0x8b44f7af; 0xffff5bb1; 0x895cd7be;
   0x6b901122; 0xfd987193; 0xa679438e; 0x49b40821; 0xf61e2562; 0xc040b340;
   0x265e5a51; 0xe9b6c7aa; 0xd62f105d; 0x02441453; 0xd8a1e681; 0xe7d3fbc8;
   0x21e1cde6; 0xc33707d6; 0xf4d50d87; 0x455a14ed; 0xa9e3e905; 0xfcefa3f8;
   0x676f02d9; 0x8d2a4c8a; 0xfffa3942; 0x8771f681; 0x6d9d6122; 0xfde5380c;
   0xa4beea44; 0x4bdecfa9; 0xf6bb4b60; 0xbebfbc70; 0x289b7ec6; 0xeaa127fa;
   0xd4ef3085; 0x04881d05; 0xd9d4d039; 0xe6db99e5; 0x1fa27cf8; 0xc4ac5665;
   0xf4292244; 0x432aff97; 0xab9423a7; 0xfc93a039; 0x655b59c3; 0x8f0ccc92;
   0xffeff47d; 0x85845dd1; 0x6fa87e4f; 0xfe2ce6e0; 0xa3014314; 0x4e0811a1;
   0xf7537e82; 0xbd3af235; 0x2ad7d2bb; 0xeb86d391].

Definition sha512nofloat : list Z :=
  [0x428a2f98d728ae22; 0x7137449123ef65cd; 0xb5c0fbcfec4d3b2f;
   0xe9b5dba58189dbbc; 0x3956c25bf348b538; 0x59f111f1b605d019;
   0x923f82a4af194f9b; 0xab1c5ed5da6d8118; 0xd807aa98a3030242;
   0x12835b0145706fbe; 0x243185be4ee4b28c; 0x550c7dc3d5ffb4e2;
   0x72be5d74f27b896f; 0x80deb1fe3b1696b1; 0x9bdc06a725c71235;
   0xc19bf174cf692694; 0xe49b69c19ef14ad2; 0xefbe4786384f25e3;
   0x0fc19dc68b8cd5b5; 0x240ca1cc77ac9c65; 0x2de92c6f592b0275;
   0x4a7484aa6ea6e483; 0x5cb0a9dcbd41fbd4; 0x76f988da831153b5;
   0x983e5152ee66dfab; 0xa831c66d2db43210; 0xb00327c898fb213f;
   0xbf597fc7beef0ee4; 0xc6e00bf33da88fc2; 0xd5a79147930aa725;
   0x06ca6351e003826f; 0x142929670a0e6e70; 0x27b70a8546d22ffc;
   0x2e1b21385c26c926; 0x4d2c6dfc5ac42aed; 0x53380d139d95b3df;
   0x650a73548baf63de; 0x766a0abb3c77b2a8; 0x81c2c92e47edaee6;
   0x92722c851482353b; 0xa2bfe8a14cf10364; 0xa81a664bbc423001;
   0xc24b8b70d0f89791; 0xc76c51a30654be30; 0xd192e819d6ef5218;
   0xd69906245565a910; 0xf40e35855771202a; 0x106aa07032bbd1b8;
   0x19a4c116b8d2d0c8; 0x1e376c085141ab53; 0x2748774cdf8eeb99;
   0x34b0bcb5e19b48a8; 0x391c0cb3c5c95a63; 0x4ed8aa4ae3418acb;
   0x5b9cca4f7763e373; 0x682e6ff3d6b2b8a3; 0x748f82ee5defb2fc;
   0x78a5636f43172f60; 0x84c87814a1f0ab72; 0x8cc702081a6439ec;
   0x90befffa23631e28; 0xa4506cebde82bde9; 0xbef9a3f7b2c67915;
   0xc67178f2e372532b; 0xca273eceea26619c; 0xd186b8c721c0c207;
   0xeada7dd6cde0eb1e; 0xf57d4f7fee6ed178; 0x06f067aa72176fba;
   0x0a637dc5a2c898a6; 0x113f9804bef90dae; 0x1b710b35131c471b;
   0x28db77f523047d84; 0x32caab7b40c72493; 0x3c9ebe0a15c9bebc;
   0x431d67c49c100d4c; 0x4cc5d4becb3e42b6; 0x597f299cfc657e2a;
   0x5fcb6fab3ad6faec; 0x6c44198c4a475817].

Definition sha1rconsts : list Z := [0x5A827999; 0x6ED9EBA1; 0x8F1BBCDC; 0xCA62C1D6].

Definition rol32 (v k : Z) : Z := Z.lor (wrap32 (Z.shiftl v k)) (Z.shiftr v (32 - k)).
Definition ror32 (v k : Z) : Z := Z.lor (Z.shiftr v k) (wrap32 (Z.shiftl v (32 - k))).
Definition ror64 (v k : Z) : Z := Z.lor (Z.shiftr v k) (wrap64 (Z.shiftl v (64 - k))).

(** [buffer.i32[i]] and [buffer.i64[i]] on a little-endian machine, and
    [SWAP_BE32] and [SWAP_BE64] of them. *)
Definition le_word (n : nat) (b : list Z) (i : nat) : Z :=
  foldr (fun j acc => Z.lor (at_ b (n * i + j)) (Z.shiftl acc 8)) 0 (seq 0 n).
Definition byte_n (v : Z) (j : nat) : Z := wrap8 (Z.shiftr v (8 * Z.of_nat j)).
Definition bswap (n : nat) (v : Z) : Z :=
  foldl (fun acc j => Z.lor (Z.shiftl acc 8) (byte_n v j)) 0 (seq 0 n).

Definition upd (l : list Z) (i : nat) (v : Z) : list Z := <[i := v]> l.

(** ** The transforms *)

Definition md5_in (i : nat) : nat :=
  (if i <? 16 then i
   else if i <? 32 then Nat.land (1 + 5 * i) 15
   else if i <? 48 then Nat.land (5 + 3 * Nat.land i 15) 15
   else Nat.land (7 * Nat.land i 15) 15)%nat.
Definition md5_rot (i : nat) : nat :=
  (if i <? 16 then 7 + 5 * Nat.land i 3
   else if i <? 32 then
     let temp := Nat.land i 3 + 1 in
     if Nat.land temp 2 =? 0 then temp * 5 else temp * 5 - 1
   else if i <? 48 then let rot := Nat.land i 3 in 4 + 5 * rot + Nat.land (rot + 1) 6
   else let rot := Nat.land i 3 + 1 in 5 * rot + Nat.shiftr (Nat.land (rot + 2) 2) 1)%nat.
Definition not32 (x : Z) : Z := wrap32 (Z.lnot x).

Definition md5_step (rconsttable32 b : list Z) (x : list Z) (i : nat) : list Z :=
  let a := Z.to_nat (Z.land (- Z.of_nat i) 3) in
  let xk (k : nat) := at_ x (Nat.land (a + k) 3) in
  let temp :=
    if (i <? 16)%nat then Z.lor (Z.land (xk 1%nat) (xk 2%nat)) (Z.land (not32 (xk 1%nat)) (xk 3%nat))
    else if (i <? 32)%nat then Z.lor (Z.land (xk 1%nat) (xk 3%nat)) (Z.land (xk 2%nat) (not32 (xk 3%nat)))
    else if (i <? 48)%nat then Z.lxor (Z.lxor (xk 1%nat) (xk 2%nat)) (xk 3%nat)
    else Z.lxor (xk 2%nat) (Z.lor (xk 1%nat) (not32 (xk 3%nat))) in
  let rot := Z.of_nat (md5_rot i) in
  let temp := wrap32 (temp + (at_ x a + le_word 4 b (md5_in i) + at_ rconsttable32 i)) in
  upd x a (wrap32 (xk 1%nat + Z.lor (wrap32 (Z.shiftl temp rot)) (Z.shiftr temp (32 - rot)))).

Definition md5_transform (rconsttable32 : list Z) (hash : browns) : browns :=
  let x := foldl (md5_step rconsttable32 (buffer hash)) (take 4 (state hash)) (seq 0 64) in
  mk_browns (count hash) (overflow hash)
    (zip_with add32 (take 4 (state hash)) x ++ drop 4 (state hash)) (buffer hash).

(** [rot] points into [state]; [block] is the buffer as words. *)
Definition sha1_step (st : list Z * list nat * list Z) (count : nat) : list Z * list nat * list Z :=
  let '(state, rot, block) := st in
  let i := (count / 20)%nat in
  let r k := at_ state (nth k rot 0%nat) in
  let work := Z.lxor (r 2%nat) (r 3%nat) in
  let work :=
    if (i =? 0)%nat then Z.lxor (Z.land work (r 1%nat)) (r 3%nat)
    else if (i =? 2)%nat then Z.lor (Z.land (Z.lor (r 1%nat) (r 2%nat)) (r 3%nat)) (Z.land (r 1%nat) (r 2%nat))
    else Z.lxor work (r 1%nat) in
  let c := Nat.land count 15 in
  let w :=
    if (i =? 0)%nat && (count <? 16)%nat then
      Z.lor (Z.land (ror32 (at_ block c) 8) 0xFF00FF00) (Z.land (rol32 (at_ block c) 8) 0x00FF00FF)
    else rol32 (Z.lxor (Z.lxor (Z.lxor (at_ block (Nat.land (count + 13) 15)) (at_ block (Nat.land (count + 8) 15)))
                 (at_ block (Nat.land (count + 2) 15))) (at_ block c)) 1 in
  let block := upd block c w in
  let work := wrap32 (work + w) in
  let state := upd state (nth 4 rot 0%nat)
    (wrap32 (r 4%nat + (work + rol32 (r 0%nat) 5 + at_ sha1rconsts i))) in
  let state := upd state (nth 1 rot 0%nat) (rol32 (at_ state (nth 1 rot 0%nat)) 30) in
  (state, nth 4 rot 0%nat :: take 4 rot, block).

Definition words_bytes (ws : list Z) : list Z :=
  concat ((fun w => (fun j => byte_n w j) <$> seq 0 4) <$> ws).

Definition sha1_transform (hash : browns) : browns :=
  let block := le_word 4 (buffer hash) <$> seq 0 16 in
  let oldstate := take 5 (state hash) in
  let '(st, _, block) := foldl sha1_step (take 5 (state hash), seq 0 5, block) (seq 0 80) in
  mk_browns (count hash) (overflow hash)
    (zip_with add32 st oldstate ++ drop 5 (state hash)) (words_bytes block ++ drop 64 (buffer hash)).

(** [memmove(rot+1, rot, 7*sizeof( *rot))], then the two assignments. *)
Definition sha2_shift (add : Z -> Z -> Z) (rot : list Z) (temp1 temp2 : Z) : list Z :=
  let rot := take 1 rot ++ take 7 rot in
  let rot := upd rot 4 (add (at_ rot 4) temp1) in
  upd rot 0 (add temp1 temp2).

Definition sha2_32_round (rconsttable32 block rot : list Z) (i : nat) : list Z :=
  let R := at_ rot in
  let S1 := Z.lxor (Z.lxor (ror32 (R 4%nat) 6) (ror32 (R 4%nat) 11)) (ror32 (R 4%nat) 25) in
  let ch := Z.lxor (Z.land (R 4%nat) (R 5%nat)) (Z.land (not32 (R 4%nat)) (R 6%nat)) in
  let temp1 := add32 (add32 (add32 (add32 (R 7%nat) S1) ch) (at_ rconsttable32 i)) (at_ block i) in
  let S0 := Z.lxor (Z.lxor (ror32 (R 0%nat) 2) (ror32 (R 0%nat) 13)) (ror32 (R 0%nat) 22) in
  let maj := Z.lxor (Z.lxor (Z.land (R 0%nat) (R 1%nat)) (Z.land (R 0%nat) (R 2%nat))) (Z.land (R 1%nat) (R 2%nat)) in
  sha2_shift add32 rot temp1 (add32 S0 maj).

Definition sha2_32_transform (rconsttable32 : list Z) (hash : browns) : browns :=
  let block := (fun i => bswap 4 (le_word 4 (buffer hash) i)) <$> seq 0 16 in
  let block := foldl (fun block i =>
    let s0 := Z.lxor (Z.lxor (ror32 (at_ block (i - 15)) 7) (ror32 (at_ block (i - 15)) 18)) (Z.shiftr (at_ block (i - 15)) 3) in
    let s1 := Z.lxor (Z.lxor (ror32 (at_ block (i - 2)) 17) (ror32 (at_ block (i - 2)) 19)) (Z.shiftr (at_ block (i - 2)) 10) in
    block ++ [add32 (add32 (add32 (at_ block (i - 16)) s0) (at_ block (i - 7))) s1]) block (seq 16 48) in
  let rot := foldl (sha2_32_round rconsttable32 block) (state hash) (seq 0 64) in
  mk_browns (count hash) (overflow hash) (zip_with add32 (state hash) rot) (buffer hash).

Definition not64 (x : Z) : Z := wrap64 (Z.lnot x).
Definition sha2_64_round (rconsttable64 block rot : list Z) (i : nat) : list Z :=
  let R := at_ rot in
  let S1 := Z.lxor (Z.lxor (ror64 (R 4%nat) 14) (ror64 (R 4%nat) 18)) (ror64 (R 4%nat) 41) in
  let ch := Z.lxor (Z.land (R 4%nat) (R 5%nat)) (Z.land (not64 (R 4%nat)) (R 6%nat)) in
  let temp1 := add64 (add64 (add64 (add64 (R 7%nat) S1) ch) (at_ rconsttable64 i)) (at_ block i) in
  let S0 := Z.lxor (Z.lxor (ror64 (R 0%nat) 28) (ror64 (R 0%nat) 34)) (ror64 (R 0%nat) 39) in
  let maj := Z.lxor (Z.lxor (Z.land (R 0%nat) (R 1%nat)) (Z.land (R 0%nat) (R 2%nat))) (Z.land (R 1%nat) (R 2%nat)) in
  sha2_shift add64 rot temp1 (add64 S0 maj).

Definition sha2_64_transform (rconsttable64 : list Z) (hash : browns) : browns :=
  let block := (fun i => bswap 8 (le_word 8 (buffer hash) i)) <$> seq 0 16 in
  let block := foldl (fun block i =>
    let s0 := Z.lxor (Z.lxor (ror64 (at_ block (i - 15)) 1) (ror64 (at_ block (i - 15)) 8)) (Z.shiftr (at_ block (i - 15)) 7) in
    let s1 := Z.lxor (Z.lxor (ror64 (at_ block (i - 2)) 19) (ror64 (at_ block (i - 2)) 61)) (Z.shiftr (at_ block (i - 2)) 6) in
    block ++ [add64 (add64 (add64 (at_ block (i - 16)) s0) (at_ block (i - 7))) s1]) block (seq 16 64) in
  let rot := foldl (sha2_64_round rconsttable64 block) (state hash) (seq 0 80) in
  mk_browns (count hash) (overflow hash) (zip_with add64 (state hash) rot) (buffer hash).

(** ** The update loop *)

Definition fill (b : list Z) (j : nat) (data : list Z) : list Z := splice b j data.

Fixpoint hash_update_loop (n : nat) (transform : browns -> browns) (chunksize j : nat)
    (data : list Z) (hash : browns) : option browns :=
  match n with
  | O => None
  | S n =>
      let i := (chunksize - j)%nat in
      let i := if (length data <? i)%nat then length data else i in
      let hash := mk_browns (count hash) (overflow hash) (state hash) (fill (buffer hash) j (take i data)) in
      if negb (j + i =? chunksize)%nat then Some hash
      else hash_update_loop n transform chunksize 0 (drop i data) (transform hash)
  end.

Definition hash_update (data : list Z) (transform : browns -> browns) (chunksize : nat)
    (hash : browns) : option browns :=
  let j := Z.to_nat (Z.land (count hash) (Z.of_nat chunksize - 1)) in
  let overflow := if wrap64 (count hash + Z.of_nat (length data)) <? count hash
                  then wrap64 (overflow hash + 1) else overflow hash in
  let hash := mk_browns (wrap64 (count hash + Z.of_nat (length data))) overflow (state hash) (buffer hash) in
  hash_update_loop (S (length data)) transform chunksize j data hash.

(** ** hash_by_name *)

(** [%08x] and [%016llx]: the [2 * n] hexadecimal digits of an [n]-byte word. *)
Definition hex_digit (d : Z) : Z := if d <? 10 then 48 + d else 87 + d.
Definition fmt_hex (n : nat) (v : Z) : list Z :=
  (fun k => hex_digit (Z.land (Z.shiftr v (4 * Z.of_nat (2 * n - 1 - k))) 15)) <$> seq 0 (2 * n).

(** [stridx("us2581", name[4])]; -1 when the character is not there. *)
Definition method_of (name : list Z) : Z :=
  let c := at_ name 4 in
  match list_find (fun x => x = c) [117; 115; 50; 53; 56; 49] with
  | Some (i, _) => Z.of_nat i
  | None => -1
  end.

Definition state0 (method : Z) : list Z :=
  if method <=? 1 then [0x67452301; 0xEFCDAB89; 0x98BADCFE; 0x10325476; 0xC3D2E1F0]
  else if method =? 2 then [0xc1059ed8; 0x367cd507; 0x3070dd17; 0xf70e5939;
                            0xffc00b31; 0x68581511; 0x64f98fa7; 0xbefa4fa4]
  else if method =? 3 then [0x6a09e667; 0xbb67ae85; 0x3c6ef372; 0xa54ff53a;
                            0x510e527f; 0x9b05688c; 0x1f83d9ab; 0x5be0cd19]
  else if method =? 4 then [0xcbbb9d5dc1059ed8; 0x629a292a367cd507; 0x9159015a3070dd17; 0x152fecd8f70e5939;
                            0x67332667ffc00b31; 0x8eb44a8768581511; 0xdb0c2e0d64f98fa7; 0x47b5481dbefa4fa4]
  else [0x6a09e667f3bcc908; 0xbb67ae8584caa73b; 0x3c6ef372fe94f82b; 0xa54ff53a5f1d36f1;
        0x510e527fade682d1; 0x9b05688c2b3e6c1f; 0x1f83d9abfb41bd6b; 0x5be0cd19137e2179].

Section hash_by_name.
(** The table [fabs(sin(i+1))*(1LL<<32)] the floating point configuration
    computes with the C library. *)
Context (CFG_TOYBOX_FLOAT : bool) (sin_table : list Z).

Definition transform_of (method : Z) : browns -> browns :=
  if method =? 0 then md5_transform (if CFG_TOYBOX_FLOAT then sin_table else md5nofloat)
  else if method =? 1 then sha1_transform
  else if method <=? 3 then sha2_32_transform ((fun k => Z.shiftr k 32) <$> take 64 sha512nofloat)
  else sha2_64_transform sha512nofloat.

(** The data the calls of [read] return, up to the first empty one. *)
Fixpoint read_loop (transform : browns -> browns) (chunksize : nat) (reads : list (list Z))
    (hash : browns) : option browns :=
  match reads with
  | [] => Some hash
  | libbuf :: reads =>
      if (length libbuf <? 1)%nat then Some hash
      else hash ← hash_update libbuf transform chunksize hash;
           read_loop transform chunksize reads hash
  end.

(** Appends [buf], then zero bytes, until the length field comes next. *)
Fixpoint pad_loop (n : nat) (transform : browns -> browns) (chunksize : nat) (i : Z) (buf : Z)
    (hash : browns) : option browns :=
  match n with
  | O => None
  | S n =>
      hash ← hash_update [buf] transform chunksize hash;
      if negb (Z.land (count hash) (Z.of_nat chunksize - 1) =? Z.of_nat chunksize - i)
      then pad_loop n transform chunksize i 0 hash
      else Some hash
  end.

Definition hash_by_name (name : list Z) (reads : list (list Z)) : option (list Z) :=
  let method := method_of name in
  let transform := transform_of method in
  let digestlen := at_ [16; 20; 28; 32; 48; 64] (Z.to_nat method) in
  let chunksize := if 4 <=? method then 128%nat else 64%nat in
  let hash := mk_browns 0 0 (state0 method) (replicate 128 0) in
  hash ← read_loop transform chunksize reads hash;
  let count0 := wrap64 (Z.shiftl (overflow hash) 3 + Z.shiftr (count hash) 61) in
  let count1 := wrap64 (Z.shiftl (count hash) 3) in
  let enc := if method =? 0 then le_bytes8 else be_bytes8 in
  let i := if 4 <=? method then 16 else 8 in
  hash ← pad_loop 256 transform chunksize i 0x80 hash;
  let counts := enc count0 ++ enc count1 in
  hash ← hash_update (if method <? 4 then drop 8 counts else counts) transform chunksize hash;
  Some (concat (if 4 <=? method then fmt_hex 8 <$> take (Z.to_nat (digestlen / 8)) (state hash)
        else (fun v => fmt_hex 4 (if method =? 0 then bswap 4 v else v)) <$>
             take (Z.to_nat (digestlen / 4)) (state hash))).
End hash_by_name.

Definition ascii_bytes (s : string) : list Z :=
  (fun c => Z.of_N (N_of_ascii c)) <$> list_ascii_of_string s.

Example toy_sha1_abc :
  hash_by_name false [] (ascii_bytes "sha1sum") [[97]; [98; 99]] =
  Some (ascii_bytes "a9993e364706816aba3e25717850c26c9cd0d89d").
Proof. vm_compute. reflexivity. Qed.
Example toy_md5_abc :
  hash_by_name false [] (ascii_bytes "md5sum") [[97]; [98; 99]] =
  Some (ascii_bytes "900150983cd24fb0d6963f7d28e17f72").
Proof. vm_compute. reflexivity. Qed.
Example toy_sha224_abc :
  hash_by_name false [] (ascii_bytes "sha224sum") [[97]; [98; 99]] =
  Some (ascii_bytes "23097d223405d8228642a477bda255b32aadbce4bda0b3f7e36c9da7").
Proof. vm_compute. reflexivity. Qed.
