(* ===== verification/ToyHashProofs.v ===== *)
(** * ToyHashProofs: toybox's hashes are the standard ones

    Each transform of lib/hash.c is the compression function of its standard
    (the SHA-1 reference is here, the others are those musl's code is proved
    against), the update and padding loops feed it the padded message, and
    so [hash_by_name] prints the standard digest whatever the sizes of the
    reads; for MD5, SHA-256 and SHA-512 it is the digest musl computes. *)

From S2P Require Import Prelude BlockHash Sha2Spec Sha256 Sha512 Md5 ToyHash.
From Stdlib Require Import ZArith Lia Bool List String.
From stdpp Require Import base tactics numbers list.
Open Scope Z_scope.

(** ** Words in the buffer *)

Lemma at_is_byte b i : Forall is_byte b -> is_byte (at_ b i).
Proof.
  intros Hb. unfold at_. rewrite nth_lookup. destruct (b !! i) eqn:E; simpl.
  - by eapply Forall_lookup_1.
  - unfold in_range. lia.
Qed.

Lemma low_byte x y : is_byte x -> wrap8 (Z.lor x (Z.shiftl y 8)) = x.
Proof.
  intros Hx. unfold wrap. rewrite <- Z.land_ones by lia. apply Z.bits_inj'. intros k Hk.
  rewrite Z.land_spec, Z.lor_spec, Z.shiftl_spec by done.
  rewrite Z.testbit_ones_nonneg by lia. destruct (Z.ltb_spec k 8).
  - rewrite (Z.testbit_neg_r y) by lia. by rewrite orb_false_r, andb_true_r.
  - rewrite andb_false_r. symmetry. destruct (decide (x = 0)) as [->|]; [apply Z.bits_0|].
    unfold in_range in Hx. apply Z.bits_above_log2; [lia|].
    assert (Z.log2 x < 8) by (apply Z.log2_lt_pow2; lia). lia.
Qed.

Lemma high_bytes x y : is_byte x -> Z.shiftr (Z.lor x (Z.shiftl y 8)) 8 = y.
Proof.
  intros Hx. rewrite Z.shiftr_lor, Z.shiftr_shiftl_l, Z.shiftl_0_r by lia.
  rewrite Z.shiftr_div_pow2, Z.div_small by (unfold in_range in Hx; lia). apply Z.lor_0_l.
Qed.

Definition le_fold (f : nat -> Z) (s n : nat) : Z :=
  foldr (fun j acc => Z.lor (f j) (Z.shiftl acc 8)) 0 (seq s n).

Lemma byte_le_fold f s n j :
  (forall j, is_byte (f j)) -> (j < n)%nat -> byte_n (le_fold f s n) j = f (s + j)%nat.
Proof.
  intros Hf. revert s j. induction n as [|n IH]; intros s j Hj; [lia|].
  unfold le_fold in *. simpl. unfold byte_n in *. destruct j as [|j].
  - change (8 * Z.of_nat 0) with 0. rewrite Z.shiftr_0_r, low_byte by done. f_equal. lia.
  - replace (8 * Z.of_nat (S j)) with (8 + 8 * Z.of_nat j) by lia.
    rewrite <- Z.shiftr_shiftr, high_bytes, IH by (done || lia). f_equal. lia.
Qed.

Lemma byte_le_word n b i j :
  Forall is_byte b -> (j < n)%nat -> byte_n (le_word n b i) j = at_ b (n * i + j)%nat.
Proof.
  intros Hb Hj. exact (byte_le_fold (fun j => at_ b (n * i + j)) 0 n j (fun j => at_is_byte b _ Hb) Hj).
Qed.

Lemma bswap_le_word n b i : Forall is_byte b -> bswap n (le_word n b i) = be_word b n i.
Proof.
  intros Hb. unfold bswap, be_word.
  assert (forall l acc, Forall (fun j => j < n)%nat l ->
    foldl (fun acc j => Z.lor (Z.shiftl acc 8) (byte_n (le_word n b i) j)) acc l =
    foldl (fun acc j => Z.lor (Z.shiftl acc 8) (at_ b (n * i + j))) acc l) as H.
  { induction l as [|j l IH]; intros acc Hl; simpl; [done|]. inversion_clear Hl.
    rewrite byte_le_word by done. by apply IH. }
  apply H, Forall_seq. lia.
Qed.

Lemma block_words_take p b n : (Z.to_nat (sw p / 8) * 16 <= n)%nat ->
  block_words p (take n b) = block_words p b.
Proof.
  intros Hn. unfold block_words. apply list_fmap_ext. intros i' i Hi.
  apply lookup_seq in Hi as [E Hi]. simpl in E. subst i'. unfold be_word. set (k := Z.to_nat (sw p / 8)) in *.
  assert (forall l acc, Forall (fun j => j < k)%nat l ->
    foldl (fun acc j => Z.lor (Z.shiftl acc 8) (at_ (take n b) (k * i + j))) acc l =
    foldl (fun acc j => Z.lor (Z.shiftl acc 8) (at_ b (k * i + j))) acc l) as H.
  { induction l as [|j l IH]; intros acc Hl; simpl; [done|]. inversion_clear Hl.
    rewrite at_take by nia. by apply IH. }
  apply H, Forall_seq. lia.
Qed.

(** ** SHA-2 *)

Lemma not_land w x z : 0 <= w -> in_range w z -> Z.land (wrap w (Z.lnot x)) z = Z.land (Z.lnot x) z.
Proof.
  intros Hw Hz. unfold wrap. rewrite <- Z.land_ones by done. rewrite <- Z.land_assoc. f_equal.
  rewrite Z.land_comm, Z.land_ones by done. by apply Z.mod_small.
Qed.

(** States of eight words of the right width. *)
Definition words (w : Z) (n : nat) (st : list Z) : Prop := length st = n /\ Forall (in_range w) st.

Lemma round_words p st k x : 0 <= sw p -> words (sw p) 8 st -> words (sw p) 8 (round p st k x).
Proof.
  intros Hw [Hl Hr]. destruct (list8 st Hl) as (a & b & c & d & e & f & g & h & ->).
  split; [done|]. rewrite !Forall_cons in Hr. destruct_and!. unfold round, sum.
  rewrite !Forall_cons. split_and!; first [assumption | by apply wrap_range].
Qed.

Lemma sha2_compress_words p h b : 0 <= sw p -> words (sw p) 8 h -> words (sw p) 8 (sha2_compress p h b).
Proof.
  intros Hw Hh. unfold sha2_compress.
  assert (forall l st, words (sw p) 8 st ->
    words (sw p) 8 (foldl (fun st kw => round p st kw.1 kw.2) st l)) as H.
  { induction l as [|kw l IH]; intros st Hst; simpl; [done|]. by apply IH, round_words. }
  destruct (H (zip (sK p) (schedule p (srounds p - 16) (block_words p b))) h Hh) as [Hl _].
  split; [rewrite length_zip_with, Hl; destruct Hh as [-> _]; done|].
  apply Forall_forall. intros x Hx. apply list_elem_of_lookup in Hx as [i Hi].
  apply lookup_zip_with_Some in Hi as (y & z & -> & _ & _). by apply wrap_range.
Qed.

Lemma sha2_32_round_eq K W st i :
  words 32 8 st -> sha2_32_round K W st i = round Sha256.sha256_params st (at_ K i) (at_ W i).
Proof.
  intros [Hl Hr]. destruct (list8 st Hl) as (a & b & c & d & e & f & g & h & ->).
  rewrite !Forall_cons in Hr. destruct_and!.
  unfold sha2_32_round, sha2_shift, upd, not32. cbn [at_ nth take app insert list_insert].
  rewrite not_land by (done || lia). unfold round. fold (Ch_std e f g). fold (Maj_std a b c).
  change (Z.lxor (Z.lxor (ror32 e 6) (ror32 e 11)) (ror32 e 25)) with (Sigma sha256_params (sS1 sha256_params) e).
  change (Z.lxor (Z.lxor (ror32 a 2) (ror32 a 13)) (ror32 a 22)) with (Sigma sha256_params (sS0 sha256_params) a).
  assert (add32 (add32 (add32 (add32 h (Sigma sha256_params (sS1 sha256_params) e)) (Ch_std e f g)) (at_ K i)) (at_ W i) =
    sum sha256_params [h; Sigma sha256_params (sS1 sha256_params) e; Ch_std e f g; at_ K i; at_ W i]) as -> by sum_eq.
  assert (forall x y, add32 x y = sum sha256_params [x; y]) as E2 by (intros; sum_eq).
  by rewrite !E2.
Qed.

Lemma sha2_32_state hash :
  words 32 8 (state hash) -> Forall is_byte (buffer hash) ->
  state (sha2_32_transform ((fun k => Z.shiftr k 32) <$> take 64 sha512nofloat) hash) =
    sha2_compress sha256_params (state hash) (take 64 (buffer hash)).
Proof.
  intros Hst Hb. unfold sha2_32_transform, sha2_compress. cbn [state].
  rewrite block_words_take by done.
  assert ((fun i => bswap 4 (le_word 4 (buffer hash) i)) <$> seq 0 16 = block_words sha256_params (buffer hash)) as ->.
  { apply list_fmap_ext. intros _ i _. by apply bswap_le_word. }
  change (seq 16 48) with (seq (length (block_words sha256_params (buffer hash))) 48).
  rewrite (foldl_schedule sha256_params).
  2: { intros W. unfold next_word.
       change (Z.lxor (Z.lxor (ror32 ?x 7) (ror32 ?x 18)) (Z.shiftr ?x 3)) with (sigma sha256_params (sR0 sha256_params) x).
       change (Z.lxor (Z.lxor (ror32 ?x 17) (ror32 ?x 19)) (Z.shiftr ?x 10)) with (sigma sha256_params (sR1 sha256_params) x).
       cbv zeta. sum_eq. }
  change (srounds sha256_params - 16)%nat with 48%nat. set (W := schedule sha256_params 48 (block_words sha256_params (buffer hash))).
  assert (length W = 64%nat) as HW by (subst W; by rewrite schedule_length).
  change ((fun k => Z.shiftr k 32) <$> take 64 sha512nofloat) with (sK sha256_params).
  rewrite (foldl_zip_at (sK sha256_params) W (round sha256_params) _ (words 32 8)); [| |done|done|done].
  - apply zip_with_ext; [intros x y; sum_eq|done|done].
  - intros st i Hs. rewrite sha2_32_round_eq by done. split; [done|]. by apply (round_words sha256_params).
Qed.

Lemma sha2_64_round_eq K W st i :
  words 64 8 st -> sha2_64_round K W st i = round sha512_params st (at_ K i) (at_ W i).
Proof.
  intros [Hl Hr]. destruct (list8 st Hl) as (a & b & c & d & e & f & g & h & ->).
  rewrite !Forall_cons in Hr. destruct_and!.
  unfold sha2_64_round, sha2_shift, upd, not64. cbn [at_ nth take app insert list_insert].
  rewrite not_land by (done || lia). unfold round. fold (Ch_std e f g). fold (Maj_std a b c).
  change (Z.lxor (Z.lxor (ror64 e 14) (ror64 e 18)) (ror64 e 41)) with (Sigma sha512_params (sS1 sha512_params) e).
  change (Z.lxor (Z.lxor (ror64 a 28) (ror64 a 34)) (ror64 a 39)) with (Sigma sha512_params (sS0 sha512_params) a).
  assert (add64 (add64 (add64 (add64 h (Sigma sha512_params (sS1 sha512_params) e)) (Ch_std e f g)) (at_ K i)) (at_ W i) =
    sum sha512_params [h; Sigma sha512_params (sS1 sha512_params) e; Ch_std e f g; at_ K i; at_ W i]) as -> by sum_eq.
  assert (forall x y, add64 x y = sum sha512_params [x; y]) as E2 by (intros; sum_eq).
  by rewrite !E2.
Qed.

Lemma sha2_64_state hash :
  words 64 8 (state hash) -> Forall is_byte (buffer hash) ->
  state (sha2_64_transform sha512nofloat hash) =
    sha2_compress sha512_params (state hash) (take 128 (buffer hash)).
Proof.
  intros Hst Hb. unfold sha2_64_transform, sha2_compress. cbn [state].
  rewrite block_words_take by done.
  assert ((fun i => bswap 8 (le_word 8 (buffer hash) i)) <$> seq 0 16 = block_words sha512_params (buffer hash)) as ->.
  { apply list_fmap_ext. intros _ i _. by apply bswap_le_word. }
  change (seq 16 64) with (seq (length (block_words sha512_params (buffer hash))) 64).
  rewrite (foldl_schedule sha512_params).
  2: { intros W. unfold next_word.
       change (Z.lxor (Z.lxor (ror64 ?x 1) (ror64 ?x 8)) (Z.shiftr ?x 7)) with (sigma sha512_params (sR0 sha512_params) x).
       change (Z.lxor (Z.lxor (ror64 ?x 19) (ror64 ?x 61)) (Z.shiftr ?x 6)) with (sigma sha512_params (sR1 sha512_params) x).
       cbv zeta. sum_eq. }
  change (srounds sha512_params - 16)%nat with 64%nat. set (W := schedule sha512_params 64 (block_words sha512_params (buffer hash))).
  assert (length W = 80%nat) as HW by (subst W; by rewrite schedule_length).
  change sha512nofloat with (sK sha512_params).
  rewrite (foldl_zip_at (sK sha512_params) W (round sha512_params) _ (words 64 8)); [| |done|done|done].
  - apply zip_with_ext; [intros x y; sum_eq|done|done].
  - intros st i Hs. rewrite sha2_64_round_eq by done. split; [done|]. by apply (round_words sha512_params).
Qed.

(** ** MD5 *)

(** The registers of operation [i]: they rotate through the array. *)
Definition md5_view (x : list Z) (i : nat) : list Z :=
  (fun k => at_ x (Nat.land (Z.to_nat (Z.land (- Z.of_nat i) 3) + k) 3)) <$> seq 0 4.

Lemma md5_tables_ok :
  forallb (fun i => (md5_in i =? md5_k i)%nat && (Z.of_nat (md5_rot i) =? md5_s i) && (md5_k i <? 16)%nat)
    (seq 0 64) = true.
Proof. reflexivity. Qed.

Lemma md5_tables i : (i < 64)%nat ->
  md5_in i = md5_k i /\ Z.of_nat (md5_rot i) = md5_s i /\ (md5_k i < 16)%nat.
Proof.
  intros Hi. pose proof md5_tables_ok as H. rewrite forallb_forall in H.
  specialize (H i (proj2 (in_seq 64 0 i) ltac:(lia))). rewrite !andb_true_iff in H.
  destruct H as [[?%Nat.eqb_eq ?%Z.eqb_eq] ?%Nat.ltb_lt]. done.
Qed.

(** The position of register 0 by the index modulo 4. *)
Lemma neg_land3_nat i q r : (i = 4 * q + r)%nat -> (r < 4)%nat ->
  Z.to_nat (Z.land (- Z.of_nat i) 3) = ((4 - r) `mod` 4)%nat.
Proof.
  intros -> Hr. change 3 with (Z.ones 2). rewrite Z.land_ones by lia.
  replace (- Z.of_nat (4 * q + r)) with (- Z.of_nat r + (- Z.of_nat q) * 2 ^ 2) by lia.
  rewrite Z_mod_plus_full. do 4 (destruct r as [|r]; [reflexivity|]). lia.
Qed.

Definition md5_words (b : list Z) : list Z :=
  (fun i => foldr (fun j acc => Z.lor (at_ b (4 * i + j)) (Z.shiftl acc 8)) 0 (seq 0 4)) <$> seq 0 16.

Lemma md5_step_view b x i :
  (i < 64)%nat -> words 32 4 x ->
  words 32 4 (md5_step md5nofloat b x i) /\
  md5_view (md5_step md5nofloat b x i) (S i) = md5_op (md5_words b) (md5_view x i) i.
Proof.
  intros Hi [Hl Hr]. destruct (list4 x Hl) as (x0 & x1 & x2 & x3 & ->).
  rewrite !Forall_cons in Hr. destruct Hr as (R0 & R1 & R2 & R3 & _).
  destruct (md5_tables i Hi) as (Hin & Hrot & Hk).
  assert (forall X Y Z' w t, in_range 32 Y -> in_range 32 Z' -> forall A,
    wrap32 ((if (i <? 16)%nat then Z.lor (Z.land X Y) (Z.land (not32 X) Z')
      else if (i <? 32)%nat then Z.lor (Z.land X Z') (Z.land Y (not32 Z'))
      else if (i <? 48)%nat then Z.lxor (Z.lxor X Y) Z'
      else Z.lxor Y (Z.lor X (not32 Z'))) + (A + w + t)) = wrap32 (A + md5_f i X Y Z' + w + t)) as Hf.
  { intros X Y Z' w t HY HZ A. unfold md5_f, not32. apply f_equal.
    destruct (i <? 16)%nat; [rewrite (not_land 32 X Z') by (done || lia); lia|].
    destruct (i <? 32)%nat; [rewrite (Z.land_comm Y (wrap _ _)), (not_land 32 Z' Y), (Z.land_comm Y) by (done || lia); lia|].
    destruct (i <? 48)%nat; lia. }
  set (q := (i / 4)%nat). set (r := (i `mod` 4)%nat).
  assert (i = 4 * q + r)%nat as Ei by apply Nat.div_mod_eq.
  assert (r < 4)%nat as Hr4 by (apply Nat.mod_upper_bound; lia).
  unfold md5_step, md5_view. rewrite (neg_land3_nat i q r Ei Hr4), Hin, Hrot.
  assert (at_ (md5_words b) (md5_k i) = le_word 4 b (md5_k i)) as HW by (by apply (at_fmap_seq (le_word 4 b))).
  unfold md5_op. rewrite HW. change tab with md5nofloat. clearbody q. 
  assert (r = 0 \/ r = 1 \/ r = 2 \/ r = 3)%nat as Hcase by lia. clearbody r.
  destruct Hcase as [E|[E|[E|E]]]; subst r.
  1: rewrite (neg_land3_nat (S i) q 1) by lia.
  2: rewrite (neg_land3_nat (S i) q 2) by lia.
  3: rewrite (neg_land3_nat (S i) q 3) by lia.
  4: rewrite (neg_land3_nat (S i) (S q) 0) by lia.
  all: cbn -[wrap Z.lor Z.land Z.shiftl Z.shiftr Z.add Z.sub md5_f md5_s md5_k le_word rol Nat.ltb Z.lxor not32 at_ md5nofloat Z.pow].
  all: repeat change (at_ [?a; ?b; ?c; ?d] 0%nat) with a; repeat change (at_ [?a; ?b; ?c; ?d] 1%nat) with b;
    repeat change (at_ [?a; ?b; ?c; ?d] 2%nat) with c; repeat change (at_ [?a; ?b; ?c; ?d] 3%nat) with d.
  all: rewrite !Hf by done; (split; [split; [done|rewrite !Forall_cons;
    split_and!; first [assumption | by apply wrap_range | constructor]]|reflexivity]).
Qed.

Lemma md5_view_id x : words 32 4 x -> md5_view x 64 = x /\ md5_view x 0 = x.
Proof. intros [Hl _]. destruct (list4 x Hl) as (x0 & x1 & x2 & x3 & ->). split; reflexivity. Qed.

Lemma md5_state hash :
  words 32 4 (take 4 (state hash)) ->
  take 4 (state (md5_transform md5nofloat hash)) =
    md5_compress (take 4 (state hash)) (take 64 (buffer hash)) /\
  words 32 4 (take 4 (state (md5_transform md5nofloat hash))).
Proof.
  intros Hst. unfold md5_transform, md5_compress. cbn [state].
  assert (forall n lo x, (lo + n <= 64)%nat -> words 32 4 x ->
    words 32 4 (foldl (md5_step md5nofloat (buffer hash)) x (seq lo n)) /\
    md5_view (foldl (md5_step md5nofloat (buffer hash)) x (seq lo n)) (lo + n) =
    foldl (md5_op (md5_words (buffer hash))) (md5_view x lo) (seq lo n)) as H.
  { induction n as [|n IH]; intros lo x Hn Hx; [by rewrite Nat.add_0_r|]. cbn [seq foldl].
    destruct (md5_step_view (buffer hash) x lo ltac:(lia) Hx) as [Hw Hv]. rewrite <- Hv.
    replace (lo + S n)%nat with (S lo + n)%nat by lia. apply IH; [lia|done]. }
  destruct (H 64%nat 0%nat (take 4 (state hash)) ltac:(lia) Hst) as [Hw Hv].
  change (0 + 64)%nat with 64%nat in Hv. rewrite (proj1 (md5_view_id _ Hw)), (proj2 (md5_view_id _ Hst)) in Hv.
  assert (md5_words (buffer hash) = md5_words (take 64 (buffer hash))) as Ew.
  { apply list_fmap_ext. intros i' i Hi. apply lookup_seq in Hi as [E Hi]. simpl in E. subst i'.
    simpl. by rewrite !at_take by lia. }
  rewrite Ew in Hv. fold (md5_words (take 64 (buffer hash))). rewrite <- Hv.
  set (x := foldl (md5_step _ _) _ _) in *.
  assert (words 32 4 (zip_with add32 (take 4 (state hash)) x)) as Hz.
  { split; [rewrite length_zip_with; destruct Hst as [-> _], Hw as [-> _]; done|].
    apply Forall_forall. intros z Hz. apply list_elem_of_lookup in Hz as [i Hi].
    apply lookup_zip_with_Some in Hi as (y & z' & -> & _ & _). by apply wrap_range. }
  rewrite take_app_length' by (symmetry; apply Hz). split; [|done]. reflexivity.
Qed.

(** ** SHA-1 *)

(** The byte swap by two rotations and masks. *)
Definition swap_masks (x : Z) : Z :=
  Z.lor (Z.land (ror32 x 8) 0xFF00FF00) (Z.land (rol32 x 8) 0x00FF00FF).

Lemma wrap_bit w x k : 0 <= w -> 0 <= k -> Z.testbit (wrap w x) k = (k <? w) && Z.testbit x k.
Proof.
  intros. unfold wrap. rewrite <- Z.land_ones, Z.land_spec, Z.testbit_ones_nonneg by lia. apply andb_comm.
Qed.

Lemma word_high x k : in_range 32 x -> 32 <= k -> Z.testbit x k = false.
Proof.
  intros Hx Hk. rewrite <- (wrap_small 32 x Hx), wrap_bit by lia.
  by rewrite (proj2 (Z.ltb_ge k 32)) by done.
Qed.

Lemma ror8_bit x k : in_range 32 x -> 0 <= k < 32 ->
  Z.testbit (ror32 x 8) k = Z.testbit x (if k <? 24 then k + 8 else k - 24).
Proof.
  intros Hx Hk. unfold ror32. rewrite Z.lor_spec, Z.shiftr_spec, wrap_bit, Z.shiftl_spec by lia.
  rewrite (proj2 (Z.ltb_lt k 32)) by lia. simpl. change (32 - 8) with 24.
  destruct (Z.ltb_spec k 24).
  - by rewrite (Z.testbit_neg_r x (k - 24)), orb_false_r by lia.
  - by rewrite (word_high x (k + 8)) by (done || lia).
Qed.

Lemma rol8_bit x k : in_range 32 x -> 0 <= k < 32 ->
  Z.testbit (rol32 x 8) k = Z.testbit x (if k <? 8 then k + 24 else k - 8).
Proof.
  intros Hx Hk. unfold rol32. rewrite Z.lor_spec, Z.shiftr_spec, wrap_bit, Z.shiftl_spec by lia.
  rewrite (proj2 (Z.ltb_lt k 32)) by lia. simpl. change (32 - 8) with 24.
  destruct (Z.ltb_spec k 8).
  - by rewrite (Z.testbit_neg_r x (k - 8)) by lia.
  - by rewrite (word_high x (k + 24)), orb_false_r by (done || lia).
Qed.

Lemma byte_bit x j m : 0 <= m -> Z.testbit (byte_n x j) m = (m <? 8) && Z.testbit x (8 * Z.of_nat j + m).
Proof. intros. unfold byte_n. rewrite wrap_bit, Z.shiftr_spec by lia. do 2 f_equal. lia. Qed.

Lemma byte_bit_all x j m :
  Z.testbit (byte_n x j) m = (0 <=? m) && (m <? 8) && Z.testbit x (8 * Z.of_nat j + m).
Proof.
  destruct (Z.leb_spec 0 m); [by rewrite byte_bit|]. by rewrite Z.testbit_neg_r by done.
Qed.

(** Bit [n] for a concrete [n]. *)
Ltac solve_swap_bit :=
  match goal with |- context [Z.of_nat ?n] => let k := eval vm_compute in (Z.of_nat n) in
    change (Z.of_nat n) with k end;
  rewrite !byte_bit_all;
  repeat match goal with
  | |- context [Z.testbit (Zpos ?c) ?k] =>
      let b := eval vm_compute in (Z.testbit (Zpos c) k) in change (Z.testbit (Zpos c) k) with b
  | |- context [?a <? ?c] => let b := eval vm_compute in (a <? c) in change (a <? c) with b
  | |- context [0 <=? ?a] => let b := eval vm_compute in (0 <=? a) in change (0 <=? a) with b
  end; cbn [andb];
  rewrite ?andb_true_r, ?andb_false_r, ?orb_false_r, ?orb_false_l; reflexivity.

Lemma swap_masks_bswap x : in_range 32 x -> swap_masks x = bswap 4 x.
Proof.
  intros Hx. apply Z.bits_inj'. intros k Hk. unfold swap_masks, bswap. cbn [seq foldl].
  rewrite Z.shiftl_0_l, Z.lor_0_l. repeat rewrite ?Z.shiftl_lor, ?Z.shiftl_shiftl by lia.
  rewrite !Z.lor_spec, !Z.land_spec, !Z.shiftl_spec by lia.
  destruct (decide (k < 32)) as [Hlt|Hge].
  - rewrite ror8_bit, rol8_bit by (done || lia).
    assert (exists n, (n < 32)%nat /\ k = Z.of_nat n) as (n & Hn & ->) by (exists (Z.to_nat k); lia).
    clear Hk Hlt. do 32 (destruct n as [|n]; [solve_swap_bit|]). lia.
  - rewrite !byte_bit by lia. rewrite !(proj2 (Z.ltb_ge _ 8)) by lia. simpl.
    assert (forall c, in_range 32 c -> forall y, Z.testbit y k && Z.testbit c k = false) as H.
    { intros c Hc y. rewrite (word_high c k) by (done || lia). apply andb_false_r. }
    by rewrite !H by done.
Qed.

(** FIPS 180-4, section 6.1. *)
Definition sha1_f (t : nat) (b c d : Z) : Z :=
  if (t <? 20)%nat then Ch_std b c d
  else if (t <? 40)%nat then Z.lxor (Z.lxor b c) d
  else if (t <? 60)%nat then Maj_std b c d
  else Z.lxor (Z.lxor b c) d.
Definition sha1_k (t : nat) : Z :=
  if (t <? 20)%nat then 0x5a827999 else if (t <? 40)%nat then 0x6ed9eba1
  else if (t <? 60)%nat then 0x8f1bbcdc else 0xca62c1d6.
Definition sha1_next (W : list Z) : Z :=
  let t := length W in
  rol32 (Z.lxor (Z.lxor (Z.lxor (at_ W (t - 3)) (at_ W (t - 8))) (at_ W (t - 14))) (at_ W (t - 16))) 1.
Fixpoint sha1_schedule (n : nat) (W : list Z) : list Z :=
  match n with O => W | S n => sha1_schedule n (W ++ [sha1_next W]) end.
Definition sha1_round (W : list Z) (st : list Z) (t : nat) : list Z :=
  match st with
  | [a; b; c; d; e] =>
      [wrap32 (rol32 a 5 + sha1_f t b c d + e + sha1_k t + at_ W t); a; rol32 b 30; c; d]
  | _ => st
  end.
Definition sha1_compress (h b : list Z) : list Z :=
  let W := sha1_schedule 64 (be_word b 4 <$> seq 0 16) in
  zip_with add32 h (foldl (sha1_round W) h (seq 0 80)).

(** The schedule word [t]. *)

Lemma sha1_schedule_prefix n W i : (i < length W)%nat -> at_ (sha1_schedule n W) i = at_ W i.
Proof.
  revert W. induction n as [|n IH]; intros W Hi; simpl; [done|].
  rewrite IH by (rewrite length_app; simpl; lia). by apply at_app_l.
Qed.

Lemma sha1_schedule_at n W t :
  (16 <= length W)%nat -> (length W <= t < length W + n)%nat -> let S := at_ (sha1_schedule n W) in
  S t = rol32 (Z.lxor (Z.lxor (Z.lxor (S (t - 3)) (S (t - 8))) (S (t - 14))) (S (t - 16)))%nat 1.
Proof.
  revert W. induction n as [|n IH]; intros W HW Ht; [lia|].
  cbn [sha1_schedule]. destruct (decide (t = length W)) as [->|].
  - cbv zeta. rewrite !sha1_schedule_prefix by (rewrite length_app; simpl; lia).
    assert (at_ (W ++ [sha1_next W]) (length W) = sha1_next W) as ->.
    { unfold at_. by rewrite app_nth2, Nat.sub_diag by lia. }
    by rewrite !at_app_l by lia.
  - apply IH; rewrite length_app; simpl; lia.
Qed.

(** The block is a window of sixteen words of the schedule. *)
Record window (b W block : list Z) (t : nat) : Prop := {
  wi_len : length block = 16%nat;
  wi_old : forall j, (j < t)%nat -> (t <= j + 16)%nat -> at_ block (j `mod` 16) = at_ W j;
  wi_new : forall j, (t <= j < 16)%nat -> at_ block j = le_word 4 b j
}.

Definition sha1_w (block : list Z) (count : nat) : Z :=
  let c := Nat.land count 15 in
  if (count / 20 =? 0)%nat && (count <? 16)%nat then swap_masks (at_ block c)
  else rol32 (Z.lxor (Z.lxor (Z.lxor (at_ block (Nat.land (count + 13) 15)) (at_ block (Nat.land (count + 8) 15)))
               (at_ block (Nat.land (count + 2) 15))) (at_ block c)) 1.

Lemma land15 n : Nat.land n 15 = (n `mod` 16)%nat.
Proof. change 15%nat with (Nat.ones 4). by rewrite Nat.land_ones. Qed.

Lemma at_upd l i v j : (i < length l)%nat -> at_ (upd l i v) j = if (j =? i)%nat then v else at_ l j.
Proof.
  intros Hi. unfold at_, upd. rewrite !nth_lookup. destruct (Nat.eqb_spec j i) as [->|Hne].
  - by rewrite list_lookup_insert_eq.
  - by rewrite list_lookup_insert_ne.
Qed.

Lemma le_word_range b i : Forall is_byte b -> in_range 32 (le_word 4 b i).
Proof.
  intros Hb. unfold le_word. cbn [seq foldr].
  assert (forall x y w, 0 <= w -> is_byte x -> in_range w y -> in_range (w + 8) (Z.lor x (Z.shiftl y 8))) as H.
  { intros x y w Hw Hx Hy. rewrite Z.shiftl_mul_pow2 by lia.
    assert (Z.land x (y * 2 ^ 8) = 0) as E.
    { apply Z.bits_inj'. intros k Hk. rewrite Z.land_spec, Z.bits_0.
      destruct (decide (k < 8)).
      - by rewrite (Z.mul_pow2_bits_low y 8 k), andb_false_r by lia.
      - assert (Z.testbit x k = false) as ->; [|done].
        rewrite <- (wrap_small 8 x Hx), wrap_bit by lia. by rewrite (proj2 (Z.ltb_ge k 8)) by lia. }
    rewrite <- (Z.lxor_lor _ _ E), <- (Z.add_nocarry_lxor _ _ E). unfold in_range in *. rewrite Z.pow_add_r by lia. nia. }
  change 32 with (0 + 8 + 8 + 8 + 8). repeat apply H; try lia; try (by apply at_is_byte). done.
Qed.

Lemma window_step b block t :
  Forall is_byte b -> (t < 80)%nat ->
  let W := sha1_schedule 64 (be_word b 4 <$> seq 0 16) in
  window b W block t ->
  sha1_w block t = at_ W t /\ window b W (upd block (Nat.land t 15) (sha1_w block t)) (S t).
Proof.
  intros Hb Ht W [Hlen Hold Hnew]. rewrite land15.
  assert (sha1_w block t = at_ W t) as Hw.
  { unfold sha1_w. rewrite !land15. destruct (Nat.ltb_spec t 16) as [H16|H16].
    - rewrite Nat.div_small, Nat.mod_small by lia. simpl. rewrite Hnew by lia.
      rewrite swap_masks_bswap, bswap_le_word by (done || by apply le_word_range).
      subst W. rewrite sha1_schedule_prefix by (rewrite length_fmap, length_seq; lia).
      by rewrite at_fmap_seq.
    - rewrite andb_false_r. subst W. rewrite (sha1_schedule_at 64 _ t) by (rewrite length_fmap, length_seq; lia).
      rewrite <- !Hold by lia.
      assert (forall k, (k <= 16)%nat -> ((t - k) `mod` 16 = (t + (16 - k)) `mod` 16)%nat) as Hm.
      { intros k Hk. replace (t + (16 - k))%nat with ((t - k) + 1 * 16)%nat by lia. by rewrite Nat.Div0.mod_add. }
      rewrite !Hm by lia. simpl Nat.sub. by rewrite Nat.add_0_r. }
  split; [done|]. rewrite Hw. assert (t `mod` 16 < 16)%nat by (apply Nat.mod_upper_bound; lia).
  split.
  - unfold upd. by rewrite length_insert.
  - intros j Hj Hj'. rewrite at_upd by lia. destruct (Nat.eqb_spec (j `mod` 16) (t `mod` 16)) as [E|E].
    + f_equal. assert (t = j \/ t <> j) as [->|Hne] by lia; [done|]. exfalso.
      pose proof (Nat.div_mod_eq j 16). pose proof (Nat.div_mod_eq t 16). lia.
    + apply Hold; [|lia]. assert (j <> t) by congruence. lia.
  - intros j Hj. rewrite at_upd by lia. rewrite (Nat.mod_small t) by lia.
    destruct (Nat.eqb_spec j t); [lia|]. apply Hnew. lia.
Qed.

(** Where the rotating pointers are at operation [t]. *)
Definition rot_at (t : nat) : list nat :=
  match (t `mod` 5)%nat with
  | 0 => [0; 1; 2; 3; 4] | 1 => [4; 0; 1; 2; 3] | 2 => [3; 4; 0; 1; 2]
  | 3 => [2; 3; 4; 0; 1] | _ => [1; 2; 3; 4; 0]
  end%nat.
Definition sha1_view (st : list Z) (t : nat) : list Z := at_ st <$> rot_at t.

Lemma sha1_tables_ok : forallb (fun t => Bool.eqb (t / 20 =? 0)%nat (t <? 20)%nat &&
  Bool.eqb (t / 20 =? 2)%nat (negb (t <? 40)%nat && (t <? 60)%nat) && (at_ sha1rconsts (t / 20) =? sha1_k t))
  (seq 0 80) = true.
Proof. reflexivity. Qed.

Lemma sha1_work t b c d : (t < 80)%nat ->
  at_ sha1rconsts (t / 20) = sha1_k t /\
  (if (t / 20 =? 0)%nat then Z.lxor (Z.land (Z.lxor c d) b) d
   else if (t / 20 =? 2)%nat then Z.lor (Z.land (Z.lor b c) d) (Z.land b c)
   else Z.lxor (Z.lxor c d) b) = sha1_f t b c d.
Proof.
  intros Ht. pose proof sha1_tables_ok as H. rewrite forallb_forall in H.
  specialize (H t (proj2 (in_seq 80 0 t) ltac:(lia))). rewrite !andb_true_iff in H.
  destruct H as [[E0%eqb_prop E2%eqb_prop] ?%Z.eqb_eq]. split; [done|]. rewrite E0, E2.
  unfold sha1_f, Ch_std, Maj_std. destruct (Nat.ltb_spec t 20); [bits|].
  destruct (Nat.ltb_spec t 40); simpl; [bits|]. destruct (Nat.ltb_spec t 60); bits.
Qed.

Lemma list5 {A} (l : list A) : length l = 5%nat -> exists a b c d e, l = [a; b; c; d; e].
Proof.
  intros E. do 5 (destruct l as [|? l]; [simpl in E; lia|]). destruct l; [|simpl in E; lia].
  by eexists _, _, _, _, _.
Qed.

Lemma sha1_sum e f w r k : wrap32 (e + (wrap32 (f + w) + r + k)) = wrap32 (r + f + e + k + w).
Proof.
  replace (e + (wrap32 (f + w) + r + k)) with (wrap32 (f + w) + (e + r + k)) by lia.
  rewrite wrap_add_l. apply f_equal. lia.
Qed.

(** One operation through any five distinct pointers. *)
Lemma sha1_step_regs st block t p0 p1 p2 p3 p4 :
  (t < 80)%nat -> length st = 5%nat -> Forall (fun p => p < 5)%nat [p0; p1; p2; p3; p4] ->
  NoDup [p0; p1; p2; p3; p4] ->
  exists st', sha1_step (st, [p0; p1; p2; p3; p4], block) t =
      (st', [p4; p0; p1; p2; p3], upd block (Nat.land t 15) (sha1_w block t)) /\
    length st' = 5%nat /\
    at_ st' <$> [p4; p0; p1; p2; p3] =
      [wrap32 (rol32 (at_ st p0) 5 + sha1_f t (at_ st p1) (at_ st p2) (at_ st p3) + at_ st p4 + sha1_k t + sha1_w block t);
       at_ st p0; rol32 (at_ st p1) 30; at_ st p2; at_ st p3].
Proof.
  intros Ht Hst Hp Hnd. rewrite !Forall_cons in Hp. destruct Hp as (H0 & H1 & H2 & H3 & H4 & _).
  rewrite !NoDup_cons, !not_elem_of_cons in Hnd. destruct_and!.
  destruct (sha1_work t (at_ st p1) (at_ st p2) (at_ st p3) Ht) as [HK Hf].
  eexists. split; [reflexivity|]. cbn [nth]. fold (swap_masks (at_ block (Nat.land t 15))).
  rewrite HK, Hf. split; [unfold upd; by rewrite !length_insert|].
  cbn [fmap list_fmap]. rewrite !at_upd by (unfold upd; rewrite ?length_insert; lia).
  rewrite !Nat.eqb_refl.
  repeat match goal with |- context [(?a =? ?b)%nat] =>
    rewrite (proj2 (Nat.eqb_neq a b)) by congruence end.
  fold (sha1_w block t). by rewrite sha1_sum.
Qed.

Lemma rot_at_spec t : exists p0 p1 p2 p3 p4,
  rot_at t = [p0; p1; p2; p3; p4] /\ rot_at (S t) = [p4; p0; p1; p2; p3] /\
  Forall (fun p => p < 5)%nat [p0; p1; p2; p3; p4] /\ NoDup [p0; p1; p2; p3; p4].
Proof.
  unfold rot_at. replace (S t) with (1 + t)%nat by lia. rewrite (Nat.Div0.add_mod 1 t 5).
  assert (t `mod` 5 < 5)%nat as Hr by (apply Nat.mod_upper_bound; lia).
  destruct (t `mod` 5)%nat as [|[|[|[|[|]]]]]; [..|lia]; eexists _, _, _, _, _;
    (split; [reflexivity|]; split; [reflexivity|]; split; [apply (bool_decide_unpack _); vm_compute; exact Logic.I|]);
    apply (bool_decide_unpack _); vm_compute; exact Logic.I.
Qed.

Lemma sha1_step_view b st block t :
  Forall is_byte b -> (t < 80)%nat -> length st = 5%nat ->
  let W := sha1_schedule 64 (be_word b 4 <$> seq 0 16) in
  window b W block t ->
  exists st' block', sha1_step (st, rot_at t, block) t = (st', rot_at (S t), block') /\
    length st' = 5%nat /\ window b W block' (S t) /\
    sha1_view st' (S t) = sha1_round W (sha1_view st t) t.
Proof.
  intros Hb Ht Hst W Hwin. destruct (window_step b block t Hb Ht Hwin) as [Hw Hwin'].
  destruct (rot_at_spec t) as (p0 & p1 & p2 & p3 & p4 & E & E' & Hp & Hnd).
  unfold sha1_view. rewrite E, E'.
  destruct (sha1_step_regs st block t _ _ _ _ _ Ht Hst Hp Hnd) as (st' & Hrun & Hlen & Hv).
  eexists st', _. split_and!; [exact Hrun|done|done|]. rewrite Hv, Hw. done.
Qed.

Lemma sha1_compress_length h b : length h = 5%nat -> length (sha1_compress h b) = 5%nat.
Proof.
  intros Hh. unfold sha1_compress. rewrite length_zip_with.
  assert (forall W l st, length st = 5%nat -> length (foldl (sha1_round W) st l) = 5%nat) as H.
  { intros W. induction l as [|t l IH]; intros st Hst; simpl; [done|]. apply IH.
    by destruct (list5 st Hst) as (? & ? & ? & ? & ? & ->). }
  rewrite H by done. lia.
Qed.

Lemma zip_add32_comm l k : zip_with add32 l k = zip_with add32 k l.
Proof.
  revert k. induction l as [|x l IH]; intros [|y k]; simpl; try done. rewrite IH. f_equal.
  unfold add32. f_equal. lia.
Qed.

Lemma sha1_state hash :
  length (state hash) = 5%nat -> Forall is_byte (buffer hash) -> length (buffer hash) = 128%nat ->
  state (sha1_transform hash) = sha1_compress (state hash) (take 64 (buffer hash)) /\
  Forall is_byte (buffer (sha1_transform hash)) /\ length (buffer (sha1_transform hash)) = 128%nat.
Proof.
  intros Hst Hb Hlen. unfold sha1_transform, sha1_compress.
  assert (be_word (take 64 (buffer hash)) 4 <$> seq 0 16 = be_word (buffer hash) 4 <$> seq 0 16) as ->
    by exact (block_words_take sha256_params (buffer hash) 64 ltac:(done)).
  set (W := sha1_schedule 64 _). set (b := buffer hash) in *.
  assert (forall n lo st block, (lo + n <= 80)%nat -> length st = 5%nat -> window b W block lo ->
    exists st' block', foldl sha1_step (st, rot_at lo, block) (seq lo n) = (st', rot_at (lo + n), block') /\
      length st' = 5%nat /\ window b W block' (lo + n) /\
      sha1_view st' (lo + n) = foldl (sha1_round W) (sha1_view st lo) (seq lo n)) as H.
  { induction n as [|n IH]; intros lo st block Hn Hl Hw.
    - exists st, block. rewrite Nat.add_0_r. done.
    - destruct (sha1_step_view b st block lo Hb ltac:(lia) Hl Hw) as (st1 & bl1 & Hrun & Hl1 & Hw1 & Hv1).
      destruct (IH (S lo) st1 bl1 ltac:(lia) Hl1 Hw1) as (st2 & bl2 & Hrun2 & Hl2 & Hw2 & Hv2).
      exists st2, bl2. replace (lo + S n)%nat with (S lo + n)%nat by lia. cbn [seq foldl].
      rewrite Hrun. split_and!; [done|done|done|]. by rewrite Hv2, Hv1. }
  destruct (H 80%nat 0%nat (take 5 (state hash)) (le_word 4 b <$> seq 0 16)) as (st & bl & Hrun & Hl & Hw & Hv).
  - lia.
  - rewrite length_take. lia.
  - split; [done|lia|]. intros j Hj. by rewrite at_fmap_seq by lia.
  - change (rot_at 0) with (seq 0 5) in Hrun. rewrite Hrun. cbn [state buffer].
    change (0 + 80)%nat with 80%nat in *.
    assert (forall l, length l = 5%nat -> at_ l <$> [0; 1; 2; 3; 4]%nat = l) as Hid.
    { intros l E. rewrite <- (list_at l) at 2. by rewrite E. }
    unfold sha1_view in Hv. change (rot_at 80) with [0; 1; 2; 3; 4]%nat in Hv.
    change (rot_at 0) with [0; 1; 2; 3; 4]%nat in Hv. rewrite (take_ge (state hash)) in * by lia.
    rewrite !Hid in Hv by done. rewrite Hv, drop_ge, app_nil_r by lia. split_and!.
    + apply zip_add32_comm.
    + apply Forall_app. split; [|by apply Forall_drop]. unfold words_bytes.
      apply Forall_concat, Forall_fmap, Forall_forall. intros w _. simpl.
      repeat constructor; by apply wrap_range.
    + rewrite length_app, length_drop, Hlen. unfold words_bytes. destruct Hw as [Hbl _ _].
      do 16 (destruct bl as [|? bl]; [simpl in Hbl; lia|]). destruct bl; [done|simpl in Hbl; lia].
Qed.

(** ** The update loop *)

Section toy_stream.
Context (B : nat) (transform : browns -> browns) (compress : list Z -> list Z -> list Z).
(** The words of the state that hold the chaining value, and what they
    satisfy. *)
Context (pr : list Z -> list Z) (I : list Z -> Prop).
Definition good (h : browns) : Prop :=
  I (state h) /\ Forall is_byte (buffer h) /\ length (buffer h) = 128%nat.
Context (Htr : forall h, good h ->
  pr (state (transform h)) = compress (pr (state h)) (take B (buffer h)) /\ good (transform h) /\
  count (transform h) = count h /\ overflow (transform h) = overflow h).
Context (HB : B = 64%nat \/ B = 128%nat) (iv : list Z).

(** Whole blocks [a] hashed, [tl] in the buffer. *)
Record core (h : browns) (a tl : list Z) : Prop := {
  co_good : good h;
  co_a : exists k, length a = (B * k)%nat;
  co_tl : (length tl < B)%nat;
  co_state : pr (state h) = hash_blocks B compress iv a;
  co_buf : take (length tl) (buffer h) = tl
}.

Lemma good_fill h j d :
  good h -> (j + length d <= 128)%nat -> Forall is_byte d ->
  good (mk_browns (count h) (overflow h) (state h) (fill (buffer h) j d)).
Proof.
  intros (HI & Hb & Hl) Hj Hd. split; [done|]. cbn [buffer]. unfold fill. split.
  - unfold splice. rewrite !Forall_app. split_and!; [by apply Forall_take|done|by apply Forall_drop].
  - by rewrite splice_length by lia.
Qed.

Lemma update_loop_ok n h data a tl :
  core h a tl -> Forall is_byte data -> (length data < n)%nat ->
  exists h' a' tl', hash_update_loop n transform B (length tl) data h = Some h' /\
    core h' a' tl' /\ (a ++ tl) ++ data = a' ++ tl' /\
    count h' = count h /\ overflow h' = overflow h.
Proof.
  revert h data a tl. induction n as [|n IH]; intros h data a tl [Hg [k Ha] Htl Hst Hbuf] Hd Hn; [lia|].
  cbn [hash_update_loop]. destruct Hg as (HI & Hb & Hl).
  assert (B <= 128)%nat as HB' by lia.
  destruct (Nat.ltb_spec (length data) (B - length tl)) as [Hlt|Hge].
  - destruct (Nat.eqb_spec (length tl + length data) B); [lia|]. simpl. rewrite (take_ge data) by lia.
    eexists _, a, (tl ++ data). split; [reflexivity|]. split_and!; [|by rewrite app_assoc|done|done].
    split; cbn [state buffer]; [apply good_fill; (done || lia)|by exists k|rewrite length_app; lia|done|].
    unfold fill. rewrite length_app, splice_take by lia. by rewrite Hbuf.
  - replace (length tl + (B - length tl) =? B)%nat with true by (symmetry; apply Nat.eqb_eq; lia). simpl.
    set (d := take (B - length tl) data).
    assert (length d = (B - length tl)%nat) as Hdl by (subst d; rewrite length_take; lia).
    assert (Forall is_byte d) as Hdb by (by apply Forall_take).
    set (h1 := mk_browns _ _ _ _).
    assert (good h1) as Hg1 by (apply good_fill; (done || lia)).
    destruct (Htr h1 Hg1) as (Hs2 & Hg2 & Hc2 & Ho2).
    assert (take B (buffer h1) = tl ++ d) as Hb1.
    { subst h1. cbn [buffer]. unfold fill.
      pose proof (splice_take (buffer h) (length tl) d ltac:(lia)) as E. rewrite Hbuf in E.
      rewrite <- E. f_equal. lia. }
    destruct (IH (transform h1) (drop (B - length tl) data) (a ++ tl ++ d) [])
      as (h' & a' & tl' & Hrun & Hcore & Happ & Hc & Ho).
    + split; [done| |simpl; lia| |done].
      * exists (S k). rewrite !length_app. lia.
      * rewrite Hs2, Hb1. rewrite (hash_blocks_app B compress ltac:(lia) k) by done.
        rewrite (hash_blocks_one B compress ltac:(lia) _ (tl ++ d)) by (rewrite length_app; lia).
        by rewrite <- Hst.
    + by apply Forall_drop.
    + rewrite length_drop. lia.
    + exists h', a', tl'. split; [exact Hrun|]. split_and!; [done| |by rewrite Hc, Hc2|by rewrite Ho, Ho2].
      rewrite <- Happ. rewrite app_nil_r, <- !app_assoc. subst d. by rewrite take_drop.
Qed.

(** The state after the bytes [msg]; messages are shorter than 2^62 bytes. *)
Definition toy_holds (h : browns) (msg : list Z) : Prop :=
  Z.of_nat (length msg) < 2 ^ 62 /\ count h = Z.of_nat (length msg) /\ overflow h = 0 /\
  exists a tl, msg = a ++ tl /\ core h a tl.

Lemma count_land n : Z.land (Z.of_nat n) (Z.of_nat B - 1) = Z.of_nat (n `mod` B).
Proof.
  rewrite Nat2Z.inj_mod. destruct HB as [-> | ->].
  - exact (Z.land_ones (Z.of_nat n) 6 ltac:(lia)).
  - exact (Z.land_ones (Z.of_nat n) 7 ltac:(lia)).
Qed.

Lemma core_mod h a tl : core h a tl -> (length (a ++ tl) `mod` B = length tl)%nat.
Proof.
  intros [_ [k Ha] Htl _ _]. rewrite length_app, Ha, Nat.add_comm, Nat.mul_comm, Nat.Div0.mod_add.
  by apply Nat.mod_small.
Qed.

Lemma hash_update_ok h msg data :
  toy_holds h msg -> Forall is_byte data -> Z.of_nat (length (msg ++ data)) < 2 ^ 62 ->
  exists h', hash_update data transform B h = Some h' /\ toy_holds h' (msg ++ data).
Proof.
  intros (Hlen & Hc & Ho & a & tl & -> & Hcore) Hd Hlen'. unfold hash_update.
  rewrite Hc, count_land, Nat2Z.id, (core_mod h a tl Hcore).
  assert (wrap64 (Z.of_nat (length (a ++ tl)) + Z.of_nat (length data)) = Z.of_nat (length ((a ++ tl) ++ data))) as Ec.
  { rewrite (length_app (a ++ tl)) in *. unfold wrap. rewrite Z.mod_small by lia. lia. }
  rewrite Ec. rewrite (proj2 (Z.ltb_ge _ _)) by (rewrite (length_app (a ++ tl)); lia).
  destruct Hcore as [Hg Ha Htl Hst Hb].
  set (h0 := mk_browns _ _ _ _).
  assert (core h0 a tl) as Hcore0 by (by split).
  destruct (update_loop_ok (S (length data)) h0 data a tl Hcore0 Hd ltac:(lia))
    as (h' & a' & tl' & Hrun & Hc' & Happ & Hcnt & Hov).
  exists h'. split; [done|]. split_and!; [done|by rewrite Hcnt|by rewrite Hov|].
  exists a', tl'. by rewrite Happ.
Qed.

Lemma read_loop_ok reads h msg :
  toy_holds h msg -> Forall (Forall is_byte) reads -> Forall (fun d => d <> []) reads ->
  Z.of_nat (length (msg ++ concat reads)) < 2 ^ 62 ->
  exists h', read_loop transform B reads h = Some h' /\ toy_holds h' (msg ++ concat reads).
Proof.
  revert h msg. induction reads as [|d reads IH]; intros h msg Hh Hb Hne Hlen; simpl in *.
  - rewrite app_nil_r. by exists h.
  - rewrite Forall_cons in Hb, Hne. destruct Hb, Hne. destruct (Nat.ltb_spec (length d) 1) as [Hd1|Hd1].
    { destruct d; [done|simpl in Hd1; lia]. }
    rewrite app_assoc in Hlen |- *.
    destruct (hash_update_ok h msg d Hh) as (h1 & Hrun & Hh1); [done|rewrite length_app in Hlen; lia|].
    rewrite Hrun. simpl. by apply IH.
Qed.

(** The padding loop pushes one byte, then zeros up to the length field. *)
Lemma pad_loop_ok (i : nat) n buf h msg z :
  toy_holds h msg -> is_byte buf -> Z.of_nat (length msg + 1 + z) < 2 ^ 62 -> (0 < i <= B)%nat ->
  ((length msg + 1 + z) `mod` B = B - i)%nat ->
  (forall y, (y < z)%nat -> ((length msg + 1 + y) `mod` B <> B - i)%nat) -> (z < n)%nat ->
  exists h', pad_loop n transform B (Z.of_nat i) buf h = Some h' /\
    toy_holds h' (msg ++ buf :: replicate z 0).
Proof.
  revert buf h msg z. induction n as [|n IH]; intros buf h msg z Hh Hbuf Hlen Hi Hz Hmin Hn; [lia|].
  cbn [pad_loop]. destruct (hash_update_ok h msg [buf] Hh) as (h1 & Hrun & Hh1);
    [by apply Forall_singleton|rewrite length_app; simpl; lia|].
  rewrite Hrun. simpl. pose proof Hh1 as (_ & Hc1 & _). rewrite Hc1, count_land, length_app.
  change (length [buf]) with 1%nat. destruct z as [|z].
  - rewrite Nat.add_0_r in Hz. rewrite Hz. rewrite (proj2 (Z.eqb_eq _ _)) by lia. by exists h1.
  - pose proof (Hmin 0%nat ltac:(lia)) as H0. rewrite Nat.add_0_r in H0.
    rewrite (proj2 (Z.eqb_neq _ _)) by lia. simpl.
    destruct (IH 0 h1 (msg ++ [buf]) z) as (h' & Hrun' & Hh'); try done; rewrite ?length_app; simpl.
    + lia.
    + rewrite <- Hz. f_equal. lia.
    + intros y Hy. replace (length msg + 1 + 1 + y)%nat with (length msg + 1 + S y)%nat by lia. apply Hmin. lia.
    + lia.
    + exists h'. split; [done|]. by rewrite <- app_assoc in Hh'.
Qed.

(** At a block boundary the chaining value is the hash of everything. *)
Lemma toy_holds_final h msg :
  toy_holds h msg -> (length msg `mod` B = 0)%nat -> pr (state h) = hash_blocks B compress iv msg.
Proof.
  intros (_ & _ & _ & a & tl & -> & Hcore) Hmod. rewrite (core_mod h a tl Hcore) in Hmod.
  destruct Hcore as [_ _ _ -> _]. destruct tl; [by rewrite app_nil_r|done].
Qed.

(** The number of zeros in the reference's padding is the one the loop
    stops at. *)
Lemma pad_zeros (n i : nat) : (0 < i < B)%nat ->
  let z := ((B + (B - i) - 1 - n `mod` B) `mod` B)%nat in
  ((n + 1 + z) `mod` B = B - i)%nat /\
  (forall y, (y < z)%nat -> ((n + 1 + y) `mod` B <> B - i)%nat) /\ (z < B)%nat.
Proof.
  intros Hi z. set (r := (n `mod` B)%nat). assert (r < B)%nat as Hr by (apply Nat.mod_upper_bound; lia).
  assert (forall y, ((n + 1 + y) `mod` B = (r + 1 + y) `mod` B)%nat) as Hm.
  { intros y. rewrite <- !Nat.add_assoc. unfold r. by rewrite Nat.Div0.add_mod_idemp_l. }
  assert (z = if decide (r + 1 <= B - i) then B - i - 1 - r else 2 * B - i - 1 - r)%nat as Ez.
  { subst z. fold r. case_decide.
    - replace (B + (B - i) - 1 - r)%nat with ((B - i - 1 - r) + 1 * B)%nat by lia.
      rewrite Nat.Div0.mod_add. apply Nat.mod_small. lia.
    - rewrite Nat.mod_small by lia. lia. }
  rewrite !Hm. clearbody z r. case_decide; split_and!.
  - rewrite Nat.mod_small; lia.
  - intros y Hy. rewrite Hm, Nat.mod_small; lia.
  - lia.
  - replace (r + 1 + z)%nat with ((B - i) + 1 * B)%nat by lia. rewrite Nat.Div0.mod_add. apply Nat.mod_small. lia.
  - intros y Hy. rewrite Hm. destruct (decide (r + 1 + y < B)%nat).
    + rewrite Nat.mod_small; lia.
    + replace (r + 1 + y)%nat with ((r + 1 + y - B) + 1 * B)%nat by lia.
      rewrite Nat.Div0.mod_add, Nat.mod_small; lia.
  - lia.
Qed.
End toy_stream.

(** ** Hexadecimal output *)

Definition hex_byte (b : Z) : list Z := [hex_digit (b / 16); hex_digit (b `mod` 16)].
Definition hex (l : list Z) : list Z := concat (hex_byte <$> l).

Lemma nibble_hi v k : 0 <= k -> wrap8 (Z.shiftr v k) / 16 = Z.land (Z.shiftr v (k + 4)) 15.
Proof.
  intros. change 15 with (Z.ones 4). rewrite Z.land_ones, <- Z.shiftr_shiftr by lia.
  rewrite (Z.shiftr_div_pow2 _ 4) by lia. unfold wrap. set (x := Z.shiftr v k).
  change (2 ^ 8) with (2 ^ 4 * 16). change (2 ^ 4) with 16. rewrite Z.rem_mul_r by lia.
  pose proof (Z.mod_pos_bound x 16 ltac:(lia)).
  rewrite Z.mul_comm, Z.div_add by lia. rewrite (Z.div_small (x `mod` 16)) by lia. lia.
Qed.

Lemma nibble_lo v k : 0 <= k -> wrap8 (Z.shiftr v k) `mod` 16 = Z.land (Z.shiftr v k) 15.
Proof.
  intros. change 15 with (Z.ones 4). rewrite Z.land_ones by lia. unfold wrap.
  change (2 ^ 8) with (2 ^ 4 * 16). change (2 ^ 4) with 16.
  rewrite Z.rem_mul_r, Z.mul_comm, Z_mod_plus_full, Z.mod_mod by lia. done.
Qed.

Lemma fmt_hex_be4 v : fmt_hex 4 v = hex (be_bytes4 v).
Proof.
  unfold hex, be_bytes4. change (wrap8 v) with (wrap8 (Z.shiftr v 0)).
  cbn [fmap list_fmap concat app]. unfold hex_byte. rewrite !nibble_hi, !nibble_lo by lia. reflexivity.
Qed.

Lemma fmt_hex_be8 v : fmt_hex 8 v = hex (be_bytes8 v).
Proof.
  unfold hex, be_bytes8. change (wrap8 v) with (wrap8 (Z.shiftr v 0)).
  cbn [fmap list_fmap concat app]. unfold hex_byte. rewrite !nibble_hi, !nibble_lo by lia. reflexivity.
Qed.

Lemma bswap4_fold v : bswap 4 v = le_fold (fun j => byte_n v (3 - j)) 0 4.
Proof.
  unfold bswap, le_fold. cbn [seq foldl foldr]. rewrite Z.shiftl_0_l, Z.lor_0_l, Z.lor_0_r.
  repeat rewrite ?Z.shiftl_lor, ?Z.shiftl_shiftl by lia. simpl Nat.sub.
  rewrite (Z.lor_comm _ (byte_n v 3)). f_equal. rewrite (Z.lor_comm _ (Z.shiftl (byte_n v 2) _)). f_equal.
  apply Z.lor_comm.
Qed.

Lemma be_bytes4_bswap v : be_bytes4 (bswap 4 v) = le_bytes4 v.
Proof.
  assert (forall j, is_byte (byte_n v (3 - j))) as Hb by (intros; by apply wrap_range).
  pose proof (fun j Hj => byte_le_fold _ 0 4 j Hb Hj) as H. rewrite <- bswap4_fold in H.
  pose proof (H 0%nat ltac:(lia)) as H0. pose proof (H 1%nat ltac:(lia)) as H1.
  pose proof (H 2%nat ltac:(lia)) as H2. pose proof (H 3%nat ltac:(lia)) as H3.
  simpl Nat.sub in H0, H1, H2, H3. simpl Nat.add in H0, H1, H2, H3.
  change ([byte_n (bswap 4 v) 3; byte_n (bswap 4 v) 2; byte_n (bswap 4 v) 1; byte_n (bswap 4 v) 0] =
    [byte_n v 0; byte_n v 1; byte_n v 2; byte_n v 3]).
  rewrite H0, H1, H2, H3. reflexivity.
Qed.

Lemma hex_concat (f : Z -> list Z) ws : concat ((fun v => hex (f v)) <$> ws) = hex (concat (f <$> ws)).
Proof.
  induction ws as [|w ws IH]; [done|]. rewrite !fmap_cons. cbn [concat]. rewrite IH.
  unfold hex. by rewrite fmap_app, concat_app.
Qed.

(** ** The digests *)

Section toy_run.
Context (B : nat) (transform : browns -> browns) (compress : list Z -> list Z -> list Z).
Context (pr : list Z -> list Z) (I : list Z -> Prop).
Context (Htr : forall h, good I h ->
  pr (state (transform h)) = compress (pr (state h)) (take B (buffer h)) /\ good I (transform h) /\
  count (transform h) = count h /\ overflow (transform h) = overflow h).
Context (HB : B = 64%nat \/ B = 128%nat) (st0 : list Z) (HI : I st0).

Lemma toy_run reads (i : nat) :
  Forall (Forall is_byte) reads -> Forall (fun d => d <> []) reads ->
  Z.of_nat (length (concat reads)) < 2 ^ 61 -> (0 < i < B)%nat ->
  let n := length (concat reads) in
  exists h1 h2, read_loop transform B reads (mk_browns 0 0 st0 (replicate 128 0)) = Some h1 /\
    count h1 = Z.of_nat n /\ overflow h1 = 0 /\
    pad_loop 256 transform B (Z.of_nat i) 0x80 h1 = Some h2 /\
    forall L, length L = i -> Forall is_byte L -> exists h3,
      hash_update L transform B h2 = Some h3 /\
      pr (state h3) = hash_blocks B compress (pr st0)
        (concat reads ++ 128 :: replicate ((B + (B - i) - 1 - n `mod` B) `mod` B) 0 ++ L).
Proof.
  intros Hb Hne Hlen Hi n.
  assert (toy_holds B compress pr I (pr st0) (mk_browns 0 0 st0 (replicate 128 0)) []) as H0.
  { split; [done|]. split; [done|]. split; [done|]. exists [], []. split; [done|].
    split; cbn [state buffer length]; [|by exists 0%nat; rewrite Nat.mul_0_r|lia|by rewrite hash_blocks_short by (simpl; lia)|done].
    split; [done|]. cbn [buffer]. split; [by apply Forall_replicate|by rewrite length_replicate]. }
  destruct (read_loop_ok B transform compress pr I Htr HB (pr st0) reads _ [] H0 Hb Hne) as (h1 & Hrun1 & Hh1);
    [simpl; lia|].
  destruct (pad_zeros B HB n i Hi) as (Hz & Hmin & HzB).
  set (z := ((B + (B - i) - 1 - n `mod` B) `mod` B)%nat) in *.
  destruct (pad_loop_ok B transform compress pr I Htr HB (pr st0) i 256 128 h1 (concat reads) z Hh1)
    as (h2 & Hrun2 & Hh2); [done|fold n; lia|lia|done|done|lia|].
  exists h1, h2. pose proof Hh1 as (_ & Hc1 & Ho1 & _). split_and!; [done|done|done|done|].
  intros L HL HLb.
  destruct (hash_update_ok B transform compress pr I Htr HB (pr st0) h2 _ L Hh2 HLb) as (h3 & Hrun3 & Hh3).
  { rewrite !length_app. simpl. rewrite length_replicate. lia. }
  exists h3. split; [done|].
  rewrite (toy_holds_final B compress pr I (pr st0) h3 _ Hh3); [by rewrite <- app_assoc|].
  rewrite !length_app. simpl. rewrite length_replicate, HL. fold n.
  replace (n + S z + i)%nat with ((n + 1 + z) + i)%nat by lia.
  rewrite Nat.Div0.add_mod, Hz, (Nat.mod_small i), Nat.sub_add by lia. apply Nat.Div0.mod_same.
Qed.
End toy_run.

(** The digests of FIPS 180-4 that musl does not have. *)
Definition sha1 (msg : list Z) : list Z :=
  concat (be_bytes4 <$> hash_blocks 64 sha1_compress (state0 1)
    (msg ++ padding 64 56 56 be_bytes8 (length msg))).
Definition sha224 (msg : list Z) : list Z :=
  concat (be_bytes4 <$> take 7 (hash_blocks 64 (sha2_compress sha256_params) (state0 2)
    (msg ++ padding 64 56 56 be_bytes8 (length msg)))).
Definition sha384 (msg : list Z) : list Z :=
  concat (be_bytes8 <$> take 6 (hash_blocks 128 (sha2_compress sha512_params) (state0 4)
    (msg ++ padding 128 112 120 be_bytes8 (length msg)))).

Section by_name.
Context (cfg : bool) (sin_table : list Z) (Hcfg : cfg = false \/ sin_table = md5nofloat).
Context (reads : list (list Z)).
Context (Hb : Forall (Forall is_byte) reads) (Hne : Forall (fun d => d <> []) reads).
Context (Hlen : Z.of_nat (length (concat reads)) < 2 ^ 61).
Abbreviation msg := (concat reads).

Lemma bytes8 (v : Z) : Forall is_byte (be_bytes8 v) /\ Forall is_byte (le_bytes8 v).
Proof. unfold be_bytes8, le_bytes8. split; rewrite !Forall_cons; split_and!; (by apply wrap_range) || constructor. Qed.

Lemma count_bits : wrap64 (Z.shiftl (Z.of_nat (length msg)) 3) = wrap64 (Z.of_nat (length msg) * 8).
Proof. by rewrite Z.shiftl_mul_pow2 by lia. Qed.

(** The loops of [hash_by_name] for the functions on 64-byte blocks. *)
Lemma by_name_32 name (pr : list Z -> list Z) compress I method enc :
  method_of name = method -> 0 <= method <= 3 ->
  enc = (if method =? 0 then le_bytes8 else be_bytes8) ->
  (forall h, good I h ->
    pr (state (transform_of cfg sin_table method h)) = compress (pr (state h)) (take 64 (buffer h)) /\
    good I (transform_of cfg sin_table method h) /\
    count (transform_of cfg sin_table method h) = count h /\
    overflow (transform_of cfg sin_table method h) = overflow h) ->
  I (state0 method) ->
  exists st, pr st = hash_blocks 64 compress (pr (state0 method))
      (msg ++ padding 64 56 56 enc (length msg)) /\
    hash_by_name cfg sin_table name reads =
      Some (concat ((fun v => fmt_hex 4 (if method =? 0 then bswap 4 v else v)) <$>
        take (Z.to_nat (at_ [16; 20; 28; 32; 48; 64] (Z.to_nat method) / 4)) st)).
Proof.
  intros Hm Hrange Henc Htr HI.
  destruct (toy_run 64 (transform_of cfg sin_table method) compress pr I Htr (or_introl eq_refl)
    (state0 method) HI reads 8 Hb Hne Hlen ltac:(lia)) as (h1 & h2 & Hr1 & Hc1 & Ho1 & Hr2 & Hfin).
  destruct (Hfin (enc (wrap64 (Z.of_nat (length msg) * 8)))) as (h3 & Hr3 & Hst).
  { by subst enc; destruct (method =? 0). }
  { subst enc; destruct (method =? 0); apply bytes8. }
  exists (state h3). split; [rewrite Hst; unfold padding; by rewrite Nat.sub_diag, Nat.add_0_r|].
  unfold hash_by_name. rewrite Hm.
  rewrite (proj2 (Z.leb_gt 4 method)), (proj2 (Z.ltb_lt method 4)) by lia. cbv zeta.
  rewrite Hr1. unfold mbind at 1, option_bind at 1. change 8 with (Z.of_nat 8) at 1. rewrite Hr2.
  unfold mbind at 1, option_bind at 1. rewrite Hc1, Ho1, <- Henc.
  rewrite count_bits. rewrite drop_app_length' by (subst enc; by destruct (method =? 0)).
  rewrite Hr3. reflexivity.
Qed.

Lemma by_name_64 name compress I method :
  method_of name = method -> 4 <= method <= 5 ->
  (forall h, good I h ->
    state (transform_of cfg sin_table method h) = compress (state h) (take 128 (buffer h)) /\
    good I (transform_of cfg sin_table method h) /\
    count (transform_of cfg sin_table method h) = count h /\
    overflow (transform_of cfg sin_table method h) = overflow h) ->
  I (state0 method) ->
  hash_by_name cfg sin_table name reads =
    Some (concat (fmt_hex 8 <$> take (Z.to_nat (at_ [16; 20; 28; 32; 48; 64] (Z.to_nat method) / 8))
      (hash_blocks 128 compress (state0 method) (msg ++ padding 128 112 120 be_bytes8 (length msg))))).
Proof.
  intros Hm Hrange Htr HI.
  destruct (toy_run 128 (transform_of cfg sin_table method) compress (fun l => l) I Htr (or_intror eq_refl)
    (state0 method) HI reads 16 Hb Hne Hlen ltac:(lia)) as (h1 & h2 & Hr1 & Hc1 & Ho1 & Hr2 & Hfin).
  destruct (Hfin (be_bytes8 0 ++ be_bytes8 (wrap64 (Z.of_nat (length msg) * 8)))) as (h3 & Hr3 & Hst).
  { done. }
  { apply Forall_app. split; apply bytes8. }
  assert (state h3 = hash_blocks 128 compress (state0 method)
    (msg ++ padding 128 112 120 be_bytes8 (length msg))) as Est.
  { rewrite Hst. unfold padding. do 3 f_equal. change (be_bytes8 0) with (replicate 8 0).
    rewrite app_assoc, <- replicate_add. done. }
  unfold hash_by_name. rewrite Hm.
  rewrite (proj2 (Z.leb_le 4 method)), (proj2 (Z.ltb_ge method 4)), (proj2 (Z.eqb_neq method 0)) by lia.
  cbv zeta. rewrite Hr1. unfold mbind at 1, option_bind at 1. change (Z.of_nat 16) with 16 in Hr2.
  rewrite Hr2. unfold mbind at 1, option_bind at 1. rewrite Hc1, Ho1, count_bits.
  assert (wrap64 (Z.shiftl 0 3 + Z.shiftr (Z.of_nat (length msg)) 61) = 0) as ->.
  { rewrite Z.shiftr_div_pow2, Z.div_small by lia. reflexivity. }
  rewrite Hr3. unfold mbind, option_bind. by rewrite Est.
Qed.

Lemma words_good_md5 h : good (fun st => words 32 4 (take 4 st)) h ->
  take 4 (state (md5_transform md5nofloat h)) = md5_compress (take 4 (state h)) (take 64 (buffer h)) /\
  good (fun st => words 32 4 (take 4 st)) (md5_transform md5nofloat h) /\
  count (md5_transform md5nofloat h) = count h /\ overflow (md5_transform md5nofloat h) = overflow h.
Proof. intros (HI & Hbuf & Hl). destruct (md5_state h HI) as [E1 E2]. by split_and!. Qed.

Lemma sha1_count h : count (sha1_transform h) = count h /\ overflow (sha1_transform h) = overflow h.
Proof.
  unfold sha1_transform. match goal with |- context [foldl sha1_step ?a ?l] => generalize (foldl sha1_step a l) end.
  intros [[? ?] ?]. split; reflexivity.
Qed.

Lemma words_good_sha1 h : good (fun st => length st = 5%nat) h ->
  state (sha1_transform h) = sha1_compress (state h) (take 64 (buffer h)) /\
  good (fun st => length st = 5%nat) (sha1_transform h) /\
  count (sha1_transform h) = count h /\ overflow (sha1_transform h) = overflow h.
Proof.
  intros (HI & Hbuf & Hl). destruct (sha1_state h HI Hbuf Hl) as (E1 & E2 & E3). split; [exact E1|].
  split; [|exact (sha1_count h)].
  refine (conj _ (conj E2 E3)). rewrite E1. by apply sha1_compress_length.
Qed.

Lemma words_good_sha2_32 h : good (words 32 8) h ->
  let tr := sha2_32_transform ((fun k => Z.shiftr k 32) <$> take 64 sha512nofloat) in
  state (tr h) = sha2_compress sha256_params (state h) (take 64 (buffer h)) /\
  good (words 32 8) (tr h) /\ count (tr h) = count h /\ overflow (tr h) = overflow h.
Proof.
  intros (HI & Hbuf & Hl) tr. pose proof (sha2_32_state h HI Hbuf) as E. split_and!; [done| |done|done].
  split; [|done]. fold tr in E. rewrite E. by apply (sha2_compress_words sha256_params).
Qed.

Lemma words_good_sha2_64 h : good (words 64 8) h ->
  let tr := sha2_64_transform sha512nofloat in
  state (tr h) = sha2_compress sha512_params (state h) (take 128 (buffer h)) /\
  good (words 64 8) (tr h) /\ count (tr h) = count h /\ overflow (tr h) = overflow h.
Proof.
  intros (HI & Hbuf & Hl) tr. pose proof (sha2_64_state h HI Hbuf) as E. split_and!; [done| |done|done].
  split; [|done]. fold tr in E. rewrite E. by apply (sha2_compress_words sha512_params).
Qed.
End by_name.

(** ** The theorems *)

(** What the reads of a file may return: bytes, never nothing before the
    end, less than 2^61 of them in all. *)
Definition readable (reads : list (list Z)) : Prop :=
  Forall (Forall is_byte) reads /\ Forall (fun d => d <> []) reads /\
  Z.of_nat (length (concat reads)) < 2 ^ 61.

Lemma hex_words (pr : list Z -> list Z) f g n st l :
  pr st = l -> pr st = take n st -> (forall v, f v = hex (g v)) ->
  concat (f <$> take n st) = hex (concat (g <$> l)).
Proof.
  intros <- -> Hf. rewrite <- hex_concat. f_equal. apply list_fmap_ext. intros; apply Hf.
Qed.

Section digests.
Context (cfg : bool) (sin_table : list Z) (Hcfg : cfg = false \/ sin_table = md5nofloat).
Context (reads : list (list Z)) (Hreads : readable reads).
Abbreviation run name := (hash_by_name cfg sin_table (ascii_bytes name) reads).

Lemma toy_md5 : run "md5sum" = Some (hex (md5 (concat reads))).
Proof.
  destruct Hreads as (Hb & Hne & Hlen).
  destruct (by_name_32 cfg sin_table reads Hb Hne Hlen (ascii_bytes "md5sum") (take 4) md5_compress
    (fun st => words 32 4 (take 4 st)) 0 le_bytes8 eq_refl ltac:(lia) eq_refl) as (st & Hst & ->).
  - intros h Hh. change (transform_of cfg sin_table 0) with (md5_transform (if cfg then sin_table else md5nofloat)).
    assert ((if cfg then sin_table else md5nofloat) = md5nofloat) as ->
      by (destruct Hcfg as [-> | ->]; [done|by destruct cfg]).
    by apply words_good_md5.
  - split; [done|by repeat (constructor; [split; done|])].
  - apply f_equal. apply (hex_words (take 4) _ le_bytes4 4 st _ Hst eq_refl).
    intros v. change (0 =? 0) with true. cbv iota. by rewrite fmt_hex_be4, be_bytes4_bswap.
Qed.

(** The SHA functions on 32-bit words. *)
Lemma toy_sha32 name method compress I n :
  method_of (ascii_bytes name) = method -> 1 <= method <= 3 ->
  (forall h, good I h ->
    state (transform_of cfg sin_table method h) = compress (state h) (take 64 (buffer h)) /\
    good I (transform_of cfg sin_table method h) /\
    count (transform_of cfg sin_table method h) = count h /\
    overflow (transform_of cfg sin_table method h) = overflow h) ->
  I (state0 method) -> Z.to_nat (at_ [16; 20; 28; 32; 48; 64] (Z.to_nat method) / 4) = n ->
  run name = Some (hex (concat (be_bytes4 <$> take n (hash_blocks 64 compress (state0 method)
    (concat reads ++ padding 64 56 56 be_bytes8 (length (concat reads))))))).
Proof.
  intros Hm Hrange Htr HI Hn. destruct Hreads as (Hb & Hne & Hlen).
  assert ((method =? 0) = false) as E0 by (apply Z.eqb_neq; lia).
  destruct (by_name_32 cfg sin_table reads Hb Hne Hlen (ascii_bytes name) (fun l => l) compress
    I method be_bytes8 Hm ltac:(lia) ltac:(by rewrite E0) Htr HI) as (st & Hst & ->).
  apply f_equal. rewrite Hn, <- Hst.
  apply (hex_words (take n) _ be_bytes4 n st); [done|done|]. intros v. rewrite E0. apply fmt_hex_be4.
Qed.

Lemma toy_sha64 name method n :
  method_of (ascii_bytes name) = method -> 4 <= method <= 5 ->
  Z.to_nat (at_ [16; 20; 28; 32; 48; 64] (Z.to_nat method) / 8) = n ->
  run name = Some (hex (concat (be_bytes8 <$> take n (hash_blocks 128 (sha2_compress sha512_params)
    (state0 method) (concat reads ++ padding 128 112 120 be_bytes8 (length (concat reads))))))).
Proof.
  intros Hm Hrange Hn. destruct Hreads as (Hb & Hne & Hlen).
  rewrite (by_name_64 cfg sin_table reads Hb Hne Hlen (ascii_bytes name) (sha2_compress sha512_params)
    (words 64 8) method Hm ltac:(lia)).
  - apply f_equal. rewrite Hn. apply (hex_words (take n) _ be_bytes8 n); [done|done|]. apply fmt_hex_be8.
  - intros h Hh. assert (method = 4 \/ method = 5) as [-> | ->] by lia; by apply words_good_sha2_64.
  - assert (method = 4 \/ method = 5) as [-> | ->] by lia;
      (split; [done|by repeat (constructor; [split; done|])]).
Qed.

Lemma take8 P w l : 0 <= sw P -> sw P = w -> words w 8 l -> forall B b,
  take 8 (hash_blocks B (sha2_compress P) l b) = hash_blocks B (sha2_compress P) l b.
Proof.
  intros Hw <- Hl B b. apply take_ge.
  destruct (hash_blocks_inv B (sha2_compress P) (words (sw P) 8) l b) as [-> _]; [|done|done].
  intros. by apply sha2_compress_words.
Qed.
End digests.

(** C27: md5sum, sha256sum and sha512sum print, in hexadecimal, the digest
    musl's own MD5, SHA-256 and SHA-512 compute for the file's contents, for
    every way the file is cut into reads (the MD5 table being the one from the
    standard when it is computed with floating point). *)
Theorem toybox_agrees_with_musl cfg sin_table reads :
  readable reads -> cfg = false \/ sin_table = md5nofloat ->
  let sum := fun name => hash_by_name cfg sin_table (ascii_bytes name) reads in
  sum "md5sum"%string = Some (hex (md5_sum (md5_update (md5_init (replicate 64 0)) (concat reads)))) /\
  sum "sha256sum"%string = Some (hex (sha256_sum (sha256_update (sha256_init (replicate 64 0)) (concat reads)))) /\
  sum "sha512sum"%string = Some (hex (sha512_sum (sha512_update (sha512_init (replicate 128 0)) (concat reads)))).
Proof.
  intros Hreads Hcfg sum.
  pose proof (md5_sum_of [concat reads] (replicate 64 0) eq_refl) as E5.
  pose proof (sha256_sum_of [concat reads] (replicate 64 0) eq_refl) as E2.
  pose proof (sha512_sum_of [concat reads] (replicate 128 0) eq_refl) as E1.
  cbn [foldl concat] in E5, E2, E1. rewrite app_nil_r in E5, E2, E1. rewrite E5, E2, E1. subst sum. split_and!.
  - by apply toy_md5.
  - rewrite (toy_sha32 cfg sin_table reads Hreads "sha256sum" 3 (sha2_compress sha256_params) (words 32 8) 8);
      [|done|done|intros; by apply words_good_sha2_32|split; [done|by repeat (constructor; [split; done|])]|done].
    rewrite (take8 sha256_params 32); [done|done|done|split; [done|by repeat (constructor; [split; done|])]].
  - rewrite (toy_sha64 cfg sin_table reads Hreads "sha512sum" 5 8) by done.
    rewrite (take8 sha512_params 64); [done|done|done|split; [done|by repeat (constructor; [split; done|])]].
Qed.

(** Sha1sum, sha224sum and sha384sum print the digests of FIPS 180-4:
    SHA-1 although its code works in place through rotating pointers, SHA-224
    and SHA-384 as truncated SHA-2 from their own initial values (those of
    SHA-384 from the square roots of the ninth to sixteenth primes, those of
    SHA-224 their low halves). *)
Theorem toybox_sha_correct cfg sin_table reads :
  readable reads ->
  let sum := fun name => hash_by_name cfg sin_table (ascii_bytes name) reads in
  sum "sha1sum"%string = Some (hex (sha1 (concat reads))) /\
  sum "sha224sum"%string = Some (hex (sha224 (concat reads))) /\
  sum "sha384sum"%string = Some (hex (sha384 (concat reads))) /\
  roots_ok 2 64 (take 8 (drop 8 primes)) (state0 4) = true /\
  state0 2 = wrap32 <$> state0 4.
Proof.
  intros Hreads sum. subst sum. split_and!; [| | |reflexivity|reflexivity].
  - rewrite (toy_sha32 cfg sin_table reads Hreads "sha1sum" 1 sha1_compress (fun st => length st = 5%nat) 5);
      [|done|done|intros; by apply words_good_sha1|done|done].
    unfold sha1. rewrite take_ge; [done|].
    rewrite (hash_blocks_inv 64 sha1_compress (fun st => length st = 5%nat)); [done| |done].
    intros h b Hh. by apply sha1_compress_length.
  - by rewrite (toy_sha32 cfg sin_table reads Hreads "sha224sum" 2 (sha2_compress sha256_params) (words 32 8) 7);
      [|done|done|intros; by apply words_good_sha2_32|split; [done|by repeat (constructor; [split; done|])]|done].
  - by rewrite (toy_sha64 cfg sin_table reads Hreads "sha384sum" 4 6) by done.
Qed.

Definition demo_reads : list (list Z) := [[97]; [98; 99]].
Lemma demo_readable : readable demo_reads.
Proof. split_and!; [by repeat constructor|by repeat constructor|simpl; lia]. Qed.

Lemma toybox_agrees_with_musl_witness :
  hash_by_name false [] (ascii_bytes "sha256sum") demo_reads =
    Some (hex (sha256_sum (sha256_update (sha256_init (replicate 64 0)) [97; 98; 99]))).
Proof.
  exact (proj1 (proj2 (toybox_agrees_with_musl false [] demo_reads demo_readable (or_introl eq_refl)))).
Defined.

Lemma toybox_sha_correct_witness :
  hash_by_name false [] (ascii_bytes "sha1sum") demo_reads = Some (hex (sha1 [97; 98; 99])).
Proof. exact (proj1 (toybox_sha_correct false [] demo_reads demo_readable)). Defined.
