(* ===== verification/CryptSpec.v ===== *)
(** * CryptSpec: the password schemes as they are published

    SHA-crypt (U. Drepper) and MD5-crypt (P.-H. Kamp), over a hash function on
    whole messages: which settings are accepted, the digest, and the text it
    is printed as. Nothing here is taken from the code. Where musl deviates
    from the publications, as its comments say, it is musl's variant: keys of
    at most 256 (MD5: 30000) bytes, at most 9999999 rounds, and malformed
    rounds and salts that break /etc/shadow are rejected. *)

From Stdlib Require Import ZArith Lia Bool List String Ascii.
From stdpp Require Import base tactics numbers list.
From S2P Require Import Prelude.
Open Scope Z_scope.

(** The bytes of a string literal. *)
Definition str (s : string) : list Z := (fun c => Z.of_N (N_of_ascii c)) <$> list_ascii_of_string s.

(** ** Settings *)

Definition digit (c : Z) : Prop := 48 <= c <= 57.
Definition number (ds : list Z) : Z := foldl (fun a c => a * 10 + (c - 48)) 0 ds.
(** [ds] is the number [n], without leading zeros. *)
Definition decimal (n : Z) (ds : list Z) : Prop := Forall digit ds /\ number ds = n /\ head ds <> Some 48.

(** The rounds a text asks for, how they are printed, and what follows. *)
Inductive sha_rounds : list Z -> Z -> list Z -> list Z -> Prop :=
| rounds_default text : (forall t, text <> str "rounds=" ++ t) -> sha_rounds text 5000 [] text
| rounds_given ds shown rest : ds <> [] -> Forall digit ds -> number ds <= 9999999 -> decimal (Z.max 1000 (number ds)) shown ->
    sha_rounds (str "rounds=" ++ ds ++ str "$" ++ rest) (Z.max 1000 (number ds)) (str "rounds=" ++ shown ++ str "$") rest.

(** The salt ends at a ['$'] (36), at the end, or after [n] bytes. *)
Definition salt_of (n : nat) (text salt : list Z) : Prop :=
  exists rest, text = salt ++ rest /\ 36 ∉ salt /\ (length salt <= n)%nat /\ (length salt = n \/ rest = [] \/ head rest = Some 36).

(** ** Printing *)

(** The characters . and /, the digits, the capital and the small letters. *)
Definition char64 (v : Z) : Z := if v <? 12 then 46 + v else if v <? 38 then 53 + v else 59 + v.
(** Six bits at a time, the lowest first. *)
Definition group64 (n : nat) (w : Z) : list Z := (fun i => char64 ((w / 64 ^ Z.of_nat i) mod 64)) <$> seq 0 n.
Definition word24 (md : list Z) (a b c : nat) : Z := nth a md 0 * 65536 + nth b md 0 * 256 + nth c md 0.

(** The groups take a byte of each third, turned by one place from group to
    group, and what remains at the end. *)
Definition text256 (md : list Z) : list Z :=
  concat ((fun k => let byte j := (k + 10 * ((j + 2 * k) mod 3))%nat in group64 4 (word24 md (byte 0) (byte 1) (byte 2)))%nat <$> seq 0 10) ++
  group64 3 (nth 31 md 0 * 256 + nth 30 md 0).
Definition text512 (md : list Z) : list Z :=
  concat ((fun k => let byte j := (k + 21 * ((j + k) mod 3))%nat in group64 4 (word24 md (byte 0) (byte 1) (byte 2)))%nat <$> seq 0 21) ++
  group64 2 (nth 63 md 0).
(** MD5-crypt prints byte 5 in place of a byte 16. *)
Definition text5 (md : list Z) : list Z :=
  concat ((fun k => group64 4 (word24 md k (k + 6) (if k =? 4 then 5 else k + 12)))%nat <$> seq 0 5) ++ group64 2 (nth 11 md 0).

(** ** Digests *)

(** The first [n] bytes of [md], [md], [md], ... *)
Definition repeated (n : nat) (md : list Z) : list Z := take n (concat (replicate n md)).

(** [one] or [zero] for each binary digit of [n], the lowest first. *)
Fixpoint positive_bits (p : positive) : list bool :=
  match p with xH => [true] | xO p => false :: positive_bits p | xI p => true :: positive_bits p end.
Definition binary (n : nat) : list bool := match N.of_nat n with N0 => [] | Npos p => positive_bits p end.
Definition by_bits (n : nat) (one zero : list Z) : list Z := concat ((fun b : bool => if b then one else zero) <$> binary n).

(** A round, of the text [P] of the key and [S] of the salt. *)
Definition round_text (P S md : list Z) (i : nat) : list Z :=
  (if Nat.odd i then P else md) ++
  (if (i mod 3 =? 0)%nat then [] else S) ++
  (if (i mod 7 =? 0)%nat then [] else P) ++
  (if Nat.odd i then md else P).

Section digests.
Variable (hash : list Z -> list Z).

Definition rounds_of (P S md : list Z) (n : nat) : list Z := foldl (fun md i => hash (round_text P S md i)) md (seq 0 n).

Definition sha_digest (rounds : Z) (key salt : list Z) : list Z :=
  let n := length key in
  let B := hash (key ++ salt ++ key) in
  let A := hash (key ++ salt ++ repeated n B ++ by_bits n B key) in
  let P := repeated n (hash (concat (replicate n key))) in
  let S := repeated (length salt) (hash (concat (replicate (16 + Z.to_nat (nth 0 A 0)) salt))) in
  rounds_of P S A (Z.to_nat rounds).

Definition md5_digest (key salt : list Z) : list Z :=
  let n := length key in
  let B := hash (key ++ salt ++ key) in
  let A := hash (key ++ str "$1$" ++ salt ++ repeated n B ++ by_bits n [0] (take 1 key)) in
  rounds_of key salt A 1000.

(** ** The schemes *)

Definition sha_crypt (prefix : list Z) (print : list Z -> list Z) (key setting out : list Z) : Prop :=
  (length key <= 256)%nat /\ exists text rounds shown rest salt,
    setting = prefix ++ text /\ sha_rounds text rounds shown rest /\ salt_of 16 rest salt /\ 10 ∉ salt /\ 58 ∉ salt /\
    out = prefix ++ shown ++ salt ++ str "$" ++ print (sha_digest rounds key salt).

Definition md5_crypt (key setting out : list Z) : Prop :=
  (length key <= 30000)%nat /\ exists text salt,
    setting = str "$1$" ++ text /\ salt_of 8 text salt /\ out = str "$1$" ++ salt ++ str "$" ++ text5 (md5_digest key salt).
End digests.

(** ** Salts, byte by byte *)

Lemma salt_of_zero text salt : salt_of 0 text salt <-> salt = [].
Proof.
  split.
  - intros (rest & _ & _ & H & _). by destruct salt; [|simpl in H; lia].
  - intros ->. exists text. split_and!; [done|apply not_elem_of_nil|simpl; lia|by left].
Qed.
Lemma salt_of_nil n salt : salt_of n [] salt <-> salt = [].
Proof.
  split.
  - intros (rest & E & _). by destruct salt.
  - intros ->. exists []. split_and!; [done|apply not_elem_of_nil|simpl; lia|right; by left].
Qed.
Lemma salt_of_step n c text salt : salt_of (S n) (c :: text) salt <-> if c =? 36 then salt = [] else exists t, salt = c :: t /\ salt_of n text t.
Proof.
  destruct (Z.eqb_spec c 36) as [->|Hc].
  - split.
    + intros (rest & E & H & _). destruct salt as [|x salt]; [done|]. injection E as <- _. exfalso. apply H. apply elem_of_cons. by left.
    + intros ->. exists (36 :: text). split_and!; [done|apply not_elem_of_nil|simpl; lia|right; by right].
  - split.
    + intros (rest & E & H & Hl & He). destruct salt as [|x salt].
      { cbn [app] in E. subst rest. cbn [head] in He. destruct He as [He|[He|He]]; [simpl in He; lia|done|congruence]. }
      injection E as -> ->. exists salt. split; [done|]. exists rest. apply not_elem_of_cons in H as [_ H]. simpl in Hl, He. split_and!; [done|done|lia|]. destruct He as [He|He]; [left; lia|by right].
    + intros (t & -> & rest & -> & H & Hl & He). exists rest. split_and!; [done|apply not_elem_of_cons; split; [congruence|done]|simpl; lia|]. destruct He as [He|He]; [left; simpl; lia|by right].
Qed.

(** ** A number has one decimal text *)

Lemma number_app ds d : number (ds ++ [d]) = number ds * 10 + (d - 48).
Proof. unfold number. by rewrite foldl_app. Qed.

Lemma number_range ds : Forall digit ds -> 0 <= number ds < 10 ^ Z.of_nat (length ds).
Proof.
  induction ds as [|d ds IH] using rev_ind; [done|]. intros H. apply Forall_app in H as [H Hd]. apply Forall_inv in Hd. unfold digit in Hd.
  rewrite number_app, length_app, Nat.add_1_r, Nat2Z.inj_succ, Z.pow_succ_r by lia. specialize (IH H). lia.
Qed.

Lemma number_inj ds1 : forall ds2, Forall digit ds1 -> Forall digit ds2 -> length ds1 = length ds2 -> number ds1 = number ds2 -> ds1 = ds2.
Proof.
  induction ds1 as [|d ds1 IH] using rev_ind; intros ds2 H1 H2 Hl E; [by destruct ds2|].
  destruct ds2 as [|d2 ds2 _] using rev_ind; [by rewrite length_app in Hl; simpl in Hl; lia|].
  apply Forall_app in H1 as [H1 Hd1], H2 as [H2 Hd2]. apply Forall_inv in Hd1, Hd2. unfold digit in *.
  rewrite !number_app in E. rewrite !length_app in Hl. simpl in Hl. rewrite (IH ds2) by (done || lia). f_equal. f_equal. lia.
Qed.

Lemma number_leading d ds : number (d :: ds) = (d - 48) * 10 ^ Z.of_nat (length ds) + number ds.
Proof.
  induction ds as [|x ds IH] using rev_ind; [unfold number; simpl; lia|].
  rewrite app_comm_cons, !number_app, IH, length_app, Nat.add_1_r, Nat2Z.inj_succ, Z.pow_succ_r by lia. lia.
Qed.

Lemma decimal_low n ds : 0 < n -> decimal n ds -> (0 < length ds)%nat /\ 10 ^ Z.of_nat (length ds - 1) <= n < 10 ^ Z.of_nat (length ds).
Proof.
  intros Hn (Hd & <- & Hz). pose proof (number_range ds Hd). destruct ds as [|d ds]; [done|]. split; [simpl; lia|]. split; [|lia].
  pose proof (Forall_inv Hd) as Hd0. apply Forall_inv_tail in Hd. pose proof (number_range ds Hd). unfold digit in Hd0. cbn [head] in Hz.
  rewrite number_leading. replace (length (d :: ds) - 1)%nat with (length ds) by (simpl; lia). assert (d <> 48) by congruence. nia.
Qed.

Lemma decimal_unique n ds1 ds2 : 0 < n -> decimal n ds1 -> decimal n ds2 -> ds1 = ds2.
Proof.
  intros Hn H1 H2. destruct (decimal_low n ds1 Hn H1) as [L1 B1], (decimal_low n ds2 Hn H2) as [L2 B2]. destruct H1 as (D1 & N1 & _), H2 as (D2 & N2 & _).
  apply number_inj; [done|done| |congruence].
  destruct (Nat.lt_trichotomy (length ds1) (length ds2)) as [H|[H|H]]; [|done|].
  - pose proof (Z.pow_le_mono_r 10 (Z.of_nat (length ds1)) (Z.of_nat (length ds2 - 1)) ltac:(lia) ltac:(lia)). lia.
  - pose proof (Z.pow_le_mono_r 10 (Z.of_nat (length ds2)) (Z.of_nat (length ds1 - 1)) ltac:(lia) ltac:(lia)). lia.
Qed.
