(* ===== verification/CryptHash.v ===== *)
(** * CryptHash: password hashing, toolchain/musl-1.2.5/src/crypt

    sha256crypt, sha512crypt and md5crypt: parsing of the setting, the rounds,
    the base-64 output.  C strings are lists of nonzero bytes; the hash
    functions are used through the interface [HashAlg], which MD5, SHA-256 and
    SHA-512 implement. *)

From Stdlib Require Import ZArith Lia Bool List String Ascii.
From stdpp Require Import base tactics numbers list option sets.
From S2P Require Import Prelude BlockHash Sha2Spec Sha256 Sha512 Md5 CryptSpec.
Open Scope Z_scope.

(** ** What the password schemes ask of a hash function *)

Class HashAlg := {
  h_block : nat;
  h_len : nat;
  h_init : list Z -> hash_ctx;
  h_update : hash_ctx -> list Z -> hash_ctx;
  h_sum : hash_ctx -> list Z;
  h_digest : list Z -> list Z;
  h_law : forall b msgs, length b = h_block ->
    h_sum (foldl h_update (h_init b) msgs) = h_digest (concat msgs);
  h_digest_len : forall m, length (h_digest m) = h_len;
  h_digest_bytes : forall m, Forall is_byte (h_digest m)
}.

Definition DOLLAR : Z := 36.

Definition b64 : list Z := str "./0123456789ABCDEFGHIJKLMNOPQRSTUVWXYZabcdefghijklmnopqrstuvwxyz".

(** The [n] characters [to64] stores. *)
Fixpoint to64 (u : Z) (n : nat) : list Z :=
  match n with O => [] | S n => at_ b64 (Z.to_nat (u `mod` 64)) :: to64 (u / 64) n end.

Definition KEY_MAX : nat := 256.
Definition SALT_MAX : nat := 16.
Definition ROUNDS_DEFAULT : Z := 5000.
Definition ROUNDS_MIN : Z := 1000.
Definition ROUNDS_MAX : Z := 9999999.

(** [strncmp(s, p, strlen(p)) == 0] *)
Definition has_prefix (p s : list Z) : bool := bool_decide (take (length p) s = p).

Definition isdigit (c : Z) : bool := (48 <=? c) && (c <=? 57).

(** [strtoul(s, &end, 10)] of a string that starts with a digit. *)
Fixpoint strtoul (acc : Z) (s : list Z) : Z * list Z :=
  match s with
  | c :: s' => if isdigit c then strtoul (Z.min (acc * 10 + (c - 48)) (2 ^ 64 - 1)) s' else (acc, s)
  | [] => (acc, [])
  end.

(** [%u] *)
Fixpoint fmt_u (n : nat) (v : Z) (acc : list Z) : list Z :=
  match n with
  | O => acc
  | S n => let acc := 48 + v `mod` 10 :: acc in if v / 10 =? 0 then acc else fmt_u n (v / 10) acc
  end.

(** The salt: up to sixteen bytes, up to a ['$']; [None] for a newline or a
    colon in it. *)
Fixpoint scan_salt (n : nat) (s : list Z) : option (list Z) :=
  match n, s with
  | S n, c :: s =>
      if c =? DOLLAR then Some []
      else if (c =? 10) || (c =? 58) then None
      else t ← scan_salt n s; Some (c :: t)
  | _, _ => Some []
  end.

(** The setting after its prefix: rounds, the text printed for them, salt. *)
Definition parse_setting (prefix setting : list Z) : option (Z * list Z * list Z) :=
  if negb (has_prefix prefix setting) then None else
  let salt := drop 3 setting in
  '(r, rounds, salt) ←
    (if has_prefix (str "rounds=") salt then
       let salt := drop 7 salt in
       if negb (isdigit (at_ salt 0)) then None else
       let '(u, rest) := strtoul 0 salt in
       match rest with
       | c :: salt =>
           if negb (c =? DOLLAR) then None
           else if ROUNDS_MAX <? u then None
           else let r := if u <? ROUNDS_MIN then ROUNDS_MIN else u in
                Some (r, str "rounds=" ++ fmt_u 20 r [] ++ [DOLLAR], salt)
       | [] => None
       end
     else Some (ROUNDS_DEFAULT, [], salt));
  salt ← scan_salt SALT_MAX salt;
  Some (r, rounds, salt).

Section shacrypt.
Context {A : HashAlg}.
(** What the block buffer of the uninitialised context holds. *)
Context (junk : list Z).

(** Hash [n] bytes of the repeated digest [md]. *)
Fixpoint hashmd_loop (fuel : nat) (s : hash_ctx) (i : nat) (md : list Z) : hash_ctx * nat :=
  match fuel with
  | O => (s, i)
  | S fuel => if (h_len <? i)%nat then hashmd_loop fuel (h_update s md) (i - h_len) md else (s, i)
  end.
Definition hashmd (s : hash_ctx) (n : nat) (md : list Z) : hash_ctx :=
  let '(s, i) := hashmd_loop n s n md in h_update s (take i md).

(** [for (i = klen; i > 0; i >>= 1)] *)
Fixpoint bit_loop (fuel : nat) (one zero : list Z) (s : hash_ctx) (i : nat) : hash_ctx :=
  match fuel with
  | O => s
  | S fuel =>
      if (0 <? i)%nat then
        bit_loop fuel one zero (h_update s (if Nat.odd i then one else zero)) (Nat.div2 i)
      else s
  end.

Definition sha_round (klen slen : nat) (kmd smd md : list Z) (i : nat) : list Z :=
  let ctx := h_init junk in
  let ctx := if negb (i `mod` 2 =? 0)%nat then hashmd ctx klen kmd else h_update ctx md in
  let ctx := if negb (i `mod` 3 =? 0)%nat then h_update ctx (take slen smd) else ctx in
  let ctx := if negb (i `mod` 7 =? 0)%nat then hashmd ctx klen kmd else ctx in
  let ctx := if negb (i `mod` 2 =? 0)%nat then h_update ctx md else hashmd ctx klen kmd in
  h_sum ctx.

(** The bytes of the digest in the order they are printed. *)
Definition shacrypt (prefix : list Z) (output64 : list Z -> list Z) (key setting : list Z) : option (list Z) :=
  let klen := length key in
  if (KEY_MAX <? klen)%nat then None else
  '(r, rounds, salt) ← parse_setting prefix setting;
  let slen := length salt in
  (* B = sha(key salt key) *)
  let ctx := h_update (h_update (h_update (h_init junk) key) salt) key in
  let md := h_sum ctx in
  (* A = sha(key salt repeat-B alternate-B-key) *)
  let ctx := h_update (h_update (h_init junk) key) salt in
  let ctx := hashmd ctx klen md in
  let ctx := bit_loop (S klen) md key ctx klen in
  let md := h_sum ctx in
  (* DP = sha(repeat-key) *)
  let ctx := foldl (fun ctx _ => h_update ctx key) (h_init junk) (seq 0 klen) in
  let kmd := h_sum ctx in
  (* DS = sha(repeat-salt) *)
  let ctx := foldl (fun ctx _ => h_update ctx salt) (h_init junk) (seq 0 (16 + Z.to_nat (at_ md 0))) in
  let smd := h_sum ctx in
  let md := foldl (sha_round klen slen kmd smd) md (seq 0 (Z.to_nat r)) in
  Some (prefix ++ rounds ++ salt ++ [DOLLAR] ++ output64 md).
End shacrypt.

(** [to64] of three bytes of the digest each, in the order of [perm]. *)
Definition out3 (md : list Z) (p : nat * nat * nat) : list Z :=
  let '(a, b, c) := p in
  to64 (Z.lor (Z.lor (Z.shiftl (at_ md a) 16) (Z.shiftl (at_ md b) 8)) (at_ md c)) 4.

(** ** The three schemes *)

Lemma concat_bytes (f : Z -> list Z) l : (forall v, Forall is_byte (f v)) -> Forall is_byte (concat (f <$> l)).
Proof. intros Hf. induction l as [|v l IH]; [apply List.Forall_nil|]. apply Forall_app. by split. Qed.
Lemma word_bytes v : Forall is_byte (be_bytes4 v) /\ Forall is_byte (be_bytes8 v) /\ Forall is_byte (le_bytes4 v).
Proof. split_and!; (repeat apply List.Forall_cons; try apply List.Forall_nil; apply (wrap_range 8); lia). Qed.

#[export] Instance sha256_alg : HashAlg.
Proof.
  refine {| h_block := 64; h_len := 32; h_init := sha256_init; h_update := sha256_update;
    h_sum := sha256_sum; h_digest := sha256 |}.
  - intros b msgs Hb. by apply sha256_sum_of.
  - intros m. unfold sha256.
    pose proof (hash_blocks_inv 64 (sha2_compress sha256_params) (fun h => length h = 8%nat) (hs (sha256_init []))
      (m ++ padding 64 56 56 be_bytes8 (length m)) Sha256.sha256_compress_length eq_refl) as Hl.
    destruct (list8 _ Hl) as (a & b & c & d & e & f & g & h & ->). reflexivity.
  - intros m. unfold sha256. exact (concat_bytes be_bytes4 _ (fun v => proj1 (word_bytes v))).
Defined.

#[export] Instance sha512_alg : HashAlg.
Proof.
  refine {| h_block := 128; h_len := 64; h_init := sha512_init; h_update := sha512_update;
    h_sum := sha512_sum; h_digest := sha512 |}.
  - intros b msgs Hb. by apply sha512_sum_of.
  - intros m. unfold sha512.
    pose proof (hash_blocks_inv 128 (sha2_compress sha512_params) (fun h => length h = 8%nat) (hs (sha512_init []))
      (m ++ padding 128 112 120 be_bytes8 (length m)) Sha512.sha512_compress_length eq_refl) as Hl.
    destruct (list8 _ Hl) as (a & b & c & d & e & f & g & h & ->). reflexivity.
  - intros m. unfold sha512. exact (concat_bytes be_bytes8 _ (fun v => proj1 (proj2 (word_bytes v)))).
Defined.

#[export] Instance md5_alg : HashAlg.
Proof.
  refine {| h_block := 64; h_len := 16; h_init := md5_init; h_update := md5_update;
    h_sum := md5_sum; h_digest := md5 |}.
  - intros b msgs Hb. by apply md5_sum_of.
  - intros m. unfold md5.
    pose proof (hash_blocks_inv 64 md5_compress (fun h => length h = 4%nat) (hs (md5_init []))
      (m ++ padding 64 56 56 le_bytes8 (length m)) Md5.md5_compress_length eq_refl) as Hl.
    destruct (list4 _ Hl) as (a & b & c & d & ->). reflexivity.
  - intros m. unfold md5. exact (concat_bytes le_bytes4 _ (fun v => proj2 (proj2 (word_bytes v)))).
Defined.

Definition perm256 : list (nat * nat * nat) :=
  [(0,10,20); (21,1,11); (12,22,2); (3,13,23); (24,4,14);
   (15,25,5); (6,16,26); (27,7,17); (18,28,8); (9,19,29)]%nat.
Definition output256 (md : list Z) : list Z :=
  concat (out3 md <$> perm256) ++ to64 (Z.lor (Z.shiftl (at_ md 31) 8) (at_ md 30)) 3.
Definition sha256crypt (junk key setting : list Z) : option (list Z) :=
  shacrypt (A := sha256_alg) junk (str "$5$") output256 key setting.

Definition perm512 : list (nat * nat * nat) :=
  [(0,21,42); (22,43,1); (44,2,23); (3,24,45); (25,46,4);
   (47,5,26); (6,27,48); (28,49,7); (50,8,29); (9,30,51);
   (31,52,10); (53,11,32); (12,33,54); (34,55,13); (56,14,35);
   (15,36,57); (37,58,16); (59,17,38); (18,39,60); (40,61,19);
   (62,20,41)]%nat.
Definition output512 (md : list Z) : list Z := concat (out3 md <$> perm512) ++ to64 (at_ md 63) 2.
Definition sha512crypt (junk key setting : list Z) : option (list Z) :=
  shacrypt (A := sha512_alg) junk (str "$6$") output512 key setting.

Lemma sha256_long : (16 <= h_len (HashAlg := sha256_alg))%nat.
Proof. simpl. lia. Qed.
Lemma sha512_long : (16 <= h_len (HashAlg := sha512_alg))%nat.
Proof. simpl. lia. Qed.

(** md5crypt *)

Definition MD5_KEY_MAX : nat := 30000.
Definition MD5_SALT_MAX : nat := 8.

Fixpoint scan_salt1 (n : nat) (s : list Z) : list Z :=
  match n, s with
  | S n, c :: s => if c =? DOLLAR then [] else c :: scan_salt1 n s
  | _, _ => []
  end.

Definition md5_round (junk key salt md : list Z) (i : nat) : list Z :=
  let ctx := md5_init junk in
  let ctx := md5_update ctx (if negb (i `mod` 2 =? 0)%nat then key else md) in
  let ctx := if negb (i `mod` 3 =? 0)%nat then md5_update ctx salt else ctx in
  let ctx := if negb (i `mod` 7 =? 0)%nat then md5_update ctx key else ctx in
  let ctx := md5_update ctx (if negb (i `mod` 2 =? 0)%nat then md else key) in
  md5_sum ctx.

Definition perm5 : list (nat * nat * nat) :=
  [(0,6,12); (1,7,13); (2,8,14); (3,9,15); (4,10,5)]%nat.

Definition md5crypt (junk key setting : list Z) : option (list Z) :=
  let klen := length key in
  if (MD5_KEY_MAX <? klen)%nat then None else
  if negb (has_prefix (str "$1$") setting) then None else
  let salt := scan_salt1 MD5_SALT_MAX (drop 3 setting) in
  let slen := length salt in
  (* md5(key salt key) *)
  let ctx := md5_update (md5_update (md5_update (md5_init junk) key) salt) key in
  let md := md5_sum ctx in
  (* md5(key $1$ salt repeated-md weird-key[0]-0) *)
  let ctx := md5_update (md5_update (md5_init junk) key) (take (3 + slen) setting) in
  let ctx := hashmd (A := md5_alg) ctx klen md in
  let md := <[0%nat := 0]> md in
  let ctx := bit_loop (A := md5_alg) (S klen) (take 1 md) (take 1 key) ctx klen in
  let md := md5_sum ctx in
  let md := foldl (md5_round junk key salt) md (seq 0 1000) in
  Some (take (3 + slen) setting ++ [DOLLAR] ++ concat (out3 md <$> perm5) ++ to64 (at_ md 11) 2).

(** ** Parsing *)

Lemma scan_salt_iff n : forall text salt, scan_salt n text = Some salt <-> salt_of n text salt /\ 10 ∉ salt /\ 58 ∉ salt.
Proof.
  induction n as [|n IH]; intros text salt.
  - rewrite salt_of_zero. cbn [scan_salt]. split; [intros [= <-]; set_solver|by intros [-> _]].
  - destruct text as [|c text]; cbn [scan_salt]; [rewrite salt_of_nil; split; [intros [= <-]; set_solver|by intros [-> _]]|].
    rewrite salt_of_step. change DOLLAR with 36. destruct (c =? 36); [split; [intros [= <-]; set_solver|by intros [-> _]]|].
    destruct (Z.eqb_spec c 10) as [->|H10]; cbn [orb].
    { split; [done|]. intros ((t & -> & _) & H & _). exfalso. set_solver. }
    destruct (Z.eqb_spec c 58) as [->|H58].
    { split; [done|]. intros ((t & -> & _) & _ & H). exfalso. set_solver. }
    rewrite bind_Some. setoid_rewrite IH. split.
    + intros (t & (Ht & ? & ?) & [= <-]). split; [by exists t|]. set_solver.
    + intros ((t & -> & Ht) & ? & ?). exists t. set_solver.
Qed.

Lemma scan_salt1_iff n : forall text salt, scan_salt1 n text = salt <-> salt_of n text salt.
Proof.
  induction n as [|n IH]; intros text salt; [rewrite salt_of_zero; cbn [scan_salt1]; naive_solver|].
  destruct text as [|c text]; cbn [scan_salt1]; [rewrite salt_of_nil; naive_solver|].
  rewrite salt_of_step. change DOLLAR with 36. destruct (c =? 36); [naive_solver|]. setoid_rewrite <- IH. naive_solver.
Qed.

Lemma parse_setting_salt prefix setting r shown salt : parse_setting prefix setting = Some (r, shown, salt) -> (length salt <= 16)%nat.
Proof.
  unfold parse_setting. destruct (negb _); [done|]. intros E. apply bind_Some in E as ([[r' rounds'] text] & _ & E2).
  apply bind_Some in E2 as (salt' & E2 & [= -> -> ->]). by apply scan_salt_iff in E2 as [(rest & _ & _ & Hl & _) _].
Qed.

(** ** The schemes on whole messages *)

(** With a one-shot hash. *)
Definition shacrypt_text (hash : list Z -> list Z) (prefix : list Z) (output64 : list Z -> list Z)
    (key setting : list Z) : option (list Z) :=
  if (KEY_MAX <? length key)%nat then None else
  '(r, rounds, salt) ← parse_setting prefix setting;
  Some (prefix ++ rounds ++ salt ++ [DOLLAR] ++ output64 (sha_digest hash r key salt)).

Lemma odd_mod i : negb (i mod 2 =? 0)%nat = Nat.odd i.
Proof.
  destruct (Nat.Even_or_Odd i) as [[k ->]|[k ->]].
  - rewrite Nat.odd_mul, Nat.mul_comm, Nat.Div0.mod_mul. done.
  - rewrite Nat.add_comm, Nat.odd_add_mul_2. rewrite (Nat.mul_comm 2), Nat.Div0.mod_add. done.
Qed.
Lemma if_negb {A} (b : bool) (x y : A) : (if negb b then x else y) = if b then y else x.
Proof. by destruct b. Qed.

Lemma binary_step i : (0 < i)%nat -> binary i = Nat.odd i :: binary (Nat.div2 i).
Proof.
  intros Hi. unfold binary. rewrite Nat2N.inj_div2. destruct (N.of_nat i) as [|p] eqn:E; [lia|].
  assert (i = Pos.to_nat p) as -> by lia. clear.
  destruct p as [p|p|]; cbn [positive_bits N.div2]; [rewrite Pos2Nat.inj_xI|rewrite Pos2Nat.inj_xO|done]; f_equal.
  - by rewrite <- Nat.add_1_l, Nat.odd_add_mul_2.
  - by rewrite Nat.odd_mul.
Qed.

Section feeding.
Context {A : HashAlg} (junk : list Z) (Hjunk : length junk = h_block) (Hlen : (16 <= h_len)%nat).

(** [f] feeds the text [m] to a context. *)
Definition feeds (f : hash_ctx -> hash_ctx) (m : list Z) : Prop :=
  forall s, exists ms, f s = foldl h_update s ms /\ concat ms = m.

Lemma feeds_sum f m : feeds f m -> h_sum (f (h_init junk)) = h_digest m.
Proof. intros Hf. destruct (Hf (h_init junk)) as (ms & -> & <-). by apply h_law. Qed.

Lemma feeds_update m : feeds (fun s => h_update s m) m.
Proof. intros s. exists [m]. simpl. by rewrite app_nil_r. Qed.

Lemma feeds_id : feeds (fun s => s) [].
Proof. intros s. by exists []. Qed.

Lemma feeds_comp f g m1 m2 : feeds f m1 -> feeds g m2 -> feeds (fun s => g (f s)) (m1 ++ m2).
Proof.
  intros Hf Hg s. destruct (Hf s) as (ms1 & E1 & <-). destruct (Hg (f s)) as (ms2 & E2 & <-).
  exists (ms1 ++ ms2). by rewrite foldl_app, <- E1, concat_app.
Qed.

Lemma feeds_if (b : bool) f g m1 m2 :
  feeds f m1 -> feeds g m2 -> feeds (fun s => if b then f s else g s) (if b then m1 else m2).
Proof. by destruct b. Qed.

Lemma feeds_repeat m js : feeds (fun s => foldl (fun s (_ : nat) => h_update s m) s js) (concat (replicate (length js) m)).
Proof.
  induction js as [|j js IH]; [apply feeds_id|].
  exact (feeds_comp _ _ m _ (feeds_update m) IH).
Qed.

Lemma repeated_step n md : length md = h_len -> (h_len < n)%nat -> repeated n md = md ++ repeated (n - h_len) md.
Proof.
  intros Hl Hn. unfold repeated. destruct n as [|n]; [lia|]. simpl. rewrite take_app_ge by lia. f_equal. rewrite Hl.
  assert (forall k1 k2 i, (i <= k1)%nat -> (i <= k2)%nat ->
    take i (concat (replicate k1 md)) = take i (concat (replicate k2 md))) as H.
  { clear Hn. induction k1 as [|k1 IH]; intros k2 i H1 H2; [by replace i with 0%nat by lia|].
    destruct k2 as [|k2]; [by replace i with 0%nat by lia|]. simpl.
    destruct (decide (i <= length md)%nat).
    - by rewrite !take_app_le by lia.
    - rewrite !take_app_ge by lia. f_equal. apply IH; lia. }
  apply H; lia.
Qed.

Lemma repeated_short n md : (n <= length md)%nat -> repeated n md = take n md.
Proof. intros Hn. unfold repeated. destruct n; [done|]. simpl. by rewrite take_app_le by lia. Qed.

Lemma feeds_hashmd n md : length md = h_len -> feeds (fun s => hashmd s n md) (repeated n md).
Proof.
  intros Hl. unfold hashmd.
  assert (forall fuel i, (i <= fuel)%nat -> feeds (fun s =>
    let '(s, i) := hashmd_loop fuel s i md in h_update s (take i md)) (repeated i md)) as H.
  { induction fuel as [|fuel IH]; intros i Hi; simpl.
    - replace i with 0%nat by lia. apply (feeds_update []).
    - destruct (Nat.ltb_spec h_len i) as [Hlt|Hge].
      + rewrite repeated_step by done. refine (feeds_comp _ _ md _ (feeds_update md) (IH (i - h_len)%nat _)). lia.
      + rewrite repeated_short by lia. apply feeds_update. }
  by apply H.
Qed.

Lemma feeds_bits fuel one zero i : (i < fuel)%nat -> feeds (fun s => bit_loop fuel one zero s i) (by_bits i one zero).
Proof.
  revert i. induction fuel as [|fuel IH]; intros i Hi; [lia|]. cbn [bit_loop]. destruct (Nat.ltb_spec 0 i) as [Hpos|Hz].
  - unfold by_bits. rewrite binary_step by done. cbn [fmap list_fmap concat].
    refine (feeds_comp _ _ _ _ (feeds_update _) (IH _ _)). pose proof (Nat.lt_div2 i Hpos). lia.
  - replace i with 0%nat by lia. apply feeds_id.
Qed.

Lemma sha_round_correct klen slen kmd smd md i :
  length kmd = h_len -> length smd = h_len -> (slen <= 16)%nat ->
  sha_round junk klen slen kmd smd md i = h_digest (round_text (repeated klen kmd) (repeated slen smd) md i).
Proof.
  intros Hk Hs Hsl. unfold sha_round, round_text. rewrite odd_mod, !if_negb, (repeated_short slen) by lia.
  set (b2 := Nat.odd i). set (b3 := (i mod 3 =? 0)%nat). set (b7 := (i mod 7 =? 0)%nat).
  pose proof (feeds_hashmd klen kmd Hk) as HP. pose proof (feeds_update md) as HM.
  pose proof (feeds_if b2 _ _ _ _ HP HM) as F1.
  pose proof (feeds_if b3 _ _ _ _ feeds_id (feeds_update (take slen smd))) as F2.
  pose proof (feeds_if b7 _ _ _ _ feeds_id HP) as F3.
  pose proof (feeds_if b2 _ _ _ _ HM HP) as F4.
  exact (feeds_sum _ _ (feeds_comp _ _ _ _ F1 (feeds_comp _ _ _ _ F2 (feeds_comp _ _ _ _ F3 F4)))).
Qed.

Lemma shacrypt_correct prefix output64 key setting :
  shacrypt junk prefix output64 key setting = shacrypt_text h_digest prefix output64 key setting.
Proof.
  unfold shacrypt, shacrypt_text. destruct (_ <? _)%nat; [done|].
  destruct (parse_setting prefix setting) as [[[r rounds] salt]|] eqn:E; [|done]. apply parse_setting_salt in E.
  unfold mbind, option_bind, sha_digest, rounds_of. cbv beta iota zeta.
  rewrite (feeds_sum (fun s => h_update (h_update (h_update s key) salt) key) (key ++ salt ++ key)).
  2: { exact (feeds_comp _ _ _ _ (feeds_update key) (feeds_comp _ _ _ _ (feeds_update salt) (feeds_update key))). }
  set (B := h_digest (key ++ salt ++ key)).
  rewrite (feeds_sum (fun s => bit_loop (S (length key)) B key (hashmd (h_update (h_update s key) salt) (length key) B) (length key))
    (key ++ salt ++ repeated (length key) B ++ by_bits (length key) B key)).
  2: { exact (feeds_comp _ _ _ _ (feeds_update key) (feeds_comp _ _ _ _ (feeds_update salt)
         (feeds_comp _ _ _ _ (feeds_hashmd _ B (h_digest_len _)) (feeds_bits _ B key (length key) (Nat.lt_succ_diag_r _))))). }
  set (A' := h_digest _).
  rewrite (feeds_sum (fun s => foldl (fun ctx _ => h_update ctx key) s (seq 0 (length key)))
    (concat (replicate (length key) key))).
  2: { pose proof (feeds_repeat key (seq 0 (length key))) as E'. by rewrite length_seq in E'. }
  set (DP := h_digest (concat _)). unfold at_.
  rewrite (feeds_sum (fun s => foldl (fun ctx _ => h_update ctx salt) s (seq 0 (16 + Z.to_nat (nth 0 A' 0))))
    (concat (replicate (16 + Z.to_nat (nth 0 A' 0)) salt))).
  2: { pose proof (feeds_repeat salt (seq 0 (16 + Z.to_nat (nth 0 A' 0)))) as E'. by rewrite length_seq in E'. }
  set (DS := h_digest (concat _)).
  do 6 f_equal.
  assert (forall js md, foldl (sha_round junk (length key) (length salt) DP DS) md js =
    foldl (fun md i => h_digest (round_text (repeated (length key) DP) (repeated (length salt) DS) md i)) md js) as H.
  { induction js as [|i js IH]; intros md; [done|]. cbn [foldl].
    rewrite sha_round_correct by (done || apply h_digest_len). apply IH. }
  apply H.
Qed.
End feeding.

(** md5crypt on whole messages. *)
Definition md5crypt_text (key setting : list Z) : option (list Z) :=
  if (MD5_KEY_MAX <? length key)%nat then None else
  if negb (has_prefix (str "$1$") setting) then None else
  let salt := scan_salt1 MD5_SALT_MAX (drop 3 setting) in
  let R := md5_digest md5 key salt in
  Some (take (3 + length salt) setting ++ [DOLLAR] ++ concat (out3 R <$> perm5) ++ to64 (at_ R 11) 2).

(** State the goal through the interface. *)
Lemma md5_alg_ops :
  md5_sum = @h_sum md5_alg /\ md5_update = @h_update md5_alg /\ md5_init = @h_init md5_alg /\
  md5 = @h_digest md5_alg.
Proof. by split_and!. Qed.
Ltac md5_interface :=
  let E1 := fresh in let E2 := fresh in let E3 := fresh in let E4 := fresh in
  destruct md5_alg_ops as (E1 & E2 & E3 & E4); rewrite ?E1, ?E2, ?E3, ?E4; clear E1 E2 E3 E4.

Lemma md5_round_correct junk key salt md i :
  length junk = 64%nat -> md5_round junk key salt md i = md5 (round_text key salt md i).
Proof.
  intros Hj. unfold md5_round, round_text. rewrite odd_mod, !if_negb. md5_interface.
  set (b2 := Nat.odd i). set (b3 := (i mod 3 =? 0)%nat). set (b7 := (i mod 7 =? 0)%nat).
  pose proof (feeds_update (A := md5_alg) (if b2 then key else md)) as F1.
  pose proof (feeds_if (A := md5_alg) b3 _ _ _ _ feeds_id (feeds_update salt)) as F2.
  pose proof (feeds_if (A := md5_alg) b7 _ _ _ _ feeds_id (feeds_update key)) as F3.
  pose proof (feeds_update (A := md5_alg) (if b2 then md else key)) as F4.
  exact (feeds_sum (A := md5_alg) junk Hj _ _ (feeds_comp _ _ _ _ F1 (feeds_comp _ _ _ _ F2 (feeds_comp _ _ _ _ F3 F4)))).
Qed.

(** The prefix and the salt at the front of a setting. *)
Lemma setting_salt setting : has_prefix (str "$1$") setting = true -> let salt := scan_salt1 MD5_SALT_MAX (drop 3 setting) in
  take (3 + length salt) setting = str "$1$" ++ salt.
Proof.
  intros Hp salt. unfold has_prefix in Hp. apply bool_decide_eq_true in Hp. change (length (str "$1$")) with 3%nat in Hp.
  pose proof (proj1 (scan_salt1_iff MD5_SALT_MAX (drop 3 setting) salt) eq_refl) as (rest & E & _).
  rewrite <- (take_drop 3 setting), Hp, E. change (3 + length salt)%nat with (length (str "$1$") + length salt)%nat.
  rewrite take_app_add, take_app_length. done.
Qed.

Lemma md5crypt_correct junk key setting :
  length junk = 64%nat -> md5crypt junk key setting = md5crypt_text key setting.
Proof.
  intros Hj. unfold md5crypt, md5crypt_text. destruct (_ <? _)%nat; [done|]. destruct (has_prefix _ _) eqn:Hp; [|done]. cbn [negb].
  cbv zeta. apply setting_salt in Hp. cbv zeta in Hp. set (salt := scan_salt1 _ _) in *. unfold md5_digest, rounds_of. rewrite Hp. md5_interface.
  pose proof (feeds_sum (A := md5_alg) junk Hj _ _ (feeds_comp _ _ _ _ (feeds_update key)
    (feeds_comp _ _ _ _ (feeds_update salt) (feeds_update key)))) as E. cbv beta in E.
  rewrite E. clear E.
  set (B := h_digest (key ++ salt ++ key)).
  assert (length B = 16%nat) as HB by apply (h_digest_len (HashAlg := md5_alg)).
  assert (take 1 (<[0%nat:=0]> B) = [0]) as -> by (destruct B; [done|reflexivity]).
  set (pre := str "$1$" ++ salt).
  pose proof (feeds_sum (A := md5_alg) junk Hj _ _ (feeds_comp _ _ _ _ (feeds_update key)
    (feeds_comp _ _ _ _ (feeds_update pre) (feeds_comp _ _ _ _ (feeds_hashmd (A := md5_alg) junk Hj (le_n 16) (length key) B HB)
      (feeds_bits (A := md5_alg) junk Hj (le_n 16) (S (length key)) [0] (take 1 key) (length key) (Nat.lt_succ_diag_r _)))))) as E. cbv beta in E.
  rewrite E. clear E. unfold pre. rewrite <- (app_assoc (str "$1$")).
  set (A := h_digest (key ++ _)).
  assert (forall js md, foldl (md5_round junk key salt) md js =
    foldl (fun md i => h_digest (round_text key salt md i)) md js) as H.
  { induction js as [|i js IH]; intros md; [done|]. cbn [foldl]. rewrite md5_round_correct by done. apply IH. }
  by rewrite H.
Qed.

(** ** The output of a scheme is a setting for it *)

Lemma fmt_u_spec n v acc : 0 <= v < 10 ^ Z.of_nat n ->
  exists ds, fmt_u n v acc = ds ++ acc /\ Forall (fun c => isdigit c = true) ds /\
    (n <> 0%nat -> ds <> []) /\ (length ds <= n)%nat /\
    forall a, foldl (fun a c => a * 10 + (c - 48)) a ds = a * 10 ^ Z.of_nat (length ds) + v.
Proof.
  revert v acc. induction n as [|n IH]; intros v acc Hv.
  - exists []. simpl in *. split_and!; (done || lia || (intros; lia)).
  - cbn [fmt_u]. rewrite Nat2Z.inj_succ, Z.pow_succ_r in Hv by lia.
    assert (isdigit (48 + v `mod` 10) = true) as Hd.
    { unfold isdigit. apply andb_true_iff. rewrite !Z.leb_le. pose proof (Z.mod_pos_bound v 10). lia. }
    destruct (Z.eqb_spec (v / 10) 0) as [E|E].
    + exists [48 + v `mod` 10]. split_and!; [done|by constructor|done|simpl; lia|].
      intros a. simpl. pose proof (Z.div_mod v 10). lia.
    + destruct (IH (v / 10) (48 + v `mod` 10 :: acc)) as (ds & -> & Hds & _ & Hl & Hval).
      { split; [apply Z.div_pos; lia|apply Z.div_lt_upper_bound; lia]. }
      exists (ds ++ [48 + v `mod` 10]). split_and!.
      * by rewrite <- app_assoc.
      * apply Forall_app. by split; [|constructor].
      * intros _. by destruct ds.
      * rewrite length_app. simpl. lia.
      * intros a. rewrite foldl_app, Hval, length_app. simpl.
        rewrite Nat2Z.inj_add, Z.pow_add_r by lia. pose proof (Z.div_mod v 10). simpl Z.of_nat. lia.
Qed.

Lemma fmt_u_digits n v k : (0 < k <= n)%nat -> 0 <= v < 10 ^ Z.of_nat k ->
  forall acc, fmt_u n v acc = fmt_u k v acc.
Proof.
  revert v n. induction k as [|k IH]; intros v [|n] Hk Hv acc; try lia. cbn [fmt_u].
  destruct (Z.eqb_spec (v / 10) 0) as [E|E]; [done|]. rewrite Nat2Z.inj_succ, Z.pow_succ_r in Hv by lia.
  assert (0 <= v / 10 < 10 ^ Z.of_nat k) as Hq.
  { split; [apply Z.div_pos; lia|apply Z.div_lt_upper_bound; lia]. }
  destruct k as [|k]; [simpl in Hq; lia|]. apply IH; [lia|done].
Qed.

Lemma strtoul_digits ds c rest a :
  Forall (fun c => isdigit c = true) ds -> isdigit c = false -> 0 <= a ->
  foldl (fun a c => a * 10 + (c - 48)) a ds < 2 ^ 64 ->
  strtoul a (ds ++ c :: rest) = (foldl (fun a c => a * 10 + (c - 48)) a ds, c :: rest).
Proof.
  intros Hds Hc. revert a. induction Hds as [|d ds Hd Hds IH]; intros a Ha Hlt; simpl.
  - by rewrite Hc.
  - rewrite Hd. unfold isdigit in Hd. apply andb_true_iff in Hd as [H1%Z.leb_le H2%Z.leb_le].
    assert (forall b l, Forall (fun c => isdigit c = true) l -> 0 <= b -> b <= foldl (fun a c => a * 10 + (c - 48)) b l) as Hge.
    { clear. intros b l Hl. revert b. induction Hl as [|x l Hx Hl IH]; intros b Hb; simpl; [lia|].
      unfold isdigit in Hx. apply andb_true_iff in Hx as [H1%Z.leb_le H2%Z.leb_le].
      specialize (IH (b * 10 + (x - 48)) ltac:(lia)). lia. }
    simpl in Hlt. specialize (Hge (a * 10 + (d - 48)) ds Hds ltac:(lia)).
    rewrite Z.min_l by lia. apply IH; [lia|done].
Qed.

Lemma scan_salt_spec n s salt : scan_salt n s = Some salt ->
  (length salt <= n)%nat /\ salt = take (length salt) s /\
  Forall (fun c => c <> DOLLAR /\ c <> 10 /\ c <> 58) salt /\
  (forall rest, scan_salt n (salt ++ DOLLAR :: rest) = Some salt).
Proof.
  revert s salt. induction n as [|n IH]; intros [|c s] salt E; simpl in E; simplify_eq; simpl;
    try (split_and!; (done || lia || constructor)).
  destruct (Z.eqb_spec c DOLLAR); [simplify_eq; simpl; split_and!; (done || lia || constructor)|].
  destruct ((c =? 10) || (c =? 58)) eqn:E2; [done|]. apply bind_Some in E as (t & Ht & [= <-]).
  destruct (IH _ _ Ht) as (Hl & Ht' & Hf & Hs). simpl. apply orb_false_iff in E2 as [?%Z.eqb_neq ?%Z.eqb_neq].
  split_and!; [lia|by rewrite <- Ht'|by constructor|]. intros rest.
  rewrite (proj2 (Z.eqb_neq c DOLLAR)), (proj2 (Z.eqb_neq c 10)), (proj2 (Z.eqb_neq c 58)) by done. simpl.
  by rewrite Hs.
Qed.

Lemma has_prefix_app p s : has_prefix p (p ++ s) = true.
Proof. unfold has_prefix. rewrite take_app_length. by apply bool_decide_eq_true. Qed.

(** A text that is cut at a byte outside the prefix does not gain it. *)
Lemma has_prefix_cut p s k c rest :
  has_prefix p s = false -> c ∉ p -> (k <= length s)%nat -> has_prefix p (take k s ++ c :: rest) = false.
Proof.
  unfold has_prefix. rewrite !bool_decide_eq_false. intros Hs Hc Hk E. apply Hs.
  destruct (decide (length p <= k)%nat).
  - rewrite take_app_le, take_take, Nat.min_l in E by (rewrite ?length_take; lia). done.
  - exfalso. apply Hc. rewrite <- E. apply (list_elem_of_lookup_2 _ k).
    rewrite lookup_take_lt, lookup_app_r, length_take by (rewrite ?length_take; lia).
    by replace (k - k `min` length s)%nat with 0%nat by lia.
Qed.

(** The number printed for the rounds. *)
Lemma rounds_text q : 1000 <= q <= 9999999 ->
  exists ds, fmt_u 20 q [] = ds /\ Forall (fun c => isdigit c = true) ds /\ ds <> [] /\ (length ds <= 7)%nat /\
    foldl (fun a c => a * 10 + (c - 48)) 0 ds = q.
Proof.
  intros Hq. rewrite (fmt_u_digits 20 q 7) by (simpl Z.of_nat; lia).
  destruct (fmt_u_spec 7 q []) as (ds & -> & Hds & Hne & Hlen & Hval); [simpl Z.of_nat; lia|].
  exists ds. rewrite app_nil_r, Hval. split_and!; try done. by apply Hne.
Qed.

Lemma rounds_key : length (str "rounds=") = 7%nat /\ DOLLAR ∉ str "rounds=".
Proof. split; [done|]. apply (bool_decide_unpack (DOLLAR ∉ str "rounds=")). vm_compute. exact Logic.I. Qed.
#[local] Opaque fmt_u str.

Lemma parse_again prefix setting r rounds salt rest :
  length prefix = 3%nat -> parse_setting prefix setting = Some (r, rounds, salt) ->
  parse_setting prefix (prefix ++ rounds ++ salt ++ DOLLAR :: rest) = Some (r, rounds, salt) /\
  (length rounds <= 15)%nat /\ (length salt <= 16)%nat /\
  Forall (fun c => c <> DOLLAR /\ c <> 10 /\ c <> 58) salt.
Proof.
  intros Hp. unfold parse_setting at 1. destruct (has_prefix prefix setting); cbn [negb]; [|done].
  intros E. apply bind_Some in E as ([[r' rounds'] text] & E1 & E2).
  apply bind_Some in E2 as (salt' & E2 & [= -> -> ->]).
  destruct (scan_salt_spec _ _ _ E2) as (Hsl & Htake & Hchars & Hscan).
  unfold parse_setting. rewrite has_prefix_app, (drop_app_length' _ _ 3) by done. cbn [negb].
  destruct (has_prefix (str "rounds=") (drop 3 setting)) eqn:Hr.
  - destruct (negb _); [done|]. destruct (strtoul 0 (drop 7 (drop 3 setting))) as [u [|c tl]]; [done|].
    destruct (negb (c =? DOLLAR)); [done|]. destruct (Z.ltb_spec ROUNDS_MAX u) as [|Hmax]; [done|].
    injection E1 as <- <- <-. set (q := if u <? ROUNDS_MIN then ROUNDS_MIN else u).
    assert (ROUNDS_MIN <= q <= ROUNDS_MAX) as Hq.
    { subst q. unfold ROUNDS_MIN, ROUNDS_MAX in *. destruct (Z.ltb_spec u 1000); lia. }
    unfold ROUNDS_MIN, ROUNDS_MAX in Hq. clearbody q.
    destruct (rounds_text q Hq) as (ds & Hfmt & Hds & Hne & Hlen & Hval). rewrite Hfmt.
    rewrite <- !app_assoc, has_prefix_app, (drop_app_length' _ _ 7) by (symmetry; apply rounds_key).
    assert (isdigit (at_ (ds ++ [DOLLAR] ++ salt ++ DOLLAR :: rest) 0) = true) as ->.
    { destruct ds; [done|]. by inversion Hds. }
    cbn [negb]. change ([DOLLAR] ++ salt ++ DOLLAR :: rest) with (DOLLAR :: salt ++ DOLLAR :: rest).
    rewrite (strtoul_digits ds DOLLAR (salt ++ DOLLAR :: rest) 0) by (done || lia).
    rewrite Hval. change (negb (DOLLAR =? DOLLAR)) with false. cbv iota.
    rewrite (proj2 (Z.ltb_ge ROUNDS_MAX q)) by (unfold ROUNDS_MAX; lia).
    rewrite (proj2 (Z.ltb_ge q ROUNDS_MIN)) by (unfold ROUNDS_MIN; lia). unfold mbind, option_bind.
    rewrite Hscan, Hfmt. split_and!; try done. rewrite !length_app, (proj1 rounds_key).
    simpl. lia.
  - injection E1 as <- <- <-. cbn [app]. rewrite Htake at 1.
    rewrite has_prefix_cut; [|done| |rewrite Htake, length_take; lia].
    + unfold mbind, option_bind. rewrite Hscan. split_and!; (done || simpl; lia).
    + apply rounds_key.
Qed.
#[local] Transparent fmt_u str.

(** ** The entry points, with their self test *)

Definition testkey : list Z :=
  str "Xy01@#" ++ [1; 2; 128; 127; 255; 13; 10; 129; 9] ++ str " !".

Definition with_self_test (crypt : list Z -> list Z -> option (list Z)) (testsetting testhash key setting : list Z)
    : list Z :=
  match crypt key setting, crypt testkey testsetting with
  | Some p, Some q => if bool_decide (q = testhash) then p else str "*"
  | _, _ => str "*"
  end.

Definition __crypt_sha256 (junk key setting : list Z) : list Z :=
  with_self_test (sha256crypt junk) (str "$5$rounds=1234$abc0123456789$")
    (str "$5$rounds=1234$abc0123456789$3VfDjPt05VHFn47C/ojFZ6KRPYrOjj1lLbH.dkF3bZ6") key setting.
Definition __crypt_sha512 (junk key setting : list Z) : list Z :=
  with_self_test (sha512crypt junk) (str "$6$rounds=1234$abc0123456789$")
    (str "$6$rounds=1234$abc0123456789$BCpt8zLrc/RcyuXmCDOE1ALqMXB2MH6n1g891HhFj8.w7LxGv.FTkqq6Vxc/km3Y0jE0j24jY5PIv/oOu6reg1")
    key setting.
Definition __crypt_md5 (junk key setting : list Z) : list Z :=
  with_self_test (md5crypt junk) (str "$1$abcd0123$") (str "$1$abcd0123$9Qcg8DyviekV3tDGMZynJ1") key setting.

(** ** Output *)

Lemma to64_spec u n : length (to64 u n) = n /\ Forall (fun c => c ∈ b64) (to64 u n).
Proof.
  revert u. induction n as [|n IH]; intros u; simpl; [done|]. destruct (IH (u / 64)) as [-> Hf].
  split; [done|]. constructor; [|done]. unfold at_. rewrite nth_lookup.
  pose proof (Z.mod_pos_bound u 64 ltac:(lia)).
  destruct (b64 !! Z.to_nat (u `mod` 64)) as [c|] eqn:E; [by eapply list_elem_of_lookup_2|].
  apply lookup_ge_None in E. change (length b64) with 64%nat in E. lia.
Qed.

Lemma out3s_spec md ps : length (concat (out3 md <$> ps)) = (4 * length ps)%nat /\
  Forall (fun c => c ∈ b64) (concat (out3 md <$> ps)).
Proof.
  induction ps as [|[[a b] c] ps [IH1 IH2]]; [done|]. rewrite fmap_cons. cbn [concat].
  destruct (to64_spec (Z.lor (Z.lor (Z.shiftl (at_ md a) 16) (Z.shiftl (at_ md b) 8)) (at_ md c)) 4) as [Hl Hf].
  rewrite length_app, IH1. unfold out3 at 1. rewrite Hl. split; [simpl; lia|]. apply Forall_app. by split.
Qed.

(** The shape of a hashed password. *)
Definition hashed (prefix : list Z) (n : nat) (out : list Z) : Prop :=
  exists rounds salt hash, out = prefix ++ rounds ++ salt ++ DOLLAR :: hash /\
    (length rounds <= 15)%nat /\ (length salt <= 16)%nat /\
    Forall (fun c => c <> DOLLAR /\ c <> 10 /\ c <> 58) salt /\
    length hash = n /\ Forall (fun c => c ∈ b64) hash.

Lemma shacrypt_shape {A : HashAlg} junk prefix output64 n key setting out :
  length prefix = 3%nat ->
  (forall md, length (output64 md) = n /\ Forall (fun c => c ∈ b64) (output64 md)) ->
  shacrypt junk prefix output64 key setting = Some out ->
  hashed prefix n out /\ shacrypt junk prefix output64 key out = Some out.
Proof.
  intros Hp Ho. unfold shacrypt. destruct (_ <? _)%nat; [done|]. intros E.
  apply bind_Some in E as ([[r rounds] salt] & E1 & E2). cbv zeta in E2. injection E2 as <-.
  match goal with |- context [output64 ?m] => set (md := m) end. change ([DOLLAR] ++ output64 md) with (DOLLAR :: output64 md).
  destruct (parse_again prefix setting r rounds salt (output64 md) Hp E1) as (Hagain & Hr & Hs & Hc).
  split.
  - exists rounds, salt, (output64 md). destruct (Ho md). by split_and!.
  - rewrite Hagain. reflexivity.
Qed.

Lemma output256_ok md : length (output256 md) = 43%nat /\ Forall (fun c => c ∈ b64) (output256 md).
Proof.
  unfold output256. destruct (out3s_spec md perm256) as [H1 H2].
  destruct (to64_spec (Z.lor (Z.shiftl (at_ md 31) 8) (at_ md 30)) 3) as [H3 H4].
  rewrite length_app, H1, H3. split; [done|]. apply Forall_app. by split.
Qed.
Lemma output512_ok md : length (output512 md) = 86%nat /\ Forall (fun c => c ∈ b64) (output512 md).
Proof.
  unfold output512. destruct (out3s_spec md perm512) as [H1 H2].
  destruct (to64_spec (at_ md 63) 2) as [H3 H4].
  rewrite length_app, H1, H3. split; [done|]. apply Forall_app. by split.
Qed.

Lemma scan_salt1_spec n s : let salt := scan_salt1 n s in
  (length salt <= n)%nat /\ salt = take (length salt) s /\
  forall rest, scan_salt1 n (salt ++ DOLLAR :: rest) = salt.
Proof.
  revert s. induction n as [|n IH]; intros [|c s]; simpl; try (split_and!; (done || lia)).
  destruct (Z.eqb_spec c DOLLAR) as [->|Hc]; simpl; [split_and!; (done || lia)|].
  destruct (IH s) as (H1 & H2 & H3). split_and!; [lia|by rewrite <- H2|].
  intros rest. rewrite (proj2 (Z.eqb_neq c DOLLAR)) by done. by rewrite H3.
Qed.

Lemma md5_prefix_len : length (str "$1$") = 3%nat.
Proof. done. Qed.
#[local] Opaque str.

Lemma md5crypt_again junk key setting out :
  md5crypt junk key setting = Some out ->
  md5crypt junk key out = Some out /\ (length out <= 34)%nat.
Proof.
  unfold md5crypt at 1. destruct (_ <? _)%nat eqn:Ek; [done|]. destruct (has_prefix _ setting) eqn:Ep; [|done].
  cbv zeta. cbn [negb]. set (salt := scan_salt1 MD5_SALT_MAX (drop 3 setting)).
  destruct (scan_salt1_spec MD5_SALT_MAX (drop 3 setting)) as (Hs1 & Hs2 & Hs3). fold salt in Hs1, Hs2, Hs3.
  assert (take (3 + length salt) setting = str "$1$" ++ salt) as Epre.
  { unfold has_prefix in Ep. apply bool_decide_eq_true in Ep. rewrite md5_prefix_len in Ep.
    rewrite <- (take_drop 3 setting) at 1. rewrite Ep. rewrite take_app_add'; [|by rewrite md5_prefix_len]. by rewrite <- Hs2. }
  set (pre := str "$1$" ++ salt) in *. rewrite Epre.
  match goal with |- context [concat (out3 ?m <$> perm5)] => set (md := m) end.
  intros Eo. apply (inj Some) in Eo. set (tl := concat _ ++ _) in Eo.
  assert (has_prefix (str "$1$") out = true) as P1 by (subst out pre; rewrite <- app_assoc; apply has_prefix_app).
  assert (scan_salt1 MD5_SALT_MAX (drop 3 out) = salt) as P2.
  { subst out pre. rewrite <- app_assoc, (drop_app_length' _ _ 3) by (by rewrite md5_prefix_len). apply Hs3. }
  assert (take (3 + length salt) out = pre) as P3.
  { subst out pre. rewrite (take_app_length' _ _ (3 + length salt)) by (by rewrite length_app, md5_prefix_len). done. }
  split.
  - unfold md5crypt. rewrite Ek, P1, P2. cbn [negb]. cbv zeta. rewrite P3. fold md. fold tl. by rewrite Eo.
  - subst out tl pre. destruct (out3s_spec md perm5) as [H1 _]. destruct (to64_spec (at_ md 11) 2) as [H2 _].
    rewrite !length_app, H1, H2, md5_prefix_len. change (length perm5) with 5%nat. cbn [length].
    unfold MD5_SALT_MAX in Hs1. lia.
Qed.
#[local] Transparent str.

(** ** The code's output in the words of the publications *)

Lemma to64_group n : forall u, to64 u n = group64 n u.
Proof.
  induction n as [|n IH]; intros u; [done|]. cbn [to64]. unfold group64. cbn [seq fmap list_fmap]. f_equal.
  - rewrite Z.div_1_r. pose proof (Z.mod_pos_bound u 64 ltac:(lia)) as H. set (v := u mod 64) in *. clearbody v.
    assert (forallb (fun v => at_ b64 (Z.to_nat v) =? char64 v) (seqZ 0 64) = true) as F by (vm_compute; reflexivity).
    apply Z.eqb_eq. rewrite forallb_forall in F. apply F. apply list_elem_of_In, elem_of_seqZ. lia.
  - rewrite IH. unfold group64. rewrite <- fmap_S_seq. rewrite <- list_fmap_compose. apply list_fmap_ext. intros _ i _. cbn [compose].
    rewrite Nat2Z.inj_succ, Z.pow_succ_r by lia. by rewrite Z.div_div by lia.
Qed.

Lemma lor_low w a b : 0 <= w -> 0 <= b < 2 ^ w -> Z.lor (Z.shiftl a w) b = 2 ^ w * a + b.
Proof.
  intros Hw Hb. rewrite Z.shiftl_mul_pow2 by lia. symmetry. rewrite (Z.mul_comm (2 ^ w)).
  apply Z.add_nocarry_lor. apply Z.bits_inj'. intros n Hn. rewrite Z.land_spec, Z.bits_0.
  destruct (Z.lt_ge_cases n w); [rewrite Z.mul_pow2_bits_low by lia; done|].
  rewrite <- (Z.mod_small b (2 ^ w)), Z.mod_pow2_bits_high by lia. apply andb_false_r.
Qed.

Lemma bytes_word a b c : is_byte b -> is_byte c -> Z.lor (Z.lor (Z.shiftl a 16) (Z.shiftl b 8)) c = a * 65536 + b * 256 + c.
Proof.
  intros Hb Hc. unfold in_range in *. rewrite (Z.shiftl_mul_pow2 b) by lia. rewrite (lor_low 16) by lia.
  replace (2 ^ 16 * a + b * 2 ^ 8) with (Z.shiftl (256 * a + b) 8) by (rewrite Z.shiftl_mul_pow2; lia). rewrite lor_low by lia. lia.
Qed.

Lemma byte_at md i : Forall is_byte md -> is_byte (nth i md 0).
Proof.
  intros H. rewrite nth_lookup. destruct (md !! i) as [b|] eqn:E; [by apply (Forall_lookup_1 _ _ _ _ H E)|]. unfold in_range. simpl. lia.
Qed.

Lemma out3_group md a b c : Forall is_byte md -> out3 md (a, b, c) = group64 4 (word24 md a b c).
Proof. intros H. unfold out3, at_, word24. by rewrite bytes_word, to64_group by (by apply byte_at). Qed.

Lemma out3_groups (f : nat -> nat * nat * nat) md js : Forall is_byte md ->
  concat (out3 md <$> (f <$> js)) = concat ((fun k => let '(a, b, c) := f k in group64 4 (word24 md a b c)) <$> js).
Proof.
  intros H. f_equal. rewrite <- list_fmap_compose. apply list_fmap_ext. intros _ k _. cbn [compose]. destruct (f k) as [[a b] c]. by apply out3_group.
Qed.

Lemma output256_text md : Forall is_byte md -> output256 md = text256 md.
Proof.
  intros H. unfold output256, text256, at_.
  change perm256 with ((fun k => (k + 10 * ((0 + 2 * k) mod 3), k + 10 * ((1 + 2 * k) mod 3), k + 10 * ((2 + 2 * k) mod 3)))%nat <$> seq 0 10).
  rewrite (out3_groups _ md) by done. cbv beta zeta iota. f_equal.
  rewrite to64_group. f_equal. rewrite lor_low by (lia || by apply byte_at). lia.
Qed.
Lemma output512_text md : Forall is_byte md -> output512 md = text512 md.
Proof.
  intros H. unfold output512, text512, at_.
  change perm512 with ((fun k => (k + 21 * ((0 + k) mod 3), k + 21 * ((1 + k) mod 3), k + 21 * ((2 + k) mod 3)))%nat <$> seq 0 21).
  rewrite (out3_groups _ md) by done. cbv beta zeta iota. f_equal. apply to64_group.
Qed.
Lemma output5_text md : Forall is_byte md -> concat (out3 md <$> perm5) ++ to64 (at_ md 11) 2 = text5 md.
Proof.
  intros H. unfold text5, at_. change perm5 with ((fun k => (k, k + 6, if k =? 4 then 5 else k + 12))%nat <$> seq 0 5).
  rewrite (out3_groups _ md) by done. cbv beta zeta iota. f_equal. apply to64_group.
Qed.

(** ** Settings *)

Lemma has_prefix_iff p s : has_prefix p s = true <-> exists t, s = p ++ t.
Proof.
  unfold has_prefix. rewrite bool_decide_eq_true. split; [|intros [t ->]; apply take_app_length].
  intros E. exists (drop (length p) s). by rewrite <- E at 1; rewrite take_drop.
Qed.

Lemma isdigit_iff c : isdigit c = true <-> digit c.
Proof. unfold isdigit, digit. rewrite andb_true_iff, !Z.leb_le. done. Qed.

Lemma strtoul_exact s : forall a u rest, strtoul a s = (u, rest) -> 0 <= a < 2 ^ 64 -> a <= u /\ exists ds, s = ds ++ rest /\ Forall digit ds /\
  (u < 2 ^ 64 - 1 -> u = foldl (fun a c => a * 10 + (c - 48)) a ds) /\ (isdigit (at_ s 0) = true -> ds <> []).
Proof.
  induction s as [|c s IH]; intros a u rest E Ha; cbn [strtoul] in E.
  - injection E as <- <-. split; [lia|]. exists []. split_and!; [done|apply Forall_nil_2|done|done].
  - destruct (isdigit c) eqn:Hc.
    + pose proof (proj1 (isdigit_iff c) Hc) as Hd. unfold digit in Hd. apply IH in E as [Hle (ds & -> & Hds & Hu & _)]; [|lia].
      assert (a <= u) as Hau.
      { destruct (Z_lt_le_dec (a * 10 + (c - 48)) (2 ^ 64 - 1)); [lia|]. rewrite Z.min_r in Hle by lia. lia. }
      split; [done|]. exists (c :: ds). split_and!; [done|by constructor| |done].
      intros Hlt. rewrite Z.min_l in Hu by lia. by apply Hu.
    + injection E as <- <-. split; [lia|]. exists []. split_and!; [done|apply Forall_nil_2|done|]. unfold at_. cbn [nth]. congruence.
Qed.

(** The first digit printed is not zero. *)
Lemma fmt_u_head n : forall v acc, 0 < v < 10 ^ Z.of_nat n -> head (fmt_u n v acc) <> Some 48.
Proof.
  induction n as [|n IH]; intros v acc Hv; [simpl in Hv; lia|]. cbn [fmt_u]. rewrite Nat2Z.inj_succ, Z.pow_succ_r in Hv by lia. destruct (Z.eqb_spec (v / 10) 0) as [E|E].
  - cbn [head]. intros [=]. pose proof (Z.div_mod v 10). lia.
  - apply IH. pose proof (Z.div_pos v 10). split; [lia|]. apply Z.div_lt_upper_bound; lia.
Qed.
Lemma fmt_u_decimal n : 1000 <= n <= 9999999 -> decimal n (fmt_u 20 n []).
Proof.
  intros Hn. split_and!.
  - destruct (rounds_text n Hn) as (ds & -> & Hd & _). eapply Forall_impl; [exact Hd|]. intros c. apply isdigit_iff.
  - destruct (rounds_text n Hn) as (ds & -> & _ & _ & _ & Hv). exact Hv.
  - apply fmt_u_head. simpl Z.of_nat. lia.
Qed.

#[local] Opaque fmt_u str.
(** The rounds at the front of a text. *)
Lemma parse_rounds_iff text r shown rest :
  (if has_prefix (str "rounds=") text then
     let salt := drop 7 text in
     if negb (isdigit (at_ salt 0)) then None else
     let '(u, rest) := strtoul 0 salt in
     match rest with
     | c :: salt =>
         if negb (c =? DOLLAR) then None
         else if ROUNDS_MAX <? u then None
         else let r := if u <? ROUNDS_MIN then ROUNDS_MIN else u in
              Some (r, str "rounds=" ++ fmt_u 20 r [] ++ [DOLLAR], salt)
     | [] => None
     end
   else Some (ROUNDS_DEFAULT, [], text)) = Some (r, shown, rest) <-> sha_rounds text r shown rest.
Proof.
  change DOLLAR with 36. unfold ROUNDS_MAX, ROUNDS_MIN, ROUNDS_DEFAULT. destruct (has_prefix _ text) eqn:Hp.
  - apply has_prefix_iff in Hp as [t ->]. rewrite (drop_app_length' _ _ 7) by (symmetry; apply rounds_key). cbv zeta. split.
    + destruct (isdigit (at_ t 0)) eqn:Hd; [|done]. cbn [negb]. destruct (strtoul 0 t) as [u [|c tl]] eqn:Et; [done|].
      destruct (Z.eqb_spec c 36) as [->|]; [|done]. cbn [negb]. destruct (Z.ltb_spec 9999999 u) as [|Hu]; [done|]. intros [= <- <- <-].
      apply strtoul_exact in Et as [H0 (ds & -> & Hds & Eu & Hne)]; [|lia]. specialize (Eu ltac:(lia)). fold (number ds) in Eu. subst u.
      assert ((if number ds <? 1000 then 1000 else number ds) = Z.max 1000 (number ds)) as -> by (destruct (Z.ltb_spec (number ds) 1000); lia).
      change (36 :: tl) with (str "$" ++ tl). change [36] with (str "$"). apply rounds_given; [by apply Hne|done|lia|]. apply fmt_u_decimal. lia.
    + intros H. remember (str "rounds=" ++ t) as w eqn:Ew. destruct H as [text Hno|ds shown' rest Hne Hds Hmax Hdec]; [by destruct (Hno t)|]. apply app_inv_head in Ew. subst t.
      change (str "$" ++ rest) with (36 :: rest). assert (isdigit (at_ (ds ++ 36 :: rest) 0) = true) as ->.
      { destruct ds as [|d ds]; [done|]. apply Forall_inv in Hds. unfold at_. cbn [app nth]. by apply isdigit_iff. }
      cbn [negb]. rewrite (strtoul_digits ds 36 rest 0); [| |done|done|fold (number ds); lia].
      2: { eapply Forall_impl; [exact Hds|]. intros c. apply isdigit_iff. }
      fold (number ds). cbn [Z.eqb Pos.eqb negb]. destruct (Z.ltb_spec 9999999 (number ds)); [lia|].
      assert ((if number ds <? 1000 then 1000 else number ds) = Z.max 1000 (number ds)) as -> by (destruct (Z.ltb_spec (number ds) 1000); lia).
      rewrite (decimal_unique (Z.max 1000 (number ds)) (fmt_u 20 (Z.max 1000 (number ds)) []) shown') by (done || lia || (apply fmt_u_decimal; lia)). done.
  - split.
    + intros [= <- <- <-]. apply rounds_default. intros t ->. by rewrite has_prefix_app in Hp.
    + intros H. destruct H as [text Hno|ds shown' rest Hne Hds Hmax Hdec]; [done|]. by rewrite has_prefix_app in Hp.
Qed.

Lemma parse_setting_iff prefix setting r shown salt : length prefix = 3%nat ->
  parse_setting prefix setting = Some (r, shown, salt) <->
  exists text rest, setting = prefix ++ text /\ sha_rounds text r shown rest /\ salt_of 16 rest salt /\ 10 ∉ salt /\ 58 ∉ salt.
Proof.
  intros Hp. unfold parse_setting. cbv zeta. destruct (has_prefix prefix setting) eqn:E.
  - apply has_prefix_iff in E as [text ->]. cbn [negb]. rewrite (drop_app_length' _ _ 3) by done. split.
    + intros H. apply bind_Some in H as ([[r' s'] rest] & H1 & H2). apply bind_Some in H2 as (salt' & H2 & [= -> -> ->]).
      apply parse_rounds_iff in H1. apply scan_salt_iff in H2. by exists text, rest.
    + intros (text' & rest & E & H1 & H2). apply app_inv_head in E. subst text'. apply parse_rounds_iff in H1. cbv zeta in H1. rewrite H1.
      unfold mbind, option_bind. unfold SALT_MAX. by rewrite (proj2 (scan_salt_iff 16 rest salt) H2).
  - split; [done|]. intros (text & rest & -> & _). by rewrite has_prefix_app in E.
Qed.
#[local] Transparent fmt_u str.

Lemma foldl_bytes (f : list Z -> nat -> list Z) md js : (forall md i, Forall is_byte (f md i)) -> Forall is_byte md -> Forall is_byte (foldl f md js).
Proof. intros Hf. revert md. induction js as [|i js IH]; intros md Hmd; [done|]. apply IH, Hf. Qed.

Lemma sha_crypt_iff {A : HashAlg} prefix output64 print key setting out : length prefix = 3%nat -> (forall md, Forall is_byte md -> output64 md = print md) ->
  shacrypt_text h_digest prefix output64 key setting = Some out <-> sha_crypt h_digest prefix print key setting out.
Proof.
  intros Hp Ho. unfold shacrypt_text, sha_crypt, KEY_MAX.
  assert (forall r salt, output64 (sha_digest h_digest r key salt) = print (sha_digest h_digest r key salt)) as Hprint.
  { intros r salt. apply Ho. unfold sha_digest, rounds_of. apply foldl_bytes; intros; apply h_digest_bytes. }
  destruct (Nat.ltb_spec 256 (length key)) as [|Hk]; [split; [done|intros [? _]; lia]|]. split.
  - intros E. apply bind_Some in E as ([[r shown] salt] & E & [= <-]). apply parse_setting_iff in E as (text & rest & ? & ? & ? & ? & ?); [|done].
    split; [lia|]. exists text, r, shown, rest, salt. rewrite Hprint. by split_and!.
  - intros (_ & text & r & shown & rest & salt & E & H1 & H2 & H3 & H4 & ->).
    rewrite (proj2 (parse_setting_iff prefix setting r shown salt Hp)) by by exists text, rest. cbn [mbind option_bind]. by rewrite Hprint.
Qed.

Lemma md5_crypt_iff key setting out : md5crypt_text key setting = Some out <-> md5_crypt md5 key setting out.
Proof.
  unfold md5crypt_text, md5_crypt, MD5_KEY_MAX. destruct (Nat.ltb_spec 30000 (length key)) as [|Hk]; [split; [done|intros [? _]; lia]|].
  assert (forall salt, Forall is_byte (md5_digest md5 key salt)) as Hb.
  { intros salt. unfold md5_digest, rounds_of. apply foldl_bytes; intros; apply (h_digest_bytes (HashAlg := md5_alg)). }
  destruct (has_prefix (str "$1$") setting) eqn:E; cbn [negb]; cbv zeta.
  - rewrite (setting_salt _ E). apply has_prefix_iff in E as [text ->]. change (drop 3 (str "$1$" ++ text)) with text. rewrite output5_text by done.
    pose proof (scan_salt1_iff MD5_SALT_MAX text) as Hs. unfold MD5_SALT_MAX in *. split.
    + intros E. apply (inj Some) in E. subst out. split; [lia|]. exists text, (scan_salt1 8 text). split_and!; [done|by apply Hs|by rewrite <- app_assoc].
    + intros (_ & text' & salt & Et & H & ->). apply app_inv_head in Et. subst text'. apply Hs in H. subst salt. by rewrite <- app_assoc.
  - split; [done|]. intros (_ & text & salt & -> & _). by rewrite has_prefix_app in E.
Qed.

(** ** The theorems *)

(** C5: sha256crypt and sha512crypt answer [out] exactly when it is the
    SHA-crypt text of the key and the setting, and a null pointer when there
    is none, as [sha_crypt] says it apart from the code: the algorithm as it is
    published, on one-shot SHA-2, in musl's variant (keys of at most 256 bytes;
    rounds up to 9999999, more than that, unterminated ones and ones that are
    no number rejected; no newline or colon in the salt). *)
Theorem sha_crypt_correct junk256 junk512 key setting out :
  length junk256 = 64%nat -> length junk512 = 128%nat ->
  (sha256crypt junk256 key setting = Some out <-> sha_crypt sha256 (str "$5$") text256 key setting out) /\
  (sha512crypt junk512 key setting = Some out <-> sha_crypt sha512 (str "$6$") text512 key setting out).
Proof.
  intros H1 H2. split.
  - unfold sha256crypt. rewrite (shacrypt_correct (A := sha256_alg) junk256 H1 sha256_long). exact (sha_crypt_iff (A := sha256_alg) (str "$5$") output256 text256 key setting out eq_refl output256_text).
  - unfold sha512crypt. rewrite (shacrypt_correct (A := sha512_alg) junk512 H2 sha512_long). exact (sha_crypt_iff (A := sha512_alg) (str "$6$") output512 text512 key setting out eq_refl output512_text).
Qed.

Lemma sha_crypt_correct_witness :
  (exists out, sha256crypt (replicate 64 7) [97] (str "$5$rounds=10$ab") = Some out /\ sha_crypt sha256 (str "$5$") text256 [97] (str "$5$rounds=10$ab") out) /\
  sha512crypt (replicate 128 7) [97] (str "$6$rounds=x") = None /\
  ~ sha_crypt sha512 (str "$6$") text512 [97] (str "$6$rounds=x") (str "$6$rounds=x").
Proof.
  assert (sha512crypt (replicate 128 7) [97] (str "$6$rounds=x") = None) as E by reflexivity. split_and!; [|exact E|].
  - assert (exists out, sha256crypt (replicate 64 7) [97] (str "$5$rounds=10$ab") = Some out) as [out Hout] by (eexists; reflexivity).
    exists out. split; [exact Hout|].
    exact (proj1 (proj1 (sha_crypt_correct (replicate 64 7) (replicate 128 7) [97] (str "$5$rounds=10$ab") out eq_refl eq_refl)) Hout).
  - intros H. apply (sha_crypt_correct (replicate 64 7) (replicate 128 7) [97] (str "$6$rounds=x") (str "$6$rounds=x") eq_refl eq_refl) in H. by rewrite E in H.
Defined.

(** C32: md5crypt answers [out] exactly when it is the MD5-crypt text of the
    key and the setting, on one-shot MD5, as [md5_crypt] says it apart from
    the code, and a null pointer when there is none: for a key of more than
    30000 bytes (musl's limit) or a setting of another scheme. *)
Theorem md5_crypt_correct junk key setting out :
  length junk = 64%nat -> md5crypt junk key setting = Some out <-> md5_crypt md5 key setting out.
Proof. intros Hj. rewrite md5crypt_correct by done. apply md5_crypt_iff. Qed.

Lemma md5_crypt_correct_witness :
  exists out, md5crypt (replicate 64 7) [97] (str "$1$ab$") = Some out /\ md5_crypt md5 [97] (str "$1$ab$") out.
Proof.
  assert (exists out, md5crypt (replicate 64 7) [97] (str "$1$ab$") = Some out) as [out Hout] by (eexists; reflexivity).
  exists out. split; [exact Hout|]. exact (proj1 (md5_crypt_correct (replicate 64 7) [97] (str "$1$ab$") out eq_refl) Hout).
Defined.

(** A hashed password is a setting that hashes the same key to itself, so
    a stored hash can be checked by hashing the candidate with it. *)
Theorem crypt_verifies junk key setting out :
  (sha256crypt junk key setting = Some out -> sha256crypt junk key out = Some out) /\
  (sha512crypt junk key setting = Some out -> sha512crypt junk key out = Some out) /\
  (md5crypt junk key setting = Some out -> md5crypt junk key out = Some out).
Proof.
  split_and!; intros E.
  - exact (proj2 (shacrypt_shape (A := sha256_alg) junk (str "$5$") output256 43 key setting out eq_refl output256_ok E)).
  - exact (proj2 (shacrypt_shape (A := sha512_alg) junk (str "$6$") output512 86 key setting out eq_refl output512_ok E)).
  - exact (proj1 (md5crypt_again junk key setting out E)).
Qed.

(** Every hashed password has the form prefix, rounds, salt, ['$'],
    43 or 86 characters of the base-64 alphabet, its salt is free of the
    bytes that break /etc/shadow, and with its NUL it fits the 128-byte
    buffer of [crypt]. *)
Theorem crypt_output_fits junk key setting out :
  (sha256crypt junk key setting = Some out -> hashed (str "$5$") 43 out /\ (length out + 1 <= 128)%nat) /\
  (sha512crypt junk key setting = Some out -> hashed (str "$6$") 86 out /\ (length out + 1 <= 128)%nat) /\
  (md5crypt junk key setting = Some out -> (length out + 1 <= 128)%nat).
Proof.
  assert (forall p n o, length p = 3%nat -> (n <= 86)%nat -> hashed p n o -> (length o + 1 <= 128)%nat) as Hfit.
  { intros p n o Hp Hn (rounds & salt & hash & -> & Hr & Hs & _ & Hh & _).
    rewrite !length_app. cbn [length]. lia. }
  split_and!; intros E.
  - destruct (shacrypt_shape (A := sha256_alg) junk (str "$5$") output256 43 key setting out eq_refl output256_ok E) as [Hh _].
    split; [done|]. apply (Hfit (str "$5$") 43%nat _ eq_refl ltac:(lia) Hh).
  - destruct (shacrypt_shape (A := sha512_alg) junk (str "$6$") output512 86 key setting out eq_refl output512_ok E) as [Hh _].
    split; [done|]. apply (Hfit (str "$6$") 86%nat _ eq_refl ltac:(lia) Hh).
  - destruct (md5crypt_again junk key setting out E) as [_ Hl]. lia.
Qed.
