(* ===== verification/Des.v ===== *)
(** * Des: DES and the traditional password hash, toolchain/musl-1.2.5/src/crypt

    crypt_des.c and encrypt.c: the key schedule and the cipher with their
    precomputed tables, salted iteration, the two password formats, and the
    bitwise [encrypt]/[setkey] interface. *)

From S2P Require Import Prelude BlockHash.
From Stdlib Require Import ZArith Lia Bool List String Ascii.
From stdpp Require Import base tactics numbers list option.
Open Scope Z_scope.

Definition key_shifts : list Z := [1; 1; 2; 2; 2; 2; 2; 2; 1; 2; 2; 2; 2; 2; 2; 1].

Definition psbox : list (list Z) :=
  [[0x00808200; 0x00000000; 0x00008000; 0x00808202; 0x00808002; 0x00008202; 0x00000002; 0x00008000;
    0x00000200; 0x00808200; 0x00808202; 0x00000200; 0x00800202; 0x00808002; 0x00800000; 0x00000002;
    0x00000202; 0x00800200; 0x00800200; 0x00008200; 0x00008200; 0x00808000; 0x00808000; 0x00800202;
    0x00008002; 0x00800002; 0x00800002; 0x00008002; 0x00000000; 0x00000202; 0x00008202; 0x00800000;
    0x00008000; 0x00808202; 0x00000002; 0x00808000; 0x00808200; 0x00800000; 0x00800000; 0x00000200;
    0x00808002; 0x00008000; 0x00008200; 0x00800002; 0x00000200; 0x00000002; 0x00800202; 0x00008202;
    0x00808202; 0x00008002; 0x00808000; 0x00800202; 0x00800002; 0x00000202; 0x00008202; 0x00808200;
    0x00000202; 0x00800200; 0x00800200; 0x00000000; 0x00008002; 0x00008200; 0x00000000; 0x00808002];
   [0x40084010; 0x40004000; 0x00004000; 0x00084010; 0x00080000; 0x00000010; 0x40080010; 0x40004010;
    0x40000010; 0x40084010; 0x40084000; 0x40000000; 0x40004000; 0x00080000; 0x00000010; 0x40080010;
    0x00084000; 0x00080010; 0x40004010; 0x00000000; 0x40000000; 0x00004000; 0x00084010; 0x40080000;
    0x00080010; 0x40000010; 0x00000000; 0x00084000; 0x00004010; 0x40084000; 0x40080000; 0x00004010;
    0x00000000; 0x00084010; 0x40080010; 0x00080000; 0x40004010; 0x40080000; 0x40084000; 0x00004000;
    0x40080000; 0x40004000; 0x00000010; 0x40084010; 0x00084010; 0x00000010; 0x00004000; 0x40000000;
    0x00004010; 0x40084000; 0x00080000; 0x40000010; 0x00080010; 0x40004010; 0x40000010; 0x00080010;
    0x00084000; 0x00000000; 0x40004000; 0x00004010; 0x40000000; 0x40080010; 0x40084010; 0x00084000];
   [0x00000104; 0x04010100; 0x00000000; 0x04010004; 0x04000100; 0x00000000; 0x00010104; 0x04000100;
    0x00010004; 0x04000004; 0x04000004; 0x00010000; 0x04010104; 0x00010004; 0x04010000; 0x00000104;
    0x04000000; 0x00000004; 0x04010100; 0x00000100; 0x00010100; 0x04010000; 0x04010004; 0x00010104;
    0x04000104; 0x00010100; 0x00010000; 0x04000104; 0x00000004; 0x04010104; 0x00000100; 0x04000000;
    0x04010100; 0x04000000; 0x00010004; 0x00000104; 0x00010000; 0x04010100; 0x04000100; 0x00000000;
    0x00000100; 0x00010004; 0x04010104; 0x04000100; 0x04000004; 0x00000100; 0x00000000; 0x04010004;
    0x04000104; 0x00010000; 0x04000000; 0x04010104; 0x00000004; 0x00010104; 0x00010100; 0x04000004;
    0x04010000; 0x04000104; 0x00000104; 0x04010000; 0x00010104; 0x00000004; 0x04010004; 0x00010100];
   [0x80401000; 0x80001040; 0x80001040; 0x00000040; 0x00401040; 0x80400040; 0x80400000; 0x80001000;
    0x00000000; 0x00401000; 0x00401000; 0x80401040; 0x80000040; 0x00000000; 0x00400040; 0x80400000;
    0x80000000; 0x00001000; 0x00400000; 0x80401000; 0x00000040; 0x00400000; 0x80001000; 0x00001040;
    0x80400040; 0x80000000; 0x00001040; 0x00400040; 0x00001000; 0x00401040; 0x80401040; 0x80000040;
    0x00400040; 0x80400000; 0x00401000; 0x80401040; 0x80000040; 0x00000000; 0x00000000; 0x00401000;
    0x00001040; 0x00400040; 0x80400040; 0x80000000; 0x80401000; 0x80001040; 0x80001040; 0x00000040;
    0x80401040; 0x80000040; 0x80000000; 0x00001000; 0x80400000; 0x80001000; 0x00401040; 0x80400040;
    0x80001000; 0x00001040; 0x00400000; 0x80401000; 0x00000040; 0x00400000; 0x00001000; 0x00401040];
   [0x00000080; 0x01040080; 0x01040000; 0x21000080; 0x00040000; 0x00000080; 0x20000000; 0x01040000;
    0x20040080; 0x00040000; 0x01000080; 0x20040080; 0x21000080; 0x21040000; 0x00040080; 0x20000000;
    0x01000000; 0x20040000; 0x20040000; 0x00000000; 0x20000080; 0x21040080; 0x21040080; 0x01000080;
    0x21040000; 0x20000080; 0x00000000; 0x21000000; 0x01040080; 0x01000000; 0x21000000; 0x00040080;
    0x00040000; 0x21000080; 0x00000080; 0x01000000; 0x20000000; 0x01040000; 0x21000080; 0x20040080;
    0x01000080; 0x20000000; 0x21040000; 0x01040080; 0x20040080; 0x00000080; 0x01000000; 0x21040000;
    0x21040080; 0x00040080; 0x21000000; 0x21040080; 0x01040000; 0x00000000; 0x20040000; 0x21000000;
    0x00040080; 0x01000080; 0x20000080; 0x00040000; 0x00000000; 0x20040000; 0x01040080; 0x20000080];
   [0x10000008; 0x10200000; 0x00002000; 0x10202008; 0x10200000; 0x00000008; 0x10202008; 0x00200000;
    0x10002000; 0x00202008; 0x00200000; 0x10000008; 0x00200008; 0x10002000; 0x10000000; 0x00002008;
    0x00000000; 0x00200008; 0x10002008; 0x00002000; 0x00202000; 0x10002008; 0x00000008; 0x10200008;
    0x10200008; 0x00000000; 0x00202008; 0x10202000; 0x00002008; 0x00202000; 0x10202000; 0x10000000;
    0x10002000; 0x00000008; 0x10200008; 0x00202000; 0x10202008; 0x00200000; 0x00002008; 0x10000008;
    0x00200000; 0x10002000; 0x10000000; 0x00002008; 0x10000008; 0x10202008; 0x00202000; 0x10200000;
    0x00202008; 0x10202000; 0x00000000; 0x10200008; 0x00000008; 0x00002000; 0x10200000; 0x00202008;
    0x00002000; 0x00200008; 0x10002008; 0x00000000; 0x10202000; 0x10000000; 0x00200008; 0x10002008];
   [0x00100000; 0x02100001; 0x02000401; 0x00000000; 0x00000400; 0x02000401; 0x00100401; 0x02100400;
    0x02100401; 0x00100000; 0x00000000; 0x02000001; 0x00000001; 0x02000000; 0x02100001; 0x00000401;
    0x02000400; 0x00100401; 0x00100001; 0x02000400; 0x02000001; 0x02100000; 0x02100400; 0x00100001;
    0x02100000; 0x00000400; 0x00000401; 0x02100401; 0x00100400; 0x00000001; 0x02000000; 0x00100400;
    0x02000000; 0x00100400; 0x00100000; 0x02000401; 0x02000401; 0x02100001; 0x02100001; 0x00000001;
    0x00100001; 0x02000000; 0x02000400; 0x00100000; 0x02100400; 0x00000401; 0x00100401; 0x02100400;
    0x00000401; 0x02000001; 0x02100401; 0x02100000; 0x00100400; 0x00000000; 0x00000001; 0x02100401;
    0x00000000; 0x00100401; 0x02100000; 0x00000400; 0x02000001; 0x02000400; 0x00000400; 0x00100001];
   [0x08000820; 0x00000800; 0x00020000; 0x08020820; 0x08000000; 0x08000820; 0x00000020; 0x08000000;
    0x00020020; 0x08020000; 0x08020820; 0x00020800; 0x08020800; 0x00020820; 0x00000800; 0x00000020;
    0x08020000; 0x08000020; 0x08000800; 0x00000820; 0x00020800; 0x00020020; 0x08020020; 0x08020800;
    0x00000820; 0x00000000; 0x00000000; 0x08020020; 0x08000020; 0x08000800; 0x00020820; 0x00020000;
    0x00020820; 0x00020000; 0x08020800; 0x00000800; 0x00000020; 0x08020020; 0x00000800; 0x00020820;
    0x08000800; 0x00000020; 0x08000020; 0x08020000; 0x08020020; 0x08000000; 0x00020000; 0x08000820;
    0x00000000; 0x08020820; 0x00020020; 0x08000020; 0x08020000; 0x08000800; 0x08000820; 0x00000000;
    0x08020820; 0x00020800; 0x00020800; 0x00000820; 0x00000820; 0x00020020; 0x08000000; 0x08020800]].

Definition ip_maskl : list (list Z) :=
  [[0x00000000; 0x00010000; 0x00000000; 0x00010000; 0x01000000; 0x01010000; 0x01000000; 0x01010000;
    0x00000000; 0x00010000; 0x00000000; 0x00010000; 0x01000000; 0x01010000; 0x01000000; 0x01010000];
   [0x00000000; 0x00000001; 0x00000000; 0x00000001; 0x00000100; 0x00000101; 0x00000100; 0x00000101;
    0x00000000; 0x00000001; 0x00000000; 0x00000001; 0x00000100; 0x00000101; 0x00000100; 0x00000101];
   [0x00000000; 0x00020000; 0x00000000; 0x00020000; 0x02000000; 0x02020000; 0x02000000; 0x02020000;
    0x00000000; 0x00020000; 0x00000000; 0x00020000; 0x02000000; 0x02020000; 0x02000000; 0x02020000];
   [0x00000000; 0x00000002; 0x00000000; 0x00000002; 0x00000200; 0x00000202; 0x00000200; 0x00000202;
    0x00000000; 0x00000002; 0x00000000; 0x00000002; 0x00000200; 0x00000202; 0x00000200; 0x00000202];
   [0x00000000; 0x00040000; 0x00000000; 0x00040000; 0x04000000; 0x04040000; 0x04000000; 0x04040000;
    0x00000000; 0x00040000; 0x00000000; 0x00040000; 0x04000000; 0x04040000; 0x04000000; 0x04040000];
   [0x00000000; 0x00000004; 0x00000000; 0x00000004; 0x00000400; 0x00000404; 0x00000400; 0x00000404;
    0x00000000; 0x00000004; 0x00000000; 0x00000004; 0x00000400; 0x00000404; 0x00000400; 0x00000404];
   [0x00000000; 0x00080000; 0x00000000; 0x00080000; 0x08000000; 0x08080000; 0x08000000; 0x08080000;
    0x00000000; 0x00080000; 0x00000000; 0x00080000; 0x08000000; 0x08080000; 0x08000000; 0x08080000];
   [0x00000000; 0x00000008; 0x00000000; 0x00000008; 0x00000800; 0x00000808; 0x00000800; 0x00000808;
    0x00000000; 0x00000008; 0x00000000; 0x00000008; 0x00000800; 0x00000808; 0x00000800; 0x00000808];
   [0x00000000; 0x00100000; 0x00000000; 0x00100000; 0x10000000; 0x10100000; 0x10000000; 0x10100000;
    0x00000000; 0x00100000; 0x00000000; 0x00100000; 0x10000000; 0x10100000; 0x10000000; 0x10100000];
   [0x00000000; 0x00000010; 0x00000000; 0x00000010; 0x00001000; 0x00001010; 0x00001000; 0x00001010;
    0x00000000; 0x00000010; 0x00000000; 0x00000010; 0x00001000; 0x00001010; 0x00001000; 0x00001010];
   [0x00000000; 0x00200000; 0x00000000; 0x00200000; 0x20000000; 0x20200000; 0x20000000; 0x20200000;
    0x00000000; 0x00200000; 0x00000000; 0x00200000; 0x20000000; 0x20200000; 0x20000000; 0x20200000];
   [0x00000000; 0x00000020; 0x00000000; 0x00000020; 0x00002000; 0x00002020; 0x00002000; 0x00002020;
    0x00000000; 0x00000020; 0x00000000; 0x00000020; 0x00002000; 0x00002020; 0x00002000; 0x00002020];
   [0x00000000; 0x00400000; 0x00000000; 0x00400000; 0x40000000; 0x40400000; 0x40000000; 0x40400000;
    0x00000000; 0x00400000; 0x00000000; 0x00400000; 0x40000000; 0x40400000; 0x40000000; 0x40400000];
   [0x00000000; 0x00000040; 0x00000000; 0x00000040; 0x00004000; 0x00004040; 0x00004000; 0x00004040;
    0x00000000; 0x00000040; 0x00000000; 0x00000040; 0x00004000; 0x00004040; 0x00004000; 0x00004040];
   [0x00000000; 0x00800000; 0x00000000; 0x00800000; 0x80000000; 0x80800000; 0x80000000; 0x80800000;
    0x00000000; 0x00800000; 0x00000000; 0x00800000; 0x80000000; 0x80800000; 0x80000000; 0x80800000];
   [0x00000000; 0x00000080; 0x00000000; 0x00000080; 0x00008000; 0x00008080; 0x00008000; 0x00008080;
    0x00000000; 0x00000080; 0x00000000; 0x00000080; 0x00008000; 0x00008080; 0x00008000; 0x00008080]].

Definition ip_maskr : list (list Z) :=
  [[0x00000000; 0x00000000; 0x00010000; 0x00010000; 0x00000000; 0x00000000; 0x00010000; 0x00010000;
    0x01000000; 0x01000000; 0x01010000; 0x01010000; 0x01000000; 0x01000000; 0x01010000; 0x01010000];
   [0x00000000; 0x00000000; 0x00000001; 0x00000001; 0x00000000; 0x00000000; 0x00000001; 0x00000001;
    0x00000100; 0x00000100; 0x00000101; 0x00000101; 0x00000100; 0x00000100; 0x00000101; 0x00000101];
   [0x00000000; 0x00000000; 0x00020000; 0x00020000; 0x00000000; 0x00000000; 0x00020000; 0x00020000;
    0x02000000; 0x02000000; 0x02020000; 0x02020000; 0x02000000; 0x02000000; 0x02020000; 0x02020000];
   [0x00000000; 0x00000000; 0x00000002; 0x00000002; 0x00000000; 0x00000000; 0x00000002; 0x00000002;
    0x00000200; 0x00000200; 0x00000202; 0x00000202; 0x00000200; 0x00000200; 0x00000202; 0x00000202];
   [0x00000000; 0x00000000; 0x00040000; 0x00040000; 0x00000000; 0x00000000; 0x00040000; 0x00040000;
    0x04000000; 0x04000000; 0x04040000; 0x04040000; 0x04000000; 0x04000000; 0x04040000; 0x04040000];
   [0x00000000; 0x00000000; 0x00000004; 0x00000004; 0x00000000; 0x00000000; 0x00000004; 0x00000004;
    0x00000400; 0x00000400; 0x00000404; 0x00000404; 0x00000400; 0x00000400; 0x00000404; 0x00000404];
   [0x00000000; 0x00000000; 0x00080000; 0x00080000; 0x00000000; 0x00000000; 0x00080000; 0x00080000;
    0x08000000; 0x08000000; 0x08080000; 0x08080000; 0x08000000; 0x08000000; 0x08080000; 0x08080000];
   [0x00000000; 0x00000000; 0x00000008; 0x00000008; 0x00000000; 0x00000000; 0x00000008; 0x00000008;
    0x00000800; 0x00000800; 0x00000808; 0x00000808; 0x00000800; 0x00000800; 0x00000808; 0x00000808];
   [0x00000000; 0x00000000; 0x00100000; 0x00100000; 0x00000000; 0x00000000; 0x00100000; 0x00100000;
    0x10000000; 0x10000000; 0x10100000; 0x10100000; 0x10000000; 0x10000000; 0x10100000; 0x10100000];
   [0x00000000; 0x00000000; 0x00000010; 0x00000010; 0x00000000; 0x00000000; 0x00000010; 0x00000010;
    0x00001000; 0x00001000; 0x00001010; 0x00001010; 0x00001000; 0x00001000; 0x00001010; 0x00001010];
   [0x00000000; 0x00000000; 0x00200000; 0x00200000; 0x00000000; 0x00000000; 0x00200000; 0x00200000;
    0x20000000; 0x20000000; 0x20200000; 0x20200000; 0x20000000; 0x20000000; 0x20200000; 0x20200000];
   [0x00000000; 0x00000000; 0x00000020; 0x00000020; 0x00000000; 0x00000000; 0x00000020; 0x00000020;
    0x00002000; 0x00002000; 0x00002020; 0x00002020; 0x00002000; 0x00002000; 0x00002020; 0x00002020];
   [0x00000000; 0x00000000; 0x00400000; 0x00400000; 0x00000000; 0x00000000; 0x00400000; 0x00400000;
    0x40000000; 0x40000000; 0x40400000; 0x40400000; 0x40000000; 0x40000000; 0x40400000; 0x40400000];
   [0x00000000; 0x00000000; 0x00000040; 0x00000040; 0x00000000; 0x00000000; 0x00000040; 0x00000040;
    0x00004000; 0x00004000; 0x00004040; 0x00004040; 0x00004000; 0x00004000; 0x00004040; 0x00004040];
   [0x00000000; 0x00000000; 0x00800000; 0x00800000; 0x00000000; 0x00000000; 0x00800000; 0x00800000;
    0x80000000; 0x80000000; 0x80800000; 0x80800000; 0x80000000; 0x80000000; 0x80800000; 0x80800000];
   [0x00000000; 0x00000000; 0x00000080; 0x00000080; 0x00000000; 0x00000000; 0x00000080; 0x00000080;
    0x00008000; 0x00008000; 0x00008080; 0x00008080; 0x00008000; 0x00008000; 0x00008080; 0x00008080]].

Definition fp_maskl : list (list Z) :=
  [[0x00000000; 0x40000000; 0x00400000; 0x40400000; 0x00004000; 0x40004000; 0x00404000; 0x40404000;
    0x00000040; 0x40000040; 0x00400040; 0x40400040; 0x00004040; 0x40004040; 0x00404040; 0x40404040];
   [0x00000000; 0x10000000; 0x00100000; 0x10100000; 0x00001000; 0x10001000; 0x00101000; 0x10101000;
    0x00000010; 0x10000010; 0x00100010; 0x10100010; 0x00001010; 0x10001010; 0x00101010; 0x10101010];
   [0x00000000; 0x04000000; 0x00040000; 0x04040000; 0x00000400; 0x04000400; 0x00040400; 0x04040400;
    0x00000004; 0x04000004; 0x00040004; 0x04040004; 0x00000404; 0x04000404; 0x00040404; 0x04040404];
   [0x00000000; 0x01000000; 0x00010000; 0x01010000; 0x00000100; 0x01000100; 0x00010100; 0x01010100;
    0x00000001; 0x01000001; 0x00010001; 0x01010001; 0x00000101; 0x01000101; 0x00010101; 0x01010101];
   [0x00000000; 0x80000000; 0x00800000; 0x80800000; 0x00008000; 0x80008000; 0x00808000; 0x80808000;
    0x00000080; 0x80000080; 0x00800080; 0x80800080; 0x00008080; 0x80008080; 0x00808080; 0x80808080];
   [0x00000000; 0x20000000; 0x00200000; 0x20200000; 0x00002000; 0x20002000; 0x00202000; 0x20202000;
    0x00000020; 0x20000020; 0x00200020; 0x20200020; 0x00002020; 0x20002020; 0x00202020; 0x20202020];
   [0x00000000; 0x08000000; 0x00080000; 0x08080000; 0x00000800; 0x08000800; 0x00080800; 0x08080800;
    0x00000008; 0x08000008; 0x00080008; 0x08080008; 0x00000808; 0x08000808; 0x00080808; 0x08080808];
   [0x00000000; 0x02000000; 0x00020000; 0x02020000; 0x00000200; 0x02000200; 0x00020200; 0x02020200;
    0x00000002; 0x02000002; 0x00020002; 0x02020002; 0x00000202; 0x02000202; 0x00020202; 0x02020202]].

Definition fp_maskr : list (list Z) :=
  [[0x00000000; 0x40000000; 0x00400000; 0x40400000; 0x00004000; 0x40004000; 0x00404000; 0x40404000;
    0x00000040; 0x40000040; 0x00400040; 0x40400040; 0x00004040; 0x40004040; 0x00404040; 0x40404040];
   [0x00000000; 0x10000000; 0x00100000; 0x10100000; 0x00001000; 0x10001000; 0x00101000; 0x10101000;
    0x00000010; 0x10000010; 0x00100010; 0x10100010; 0x00001010; 0x10001010; 0x00101010; 0x10101010];
   [0x00000000; 0x04000000; 0x00040000; 0x04040000; 0x00000400; 0x04000400; 0x00040400; 0x04040400;
    0x00000004; 0x04000004; 0x00040004; 0x04040004; 0x00000404; 0x04000404; 0x00040404; 0x04040404];
   [0x00000000; 0x01000000; 0x00010000; 0x01010000; 0x00000100; 0x01000100; 0x00010100; 0x01010100;
    0x00000001; 0x01000001; 0x00010001; 0x01010001; 0x00000101; 0x01000101; 0x00010101; 0x01010101];
   [0x00000000; 0x80000000; 0x00800000; 0x80800000; 0x00008000; 0x80008000; 0x00808000; 0x80808000;
    0x00000080; 0x80000080; 0x00800080; 0x80800080; 0x00008080; 0x80008080; 0x00808080; 0x80808080];
   [0x00000000; 0x20000000; 0x00200000; 0x20200000; 0x00002000; 0x20002000; 0x00202000; 0x20202000;
    0x00000020; 0x20000020; 0x00200020; 0x20200020; 0x00002020; 0x20002020; 0x00202020; 0x20202020];
   [0x00000000; 0x08000000; 0x00080000; 0x08080000; 0x00000800; 0x08000800; 0x00080800; 0x08080800;
    0x00000008; 0x08000008; 0x00080008; 0x08080008; 0x00000808; 0x08000808; 0x00080808; 0x08080808];
   [0x00000000; 0x02000000; 0x00020000; 0x02020000; 0x00000200; 0x02000200; 0x00020200; 0x02020200;
    0x00000002; 0x02000002; 0x00020002; 0x02020002; 0x00000202; 0x02000202; 0x00020202; 0x02020202]].

Definition key_perm_maskl : list (list Z) :=
  [[0x00000000; 0x00000000; 0x00000010; 0x00000010; 0x00001000; 0x00001000; 0x00001010; 0x00001010;
    0x00100000; 0x00100000; 0x00100010; 0x00100010; 0x00101000; 0x00101000; 0x00101010; 0x00101010];
   [0x00000000; 0x00000000; 0x00000020; 0x00000020; 0x00002000; 0x00002000; 0x00002020; 0x00002020;
    0x00200000; 0x00200000; 0x00200020; 0x00200020; 0x00202000; 0x00202000; 0x00202020; 0x00202020];
   [0x00000000; 0x00000000; 0x00000040; 0x00000040; 0x00004000; 0x00004000; 0x00004040; 0x00004040;
    0x00400000; 0x00400000; 0x00400040; 0x00400040; 0x00404000; 0x00404000; 0x00404040; 0x00404040];
   [0x00000000; 0x00000000; 0x00000080; 0x00000080; 0x00008000; 0x00008000; 0x00008080; 0x00008080;
    0x00800000; 0x00800000; 0x00800080; 0x00800080; 0x00808000; 0x00808000; 0x00808080; 0x00808080];
   [0x00000000; 0x00000001; 0x00000100; 0x00000101; 0x00010000; 0x00010001; 0x00010100; 0x00010101;
    0x01000000; 0x01000001; 0x01000100; 0x01000101; 0x01010000; 0x01010001; 0x01010100; 0x01010101];
   [0x00000000; 0x00000002; 0x00000200; 0x00000202; 0x00020000; 0x00020002; 0x00020200; 0x00020202;
    0x02000000; 0x02000002; 0x02000200; 0x02000202; 0x02020000; 0x02020002; 0x02020200; 0x02020202];
   [0x00000000; 0x00000004; 0x00000400; 0x00000404; 0x00040000; 0x00040004; 0x00040400; 0x00040404;
    0x04000000; 0x04000004; 0x04000400; 0x04000404; 0x04040000; 0x04040004; 0x04040400; 0x04040404];
   [0x00000000; 0x00000008; 0x00000800; 0x00000808; 0x00080000; 0x00080008; 0x00080800; 0x00080808;
    0x08000000; 0x08000008; 0x08000800; 0x08000808; 0x08080000; 0x08080008; 0x08080800; 0x08080808]].

Definition key_perm_maskr : list (list Z) :=
  [[0x00000000; 0x00000001; 0x00000000; 0x00000001; 0x00000000; 0x00000001; 0x00000000; 0x00000001;
    0x00000000; 0x00000001; 0x00000000; 0x00000001; 0x00000000; 0x00000001; 0x00000000; 0x00000001];
   [0x00000000; 0x00000000; 0x00100000; 0x00100000; 0x00001000; 0x00001000; 0x00101000; 0x00101000;
    0x00000010; 0x00000010; 0x00100010; 0x00100010; 0x00001010; 0x00001010; 0x00101010; 0x00101010];
   [0x00000000; 0x00000002; 0x00000000; 0x00000002; 0x00000000; 0x00000002; 0x00000000; 0x00000002;
    0x00000000; 0x00000002; 0x00000000; 0x00000002; 0x00000000; 0x00000002; 0x00000000; 0x00000002];
   [0x00000000; 0x00000000; 0x00200000; 0x00200000; 0x00002000; 0x00002000; 0x00202000; 0x00202000;
    0x00000020; 0x00000020; 0x00200020; 0x00200020; 0x00002020; 0x00002020; 0x00202020; 0x00202020];
   [0x00000000; 0x00000004; 0x00000000; 0x00000004; 0x00000000; 0x00000004; 0x00000000; 0x00000004;
    0x00000000; 0x00000004; 0x00000000; 0x00000004; 0x00000000; 0x00000004; 0x00000000; 0x00000004];
   [0x00000000; 0x00000000; 0x00400000; 0x00400000; 0x00004000; 0x00004000; 0x00404000; 0x00404000;
    0x00000040; 0x00000040; 0x00400040; 0x00400040; 0x00004040; 0x00004040; 0x00404040; 0x00404040];
   [0x00000000; 0x00000008; 0x00000000; 0x00000008; 0x00000000; 0x00000008; 0x00000000; 0x00000008;
    0x00000000; 0x00000008; 0x00000000; 0x00000008; 0x00000000; 0x00000008; 0x00000000; 0x00000008];
   [0x00000000; 0x00000000; 0x00800000; 0x00800000; 0x00008000; 0x00008000; 0x00808000; 0x00808000;
    0x00000080; 0x00000080; 0x00800080; 0x00800080; 0x00008080; 0x00008080; 0x00808080; 0x00808080];
   [0x00000000; 0x00000000; 0x01000000; 0x01000000; 0x00010000; 0x00010000; 0x01010000; 0x01010000;
    0x00000100; 0x00000100; 0x01000100; 0x01000100; 0x00010100; 0x00010100; 0x01010100; 0x01010100];
   [0x00000000; 0x00000000; 0x02000000; 0x02000000; 0x00020000; 0x00020000; 0x02020000; 0x02020000;
    0x00000200; 0x00000200; 0x02000200; 0x02000200; 0x00020200; 0x00020200; 0x02020200; 0x02020200];
   [0x00000000; 0x00000000; 0x04000000; 0x04000000; 0x00040000; 0x00040000; 0x04040000; 0x04040000;
    0x00000400; 0x00000400; 0x04000400; 0x04000400; 0x00040400; 0x00040400; 0x04040400; 0x04040400];
   [0x00000000; 0x00000000; 0x08000000; 0x08000000; 0x00080000; 0x00080000; 0x08080000; 0x08080000;
    0x00000800; 0x00000800; 0x08000800; 0x08000800; 0x00080800; 0x00080800; 0x08080800; 0x08080800]].

Definition comp_maskl0 : list (list Z) :=
  [[0x00000000; 0x00020000; 0x00000001; 0x00020001; 0x00080000; 0x000a0000; 0x00080001; 0x000a0001];
   [0x00000000; 0x00001000; 0x00000000; 0x00001000; 0x00000040; 0x00001040; 0x00000040; 0x00001040];
   [0x00000000; 0x00400000; 0x00000020; 0x00400020; 0x00008000; 0x00408000; 0x00008020; 0x00408020];
   [0x00000000; 0x00100000; 0x00000800; 0x00100800; 0x00000000; 0x00100000; 0x00000800; 0x00100800]].

Definition comp_maskr0 : list (list Z) :=
  [[0x00000000; 0x00200000; 0x00020000; 0x00220000; 0x00000002; 0x00200002; 0x00020002; 0x00220002];
   [0x00000000; 0x00000000; 0x00100000; 0x00100000; 0x00000004; 0x00000004; 0x00100004; 0x00100004];
   [0x00000000; 0x00004000; 0x00000800; 0x00004800; 0x00000000; 0x00004000; 0x00000800; 0x00004800];
   [0x00000000; 0x00400000; 0x00008000; 0x00408000; 0x00000008; 0x00400008; 0x00008008; 0x00408008]].

Definition comp_maskl1 : list (list Z) :=
  [[0x00000000; 0x00000010; 0x00004000; 0x00004010; 0x00040000; 0x00040010; 0x00044000; 0x00044010;
    0x00000100; 0x00000110; 0x00004100; 0x00004110; 0x00040100; 0x00040110; 0x00044100; 0x00044110];
   [0x00000000; 0x00800000; 0x00000002; 0x00800002; 0x00000200; 0x00800200; 0x00000202; 0x00800202;
    0x00200000; 0x00a00000; 0x00200002; 0x00a00002; 0x00200200; 0x00a00200; 0x00200202; 0x00a00202];
   [0x00000000; 0x00002000; 0x00000004; 0x00002004; 0x00000400; 0x00002400; 0x00000404; 0x00002404;
    0x00000000; 0x00002000; 0x00000004; 0x00002004; 0x00000400; 0x00002400; 0x00000404; 0x00002404];
   [0x00000000; 0x00010000; 0x00000008; 0x00010008; 0x00000080; 0x00010080; 0x00000088; 0x00010088;
    0x00000000; 0x00010000; 0x00000008; 0x00010008; 0x00000080; 0x00010080; 0x00000088; 0x00010088]].

Definition comp_maskr1 : list (list Z) :=
  [[0x00000000; 0x00000000; 0x00000080; 0x00000080; 0x00002000; 0x00002000; 0x00002080; 0x00002080;
    0x00000001; 0x00000001; 0x00000081; 0x00000081; 0x00002001; 0x00002001; 0x00002081; 0x00002081];
   [0x00000000; 0x00000010; 0x00800000; 0x00800010; 0x00010000; 0x00010010; 0x00810000; 0x00810010;
    0x00000200; 0x00000210; 0x00800200; 0x00800210; 0x00010200; 0x00010210; 0x00810200; 0x00810210];
   [0x00000000; 0x00000400; 0x00001000; 0x00001400; 0x00080000; 0x00080400; 0x00081000; 0x00081400;
    0x00000020; 0x00000420; 0x00001020; 0x00001420; 0x00080020; 0x00080420; 0x00081020; 0x00081420];
   [0x00000000; 0x00000100; 0x00040000; 0x00040100; 0x00000000; 0x00000100; 0x00040000; 0x00040100;
    0x00000040; 0x00000140; 0x00040040; 0x00040140; 0x00000040; 0x00000140; 0x00040040; 0x00040140]].

(** [tab[i][v]] *)
Definition at2 (tab : list (list Z)) (i : nat) (v : Z) : Z := at_ (nth i tab []) (Z.to_nat v).
(** [(w >> ibit) & mask] *)
Definition field (w ibit mask : Z) : Z := Z.land (Z.shiftr w ibit) mask.
Definition be32 (b : list Z) (o : nat) : Z :=
  Z.lor (Z.lor (Z.lor (at_ b (o + 3)) (Z.shiftl (at_ b (o + 2)) 8)) (Z.shiftl (at_ b (o + 1)) 16))
    (Z.shiftl (at_ b o) 24).
Definition or_all (l : list Z) : Z := foldl Z.lor 0 l.

Record expanded_key := mk_ekey { ek_l : list Z; ek_r : list Z }.

(** ** Salts *)

Definition ascii64 : list Z :=
  (fun c => Z.of_N (N_of_ascii c)) <$>
    list_ascii_of_string "./0123456789ABCDEFGHIJKLMNOPQRSTUVWXYZabcdefghijklmnopqrstuvwxyz".

Definition ascii_to_bin (ch : Z) : Z :=
  let sch := if ch <? 0x80 then ch else - (0x100 - ch) in
  let retval := sch - 46 in
  let retval := if 65 <=? sch then
                  let retval := sch - (65 - 12) in
                  if 97 <=? sch then sch - (97 - 38) else retval
                else retval in
  Z.land retval 0x3f.

Definition ascii_is_unsafe (ch : Z) : bool := (ch =? 0) || (ch =? 10) || (ch =? 58).

Definition setup_salt (salt : Z) : Z :=
  (foldl (fun '(saltbits, saltbit, obit) (_ : nat) =>
    (if negb (Z.land salt saltbit =? 0) then Z.lor saltbits obit else saltbits,
     wrap32 (Z.shiftl saltbit 1), Z.shiftr obit 1)) (0, 1, 0x800000) (seq 0 24)).1.1.

(** ** The key schedule *)

(** The permuted key: two 28-bit halves. *)
Definition key_perm (rawkey0 rawkey1 : Z) : Z * Z :=
  foldl (fun '(k0, k1) i =>
    let ibit := 28 - 8 * Z.of_nat i in
    let j := (2 * i)%nat in
    let k0 := Z.lor k0 (Z.lor (at2 key_perm_maskl i (field rawkey0 ibit 0xf))
                              (at2 key_perm_maskl (i + 4) (field rawkey1 ibit 0xf))) in
    let k1 := Z.lor k1 (at2 key_perm_maskr j (field rawkey0 ibit 0xf)) in
    let ibit := ibit - 4 in
    let k1 := Z.lor k1 (Z.lor (at2 key_perm_maskr (j + 1) (field rawkey0 ibit 0xf))
                              (at2 key_perm_maskr (i + 8) (field rawkey1 ibit 0xf))) in
    (k0, k1)) (0, 0) (seq 0 4).

(** The compression permutation of the rotated halves. *)
Definition compress_key (t0 t1 : Z) : Z * Z :=
  foldl (fun '(kl, kr) i =>
    let ibit := 25 - 7 * Z.of_nat i in
    let kl := Z.lor kl (at2 comp_maskl0 i (field t0 ibit 7)) in
    let kr := Z.lor kr (at2 comp_maskr0 i (field t1 ibit 7)) in
    let ibit := ibit - 4 in
    let kl := Z.lor kl (at2 comp_maskl1 i (field t0 ibit 0xf)) in
    let kr := Z.lor kr (at2 comp_maskr1 i (field t1 ibit 0xf)) in
    (kl, kr)) (0, 0) (seq 0 4).

(** A rotation of a 28-bit half; the bits above the half are not used. *)
Definition rot28 (k shifts : Z) : Z := Z.lor (wrap32 (Z.shiftl k shifts)) (Z.shiftr k (28 - shifts)).

Definition __des_setkey (key : list Z) : expanded_key :=
  let rawkey0 := be32 key 0 in
  let rawkey1 := be32 key 4 in
  let '(k0, k1) := key_perm rawkey0 rawkey1 in
  let '(_, ek) := foldl (fun '(shifts, ek) round =>
      let shifts := shifts + at_ key_shifts round in
      let '(kl, kr) := compress_key (rot28 k0 shifts) (rot28 k1 shifts) in
      (shifts, mk_ekey (ek_l ek ++ [kl]) (ek_r ek ++ [kr]))) (0, mk_ekey [] []) (seq 0 16) in
  ek.

(** ** The cipher *)

Definition initial_perm (l_in r_in : Z) : Z * Z :=
  if negb (Z.lor l_in r_in =? 0) then
    foldl (fun '(l, r) i =>
      let ibit := 28 - 4 * Z.of_nat i in
      (Z.lor l (Z.lor (at2 ip_maskl i (field l_in ibit 0xf)) (at2 ip_maskl (i + 8) (field r_in ibit 0xf))),
       Z.lor r (Z.lor (at2 ip_maskr i (field l_in ibit 0xf)) (at2 ip_maskr (i + 8) (field r_in ibit 0xf)))))
      (0, 0) (seq 0 8)
  else (0, 0).

(** Expand R to 48 bits. *)
Definition expand_l (r : Z) : Z :=
  Z.lor (Z.lor (Z.lor (Z.lor (wrap32 (Z.shiftl (Z.land r 0x00000001) 23))
    (Z.shiftr (Z.land r 0xf8000000) 9)) (Z.shiftr (Z.land r 0x1f800000) 11))
    (Z.shiftr (Z.land r 0x01f80000) 13)) (Z.shiftr (Z.land r 0x001f8000) 15).
Definition expand_r (r : Z) : Z :=
  Z.lor (Z.lor (Z.lor (Z.lor (wrap32 (Z.shiftl (Z.land r 0x0001f800) 7))
    (wrap32 (Z.shiftl (Z.land r 0x00001f80) 5))) (wrap32 (Z.shiftl (Z.land r 0x000001f8) 3)))
    (wrap32 (Z.shiftl (Z.land r 0x0000001f) 1))) (Z.shiftr (Z.land r 0x80000000) 31).

(** The S-boxes and the P-box. *)
Definition sbox_lookup (r48l r48r : Z) : Z :=
  Z.lor (Z.lor (Z.lor (Z.lor (Z.lor (Z.lor (Z.lor
    (at2 psbox 0 (Z.shiftr r48l 18)) (at2 psbox 1 (field r48l 12 0x3f)))
    (at2 psbox 2 (field r48l 6 0x3f))) (at2 psbox 3 (Z.land r48l 0x3f)))
    (at2 psbox 4 (Z.shiftr r48r 18))) (at2 psbox 5 (field r48r 12 0x3f)))
    (at2 psbox 6 (field r48r 6 0x3f))) (at2 psbox 7 (Z.land r48r 0x3f)).

(** The round function [f] with the salt. *)
Definition round_f (saltbits r kl kr : Z) : Z :=
  let r48l := expand_l r in
  let r48r := expand_r r in
  let f := Z.land (Z.lxor r48l r48r) saltbits in
  sbox_lookup (Z.lxor r48l (Z.lxor f kl)) (Z.lxor r48r (Z.lxor f kr)).

Definition des_round (saltbits : Z) (st : Z * Z) (k : Z * Z) : Z * Z :=
  let '(l, r) := st in
  let f := Z.lxor (round_f saltbits r k.1 k.2) l in
  (r, f).

(** One iteration: sixteen rounds, then the halves are exchanged. *)
Definition des_iteration (saltbits : Z) (ekey : expanded_key) (st : Z * Z) : Z * Z :=
  let '(l, r) := foldl (des_round saltbits) st (zip (ek_l ekey) (ek_r ekey)) in
  (r, l).

Definition final_perm (l r : Z) : Z * Z :=
  foldl (fun '(lo, ro) i =>
    let ibit := 28 - 8 * Z.of_nat i in
    let ro := Z.lor ro (Z.lor (at2 fp_maskr i (field l ibit 0xf)) (at2 fp_maskr (i + 4) (field r ibit 0xf))) in
    let ibit := ibit - 4 in
    let lo := Z.lor lo (Z.lor (at2 fp_maskl i (field l ibit 0xf)) (at2 fp_maskl (i + 4) (field r ibit 0xf))) in
    (lo, ro)) (0, 0) (seq 0 4).

Definition __do_des (l_in r_in : Z) (count : nat) (saltbits : Z) (ekey : expanded_key) : Z * Z :=
  let '(l, r) := Nat.iter count (des_iteration saltbits ekey) (initial_perm l_in r_in) in
  final_perm l r.

Definition des_cipher (inp : list Z) (count : nat) (saltbits : Z) (ekey : expanded_key) : list Z :=
  let '(l_out, r_out) := __do_des (be32 inp 0) (be32 inp 4) count saltbits ekey in
  be_bytes4 l_out ++ be_bytes4 r_out.

(** ** Passwords *)

(** The first eight bytes of the key, shifted; and what is left of the key. *)
Fixpoint copy_key (n : nat) (key : list Z) : list Z * list Z :=
  match n with
  | O => ([], key)
  | S n =>
      let '(c, key') := match key with c :: key' => (c, key') | [] => (0, []) end in
      let '(q, rest) := copy_key n key' in (wrap8 (Z.shiftl c 1) :: q, rest)
  end.

(** Characters [setting[i]], six bits each, lowest first; [None] for a
    character outside the alphabet. *)
Fixpoint read64 (setting : list Z) (i n : nat) (sh : Z) (acc : Z) : option Z :=
  match n with
  | O => Some acc
  | S n =>
      let value := ascii_to_bin (at_ setting i) in
      if negb (at_ ascii64 (Z.to_nat value) =? at_ setting i) then None
      else read64 setting (S i) n (sh + 6) (Z.lor acc (Z.shiftl value sh))
  end.

(** XOR with the next characters of the key. *)
Fixpoint xor_key (q key : list Z) : list Z * list Z :=
  match q, key with
  | b :: q, c :: key => let '(q, rest) := xor_key q key in (wrap8 (Z.lxor b (Z.shiftl c 1)) :: q, rest)
  | _, _ => (q, key)
  end.

Fixpoint mix_key (n : nat) (keybuf key : list Z) (ekey : expanded_key) : option expanded_key :=
  match key with
  | [] => Some ekey
  | _ =>
      match n with
      | O => None
      | S n =>
          let keybuf := des_cipher keybuf 1 0 ekey in
          let '(keybuf, key) := xor_key keybuf key in
          mix_key n keybuf key (__des_setkey keybuf)
      end
  end.

Definition encode4 (l : Z) : list Z :=
  (fun s => at_ ascii64 (Z.to_nat (field l s 0x3f))) <$> [18; 12; 6; 0].

(** Strings end where their list ends. *)
Definition _crypt_extended_r_uut (key setting : list Z) : option (list Z) :=
  let '(keybuf, rest) := copy_key 8 key in
  let ekey := __des_setkey keybuf in
  '(count, salt, ekey, p) ←
    (if at_ setting 0 =? 95 then
       count ← read64 setting 1 4 0 0;
       if count =? 0 then None else
       salt ← read64 setting 5 4 0 0;
       ekey ← mix_key (length rest) keybuf rest ekey;
       Some (count, salt, ekey, take 9 setting)
     else
       if ascii_is_unsafe (at_ setting 0) || ascii_is_unsafe (at_ setting 1) then None else
       Some (25, Z.lor (Z.shiftl (ascii_to_bin (at_ setting 1)) 6) (ascii_to_bin (at_ setting 0)),
             ekey, [at_ setting 0; at_ setting 1]));
  let '(r0, r1) := __do_des 0 0 (Z.to_nat count) (setup_salt salt) ekey in
  let l3 := wrap32 (Z.shiftl r1 2) in
  Some (p ++ encode4 (Z.shiftr r0 8) ++
        encode4 (Z.lor (wrap32 (Z.shiftl r0 16)) (Z.land (Z.shiftr r1 16) 0xffff)) ++
        ((fun s => at_ ascii64 (Z.to_nat (field l3 s 0x3f))) <$> [12; 6; 0])).

(** ** encrypt and setkey (encrypt.c) *)

(** Eight bytes from 64 characters '0' or '1'. *)
Definition setkey (key : list Z) : expanded_key :=
  let bkey := (fun i => foldl (fun b j => Z.lor b (Z.shiftl (Z.land (at_ key (8 * i + (7 - j))) 1) (Z.of_nat j)))
                          0 (rev (seq 0 8))) <$> seq 0 8 in
  __des_setkey bkey.

Definition block_word (block : list Z) (i : nat) : Z :=
  foldl (fun b j => Z.lor b (wrap32 (Z.shiftl (Z.land (at_ block (32 * i + (31 - j))) 1) (Z.of_nat j))))
    0 (rev (seq 0 32)).
Definition word_bits (w : Z) : list Z := (fun j => Z.land (Z.shiftr w (Z.of_nat j)) 1) <$> rev (seq 0 32).

Definition decrypt_key (ekey : expanded_key) : expanded_key :=
  mk_ekey ((fun i => at_ (ek_l ekey) (15 - i)) <$> seq 0 16) ((fun i => at_ (ek_r ekey) (15 - i)) <$> seq 0 16).

Definition encrypt (__encrypt_key : expanded_key) (block : list Z) (edflag : bool) : list Z :=
  let b0 := block_word block 0 in
  let b1 := block_word block 1 in
  let key := if edflag then decrypt_key __encrypt_key else __encrypt_key in
  let '(b0, b1) := __do_des b0 b1 1 0 key in
  word_bits b0 ++ word_bits b1.

(** The self test of [__crypt_des] runs the hash on a known password. *)
Definition test_key : list Z :=
  [128; 255; 128; 1; 32; 127; 129; 128; 128; 13; 10; 255; 127; 32; 129; 32; 116; 101; 115; 116].
Definition ascii_of (s : string) : list Z := (fun c => Z.of_N (N_of_ascii c)) <$> list_ascii_of_string s.
Definition __crypt_des (key setting : list Z) : list Z :=
  let '(test_setting, test_hash) :=
    if negb (at_ setting 0 =? 95) then (128 :: ascii_of "x", 128 :: ascii_of "x22/wK52ZKGA")
    else (ascii_of "_0.../9Zz", ascii_of "_0.../9ZzX7iSJNd21sU") in
  let retval := _crypt_extended_r_uut key setting in
  match _crypt_extended_r_uut test_key test_setting, retval with
  | Some p, Some retval => if bool_decide (p = test_hash) then retval
                           else if at_ setting 0 =? 42 then ascii_of "x" else ascii_of "*"
  | _, _ => if at_ setting 0 =? 42 then ascii_of "x" else ascii_of "*"
  end.
