(* ===== verification/DesSpec.v ===== *)
(** * DesSpec: the Data Encryption Standard (FIPS 46-3)

    The standard's bit permutations and S-boxes, numbered as it numbers them
    (bit 1 is the most significant), DES as the composition it describes,
    and the lemma by which a table of precomputed words implements a
    permutation. *)

From S2P Require Import Prelude BlockHash.
From Stdlib Require Import ZArith Lia Bool List.
From stdpp Require Import base tactics numbers list.
Open Scope Z_scope.

Definition IP : list Z :=
  [58; 50; 42; 34; 26; 18; 10; 2; 60; 52; 44; 36; 28; 20; 12; 4;
   62; 54; 46; 38; 30; 22; 14; 6; 64; 56; 48; 40; 32; 24; 16; 8;
   57; 49; 41; 33; 25; 17; 9; 1; 59; 51; 43; 35; 27; 19; 11; 3;
   61; 53; 45; 37; 29; 21; 13; 5; 63; 55; 47; 39; 31; 23; 15; 7].
Definition IP_inv : list Z :=
  [40; 8; 48; 16; 56; 24; 64; 32; 39; 7; 47; 15; 55; 23; 63; 31;
   38; 6; 46; 14; 54; 22; 62; 30; 37; 5; 45; 13; 53; 21; 61; 29;
   36; 4; 44; 12; 52; 20; 60; 28; 35; 3; 43; 11; 51; 19; 59; 27;
   34; 2; 42; 10; 50; 18; 58; 26; 33; 1; 41; 9; 49; 17; 57; 25].
Definition E : list Z :=
  [32; 1; 2; 3; 4; 5; 4; 5; 6; 7; 8; 9; 8; 9; 10; 11; 12; 13; 12; 13; 14; 15; 16; 17;
   16; 17; 18; 19; 20; 21; 20; 21; 22; 23; 24; 25; 24; 25; 26; 27; 28; 29; 28; 29; 30; 31; 32; 1].
Definition P : list Z :=
  [16; 7; 20; 21; 29; 12; 28; 17; 1; 15; 23; 26; 5; 18; 31; 10;
   2; 8; 24; 14; 32; 27; 3; 9; 19; 13; 30; 6; 22; 11; 4; 25].
Definition PC1 : list Z :=
  [57; 49; 41; 33; 25; 17; 9; 1; 58; 50; 42; 34; 26; 18; 10; 2; 59; 51; 43; 35; 27; 19; 11; 3; 60; 52; 44; 36;
   63; 55; 47; 39; 31; 23; 15; 7; 62; 54; 46; 38; 30; 22; 14; 6; 61; 53; 45; 37; 29; 21; 13; 5; 28; 20; 12; 4].
Definition PC2 : list Z :=
  [14; 17; 11; 24; 1; 5; 3; 28; 15; 6; 21; 10; 23; 19; 12; 4; 26; 8; 16; 7; 27; 20; 13; 2;
   41; 52; 31; 37; 47; 55; 30; 40; 51; 45; 33; 48; 44; 49; 39; 56; 34; 53; 46; 42; 50; 36; 29; 32].
(** The S-boxes, four rows of sixteen. *)
Definition S_tables : list (list Z) :=
  [[14; 4; 13; 1; 2; 15; 11; 8; 3; 10; 6; 12; 5; 9; 0; 7; 0; 15; 7; 4; 14; 2; 13; 1; 10; 6; 12; 11; 9; 5; 3; 8;
    4; 1; 14; 8; 13; 6; 2; 11; 15; 12; 9; 7; 3; 10; 5; 0; 15; 12; 8; 2; 4; 9; 1; 7; 5; 11; 3; 14; 10; 0; 6; 13];
   [15; 1; 8; 14; 6; 11; 3; 4; 9; 7; 2; 13; 12; 0; 5; 10; 3; 13; 4; 7; 15; 2; 8; 14; 12; 0; 1; 10; 6; 9; 11; 5;
    0; 14; 7; 11; 10; 4; 13; 1; 5; 8; 12; 6; 9; 3; 2; 15; 13; 8; 10; 1; 3; 15; 4; 2; 11; 6; 7; 12; 0; 5; 14; 9];
   [10; 0; 9; 14; 6; 3; 15; 5; 1; 13; 12; 7; 11; 4; 2; 8; 13; 7; 0; 9; 3; 4; 6; 10; 2; 8; 5; 14; 12; 11; 15; 1;
    13; 6; 4; 9; 8; 15; 3; 0; 11; 1; 2; 12; 5; 10; 14; 7; 1; 10; 13; 0; 6; 9; 8; 7; 4; 15; 14; 3; 11; 5; 2; 12];
   [7; 13; 14; 3; 0; 6; 9; 10; 1; 2; 8; 5; 11; 12; 4; 15; 13; 8; 11; 5; 6; 15; 0; 3; 4; 7; 2; 12; 1; 10; 14; 9;
    10; 6; 9; 0; 12; 11; 7; 13; 15; 1; 3; 14; 5; 2; 8; 4; 3; 15; 0; 6; 10; 1; 13; 8; 9; 4; 5; 11; 12; 7; 2; 14];
   [2; 12; 4; 1; 7; 10; 11; 6; 8; 5; 3; 15; 13; 0; 14; 9; 14; 11; 2; 12; 4; 7; 13; 1; 5; 0; 15; 10; 3; 9; 8; 6;
    4; 2; 1; 11; 10; 13; 7; 8; 15; 9; 12; 5; 6; 3; 0; 14; 11; 8; 12; 7; 1; 14; 2; 13; 6; 15; 0; 9; 10; 4; 5; 3];
   [12; 1; 10; 15; 9; 2; 6; 8; 0; 13; 3; 4; 14; 7; 5; 11; 10; 15; 4; 2; 7; 12; 9; 5; 6; 1; 13; 14; 0; 11; 3; 8;
    9; 14; 15; 5; 2; 8; 12; 3; 7; 0; 4; 10; 1; 13; 11; 6; 4; 3; 2; 12; 9; 5; 15; 10; 11; 14; 1; 7; 6; 0; 8; 13];
   [4; 11; 2; 14; 15; 0; 8; 13; 3; 12; 9; 7; 5; 10; 6; 1; 13; 0; 11; 7; 4; 9; 1; 10; 14; 3; 5; 12; 2; 15; 8; 6;
    1; 4; 11; 13; 12; 3; 7; 14; 10; 15; 6; 8; 0; 5; 9; 2; 6; 11; 13; 8; 1; 4; 10; 7; 9; 5; 0; 15; 14; 2; 3; 12];
   [13; 2; 8; 4; 6; 15; 11; 1; 10; 9; 3; 14; 5; 0; 12; 7; 1; 15; 13; 8; 10; 3; 7; 4; 12; 5; 6; 11; 0; 14; 9; 2;
    7; 11; 4; 1; 9; 12; 14; 2; 0; 6; 10; 13; 15; 3; 5; 8; 2; 1; 14; 7; 4; 10; 8; 13; 15; 12; 9; 0; 3; 5; 6; 11]].

(** ** DES *)

(** Output bit [j] is input bit [tab[j]] of [n] bits, both counted from the
    most significant. *)
Definition permz (n : Z) (tab : list Z) (X : Z) : Z :=
  foldl (fun acc p => 2 * acc + Z.b2z (Z.testbit X (n - p))) 0 tab.

(** S-box [i] of six bits: the outer two select the row, the others the
    column. *)
Definition S_box (i : nat) (v : Z) : Z :=
  at_ (nth i S_tables []) (Z.to_nat (16 * (2 * (v / 32) + v `mod` 2) + (v / 2) `mod` 16)).

(** The eight S-boxes on 48 bits. *)
Definition S_all (X : Z) : Z :=
  foldl (fun acc i => 16 * acc + S_box i (Z.land (Z.shiftr X (42 - 6 * Z.of_nat i)) 63)) 0 (seq 0 8).

Definition des_f (R K : Z) : Z := permz 32 P (S_all (Z.lxor (permz 32 E R) K)).

(** Rotation of 28 bits to the left. *)
Definition rotl28 (c s : Z) : Z := wrap 28 (Z.shiftl c s) + Z.shiftr c (28 - s).
(** The total rotation before round [i + 1]. *)
Definition total_shift (i : nat) : Z := at_ [1; 2; 4; 6; 8; 10; 12; 14; 15; 17; 19; 21; 23; 25; 27; 28] i.
Definition round_key (key : Z) (i : nat) : Z :=
  let cd := permz 64 PC1 key in
  let C := Z.shiftr cd 28 in
  let D := wrap 28 cd in
  permz 56 PC2 (rotl28 C (total_shift i) * 2 ^ 28 + rotl28 D (total_shift i)).

Definition des_rounds (f : Z -> Z -> Z) (keys : list Z) (L R : Z) : Z * Z :=
  foldl (fun '(L, R) K => (R, Z.lxor L (f R K))) (L, R) keys.

Definition des_block (f : Z -> Z -> Z) (keys : list Z) (block : Z) : Z :=
  let X := permz 64 IP block in
  let '(L, R) := des_rounds f keys (Z.shiftr X 32) (wrap32 X) in
  permz 64 IP_inv (R * 2 ^ 32 + L).

Definition des_encrypt (key block : Z) : Z := des_block des_f (round_key key <$> seq 0 16) block.
Definition des_decrypt (key block : Z) : Z := des_block des_f (rev (round_key key <$> seq 0 16)) block.

(** ** The salted cipher of crypt *)

(** Bit [i] of the salt exchanges bits [i + 1] and [i + 25] of the output of
    [E]: the mask of a half. *)
Definition salt_mask (salt : Z) : Z := permz 24 ((fun i => 24 - Z.of_nat i) <$> seq 0 24) salt.
Definition salt_swap (salt X : Z) : Z :=
  let m := salt_mask salt in
  let l := Z.shiftr X 24 in
  let r := wrap 24 X in
  Z.lor (Z.land r m) (Z.ldiff l m) * 2 ^ 24 + Z.lor (Z.land l m) (Z.ldiff r m).

Definition des_f_salted (salt R K : Z) : Z :=
  permz 32 P (S_all (Z.lxor (salt_swap salt (permz 32 E R)) K)).
Definition des_salted (salt key block : Z) : Z :=
  des_block (des_f_salted salt) (round_key key <$> seq 0 16) block.

(** The standard's worked example. *)
Example des_example : des_encrypt 0x133457799BBCDFF1 0x0123456789ABCDEF = 0x85E813540F0AB405.
Proof. vm_compute. reflexivity. Qed.
