(* ===== verification/DesTables.v ===== *)
(** * DesTables: bit permutations by tables of precomputed words

    A table whose rows hold, for each value of a field of the source word,
    the permuted bits of that field implements the permutation as the
    disjunction of its entries. The initial, final, key and compression
    permutations of crypt_des.c are such tables. *)

From S2P Require Import Prelude BlockHash DesSpec Des.
From Stdlib Require Import ZArith Lia Bool List String Ascii.
From stdpp Require Import base tactics numbers list option.
Open Scope Z_scope.

(** ** Permutations of bits *)

(** The input bit that output bit [k] (counted from the least significant)
    comes from. *)
Definition src (n : Z) (tab : list Z) (k : nat) : Z := n - at_ tab (length tab - 1 - k).

Lemma permz_snoc n tab p X : permz n (tab ++ [p]) X = 2 * permz n tab X + Z.b2z (Z.testbit X (n - p)).
Proof. unfold permz. by rewrite foldl_app. Qed.

Lemma permz_testbit n tab X (k : nat) :
  (k < length tab)%nat -> Z.testbit (permz n tab X) (Z.of_nat k) = Z.testbit X (src n tab k).
Proof.
  revert k. induction tab as [|p tab IH] using rev_ind; intros k Hk; [simpl in Hk; lia|].
  rewrite permz_snoc. rewrite length_app in Hk. simpl in Hk. unfold src, at_. rewrite length_app. simpl.
  destruct k as [|k].
  - rewrite Z.testbit_0_r, app_nth2 by lia.
    replace (length tab + 1 - 1 - 0 - length tab)%nat with 0%nat by lia. done.
  - rewrite Nat2Z.inj_succ, Z.testbit_succ_r by lia. rewrite IH by lia. unfold src, at_.
    rewrite app_nth1 by lia. do 2 f_equal. f_equal; lia.
Qed.

Lemma permz_range n tab X : 0 <= permz n tab X < 2 ^ Z.of_nat (length tab).
Proof.
  induction tab as [|p tab IH] using rev_ind; [cbn; lia|].
  rewrite permz_snoc, length_app. simpl. rewrite Nat2Z.inj_add, Z.pow_add_r by lia.
  destruct (Z.testbit X (n - p)); simpl; lia.
Qed.

Lemma permz_app n t1 t2 X : permz n (t1 ++ t2) X = permz n t1 X * 2 ^ Z.of_nat (length t2) + permz n t2 X.
Proof.
  induction t2 as [|p t2 IH] using rev_ind.
  - rewrite app_nil_r. change (permz n [] X) with 0. cbn [length]. lia.
  - rewrite app_assoc, !permz_snoc, IH, length_app. simpl. rewrite Nat2Z.inj_add, Z.pow_add_r by lia. lia.
Qed.

(** Equality of [n]-bit words is equality of their bits. *)
Lemma bits_eq (n : nat) a b :
  0 <= a < 2 ^ Z.of_nat n -> 0 <= b < 2 ^ Z.of_nat n ->
  (forall k, (k < n)%nat -> Z.testbit a (Z.of_nat k) = Z.testbit b (Z.of_nat k)) -> a = b.
Proof.
  intros Ha Hb E. apply Z.bits_inj'. intros k Hk. destruct (decide (k < Z.of_nat n)).
  - specialize (E (Z.to_nat k)). rewrite Z2Nat.id in E by lia. apply E. lia.
  - rewrite <- (Z.mod_small a (2 ^ Z.of_nat n)), <- (Z.mod_small b (2 ^ Z.of_nat n)) by done.
    rewrite !Z.mod_pow2_bits_high by lia. done.
Qed.

Lemma lor_range w a b : 0 <= w -> 0 <= a < 2 ^ w -> 0 <= b < 2 ^ w -> 0 <= Z.lor a b < 2 ^ w.
Proof.
  intros Hw Ha Hb. assert (Z.lor a b = Z.lor a b `mod` 2 ^ w) as ->.
  { rewrite <- Z.land_ones, Z.land_lor_distr_l, !Z.land_ones, !Z.mod_small by lia. done. }
  apply Z.mod_pos_bound; lia.
Qed.

Lemma or_all_snoc l x : or_all (l ++ [x]) = Z.lor (or_all l) x.
Proof. unfold or_all. by rewrite foldl_app. Qed.

Lemma or_all_testbit l k : Z.testbit (or_all l) k = existsb (fun x => Z.testbit x k) l.
Proof.
  induction l as [|x l IH] using rev_ind; [apply Z.bits_0|].
  rewrite or_all_snoc, Z.lor_spec, IH, existsb_app. simpl. by rewrite orb_false_r.
Qed.

Lemma or_all_range w l : 0 <= w -> Forall (fun x => 0 <= x < 2 ^ w) l -> 0 <= or_all l < 2 ^ w.
Proof.
  intros Hw. induction l as [|x l IH] using rev_ind; [cbn; lia|].
  rewrite Forall_app, Forall_singleton, or_all_snoc. intros [H1 H2]. apply lor_range; auto.
Qed.

(** ** Tables of precomputed words *)

(** A row of a table covers [s_w] bits of the source word from [s_pos]; its
    entry for [v] has the permuted bits of [s_g v] there. *)
Record seg := mk_seg { s_row : list Z; s_g : Z -> Z; s_pos : Z; s_w : Z }.

Definition covers (sg : seg) (s : Z) : bool := (s_pos sg <=? s) && (s <? s_pos sg + s_w sg).

Definition seg_ok (n : Z) (tab : list Z) (sg : seg) : bool :=
  forallb (fun v =>
    let e := at_ (s_row sg) v in
    let gv := s_g sg (Z.of_nat v) in
    (0 <=? e) && (e <? 2 ^ Z.of_nat (length tab)) &&
    forallb (fun k =>
      let s := src n tab k in
      eqb (Z.testbit e (Z.of_nat k)) (covers sg s && Z.testbit gv (s - s_pos sg))) (seq 0 (length tab)))
    (seq 0 (length (s_row sg))).

Definition segs_cover (n : Z) (tab : list Z) (segs : list seg) : bool :=
  forallb (fun k => existsb (fun sg => covers sg (src n tab k)) segs) (seq 0 (length tab)).

(** [v] selects the row's entry for the bits of [Y]. *)
Definition seg_at (Y : Z) (sg : seg) (v : Z) : Prop :=
  0 <= v < Z.of_nat (length (s_row sg)) /\
  forall j, 0 <= j < s_w sg -> Z.testbit Y (s_pos sg + j) = Z.testbit (s_g sg v) j.

Definition seg_entry (sg : seg) (v : Z) : Z := at_ (s_row sg) (Z.to_nat v).

Lemma seg_ok_entry n tab Y sg v :
  seg_ok n tab sg -> seg_at Y sg v ->
  0 <= seg_entry sg v < 2 ^ Z.of_nat (length tab) /\
  forall k, (k < length tab)%nat ->
    Z.testbit (seg_entry sg v) (Z.of_nat k) = covers sg (src n tab k) && Z.testbit Y (src n tab k).
Proof.
  intros Hok [Hv HY]. unfold seg_entry. apply Is_true_true, forallb_forall with (x := Z.to_nat v) in Hok.
  2: { apply in_seq. lia. }
  apply andb_true_iff in Hok as [Hr Hb]. apply andb_true_iff in Hr as [Hr1 Hr2].
  rewrite Z.leb_le in Hr1. rewrite Z.ltb_lt in Hr2. split; [lia|]. intros k Hk.
  apply forallb_forall with (x := k) in Hb. 2: { apply in_seq. lia. }
  apply eqb_prop in Hb. rewrite Hb. rewrite Z2Nat.id by lia.
  destruct (covers sg (src n tab k)) eqn:C; [|done]. simpl.
  unfold covers in C. apply andb_true_iff in C as [C1 C2]. rewrite Z.leb_le in C1. rewrite Z.ltb_lt in C2.
  rewrite <- HY by lia. f_equal. lia.
Qed.

(** The disjunction of the entries is the permutation. *)
Lemma or_segs n tab Y segs vs :
  forallb (seg_ok n tab) segs = true -> segs_cover n tab segs = true -> Forall2 (seg_at Y) segs vs ->
  or_all (zip_with seg_entry segs vs) = permz n tab Y.
Proof.
  intros Hok Hc H2. apply (bits_eq (length tab)).
  - apply or_all_range; [lia|]. clear Hc. induction H2 as [|sg v segs vs Hsv H2 IH]; [done|].
    simpl in *. apply andb_true_iff in Hok as [Hok1 Hok2]. constructor; [|auto].
    refine (proj1 (seg_ok_entry n tab Y sg v _ Hsv)). by rewrite Hok1.
  - apply permz_range.
  - intros k Hk. rewrite or_all_testbit, permz_testbit by done.
    apply forallb_forall with (x := k) in Hc. 2: { apply in_seq. lia. }
    assert (forall b, existsb (fun sg => covers sg (src n tab k)) segs = b ->
      existsb (fun x => Z.testbit x (Z.of_nat k)) (zip_with seg_entry segs vs) = b && Z.testbit Y (src n tab k)) as G.
    { intros b <-. clear Hc. induction H2 as [|sg v segs vs Hsv H2 IH]; [done|].
      simpl in *. apply andb_true_iff in Hok as [Hok1 Hok2]. rewrite IH by done.
      rewrite (proj2 (seg_ok_entry n tab Y sg v ltac:(by rewrite Hok1) Hsv)) by done.
      destruct (covers sg _), (existsb _ segs), (Z.testbit Y _); done. }
    by rewrite (G true Hc).
Qed.

(** A table that is indexed by a field of a word. *)
Lemma field_testbit W i w j : 0 <= w -> 0 <= j < w -> 0 <= i ->
  Z.testbit (field W i (2 ^ w - 1)) j = Z.testbit W (i + j).
Proof.
  intros Hw Hj Hi. unfold field. rewrite Z.land_spec, Z.shiftr_spec by lia.
  rewrite Z.sub_1_r, <- Z.ones_equiv, Z.ones_spec_low by lia. rewrite andb_true_r. f_equal; lia.
Qed.

Lemma field_range W i w : 0 <= w -> 0 <= field W i (2 ^ w - 1) < 2 ^ w.
Proof. intros Hw. unfold field. rewrite Z.sub_1_r, <- Z.ones_equiv, Z.land_ones by lia. apply Z.mod_pos_bound; lia. Qed.

Lemma field_seg Y row pos w W i :
  0 <= w -> 0 <= i -> Z.of_nat (length row) = 2 ^ w ->
  (forall j, 0 <= j < w -> Z.testbit Y (pos + j) = Z.testbit W (i + j)) ->
  seg_at Y (mk_seg row id pos w) (field W i (2 ^ w - 1)).
Proof.
  intros Hw Hi Hl HY. split; simpl.
  - rewrite Hl. by apply field_range.
  - intros j Hj. rewrite HY, field_testbit by lia. done.
Qed.

(** Two words side by side. *)
Definition cat (w a b : Z) : Z := a * 2 ^ w + b.

Lemma cat_hi w a b i : 0 <= w -> 0 <= i -> 0 <= b < 2 ^ w -> Z.testbit (cat w a b) (w + i) = Z.testbit a i.
Proof.
  intros Hw Hi Hb. unfold cat. rewrite (Z.add_comm w i).
  rewrite <- Z.shiftr_spec, Z.shiftr_div_pow2 by lia.
  rewrite Z.div_add_l by lia. rewrite Z.div_small by lia. f_equal. lia.
Qed.

Lemma cat_lo w a b i : 0 <= i < w -> Z.testbit (cat w a b) i = Z.testbit b i.
Proof.
  intros Hi. unfold cat. rewrite <- (Z.mod_pow2_bits_low _ w) by lia.
  rewrite Z.add_comm, Z.mod_add by lia. by rewrite Z.mod_pow2_bits_low by lia.
Qed.

Lemma cat_split w a b : 0 <= w -> 0 <= b < 2 ^ w -> Z.shiftr (cat w a b) w = a /\ wrap w (cat w a b) = b.
Proof.
  intros Hw Hb. unfold cat, wrap. rewrite Z.shiftr_div_pow2, Z.div_add_l, Z.div_small by lia. split; [lia|].
  rewrite Z.add_comm, Z.mod_add by lia. by apply Z.mod_small.
Qed.

Lemma cat_range w v a b : 0 <= w -> 0 <= v -> in_range v a -> in_range w b -> in_range (v + w) (cat w a b).
Proof. unfold in_range, cat. intros Hw Hv Ha Hb. rewrite Z.pow_add_r by lia. nia. Qed.

Lemma permz_0 n tab : permz n tab 0 = 0.
Proof.
  induction tab as [|p tab IH] using rev_ind; [done|].
  rewrite permz_snoc, IH, Z.bits_0. done.
Qed.

(** The bits of [Y] are those of two words of [w] bits, side by side. *)
Definition halves (w Y a b : Z) : Prop :=
  forall j, 0 <= j < w -> Z.testbit Y (w + j) = Z.testbit a j /\ Z.testbit Y j = Z.testbit b j.

Lemma cat_halves w a b : in_range w b -> halves w (cat w a b) a b.
Proof. unfold in_range. intros Hb j Hj. split; [apply cat_hi|apply cat_lo]; lia. Qed.

Lemma halves_hi w Y a b p q : halves w Y a b -> p = w + q -> 0 <= q < w -> Z.testbit Y p = Z.testbit a q.
Proof. intros H -> Hq. by apply H. Qed.
Lemma halves_lo w Y a b p q : halves w Y a b -> p = q -> 0 <= q < w -> Z.testbit Y p = Z.testbit b q.
Proof. intros H -> Hq. by apply H. Qed.

(** A field of a half of a double word. *)
Ltac seg_field :=
  apply (field_seg _ _ _ _ _ _); [lia|lia|reflexivity|];
  let j := fresh "j" in intros j ?;
  first [ eapply halves_hi; [eassumption|lia|lia] | eapply halves_lo; [eassumption|lia|lia] ].
(** The disjunction a table loop computes, entry by entry. *)
Ltac or_flatten :=
  unfold or_all, at2, seg_entry;
  cbn [foldl seq flat_map app zip_with s_row Nat.add Nat.mul];
  rewrite ?Z.lor_assoc, ?Z.lor_0_l; reflexivity.
Ltac segs_at := cbn [flat_map seq app]; repeat apply List.Forall2_cons; try apply List.Forall2_nil; seg_field.
(** A table loop is a permutation: the check of the rows, then the fields. *)
Ltac table_perm := apply or_segs; [vm_compute; reflexivity|vm_compute; reflexivity|segs_at].

(** ** The initial and final permutations *)

Definition ip_segs (mask : list (list Z)) : list seg :=
  flat_map (fun i => [mk_seg (nth i mask []) id (60 - 4 * Z.of_nat i) 4;
                      mk_seg (nth (i + 8) mask []) id (28 - 4 * Z.of_nat i) 4]) (seq 0 8).
Definition ip_fields (l r : Z) : list Z :=
  flat_map (fun i => [field l (28 - 4 * Z.of_nat i) (2 ^ 4 - 1); field r (28 - 4 * Z.of_nat i) (2 ^ 4 - 1)]) (seq 0 8).


Lemma initial_perm_correct l r :
  in_range 32 l -> in_range 32 r ->
  initial_perm l r = (permz 64 (take 32 IP) (cat 32 l r), permz 64 (drop 32 IP) (cat 32 l r)).
Proof.
  intros Hl Hr. unfold initial_perm. destruct (Z.eqb_spec (Z.lor l r) 0) as [E|E]; cbn [negb].
  - apply Z.lor_eq_0_iff in E as [-> ->]. change (cat 32 0 0) with 0. by rewrite !permz_0.
  - pose proof (cat_halves 32 l r Hr) as H.
    transitivity (or_all (zip_with seg_entry (ip_segs ip_maskl) (ip_fields l r)),
                  or_all (zip_with seg_entry (ip_segs ip_maskr) (ip_fields l r))).
    + unfold ip_segs, ip_fields. or_flatten.
    + f_equal; unfold ip_segs, ip_fields; table_perm.
Qed.

Definition fp_segs (mask : list (list Z)) (o : Z) : list seg :=
  flat_map (fun i => [mk_seg (nth i mask []) id (32 + o - 8 * Z.of_nat i) 4;
                      mk_seg (nth (i + 4) mask []) id (o - 8 * Z.of_nat i) 4]) (seq 0 4).

Lemma final_perm_correct l r :
  in_range 32 r ->
  final_perm l r = (permz 64 (take 32 IP_inv) (cat 32 l r), permz 64 (drop 32 IP_inv) (cat 32 l r)).
Proof.
  intros Hr. pose proof (cat_halves 32 l r Hr) as H.
  transitivity
    (or_all (zip_with seg_entry (fp_segs fp_maskl 24)
       (flat_map (fun i => [field l (28 - 8 * Z.of_nat i - 4) (2 ^ 4 - 1); field r (28 - 8 * Z.of_nat i - 4) (2 ^ 4 - 1)]) (seq 0 4))),
     or_all (zip_with seg_entry (fp_segs fp_maskr 28)
       (flat_map (fun i => [field l (28 - 8 * Z.of_nat i) (2 ^ 4 - 1); field r (28 - 8 * Z.of_nat i) (2 ^ 4 - 1)]) (seq 0 4)))).
  - unfold fp_segs, final_perm. or_flatten.
  - f_equal; unfold fp_segs; table_perm.
Qed.

(** ** The key schedule *)

Lemma key_perm_correct a b :
  in_range 32 b ->
  key_perm a b = (permz 64 (take 28 PC1) (cat 32 a b), permz 64 (drop 28 PC1) (cat 32 a b)).
Proof.
  intros Hb. pose proof (cat_halves 32 a b Hb) as H.
  transitivity
    (or_all (zip_with seg_entry (fp_segs key_perm_maskl 28)
       (flat_map (fun i => [field a (28 - 8 * Z.of_nat i) (2 ^ 4 - 1); field b (28 - 8 * Z.of_nat i) (2 ^ 4 - 1)]) (seq 0 4))),
     or_all (zip_with seg_entry
       (flat_map (fun i => [mk_seg (nth (2 * i) key_perm_maskr []) id (60 - 8 * Z.of_nat i) 4;
                            mk_seg (nth (2 * i + 1) key_perm_maskr []) id (56 - 8 * Z.of_nat i) 4;
                            mk_seg (nth (i + 8) key_perm_maskr []) id (24 - 8 * Z.of_nat i) 4]) (seq 0 4))
       (flat_map (fun i => [field a (28 - 8 * Z.of_nat i) (2 ^ 4 - 1); field a (28 - 8 * Z.of_nat i - 4) (2 ^ 4 - 1);
                            field b (28 - 8 * Z.of_nat i - 4) (2 ^ 4 - 1)]) (seq 0 4)))).
  - unfold fp_segs, key_perm. or_flatten.
  - f_equal; unfold fp_segs; table_perm.
Qed.

Definition comp_segs (m0 m1 : list (list Z)) (o : Z) : list seg :=
  flat_map (fun i => [mk_seg (nth i m0 []) id (o + 25 - 7 * Z.of_nat i) 3;
                      mk_seg (nth i m1 []) id (o + 21 - 7 * Z.of_nat i) 4]) (seq 0 4).
Definition comp_fields (t : Z) : list Z :=
  flat_map (fun i => [field t (25 - 7 * Z.of_nat i) (2 ^ 3 - 1); field t (25 - 7 * Z.of_nat i - 4) (2 ^ 4 - 1)]) (seq 0 4).

Lemma compress_key_correct t0 t1 Y :
  halves 28 Y t0 t1 -> compress_key t0 t1 = (permz 56 (take 24 PC2) Y, permz 56 (drop 24 PC2) Y).
Proof.
  intros H.
  transitivity
    (or_all (zip_with seg_entry (comp_segs comp_maskl0 comp_maskl1 28) (comp_fields t0)),
     or_all (zip_with seg_entry (comp_segs comp_maskr0 comp_maskr1 0) (comp_fields t1))).
  - unfold comp_segs, comp_fields, compress_key. or_flatten.
  - f_equal; unfold comp_segs, comp_fields; table_perm.
Qed.
