(* ===== verification/DesProofs.v ===== *)
(** * DesProofs: crypt_des.c and encrypt.c implement DES

    The key schedule, the rounds and the (salted, iterated) cipher of Des.v
    are those of the standard, by the tables of DesTables; decryption inverts
    encryption; [setkey] and [encrypt] do this on blocks of bits. *)

From S2P Require Import Prelude BlockHash DesSpec Des DesTables.
From Stdlib Require Import ZArith Lia Bool List String Ascii.
From stdpp Require Import base tactics numbers list option.
Open Scope Z_scope.

Lemma rot28_bits k s j :
  in_range 28 k -> 0 <= s <= 28 -> 0 <= j < 28 -> Z.testbit (rot28 k s) j = Z.testbit (rotl28 k s) j.
Proof.
  unfold in_range. intros Hk Hs Hj.
  assert (Z.land (wrap 28 (Z.shiftl k s)) (Z.shiftr k (28 - s)) = 0) as D.
  { apply Z.bits_inj'. intros i Hi. rewrite Z.land_spec, Z.bits_0, Z.shiftr_spec by lia. unfold wrap.
    destruct (decide (i < 28)); [rewrite Z.mod_pow2_bits_low by lia|by rewrite Z.mod_pow2_bits_high by lia].
    rewrite Z.shiftl_spec by lia. destruct (decide (i < s)); [by rewrite Z.testbit_neg_r by lia|].
    rewrite andb_comm, <- (Z.mod_small k (2 ^ 28)), Z.mod_pow2_bits_high by lia. done. }
  unfold rotl28. rewrite Z.add_nocarry_lxor, Z.lxor_lor by done. unfold rot28, wrap.
  rewrite !Z.lor_spec, !Z.mod_pow2_bits_low by lia. done.
Qed.

Lemma rotl28_range k s : in_range 28 k -> 0 <= s <= 28 -> in_range 28 (rotl28 k s).
Proof.
  unfold in_range. intros Hk Hs. unfold rotl28, wrap. rewrite Z.shiftl_mul_pow2, Z.shiftr_div_pow2 by lia.
  assert (2 ^ 28 = 2 ^ s * 2 ^ (28 - s)) as E by (rewrite <- Z.pow_add_r by lia; f_equal; lia).
  rewrite E, Z.mul_comm, Z.mul_mod_distr_l by lia.
  pose proof (Z.mod_pos_bound k (2 ^ (28 - s)) ltac:(lia)).
  assert (0 <= k / 2 ^ (28 - s) < 2 ^ s) by (split; [apply Z.div_pos|apply Z.div_lt_upper_bound]; lia). nia.
Qed.

Definition be64 (key : list Z) : Z := cat 32 (be32 key 0) (be32 key 4).

Lemma be32_range b o : Forall is_byte b -> in_range 32 (be32 b o).
Proof.
  intros H. assert (forall i, in_range 8 (at_ b i)) as B.
  { intros i. unfold at_. destruct (nth_in_or_default i b 0) as [Hi| ->]; [|unfold in_range; lia].
    exact (proj1 (List.Forall_forall _ _) H _ Hi). }
  unfold be32, in_range in *. pose proof (B o). pose proof (B (o + 1)%nat). pose proof (B (o + 2)%nat).
  pose proof (B (o + 3)%nat). repeat apply lor_range; rewrite ?Z.shiftl_mul_pow2 by lia; lia.
Qed.

Lemma total_shift_range i : 0 <= total_shift i <= 28.
Proof. unfold total_shift. do 16 (destruct i as [|i]; [cbn; lia|]). destruct i; cbn; lia. Qed.

Lemma total_shift_0 : 0 + at_ key_shifts 0 = total_shift 0.
Proof. reflexivity. Qed.
Lemma total_shift_S i : (i < 15)%nat -> total_shift i + at_ key_shifts (S i) = total_shift (S i).
Proof. intros Hi. do 15 (destruct i as [|i]; [reflexivity|]). lia. Qed.

(** The two halves of a 48-bit word. *)
Lemma permz_halves n tab k X :
  (k <= length tab)%nat ->
  Z.shiftr (permz n tab X) (Z.of_nat (length tab - k)) = permz n (take k tab) X /\
  wrap (Z.of_nat (length tab - k)) (permz n tab X) = permz n (drop k tab) X.
Proof.
  intros Hk.
  assert (permz n tab X = cat (Z.of_nat (length tab - k)) (permz n (take k tab) X) (permz n (drop k tab) X)) as ->.
  { rewrite <- (take_drop k tab) at 1. by rewrite permz_app, length_drop. }
  apply cat_split; [lia|].
  rewrite <- length_drop. apply permz_range.
Qed.

Definition hi24 (K : Z) : Z := Z.shiftr K 24.
Definition lo24 (K : Z) : Z := wrap 24 K.

Lemma round_key_compress key i :
  Forall is_byte key ->
  let k := key_perm (be32 key 0) (be32 key 4) in
  compress_key (rot28 k.1 (total_shift i)) (rot28 k.2 (total_shift i)) =
  (hi24 (round_key (be64 key) i), lo24 (round_key (be64 key) i)).
Proof.
  intros Hk. pose proof (total_shift_range i). cbv zeta. rewrite key_perm_correct by by apply be32_range.
  cbn [fst snd]. fold (be64 key).
  pose proof (permz_halves 64 PC1 28 (be64 key) ltac:(cbn; lia)) as [E1 E2].
  change (Z.of_nat (length PC1 - 28)) with 28 in E1, E2.
  unfold round_key. rewrite E1, E2.
  pose proof (permz_range 64 (take 28 PC1) (be64 key)). pose proof (permz_range 64 (drop 28 PC1) (be64 key)).
  set (C := permz 64 (take 28 PC1) (be64 key)) in *. set (D := permz 64 (drop 28 PC1) (be64 key)) in *.
  change (rotl28 C (total_shift i) * 2 ^ 28 + rotl28 D (total_shift i))
    with (cat 28 (rotl28 C (total_shift i)) (rotl28 D (total_shift i))).
  set (Y := cat 28 _ _).
  rewrite (compress_key_correct _ _ Y).
  - pose proof (permz_halves 56 PC2 24 Y ltac:(cbn; lia)) as [E3 E4].
    change (Z.of_nat (length PC2 - 24)) with 24 in E3, E4. unfold hi24, lo24. by rewrite E3, E4.
  - intros j Hj. rewrite !rot28_bits by (done || lia). apply cat_halves; [|done]. by apply rotl28_range.
Qed.

Lemma des_setkey_correct key :
  Forall is_byte key ->
  __des_setkey key = mk_ekey ((fun i => hi24 (round_key (be64 key) i)) <$> seq 0 16)
                             ((fun i => lo24 (round_key (be64 key) i)) <$> seq 0 16).
Proof.
  intros Hk. unfold __des_setkey. pose proof (round_key_compress key) as R. cbv zeta in R.
  destruct (key_perm (be32 key 0) (be32 key 4)) as [k0 k1]. cbn [fst snd] in R.
  match goal with |- context [foldl ?f _ _] => set (F := f) end.
  assert (forall n, (n < 16)%nat -> foldl F (0, mk_ekey [] []) (seq 0 (S n)) =
    (total_shift n, mk_ekey ((fun i => hi24 (round_key (be64 key) i)) <$> seq 0 (S n))
                            ((fun i => lo24 (round_key (be64 key) i)) <$> seq 0 (S n)))) as G.
  { induction n as [|n IH]; intros Hn.
    - cbn [seq foldl]. unfold F. rewrite total_shift_0, R by done. done.
    - rewrite seq_S, foldl_app, IH by lia. cbn [foldl Nat.add]. unfold F at 1.
      rewrite total_shift_S, R by (done || lia). rewrite !fmap_app. done. }
  rewrite (G 15%nat) by lia. done.
Qed.

(** ** The round function *)

Definition salt_step (salt : Z) (st : Z * Z * Z) : Z * Z * Z :=
  let '(saltbits, saltbit, obit) := st in
  (if negb (Z.land salt saltbit =? 0) then Z.lor saltbits obit else saltbits,
   wrap32 (Z.shiftl saltbit 1), Z.shiftr obit 1).

Lemma land_pow2_testbit a i : 0 <= i -> negb (Z.land a (2 ^ i) =? 0) = Z.testbit a i.
Proof.
  intros Hi. destruct (Z.testbit a i) eqn:E.
  - apply negb_true_iff, Z.eqb_neq. intros H. apply (f_equal (fun x => Z.testbit x i)) in H.
    rewrite Z.land_spec, Z.pow2_bits_true, E, Z.bits_0 in H by lia. done.
  - apply negb_false_iff, Z.eqb_eq, Z.bits_inj'. intros j Hj. rewrite Z.land_spec, Z.bits_0.
    destruct (decide (i = j)) as [<-|]; [by rewrite E|]. by rewrite Z.pow2_bits_false, andb_false_r by lia.
Qed.

Lemma salt_loop salt n : (n <= 24)%nat ->
  exists sb, Nat.iter n (salt_step salt) (0, 1, 2 ^ 23) = (sb, 2 ^ Z.of_nat n, Z.shiftr (2 ^ 23) (Z.of_nat n)) /\
    0 <= sb < 2 ^ 24 /\
    forall k, 0 <= k < 24 -> Z.testbit sb k = (23 - k <? Z.of_nat n) && Z.testbit salt (23 - k).
Proof.
  induction n as [|n IH]; intros Hn.
  - exists 0. split_and!; [done|lia|lia|]. intros k Hk. rewrite Z.bits_0.
    by destruct (Z.ltb_spec (23 - k) (Z.of_nat 0)); [lia|].
  - destruct IH as (sb & E & Hr & Hb); [lia|].
    exists (if Z.testbit salt (Z.of_nat n) then Z.lor sb (2 ^ (23 - Z.of_nat n)) else sb).
    pose proof (Z.pow_le_mono_r 2 (23 - Z.of_nat n) 23 ltac:(lia) ltac:(lia)).
    pose proof (Z.pow_pos_nonneg 2 (23 - Z.of_nat n) ltac:(lia) ltac:(lia)). split; [|split].
    + cbn [Nat.iter nat_rect]. unfold Nat.iter in E. rewrite E. unfold salt_step. rewrite land_pow2_testbit by lia.
      rewrite Z.shiftr_shiftr by lia. f_equal; [f_equal|f_equal; lia].
      * destruct (Z.testbit salt _); [|done]. f_equal. rewrite Z.shiftr_div_pow2, <- Z.pow_sub_r by lia. done.
      * rewrite Z.shiftl_mul_pow2, Nat2Z.inj_succ, Z.pow_succ_r, wrap_small by (try (split; [lia|]); try lia;
          rewrite <- Z.pow_add_r by lia; apply Z.pow_lt_mono_r; lia). lia.
    + destruct (Z.testbit salt _); [|lia]. apply lor_range; lia.
    + intros k Hk. assert (Z.testbit (2 ^ (23 - Z.of_nat n)) k = (23 - k =? Z.of_nat n)) as E2.
      { rewrite Z.pow2_bits_eqb by lia. apply eq_bool_prop_intro. rewrite !Is_true_true, !Z.eqb_eq. split; lia. }
      assert ((23 - k <? Z.of_nat (S n)) = (23 - k <? Z.of_nat n) || (23 - k =? Z.of_nat n)) as ->.
      { destruct (Z.ltb_spec (23 - k) (Z.of_nat (S n))), (Z.ltb_spec (23 - k) (Z.of_nat n)),
          (Z.eqb_spec (23 - k) (Z.of_nat n)); first [reflexivity | exfalso; lia]. }
      destruct (Z.eqb_spec (23 - k) (Z.of_nat n)) as [Eq|Hne].
      * destruct (Z.testbit salt (Z.of_nat n)) eqn:T; [by rewrite Z.lor_spec, E2, Eq, T, !orb_true_r|].
        rewrite Hb by done. by rewrite Eq, T, !andb_false_r.
      * rewrite orb_false_r. destruct (Z.testbit salt _); rewrite ?Z.lor_spec, ?E2, ?orb_false_r; by apply Hb.
Qed.

Lemma foldl_iter {A B} (f : A -> B -> A) (g : A -> A) l st :
  (forall a b, f a b = g a) -> foldl f st l = Nat.iter (length l) g st.
Proof.
  intros E. induction l as [|x l IH] using rev_ind; [done|].
  rewrite foldl_app, IH, length_app, Nat.add_comm. cbn. apply E.
Qed.

Lemma setup_salt_correct salt : setup_salt salt = salt_mask salt.
Proof.
  unfold setup_salt. rewrite (foldl_iter _ (salt_step salt)) by by intros [[? ?] ?].
  change 0x800000 with (2 ^ 23). change (length (seq 0 24)) with 24%nat.
  destruct (salt_loop salt 24) as (sb & -> & Hr & Hb); [lia|]. cbn [fst].
  apply (bits_eq 24); [done| |].
  - unfold salt_mask. exact (permz_range _ _ _).
  - intros k Hk. rewrite Hb by lia. unfold salt_mask. rewrite permz_testbit by done.
    do 24 (destruct k as [|k]; [reflexivity|]). lia.
Qed.

Lemma and_shr_bit r m s k : 0 <= s -> 0 <= k ->
  Z.testbit (Z.shiftr (Z.land r m) s) k = Z.testbit m (k + s) && Z.testbit r (k + s).
Proof. intros Hs Hk. rewrite Z.shiftr_spec, Z.land_spec by lia. apply andb_comm. Qed.
Lemma and_shl_bit r m s k : 0 <= k < 32 ->
  Z.testbit (wrap32 (Z.shiftl (Z.land r m) s)) k = Z.testbit m (k - s) && Z.testbit r (k - s).
Proof.
  intros Hk. unfold wrap. rewrite Z.mod_pow2_bits_low by lia. rewrite Z.shiftl_spec, Z.land_spec by lia.
  apply andb_comm.
Qed.

(** Bit [k] of the expansion, for a given [k]. *)
Ltac expand_bit :=
  rewrite !Z.lor_spec, ?and_shr_bit, ?and_shl_bit by lia;
  repeat match goal with
  | |- context [Z.testbit (Zpos ?p) ?i] =>
      let v := eval vm_compute in (Z.testbit (Zpos p) i) in change (Z.testbit (Zpos p) i) with v
  end;
  rewrite ?andb_true_l, ?andb_false_l, ?orb_false_l, ?orb_false_r; reflexivity.

Lemma wrap32_range z : 0 <= wrap32 z < 2 ^ 32.
Proof. exact (wrap_range 32 z ltac:(lia)). Qed.

Lemma testbit_high w a k : in_range w a -> w <= k -> Z.testbit a k = false.
Proof.
  intros Ha Hk. destruct (decide (0 <= w)).
  - rewrite <- (Z.mod_small a (2 ^ w)) by exact Ha. apply Z.mod_pow2_bits_high; lia.
  - unfold in_range in Ha. rewrite Z.pow_neg_r in Ha by lia. lia.
Qed.

Lemma range_of_bits w a : 0 <= w -> 0 <= a -> (forall k, w <= k -> Z.testbit a k = false) -> in_range w a.
Proof.
  intros Hw Ha H. assert (a = a `mod` 2 ^ w) as ->; [|apply wrap_range; lia].
  apply Z.bits_inj'. intros k Hk. destruct (decide (k < w)); [by rewrite Z.mod_pow2_bits_low by lia|].
  rewrite Z.mod_pow2_bits_high by lia. apply H. lia.
Qed.

Lemma lor4_range w a b c d e : 0 <= w -> in_range w a -> in_range w b -> in_range w c -> in_range w d -> in_range w e ->
  in_range w (Z.lor (Z.lor (Z.lor (Z.lor a b) c) d) e).
Proof. intros. repeat apply lor_range; done. Qed.

Lemma masked_shr_range r m s : 0 <= s -> in_range 24 (Z.shiftr (Zpos m) s) -> 0 <= r -> in_range 24 (Z.shiftr (Z.land r (Zpos m)) s).
Proof.
  intros Hs Hm Hr. apply range_of_bits; [lia|apply Z.shiftr_nonneg, Z.land_nonneg; lia|]. intros k Hk.
  rewrite Z.shiftr_land, Z.land_spec, (testbit_high 24 (Z.shiftr (Zpos m) s)) by done. apply andb_false_r.
Qed.
Lemma masked_shl_range r m s : 0 <= s -> in_range 24 (Z.shiftl (Zpos m) s) -> 0 <= r ->
  in_range 24 (wrap32 (Z.shiftl (Z.land r (Zpos m)) s)).
Proof.
  intros Hs Hm Hr. apply range_of_bits; [lia|apply wrap32_range|]. intros k Hk. unfold wrap.
  destruct (decide (k < 32)); [rewrite Z.mod_pow2_bits_low by lia|by rewrite Z.mod_pow2_bits_high by lia].
  rewrite Z.shiftl_land, Z.land_spec, (testbit_high 24 (Z.shiftl (Zpos m) s)) by done. apply andb_false_r.
Qed.

Lemma expand_correct r :
  in_range 32 r -> expand_l r = permz 32 (take 24 E) r /\ expand_r r = permz 32 (drop 24 E) r.
Proof.
  intros [Hr _]. split; (apply (bits_eq 24); [|exact (permz_range _ _ _)|]).
  1, 3: unfold expand_l, expand_r; apply lor4_range; [lia|..];
    first [apply masked_shr_range | apply masked_shl_range]; (done || (vm_compute; done)).
  all: intros k Hk; rewrite permz_testbit by done; unfold expand_l, expand_r, src;
    do 24 (destruct k as [|k]; [expand_bit|]); lia.
Qed.

(** A number by its hexadecimal digits, most significant first. *)
Definition digits (ds : list Z) : Z := foldl (fun acc d => 16 * acc + d) 0 ds.

Lemma digits_testbit ds (i : nat) j :
  Forall (in_range 4) ds -> (i < length ds)%nat -> 0 <= j < 4 ->
  Z.testbit (digits ds) (4 * Z.of_nat (length ds - 1 - i) + j) = Z.testbit (at_ ds i) j.
Proof.
  intros Hd. revert i. induction ds as [|d ds IH] using rev_ind; intros i Hi Hj; [simpl in Hi; lia|].
  rewrite Forall_app, Forall_singleton in Hd. destruct Hd as [Hds Hd].
  assert (digits (ds ++ [d]) = cat 4 (digits ds) d) as -> by (unfold digits, cat; rewrite foldl_app; cbn; lia).
  rewrite length_app in *. cbn [length] in *. unfold at_. destruct (decide (i < length ds)%nat).
  - rewrite app_nth1 by done. fold (at_ ds i). rewrite <- (IH Hds i) by lia.
    replace (4 * Z.of_nat (length ds + 1 - 1 - i) + j) with (4 + (4 * Z.of_nat (length ds - 1 - i) + j)) by lia.
    apply cat_hi; [lia|lia|exact Hd].
  - rewrite app_nth2 by lia. replace (i - length ds)%nat with 0%nat by lia.
    replace (4 * Z.of_nat (length ds + 1 - 1 - i) + j) with j by lia. by apply cat_lo.
Qed.

Lemma S_box_range i v : in_range 4 (S_box i v).
Proof.
  assert (forallb (forallb (fun x => (0 <=? x) && (x <? 16))) S_tables = true) as H by (vm_compute; reflexivity).
  rewrite forallb_forall in H.
  unfold S_box, at_. set (row := nth i S_tables []).
  set (k := Z.to_nat _). destruct (nth_in_or_default k row 0) as [Hk| ->]; [|unfold in_range; lia].
  unfold row in *. destruct (nth_in_or_default i S_tables []) as [Hi|Hi]; [|by rewrite Hi in Hk].
  apply H in Hi. rewrite forallb_forall in Hi. apply Hi in Hk.
  apply andb_true_iff in Hk as [H1 H2]. unfold in_range. lia.
Qed.

Definition sbox_segs : list seg :=
  (fun i => mk_seg (nth i psbox []) (S_box i) (28 - 4 * Z.of_nat i) 4) <$> seq 0 8.
Definition sixes (X : Z) : list Z := (fun i => Z.land (Z.shiftr X (42 - 6 * Z.of_nat i)) 63) <$> seq 0 8.

Lemma S_all_digits X : S_all X = digits ((fun i => S_box i (Z.land (Z.shiftr X (42 - 6 * Z.of_nat i)) 63)) <$> seq 0 8).
Proof. unfold S_all, digits. rewrite foldl_fmap. f_equal. Qed.

Lemma sbox_segs_at X : Forall2 (seg_at (S_all X)) sbox_segs (sixes X).
Proof.
  unfold sbox_segs, sixes. apply Forall2_fmap, Forall_Forall2_diag, Forall_forall. intros i Hi.
  apply in_seq in Hi. split.
  - assert (length (nth i psbox []) = 64%nat) as L by (do 8 (destruct i as [|i]; [reflexivity|]); lia).
    cbn [s_row]. rewrite L. apply (field_range X (42 - 6 * Z.of_nat i) 6); lia.
  - cbn [s_pos s_w s_g]. intros j Hj. rewrite S_all_digits.
    set (ds := (fun i => S_box i (Z.land (Z.shiftr X (42 - 6 * Z.of_nat i)) 63)) <$> seq 0 8).
    assert (length ds = 8%nat) as Ld by reflexivity.
    replace (28 - 4 * Z.of_nat i + j) with (4 * Z.of_nat (length ds - 1 - i) + j) by lia.
    rewrite digits_testbit; [|apply Forall_fmap, Forall_true; intros; apply S_box_range|lia|lia].
    f_equal. unfold at_, ds.
    do 8 (destruct i as [|i]; [reflexivity|]). lia.
Qed.

Lemma sbox_table X : or_all (zip_with seg_entry sbox_segs (sixes X)) = permz 32 P (S_all X).
Proof. apply or_segs; [vm_compute; reflexivity|vm_compute; reflexivity|apply sbox_segs_at]. Qed.

Lemma sixes_halves a b :
  in_range 24 a -> in_range 24 b ->
  sixes (cat 24 a b) =
  [Z.shiftr a 18; field a 12 63; field a 6 63; Z.land a 63; Z.shiftr b 18; field b 12 63; field b 6 63; Z.land b 63].
Proof.
  intros Ha Hb. pose proof (cat_halves 24 a b Hb) as H.
  assert (forall i k, 0 <= i -> 24 + i = k -> i + 6 <= 24 -> Z.land (Z.shiftr (cat 24 a b) k) 63 = field a i (2 ^ 6 - 1)) as Hi.
  { intros i k H1 H2 H3. change 63 with (2 ^ 6 - 1). fold (field (cat 24 a b) k (2 ^ 6 - 1)).
    apply (bits_eq 6); [apply field_range; lia..|]. intros j Hj. rewrite !field_testbit by lia.
    eapply halves_hi; [exact H|lia|lia]. }
  assert (forall i, 0 <= i -> i + 6 <= 24 -> Z.land (Z.shiftr (cat 24 a b) i) 63 = field b i (2 ^ 6 - 1)) as Lo.
  { intros i H1 H2. change 63 with (2 ^ 6 - 1). fold (field (cat 24 a b) i (2 ^ 6 - 1)).
    apply (bits_eq 6); [apply field_range; lia..|]. intros j Hj. rewrite !field_testbit by lia.
    eapply halves_lo; [exact H|lia|lia]. }
  assert (forall x, in_range 24 x -> field x 18 (2 ^ 6 - 1) = Z.shiftr x 18) as Top.
  { intros x [X1 X2]. unfold field. change (2 ^ 6 - 1) with (Z.ones 6). rewrite Z.land_ones, Z.shiftr_div_pow2 by lia.
    apply Z.mod_small. split; [apply Z.div_pos|apply Z.div_lt_upper_bound]; lia. }
  unfold sixes. cbn [fmap list_fmap seq].
  repeat match goal with |- context [42 - 6 * Z.of_nat ?n] =>
    let v := eval vm_compute in (42 - 6 * Z.of_nat n) in change (42 - 6 * Z.of_nat n) with v end.
  rewrite (Hi 18 42), (Hi 12 36), (Hi 6 30), (Hi 0 24), (Lo 18), (Lo 12), (Lo 6), (Lo 0), !Top by (done || lia).
  unfold field. by rewrite !Z.shiftr_0_r.
Qed.

Lemma sbox_lookup_correct a b :
  in_range 24 a -> in_range 24 b -> sbox_lookup a b = permz 32 P (S_all (cat 24 a b)).
Proof.
  intros Ha Hb. rewrite <- sbox_table, sixes_halves by done.
  unfold sbox_segs, sbox_lookup. cbn [fmap list_fmap seq]. or_flatten.
Qed.

(** ** Rounds *)

Lemma cat_lxor w a b c d :
  0 <= w -> in_range w b -> in_range w d -> 0 <= a -> 0 <= c ->
  cat w (Z.lxor a c) (Z.lxor b d) = Z.lxor (cat w a b) (cat w c d).
Proof.
  intros Hw Hb Hd Ha Hc. apply Z.bits_inj'. intros k Hk. rewrite Z.lxor_spec.
  destruct (decide (k < w)); [by rewrite !cat_lo, Z.lxor_spec by lia|].
  replace k with (w + (k - w)) by lia.
  rewrite !cat_hi, Z.lxor_spec by (lia || done || by apply lxor_range). done.
Qed.

Lemma hi_lo_24 X : cat 24 (hi24 X) (lo24 X) = X.
Proof.
  unfold cat, hi24, lo24, wrap. rewrite Z.shiftr_div_pow2 by lia. rewrite Z.mul_comm. symmetry. apply Z.div_mod. lia.
Qed.

(** Exchanging two bits under a mask, by exclusive or. *)
Lemma swap_mask l r m :
  Z.lxor l (Z.land (Z.lxor l r) m) = Z.lor (Z.land r m) (Z.ldiff l m).
Proof.
  apply Z.bits_inj'. intros k Hk. rewrite Z.lxor_spec, Z.land_spec, Z.lxor_spec, Z.lor_spec, Z.land_spec, Z.ldiff_spec.
  by destruct (Z.testbit l k), (Z.testbit r k), (Z.testbit m k).
Qed.

Lemma swap_mask_range l r m w : 0 <= w -> in_range w l -> in_range w r -> in_range w (Z.lor (Z.land r m) (Z.ldiff l m)).
Proof.
  intros Hw Hl Hr. pose proof Hl as [L _]. pose proof Hr as [R _].
  apply range_of_bits; [done|apply Z.lor_nonneg; split; [apply Z.land_nonneg|apply Z.ldiff_nonneg]; lia|].
  intros k Hk. by rewrite Z.lor_spec, Z.land_spec, Z.ldiff_spec, (testbit_high w l), (testbit_high w r).
Qed.

Lemma salt_swap_cat salt X :
  salt_swap salt X =
  let l := Z.shiftr X 24 in let r := wrap 24 X in let m := salt_mask salt in
  cat 24 (Z.lor (Z.land r m) (Z.ldiff l m)) (Z.lor (Z.land l m) (Z.ldiff r m)).
Proof. reflexivity. Qed.

Lemma permz_24_range n tab X : length tab = 24%nat -> in_range 24 (permz n tab X).
Proof. intros H. pose proof (permz_range n tab X) as R. rewrite H in R. exact R. Qed.

(** One round with the salt is the standard's, on the round key [K]. *)
Lemma round_f_correct salt r K :
  in_range 32 r -> in_range 48 K ->
  round_f (setup_salt salt) r (hi24 K) (lo24 K) = des_f_salted salt r K.
Proof.
  intros Hr [K1 K2]. unfold round_f. destruct (expand_correct r Hr) as [-> ->].
  rewrite setup_salt_correct. set (m := salt_mask salt).
  pose proof (permz_24_range 32 (take 24 E) r eq_refl) as Hl. pose proof (permz_24_range 32 (drop 24 E) r eq_refl) as Hrr.
  pose proof (permz_halves 32 E 24 r ltac:(cbn; lia)) as [E1 E2].
  change (Z.of_nat (length E - 24)) with 24 in E1, E2.
  set (l := permz 32 (take 24 E) r) in *. set (rr := permz 32 (drop 24 E) r) in *.
  assert (in_range 24 (hi24 K)) as HK.
  { unfold hi24, in_range. rewrite Z.shiftr_div_pow2 by lia. split; [apply Z.div_pos|apply Z.div_lt_upper_bound]; lia. }
  assert (in_range 24 (lo24 K)) as LK by (apply (wrap_range 24); lia).
  rewrite <- !Z.lxor_assoc, swap_mask. rewrite (Z.lxor_comm l rr) at 1. rewrite swap_mask.
  rewrite sbox_lookup_correct by (apply lxor_range; [lia| |done]; by apply swap_mask_range).
  unfold des_f_salted. f_equal. f_equal. rewrite salt_swap_cat, E1, E2. fold m.
  rewrite <- (hi_lo_24 K) at 3. apply cat_lxor; [lia|by apply swap_mask_range|done| |apply HK].
  by apply (swap_mask_range l rr m 24).
Qed.

Lemma des_f_salted_range salt r K : in_range 32 (des_f_salted salt r K).
Proof. unfold des_f_salted. exact (permz_range 32 P _). Qed.

Lemma des_rounds_range f keys l r :
  (forall r K, in_range 32 (f r K)) -> in_range 32 l -> in_range 32 r ->
  in_range 32 (des_rounds f keys l r).1 /\ in_range 32 (des_rounds f keys l r).2.
Proof.
  intros Hf. revert l r. induction keys as [|K keys IH]; intros l r Hl Hr; [done|].
  apply (IH r (Z.lxor l (f r K))); [done|]. apply lxor_range; auto; lia.
Qed.

Lemma rounds_correct salt keys l r :
  Forall (in_range 48) keys -> in_range 32 l -> in_range 32 r ->
  foldl (des_round (setup_salt salt)) (l, r) (zip (hi24 <$> keys) (lo24 <$> keys)) =
  des_rounds (des_f_salted salt) keys l r.
Proof.
  intros Hk. revert l r. induction Hk as [|K keys HK Hk IH]; intros l r Hl Hr; [done|].
  unfold des_rounds. cbn [fmap list_fmap zip zip_with foldl des_round fst snd].
  rewrite round_f_correct by done. rewrite (Z.lxor_comm _ l).
  apply IH; [done|]. apply lxor_range; [lia|done|apply des_f_salted_range].
Qed.

Lemma round_key_range key i : in_range 48 (round_key key i).
Proof. unfold round_key. exact (permz_range 56 PC2 _). Qed.

(** ** The block cipher *)

#[local] Opaque permz.

Definition perm_inverse (n : nat) (t1 t2 : list Z) : bool :=
  forallb (fun k => let j := src (Z.of_nat n) t2 k in
             (0 <=? j) && (j <? Z.of_nat n) && (src (Z.of_nat n) t1 (Z.to_nat j) =? Z.of_nat k)) (seq 0 n).

Lemma permz_inverse n t1 t2 X :
  length t1 = n -> length t2 = n -> perm_inverse n t1 t2 = true -> in_range (Z.of_nat n) X ->
  permz (Z.of_nat n) t2 (permz (Z.of_nat n) t1 X) = X.
Proof.
  intros L1 L2 Hi HX. pose proof (permz_range (Z.of_nat n) t2 (permz (Z.of_nat n) t1 X)) as R2. rewrite L2 in R2.
  apply (bits_eq n); [exact R2|exact HX|].
  intros k Hk. rewrite permz_testbit by lia. unfold perm_inverse in Hi. rewrite forallb_forall in Hi.
  specialize (Hi k ltac:(apply in_seq; lia)). cbv zeta in Hi.
  rewrite !andb_true_iff, Z.leb_le, Z.ltb_lt, Z.eqb_eq in Hi. destruct Hi as [[H1 H2] H3].
  rewrite <- (Z2Nat.id (src _ t2 k)) by lia. rewrite permz_testbit by lia. by rewrite H3.
Qed.

Lemma ip_inverse t1 t2 X :
  length t1 = 64%nat -> length t2 = 64%nat -> perm_inverse 64 t1 t2 = true -> in_range 64 X ->
  permz 64 t2 (permz 64 t1 X) = X.
Proof. exact (permz_inverse 64 t1 t2 X). Qed.

Lemma permz_64_range n tab X : length tab = 64%nat -> in_range 64 (permz n tab X).
Proof. intros H. pose proof (permz_range n tab X) as R. rewrite H in R. exact R. Qed.

Definition ip (X : Z) : Z * Z := (Z.shiftr (permz 64 IP X) 32, wrap32 (permz 64 IP X)).
Definition fp (st : Z * Z) : Z := permz 64 IP_inv (cat 32 st.1 st.2).
Definition in_words (st : Z * Z) : Prop := in_range 32 st.1 /\ in_range 32 st.2.

Lemma fp_range st : in_range 64 (fp st).
Proof. by apply permz_64_range. Qed.
Lemma split_64 X : cat 32 (Z.shiftr X 32) (wrap32 X) = X.
Proof.
  unfold cat, wrap. rewrite Z.shiftr_div_pow2 by lia. rewrite Z.mul_comm. symmetry. apply Z.div_mod. lia.
Qed.
Lemma words_of_64 X : in_range 64 X -> in_words (Z.shiftr X 32, wrap32 X).
Proof.
  intros [X1 X2]. split; [|apply wrap32_range]. unfold in_range. cbn [fst]. rewrite Z.shiftr_div_pow2 by lia.
  split; [apply Z.div_pos|apply Z.div_lt_upper_bound]; lia.
Qed.
Lemma ip_words X : in_words (ip X).
Proof. unfold ip. apply words_of_64, permz_64_range. reflexivity. Qed.

Lemma fp_ip X : in_range 64 X -> fp (ip X) = X.
Proof.
  intros HX. unfold fp, ip. cbn [fst snd]. rewrite split_64.
  apply (ip_inverse IP IP_inv); [reflexivity|reflexivity|vm_compute; reflexivity|done].
Qed.
Lemma ip_fp st : in_words st -> ip (fp st) = st.
Proof.
  intros [H1 H2]. unfold ip, fp. rewrite (ip_inverse IP_inv IP); [|reflexivity|reflexivity|vm_compute; reflexivity|].
  - destruct (cat_split 32 st.1 st.2) as [-> ->]; [lia|exact H2|]. by destruct st.
  - apply (cat_range 32 32); (lia || done).
Qed.

(** Sixteen rounds and the exchange of the halves. *)
Definition core (f : Z -> Z -> Z) (keys : list Z) (st : Z * Z) : Z * Z :=
  let '(L, R) := des_rounds f keys st.1 st.2 in (R, L).

Lemma des_block_core f keys X : des_block f keys X = fp (core f keys (ip X)).
Proof. unfold des_block, core, ip. cbn [fst snd]. by destruct (des_rounds _ _ _ _). Qed.

Lemma core_words f keys st : (forall r K, in_range 32 (f r K)) -> in_words st -> in_words (core f keys st).
Proof.
  intros Hf [H1 H2]. unfold core. destruct (des_rounds_range f keys st.1 st.2 Hf H1 H2) as [A B].
  by destruct (des_rounds f keys st.1 st.2).
Qed.

Lemma iter_block f keys n X :
  (forall r K, in_range 32 (f r K)) -> in_range 64 X ->
  Nat.iter n (des_block f keys) X = fp (Nat.iter n (core f keys) (ip X)) /\ in_words (Nat.iter n (core f keys) (ip X)).
Proof.
  intros Hf HX. induction n as [|n [IH IW]]; cbn [Nat.iter nat_rect].
  - split; [by rewrite fp_ip|apply ip_words].
  - unfold Nat.iter in *. rewrite IH, des_block_core, ip_fp by done. split; [done|by apply core_words].
Qed.

Lemma iteration_correct salt keys st :
  Forall (in_range 48) keys -> in_words st ->
  des_iteration (setup_salt salt) (mk_ekey (hi24 <$> keys) (lo24 <$> keys)) st = core (des_f_salted salt) keys st.
Proof.
  intros Hk [H1 H2]. unfold des_iteration, core. destruct st as [l r]. cbn [ek_l ek_r fst snd] in *.
  by rewrite rounds_correct by done.
Qed.

Lemma iterations_correct salt keys n st :
  Forall (in_range 48) keys -> in_words st ->
  Nat.iter n (des_iteration (setup_salt salt) (mk_ekey (hi24 <$> keys) (lo24 <$> keys))) st =
  Nat.iter n (core (des_f_salted salt) keys) st /\ in_words (Nat.iter n (core (des_f_salted salt) keys) st).
Proof.
  intros Hk Hst. induction n as [|n [IH IW]]; [done|]. cbn [Nat.iter nat_rect]. unfold Nat.iter in *.
  rewrite IH, iteration_correct by done. split; [done|]. apply core_words; [|done]. intros. apply des_f_salted_range.
Qed.

(** The cipher on any round keys. *)
Lemma do_des_keys l r count salt keys :
  in_range 32 l -> in_range 32 r -> Forall (in_range 48) keys ->
  let X := Nat.iter count (des_block (des_f_salted salt) keys) (cat 32 l r) in
  __do_des l r count (setup_salt salt) (mk_ekey (hi24 <$> keys) (lo24 <$> keys)) = (Z.shiftr X 32, wrap32 X).
Proof.
  intros Hl Hr Hk X. unfold __do_des.
  assert (initial_perm l r = ip (cat 32 l r)) as ->.
  { rewrite initial_perm_correct by done. unfold ip.
    pose proof (permz_halves 64 IP 32 (cat 32 l r) ltac:(cbn; lia)) as [E1 E2].
    change (Z.of_nat (length IP - 32)) with 32 in E1, E2. by rewrite E1, E2. }
  destruct (iterations_correct salt keys count (ip (cat 32 l r)) Hk (ip_words _)) as [-> HW].
  unfold X. edestruct (iter_block (des_f_salted salt) keys count) as [-> _];
    [intros; apply des_f_salted_range|by apply (cat_range 32 32)|].
  revert HW. generalize (Nat.iter count (core (des_f_salted salt) keys) (ip (cat 32 l r))).
  intros [l' r'] [_ Hr']. cbn [snd] in Hr'. rewrite final_perm_correct by done.
  unfold fp. cbn [fst snd].
  pose proof (permz_halves 64 IP_inv 32 (cat 32 l' r') ltac:(cbn; lia)) as [E1 E2].
  change (Z.of_nat (length IP_inv - 32)) with 32 in E1, E2. by rewrite E1, E2.
Qed.

Definition round_keys (key : list Z) : list Z := round_key (be64 key) <$> seq 0 16.

Lemma round_keys_range key : Forall (in_range 48) (round_keys key).
Proof. apply Forall_fmap, Forall_true. intros. apply round_key_range. Qed.

Lemma setkey_round_keys key :
  Forall is_byte key -> __des_setkey key = mk_ekey (hi24 <$> round_keys key) (lo24 <$> round_keys key).
Proof. intros H. rewrite des_setkey_correct by done. unfold round_keys. by rewrite <- !list_fmap_compose. Qed.

(** C3: [__do_des] on the key schedule of [__des_setkey] is DES: for any
    64-bit block, [count] iterations give the two halves of the block after
    [count] encryptions by FIPS 46-3 with the salt's exchange of expansion
    bits. *)
Theorem do_des_correct l r count salt key :
  in_range 32 l -> in_range 32 r -> Forall is_byte key ->
  let X := Nat.iter count (des_salted salt (be64 key)) (cat 32 l r) in
  __do_des l r count (setup_salt salt) (__des_setkey key) = (Z.shiftr X 32, wrap32 X).
Proof.
  intros Hl Hr Hk. rewrite setkey_round_keys by done. apply do_des_keys; [done..|apply round_keys_range].
Qed.

(** Without a salt the expansion is the standard's. *)
Lemma des_f_salted_0 R K : des_f_salted 0 R K = des_f R K.
Proof.
  unfold des_f_salted, des_f. f_equal. f_equal. f_equal. rewrite salt_swap_cat. cbv zeta.
  assert (salt_mask 0 = 0) as -> by (vm_compute; reflexivity). rewrite !Z.land_0_r, !Z.lor_0_l, !Z.ldiff_0_r.
  set (X := permz 32 E R). exact (hi_lo_24 X).
Qed.
Lemma des_block_ext f g keys X : (forall R K, f R K = g R K) -> des_block f keys X = des_block g keys X.
Proof.
  intros E. unfold des_block. assert (forall l r, des_rounds f keys l r = des_rounds g keys l r) as ->; [|done].
  induction keys as [|K keys IH]; intros l r; [done|]. unfold des_rounds in *. cbn [foldl]. rewrite E. apply IH.
Qed.

(** ** Decryption *)

Lemma rounds_inverse f keys l r l' r' :
  des_rounds f keys l r = (l', r') -> des_rounds f (rev keys) r' l' = (r, l).
Proof.
  revert l r. induction keys as [|K keys IH]; intros l r H.
  - injection H as <- <-. done.
  - unfold des_rounds in *. cbn [foldl rev] in *. apply IH in H. rewrite foldl_app, H. cbn [foldl].
    by rewrite Z.lxor_assoc, Z.lxor_nilpotent, Z.lxor_0_r.
Qed.

Lemma core_inverse f keys st : core f (rev keys) (core f keys st) = st.
Proof.
  unfold core. destruct st as [l r]. cbn [fst snd]. destruct (des_rounds f keys l r) as [l' r'] eqn:H.
  cbn [fst snd]. by rewrite (rounds_inverse _ _ _ _ _ _ H).
Qed.

Lemma des_block_inverse f keys X :
  (forall r K, in_range 32 (f r K)) -> in_range 64 X -> des_block f (rev keys) (des_block f keys X) = X.
Proof.
  intros Hf HX. rewrite !des_block_core, ip_fp by (apply core_words; [done|apply ip_words]).
  by rewrite core_inverse, fp_ip.
Qed.

(** ** Blocks of bits *)

(** The number a list of characters '0' and '1' (or of any odd and even
    values) denotes, first character most significant. *)
Definition bitval (l : list Z) : Z := foldl (fun acc c => 2 * acc + Z.b2z (Z.odd c)) 0 l.
(** The low bit of each character. *)
Definition low_bits (block : list Z) : list Z := (fun c => Z.land c 1) <$> block.
Definition bits64 (X : Z) : list Z := (fun j => Z.b2z (Z.testbit X (Z.of_nat j))) <$> rev (seq 0 64).

Lemma bitval_range l : in_range (Z.of_nat (length l)) (bitval l).
Proof.
  unfold in_range, bitval. induction l as [|c l IH] using rev_ind; [cbn; lia|].
  rewrite foldl_app, length_app, Nat2Z.inj_add, Z.pow_add_r by lia. cbn [foldl length].
  change (2 ^ Z.of_nat 1) with 2. destruct (Z.odd c); cbn [Z.b2z]; lia.
Qed.

Lemma bitval_testbit l (k : nat) :
  (k < length l)%nat -> Z.testbit (bitval l) (Z.of_nat k) = Z.odd (at_ l (length l - 1 - k)).
Proof.
  revert k. induction l as [|c l IH] using rev_ind; intros k Hk; [simpl in Hk; lia|].
  assert (bitval (l ++ [c]) = 2 * bitval l + Z.b2z (Z.odd c)) as -> by (unfold bitval; by rewrite foldl_app).
  rewrite length_app in *. cbn [length] in *. unfold at_ in *. destruct k as [|k].
  - rewrite Z.testbit_0_r, app_nth2 by lia. by replace (length l + 1 - 1 - 0 - length l)%nat with 0%nat by lia.
  - rewrite Nat2Z.inj_succ, Z.testbit_succ_r by lia. rewrite IH by lia. rewrite app_nth1 by lia. do 2 f_equal. lia.
Qed.

Lemma land_1_odd c : Z.land c 1 = Z.b2z (Z.odd c).
Proof. change 1 with (Z.ones 1). rewrite Z.land_ones by lia. apply Zmod_odd. Qed.

Lemma b2z_shift_testbit (b : bool) j k : 0 <= j -> 0 <= k -> Z.testbit (Z.shiftl (Z.b2z b) j) k = (j =? k) && b.
Proof.
  intros Hj Hk. rewrite Z.shiftl_spec by lia. destruct (Z.eqb_spec j k) as [->|H].
  - rewrite Z.sub_diag. by destruct b.
  - destruct (decide (k < j)); [by rewrite Z.testbit_neg_r by lia|].
    assert (in_range 1 (Z.b2z b)) as R by (destruct b; unfold in_range; cbn; lia).
    apply (testbit_high 1); [done|lia].
Qed.

(** A loop that sets one bit at a time. *)
Lemma bit_loop n (c : nat -> Z) (g : nat -> Z) :
  (forall j, (j < n)%nat -> g j = Z.shiftl (Z.b2z (Z.odd (c j))) (Z.of_nat j)) ->
  let b := foldl (fun b j => Z.lor b (g j)) 0 (rev (seq 0 n)) in
  in_range (Z.of_nat n) b /\ forall k, (k < n)%nat -> Z.testbit b (Z.of_nat k) = Z.odd (c k).
Proof.
  intros Hg b. assert (b = or_all (g <$> rev (seq 0 n))) as -> by (unfold b, or_all; by rewrite foldl_fmap).
  split.
  - apply or_all_range; [lia|]. apply Forall_fmap, List.Forall_forall. intros j Hj.
    rewrite <- in_rev, in_seq in Hj. cbn [compose]. rewrite Hg by lia. rewrite Z.shiftl_mul_pow2 by lia.
    pose proof (Z.pow_lt_mono_r 2 (Z.of_nat j) (Z.of_nat n) ltac:(lia) ltac:(lia) ltac:(lia)).
    destruct (Z.odd (c j)); cbn [Z.b2z]; lia.
  - intros k Hk. rewrite or_all_testbit.
    assert (forall l, (forall j, In j l -> (j < n)%nat) ->
      existsb (fun x => Z.testbit x (Z.of_nat k)) (g <$> l) = existsb (Nat.eqb k) l && Z.odd (c k)) as G.
    { induction l as [|j l IH]; intros Hl; [done|]. cbn [fmap list_fmap existsb]. fold (g <$> l).
      rewrite IH by (intros; apply Hl; by right). rewrite Hg, b2z_shift_testbit by (first [apply Hl; by left|lia]).
      destruct (Nat.eqb_spec k j) as [->|Hne]; [rewrite Z.eqb_refl|destruct (Z.eqb_spec (Z.of_nat j) (Z.of_nat k)); [lia|]];
        destruct (Z.odd (c _)), (existsb _ l); try done. all: by rewrite ?andb_false_r. }
    rewrite G by (intros j Hj; rewrite <- in_rev, in_seq in Hj; lia).
    assert (existsb (Nat.eqb k) (rev (seq 0 n)) = true) as ->; [|done].
    apply existsb_exists. exists k. rewrite Nat.eqb_refl, <- in_rev, in_seq. split; [lia|done].
Qed.

Lemma at_byte b i : Forall is_byte b -> in_range 8 (at_ b i).
Proof.
  intros H. unfold at_. destruct (nth_in_or_default i b 0) as [Hi| ->]; [|unfold in_range; lia].
  exact (proj1 (List.Forall_forall _ _) H _ Hi).
Qed.

Lemma lor_cat w a b : 0 <= w -> in_range w b -> Z.lor b (Z.shiftl a w) = cat w a b.
Proof.
  intros Hw Hb. apply Z.bits_inj'. intros k Hk. rewrite Z.lor_spec, Z.shiftl_spec by lia.
  destruct (decide (k < w)).
  - rewrite cat_lo by lia. rewrite (Z.testbit_neg_r _ (k - w)) by lia. apply orb_false_r.
  - rewrite (testbit_high w b) by (done || lia). symmetry. replace k with (w + (k - w)) at 1 by lia. apply cat_hi; (done || lia).
Qed.

Lemma be32_cat b o :
  Forall is_byte b ->
  be32 b o = cat 24 (at_ b o) (cat 16 (at_ b (o + 1)) (cat 8 (at_ b (o + 2)) (at_ b (o + 3)))).
Proof.
  intros H. unfold be32. rewrite (lor_cat 8) by (lia || by apply at_byte).
  rewrite (lor_cat 16) by (lia || apply (cat_range 8 8); (lia || by apply at_byte)).
  rewrite (lor_cat 24); [done|lia|]. apply (cat_range 16 8); [lia|lia|by apply at_byte|].
  apply (cat_range 8 8); (lia || by apply at_byte).
Qed.

Lemma be32_testbit b o (k : nat) :
  Forall is_byte b -> (k < 32)%nat ->
  Z.testbit (be32 b o) (Z.of_nat k) = Z.testbit (at_ b (o + (3 - k / 8))) (Z.of_nat (k mod 8)).
Proof.
  intros Hb Hk. pose proof (fun i => at_byte b i Hb) as B. rewrite be32_cat by done.
  pose proof (cat_range 8 8 (at_ b (o + 2)) (at_ b (o + 3)) ltac:(lia) ltac:(lia) (B _) (B _)) as C1.
  pose proof (cat_range 16 8 (at_ b (o + 1)) _ ltac:(lia) ltac:(lia) (B _) C1) as C2.
  pose proof (Nat.div_mod_eq k 8) as E. pose proof (Nat.mod_upper_bound k 8 ltac:(lia)) as M.
  assert (k / 8 = 0 \/ k / 8 = 1 \/ k / 8 = 2 \/ k / 8 = 3)%nat as [D|[D|[D|D]]] by lia; rewrite D in *.
  - rewrite !cat_lo by lia. f_equal. lia.
  - rewrite !cat_lo by lia. replace (Z.of_nat k) with (8 + Z.of_nat (k mod 8)) by lia. rewrite cat_hi by (done || lia || apply B). done.
  - rewrite cat_lo by lia. replace (Z.of_nat k) with (16 + Z.of_nat (k mod 8)) by lia. rewrite cat_hi by (done || lia). done.
  - replace (Z.of_nat k) with (24 + Z.of_nat (k mod 8)) by lia. rewrite cat_hi by (done || lia). do 2 f_equal. lia.
Qed.

(** A word of a block. *)
Lemma block_word_bits block i :
  in_range 32 (block_word block i) /\
  forall k, (k < 32)%nat -> Z.testbit (block_word block i) (Z.of_nat k) = Z.odd (at_ block (32 * i + (31 - k))).
Proof.
  unfold block_word. apply (bit_loop 32 (fun j => at_ block (32 * i + (31 - j)))). intros j Hj.
  rewrite land_1_odd. apply wrap_small. rewrite Z.shiftl_mul_pow2 by lia.
  pose proof (Z.pow_lt_mono_r 2 (Z.of_nat j) 32 ltac:(lia) ltac:(lia) ltac:(lia)). unfold in_range.
  destruct (Z.odd _); cbn [Z.b2z]; lia.
Qed.

Lemma block_words block :
  length block = 64%nat -> cat 32 (block_word block 0) (block_word block 1) = bitval block.
Proof.
  intros Hlen. destruct (block_word_bits block 0) as [R0 B0]. destruct (block_word_bits block 1) as [R1 B1].
  apply (bits_eq 64); [by apply (cat_range 32 32)|rewrite <- Hlen; apply bitval_range|].
  intros k Hk. rewrite bitval_testbit by lia. rewrite Hlen. destruct (decide (k < 32)%nat).
  - rewrite cat_lo by lia. rewrite B1 by lia. do 2 f_equal. lia.
  - replace (Z.of_nat k) with (32 + Z.of_nat (k - 32)) by lia. rewrite cat_hi by (done || lia). rewrite B0 by lia.
    do 2 f_equal. lia.
Qed.

Definition key_bytes (key : list Z) : list Z :=
  (fun i => foldl (fun b j => Z.lor b (Z.shiftl (Z.land (at_ key (8 * i + (7 - j))) 1) (Z.of_nat j)))
              0 (rev (seq 0 8))) <$> seq 0 8.

Lemma key_byte_bits key i :
  let b := foldl (fun b j => Z.lor b (Z.shiftl (Z.land (at_ key (8 * i + (7 - j))) 1) (Z.of_nat j))) 0 (rev (seq 0 8)) in
  in_range 8 b /\ forall k, (k < 8)%nat -> Z.testbit b (Z.of_nat k) = Z.odd (at_ key (8 * i + (7 - k))).
Proof. apply (bit_loop 8 (fun j => at_ key (8 * i + (7 - j)))). intros j Hj. by rewrite land_1_odd. Qed.

Lemma key_bytes_ok key : Forall is_byte (key_bytes key).
Proof. apply Forall_fmap, Forall_true. intros i. apply (key_byte_bits key i). Qed.

Lemma key_bytes_bit key i (k : nat) :
  (i < 8)%nat -> (k < 8)%nat -> Z.testbit (at_ (key_bytes key) i) (Z.of_nat k) = Z.odd (at_ key (8 * i + (7 - k))).
Proof.
  intros Hi Hk. unfold at_ at 1, key_bytes.
  erewrite nth_lookup_Some; [apply (key_byte_bits key i); exact Hk|].
  rewrite list_lookup_fmap, lookup_seq_lt by lia. done.
Qed.

Lemma key_bytes_val key : length key = 64%nat -> be64 (key_bytes key) = bitval key.
Proof.
  intros Hlen. pose proof (key_bytes_ok key) as Hb. apply (bits_eq 64);
    [apply (cat_range 32 32); [lia|lia|by apply be32_range|by apply be32_range]|rewrite <- Hlen; apply bitval_range|].
  intros k Hk. rewrite bitval_testbit by lia. rewrite Hlen. unfold be64.
  pose proof (be32_range (key_bytes key) 4 Hb) as R4. destruct (decide (k < 32)%nat).
  - pose proof (Nat.div_mod_eq k 8) as E. pose proof (Nat.mod_upper_bound k 8 ltac:(lia)) as M.
    rewrite cat_lo by lia. rewrite be32_testbit, key_bytes_bit by (done || lia). do 2 f_equal. lia.
  - replace (Z.of_nat k) with (32 + Z.of_nat (k - 32)) by lia. rewrite cat_hi by (done || lia).
    pose proof (Nat.div_mod_eq (k - 32) 8) as E. pose proof (Nat.mod_upper_bound (k - 32) 8 ltac:(lia)) as M.
    rewrite be32_testbit, key_bytes_bit by (done || lia). do 2 f_equal. lia.
Qed.

Lemma word_bits_cat a b :
  in_range 32 b -> word_bits a ++ word_bits b = bits64 (cat 32 a b).
Proof.
  intros Hb. assert (rev (seq 0 64) = (Nat.add 32 <$> rev (seq 0 32)) ++ rev (seq 0 32)) as E by reflexivity.
  unfold bits64, word_bits. rewrite E, fmap_app. f_equal.
  - rewrite <- list_fmap_compose. apply list_fmap_ext. intros _ j _. unfold compose.
    rewrite land_1_odd, <- Z.bit0_odd, Z.shiftr_spec by lia. f_equal. rewrite Nat2Z.inj_add.
    symmetry. apply cat_hi; [lia|lia|exact Hb].
  - apply list_fmap_ext. intros i j Hj. rewrite land_1_odd, <- Z.bit0_odd, Z.shiftr_spec by lia. f_equal.
    apply list_elem_of_lookup_2, list_elem_of_In in Hj. rewrite <- in_rev, in_seq in Hj. symmetry. apply cat_lo. lia.
Qed.

Lemma decrypt_rev (l : list Z) : length l = 16%nat -> (fun i => at_ l (15 - i)) <$> seq 0 16 = rev l.
Proof. intros H. do 16 (destruct l as [|? l]; [done|]). destruct l; [reflexivity|done]. Qed.

Lemma decrypt_key_rev (keys : list Z) :
  length keys = 16%nat ->
  decrypt_key (mk_ekey (hi24 <$> keys) (lo24 <$> keys)) = mk_ekey (hi24 <$> rev keys) (lo24 <$> rev keys).
Proof.
  intros H. unfold decrypt_key. cbn [ek_l ek_r]. rewrite !decrypt_rev by by rewrite length_fmap.
  f_equal; symmetry; apply map_rev.
Qed.

Lemma setkey_keys key :
  setkey key = mk_ekey (hi24 <$> round_keys (key_bytes key)) (lo24 <$> round_keys (key_bytes key)).
Proof. unfold setkey. apply setkey_round_keys, key_bytes_ok. Qed.

Lemma encrypt_keys keys block :
  Forall (in_range 48) keys -> length block = 64%nat ->
  (let '(b0, b1) := __do_des (block_word block 0) (block_word block 1) 1 0 (mk_ekey (hi24 <$> keys) (lo24 <$> keys)) in
   word_bits b0 ++ word_bits b1) = bits64 (des_block des_f keys (bitval block)).
Proof.
  intros Hk Hb. assert (0 = setup_salt 0) as E0 by (vm_compute; reflexivity). rewrite E0 at 1.
  rewrite (do_des_keys _ _ 1 0 keys (proj1 (block_word_bits block 0)) (proj1 (block_word_bits block 1)) Hk).
  cbn [Nat.iter nat_rect].
  rewrite block_words by done. rewrite (des_block_ext _ des_f) by (intros; apply des_f_salted_0).
  rewrite word_bits_cat by apply wrap32_range. by rewrite split_64.
Qed.

Lemma encrypt_des key block :
  length key = 64%nat -> length block = 64%nat ->
  encrypt (setkey key) block false = bits64 (des_encrypt (bitval key) (bitval block)) /\
  encrypt (setkey key) block true = bits64 (des_decrypt (bitval key) (bitval block)).
Proof.
  intros Hk Hb. unfold encrypt, des_encrypt, des_decrypt. rewrite setkey_keys, decrypt_key_rev by done.
  pose proof (round_keys_range (key_bytes key)) as R. rewrite <- (key_bytes_val key Hk).
  split; [by apply encrypt_keys|]. apply encrypt_keys; [by apply List.Forall_rev|done].
Qed.

(** [setkey] and [encrypt] on blocks of bits are DES: with [edflag]
    clear the block becomes the bits of its encryption under the standard,
    with [edflag] set the bits of its decryption. *)
Theorem encrypt_correct key block :
  length key = 64%nat -> length block = 64%nat ->
  encrypt (setkey key) block false = bits64 (des_encrypt (bitval key) (bitval block)) /\
  encrypt (setkey key) block true = bits64 (des_decrypt (bitval key) (bitval block)).
Proof. exact (encrypt_des key block). Qed.

Lemma odd_b2z b : Z.odd (Z.b2z b) = b.
Proof. by destruct b. Qed.

Lemma bits64_at X i : (i < 64)%nat -> at_ (bits64 X) i = Z.b2z (Z.testbit X (Z.of_nat (63 - i))).
Proof.
  intros Hi. unfold at_, bits64. rewrite (nth_indep _ 0 (Z.b2z (Z.testbit X (Z.of_nat 0)))) by done.
  change (fmap (fun j => Z.b2z (Z.testbit X (Z.of_nat j))) (rev (seq 0 64)))
    with (map (fun j => Z.b2z (Z.testbit X (Z.of_nat j))) (rev (seq 0 64))).
  rewrite (map_nth (fun j => Z.b2z (Z.testbit X (Z.of_nat j)))), rev_nth by (rewrite length_seq; lia).
  rewrite length_seq, seq_nth by lia. do 2 f_equal.
Qed.

Lemma bitval_bits64 X : in_range 64 X -> bitval (bits64 X) = X.
Proof.
  intros HX. apply (bits_eq 64); [exact (bitval_range (bits64 X))|done|]. intros k Hk.
  rewrite bitval_testbit by done. change (length (bits64 X)) with 64%nat. rewrite bits64_at, odd_b2z by lia.
  f_equal. lia.
Qed.

Lemma bits64_of_bitval block :
  length block = 64%nat -> bits64 (bitval block) = low_bits block.
Proof.
  intros Hlen. unfold low_bits. apply (nth_ext _ _ 0 (Z.land 0 1)); [by rewrite length_fmap|]. intros i Hi. change (length (bits64 (bitval block))) with 64%nat in Hi.
  fold (at_ (bits64 (bitval block)) i). rewrite bits64_at, bitval_testbit by lia.
  change (fmap (fun c => Z.land c 1) block) with (map (fun c => Z.land c 1) block).
  rewrite (map_nth (fun c => Z.land c 1)), land_1_odd. rewrite Hlen. unfold at_. repeat f_equal. lia.
Qed.

Lemma des_f_range R K : in_range 32 (des_f R K).
Proof. rewrite <- des_f_salted_0. apply des_f_salted_range. Qed.

Lemma des_inverse key X :
  in_range 64 X -> des_decrypt key (des_encrypt key X) = X /\ des_encrypt key (des_decrypt key X) = X.
Proof.
  intros HX. unfold des_encrypt, des_decrypt. split; [by apply des_block_inverse; [apply des_f_range|]|].
  rewrite <- (rev_involutive (round_key key <$> seq 0 16)) at 1. by apply des_block_inverse; [apply des_f_range|].
Qed.
Lemma des_block_range f keys X : in_range 64 (des_block f keys X).
Proof. rewrite des_block_core. apply fp_range. Qed.

(** Decryption undoes encryption and encryption undoes decryption: the
    block comes back as its low bits. *)
Theorem encrypt_roundtrip key block :
  length key = 64%nat -> length block = 64%nat ->
  encrypt (setkey key) (encrypt (setkey key) block false) true = low_bits block /\
  encrypt (setkey key) (encrypt (setkey key) block true) false = low_bits block.
Proof.
  intros Hk Hb. destruct (encrypt_des key block Hk Hb) as [-> ->].
  destruct (des_inverse (bitval key) (bitval block)) as [I1 I2]; [pose proof (bitval_range block) as R; by rewrite Hb in R|].
  destruct (encrypt_des key (bits64 (des_encrypt (bitval key) (bitval block))) Hk eq_refl) as [_ ->].
  destruct (encrypt_des key (bits64 (des_decrypt (bitval key) (bitval block))) Hk eq_refl) as [-> _].
  rewrite !bitval_bits64 by apply des_block_range. rewrite I1, I2. split; by apply bits64_of_bitval.
Qed.

Definition fips_key : list Z := [0x13; 0x34; 0x57; 0x79; 0x9B; 0xBC; 0xDF; 0xF1].

Lemma do_des_correct_witness :
  let X := Nat.iter 1 (des_salted 0 (be64 fips_key)) (cat 32 0x01234567 0x89ABCDEF) in
  __do_des 0x01234567 0x89ABCDEF 1 (setup_salt 0) (__des_setkey fips_key) = (Z.shiftr X 32, wrap32 X).
Proof.
  apply (do_des_correct 0x01234567 0x89ABCDEF 1 0 fips_key); [unfold in_range; lia|unfold in_range; lia|].
  repeat apply List.Forall_cons; try apply List.Forall_nil; unfold in_range; lia.
Defined.

Lemma encrypt_correct_witness :
  encrypt (setkey (bits64 0x133457799BBCDFF1)) (bits64 0x0123456789ABCDEF) false =
    bits64 (des_encrypt (bitval (bits64 0x133457799BBCDFF1)) (bitval (bits64 0x0123456789ABCDEF))) /\
  encrypt (setkey (bits64 0x133457799BBCDFF1)) (bits64 0x0123456789ABCDEF) true =
    bits64 (des_decrypt (bitval (bits64 0x133457799BBCDFF1)) (bitval (bits64 0x0123456789ABCDEF))).
Proof. apply (encrypt_correct (bits64 0x133457799BBCDFF1) (bits64 0x0123456789ABCDEF)); reflexivity. Defined.

Lemma encrypt_roundtrip_witness :
  let key := bits64 0x133457799BBCDFF1 in
  let block := bits64 0x0123456789ABCDEF in
  encrypt (setkey key) (encrypt (setkey key) block false) true = low_bits block /\
  encrypt (setkey key) (encrypt (setkey key) block true) false = low_bits block.
Proof. apply (encrypt_roundtrip (bits64 0x133457799BBCDFF1) (bits64 0x0123456789ABCDEF)); reflexivity. Defined.
