(* ===== verification/DesCrypt.v ===== *)
(** * DesCrypt: the DES password hashes of crypt_des.c

    What [__crypt_des] returns for the traditional and the extended format,
    stated with the cipher of the standard: the key from the password, the
    salt and the count from the setting, the iterated encryption of the zero
    block and its encoding in characters. *)

From S2P Require Import Prelude BlockHash DesSpec Des DesTables DesProofs.
From Stdlib Require Import ZArith Lia Bool List String Ascii.
From stdpp Require Import base tactics numbers list option.
Open Scope Z_scope.

(** ** Specification *)

(** [n] characters of a password, seven bits each above a zero bit, padded
    with zeros. *)
Definition chunk (n : nat) (key : list Z) : list Z := (fun i => wrap8 (2 * at_ key i)) <$> seq 0 n.
Definition chunk64 (key : list Z) : Z := be64 (chunk 8 key).

(** The key of the extended format: each further eight characters are added
    to the key encrypted with itself. *)
Fixpoint ext_key (fuel : nat) (K : Z) (rest : list Z) : Z :=
  match fuel, rest with
  | S fuel, _ :: _ => ext_key fuel (Z.lxor (des_encrypt K K) (chunk64 rest)) (drop 8 rest)
  | _, _ => K
  end.

(** The eleven characters of 64 bits, six each, two zero bits at the end. *)
Definition des_chars (X : Z) : list Z :=
  (fun i => at_ ascii64 (Z.to_nat ((4 * X / 2 ^ (60 - 6 * Z.of_nat i)) `mod` 64))) <$> seq 0 11.

(** Six bits per character, the first least significant. *)
Definition digit64 (ch : Z) : option Z :=
  let v := ascii_to_bin ch in if at_ ascii64 (Z.to_nat v) =? ch then Some v else None.
Definition number64 (s : list Z) : option Z :=
  a ← digit64 (at_ s 0); b ← digit64 (at_ s 1); c ← digit64 (at_ s 2); d ← digit64 (at_ s 3);
  Some (a + 2 ^ 6 * b + 2 ^ 12 * c + 2 ^ 18 * d).

Definition des_hash (count salt K : Z) : list Z := des_chars (Nat.iter (Z.to_nat count) (des_salted salt K) 0).

Definition crypt_des_spec (key setting : list Z) : option (list Z) :=
  if at_ setting 0 =? 95 then
    count ← number64 (drop 1 setting);
    if count =? 0 then None else
    salt ← number64 (drop 5 setting);
    Some (take 9 setting ++ des_hash count salt (ext_key (length key) (chunk64 key) (drop 8 key)))
  else if ascii_is_unsafe (at_ setting 0) || ascii_is_unsafe (at_ setting 1) then None
  else Some ([at_ setting 0; at_ setting 1] ++
             des_hash 25 (ascii_to_bin (at_ setting 0) + 2 ^ 6 * ascii_to_bin (at_ setting 1)) (chunk64 key)).

(** ** The key buffer *)

Lemma shiftl_1 c : Z.shiftl c 1 = 2 * c.
Proof. rewrite Z.shiftl_mul_pow2 by lia. lia. Qed.

Lemma chunk_S n key :
  chunk (S n) key = wrap8 (2 * at_ key 0) :: chunk n (tail key).
Proof.
  unfold chunk. rewrite <- cons_seq, <- fmap_S_seq. cbn [fmap list_fmap]. f_equal.
  rewrite <- list_fmap_compose. apply list_fmap_ext. intros _ i _. unfold compose. by destruct key; [destruct i|].
Qed.

Lemma chunk_bytes n key : Forall is_byte (chunk n key).
Proof. apply Forall_fmap, Forall_true. intros i. apply (wrap_range 8). lia. Qed.

Lemma copy_key_chunk n key : copy_key n key = (chunk n key, drop n key).
Proof.
  revert key. induction n as [|n IH]; intros key; [done|]. rewrite chunk_S. cbn [copy_key].
  destruct key as [|c key]; rewrite IH, shiftl_1; [by destruct n|done].
Qed.

Lemma wrap8_lxor a b : is_byte a -> wrap8 (Z.lxor a b) = Z.lxor a (wrap8 b).
Proof.
  intros Ha. apply Z.bits_inj'. intros k Hk. unfold wrap. rewrite Z.lxor_spec. destruct (decide (k < 8)).
  - by rewrite !Z.mod_pow2_bits_low, Z.lxor_spec by lia.
  - rewrite !Z.mod_pow2_bits_high by lia. by rewrite (testbit_high 8 a) by (done || lia).
Qed.

Lemma zip_lxor_zero q n : n = length q -> zip_with Z.lxor q (chunk n []) = q.
Proof.
  intros ->. induction q as [|b q IH]; [done|]. cbn [length]. rewrite chunk_S. cbn [zip_with tail].
  rewrite IH. change (wrap8 (2 * at_ [] 0)) with 0. by rewrite Z.lxor_0_r.
Qed.

Lemma xor_key_chunk q key :
  Forall is_byte q -> xor_key q key = (zip_with Z.lxor q (chunk (length q) key), drop (length q) key).
Proof.
  intros Hq. revert key. induction Hq as [|b q Hb Hq IH]; intros [|c key]; [done..| |].
  - rewrite zip_lxor_zero by done. done.
  - cbn [xor_key length]. rewrite chunk_S, IH. cbn [zip_with tail drop].
    by rewrite wrap8_lxor, shiftl_1.
Qed.

Lemma zip_lxor_bytes a b : Forall is_byte a -> Forall is_byte b -> Forall is_byte (zip_with Z.lxor a b).
Proof.
  intros Ha. revert b. induction Ha as [|x a Hx Ha IH]; intros b Hb; [done|].
  destruct Hb as [|y b Hy Hb]; [done|]. constructor; [by apply (lxor_range 8)|by apply IH].
Qed.

Lemma be32_lxor a b o :
  Forall is_byte a -> Forall is_byte b -> length a = length b ->
  be32 (zip_with Z.lxor a b) o = Z.lxor (be32 a o) (be32 b o).
Proof.
  intros Ha Hb Hl. pose proof (zip_lxor_bytes a b Ha Hb) as Hz.
  apply (bits_eq 32); [by apply be32_range|apply (lxor_range 32); [lia|by apply be32_range..]|].
  intros k Hk. rewrite Z.lxor_spec, !be32_testbit, at_zip_lxor, Z.lxor_spec by done. done.
Qed.

Lemma be64_lxor a b :
  Forall is_byte a -> Forall is_byte b -> length a = length b ->
  be64 (zip_with Z.lxor a b) = Z.lxor (be64 a) (be64 b).
Proof.
  intros Ha Hb Hl. unfold be64. rewrite !be32_lxor by done.
  apply cat_lxor; [lia|by apply be32_range|by apply be32_range|by apply be32_range|by apply be32_range].
Qed.

(** ** The cipher on bytes *)

#[local] Opaque permz.

Lemma be_bytes4_ok a : Forall is_byte (be_bytes4 a).
Proof. unfold be_bytes4. repeat apply List.Forall_cons; try apply List.Forall_nil; apply (wrap_range 8); lia. Qed.

Lemma be32_be_bytes4 a b : in_range 32 a -> in_range 32 b ->
  be32 (be_bytes4 a ++ be_bytes4 b) 0 = a /\ be32 (be_bytes4 a ++ be_bytes4 b) 4 = b.
Proof.
  assert (forall x, in_range 32 x -> be32 (be_bytes4 x) 0 = x) as G.
  { intros x Hx. pose proof (be_bytes4_ok x) as Hb.
    apply (bits_eq 32); [by apply be32_range|done|]. intros k Hk. rewrite be32_testbit by done.
    assert (forall s, 0 <= s -> forall j : nat, (j < 8)%nat -> Z.testbit (wrap8 (Z.shiftr x s)) (Z.of_nat j) = Z.testbit x (Z.of_nat j + s)) as W.
    { intros s Hs j Hj. unfold wrap. rewrite Z.mod_pow2_bits_low, Z.shiftr_spec by lia. done. }
    pose proof (Nat.div_mod_eq k 8) as E. pose proof (Nat.mod_upper_bound k 8 ltac:(lia)) as M.
    assert (k / 8 = 0 \/ k / 8 = 1 \/ k / 8 = 2 \/ k / 8 = 3)%nat as [D|[D|[D|D]]] by lia; rewrite D in *;
      unfold be_bytes4, at_; cbn [nth Nat.add Nat.sub].
    - unfold wrap. rewrite Z.mod_pow2_bits_low by lia. f_equal. lia.
    - rewrite W by lia. f_equal. lia.
    - rewrite W by lia. f_equal. lia.
    - rewrite W by lia. f_equal. lia. }
  intros Ha Hb. split; [exact (G a Ha)|exact (G b Hb)].
Qed.

Lemma des_salted_range salt K X : in_range 64 (des_salted salt K X).
Proof. unfold des_salted. apply des_block_range. Qed.

Lemma des_salted_0 K X : des_salted 0 K X = des_encrypt K X.
Proof. unfold des_salted, des_encrypt. apply des_block_ext. intros. apply des_f_salted_0. Qed.

Lemma des_cipher_correct kb key :
  Forall is_byte kb -> Forall is_byte key ->
  let out := des_cipher kb 1 0 (__des_setkey key) in
  be64 out = des_encrypt (be64 key) (be64 kb) /\ Forall is_byte out /\ length out = 8%nat.
Proof.
  intros Hb Hk out. assert (setup_salt 0 = 0) as E0 by (vm_compute; reflexivity).
  unfold out, des_cipher. rewrite <- E0.
  rewrite (setkey_round_keys key Hk), (do_des_keys _ _ 1 0 (round_keys key) (be32_range kb 0 Hb) (be32_range kb 4 Hb) (round_keys_range key)).
  cbn [Nat.iter nat_rect]. fold (be64 kb).
  change (des_block (des_f_salted 0) (round_keys key) (be64 kb)) with (des_salted 0 (be64 key) (be64 kb)).
  rewrite des_salted_0.
  assert (in_range 64 (des_encrypt (be64 key) (be64 kb))) as R by (unfold des_encrypt; apply des_block_range). set (X := des_encrypt (be64 key) (be64 kb)) in *.
  destruct (words_of_64 X R) as [R1 R2]. cbn [fst snd] in R1, R2.
  destruct (be32_be_bytes4 (Z.shiftr X 32) (wrap32 X) R1 R2) as [E1 E2].
  split_and!; [unfold be64; rewrite E1, E2; apply split_64| |done].
  apply Forall_app. split; apply be_bytes4_ok.
Qed.

Lemma mix_key_correct n kb rest fuel :
  Forall is_byte kb -> length kb = 8%nat -> (length rest <= 8 * n)%nat -> (length rest <= fuel)%nat ->
  exists kb', mix_key n kb rest (__des_setkey kb) = Some (__des_setkey kb') /\
    Forall is_byte kb' /\ be64 kb' = ext_key fuel (be64 kb) rest.
Proof.
  revert kb rest fuel. induction n as [|n IH]; intros kb rest fuel Hb Hl Hn Hf.
  - destruct rest; [|simpl in Hn; lia]. exists kb. by destruct fuel.
  - destruct rest as [|c rest]; [exists kb; by destruct fuel|]. destruct fuel as [|fuel]; [simpl in Hf; lia|].
    destruct (des_cipher_correct kb kb Hb Hb) as (E & Hob & Hol). cbn [mix_key ext_key].
    set (out := des_cipher kb 1 0 (__des_setkey kb)) in *. clearbody out.
    rewrite xor_key_chunk, Hol by done.
    assert (length (drop 8 (c :: rest)) <= 8 * n /\ length (drop 8 (c :: rest)) <= fuel)%nat as [L1 L2].
    { rewrite length_drop. simpl in *. lia. }
    assert (Forall is_byte (zip_with Z.lxor out (chunk 8 (c :: rest)))) as Hz
      by (apply zip_lxor_bytes; [done|apply chunk_bytes]).
    destruct (IH (zip_with Z.lxor out (chunk 8 (c :: rest))) (drop 8 (c :: rest)) fuel Hz) as (kb' & E1 & Hb' & E2);
      [rewrite length_zip_with, Hol; done|done|done|].
    exists kb'. split_and!; [exact E1|done|]. rewrite E2, be64_lxor, E by (done || apply chunk_bytes). done.
Qed.

(** ** The characters of the result *)

Lemma field_div_mod W s p Y :
  0 <= s -> 0 <= p -> (forall j, 0 <= j < 6 -> Z.testbit W (s + j) = Z.testbit Y (p + j)) ->
  field W s 0x3f = (Y / 2 ^ p) `mod` 64.
Proof.
  intros Hs Hp H. change 0x3f with (2 ^ 6 - 1).
  assert ((Y / 2 ^ p) `mod` 64 = field Y p (2 ^ 6 - 1)) as ->.
  { unfold field. change (2 ^ 6 - 1) with (Z.ones 6). rewrite Z.land_ones, Z.shiftr_div_pow2 by lia. done. }
  apply (bits_eq 6); [apply field_range; lia..|]. intros j Hj. rewrite !field_testbit by lia. apply H. lia.
Qed.

Lemma times4_testbit X k : 0 <= k -> Z.testbit (4 * X) (k + 2) = Z.testbit X k.
Proof. intros Hk. change 4 with (2 ^ 2). rewrite Z.mul_comm, Z.mul_pow2_bits by lia. f_equal. lia. Qed.

Lemma encode_words X :
  in_range 64 X ->
  let r0 := Z.shiftr X 32 in let r1 := wrap32 X in
  encode4 (Z.shiftr r0 8) ++ encode4 (Z.lor (wrap32 (Z.shiftl r0 16)) (Z.land (Z.shiftr r1 16) 0xffff)) ++
  ((fun s => at_ ascii64 (Z.to_nat (field (wrap32 (Z.shiftl r1 2)) s 0x3f))) <$> [12; 6; 0]) = des_chars X.
Proof.
  intros HX r0 r1.
  assert (forall k, 0 <= k < 24 -> Z.testbit (Z.shiftr r0 8) k = Z.testbit (4 * X) (k + 42)) as B1.
  { intros k Hk. unfold r0. rewrite !Z.shiftr_spec by lia. replace (k + 42) with (k + 8 + 32 + 2) by lia.
    by rewrite times4_testbit by lia. }
  assert (forall k, 0 <= k < 24 -> Z.testbit (Z.lor (wrap32 (Z.shiftl r0 16)) (Z.land (Z.shiftr r1 16) 0xffff)) k
            = Z.testbit (4 * X) (k + 18)) as B2.
  { intros k Hk. replace (k + 18) with (k + 16 + 2) by lia. rewrite times4_testbit by lia.
    unfold r0, r1, wrap. rewrite Z.lor_spec, Z.mod_pow2_bits_low, Z.shiftl_spec, Z.land_spec by lia.
    change 0xffff with (Z.ones 16). destruct (decide (k < 16)).
    - rewrite (Z.testbit_neg_r _ (k - 16)), Z.ones_spec_low, Z.shiftr_spec by lia.
      rewrite Z.mod_pow2_bits_low by lia. by rewrite andb_true_r.
    - rewrite Z.ones_spec_high, andb_false_r, orb_false_r, Z.shiftr_spec by lia. f_equal. lia. }
  assert (forall k, 0 <= k < 18 -> Z.testbit (wrap32 (Z.shiftl r1 2)) k = Z.testbit (4 * X) k) as B3.
  { intros k Hk. change 4 with (2 ^ 2). rewrite (Z.mul_comm _ X), Z.mul_pow2_bits by lia. unfold r1, wrap.
    rewrite Z.mod_pow2_bits_low, Z.shiftl_spec by lia. destruct (decide (k < 2)); [by rewrite !Z.testbit_neg_r by lia|].
    by rewrite Z.mod_pow2_bits_low by lia. }
  unfold des_chars, encode4. cbn [fmap list_fmap seq app].
  repeat match goal with |- context [60 - 6 * Z.of_nat ?n] =>
    let v := eval vm_compute in (60 - 6 * Z.of_nat n) in change (60 - 6 * Z.of_nat n) with v end.
  assert (forall s p W, field W s 0x3f = (4 * X / 2 ^ p) `mod` 64 ->
    at_ ascii64 (Z.to_nat (field W s 0x3f)) = at_ ascii64 (Z.to_nat ((4 * X / 2 ^ p) `mod` 64))) as C.
  { intros s p W ->. done. }
  repeat apply (f_equal2 cons); try reflexivity; apply C, field_div_mod; try lia;
    intros j Hj; first [rewrite B1 by lia | rewrite B2 by lia | rewrite B3 by lia]; f_equal; lia.
Qed.

Lemma land_63 z : in_range 6 (Z.land z 0x3f).
Proof. change 0x3f with (Z.ones 6). rewrite Z.land_ones by lia. apply wrap_range. lia. Qed.
Lemma ascii_to_bin_range ch : in_range 6 (ascii_to_bin ch).
Proof. unfold ascii_to_bin. apply land_63. Qed.

Lemma lor_add w a b : 0 <= w -> in_range w a -> Z.lor a (Z.shiftl b w) = a + 2 ^ w * b.
Proof. intros Hw Ha. rewrite lor_cat by done. unfold cat. lia. Qed.

Lemma digit64_range ch v : digit64 ch = Some v -> v = ascii_to_bin ch.
Proof. unfold digit64. by case_match; intros [= <-]. Qed.

Lemma read64_number setting i :
  read64 setting i 4 0 0 = number64 (drop i setting).
Proof.
  unfold number64. rewrite !at_drop. cbn [read64].
  assert (forall k, (if negb (at_ ascii64 (Z.to_nat (ascii_to_bin k)) =? k) then None else Some (ascii_to_bin k)) = digit64 k) as D.
  { intros k. unfold digit64. by destruct (_ =? _). }
  rewrite Nat.add_0_r. replace (S i) with (i + 1)%nat by lia. replace (S (i + 1)) with (i + 2)%nat by lia.
  replace (S (i + 2)) with (i + 3)%nat by lia.
  pose proof (ascii_to_bin_range (at_ setting i)) as R0. pose proof (ascii_to_bin_range (at_ setting (i + 1))) as R1.
  pose proof (ascii_to_bin_range (at_ setting (i + 2))) as R2. pose proof (ascii_to_bin_range (at_ setting (i + 3))) as R3.
  unfold digit64. unfold in_range in *.
  do 4 (destruct (_ =? _); cbn [negb mbind option_bind]; [|done]).
  f_equal. rewrite Z.lor_0_l, Z.shiftl_0_r. change (0 + 6 + 6 + 6) with 18. change (0 + 6 + 6) with 12. change (0 + 6) with 6.
  rewrite (lor_add 6), (lor_add 12), (lor_add 18) by (unfold in_range; lia). done.
Qed.

(** ** The password hash *)

(** The iterated cipher of the zero block and its characters. *)
Lemma hash_out count salt kb :
  Forall is_byte kb ->
  exists r0 r1, __do_des 0 0 (Z.to_nat count) (setup_salt salt) (__des_setkey kb) = (r0, r1) /\
  encode4 (Z.shiftr r0 8) ++ encode4 (Z.lor (wrap32 (Z.shiftl r0 16)) (Z.land (Z.shiftr r1 16) 0xffff)) ++
  ((fun s => at_ ascii64 (Z.to_nat (field (wrap32 (Z.shiftl r1 2)) s 0x3f))) <$> [12; 6; 0])
  = des_hash count salt (be64 kb).
Proof.
  intros Hb. eexists _, _. split.
  - rewrite setkey_round_keys by done.
    apply do_des_keys; [unfold in_range; lia|unfold in_range; lia|apply round_keys_range].
  - change (cat 32 0 0) with 0. apply encode_words.
    change (des_block (des_f_salted salt) (round_keys kb)) with (des_salted salt (be64 kb)).
    destruct (Z.to_nat count); [unfold in_range; cbn; lia|apply des_salted_range].
Qed.

Lemma uut_correct key setting :
  _crypt_extended_r_uut key setting = crypt_des_spec key setting.
Proof.
  unfold _crypt_extended_r_uut, crypt_des_spec. rewrite copy_key_chunk. pose proof (chunk_bytes 8 key) as Hb.
  destruct (at_ setting 0 =? 95) eqn:E95.
  - rewrite !read64_number. destruct (number64 (drop 1 setting)) as [count|]; [cbn [mbind option_bind]|done].
    destruct (count =? 0); [done|]. destruct (number64 (drop 5 setting)) as [salt|]; [cbn [mbind option_bind]|done].
    destruct (mix_key_correct (length (drop 8 key)) (chunk 8 key) (drop 8 key) (length key)) as (kb & -> & Hkb & E);
      [done|done|lia|rewrite length_drop; lia|].
    cbn [mbind option_bind]. destruct (hash_out count salt kb Hkb) as (r0 & r1 & -> & ->). by rewrite E.
  - destruct (ascii_is_unsafe _ || ascii_is_unsafe _); [done|]. cbn [mbind option_bind].
    rewrite Z.lor_comm, (lor_add 6) by (lia || apply ascii_to_bin_range).
    destruct (hash_out 25 (ascii_to_bin (at_ setting 0) + 2 ^ 6 * ascii_to_bin (at_ setting 1)) _ Hb)
      as (r0 & r1 & -> & ->). done.
Qed.

Lemma self_test_traditional :
  _crypt_extended_r_uut test_key (128 :: ascii_of "x") = Some (128 :: ascii_of "x22/wK52ZKGA").
Proof. vm_compute. reflexivity. Qed.
Lemma self_test_extended :
  _crypt_extended_r_uut test_key (ascii_of "_0.../9Zz") = Some (ascii_of "_0.../9ZzX7iSJNd21sU").
Proof. vm_compute. reflexivity. Qed.

(** C6: [__crypt_des] passes its self test and returns the hash of the
    password in the format its setting selects: the iterated salted DES of
    the zero block under the key made of the password, encoded after the
    setting; for a setting it refuses, the failure token. *)
Theorem crypt_des_correct key setting :
  __crypt_des key setting =
  match crypt_des_spec key setting with
  | Some hash => hash
  | None => if at_ setting 0 =? 42 then ascii_of "x" else ascii_of "*"
  end.
Proof.
  unfold __crypt_des. rewrite (uut_correct key setting).
  destruct (at_ setting 0 =? 95); cbn [negb]; rewrite ?self_test_traditional, ?self_test_extended;
    destruct (crypt_des_spec key setting); try done; by rewrite bool_decide_true.
Qed.
