(* ===== verification/BfCipher.v ===== *)
(** * BfCipher: the Blowfish cipher and its key schedule

    The proofs relate the state of the specification to the flat array of the
    C code, and the tables of the code to pi. *)

From Stdlib Require Import ZArith Lia Bool List String Ascii.
From stdpp Require Import base tactics numbers list gmap option.
From S2P Require Import Prelude CMem StrScan BlockHash CryptHash BfSpec Blowfish.
Open Scope Z_scope.

(** ** The cipher *)

(** The array of the C code holds the state. *)
Record holds_state (ctx : BF_ctx) (s : Spec.state) : Prop := {
  hs_sub : forall i, (i < 18)%nat -> word ctx (Z.of_nat i) = Spec.subkey s i;
  hs_box : forall k j, (k < 4)%nat -> 0 <= j < 256 -> word ctx (18 + 256 * Z.of_nat k + j) = Spec.box s k j;
  hs_range : forall i, 0 <= i < PS_LEN -> in_range 32 (word ctx i)
}.

Section cipher.
Context (ctx : BF_ctx) (s : Spec.state) (H : holds_state ctx s).

Lemma F_ok L R N : in_range 32 L -> 0 <= N < 17 ->
  BF_ROUND ctx L R N = Z.lxor (Z.lxor R (Spec.subkey s (Z.to_nat (N + 1)))) (Spec.F s L).
Proof.
  unfold in_range. intros HL HN. unfold BF_ROUND, ctx_S, ctx_P. cbv zeta.
  change 255 with (Z.ones 8). rewrite !Z.land_ones, !Z.shiftr_div_pow2 by lia. change (2 ^ 8) with 256.
  rewrite <- (hs_sub _ _ H) by lia. rewrite Z2Nat.id by lia. f_equal. unfold Spec.F.
  assert (0 <= L / 2 ^ 24 < 256) by (split; [apply Z.div_pos; lia|apply Z.div_lt_upper_bound; lia]).
  assert (forall x, 0 <= x `mod` 256 < 256) as Hm by (intros; apply Z.mod_pos_bound; lia).
  rewrite <- (hs_box _ _ H 0), <- (hs_box _ _ H 1), <- (hs_box _ _ H 2), <- (hs_box _ _ H 3) by (lia || apply Hm).
  by rewrite (Z.add_comm (word ctx (18 + 256 * 1 + _))).
Qed.

Lemma F_range L : in_range 32 (Spec.F s L).
Proof. apply wrap_range. lia. Qed.

Lemma sub_range i : (i < 18)%nat -> in_range 32 (Spec.subkey s i).
Proof. intros Hi. rewrite <- (hs_sub _ _ H i Hi). apply (hs_range _ _ H). unfold PS_LEN. lia. Qed.

Lemma round_range LR i : (i < 18)%nat -> in_range 32 LR.1 -> in_range 32 LR.2 ->
  in_range 32 (Spec.round s LR i).1 /\ in_range 32 (Spec.round s LR i).2.
Proof. intros Hi H1 H2. split; apply lxor_range; try done; [apply F_range|by apply sub_range]. Qed.

(** A turn of the loop is two rounds: the C code has already mixed the next
    subkey into the left half. *)
Lemma two_rounds LR i : (i <= 14)%nat -> in_range 32 LR.1 -> in_range 32 LR.2 ->
  let LR' := Spec.round s (Spec.round s LR i) (S i) in
  let L := Z.lxor LR.1 (Spec.subkey s i) in
  let R := BF_ROUND ctx L LR.2 (Z.of_nat i) in
  let L := BF_ROUND ctx R L (Z.of_nat i + 1) in
  (L, R) = (Z.lxor LR'.1 (Spec.subkey s (S (S i))), LR'.2) /\ in_range 32 LR'.1 /\ in_range 32 LR'.2.
Proof.
  intros Hi H1 H2. cbv zeta. destruct (round_range LR i ltac:(lia) H1 H2) as [H3 H4].
  split; [|by apply round_range; [lia|..]].
  assert (in_range 32 (Z.lxor LR.1 (Spec.subkey s i))) as HL by (apply lxor_range; [lia|done|apply sub_range; lia]).
  rewrite (F_ok (Z.lxor LR.1 (Spec.subkey s i))) by (done || lia).
  replace (Z.to_nat (Z.of_nat i + 1)) with (S i) by lia.
  set (R := Z.lxor (Z.lxor LR.2 (Spec.subkey s (S i))) (Spec.F s (Z.lxor LR.1 (Spec.subkey s i)))).
  assert (in_range 32 R) as HR by (apply lxor_range; [lia| |apply F_range]; apply lxor_range; [lia|done|apply sub_range; lia]).
  rewrite F_ok by (done || lia). replace (Z.to_nat (Z.of_nat i + 1 + 1)) with (S (S i)) by lia.
  assert ((Spec.round s (Spec.round s LR i) (S i)).2 = R) as E.
  { unfold Spec.round, R. cbn [fst snd]. rewrite !Z.lxor_assoc. f_equal. apply Z.lxor_comm. }
  rewrite E. f_equal. unfold Spec.round in E |- *. cbn [fst snd] in E |- *. rewrite E.
  rewrite !(Z.lxor_assoc (Z.lxor LR.1 (Spec.subkey s i))). f_equal. apply Z.lxor_comm.
Qed.

Lemma block_ok L R : in_range 32 L -> in_range 32 R ->
  BF_block ctx L R = Spec.encrypt s (L, R) /\ in_range 32 (BF_block ctx L R).1 /\ in_range 32 (BF_block ctx L R).2.
Proof.
  intros HL HR.
  assert (forall n LR, (2 * n <= 16)%nat -> in_range 32 LR.1 -> in_range 32 LR.2 ->
    let LR' := foldl (Spec.round s) LR (seq (16 - 2 * n) (2 * n)) in
    foldl (fun '(L, R) i => let R := BF_ROUND ctx L R i in let L := BF_ROUND ctx R L (i + 1) in (L, R))
      (Z.lxor LR.1 (Spec.subkey s (16 - 2 * n)), LR.2) ((fun i => Z.of_nat (2 * i)) <$> seq (8 - n) n)
    = (Z.lxor LR'.1 (Spec.subkey s 16), LR'.2) /\ in_range 32 LR'.1 /\ in_range 32 LR'.2) as Hloop.
  { induction n as [|n IH]; intros LR Hn H1 H2; [done|].
    replace (2 * S n)%nat with (S (S (2 * n))) by lia. cbn [seq].
    cbn [foldl fmap list_fmap]. destruct (two_rounds LR (16 - S (S (2 * n))) ltac:(lia) H1 H2) as (E & H3 & H4).
    cbv zeta in E. replace (2 * (8 - S n))%nat with (16 - S (S (2 * n)))%nat by lia. cbv zeta. rewrite E.
    replace (S (S (16 - S (S (2 * n))))) with (16 - 2 * n)%nat by lia. replace (S (8 - S n)) with (8 - n)%nat by lia. exact (IH _ ltac:(lia) H3 H4). }
  destruct (Hloop 8%nat (L, R) ltac:(lia) HL HR) as (E & H1 & H2). cbv zeta in E.
  change ((fun i => Z.of_nat (2 * i)) <$> seq (8 - 8) 8) with [0; 2; 4; 6; 8; 10; 12; 14] in E.
  change (16 - 2 * 8)%nat with 0%nat in E, H1, H2. cbn [fst snd] in E.
  assert (BF_block ctx L R = Spec.encrypt s (L, R)) as EB.
  { pose proof (hs_sub _ _ H 0 ltac:(lia)) as E0. pose proof (hs_sub _ _ H 17 ltac:(lia)) as E17.
    change (Z.of_nat 0) with 0 in E0. change (Z.of_nat 17) with (16 + 1) in E17.
    unfold BF_block, ctx_P. rewrite E0, E, E17. done. }
  split; [done|]. rewrite EB. unfold Spec.encrypt. cbv zeta. split; apply lxor_range; try done; apply sub_range; lia.
Qed.
End cipher.

(** ** Replacing the words of the state *)

Definition flat (p : Spec.place) : Z := match p with Spec.P i => Z.of_nat i | Spec.S_ k j => 18 + 256 * Z.of_nat k + j end.
Definition valid (p : Spec.place) : bool :=
  match p with Spec.P i => (i <=? 16)%nat | Spec.S_ k j => (k <? 4)%nat && (0 <=? j) && (j <? 255) end.

(** The places of a list follow each other from [ptr] to the end of the array. *)
Fixpoint aligned (ptr : Z) (ps : list Spec.place) : bool :=
  match ps with [] => ptr =? PS_LEN | p :: ps => valid p && (flat p =? ptr) && aligned (ptr + 2) ps end.

Lemma places_aligned : aligned 0 Spec.places = true /\ length Spec.places = PASS.
Proof. split; vm_compute; reflexivity. Qed.

Lemma aligned_step ptr p ps : aligned ptr (p :: ps) = true ->
  valid p = true /\ flat p = ptr /\ aligned (ptr + 2) ps = true.
Proof. simpl. intros [[H1 H2]%andb_true_iff H3]%andb_true_iff. by apply Z.eqb_eq in H2. Qed.

Lemma aligned_end ps ptr : aligned ptr ps = true -> ptr + 2 * lenZ ps = PS_LEN.
Proof.
  revert ptr. induction ps as [|p ps IH]; intros ptr H; [simpl in H; apply Z.eqb_eq in H; simpl; lia|].
  apply aligned_step in H as (_ & _ & H). apply IH in H. simpl length. lia.
Qed.

Lemma word_insert ctx i x j : word (<[i := x]> ctx) j = if j =? i then x else word ctx j.
Proof.
  unfold word. destruct (Z.eqb_spec j i) as [->|Hn]; [by rewrite lookup_insert_eq|by rewrite lookup_insert_ne].
Qed.

Lemma put_ok ctx s p L R : holds_state ctx s -> valid p = true -> in_range 32 L -> in_range 32 R ->
  holds_state (<[flat p + 1 := R]> (<[flat p := L]> ctx)) (Spec.put s p (L, R)).
Proof.
  intros [H1 H2 H3] Hv HL HR. split.
  - intros i Hi. rewrite !word_insert. destruct p as [a|k j]; simpl in *.
    + repeat (case_match; simplify_eq/=); rewrite ?Z.eqb_eq, ?Z.eqb_neq, ?Nat.eqb_eq, ?Nat.eqb_neq in *; try lia; auto.
    + rewrite !andb_true_iff, Nat.ltb_lt in Hv. repeat (case_match; simplify_eq/=); rewrite ?Z.eqb_eq, ?Z.eqb_neq in *; try lia; auto.
  - intros k' j' Hk Hj. rewrite !word_insert. destruct p as [a|k j]; simpl in *.
    + apply Nat.leb_le in Hv. repeat (case_match; simplify_eq/=); rewrite ?Z.eqb_eq, ?Z.eqb_neq in *; try lia; auto.
    + rewrite !andb_true_iff, Nat.ltb_lt, Z.leb_le, Z.ltb_lt in Hv.
      repeat (case_match; simplify_eq/=); rewrite ?Z.eqb_eq, ?Z.eqb_neq, ?Nat.eqb_eq, ?Nat.eqb_neq in *; try (exfalso; nia); auto.
  - intros i Hi. rewrite !word_insert. repeat case_match; auto.
Qed.

(** The unsalted pass. *)
Lemma encrypt_pass ps : forall ctx s L R ptr fuel,
  holds_state ctx s -> in_range 32 L -> in_range 32 R -> aligned ptr ps = true -> ps <> [] -> (length ps <= fuel)%nat ->
  holds_state (fst (BF_encrypt fuel ctx L R ptr PS_LEN)) (Spec.replace_all s (0, 0) (0, 0) (L, R) ps).
Proof.
  induction ps as [|p ps IH]; intros ctx s L R ptr fuel H HL HR Ha Hne Hf; [done|].
  destruct fuel as [|fuel]; [simpl in Hf; lia|]. pose proof (aligned_end _ _ Ha) as Hend.
  apply aligned_step in Ha as (Hv & <- & Ha). cbn [BF_encrypt Spec.replace_all fst snd]. rewrite !Z.lxor_0_r.
  destruct (block_ok ctx s H L R HL HR) as (E & HL' & HR'). rewrite E in HL', HR' |- *.
  destruct (Spec.encrypt s (L, R)) as [L' R']. simpl in HL', HR'.
  pose proof (put_ok ctx s p L' R' H Hv HL' HR') as H'.
  destruct ps as [|p2 ps].
  - simpl in Hend. destruct (Z.ltb_spec (flat p + 2) PS_LEN); [lia|]. exact H'.
  - simpl length in Hend, Hf. destruct (Z.ltb_spec (flat p + 2) PS_LEN); [|lia]. apply IH; (done || simpl; lia).
Qed.

(** The salted pass; [half] says which half of the salt comes next. *)
Lemma salted_pass_ok salt ps : Forall (in_range 32) salt -> forall half ctx s L R ptr fuel,
  holds_state ctx s -> in_range 32 L -> in_range 32 R -> aligned ptr ps = true -> ps <> [] -> (length ps <= fuel)%nat ->
  let h b := if b : bool then (at_ salt 2, at_ salt 3) else (at_ salt 0, at_ salt 1) in
  holds_state (salted_pass fuel salt half ctx L R ptr) (Spec.replace_all s (h half) (h (negb half)) (L, R) ps).
Proof.
  intros Hsalt. assert (forall i, in_range 32 (at_ salt i)) as Hs.
  { intros i. unfold at_. destruct (nth_in_or_default i salt 0) as [Hin| ->]; [|split; lia].
    rewrite List.Forall_forall in Hsalt. exact (Hsalt _ Hin). }
  induction ps as [|p ps IH]; intros half ctx s L R ptr fuel H HL HR Ha Hne Hf h; [done|].
  destruct fuel as [|fuel]; [simpl in Hf; lia|]. pose proof (aligned_end _ _ Ha) as Hend.
  apply aligned_step in Ha as (Hv & <- & Ha). cbn [salted_pass Spec.replace_all].
  change (if half then _ else _) with (h half). destruct (h half) as [s0 s1] eqn:Eh. cbn [fst snd].
  assert (in_range 32 s0 /\ in_range 32 s1) as [Hs0 Hs1] by (unfold h in Eh; destruct half; injection Eh as <- <-; auto).
  cbn [BF_encrypt]. destruct (block_ok ctx s H (Z.lxor L s0) (Z.lxor R s1)) as (E & HL' & HR'); [by apply lxor_range..|].
  rewrite E in HL', HR' |- *. destruct (Spec.encrypt s _) as [L' R']. simpl in HL', HR'.
  destruct (Z.ltb_spec (flat p + 2) (flat p)); [lia|]. rewrite word_insert, Z.eqb_refl.
  pose proof (put_ok ctx s p L' R' H Hv HL' HR') as H'.
  destruct ps as [|p2 ps].
  - simpl in Hend. destruct (Z.leb_spec PS_LEN (flat p + 2)); [|lia]. exact H'.
  - simpl length in Hend, Hf. destruct (Z.leb_spec PS_LEN (flat p + 2)); [lia|]. rewrite <- Eh.
    replace (h half) with (h (negb (negb half))) by (by rewrite negb_involutive). apply IH; (done || simpl; lia).
Qed.

(** The subkeys mixed with the words of a key. *)
Lemma xor_P_word ks n ctx j :
  word (foldl (fun ctx i => <[Z.of_nat i := Z.lxor (ctx_P ctx (Z.of_nat i)) (at_ ks i)]> ctx) ctx (seq 0 n)) j =
  if (0 <=? j) && (j <? Z.of_nat n) then Z.lxor (word ctx j) (at_ ks (Z.to_nat j)) else word ctx j.
Proof.
  revert j. induction n as [|n IH]; intros j.
  - cbn [seq foldl]. destruct (Z.leb_spec 0 j), (Z.ltb_spec j (Z.of_nat 0)); (done || lia).
  - rewrite seq_S, foldl_app. cbn [foldl]. rewrite Nat.add_0_l. rewrite word_insert. unfold ctx_P. rewrite !IH.
    destruct (Z.eqb_spec j (Z.of_nat n)) as [->|Hj].
    + destruct (Z.ltb_spec (Z.of_nat n) (Z.of_nat n)); [lia|]. destruct (Z.ltb_spec (Z.of_nat n) (Z.of_nat (S n))); [|lia].
      rewrite andb_false_r, Nat2Z.id. destruct (Z.leb_spec 0 (Z.of_nat n)); [done|lia].
    + replace (j <? Z.of_nat (S n)) with (j <? Z.of_nat n); [done|].
      destruct (Z.ltb_spec j (Z.of_nat n)), (Z.ltb_spec j (Z.of_nat (S n))); (done || lia).
Qed.

Lemma at_range (l : list Z) i : Forall (in_range 32) l -> in_range 32 (at_ l i).
Proof.
  intros Hl. unfold at_. destruct (nth_in_or_default i l 0) as [Hin| ->]; [|split; lia].
  rewrite List.Forall_forall in Hl. exact (Hl _ Hin).
Qed.

Lemma mix_ok ctx s ks : holds_state ctx s -> Forall (in_range 32) ks -> holds_state (xor_P ks ctx) (Spec.mix s ks).
Proof.
  intros [H1 H2 H3] Hk. split.
  - intros i Hi. unfold xor_P. rewrite xor_P_word. simpl Spec.subkey. rewrite H1, Nat2Z.id by done.
    change (BF_N + 2)%nat with 18%nat.
    destruct (Z.leb_spec 0 (Z.of_nat i)), (Z.ltb_spec (Z.of_nat i) (Z.of_nat 18)); (done || lia).
  - intros k j Hk' Hj. unfold xor_P. rewrite xor_P_word. simpl Spec.box. rewrite <- H2 by done.
    change (BF_N + 2)%nat with 18%nat. destruct (Z.ltb_spec (18 + 256 * Z.of_nat k + j) (Z.of_nat 18)); [lia|by rewrite andb_false_r].
  - intros i Hi. unfold xor_P. rewrite xor_P_word. case_match; [|auto]. apply lxor_range; [lia|auto|by apply at_range].
Qed.

Lemma places_ne : Spec.places <> [].
Proof. intros E. pose proof (proj2 places_aligned) as H. by rewrite E in H. Qed.

Lemma in_range_0 : in_range 32 0.
Proof. split; lia. Qed.

(** A pass over the whole array after mixing in a key is [expand_key]. *)
Lemma full_pass_ok ctx s ks : holds_state ctx s -> Forall (in_range 32) ks ->
  holds_state (full_pass (xor_P ks ctx)) (Spec.expand_key s [] ks).
Proof.
  intros H Hk. destruct places_aligned as [Ha Hl]. unfold full_pass, Spec.expand_key.
  change (at_ [] _, at_ [] _) with (0, 0). change (at_ [] 2, at_ [] 3) with (0, 0).
  apply encrypt_pass; [by apply mix_ok|apply in_range_0|apply in_range_0|exact Ha|apply places_ne|rewrite Hl; done].
Qed.

Lemma salt_keys_repeated salt : length salt = 4%nat -> salt_keys salt = Spec.repeated salt.
Proof. destruct salt as [|a [|b [|c [|d [|]]]]]; try done. Qed.

Lemma repeated_range ws : Forall (in_range 32) ws -> Forall (in_range 32) (Spec.repeated ws).
Proof. intros H. unfold Spec.repeated. apply Forall_fmap, Forall_true. intros i. by apply at_range. Qed.

Lemma expensive_ok ctx s ks salt turns : holds_state ctx s -> Forall (in_range 32) ks -> Forall (in_range 32) salt -> length salt = 4%nat ->
  holds_state (Nat.iter turns (expensive_round ks salt) ctx)
    (Nat.iter turns (fun s => Spec.expand_key (Spec.expand_key s [] ks) [] (Spec.repeated salt)) s).
Proof.
  intros H Hk Hs Hl. induction turns as [|n IH]; [done|]. simpl. unfold expensive_round at 1.
  rewrite salt_keys_repeated by done. apply full_pass_ok; [by apply full_pass_ok|by apply repeated_range].
Qed.

(** ** The initial state *)

Lemma word_store l : forall ctx i j, word (store_words ctx i l) j =
  if (i <=? j) && (j <? i + lenZ l) then at_ l (Z.to_nat (j - i)) else word ctx j.
Proof.
  induction l as [|x l IH]; intros ctx i j; cbn [store_words].
  - cbn [length]. destruct (Z.leb_spec i j), (Z.ltb_spec j (i + Z.of_nat 0)); (done || lia).
  - rewrite IH, word_insert. simpl length. destruct (Z.leb_spec (i + 1) j), (Z.ltb_spec j (i + 1 + lenZ l)),
      (Z.leb_spec i j), (Z.ltb_spec j (i + Z.of_nat (S (length l)))), (Z.eqb_spec j i); try lia; simpl; try done.
    + replace (Z.to_nat (j - i)) with (S (Z.to_nat (j - (i + 1)))) by lia. done.
    + subst j. by rewrite Z.sub_diag.
Qed.

(** The tables of the code are the digits of pi. *)
Lemma tables_pi : BF_init_P ++ BF_init_S = Spec.pi_words.
Proof. vm_compute. reflexivity. Qed.

Lemma tables_ok : forallb (fun x => (0 <=? x) && (x <? 2 ^ 32)) (BF_init_P ++ BF_init_S) = true /\ length BF_init_P = 18%nat /\ length BF_init_S = 1024%nat.
Proof. split_and!; vm_compute; reflexivity. Qed.

Opaque BF_init_P BF_init_S Spec.pi_words.
Lemma table_subkey i : (i < 18)%nat -> at_ BF_init_P i = Spec.subkey Spec.pi_state i.
Proof. intros Hi. destruct tables_ok as (_ & LP & _). unfold Spec.pi_state. cbn [Spec.subkey]. rewrite <- tables_pi. unfold at_. by rewrite app_nth1 by lia. Qed.
Lemma table_box k j : (k < 4)%nat -> 0 <= j < 256 ->
  at_ BF_init_S (Z.to_nat (256 * Z.of_nat k + j)) = Spec.box Spec.pi_state k j.
Proof.
  intros Hk Hj. destruct tables_ok as (_ & LP & _). unfold Spec.pi_state. cbn [Spec.box]. rewrite <- tables_pi. unfold at_. rewrite app_nth2 by lia.
  f_equal. lia.
Qed.
Transparent BF_init_P BF_init_S Spec.pi_words.

Lemma tables_range : Forall (in_range 32) (BF_init_P ++ BF_init_S).
Proof.
  destruct tables_ok as (H & _). apply List.Forall_forall. intros x Hx. rewrite forallb_forall in H.
  specialize (H x Hx). apply andb_true_iff in H as [H1 H2]. unfold in_range. lia.
Qed.

Opaque BF_init_P BF_init_S Spec.pi_words.
Lemma initial_ok ks : length ks = 18%nat -> Forall (in_range 32) ks ->
  holds_state (store_words (store_words ∅ 0 (zip_with Z.lxor BF_init_P ks)) 18 BF_init_S) (Spec.mix Spec.pi_state ks).
Proof.
  intros Hl Hk. destruct tables_ok as (_ & LP & LS). pose proof tables_range as [HP HS]%Forall_app.
  assert (lenZ (zip_with Z.lxor BF_init_P ks) = 18) as LZ by (rewrite length_zip_with, LP, Hl; done).
  assert (lenZ BF_init_S = 1024) as LS' by (rewrite LS; done).
  split.
  - intros i Hi. rewrite !word_store, LZ. destruct (Z.leb_spec 18 (Z.of_nat i)); [lia|]. cbn [andb].
    destruct (Z.leb_spec 0 (Z.of_nat i)), (Z.ltb_spec (Z.of_nat i) (0 + 18)); try lia. cbn [andb].
    rewrite Z.sub_0_r, Nat2Z.id, at_zip_lxor, table_subkey by lia. done.
  - intros k j Hk' Hj. rewrite word_store, LS'.
    destruct (Z.leb_spec 18 (18 + 256 * Z.of_nat k + j)), (Z.ltb_spec (18 + 256 * Z.of_nat k + j) (18 + 1024)); try lia. cbn [andb].
    replace (18 + 256 * Z.of_nat k + j - 18) with (256 * Z.of_nat k + j) by lia. by rewrite table_box.
  - intros i Hi. rewrite !word_store, LZ. case_match; [by apply at_range|]. case_match; [|unfold word; rewrite lookup_empty; apply in_range_0].
    rewrite at_zip_lxor by lia. apply lxor_range; [lia|by apply at_range|by apply at_range].
Qed.
Transparent BF_init_P BF_init_S Spec.pi_words.
