(* ===== verification/BfKey.v ===== *)
(** * BfKey: the key setup of crypt_blowfish.c

    The words of the repeated key, the words sign extension makes of them, and
    the measure [BF_set_key] takes when a key would share its words with a
    wrong one. *)

From Stdlib Require Import ZArith Lia Bool List String Ascii.
From stdpp Require Import base tactics numbers list gmap option.
From S2P Require Import Prelude CMem StrScan BlockHash CryptHash Blowfish BfCipher.
Open Scope Z_scope.

(** ** The key setup *)

(** The characters of the key, its NUL included, over and over. *)
Definition key_char (key : list Z) (n : nat) : Z := at_ key (n mod S (length key)).

(** The big-endian words of these characters, and the words that sign
    extension makes of them. *)
Definition key_word (key : list Z) (i : nat) : Z :=
  2 ^ 24 * key_char key (4 * i) + 2 ^ 16 * key_char key (4 * i + 1) + 2 ^ 8 * key_char key (4 * i + 2) + key_char key (4 * i + 3).
Definition sign_word (key : list Z) (i : nat) : Z :=
  foldl (fun w j => Z.lor (wrap32 (w * 2 ^ 8)) (wrap32 (swrap 8 (key_char key (4 * i + j))))) 0 (seq 0 4).

Definition key_words (key : list Z) : list Z := key_word key <$> seq 0 18.
Definition sign_words (key : list Z) : list Z := sign_word key <$> seq 0 18.

(** A character with its high bit set that is not the first of its word: there
    sign extension overwrites the characters before. *)
Definition extends (key : list Z) : bool :=
  existsb (fun i => existsb (fun j => 128 <=? key_char key (4 * i + j)) [1; 2; 3]%nat) (seq 0 18).

(** When the correct and the wrong words are the same although sign extension
    happened, the correct key has a collision with a wrong one. *)
Definition collides (key : list Z) : bool := bool_decide (key_words key = sign_words key) && extends key.

Definition is_ckey (key : list Z) : Prop := Forall (fun c => 1 <= c < 256) key.

Section set_key.
Context (key : list Z) (Hkey : is_ckey key).

Lemma at_key_byte i : is_byte (at_ key i).
Proof.
  unfold at_. destruct (nth_in_or_default i key 0) as [Hin| ->]; [|split; lia].
  unfold is_ckey in Hkey. rewrite List.Forall_forall in Hkey. specialize (Hkey _ Hin). unfold in_range. lia.
Qed.

Lemma key_char_byte n : is_byte (key_char key n).
Proof. apply at_key_byte. Qed.

Lemma at_key_zero i : (i <= length key)%nat -> at_ key i = 0 <-> i = length key.
Proof.
  intros Hi. unfold at_. split.
  - intros H. destruct (decide (i = length key)); [done|exfalso]. pose proof (nth_In key 0 (n := i) ltac:(lia)) as Hin.
    unfold is_ckey in Hkey. rewrite List.Forall_forall in Hkey. specialize (Hkey _ Hin). lia.
  - intros ->. by apply nth_overflow.
Qed.

(** The pointer is at the character the position says. *)
Lemma ptr_step n :
  (if key_char key n =? 0 then 0%nat else S (n mod S (length key))) = (S n mod S (length key))%nat.
Proof.
  pose proof (Nat.mod_upper_bound n (S (length key)) ltac:(lia)) as Hb.
  pose proof (Nat.div_mod_eq n (S (length key))) as Hd. unfold key_char.
  pose proof (at_key_zero (n mod S (length key)) ltac:(lia)) as H0.
  destruct (Z.eqb_spec (at_ key (n mod S (length key))) 0) as [E|E]; rewrite H0 in E.
  - apply (Nat.mod_unique _ _ (S (n / S (length key)))); lia.
  - apply (Nat.mod_unique _ _ (n / S (length key))); lia.
Qed.

(** ** The words *)

Lemma lor_shift8 w c : 0 <= w < 2 ^ 24 -> is_byte c -> Z.lor (wrap32 (Z.shiftl w 8)) c = 2 ^ 8 * w + c.
Proof.
  unfold in_range. intros Hw Hc. rewrite Z.shiftl_mul_pow2 by lia. unfold wrap. rewrite Z.mod_small by lia.
  symmetry. rewrite (Z.mul_comm (2 ^ 8)). apply Z.add_nocarry_lor. apply Z.bits_inj'. intros n Hn.
  rewrite Z.land_spec, Z.bits_0. destruct (Z.lt_ge_cases n 8).
  - rewrite Z.mul_pow2_bits_low by lia. done.
  - destruct (Z.eq_dec c 0) as [->|]; [rewrite Z.bits_0; apply andb_false_r|].
    rewrite (Z.bits_above_log2 c n), andb_false_r; [done|lia|]. apply (Z.lt_le_trans _ 8); [|lia]. apply Z.log2_lt_pow2; lia.
Qed.

(** One character: with the position [n] at the [j]-th character of a word. *)
Lemma char_step n t0 t1 sign diff j :
  set_key_char key (mk_sk (n mod S (length key)) t0 t1 sign diff) j =
  mk_sk (S n mod S (length key)) (Z.lor (wrap32 (Z.shiftl t0 8)) (key_char key n))
    (Z.lor (wrap32 (t1 * 2 ^ 8)) (wrap32 (swrap 8 (key_char key n))))
    (if (j =? 0)%nat then sign else
       Z.lor sign (Z.land (Z.lor (wrap32 (t1 * 2 ^ 8)) (wrap32 (swrap 8 (key_char key n)))) 0x80)) diff.
Proof. unfold set_key_char. cbn [sk_ptr sk_tmp0 sk_tmp1 sk_sign sk_diff]. fold (key_char key n). rewrite ptr_step, (Z.shiftl_mul_pow2 t1) by lia. done. Qed.

(** Bit 7 of a character survives in the low byte. *)
Lemma high_bit t c : is_byte c ->
  Z.land (Z.lor (wrap32 (t * 2 ^ 8)) (wrap32 (swrap 8 c))) 0x80 = if 128 <=? c then 0x80 else 0.
Proof.
  unfold in_range. intros Hc. change 128 with (2 ^ 7) at 1. apply Z.bits_inj'. intros n Hn.
  rewrite Z.land_spec, Z.lor_spec, Z.pow2_bits_eqb by lia. unfold wrap. rewrite !Z.testbit_mod_pow2 by lia.
  destruct (Z.eqb_spec 7 n) as [<-|Hne].
  - rewrite andb_true_r. destruct (Z.ltb_spec 7 32) as [_|]; [|lia]. rewrite !andb_true_l, Z.mul_pow2_bits_low, orb_false_l by lia.
    unfold swrap, wrap. change (2 ^ (8 - 1)) with 128. rewrite Z.mod_small by lia.
    destruct (Z.ltb_spec c 128), (Z.leb_spec 128 c); try lia.
    + rewrite (Z.testbit_odd c), Z.shiftr_div_pow2, Z.div_small by lia. done.
    + rewrite (Z.testbit_odd (c - _)), Z.shiftr_div_pow2 by lia.
      replace ((c - 2 ^ 8) / 2 ^ 7) with (-1) by (apply (Z.div_unique_pos _ _ _ (c - 128)); lia). done.
  - rewrite andb_false_r. destruct (128 <=? c); [|by rewrite Z.bits_0]. change 128 with (2 ^ 7). rewrite Z.pow2_bits_eqb by lia.
    by destruct (Z.eqb_spec 7 n).
Qed.

(** What [sign] has become after some words. *)
Definition sign_of (ws : list nat) : bool :=
  existsb (fun i => existsb (fun j => 128 <=? key_char key (4 * i + j)) [1; 2; 3]%nat) ws.
Definition flag (b : bool) : Z := if b then 0x80 else 0.

Lemma flag_lor b c : Z.lor (flag b) (if c : bool then 0x80 else 0) = flag (b || c).
Proof. by destruct b, c. Qed.

Lemma word_step bug (i : nat) b diff t0 t1 acc :
  set_key_word key bug (mk_sk ((4 * i) mod S (length key))%nat t0 t1 (flag b) diff, acc) i =
  (mk_sk ((4 * S i) mod S (length key))%nat (key_word key i) (sign_word key i) (flag (b || sign_of [i]))
     (Z.lor diff (Z.lxor (key_word key i) (sign_word key i))),
   acc ++ [if bug then sign_word key i else key_word key i]).
Proof.
  unfold set_key_word. cbn [sk_ptr sk_tmp0 sk_tmp1 sk_sign sk_diff seq foldl].
  rewrite !char_step. cbn [Nat.eqb sk_ptr sk_tmp0 sk_tmp1 sk_sign sk_diff].
  replace (S (S (S (S (4 * i))))) with (4 * S i)%nat by lia.
  rewrite !high_bit by apply key_char_byte. rewrite !flag_lor.
  assert (forall a, is_byte (key_char key a)) as Hc by apply key_char_byte. unfold in_range in Hc.
  assert (forall a b, S (a + b) = (a + S b)%nat) as HS by (intros; lia).
  replace (Z.lor (wrap32 (Z.shiftl 0 8)) (key_char key (4 * i))) with (key_char key (4 * i)) by done.
  pose proof (Hc (4 * i)%nat) as H0. pose proof (Hc (S (4 * i))) as H1. pose proof (Hc (S (S (4 * i)))) as H2.
  rewrite (lor_shift8 (key_char key (4 * i))) by (lia || apply Hc).
  rewrite (lor_shift8 (2 ^ 8 * key_char key (4 * i) + key_char key (S (4 * i)))) by (lia || apply Hc).
  rewrite lor_shift8 by (lia || apply Hc).
  unfold key_word, sign_word, sign_of. cbn [seq foldl existsb]. rewrite orb_false_r, !Nat.add_0_r.
  replace (4 * i + 1)%nat with (S (4 * i)) by lia. replace (4 * i + 2)%nat with (S (S (4 * i))) by lia.
  replace (4 * i + 3)%nat with (S (S (S (4 * i)))) by lia. rewrite !orb_false_r, <- !orb_assoc.
  replace (2 ^ 8 * (2 ^ 8 * (2 ^ 8 * key_char key (4 * i) + key_char key (S (4 * i))) + key_char key (S (S (4 * i)))) +
    key_char key (S (S (S (4 * i))))) with (2 ^ 24 * key_char key (4 * i) + 2 ^ 16 * key_char key (S (4 * i)) +
    2 ^ 8 * key_char key (S (S (4 * i))) + key_char key (S (S (S (4 * i))))) by lia. done.
Qed.

Lemma sign_of_app l1 l2 : sign_of (l1 ++ l2) = sign_of l1 || sign_of l2.
Proof. apply existsb_app. Qed.

(** The difference accumulated over some words. *)
Definition diff_of (ws : list nat) : Z := foldl (fun d i => Z.lor d (Z.lxor (key_word key i) (sign_word key i))) 0 ws.

Lemma words_loop bug n : exists t0 t1,
  foldl (set_key_word key bug) (mk_sk 0 0 0 0 0, []) (seq 0 n) =
  (mk_sk ((4 * n) mod S (length key))%nat t0 t1 (flag (sign_of (seq 0 n))) (diff_of (seq 0 n)),
   (if bug : bool then sign_word key else key_word key) <$> seq 0 n).
Proof.
  induction n as [|n (t0 & t1 & IH)].
  - exists 0, 0. rewrite Nat.mul_0_r, Nat.Div0.mod_0_l. done.
  - rewrite seq_S, foldl_app, IH, Nat.add_0_l. cbn [foldl]. rewrite word_step.
    exists (key_word key n), (sign_word key n). rewrite sign_of_app, fmap_app. unfold diff_of. rewrite foldl_app.
    by destruct bug.
Qed.

Lemma key_word_range i : in_range 32 (key_word key i).
Proof.
  unfold key_word. pose proof (key_char_byte (4 * i)). pose proof (key_char_byte (4 * i + 1)).
  pose proof (key_char_byte (4 * i + 2)). pose proof (key_char_byte (4 * i + 3)). unfold in_range in *. lia.
Qed.

Lemma sign_word_range i : in_range 32 (sign_word key i).
Proof. unfold sign_word. cbn [seq foldl]. apply lor_in_range; [lia|by apply wrap_range..]. Qed.

Lemma diff_range ws : in_range 32 (diff_of ws).
Proof.
  unfold diff_of. induction ws as [|i ws IH] using rev_ind; [exact in_range_0|]. rewrite foldl_app. cbn [foldl].
  apply lor_in_range; [lia|done|]. apply lxor_range; [lia|apply key_word_range|apply sign_word_range].
Qed.

Lemma diff_zero ws : diff_of ws = 0 <-> key_word key <$> ws = sign_word key <$> ws.
Proof.
  unfold diff_of. induction ws as [|i ws IH] using rev_ind; [done|]. rewrite foldl_app. cbn [foldl].
  rewrite !fmap_app, Z.lor_eq_0_iff, IH, Z.lxor_eq_0_iff. cbn [fmap list_fmap]. split.
  - by intros [-> ->].
  - intros H. apply app_inj_tail in H. tauto.
Qed.

(** The bit arithmetic that ends [BF_set_key]: bit 16 is set exactly when the
    words were the same, sign extension happened and the measure is asked. *)
Lemma fold_zero d : in_range 32 d -> Z.land (Z.lor d (Z.shiftr d 16)) 0xffff = 0 <-> d = 0.
Proof.
  intros Hd. split; [|by intros ->]. intros H. apply Z.bits_inj'. intros n Hn. rewrite Z.bits_0.
  assert (forall k, 0 <= k < 16 -> Z.testbit d k = false /\ Z.testbit d (k + 16) = false) as Hb.
  { intros k Hk. pose proof (f_equal (fun z => Z.testbit z k) H) as E. cbv beta in E. change 0xffff with (Z.ones 16) in E.
    rewrite Z.land_spec, Z.lor_spec, Z.shiftr_spec, Z.ones_spec_low, Z.bits_0, andb_true_r in E by lia.
    by apply orb_false_iff in E. }
  destruct (Z.lt_ge_cases n 16) as [H1|H1]; [apply Hb; lia|]. destruct (Z.lt_ge_cases n 32) as [H2|H2].
  - replace n with (n - 16 + 16) by lia. apply Hb. lia.
  - rewrite <- (wrap_small 32 d) by done. unfold wrap. apply Z.mod_pow2_bits_high. lia.
Qed.

Lemma safety_bit d b safety : in_range 32 d -> safety = 0 \/ safety = 0x10000 ->
  let diff := wrap32 (Z.land (Z.lor d (Z.shiftr d 16)) 0xffff + 0xffff) in
  Z.land (wrap32 (Z.shiftl (flag b) 9)) (Z.land (wrap32 (Z.lnot diff)) safety) =
  if (d =? 0) && b && (safety =? 0x10000) then 0x10000 else 0.
Proof.
  intros Hd Hs. cbv zeta. destruct b; [|by rewrite andb_false_r, andb_false_l].
  destruct Hs as [-> | ->]; [by rewrite Z.land_0_r, andb_false_r|].
  destruct (Z.eqb_spec d 0) as [->|Hn]; [done|]. cbn [andb].
  set (v := Z.land (Z.lor d (Z.shiftr d 16)) 0xffff).
  assert (1 <= v < 2 ^ 16) as Hv.
  { assert (v <> 0) by (intros E; apply Hn; by apply fold_zero). unfold v in *. change 0xffff with (Z.ones 16) in *.
    rewrite Z.land_ones in * by lia. pose proof (Z.mod_pos_bound (Z.lor d (Z.shiftr d 16)) (2 ^ 16)). lia. }
  change (wrap32 (Z.shiftl (flag true) 9)) with (2 ^ 16). change 0x10000 with (2 ^ 16).
  rewrite (wrap_small 32 (v + _)) by (unfold in_range; lia).
  apply Z.bits_inj'. intros n Hn'. rewrite Z.bits_0, !Z.land_spec, Z.pow2_bits_eqb by lia.
  destruct (Z.eqb_spec 16 n) as [<-|]; [|done]. unfold wrap. rewrite Z.testbit_mod_pow2, Z.lnot_spec by lia.
  rewrite (Z.testbit_odd (v + 0xffff)), Z.shiftr_div_pow2 by lia.
  replace ((v + 0xffff) / 2 ^ 16) with 1 by (apply (Z.div_unique_pos _ _ _ (v - 1)); lia). done.
Qed.

(** What [BF_set_key] computes, for each of the flags in use. *)
Lemma set_key_ok flags : flags = 1 \/ flags = 2 \/ flags = 4 ->
  let ks := if flags =? 1 then sign_words key else key_words key in
  let initial := zip_with Z.lxor BF_init_P ks in
  BF_set_key key flags =
  (ks, <[0%nat := Z.lxor (at_ initial 0) (if (flags =? 2) && collides key then 0x10000 else 0)]> initial).
Proof.
  intros Hf ks initial. unfold BF_set_key. cbv zeta.
  destruct (words_loop (truth (Z.land flags 1)) 18) as (t0 & t1 & E). change (BF_N + 2)%nat with 18%nat. rewrite E.
  cbn [sk_diff sk_sign]. rewrite safety_bit; [|apply diff_range|destruct Hf as [-> |[-> | ->]]; vm_compute; auto].
  assert ((if truth (Z.land flags 1) then sign_word key else key_word key) <$> seq 0 18 = ks) as ->.
  { unfold ks. by destruct Hf as [-> |[-> | ->]]. }
  fold initial. do 4 f_equal. unfold collides. fold (sign_of (seq 0 18)). change (extends key) with (sign_of (seq 0 18)).
  replace (diff_of (seq 0 18) =? 0) with (bool_decide (key_words key = sign_words key)).
  - destruct Hf as [-> |[-> | ->]]; cbn [Z.eqb andb]; [by rewrite andb_false_r| |by rewrite andb_false_r].
    change (wrap32 (Z.shiftl (Z.land 2 2) 15) =? 0x10000) with true. by rewrite andb_true_r.
  - case_bool_decide as H; symmetry; [apply Z.eqb_eq|apply Z.eqb_neq]; unfold key_words, sign_words in H; by rewrite diff_zero.
Qed.
End set_key.
