(* ===== verification/BfCrypt.v ===== *)
(** * BfCrypt: bcrypt is the published algorithm

    Byte order, radix 64, and [BF_crypt] as a whole: it is [bcrypt_text], and
    a hash it returns is a setting that gives the same hash again. *)

From Stdlib Require Import ZArith Lia Bool List String Ascii.
From stdpp Require Import base tactics numbers list gmap option.
From S2P Require Import Prelude CMem StrScan BlockHash CryptSpec CryptHash BfSpec Blowfish BfCipher BfKey.
Open Scope Z_scope.

(** ** Bytes and words *)

#[local] Ltac each tac := repeat (apply List.Forall_cons; [tac|]); apply List.Forall_nil.

(** On the little-endian target [BF_swap] reverses the bytes of a word. *)
Lemma swap_bytes b0 b1 b2 b3 : is_byte b0 -> is_byte b1 -> is_byte b2 -> is_byte b3 ->
  swap_word (le_combine [b0; b1; b2; b3]) = le_combine [b3; b2; b1; b0].
Proof.
  intros H0 H1 H2 H3. pose proof (H0 : 0 <= b0 < 256). pose proof (H1 : 0 <= b1 < 256).
  pose proof (H2 : 0 <= b2 < 256). pose proof (H3 : 0 <= b3 < 256). unfold swap_word. cbv zeta. cbn [le_combine].
  replace (wrap32 (Z.shiftl (b0 + 256 * (b1 + 256 * (b2 + 256 * (b3 + 256 * 0)))) 16)) with (0 + 256 * (0 + 256 * (b0 + 256 * (b1 + 256 * 0)))).
  2: { rewrite Z.shiftl_mul_pow2 by lia. unfold wrap. apply (Z.mod_unique_pos _ _ (b2 + 256 * b3)); lia. }
  replace (Z.shiftr (b0 + 256 * (b1 + 256 * (b2 + 256 * (b3 + 256 * 0)))) 16) with (b2 + 256 * (b3 + 256 * (0 + 256 * 0))).
  2: { rewrite Z.shiftr_div_pow2 by lia. apply (Z.div_unique_pos _ _ _ (b0 + 256 * b1)); lia. }
  assert (is_byte 0) as Hz by (split; lia). assert (is_byte 255) as Hf by (split; lia).
  rewrite !lor_split, !Z.lor_0_l, !Z.lor_0_r by done.
  change 0x00FF00FF with (255 + 256 * (0 + 256 * (255 + 256 * 0))).
  assert (forall b, 0 <= b < 256 -> Z.land b 255 = b) as Hl.
  { intros b Hb. change 255 with (Z.ones 8). rewrite Z.land_ones by lia. by apply Z.mod_small. }
  replace (Z.shiftr (b2 + 256 * (b3 + 256 * (b0 + 256 * (b1 + 256 * 0)))) 8) with (b3 + 256 * (b0 + 256 * (b1 + 256 * 0))).
  2: { rewrite Z.shiftr_div_pow2 by lia. apply (Z.div_unique_pos _ _ _ b2); lia. }
  rewrite !land_split, !Z.land_0_r, !Hl by done.
  replace (wrap32 (Z.shiftl (b2 + 256 * (0 + 256 * (b0 + 256 * 0))) 8)) with (0 + 256 * (b2 + 256 * (0 + 256 * (b0 + 256 * 0)))).
  2: { rewrite Z.shiftl_mul_pow2 by lia. symmetry. unfold wrap. rewrite Z.mod_small; lia. }
  by rewrite !lor_split, !Z.lor_0_l, !Z.lor_0_r by done.
Qed.

Definition be_word (l : list Z) : Z := le_combine (rev l).
Definition be_bytes (x : Z) : list Z := rev (le_split 4 x).

Lemma le_split4 x : exists b0 b1 b2 b3, le_split 4 x = [b0; b1; b2; b3] /\
  is_byte b0 /\ is_byte b1 /\ is_byte b2 /\ is_byte b3.
Proof. eexists _, _, _, _. split; [reflexivity|]. split_and!; by apply wrap_range. Qed.

Lemma swap_word_bytes x : in_range 32 x -> le_split 4 (swap_word x) = be_bytes x.
Proof.
  intros Hx. unfold be_bytes. destruct (le_split4 x) as (b0 & b1 & b2 & b3 & E & H0 & H1 & H2 & H3).
  assert (x = le_combine [b0; b1; b2; b3]) as ->.
  { rewrite <- E, le_combine_split, wrap_small; done. }
  rewrite swap_bytes, E by done. simpl rev.
  apply (le_split_combine [b3; b2; b1; b0]). each done.
Qed.

Lemma bytes_of_swap ws : Forall (in_range 32) ws -> bytes_of (BF_swap ws) = concat (be_bytes <$> ws).
Proof.
  intros H. unfold bytes_of, BF_swap. f_equal. induction H as [|x ws Hx _ IH]; [done|]. cbn [fmap list_fmap].
  by rewrite swap_word_bytes, IH.
Qed.

(** The salt: four big-endian words of sixteen bytes. *)
Definition be_words4 (l : list Z) : list Z :=
  be_word <$> [take 4 l; take 4 (drop 4 l); take 4 (drop 8 l); take 4 (drop 12 l)].

Lemma swap_words_of l : length l = 16%nat -> Forall is_byte l ->
  BF_swap (words_of 4 l) = be_words4 l /\ Forall (in_range 32) (be_words4 l).
Proof.
  intros Hl Hb. do 16 (destruct l as [|? l]; [done|]). destruct l; [|done].
  repeat (apply List.Forall_cons_iff in Hb as [? Hb]).
  unfold BF_swap, words_of, be_words4, be_word. cbn [take drop fmap list_fmap rev app]. rewrite !swap_bytes by done.
  split; [done|]. each ltac:(apply (le_combine_range [_; _; _; _]); each done).
Qed.

(** ** Radix 64 *)

Lemma atoi_itoa v : 0 <= v < 64 -> BF_safe_atoi64 (itoa v) = Some v.
Proof.
  intros Hv. assert (forallb (fun n => bool_decide (BF_safe_atoi64 (itoa (Z.of_nat n)) = Some (Z.of_nat n))) (seq 0 64) = true) as H
    by (vm_compute; reflexivity).
  rewrite forallb_forall in H. specialize (H (Z.to_nat v) ltac:(apply in_seq; lia)). apply bool_decide_eq_true in H.
  by rewrite Z2Nat.id in H by lia.
Qed.

Lemma atoi_range c v : BF_safe_atoi64 c = Some v -> 0 <= v < 64 /\ (is_byte c -> v = at_ BF_atoi64 (Z.to_nat (c - 0x20))).
Proof.
  unfold BF_safe_atoi64. cbv zeta. destruct (Z.leb_spec 0x60 (wrap32 (c - 0x20))) as [|Hlt]; [done|].
  destruct (Z.ltb_spec 63 (at_ BF_atoi64 (Z.to_nat (wrap32 (c - 0x20))))) as [|Hle]; [done|]. intros [= <-].
  assert (Forall (fun x => 0 <= x) BF_atoi64) as Hpos by (unfold BF_atoi64; repeat (apply List.Forall_cons; [lia|]); apply List.Forall_nil).
  split; [split; [|lia]|].
  - unfold at_. destruct (nth_in_or_default (Z.to_nat (wrap32 (c - 0x20))) BF_atoi64 0) as [Hin| ->]; [|lia].
    rewrite List.Forall_forall in Hpos. exact (Hpos _ Hin).
  - unfold in_range. intros Hc. do 2 f_equal. unfold wrap in *. destruct (Z.lt_ge_cases c 32).
    + rewrite <- (Z.mod_unique_pos (c - 32) (2 ^ 32) (-1) (2 ^ 32 + c - 32)) in Hlt by lia. lia.
    + apply Z.mod_small. lia.
Qed.

(** The digits of three bytes, and back. *)

Lemma dec1 c1 c2 : 0 <= c1 < 64 -> 0 <= c2 < 64 ->
  wrap8 (Z.lor (Z.shiftl c1 2) (Z.shiftr (Z.land c2 0x30) 4)) = 4 * c1 + c2 / 16.
Proof.
  intros H1 H2. rewrite Z.shiftr_land. change (Z.shiftr 0x30 4) with (Z.ones 2). rewrite Z.land_ones, Z.shiftr_div_pow2 by lia.
  change (2 ^ 4) with 16. rewrite Z.mod_small by (Z.to_euclidean_division_equations; lia).
  rewrite lor_low by (Z.to_euclidean_division_equations; lia). apply Z.mod_small. Z.to_euclidean_division_equations; lia.
Qed.

Lemma dec2 c2 c3 : 0 <= c2 < 64 -> 0 <= c3 < 64 ->
  wrap8 (Z.lor (Z.shiftl (Z.land c2 0x0F) 4) (Z.shiftr (Z.land c3 0x3C) 2)) = 16 * (c2 mod 16) + c3 / 4.
Proof.
  intros H1 H2. rewrite Z.shiftr_land. change (Z.shiftr 0x3C 2) with (Z.ones 4). change 0x0F with (Z.ones 4).
  rewrite !Z.land_ones, Z.shiftr_div_pow2 by lia. change (2 ^ 2) with 4. change (2 ^ 4) with 16.
  rewrite (Z.mod_small (c3 / 4)) by (Z.to_euclidean_division_equations; lia).
  rewrite lor_low by (Z.to_euclidean_division_equations; lia). apply Z.mod_small. Z.to_euclidean_division_equations; lia.
Qed.

Lemma dec3 c3 c4 : 0 <= c3 < 64 -> 0 <= c4 < 64 -> wrap8 (Z.lor (Z.shiftl (Z.land c3 0x03) 6) c4) = 64 * (c3 mod 4) + c4.
Proof.
  intros H1 H2. change 0x03 with (Z.ones 2). rewrite Z.land_ones by lia. change (2 ^ 2) with 4.
  rewrite lor_low by (Z.to_euclidean_division_equations; lia). apply Z.mod_small. Z.to_euclidean_division_equations; lia.
Qed.

Lemma enc_high x w k : is_byte x -> 0 <= w -> 0 <= k -> Z.shiftl (Z.land x (Z.ones k)) w = 2 ^ w * (x mod 2 ^ k).
Proof. intros. rewrite Z.land_ones, Z.shiftl_mul_pow2 by lia. lia. Qed.

Lemma lor_mul w a b : 0 <= w -> 0 <= b < 2 ^ w -> Z.lor (2 ^ w * a) b = 2 ^ w * a + b.
Proof. intros Hw Hb. rewrite <- lor_low, Z.shiftl_mul_pow2, (Z.mul_comm a) by lia. done. Qed.

(** The four digits of three bytes determine them. *)
Lemma digits3 x y z : 0 <= x < 256 -> 0 <= y < 256 -> 0 <= z < 256 ->
  4 * (x / 4) + (16 * (x mod 4) + y / 16) / 16 = x /\
  16 * ((16 * (x mod 4) + y / 16) mod 16) + (4 * (y mod 16) + z / 64) / 4 = y /\
  64 * ((4 * (y mod 16) + z / 64) mod 4) + z mod 64 = z.
Proof. intros. split_and!; Z.to_euclidean_division_equations; lia. Qed.

(** Decoding what [BF_encode] wrote gives the bytes back, for any number of
    them and whatever follows. *)
Lemma decode_encode n : forall l rest, length l = n -> (0 < n)%nat -> Forall is_byte l -> forall fuel, (n <= fuel)%nat ->
  BF_decode fuel n (BF_encode fuel l ++ rest) = Some l.
Proof.
  induction n as [n IH] using lt_wf_ind. intros l rest Hl Hn Hb fuel Hf.
  destruct fuel as [|fuel]; [lia|]. destruct l as [|x l]; [simpl in Hl; lia|].
  apply List.Forall_cons_iff in Hb as [Hx Hb]. unfold in_range in Hx. change (2 ^ 8) with 256 in Hx.
  assert (forall v, 0 <= v < 64 -> BF_safe_atoi64 (itoa v) = Some v) as Ha by apply atoi_itoa.
  cbn [BF_encode]. change (at_ (x :: l) 0) with x. change 0x03 with (Z.ones 2). rewrite enc_high, Z.shiftr_div_pow2 by (done || lia).
  change (2 ^ 2) with 4. change (2 ^ 4) with 16.
  destruct l as [|y l]; [subst n; cbn [length Nat.leb app BF_decode at_ nth]|].
  { rewrite !Ha by (Z.to_euclidean_division_equations; lia). cbn [mbind option_bind].
    rewrite dec1 by (Z.to_euclidean_division_equations; lia). do 2 f_equal. Z.to_euclidean_division_equations; lia. }
  apply List.Forall_cons_iff in Hb as [Hy Hb]. unfold in_range in Hy. change (2 ^ 8) with 256 in Hy.
  change (at_ (x :: y :: l) 1) with y. rewrite (Z.shiftr_div_pow2 y) by lia. change 0x0f with (Z.ones 4). change (2 ^ 4) with 16.
  pose proof (lor_mul 4 (x mod 4) (y / 16)) as E. change (2 ^ 4) with 16 in E.
  rewrite E by (Z.to_euclidean_division_equations; lia). clear E.
  rewrite enc_high by (done || lia). change (2 ^ 4) with 16. change (2 ^ 2) with 4.
  destruct l as [|z l]; [subst n; cbn [length Nat.leb app BF_decode at_ nth]|].
  { rewrite !Ha by (Z.to_euclidean_division_equations; lia). cbn [mbind option_bind].
    rewrite dec1, dec2 by (Z.to_euclidean_division_equations; lia). do 2 f_equal; [|f_equal]; Z.to_euclidean_division_equations; lia. }
  apply List.Forall_cons_iff in Hb as [Hz Hb]. unfold in_range in Hz. change (2 ^ 8) with 256 in Hz.
  change (at_ (x :: y :: z :: l) 2) with z. rewrite (Z.shiftr_div_pow2 z) by lia. change 0x3f with (Z.ones 6). rewrite Z.land_ones by lia.
  change (2 ^ 6) with 64. pose proof (lor_mul 2 (y mod 16) (z / 64)) as E. change (2 ^ 2) with 4 in E.
  rewrite E by (Z.to_euclidean_division_equations; lia). clear E. cbn [length Nat.leb]. set (d1 := itoa _). set (d2 := itoa _). set (d3 := itoa _). set (d4 := itoa _).
  assert (forall w k, BF_decode (S fuel) n (d1 :: d2 :: d3 :: d4 :: w) = Some k <->
    (if (n <=? 3)%nat then Some [x; y; z] else rest ← BF_decode fuel (n - 3) w; Some (x :: y :: z :: rest)) = Some k) as Hstep.
  { intros w k. cbn [BF_decode at_ nth drop]. unfold d1, d2, d3, d4.
    rewrite !Ha by (Z.to_euclidean_division_equations; lia). cbn [mbind option_bind].
    rewrite dec1, dec2, dec3 by (Z.to_euclidean_division_equations; lia).
    destruct (Nat.leb_spec n 1), (Nat.leb_spec n 2); try (simpl in Hl; lia).
    destruct (digits3 x y z Hx Hy Hz) as (-> & -> & ->). done. }
  destruct l as [|u l]; cbn [Nat.leb drop app]; apply Hstep.
  - subst n. done.
  - destruct (Nat.leb_spec n 3); [simpl in Hl; lia|]. rewrite (IH (n - 3)%nat); [done|lia|simpl in *; lia|lia|done|lia].
Qed.

Lemma decode_shape fuel : forall size src l, BF_decode fuel size src = Some l -> (0 < size)%nat ->
  length l = size /\ Forall is_byte l.
Proof.
  induction fuel as [|fuel IH]; intros size src l H Hs; [done|]. cbn [BF_decode] in H.
  assert (forall z, is_byte (wrap8 z)) as Hw by (intros; by apply wrap_range).
  destruct (BF_safe_atoi64 (at_ src 0)) as [c1|]; [|done]. destruct (BF_safe_atoi64 (at_ src 1)) as [c2|]; [|done].
  cbn [mbind option_bind] in H. destruct (Nat.leb_spec size 1).
  { injection H as <-. split; [simpl; lia|]. each ltac:(apply Hw). }
  destruct (BF_safe_atoi64 (at_ src 2)) as [c3|]; [|done]. cbn [mbind option_bind] in H. destruct (Nat.leb_spec size 2).
  { injection H as <-. split; [simpl; lia|]. each ltac:(apply Hw). }
  destruct (BF_safe_atoi64 (at_ src 3)) as [c4|]; [|done]. cbn [mbind option_bind] in H. destruct (Nat.leb_spec size 3).
  { injection H as <-. split; [simpl; lia|]. each ltac:(apply Hw). }
  destruct (BF_decode fuel (size - 3) (drop 4 src)) as [k|] eqn:E; [|done]. cbn [mbind option_bind] in H. injection H as <-.
  apply IH in E as [E1 E2]; [|lia]. split; [simpl; lia|].
  repeat (apply List.Forall_cons; [apply Hw|]). exact E2.
Qed.

(** Decoding [3 q + 1] bytes reads [4 q + 2] characters, and of the last one
    only its first two bits. *)
Lemma decode_last q : forall src src' l c c', 
  BF_decode (3 * q + 1) (3 * q + 1) src = Some l -> (forall i, (i < 4 * q + 1)%nat -> at_ src' i = at_ src i) ->
  BF_safe_atoi64 (at_ src (4 * q + 1)) = Some c -> BF_safe_atoi64 (at_ src' (4 * q + 1)) = Some c' -> c / 16 = c' / 16 ->
  BF_decode (3 * q + 1) (3 * q + 1) src' = Some l.
Proof.
  assert (forall fuel fuel' size src, (size <= fuel)%nat -> (size <= fuel')%nat -> (0 < size)%nat ->
    BF_decode fuel size src = BF_decode fuel' size src) as Hfuel.
  { induction fuel as [|fuel IH]; intros [|fuel'] size src H1 H2 H3; try lia. cbn [BF_decode].
    destruct (BF_safe_atoi64 (at_ src 0)); [|done]. destruct (BF_safe_atoi64 (at_ src 1)); [|done]. cbn [mbind option_bind].
    destruct (Nat.leb_spec size 1); [done|]. destruct (BF_safe_atoi64 (at_ src 2)); [|done]. cbn [mbind option_bind].
    destruct (Nat.leb_spec size 2); [done|]. destruct (BF_safe_atoi64 (at_ src 3)); [|done]. cbn [mbind option_bind].
    destruct (Nat.leb_spec size 3); [done|]. rewrite (IH fuel' (size - 3)%nat) by lia. done. }
  induction q as [|q IH]; intros src src' l c c' H Hsame Hc Hc' Heq.
  - simpl in Hc, Hc'. cbn [Nat.mul Nat.add BF_decode Nat.leb] in H |- *. rewrite (Hsame 0%nat) by lia. rewrite Hc in H. rewrite Hc'.
    destruct (BF_safe_atoi64 (at_ src 0)) as [c1|] eqn:E1; [|done]. cbn [mbind option_bind] in H |- *. rewrite <- H.
    apply atoi_range in E1, Hc, Hc'. by rewrite !dec1, Heq by tauto.
  - replace (3 * S q + 1)%nat with (S (3 * q + 3)) in H |- * by lia. cbn [BF_decode] in H |- *.
    rewrite !Hsame by lia. destruct (BF_safe_atoi64 (at_ src 0)); [|done]. destruct (BF_safe_atoi64 (at_ src 1)); [|done].
    cbn [mbind option_bind] in H |- *. destruct (Nat.leb_spec (S (3 * q + 3)) 1); [lia|].
    destruct (BF_safe_atoi64 (at_ src 2)); [|done]. cbn [mbind option_bind] in H |- *.
    destruct (Nat.leb_spec (S (3 * q + 3)) 2); [lia|]. destruct (BF_safe_atoi64 (at_ src 3)); [|done]. cbn [mbind option_bind] in H |- *.
    destruct (Nat.leb_spec (S (3 * q + 3)) 3); [lia|].
    replace (S (3 * q + 3) - 3)%nat with (3 * q + 1)%nat in H |- * by lia.
    rewrite (Hfuel _ (3 * q + 1)%nat) in H by lia. rewrite (Hfuel _ (3 * q + 1)%nat) by lia.
    destruct (BF_decode (3 * q + 1) (3 * q + 1) (drop 4 src)) as [k|] eqn:E; [|done]. cbn [mbind option_bind] in H.
    erewrite (IH _ (drop 4 src') k c c'); [exact H|exact E| | | |exact Heq].
    + intros i Hi. rewrite !at_drop. apply Hsame. lia.
    + rewrite at_drop. by replace (4 + (4 * q + 1))%nat with (4 * S q + 1)%nat by lia.
    + rewrite at_drop. by replace (4 + (4 * q + 1))%nat with (4 * S q + 1)%nat by lia.
Qed.

(** All characters read by a successful decoding are digits. *)
Lemma decode_digit q : forall src l, BF_decode (3 * q + 1) (3 * q + 1) src = Some l ->
  is_Some (BF_safe_atoi64 (at_ src (4 * q + 1))).
Proof.
  assert (forall q fuel src l, BF_decode fuel (3 * q + 1) src = Some l -> is_Some (BF_safe_atoi64 (at_ src (4 * q + 1)))) as H;
    [|intros src l; apply H].
  clear q. induction q as [|q IH]; intros [|fuel] src l H; try done; cbn [BF_decode] in H.
  - simpl. destruct (BF_safe_atoi64 (at_ src 0)); [|done]. cbn [mbind option_bind] in H. by destruct (BF_safe_atoi64 (at_ src 1)).
  - destruct (BF_safe_atoi64 (at_ src 0)); [|done]. destruct (BF_safe_atoi64 (at_ src 1)); [|done].
    cbn [mbind option_bind] in H. destruct (Nat.leb_spec (3 * S q + 1) 1); [lia|].
    destruct (BF_safe_atoi64 (at_ src 2)); [|done]. cbn [mbind option_bind] in H.
    destruct (Nat.leb_spec (3 * S q + 1) 2); [lia|]. destruct (BF_safe_atoi64 (at_ src 3)); [|done]. cbn [mbind option_bind] in H.
    destruct (Nat.leb_spec (3 * S q + 1) 3); [lia|].
    replace (3 * S q + 1 - 3)%nat with (3 * q + 1)%nat in H by lia.
    destruct (BF_decode fuel (3 * q + 1) (drop 4 src)) as [k|] eqn:E; [|done]. apply IH in E. rewrite at_drop in E.
    by replace (4 * S q + 1)%nat with (4 + (4 * q + 1))%nat by lia.
Qed.

Lemma encode_length n : forall l fuel, length l = n -> (0 < n)%nat -> (n <= fuel)%nat ->
  length (BF_encode fuel l) = ((4 * n + 2) / 3)%nat.
Proof.
  induction n as [n IH] using lt_wf_ind. intros l [|fuel] Hl Hn Hf; [lia|]. cbn [BF_encode]. rewrite Hl.
  destruct (Nat.leb_spec n 1); [|destruct (Nat.leb_spec n 2); [|destruct (Nat.leb_spec n 3)]].
  - by replace n with 1%nat by lia.
  - by replace n with 2%nat by lia.
  - by replace n with 3%nat by lia.
  - cbn [length]. rewrite (IH (n - 3)%nat) by (rewrite ?length_drop; lia).
    replace (4 * n + 2)%nat with (4 * (n - 3) + 2 + 4 * 3)%nat by lia. rewrite Nat.div_add by lia. lia.
Qed.

(** ** bcrypt *)

(** The key words of the first expansion and of the others, by the letter of
    the setting: "$2b$" and "$2y$" are the correct algorithm, "$2x$" the one
    with sign extension, and "$2a$" the correct one moved away from a key it
    would share with a wrong one. *)
Definition subtype_keys (c : Z) (key : list Z) : option (list Z * list Z) :=
  let ks := key_words key in
  if (c =? 98) || (c =? 121) then Some (ks, ks)
  else if c =? 120 then Some (sign_words key, sign_words key)
  else if c =? 97 then Some (if collides key then <[0%nat := Z.lxor (at_ ks 0) 0x10000]> ks else ks, ks)
  else None.

Definition digit (lo hi c : Z) : option Z := if (lo <=? c) && (c <=? hi) then Some (c - lo) else None.
Definition expect (x c : Z) : option unit := if c =? x then Some tt else None.

(** ['0'] in the low four bits of the last character of the salt. *)
Definition salt_text (setting : list Z) : list Z :=
  take 28 setting ++ [itoa (16 * (at_ BF_atoi64 (Z.to_nat (at_ setting 28 - 0x20)) / 16))].

Definition bcrypt_text (key setting : list Z) (min : Z) : option (list Z) :=
  expect 36 (at_ setting 0);; expect 50 (at_ setting 1);;
  '(ks0, ks) ← subtype_keys (at_ setting 2) key;
  expect 36 (at_ setting 3);;
  d1 ← digit 48 49 (at_ setting 4);
  d2 ← digit 48 57 (at_ setting 5);
  expect 36 (at_ setting 6);;
  let turns := 2 ^ (10 * d1 + d2) in
  if turns <? min then None else
  salt ← BF_decode 16 16 (drop 7 setting);
  let s := Spec.eks_setup (Z.to_nat turns) (be_words4 salt) ks0 ks in
  Some (salt_text setting ++ BF_encode 23 (take 23 (concat ((fun LR => be_bytes LR.1 ++ be_bytes LR.2) <$> Spec.ctext s)))).

Lemma beyond_byte c base n : is_byte c -> 0 <= base -> 0 <= n -> base + n < 256 ->
  beyond c base n = negb ((base <=? c) && (c <=? base + n)).
Proof.
  unfold in_range, beyond, wrap. change (2 ^ 8) with 256. intros Hc Hb Hn Hs. destruct (Z.leb_spec base c) as [H|H].
  - rewrite Z.mod_small by lia. destruct (Z.ltb_spec n (c - base)), (Z.leb_spec c (base + n)); (done || lia).
  - rewrite <- (Z.mod_unique_pos (c - base) (2 ^ 32) (-1) (2 ^ 32 + (c - base))) by lia.
    destruct (Z.ltb_spec n (2 ^ 32 + (c - base))); (done || lia).
Qed.

(** The flags of a letter: zero unless it is one of the four. *)
Lemma flags_cases c : 97 <= c <= 122 ->
  let f := at_ flags_by_subtype (Z.to_nat (c - 97)) in
  f = (if c =? 97 then 2 else if c =? 98 then 4 else if c =? 120 then 1 else if c =? 121 then 4 else 0).
Proof.
  intros Hc. assert (forallb (fun n => at_ flags_by_subtype n =? (let c := Z.of_nat n + 97 in
    if c =? 97 then 2 else if c =? 98 then 4 else if c =? 120 then 1 else if c =? 121 then 4 else 0)) (seq 0 26) = true) as H
    by (vm_compute; reflexivity).
  rewrite forallb_forall in H. specialize (H (Z.to_nat (c - 97)) ltac:(apply in_seq; lia)). apply Z.eqb_eq in H.
  cbv zeta in H |- *. by replace (Z.of_nat (Z.to_nat (c - 97)) + 97) with c in H by lia.
Qed.

Lemma key_words_shape key : is_ckey key -> length (key_words key) = 18%nat /\ Forall (in_range 32) (key_words key) /\
  length (sign_words key) = 18%nat /\ Forall (in_range 32) (sign_words key).
Proof.
  intros Hk. split_and!; try (apply length_fmap); apply Forall_fmap, Forall_true; intros i; [by apply key_word_range|by apply sign_word_range].
Qed.

(** [BF_set_key] leaves the keys of the letter, the first one mixed with pi. *)
Lemma set_key_subtype key c : is_ckey key -> 97 <= c <= 122 ->
  let f := at_ flags_by_subtype (Z.to_nat (c - 97)) in
  match subtype_keys c key with
  | Some (ks0, ks) => truth f = true /\ BF_set_key key f = (ks, zip_with Z.lxor BF_init_P ks0) /\
      length ks0 = 18%nat /\ Forall (in_range 32) ks0 /\ Forall (in_range 32) ks
  | None => truth f = false
  end.
Proof.
  intros Hk Hc f. destruct (key_words_shape key Hk) as (L1 & R1 & L2 & R2). unfold f. clear f. rewrite flags_cases by done.
  assert (forall ks, length ks = 18%nat -> <[0%nat := Z.lxor (at_ (zip_with Z.lxor BF_init_P ks) 0) 0]> (zip_with Z.lxor BF_init_P ks) = zip_with Z.lxor BF_init_P ks) as Hid.
  { intros ks Hl. rewrite Z.lxor_0_r. apply list_insert_id. unfold at_. rewrite nth_lookup.
    destruct (lookup_lt_is_Some_2 (zip_with Z.lxor BF_init_P ks) 0) as [x Hx]; [rewrite length_zip_with, Hl; simpl; lia|by rewrite Hx]. }
  unfold subtype_keys.
  destruct (Z.eqb_spec c 97) as [->|]; [|destruct (Z.eqb_spec c 98) as [->|]; [|destruct (Z.eqb_spec c 120) as [->|]; [|destruct (Z.eqb_spec c 121) as [->|]; [|done]]]].
  - cbn [Z.eqb orb]. rewrite (set_key_ok key Hk 2) by auto. cbn [Z.eqb andb Pos.eqb]. destruct (collides key).
    + split_and!; [done| |by rewrite length_insert| |done].
      * f_equal. destruct (key_words key) as [|k ks] eqn:E; [done|]. change BF_init_P with (0x243f6a88 :: tl BF_init_P).
        cbn [zip_with at_ nth insert list_insert]. by rewrite Z.lxor_assoc.
      * apply Forall_insert; [done|]. apply lxor_range; [lia|by apply at_range|split; lia].
    + split_and!; [done|by rewrite Hid|done|done|done].
  - cbn [Z.eqb orb Pos.eqb]. rewrite (set_key_ok key Hk 4) by auto. cbn [Z.eqb andb Pos.eqb]. split_and!; [done|by rewrite Hid|done|done|done].
  - cbn [Z.eqb orb Pos.eqb]. rewrite (set_key_ok key Hk 1) by auto. cbn [Z.eqb andb Pos.eqb]. split_and!; [done|by rewrite Hid|done|done|done].
  - cbn [Z.eqb orb Pos.eqb]. rewrite (set_key_ok key Hk 4) by auto. cbn [Z.eqb andb Pos.eqb]. split_and!; [done|by rewrite Hid|done|done|done].
Qed.

Lemma iter_encrypt ctx s n LR : holds_state ctx s -> in_range 32 LR.1 -> in_range 32 LR.2 ->
  let LR' := Nat.iter n (Spec.encrypt s) LR in
  Nat.iter n (fun '(L, R) => BF_block ctx L R) LR = LR' /\ in_range 32 LR'.1 /\ in_range 32 LR'.2.
Proof.
  intros H H1 H2. induction n as [|n (IH1 & IH2 & IH3)]; [done|]. cbv zeta in *. rewrite !Nat.iter_succ, IH1.
  destruct (Nat.iter n (Spec.encrypt s) LR) as [L R]. simpl in IH2, IH3.
  destruct (block_ok ctx s H L R IH2 IH3) as (E & E1 & E2). rewrite <- E. done.
Qed.

Lemma magic_words : Spec.magic = [(0x4F727068, 0x65616E42); (0x65686F6C, 0x64657253); (0x63727944, 0x6F756274)].
Proof. vm_compute. reflexivity. Qed.

(** The text encrypted, as bytes. *)
Lemma magic_ok ctx s : holds_state ctx s ->
  bytes_of (BF_swap (magic_blocks ctx)) = concat ((fun LR => be_bytes LR.1 ++ be_bytes LR.2) <$> Spec.ctext s).
Proof.
  intros H. unfold Spec.ctext. rewrite magic_words. cbn [fmap list_fmap concat].
  destruct (iter_encrypt ctx s 64 (0x4F727068, 0x65616E42) H) as (E1 & A1 & B1); [split; done..|].
  destruct (iter_encrypt ctx s 64 (0x65686F6C, 0x64657253) H) as (E2 & A2 & B2); [split; done..|].
  destruct (iter_encrypt ctx s 64 (0x63727944, 0x6F756274) H) as (E3 & A3 & B3); [split; done..|].
  cbv zeta in *. unfold magic_blocks, encrypt64. cbn [foldr at_ nth BF_magic_w Nat.add].
  rewrite E1, E2, E3. destruct (Nat.iter 64 (Spec.encrypt s) (0x4F727068, _)) as [a b].
  destruct (Nat.iter 64 (Spec.encrypt s) (0x65686F6C, _)) as [c d]. destruct (Nat.iter 64 (Spec.encrypt s) (0x63727944, _)) as [e f].
  rewrite bytes_of_swap by (each done). cbn [fmap list_fmap concat fst snd]. by rewrite <- !app_assoc.
Qed.

Lemma at_byte_setting setting i : Forall is_byte setting -> is_byte (at_ setting i).
Proof.
  intros H. unfold at_. destruct (nth_in_or_default i setting 0) as [Hin| ->]; [|split; lia].
  rewrite List.Forall_forall in H. exact (H _ Hin).
Qed.

(** The normalised last character of the salt. *)
Lemma salt_char setting l : Forall is_byte setting -> BF_decode 16 16 (drop 7 setting) = Some l ->
  exists v, BF_safe_atoi64 (at_ setting 28) = Some v /\ 0 <= v < 64 /\ at_ BF_atoi64 (Z.to_nat (at_ setting 28 - 0x20)) = v.
Proof.
  intros Hb H. destruct (decode_digit 5 _ _ H) as [v Hv]. rewrite at_drop in Hv. exists v. split; [exact Hv|].
  destruct (atoi_range _ _ Hv) as [H1 H2]. split; [done|]. symmetry. apply H2. by apply at_byte_setting.
Qed.

Lemma land_0x30 v : 0 <= v < 64 -> Z.land v 0x30 = 16 * (v / 16).
Proof.
  intros Hv. assert (forallb (fun n => Z.land (Z.of_nat n) 0x30 =? 16 * (Z.of_nat n / 16)) (seq 0 64) = true) as H by (vm_compute; reflexivity).
  rewrite forallb_forall in H. specialize (H (Z.to_nat v) ltac:(apply in_seq; lia)). apply Z.eqb_eq in H.
  by rewrite Z2Nat.id in H by lia.
Qed.

(** What [BF_crypt] does once the setting is accepted is the key schedule and
    the encryption of the specification. *)
Lemma schedule_ok salt ks0 ks turns : length salt = 4%nat -> Forall (in_range 32) salt ->
  length ks0 = 18%nat -> Forall (in_range 32) ks0 -> Forall (in_range 32) ks ->
  let ctx := store_words (store_words ∅ 0 (zip_with Z.lxor BF_init_P ks0)) 18 BF_init_S in
  holds_state (Nat.iter turns (expensive_round ks salt) (salted_pass PASS salt false ctx 0 0 0))
    (Spec.eks_setup turns salt ks0 ks).
Proof.
  intros Hl Hs Hl0 Hk0 Hk. cbv zeta. unfold Spec.eks_setup. apply expensive_ok; [|done..].
  destruct places_aligned as [Ha HL]. unfold Spec.expand_key.
  apply (salted_pass_ok salt Spec.places Hs false); [by apply initial_ok|apply in_range_0|apply in_range_0|exact Ha|apply places_ne|rewrite HL; done].
Qed.

(** A guard that failed in one of the two computations failed in the other. *)
Lemma bcrypt_ok key setting min : is_ckey key -> Forall is_byte setting -> BF_crypt key setting min = bcrypt_text key setting min.
Proof.
  intros Hk Hb. pose proof (fun i => at_byte_setting setting i Hb) as Hs. unfold BF_crypt, bcrypt_text, expect.
  rewrite !beyond_byte by (apply Hs || lia).
  destruct (at_ setting 0 =? 36); [|done]. destruct (at_ setting 1 =? 50); [|done]. cbn [negb orb mbind option_bind].
  destruct ((97 <=? at_ setting 2) && (at_ setting 2 <=? 97 + 25)) eqn:Ec.
  2: { cbn [negb orb]. unfold subtype_keys. apply andb_false_iff in Ec.
       destruct (Z.eqb_spec (at_ setting 2) 98), (Z.eqb_spec (at_ setting 2) 121), (Z.eqb_spec (at_ setting 2) 120), (Z.eqb_spec (at_ setting 2) 97);
         try done; lia. }
  apply andb_true_iff in Ec as [Ec1 Ec2]. apply Z.leb_le in Ec1, Ec2.
  pose proof (set_key_subtype key (at_ setting 2) Hk ltac:(lia)) as Hsub. cbv zeta in Hsub.
  destruct (subtype_keys (at_ setting 2) key) as [[ks0 ks]|]; [|by rewrite Hsub].
  destruct Hsub as (Hf & Hset & Hl0 & Hk0 & Hks). rewrite Hf, Hset. cbn [negb orb mbind option_bind].
  destruct (at_ setting 3 =? 36); [|done]. cbn [negb orb mbind option_bind]. unfold digit.
  change (48 + 1) with 49. change (48 + 9) with 57.
  destruct ((48 <=? at_ setting 4) && (at_ setting 4 <=? 49)) eqn:E4; [|done]. cbn [negb orb mbind option_bind].
  destruct ((48 <=? at_ setting 5) && (at_ setting 5 <=? 57)) eqn:E5; [|done]. cbn [negb orb mbind option_bind].
  apply andb_true_iff in E4 as [E4 E4'], E5 as [E5 E5']. apply Z.leb_le in E4, E4', E5, E5'.
  destruct (at_ setting 6 =? 36); [|done]. cbn [negb orb mbind option_bind].
  assert (wrap32 (Z.shiftl 1 ((at_ setting 4 - 48) * 10 + (at_ setting 5 - 48))) = 2 ^ (10 * (at_ setting 4 - 48) + (at_ setting 5 - 48))) as ->.
  { rewrite Z.shiftl_1_l, Z.mul_comm. apply wrap_small. split; [apply Z.pow_nonneg; lia|apply Z.pow_lt_mono_r; lia]. }
  destruct (_ <? min); [done|]. destruct (BF_decode 16 16 (drop 7 setting)) as [l|] eqn:E; [|done]. cbn [mbind option_bind].
  destruct (decode_shape _ _ _ _ E ltac:(lia)) as [Hl Hlb]. destruct (swap_words_of l Hl Hlb) as [-> Hsalt].
  destruct (salt_char setting l Hb E) as (v & _ & Hv & Ev).
  pose proof (schedule_ok (be_words4 l) ks0 ks (Z.to_nat (2 ^ (10 * (at_ setting 4 - 48) + (at_ setting 5 - 48)))) eq_refl Hsalt Hl0 Hk0 Hks) as Hst.
  cbv zeta in Hst. rewrite (magic_ok _ _ Hst). unfold salt_text. change (7 + 22 - 1)%nat with 28%nat. rewrite Ev.
  rewrite land_0x30, <- app_assoc by done. reflexivity.
Qed.

(** ** A hash is a setting for itself *)

Lemma itoa_byte v : is_byte (itoa v).
Proof.
  unfold itoa, at_. destruct (nth_in_or_default (Z.to_nat v) BF_itoa64 0) as [Hin| ->]; [|split; lia].
  assert (forallb (fun c => (0 <=? c) && (c <? 2 ^ 8)) BF_itoa64 = true) as H by (vm_compute; reflexivity).
  rewrite forallb_forall in H. specialize (H _ Hin). apply andb_true_iff in H. unfold in_range. lia.
Qed.

Lemma bf_encode_bytes fuel : forall l, Forall is_byte (BF_encode fuel l).
Proof.
  induction fuel as [|fuel IH]; intros l; [apply List.Forall_nil|]. cbn [BF_encode].
  repeat case_match; repeat (apply List.Forall_cons; [apply itoa_byte|]); first [apply List.Forall_nil|apply IH].
Qed.

Lemma at_app_r l l' i : (length l <= i)%nat -> at_ (l ++ l') i = at_ l' (i - length l).
Proof. intros. by apply app_nth2. Qed.

Lemma at_overflow l i : (length l <= i)%nat -> at_ l i = 0.
Proof. apply nth_overflow. Qed.

Lemma atoi_itoa_high v : 0 <= v < 64 -> BF_safe_atoi64 (itoa (16 * (v / 16))) = Some (16 * (v / 16)).
Proof. intros Hv. apply atoi_itoa. Z.to_euclidean_division_equations; lia. Qed.

(** What has the text of an accepted setting is accepted, and stands for the
    same hash. *)
Lemma salt_text_ok setting l tail : Forall is_byte setting -> BF_decode 16 16 (drop 7 setting) = Some l ->
  let out := salt_text setting ++ tail in
  length (salt_text setting) = 29%nat /\ (forall i, (i < 28)%nat -> at_ out i = at_ setting i) /\
  BF_decode 16 16 (drop 7 out) = Some l /\ salt_text out = salt_text setting /\ Forall is_byte (salt_text setting).
Proof.
  intros Hb Hd out. destruct (salt_char setting l Hb Hd) as (v & Hv & Hr & Ev).
  assert (29 <= length setting)%nat as Hlen.
  { destruct (decide (29 <= length setting)%nat); [done|exfalso]. rewrite at_overflow in Hv by lia. done. }
  assert (length (take 28 setting) = 28%nat) as Ht by (rewrite length_take; lia).
  assert (length (salt_text setting) = 29%nat) as Hst by (unfold salt_text; rewrite length_app, Ht; done).
  assert (forall i, (i < 28)%nat -> at_ out i = at_ setting i) as Hsame.
  { intros i Hi. unfold out. rewrite at_app_l by lia. unfold salt_text. rewrite at_app_l by lia. by apply at_take. }
  assert (at_ out 28 = itoa (16 * (v / 16))) as Hlast.
  { unfold out. rewrite at_app_l by lia. unfold salt_text. rewrite at_app_r, Ht, Ev by lia. done. }
  split_and!; [done|done| | |].
  - apply (decode_last 5 (drop 7 setting) (drop 7 out) l v (16 * (v / 16)) Hd).
    + intros i Hi. rewrite !at_drop. apply Hsame. lia.
    + rewrite at_drop. exact Hv.
    + rewrite at_drop. change (7 + (4 * 5 + 1))%nat with 28%nat. rewrite Hlast. by apply atoi_itoa_high.
    + Z.to_euclidean_division_equations; lia.
  - unfold salt_text. rewrite Hlast, Ev. f_equal.
    + unfold out, salt_text. rewrite take_app_le by (rewrite length_app; lia). rewrite take_app_le by lia. by rewrite take_take.
    + f_equal. f_equal. pose proof (atoi_itoa_high v Hr) as Ha. destruct (atoi_range _ _ Ha) as [_ Hi].
      rewrite <- (Hi (itoa_byte _)). Z.to_euclidean_division_equations; lia.
  - unfold salt_text. apply Forall_app. split; [by apply Forall_take|]. each ltac:(apply itoa_byte).
Qed.

Lemma bcrypt_again key setting min out : is_ckey key -> Forall is_byte setting -> BF_crypt key setting min = Some out ->
  BF_crypt key out min = Some out /\ length out = 60%nat /\ Forall is_byte out /\
  forall i, (i < 28)%nat -> at_ out i = at_ setting i.
Proof.
  intros Hk Hb H. rewrite bcrypt_ok in H by done. unfold bcrypt_text in H.
  destruct (expect 36 (at_ setting 0)) eqn:E0; [|done]. destruct (expect 50 (at_ setting 1)) eqn:E1; [|done]. cbn [mbind option_bind] in H.
  destruct (subtype_keys (at_ setting 2) key) as [[ks0 ks]|] eqn:E2; [|done]. destruct (expect 36 (at_ setting 3)) eqn:E3; [|done].
  cbn [mbind option_bind] in H. destruct (digit 48 49 (at_ setting 4)) as [d1|] eqn:E4; [|done]. cbn [mbind option_bind] in H.
  destruct (digit 48 57 (at_ setting 5)) as [d2|] eqn:E5; [|done]. cbn [mbind option_bind] in H.
  destruct (expect 36 (at_ setting 6)) eqn:E6; [|done]. cbn [mbind option_bind] in H. cbv zeta in H.
  destruct (2 ^ (10 * d1 + d2) <? min) eqn:E7; [done|]. destruct (BF_decode 16 16 (drop 7 setting)) as [l|] eqn:E8; [|done].
  cbn [mbind option_bind] in H. set (tail := BF_encode 23 _) in H. injection H as <-.
  destruct (salt_text_ok setting l tail Hb E8) as (Hlen & Hsame & Hd & Hst & Hbt).
  assert (Forall is_byte (salt_text setting ++ tail)) as Hob by (apply Forall_app; split; [done|apply bf_encode_bytes]).
  split_and!; [|rewrite length_app, Hlen| |]; [| |done|done].
  - rewrite bcrypt_ok by done. unfold bcrypt_text. rewrite !Hsame by lia. rewrite E0, E1, E2, E3, E4, E5, E6. cbn [mbind option_bind].
    cbv zeta. rewrite E7, Hd, Hst. cbn [mbind option_bind]. done.
  - unfold tail. rewrite (encode_length 23); [done| |lia|done]. rewrite length_take. unfold Spec.ctext. rewrite magic_words. cbn [fmap list_fmap concat].
    rewrite !length_app. unfold be_bytes. rewrite !length_rev, !length_le_split. done.
Qed.

(** Without high bits there is no sign extension. *)
Section seven.
Context (key : list Z) (Hk : is_ckey key) (H7 : Forall (fun c => c < 128) key).

Lemma seven_char n : 0 <= key_char key n < 128.
Proof.
  unfold key_char, at_. destruct (nth_in_or_default (n mod S (length key)) key 0) as [Hin| ->]; [|lia].
  unfold is_ckey in Hk. rewrite List.Forall_forall in Hk, H7. specialize (Hk _ Hin). specialize (H7 _ Hin). lia.
Qed.

Lemma seven_extends : extends key = false.
Proof.
  unfold extends. apply not_true_is_false. intros (i & _ & Hi)%existsb_exists. apply existsb_exists in Hi as (j & _ & Hj).
  pose proof (seven_char (4 * i + j)). apply Z.leb_le in Hj. lia.
Qed.

Lemma seven_words : sign_words key = key_words key.
Proof.
  unfold sign_words, key_words. apply list_fmap_ext. intros _ i _. unfold sign_word, key_word. cbn [seq foldl]. rewrite Nat.add_0_r.
  assert (forall n, wrap32 (swrap 8 (key_char key n)) = key_char key n) as Hs.
  { intros n. pose proof (seven_char n). rewrite swrap_small by lia. apply wrap_small. unfold in_range. lia. }
  pose proof (seven_char (4 * i)). pose proof (seven_char (4 * i + 1)). pose proof (seven_char (4 * i + 2)). pose proof (seven_char (4 * i + 3)).
  rewrite !Hs. change (Z.lor (wrap32 (0 * 2 ^ 8)) (key_char key (4 * i))) with (key_char key (4 * i)).
  assert (forall w n, 0 <= w < 2 ^ 24 -> Z.lor (wrap32 (w * 2 ^ 8)) (key_char key n) = 2 ^ 8 * w + key_char key n) as Hl.
  { intros w n Hw. rewrite <- Z.shiftl_mul_pow2 by lia. apply lor_shift8; [done|]. pose proof (seven_char n). unfold in_range. lia. }
  rewrite (Hl (key_char key (4 * i))) by lia. rewrite (Hl (2 ^ 8 * key_char key (4 * i) + key_char key (4 * i + 1))) by lia.
  rewrite Hl by lia. lia.
Qed.
End seven.

(** ** The code's tables and radix 64 in the words of the specification *)

Lemma itoa_char v : 0 <= v < 64 -> itoa v = Spec.char64 v.
Proof.
  intros Hv. assert (forallb (fun v => itoa v =? Spec.char64 v) (seqZ 0 64) = true) as H by (vm_compute; reflexivity).
  rewrite forallb_forall in H. apply Z.eqb_eq, H, list_elem_of_In, elem_of_seqZ. lia.
Qed.
Lemma atoi_value c : is_byte c -> BF_safe_atoi64 c = Spec.value64 c.
Proof.
  unfold in_range. intros Hc. assert (forallb (fun c => bool_decide (BF_safe_atoi64 c = Spec.value64 c)) (seqZ 0 256) = true) as H by (vm_compute; reflexivity).
  rewrite forallb_forall in H. apply (bool_decide_eq_true _), H, list_elem_of_In, elem_of_seqZ. lia.
Qed.

Ltac same_chars := repeat (refine (f_equal2 cons (f_equal Spec.char64 _) _); [Z.to_euclidean_division_equations; lia|]); reflexivity.
Ltac same_bytes := repeat (refine (f_equal2 cons _ _); [Z.to_euclidean_division_equations; lia|]); reflexivity.

Lemma encode_text n : forall l fuel, length l = n -> (0 < n <= fuel)%nat -> Forall is_byte l -> BF_encode fuel l = Spec.char64 <$> Spec.encode64 l.
Proof.
  induction n as [n IH] using lt_wf_ind. intros l [|fuel] Hl Hn Hb; [lia|]. destruct l as [|x l]; [simpl in Hl; lia|].
  apply List.Forall_cons_iff in Hb as [Hx Hb]. unfold in_range in Hx. change (2 ^ 8) with 256 in Hx.
  cbn [BF_encode]. change (at_ (x :: l) 0) with x. change 0x03 with (Z.ones 2). rewrite enc_high, Z.shiftr_div_pow2 by (done || lia).
  change (2 ^ 2) with 4. change (2 ^ 4) with 16.
  destruct l as [|y l].
  { cbn [length Nat.leb Spec.encode64 fmap list_fmap]. rewrite !itoa_char by (Z.to_euclidean_division_equations; lia). same_chars. }
  apply List.Forall_cons_iff in Hb as [Hy Hb]. unfold in_range in Hy. change (2 ^ 8) with 256 in Hy.
  change (at_ (x :: y :: l) 1) with y. rewrite (Z.shiftr_div_pow2 y) by lia. change 0x0f with (Z.ones 4). change (2 ^ 4) with 16.
  pose proof (lor_mul 4 (x mod 4) (y / 16)) as E. change (2 ^ 4) with 16 in E.
  rewrite E by (Z.to_euclidean_division_equations; lia). clear E.
  rewrite enc_high by (done || lia). change (2 ^ 4) with 16. change (2 ^ 2) with 4.
  destruct l as [|z l].
  { cbn [length Nat.leb Spec.encode64 fmap list_fmap]. rewrite !itoa_char by (Z.to_euclidean_division_equations; lia). same_chars. }
  apply List.Forall_cons_iff in Hb as [Hz Hb]. unfold in_range in Hz. change (2 ^ 8) with 256 in Hz.
  change (at_ (x :: y :: z :: l) 2) with z. rewrite (Z.shiftr_div_pow2 z) by lia. change 0x3f with (Z.ones 6). rewrite Z.land_ones by lia.
  change (2 ^ 6) with 64. pose proof (lor_mul 2 (y mod 16) (z / 64)) as E. change (2 ^ 2) with 4 in E.
  rewrite E by (Z.to_euclidean_division_equations; lia). clear E. rewrite !itoa_char by (Z.to_euclidean_division_equations; lia).
  assert (forall d1 d2 d3 d4, (if (length (x :: y :: z :: l) <=? 3)%nat then [d1; d2; d3; d4] else d1 :: d2 :: d3 :: d4 :: BF_encode fuel (drop 3 (x :: y :: z :: l))) =
    [d1; d2; d3; d4] ++ (Spec.char64 <$> Spec.encode64 l)) as Hrest.
  { intros. destruct l as [|u l]; [done|]. cbn [drop]. rewrite (IH (n - 3)%nat); [done|simpl in Hl; lia|simpl in *; lia|simpl in *; lia|done]. }
  cbn [length Nat.leb] in Hrest |- *. rewrite Hrest. cbn [Spec.encode64]. cbv zeta. rewrite fmap_app. f_equal. cbn [fmap list_fmap]. same_chars.
Qed.

Lemma value64_range c v : Spec.value64 c = Some v -> 0 <= v < 64.
Proof. unfold Spec.value64. repeat (case_match; try done); intros [= <-]; repeat match goal with H : _ && _ = true |- _ => apply andb_true_iff in H as [? ?] end; lia. Qed.

Lemma decode_text q : forall fuel src, (3 * q + 1 <= fuel)%nat -> Forall is_byte src ->
  BF_decode fuel (3 * q + 1) src = vs ← Spec.values64 (4 * q + 2) src; Some (Spec.decode64 vs).
Proof.
  assert (forall src i, Forall is_byte src -> BF_safe_atoi64 (at_ src i) = match src !! i with Some c => Spec.value64 c | None => None end) as Hat.
  { intros src i Hb. unfold at_. rewrite nth_lookup. destruct (src !! i) as [c|] eqn:E; [|done]. apply atoi_value. exact (Forall_lookup_1 _ _ _ _ Hb E). }
  induction q as [|q IH]; intros [|fuel] src Hf Hb; try lia; cbn [BF_decode]; rewrite !Hat by done.
  - change (4 * 0 + 2)%nat with 2%nat. cbn [Nat.mul Nat.add Nat.leb]. destruct src as [|c1 src]; [done|]. cbn [lookup list_lookup Spec.values64].
    destruct (Spec.value64 c1) as [a|] eqn:E1; [|done]. cbn [mbind option_bind]. destruct src as [|c2 src]; [done|]. cbn [lookup list_lookup Spec.values64].
    destruct (Spec.value64 c2) as [b|] eqn:E2; [|done]. cbn [mbind option_bind Spec.decode64]. apply value64_range in E1, E2.
    rewrite dec1 by done. f_equal. same_bytes.
  - replace (4 * S q + 2)%nat with (S (S (S (S (4 * q + 2))))) by lia.
    destruct src as [|c1 src]; [done|]. cbn [lookup list_lookup Spec.values64 drop].
    destruct (Spec.value64 c1) as [a|] eqn:E1; [|done]. cbn [mbind option_bind]. destruct src as [|c2 src]; [done|]. cbn [lookup list_lookup Spec.values64].
    destruct (Spec.value64 c2) as [b|] eqn:E2; [|done]. cbn [mbind option_bind]. destruct (Nat.leb_spec (3 * S q + 1) 1); [lia|].
    destruct src as [|c3 src]; [done|]. cbn [lookup list_lookup Spec.values64]. destruct (Spec.value64 c3) as [c|] eqn:E3; [|done]. cbn [mbind option_bind].
    destruct (Nat.leb_spec (3 * S q + 1) 2); [lia|]. destruct src as [|c4 src]; [done|]. cbn [lookup list_lookup Spec.values64].
    destruct (Spec.value64 c4) as [d|] eqn:E4; [|done]. cbn [mbind option_bind]. destruct (Nat.leb_spec (3 * S q + 1) 3); [lia|].
    replace (3 * S q + 1 - 3)%nat with (3 * q + 1)%nat by lia. cbn [drop]. rewrite drop_0, IH; [|lia|by do 4 (apply Forall_inv_tail in Hb)].
    destruct (Spec.values64 (4 * q + 2) src) as [vs|]; [|done]. cbn [mbind option_bind Spec.decode64]. apply value64_range in E1, E2, E3, E4.
    rewrite dec1, dec2, dec3 by done. cbv zeta. cbn [app]. f_equal. same_bytes.
Qed.

(** ** bcrypt, in the words of the specification *)

Definition bcrypt_spec (key setting : list Z) (min : Z) : option (list Z) :=
  expect 36 (at_ setting 0);; expect 50 (at_ setting 1);;
  '(ks0, ks) ← subtype_keys (at_ setting 2) key;
  expect 36 (at_ setting 3);;
  d1 ← digit 48 49 (at_ setting 4);
  d2 ← digit 48 57 (at_ setting 5);
  expect 36 (at_ setting 6);;
  let turns := 2 ^ (10 * d1 + d2) in
  if turns <? min then None else
  vs ← Spec.values64 22 (drop 7 setting);
  let s := Spec.eks_setup (Z.to_nat turns) (be_words4 (Spec.decode64 vs)) ks0 ks in
  Some (take 28 setting ++ [Spec.char64 (16 * (at_ vs 21 / 16))] ++
        (Spec.char64 <$> Spec.encode64 (take 23 (concat ((fun LR => be_bytes LR.1 ++ be_bytes LR.2) <$> Spec.ctext s))))).

Lemma values64_lookup n : forall text vs i c, Spec.values64 n text = Some vs -> (i < n)%nat -> text !! i = Some c -> Spec.value64 c = Some (at_ vs i).
Proof.
  induction n as [|n IH]; intros [|c0 text] vs i c H Hi Hc; try lia; cbn [Spec.values64] in H; [done|].
  apply bind_Some in H as (v & Hv & H). apply bind_Some in H as (vs' & Hvs & [= <-]).
  destruct i as [|i]; cbn [lookup list_lookup] in Hc; [injection Hc as <-; exact Hv|]. by apply (IH text vs' i c Hvs); [lia|].
Qed.

Lemma bcrypt_text_spec key setting min : Forall is_byte setting -> bcrypt_text key setting min = bcrypt_spec key setting min.
Proof.
  intros Hb. unfold bcrypt_text, bcrypt_spec.
  destruct (expect 36 (at_ setting 0)); [|done]. destruct (expect 50 (at_ setting 1)); [|done]. cbn [mbind option_bind].
  destruct (subtype_keys (at_ setting 2) key) as [[ks0 ks]|]; [|done]. destruct (expect 36 (at_ setting 3)); [|done]. cbn [mbind option_bind].
  destruct (digit 48 49 (at_ setting 4)); [|done]. cbn [mbind option_bind]. destruct (digit 48 57 (at_ setting 5)); [|done]. cbn [mbind option_bind].
  destruct (expect 36 (at_ setting 6)); [|done]. cbn [mbind option_bind]. cbv zeta. destruct (_ <? min); [done|].
  pose proof (decode_text 5 16 (drop 7 setting) ltac:(lia) (Forall_drop is_byte 7 setting Hb)) as Hd. change (3 * 5 + 1)%nat with 16%nat in Hd. change (4 * 5 + 2)%nat with 22%nat in Hd.
  pose proof (salt_char setting) as Hs. rewrite Hd in Hs |- *. destruct (Spec.values64 22 (drop 7 setting)) as [vs|] eqn:Ev; [|done]. cbn [mbind option_bind] in Hs |- *.
  destruct (Hs _ Hb eq_refl) as (v & Hv & Hr & Ea). clear Hs. unfold salt_text. rewrite Ea.
  assert (v = at_ vs 21) as <-.
  { unfold at_ in Hv at 1. rewrite nth_lookup in Hv. destruct (setting !! 28%nat) as [c|] eqn:Ec; [|done].
    pose proof (values64_lookup 22 (drop 7 setting) vs 21 c Ev ltac:(lia)) as Hl. rewrite lookup_drop in Hl. specialize (Hl Ec).
    change (default 0 (Some c)) with c in Hv. rewrite atoi_value in Hv by exact (Forall_lookup_1 _ _ _ _ Hb Ec). rewrite Hl in Hv. by injection Hv. }
  rewrite itoa_char by (Z.to_euclidean_division_equations; lia). rewrite <- app_assoc. do 3 f_equal. apply (encode_text 23).
  - rewrite length_take. unfold Spec.ctext. rewrite magic_words. cbn [fmap list_fmap concat]. rewrite !length_app. unfold be_bytes. rewrite !length_rev, !length_le_split. done.
  - lia.
  - apply Forall_take. unfold be_bytes. induction (Spec.ctext _) as [|LR l IH]; [apply List.Forall_nil|]. cbn [fmap list_fmap concat].
    apply Forall_app. split; [apply Forall_app; split; apply Forall_rev, le_split_byte|exact IH].
Qed.

(** ** The theorems *)

(** C10: [BF_crypt] is bcrypt: for every key, setting and minimal cost it
    returns the hash of Provos and Mazieres' algorithm, computed with Schneier's
    Blowfish from the digits of pi on the setting's salt and cost and the key
    words its letter selects, or null when the setting is malformed or too
    cheap. The specification has tables, alphabet and radix 64 of its own. *)
Theorem bcrypt_correct key setting min : is_ckey key -> Forall is_byte setting ->
  BF_crypt key setting min = bcrypt_spec key setting min.
Proof. intros Hk Hb. rewrite bcrypt_ok by done. by apply bcrypt_text_spec. Qed.

Lemma self_test2_passes : bf_self_test2 = true.
Proof. vm_compute. reflexivity. Qed.

(** The key setup. The letters "b" and "y" use the big-endian words of the
    repeated key, "x" the sign-extended ones, and these agree for keys of
    seven-bit characters. "a" agrees with "b" unless the key collides with a
    wrong one, and then with no result of "x" at all: whenever "a" and "x"
    set up the same state for two keys, the first key does not collide. *)
Theorem set_key_correct key key' : is_ckey key -> is_ckey key' ->
  BF_set_key key 4 = (key_words key, zip_with Z.lxor BF_init_P (key_words key)) /\
  BF_set_key key 1 = (sign_words key, zip_with Z.lxor BF_init_P (sign_words key)) /\
  (Forall (fun c => c < 128) key -> BF_set_key key 1 = BF_set_key key 4 /\ BF_set_key key 2 = BF_set_key key 4) /\
  (collides key = false -> BF_set_key key 2 = BF_set_key key 4) /\
  (BF_set_key key 2 = BF_set_key key' 1 -> collides key = false).
Proof.
  intros Hk Hk'. destruct (key_words_shape key Hk) as (L1 & _ & L2 & _). destruct (key_words_shape key' Hk') as (L3 & _ & L4 & _).
  pose proof (set_key_ok key Hk 4 ltac:(auto)) as E4. pose proof (set_key_ok key Hk 1 ltac:(auto)) as E1.
  pose proof (set_key_ok key Hk 2 ltac:(auto)) as E2. pose proof (set_key_ok key' Hk' 1 ltac:(auto)) as E1'.
  cbv zeta in E4, E1, E2, E1'. cbn [Z.eqb andb Pos.eqb] in E4, E1, E2, E1'.
  assert (forall ks, length ks = 18%nat -> <[0%nat := Z.lxor (at_ (zip_with Z.lxor BF_init_P ks) 0) 0]> (zip_with Z.lxor BF_init_P ks) = zip_with Z.lxor BF_init_P ks) as Hid.
  { intros ks Hl. destruct ks as [|k ks]; [done|]. rewrite Z.lxor_0_r. by destruct BF_init_P. }
  rewrite Hid in E4, E1, E1' by done.
  assert (collides key = false -> BF_set_key key 2 = BF_set_key key 4) as Ha by (intros Hc; rewrite E2, Hc, Hid, E4; done).
  split_and!; [done|done| |done|].
  - intros H7. split.
    + rewrite E1, E4. assert (sign_words key = key_words key) as ->; [|done]. by apply seven_words.
    + apply Ha. unfold collides. rewrite (seven_extends key); [apply andb_false_r|done|done].
  - intros H. destruct (collides key); [exfalso|done]. rewrite E2, E1' in H. pose proof (f_equal fst H) as H1.
    apply (f_equal snd) in H. cbn [fst snd] in H1, H. rewrite H1 in H.
    destruct (zip_with Z.lxor BF_init_P (sign_words key')) as [|x z] eqn:Ez.
    { apply (f_equal length) in Ez. rewrite length_zip_with, L4 in Ez. vm_compute in Ez. discriminate Ez. }
    cbn [at_ nth insert list_insert] in H. apply (f_equal (fun l => at_ l 0)) in H. cbn [at_ nth] in H.
    apply (f_equal (Z.lxor x)) in H. rewrite <- Z.lxor_assoc, Z.lxor_nilpotent in H. discriminate H.
Qed.

(** Radix 64: any bytes [BF_encode] writes, followed by anything, are read
    back by [BF_decode], and they take four characters for three bytes,
    rounded up. *)
Theorem radix64_roundtrip l rest fuel : Forall is_byte l -> (0 < length l <= fuel)%nat ->
  BF_decode fuel (length l) (BF_encode fuel l ++ rest) = Some l /\
  length (BF_encode fuel l) = ((4 * length l + 2) / 3)%nat.
Proof. intros Hb Hl. split; [by apply decode_encode; [|lia| |lia]|by apply encode_length; lia]. Qed.

(** ** Examples *)

#[local] Ltac each_of x tac := let t := eval vm_compute in x in change x with t; each tac.

Definition demo_key : list Z := str "password".
Definition demo_setting : list Z := str "$2b$05$abcdefghijklmnopqrstuu".

Lemma demo_key_ok : is_ckey demo_key.
Proof. unfold is_ckey. each_of demo_key ltac:(lia). Qed.

Lemma demo_setting_ok : Forall is_byte demo_setting.
Proof. each_of demo_setting ltac:(unfold in_range; lia). Qed.

Lemma bcrypt_correct_witness : BF_crypt demo_key demo_setting 16 = bcrypt_spec demo_key demo_setting 16.
Proof. exact (bcrypt_correct demo_key demo_setting 16 demo_key_ok demo_setting_ok). Defined.

Lemma test_key2_ok : is_ckey bf_test_key2.
Proof. unfold is_ckey. each_of bf_test_key2 ltac:(lia). Qed.

(** The key of the self test collides. *)
Example test_key2_collides : collides bf_test_key2 = true /\ BF_set_key bf_test_key2 2 <> BF_set_key bf_test_key2 4.
Proof. split; vm_compute; [reflexivity|discriminate]. Qed.

Lemma set_key_correct_witness :
  BF_set_key demo_key 4 = (key_words demo_key, zip_with Z.lxor BF_init_P (key_words demo_key)) /\
  (BF_set_key demo_key 2 = BF_set_key bf_test_key2 1 -> collides demo_key = false).
Proof.
  destruct (set_key_correct demo_key bf_test_key2 demo_key_ok test_key2_ok) as (H1 & _ & _ & _ & H2). exact (conj H1 H2).
Defined.

Lemma radix64_roundtrip_witness : BF_decode 5 5 (BF_encode 5 [1; 2; 3; 255; 0] ++ [36]) = Some [1; 2; 3; 255; 0] /\
  length (BF_encode 5 [1; 2; 3; 255; 0]) = 7%nat.
Proof. apply (radix64_roundtrip [1; 2; 3; 255; 0] [36] 5); [each ltac:(unfold in_range; lia)|simpl; lia]. Defined.
