(* ===== verification/Crypt.v ===== *)
(** * Crypt: the entry points of password hashing, M/crypt

    crypt_r.c chooses the algorithm by the first characters of the setting,
    crypt.c calls it with a static buffer. What the hash functions find on
    their stack is a parameter ([stack]). The theorem is about the use of
    [crypt]: comparing the hash of a password under a stored hash with that
    stored hash. *)

From Stdlib Require Import ZArith Lia Bool List String Ascii.
From stdpp Require Import base tactics numbers list option.
From S2P Require Import Prelude CMem BlockHash Sha256 Sha512 Md5 CryptSpec CryptHash Des DesCrypt Blowfish BfKey BfCrypt.
Open Scope Z_scope.

(** The uninitialised block buffers of the three hash contexts. *)
Record stack := mk_stack { stk_md5 : list Z; stk_sha256 : list Z; stk_sha512 : list Z }.

(** crypt_r.c: the string stored in [data]. *)
Definition __crypt_r (stk : stack) (key salt : list Z) : list Z :=
  if (at_ salt 0 =? 36) && truth (at_ salt 1) && truth (at_ salt 2) then
    if (at_ salt 1 =? 49) && (at_ salt 2 =? 36) then __crypt_md5 (stk_md5 stk) key salt
    else if (at_ salt 1 =? 50) && (at_ salt 3 =? 36) then __crypt_blowfish key salt
    else if (at_ salt 1 =? 53) && (at_ salt 2 =? 36) then __crypt_sha256 (stk_sha256 stk) key salt
    else if (at_ salt 1 =? 54) && (at_ salt 2 =? 36) then __crypt_sha512 (stk_sha512 stk) key salt
    else __crypt_des key salt
  else __crypt_des key salt.

(** crypt.c: [buf] is the static buffer; the result points to its start. *)
Definition crypt (stk : stack) (buf key salt : list Z) : list Z :=
  let out := __crypt_r stk key salt ++ [0] in out ++ drop (length out) buf.

Record stack_ok (stk : stack) : Prop := {
  so_md5 : length (stk_md5 stk) = 64%nat;
  so_sha256 : length (stk_sha256 stk) = 64%nat;
  so_sha512 : length (stk_sha512 stk) = 128%nat
}.

(** The two strings no hash is equal to. *)
Definition failure (h : list Z) : bool := bool_decide (h = str "*") || bool_decide (h = str "x").

(** ** The algorithms, with their self test *)

Lemma self_test_some f ts th key setting h : with_self_test f ts th key setting = h -> failure h = false ->
  f key setting = Some h /\ f testkey ts = Some th.
Proof.
  unfold with_self_test. destruct (f key setting) as [p|]; [|by intros <-]. destruct (f testkey ts) as [q|]; [|by intros <-].
  case_bool_decide as E; [by intros <-; subst|by intros <-].
Qed.

Lemma self_test_again f ts th key h : f testkey ts = Some th -> f key h = Some h -> with_self_test f ts th key h = h.
Proof. intros H1 H2. unfold with_self_test. by rewrite H2, H1, bool_decide_true. Qed.

(** The scheme [f] gives [h] under [h] again, whatever is on the stack. *)
Definition rehashes (f : list Z -> list Z -> list Z -> option (list Z)) (n : nat) (prefix : list Z) (len : nat) : Prop :=
  forall junk junk' key setting, length junk = n -> length junk' = n ->
    f junk key setting = f junk' key setting /\
    forall out, f junk key setting = Some out -> f junk key out = Some out /\ take 3 out = prefix /\ (length out <= len)%nat.

Lemma hashed_prefix p n out : length p = 3%nat -> hashed p n out -> take 3 out = p /\ (length out <= 3 + 15 + 16 + 1 + n)%nat.
Proof.
  intros Hp (rounds & salt & hash & -> & Hr & Hs & _ & Hh & _). split; [by rewrite take_app_length'|].
  rewrite !length_app. cbn [length]. lia.
Qed.

Lemma sha256_rehashes : rehashes sha256crypt 64 (str "$5$") 127.
Proof.
  intros junk junk' key setting H1 H2. split.
  - pose proof (shacrypt_correct (A := sha256_alg) junk H1 sha256_long (str "$5$") output256 key setting) as E1.
    pose proof (shacrypt_correct (A := sha256_alg) junk' H2 sha256_long (str "$5$") output256 key setting) as E2.
    exact (eq_trans E1 (eq_sym E2)).
  - intros out E. destruct (shacrypt_shape (A := sha256_alg) junk (str "$5$") output256 43 key setting out eq_refl output256_ok E) as [Hh Ha].
    destruct (hashed_prefix (str "$5$") 43 out eq_refl Hh). split_and!; [exact Ha|done|lia].
Qed.

Lemma sha512_rehashes : rehashes sha512crypt 128 (str "$6$") 127.
Proof.
  intros junk junk' key setting H1 H2. split.
  - pose proof (shacrypt_correct (A := sha512_alg) junk H1 sha512_long (str "$6$") output512 key setting) as E1.
    pose proof (shacrypt_correct (A := sha512_alg) junk' H2 sha512_long (str "$6$") output512 key setting) as E2.
    exact (eq_trans E1 (eq_sym E2)).
  - intros out E. destruct (shacrypt_shape (A := sha512_alg) junk (str "$6$") output512 86 key setting out eq_refl output512_ok E) as [Hh Ha].
    destruct (hashed_prefix (str "$6$") 86 out eq_refl Hh). split_and!; [exact Ha|done|lia].
Qed.

Lemma md5_rehashes : rehashes md5crypt 64 (str "$1$") 127.
Proof.
  intros junk junk' key setting H1 H2. split.
  - by rewrite (md5crypt_correct junk key setting H1), (md5crypt_correct junk' key setting H2).
  - intros out E. destruct (md5crypt_again junk key setting out E) as [Ha Hl]. split_and!; [done| |lia].
    rewrite (md5crypt_correct junk key out H1) in Ha. unfold md5crypt_text in Ha. destruct (_ <? _)%nat; [done|].
    destruct (has_prefix (str "$1$") out) eqn:Ep; [|done]. unfold has_prefix in Ep. by apply bool_decide_eq_true in Ep.
Qed.

Lemma rehash_again f n prefix len ts th junk junk' key setting h : rehashes f n prefix len ->
  length junk = n -> length junk' = n -> with_self_test (f junk) ts th key setting = h -> failure h = false ->
  with_self_test (f junk') ts th key h = h /\ take 3 h = prefix /\ (length h <= len)%nat.
Proof.
  intros HR H1 H2 Hh Hf. destruct (self_test_some _ _ _ _ _ _ Hh Hf) as [E Et].
  destruct (proj2 (HR junk junk' key setting H1 H2) h E) as (Ha & Hp & Hl). split; [|done].
  apply self_test_again.
  - by rewrite <- (proj1 (HR junk junk' testkey ts H1 H2)).
  - by rewrite <- (proj1 (HR junk junk' key h H1 H2)).
Qed.

Lemma take3_at p0 p1 p2 (h : list Z) : take 3 h = [p0; p1; p2] -> at_ h 0 = p0 /\ at_ h 1 = p1 /\ at_ h 2 = p2.
Proof. destruct h as [|a [|b [|c h]]]; try done. by intros [= -> -> ->]. Qed.

Lemma blowfish_again key salt h : is_ckey key -> Forall is_byte salt -> __crypt_blowfish key salt = h -> failure h = false ->
  __crypt_blowfish key h = h /\ length h = 60%nat /\ at_ h 0 = 36 /\ at_ h 1 = 50 /\ truth (at_ h 2) = true /\ at_ h 3 = 36.
Proof.
  intros Hk Hb Hh Hf. unfold __crypt_blowfish in Hh. cbv zeta in Hh.
  destruct (BF_crypt key salt 16) as [p|] eqn:E; [|by subst h].
  destruct (bf_self_test1 (Some (at_ salt 2)) && bf_self_test2) eqn:Et; [subst p|by subst h].
  destruct (bcrypt_again key salt 16 h Hk Hb E) as (Ha & Hl & Hbh & Hsame).
  split; [|split; [done|]].
  - unfold __crypt_blowfish. cbv zeta. by rewrite Ha, Hsame, Et by lia.
  - rewrite !Hsame by lia. rewrite bcrypt_ok in E by done. unfold bcrypt_text, expect in E.
    destruct (Z.eqb_spec (at_ salt 0) 36); [|done]. destruct (Z.eqb_spec (at_ salt 1) 50); [|done]. cbn [mbind option_bind] in E.
    destruct (Z.eqb_spec (at_ salt 2) 0) as [E0|E0]; [rewrite E0 in E; done|].
    destruct (subtype_keys (at_ salt 2) key) as [[? ?]|]; [|done]. cbn [mbind option_bind] in E.
    destruct (Z.eqb_spec (at_ salt 3) 36); [|done]. unfold truth. by destruct (Z.eqb_spec (at_ salt 2) 0).
Qed.

(** ** The traditional formats *)

Lemma des_char_ok X i : let c := at_ (des_chars X) i in (i < 11)%nat -> c <> 36 /\ c <> 0.
Proof.
  intros c Hi. unfold c, des_chars. rewrite at_fmap_seq by done.
  set (v := (_ / _) mod 64). assert (0 <= v < 64) as Hv by (apply Z.mod_pos_bound; lia).
  assert (forallb (fun n => negb (at_ ascii64 n =? 36) && negb (at_ ascii64 n =? 0)) (seq 0 64) = true) as H by (vm_compute; reflexivity).
  rewrite forallb_forall in H. specialize (H (Z.to_nat v) ltac:(apply in_seq; lia)).
  apply andb_true_iff in H as [H1%negb_true_iff H2%negb_true_iff]. by apply Z.eqb_neq in H1, H2.
Qed.

Lemma number64_digits s v : number64 s = Some v -> at_ s 0 <> 0 /\ at_ s 1 <> 0 /\ at_ s 2 <> 0 /\ at_ s 3 <> 0.
Proof.
  unfold number64. intros H. assert (forall c, is_Some (digit64 c) -> c <> 0) as Hd by (intros c [w Hw] ->; done).
  destruct (digit64 (at_ s 0)) eqn:E0; [|done]. destruct (digit64 (at_ s 1)) eqn:E1; [|done].
  destruct (digit64 (at_ s 2)) eqn:E2; [|done]. destruct (digit64 (at_ s 3)) eqn:E3; [|done].
  split_and!; apply Hd; eauto.
Qed.

Lemma number64_ext s s' : (forall i, (i < 4)%nat -> at_ s i = at_ s' i) -> number64 s = number64 s'.
Proof. intros H. unfold number64. by rewrite !H by lia. Qed.

Lemma traditional_shape a b X : let h := a :: b :: des_chars X in length h = 13%nat /\ at_ h 2 <> 36 /\ at_ h 3 <> 36.
Proof.
  cbv zeta. rewrite !at_cons. split_and!; [|apply des_char_ok; lia|apply des_char_ok; lia].
  unfold des_chars. cbn [length]. by rewrite length_fmap, length_seq.
Qed.

(** A traditional hash: eleven characters after those of the setting. *)
Lemma des_again key salt h : crypt_des_spec key salt = Some h ->
  crypt_des_spec key h = Some h /\ (length h <= 20)%nat /\ (11 < length h)%nat /\
  (at_ h 0 = 95 \/ at_ h 0 = at_ salt 0 /\ at_ h 2 <> 36 /\ at_ h 3 <> 36).
Proof.
  unfold crypt_des_spec at 1. destruct (Z.eqb_spec (at_ salt 0) 95) as [E0|E0]; intros H.
  - destruct (number64 (drop 1 salt)) as [count|] eqn:E1; [|done]. cbn [mbind option_bind] in H.
    destruct (Z.eqb_spec count 0) as [|Ec]; [done|]. destruct (number64 (drop 5 salt)) as [sv|] eqn:E2; [|done].
    cbn [mbind option_bind] in H. set (tail := des_hash _ _ _) in H. injection H as <-.
    assert (9 <= length salt)%nat as Hl.
    { destruct (number64_digits _ _ E2) as (_ & _ & _ & H8). rewrite at_drop in H8.
      destruct (decide (9 <= length salt)%nat); [done|]. exfalso. apply H8. apply at_overflow. simpl. lia. }
    assert (length (take 9 salt) = 9%nat) as H9 by (rewrite length_take; lia).
    assert (length tail = 11%nat) as Ht by (unfold tail, des_hash, des_chars; by rewrite length_fmap, length_seq).
    assert (forall i, (i < 9)%nat -> at_ (take 9 salt ++ tail) i = at_ salt i) as Hs.
    { intros i Hi. rewrite at_app_l by lia. by apply at_take. }
    split; [|rewrite length_app, H9, Ht; split_and!; [lia|lia|left; by rewrite Hs by lia]].
    unfold crypt_des_spec. rewrite Hs, (proj2 (Z.eqb_eq _ _) E0) by lia.
    rewrite (number64_ext (drop 1 (take 9 salt ++ tail)) (drop 1 salt)), (number64_ext (drop 5 (take 9 salt ++ tail)) (drop 5 salt)), E1, E2
      by (intros i Hi; rewrite !at_drop; apply Hs; lia).
    cbn [mbind option_bind]. rewrite (proj2 (Z.eqb_neq count 0)) by done. fold tail. by rewrite take_app_length' by done.
  - destruct (ascii_is_unsafe (at_ salt 0) || ascii_is_unsafe (at_ salt 1)) eqn:Eu; [done|]. unfold des_hash in H.
    set (X := Nat.iter _ _ _) in H. injection H as <-.
    destruct (traditional_shape (at_ salt 0) (at_ salt 1) X) as (Hl & H2 & H3).
    split; [|rewrite Hl; split_and!; [lia|lia|right; split_and!; [reflexivity|exact H2|exact H3]]].
    unfold crypt_des_spec. cbn [app at_ nth]. fold (at_ salt 0). fold (at_ salt 1). by rewrite (proj2 (Z.eqb_neq _ _) E0), Eu.
Qed.

(** ** The dispatch *)

Lemma des_case stk key h : at_ h 0 <> 36 \/ at_ h 2 <> 36 /\ at_ h 3 <> 36 -> __crypt_r stk key h = __crypt_des key h.
Proof.
  intros H. unfold __crypt_r. destruct (Z.eqb_spec (at_ h 0) 36); [|done]. destruct H as [?|[H2 H3]]; [done|].
  rewrite (proj2 (Z.eqb_neq _ _) H2), (proj2 (Z.eqb_neq _ _) H3), !andb_false_r. by repeat case_match.
Qed.

Lemma des_hash_again stk key salt h : __crypt_des key salt = h -> failure h = false ->
  __crypt_r stk key h = h /\ (length h <= 127)%nat.
Proof.
  rewrite (crypt_des_correct key salt). destruct (crypt_des_spec key salt) as [h'|] eqn:E.
  - intros -> _. destruct (des_again _ _ _ E) as (Ha & Hl & _ & Hd). split; [|lia].
    rewrite des_case, crypt_des_correct, Ha; [done|]. destruct Hd as [->|(_ & H2 & H3)]; [by left|by right].
  - by intros <-; destruct (at_ salt 0 =? 42).
Qed.

(** C11: A login check works. The hash [h] that [crypt] makes of a password has,
    with its NUL, room in the 128-byte buffer, and when it is not one of the
    failure tokens, hashing the password with [h] as the setting gives [h]
    again, in every one of the formats and whatever the stack holds; when it
    is a failure token, no password at all hashes to it under itself. *)
Theorem crypt_authenticates stk stk' key salt :
  stack_ok stk -> stack_ok stk' -> is_ckey key -> Forall is_byte salt ->
  let h := __crypt_r stk key salt in
  (length h + 1 <= 128)%nat /\
  if failure h then forall stk'' key', __crypt_r stk'' key' h <> h else __crypt_r stk' key h = h.
Proof.
  intros [S1 S2 S3] [S1' S2' S3'] Hk Hb h. destruct (failure h) eqn:Ef.
  { clearbody h. split.
    - unfold failure in Ef. apply orb_true_iff in Ef as [E|E]; apply bool_decide_eq_true in E; rewrite E; simpl; lia.
    - intros stk'' key'. unfold failure in Ef. apply orb_true_iff in Ef as [E|E]; apply bool_decide_eq_true in E; subst h.
      + change (str "*") with [42]. rewrite des_case, crypt_des_correct by (left; done). done.
      + change (str "x") with [120]. rewrite des_case, crypt_des_correct by (left; done). done. }
  enough (__crypt_r stk' key h = h /\ (length h <= 127)%nat) as [H1 H2] by (split; [lia|done]).
  assert (__crypt_r stk key salt = h) as Eh by reflexivity. clearbody h. unfold __crypt_r in Eh.
  destruct ((at_ salt 0 =? 36) && truth (at_ salt 1) && truth (at_ salt 2)); [|by eapply des_hash_again].
  destruct ((at_ salt 1 =? 49) && (at_ salt 2 =? 36)).
  { destruct (rehash_again _ _ _ _ _ _ _ _ _ _ _ md5_rehashes S1 S1' Eh Ef) as (Ha & Hp & Hl). split; [|done].
    destruct (take3_at _ _ _ _ Hp) as (E0 & E1 & E2). unfold __crypt_r. rewrite E0, E1, E2. exact Ha. }
  destruct ((at_ salt 1 =? 50) && (at_ salt 3 =? 36)).
  { destruct (blowfish_again key salt h Hk Hb Eh Ef) as (Ha & Hl & E0 & E1 & E2 & E3). split; [|lia].
    unfold __crypt_r. by rewrite E0, E1, E2, E3. }
  destruct ((at_ salt 1 =? 53) && (at_ salt 2 =? 36)).
  { destruct (rehash_again _ _ _ _ _ _ _ _ _ _ _ sha256_rehashes S2 S2' Eh Ef) as (Ha & Hp & Hl). split; [|done].
    destruct (take3_at _ _ _ _ Hp) as (E0 & E1 & E2). unfold __crypt_r. rewrite E0, E1, E2. exact Ha. }
  destruct ((at_ salt 1 =? 54) && (at_ salt 2 =? 36)); [|by eapply des_hash_again].
  destruct (rehash_again _ _ _ _ _ _ _ _ _ _ _ sha512_rehashes S3 S3' Eh Ef) as (Ha & Hp & Hl). split; [|done].
  destruct (take3_at _ _ _ _ Hp) as (E0 & E1 & E2). unfold __crypt_r. rewrite E0, E1, E2. exact Ha.
Qed.

Definition demo_stack (x : Z) : stack := mk_stack (replicate 64 x) (replicate 64 x) (replicate 128 x).
Lemma demo_stack_ok x : stack_ok (demo_stack x).
Proof. done. Qed.

Lemma crypt_authenticates_witness :
  let h := __crypt_r (demo_stack 1) demo_key (str "ab") in
  (length h + 1 <= 128)%nat /\
  if failure h then forall stk'' key', __crypt_r stk'' key' h <> h else __crypt_r (demo_stack 2) demo_key h = h.
Proof.
  apply (crypt_authenticates (demo_stack 1) (demo_stack 2) demo_key (str "ab")); [apply demo_stack_ok|apply demo_stack_ok|apply demo_key_ok|].
  repeat (apply List.Forall_cons; [unfold in_range; vm_compute; split; done|]). apply List.Forall_nil.
Defined.
