(* ===== verification/Avl.v ===== *)
(** * Avl: the search trees of tsearch, musl src/search

    tsearch.c, tfind.c, tdelete.c and twalk.c on a heap of nodes: pointers
    are addresses, [void **] is a place (the root variable or a slot of a
    node), [a] is the array of places the path is recorded in, and a write
    past its end is an error like the use of a null pointer. *)

From S2P Require Import Prelude.
From Stdlib Require Import ZArith Lia Bool List.
From stdpp Require Import base tactics numbers list gmap option.
Open Scope Z_scope.

(** ** Nodes and places *)

(** [struct node]: the key, the children [a[0]] and [a[1]], the height. *)
Record node := mk_node { key : Z; a0 : Z; a1 : Z; h : Z }.

Definition ch (d : bool) (n : node) : Z := if d then a1 n else a0 n.
Definition with_ch (d : bool) (v : Z) (n : node) : node :=
  if d then mk_node (key n) (a0 n) v (h n) else mk_node (key n) v (a1 n) (h n).
Definition with_h (v : Z) (n : node) : node := mk_node (key n) (a0 n) (a1 n) v.
Definition with_key (v : Z) (n : node) : node := mk_node v (a0 n) (a1 n) (h n).

Inductive place := Root | Slot (p : Z) (d : bool).

(** The variable [*rootp] and the allocated nodes. *)
Record st := mk_st { root : Z; heap : gmap Z node }.

Definition M (A : Type) : Type := st -> option (A * st).
#[global] Instance M_ret : MRet M := fun A a s => Some (a, s).
#[global] Instance M_bind : MBind M := fun A B f c s =>
  match c s with Some (a, s') => f a s' | None => None end.

(** An error of the C program, or no fuel left. *)
Definition fail {A} : M A := fun _ => None.

(** Reading and changing a node; an address without a node is an error. *)
Definition deref (p : Z) : M node := fun s => n ← heap s !! p; Some (n, s).
Definition update (p : Z) (f : node -> node) : M unit := fun s =>
  n ← heap s !! p; Some (tt, mk_st (root s) (<[p := f n]> (heap s))).
Definition child (p : Z) (d : bool) : M Z := n ← deref p; mret (ch d n).
Definition get (q : place) : M Z :=
  match q with Root => fun s => Some (root s, s) | Slot p d => child p d end.
Definition set (q : place) (v : Z) : M unit :=
  match q with
  | Root => fun s => Some (tt, mk_st v (heap s))
  | Slot p d => update p (with_ch d v)
  end.

(** A fresh node, as its fields are set after [malloc]. *)
Definition alloc (p : Z) (n : node) : M unit := fun s =>
  Some (tt, mk_st (root s) (<[p := n]> (heap s))).

(** ** tsearch.c *)

Definition MAXH : nat := 96.

Definition height (n : Z) : M Z := if n =? 0 then mret 0 else nd ← deref n; mret (h nd).

Definition rot (p : place) (x : Z) (dir : bool) : M Z :=
  y ← child x dir;
  z ← child y (negb dir);
  nx ← deref x;
  let hx := h nx in
  hz ← height z;
  w ← child y dir;
  hw ← height w;
  z ← (if hw <? hz then
         zn ← child z (negb dir);
         update x (with_ch dir zn);;
         zd ← child z dir;
         update y (with_ch (negb dir) zd);;
         update z (with_ch (negb dir) x);;
         update z (with_ch dir y);;
         update x (with_h hz);;
         update y (with_h hz);;
         update z (with_h (hz + 1));;
         mret z
       else
         update x (with_ch dir z);;
         update y (with_ch (negb dir) x);;
         update x (with_h (hz + 1));;
         update y (with_h (hz + 2));;
         mret y);
  set p z;;
  nz ← deref z;
  mret (h nz - hx).

Definition __tsearch_balance (p : place) : M Z :=
  n ← get p;
  nd ← deref n;
  h0 ← height (ch false nd);
  h1 ← height (ch true nd);
  if wrap32 (h0 - h1 + 1) <? 3 then
    let old := h nd in
    let new := if h0 <? h1 then h1 + 1 else h0 + 1 in
    update n (with_h new);;
    mret (new - old)
  else rot p n (h0 <? h1).

Section search.
(** The comparison function. *)
Context (cmp : Z -> Z -> Z).

(** The array [a], last element first; it holds at most [size] places. *)
Definition push (size : nat) (q : place) (a : list place) : option (list place) :=
  if (length a <? size)%nat then Some (q :: a) else None.

(** The loop down from [n]: the node with the key, or null, and the places
    on the way. *)
Fixpoint descend (fuel size : nat) (k n : Z) (a : list place) : M (Z * list place) :=
  match fuel with
  | O => fail
  | S fuel =>
      if n =? 0 then mret (n, a) else
      nd ← deref n;
      let c := cmp k (key nd) in
      if c =? 0 then mret (n, a) else
      match push size (Slot n (0 <? c)) a with
      | None => fail
      | Some a => descend fuel size k (ch (0 <? c) nd) a
      end
  end.

(** [while (i && __tsearch_balance(a[--i]));] *)
Fixpoint rebalance (a : list place) : M unit :=
  match a with
  | [] => mret tt
  | q :: a => r ← __tsearch_balance q; if r =? 0 then mret tt else rebalance a
  end.

(** [new] is what [malloc] returns. *)
Definition tsearch (fuel : nat) (new k rootp : Z) : M Z :=
  if rootp =? 0 then mret 0 else
  n ← get Root;
  '(n, a) ← descend fuel MAXH k n [Root];
  if negb (n =? 0) then mret n else
  if new =? 0 then mret 0 else
  alloc new (mk_node k 0 0 1);;
  match a with
  | q :: a => set q new;; rebalance a;; mret new
  | [] => fail
  end.

(** ** tfind.c *)

Fixpoint tfind_loop (fuel : nat) (k n : Z) : M Z :=
  match fuel with
  | O => fail
  | S fuel =>
      if n =? 0 then mret n else
      nd ← deref n;
      let c := cmp k (key nd) in
      if c =? 0 then mret n else tfind_loop fuel k (ch (0 <? c) nd)
  end.
Definition tfind (fuel : nat) (k rootp : Z) : M Z :=
  if rootp =? 0 then mret 0 else n ← get Root; tfind_loop fuel k n.

(** ** tdelete.c *)

(** [while (n->a[1]) { a[i++] = &n->a[1]; n = n->a[1]; }] *)
Fixpoint rightmost (fuel size : nat) (n : Z) (a : list place) : M (Z * list place) :=
  match fuel with
  | O => fail
  | S fuel =>
      c ← child n true;
      if c =? 0 then mret (n, a) else
      match push size (Slot n true) a with
      | None => fail
      | Some a => rightmost fuel size c a
      end
  end.

(** [while (--i && __tsearch_balance(a[i]));]: the last place of the list,
    [a[0]], is not reached. *)
Fixpoint rebalance1 (a : list place) : M unit :=
  match a with
  | [] => fail
  | [_] => mret tt
  | q :: a => r ← __tsearch_balance q; if r =? 0 then mret tt else rebalance1 a
  end.

(** Freeing what is not allocated is an error. *)
Definition free (n : Z) : M unit := fun s => _ ← heap s !! n; Some (tt, mk_st (root s) (delete n (heap s))).

Definition tdelete (fuel : nat) (k rootp : Z) : M Z :=
  if rootp =? 0 then mret 0 else
  n ← get Root;
  '(n, a) ← descend fuel (S MAXH) k n [Root; Root];
  if n =? 0 then mret 0 else
  parent ← (match a with _ :: q :: _ => get q | _ => fail end);
  l ← child n false;
  '(n, child, a) ← (if negb (l =? 0) then
      match push (S MAXH) (Slot n false) a with
      | None => fail
      | Some a =>
          let deleted := n in
          '(n, a) ← rightmost fuel (S MAXH) l a;
          nd ← deref n;
          update deleted (with_key (key nd));;
          mret (n, ch false nd, a)
      end
    else r ← child n true; mret (n, r, a));
  free n;;
  match a with
  | q :: a => set q child;; rebalance1 a;; mret parent
  | [] => fail
  end.
End search.

(** ** twalk.c and tdestroy.c *)

Inductive VISIT := preorder | postorder | endorder | leaf.

(** The calls of [action]. *)
Fixpoint walk (fuel : nat) (r d : Z) : M (list (Z * VISIT * Z)) :=
  match fuel with
  | O => fail
  | S fuel =>
      if r =? 0 then mret [] else
      nd ← deref r;
      if h nd =? 1 then mret [(r, leaf, d)] else
      l ← walk fuel (ch false nd) (d + 1);
      t ← walk fuel (ch true nd) (d + 1);
      mret ([(r, preorder, d)] ++ l ++ [(r, postorder, d)] ++ t ++ [(r, endorder, d)])
  end.
Definition twalk (fuel : nat) (r : Z) : M (list (Z * VISIT * Z)) := walk fuel r 0.

(** The keys [freekey] is called with. *)
Fixpoint tdestroy (fuel : nat) (freekey : bool) (r : Z) : M (list Z) :=
  match fuel with
  | O => fail
  | S fuel =>
      if r =? 0 then mret [] else
      l ← child r false;
      ks ← tdestroy fuel freekey l;
      t ← child r true;
      ks' ← tdestroy fuel freekey t;
      nd ← deref r;
      free r;;
      mret (ks ++ ks' ++ (if freekey then [key nd] else []))
  end.
