(* ===== verification/AvlProofs.v ===== *)
(** * AvlProofs: tsearch, tfind, tdelete and twalk keep and use AVL trees

    A heap represents a tree with its addresses; the path a search records
    is a context (a zipper). Balancing a place keeps the keys in order and
    restores the balance, so that insertion and deletion act on the ordered
    list of keys, the height stays below [MAXH] and the array of places never
    overflows. *)

From S2P Require Import Prelude Avl.
From Stdlib Require Import ZArith Lia Bool List.
From stdpp Require Import base tactics numbers list gmap option sorting.
Open Scope Z_scope.

(** ** Trees and the heaps that represent them *)

Inductive tree := E | T (p k : Z) (l r : tree) (hh : Z).

Definition ptr (t : tree) : Z := match t with E => 0 | T p _ _ _ _ => p end.
Definition ht (t : tree) : Z := match t with E => 0 | T _ _ _ _ hh => hh end.
Fixpoint addrs (t : tree) : list Z :=
  match t with E => [] | T p _ l r _ => p :: addrs l ++ addrs r end.
(** The nodes in order: their addresses and keys. *)
Fixpoint inorder (t : tree) : list (Z * Z) :=
  match t with E => [] | T p k l r _ => inorder l ++ (p, k) :: inorder r end.
Definition keys (t : tree) : list Z := (inorder t).*2.

Fixpoint rep (hp : gmap Z node) (t : tree) : Prop :=
  match t with
  | E => True
  | T p k l r hh => p <> 0 /\ hp !! p = Some (mk_node k (ptr l) (ptr r) hh) /\ rep hp l /\ rep hp r
  end.

(** Stored heights are right and siblings' heights differ by at most one. *)
Fixpoint avl (t : tree) : Prop :=
  match t with
  | E => True
  | T _ _ l r hh => avl l /\ avl r /\ hh = 1 + Z.max (ht l) (ht r) /\ Z.abs (ht l - ht r) <= 1
  end.

Lemma rep_frame hp hp' t :
  rep hp t -> (forall p, p ∈ addrs t -> hp' !! p = hp !! p) -> rep hp' t.
Proof.
  induction t as [|p k l IHl r IHr hh]; [done|]. simpl. intros (Hp & Hl & H1 & H2) Hf.
  split_and!; [done| | |].
  - rewrite Hf by set_solver. done.
  - apply IHl; [done|]. set_solver.
  - apply IHr; [done|]. set_solver.
Qed.

Lemma avl_ht t : avl t -> 0 <= ht t.
Proof. induction t as [|p k l IHl r IHr hh]; simpl; [lia|]. intros (Hl & Hr & -> & _). specialize (IHl Hl). lia. Qed.

(** ** Contexts *)

(** A node with a hole on the side [f_d]. *)
Record frame := mk_frame { f_p : Z; f_k : Z; f_sib : tree; f_d : bool; f_h : Z }.

Definition fill (f : frame) (t : tree) : tree :=
  if f_d f then T (f_p f) (f_k f) (f_sib f) t (f_h f) else T (f_p f) (f_k f) t (f_sib f) (f_h f).
Definition plug (c : list frame) (t : tree) : tree := foldl (fun t f => fill f t) t c.

Definition frame_addrs (f : frame) : list Z := f_p f :: addrs (f_sib f).
Definition ctx_addrs (c : list frame) : list Z := c ≫= frame_addrs.

Definition frame_node (f : frame) (q : Z) : node :=
  if f_d f then mk_node (f_k f) (ptr (f_sib f)) q (f_h f) else mk_node (f_k f) q (ptr (f_sib f)) (f_h f).

(** The heap represents the context around the pointer [q], up to the root. *)
Fixpoint rep_ctx (hp : gmap Z node) (rt q : Z) (c : list frame) : Prop :=
  match c with
  | [] => rt = q
  | f :: c => f_p f <> 0 /\ hp !! f_p f = Some (frame_node f q) /\ rep hp (f_sib f) /\ rep_ctx hp rt (f_p f) c
  end.

Definition place_of (c : list frame) : place := match c with [] => Root | f :: _ => Slot (f_p f) (f_d f) end.
(** The array of places for a context, innermost first. *)
Fixpoint places (c : list frame) : list place :=
  match c with [] => [Root] | f :: c' => place_of c :: places c' end.

Definition holds (s : st) (c : list frame) (t : tree) : Prop :=
  rep (heap s) t /\ rep_ctx (heap s) (root s) (ptr t) c /\ NoDup (addrs t ++ ctx_addrs c).

Lemma rep_ctx_frame hp hp' rt q c :
  rep_ctx hp rt q c -> (forall p, p ∈ ctx_addrs c -> hp' !! p = hp !! p) -> rep_ctx hp' rt q c.
Proof.
  revert q. induction c as [|f c IH]; intros q; [done|]. simpl. intros (H0 & H1 & H2 & H3) Hf.
  unfold frame_addrs in Hf. split_and!.
  - done.
  - rewrite Hf by set_solver. done.
  - eapply rep_frame; [done|]. set_solver.
  - apply IH; [done|]. set_solver.
Qed.

Lemma ctx_addrs_cons f c : ctx_addrs (f :: c) = frame_addrs f ++ ctx_addrs c.
Proof. done. Qed.

Lemma fill_addrs f t : addrs (fill f t) ≡ₚ addrs t ++ frame_addrs f.
Proof. unfold fill, frame_addrs. destruct (f_d f); simpl; solve_Permutation. Qed.

Lemma rep_fill hp f t :
  rep hp (fill f t) <-> f_p f <> 0 /\ hp !! f_p f = Some (frame_node f (ptr t)) /\ rep hp (f_sib f) /\ rep hp t.
Proof. unfold fill, frame_node. destruct (f_d f); simpl; tauto. Qed.

Lemma ptr_fill f t : ptr (fill f t) = f_p f.
Proof. unfold fill. by destruct (f_d f). Qed.

(** Moving the focus along the path. *)
Lemma holds_fill s f c t : holds s c (fill f t) <-> holds s (f :: c) t.
Proof.
  unfold holds. rewrite rep_fill, ptr_fill, fill_addrs, ctx_addrs_cons, app_assoc. cbn [rep_ctx]. tauto.
Qed.

Lemma holds_plug s c t : holds s [] (plug c t) <-> holds s c t.
Proof.
  revert t. induction c as [|f c IH]; intros t; [done|]. simpl. rewrite IH. apply holds_fill.
Qed.

(** ** Running the operations *)

Lemma deref_run {B} p n (k : node -> M B) s : heap s !! p = Some n -> (deref p ≫= k) s = k n s.
Proof. intros Hp. unfold mbind, M_bind, deref. by rewrite Hp. Qed.
Lemma child_run {B} p n d (k : Z -> M B) s : heap s !! p = Some n -> (child p d ≫= k) s = k (ch d n) s.
Proof. intros Hp. unfold child, mbind, M_bind, deref. by rewrite Hp. Qed.
Lemma update_run {B} p n f (k : unit -> M B) s :
  heap s !! p = Some n -> (update p f ≫= k) s = k tt (mk_st (root s) (<[p := f n]> (heap s))).
Proof. intros Hp. unfold mbind, M_bind, update. by rewrite Hp. Qed.
Lemma height_run {B} t (k : Z -> M B) s : rep (heap s) t -> (height (ptr t) ≫= k) s = k (ht t) s.
Proof.
  unfold height. destruct t as [|p key l r hh]; [done|]. simpl. intros (Hp & Hl & _).
  destruct (Z.eqb_spec p 0); [done|]. unfold mbind, M_bind, deref. by rewrite Hl.
Qed.
Lemma bind_assoc {A B C} (c : M A) (f : A -> M B) (k : B -> M C) s :
  ((c ≫= f) ≫= k) s = (c ≫= (fun x => f x ≫= k)) s.
Proof. unfold mbind, M_bind. by destruct (c s) as [[? ?]|]. Qed.
Lemma ret_run {A B} (a : A) (k : A -> M B) s : (mret a ≫= k) s = k a s.
Proof. done. Qed.

(** Storing at the place of a context changes what the context is around. *)
Lemma set_run {B} s c q v (k : unit -> M B) :
  rep_ctx (heap s) (root s) q c -> NoDup (ctx_addrs c) ->
  exists s', (set (place_of c) v ≫= k) s = k tt s' /\ rep_ctx (heap s') (root s') v c /\
    (forall p, p ∉ ctx_addrs c -> heap s' !! p = heap s !! p).
Proof.
  destruct c as [|f c]; [by intros; eexists (mk_st v (heap s))|].
  intros (H0 & H1 & H2 & H3) Hd. rewrite ctx_addrs_cons in *. unfold frame_addrs in *.
  exists (mk_st (root s) (<[f_p f := frame_node f v]> (heap s))). split_and!.
  - simpl. rewrite (update_run _ _ _ _ _ H1). unfold with_ch, frame_node. by destruct (f_d f).
  - simpl. split_and!; [done|by simplify_map_eq| |].
    + eapply rep_frame; [done|]. intros p Hp. rewrite lookup_insert_ne; [done|].
      intros <-. apply NoDup_app in Hd as [Hd _]. by inversion Hd.
    + eapply rep_ctx_frame; [done|]. intros p Hp. rewrite lookup_insert_ne; [done|].
      intros <-. apply NoDup_app in Hd as (_ & Hd & _). eapply Hd; [|done]. set_solver.
  - simpl. intros p Hp. rewrite lookup_insert_ne; [done|]. set_solver.
Qed.

Lemma get_run {B} s c t (k : Z -> M B) : holds s c t -> (get (place_of c) ≫= k) s = k (ptr t) s.
Proof.
  intros (_ & Hc & _). destruct c as [|f c]; [by rewrite <- Hc|]. simpl in *. destruct Hc as (_ & H1 & _).
  rewrite (child_run _ _ _ _ _ H1). unfold frame_node, ch. by destruct (f_d f).
Qed.

(** ** Rotations *)

(** A node with [u] on the side [d] and [v] on the other. *)
Definition TT (d : bool) (p k : Z) (v u : tree) (hh : Z) : tree := if d then T p k v u hh else T p k u v hh.

Definition TT_node (d : bool) (k : Z) (v u : tree) (hh : Z) : node :=
  if d then mk_node k (ptr v) (ptr u) hh else mk_node k (ptr u) (ptr v) hh.

Lemma rep_TT hp d p k v u hh :
  rep hp (TT d p k v u hh) <-> p <> 0 /\ hp !! p = Some (TT_node d k v u hh) /\ rep hp v /\ rep hp u.
Proof. unfold TT, TT_node. destruct d; simpl; tauto. Qed.
Lemma avl_TT d p k v u hh :
  avl (TT d p k v u hh) <-> avl v /\ avl u /\ hh = 1 + Z.max (ht v) (ht u) /\ Z.abs (ht v - ht u) <= 1.
Proof. unfold TT. destruct d; simpl; split; intros (? & ? & ? & ?); split_and!; (done || lia). Qed.
Lemma addrs_TT d p k v u hh : addrs (TT d p k v u hh) ≡ₚ p :: addrs v ++ addrs u.
Proof. unfold TT. destruct d; simpl; solve_Permutation. Qed.
Lemma ptr_TT d p k v u hh : ptr (TT d p k v u hh) = p.
Proof. by destruct d. Qed.
Lemma ht_TT d p k v u hh : ht (TT d p k v u hh) = hh.
Proof. by destruct d. Qed.
Lemma ch_TT d k v u hh : ch d (TT_node d k v u hh) = ptr u /\ ch (negb d) (TT_node d k v u hh) = ptr v.
Proof. by destruct d. Qed.
Lemma TT_case d p k l r hh : exists v u, T p k l r hh = TT d p k v u hh /\ (v, u) = (if d then (l, r) else (r, l)).
Proof. destruct d; [by exists l, r|by exists r, l]. Qed.

(** What changed is inside [t] and the context. *)
Record changed (s s' : st) (c : list frame) (t t' : tree) : Prop := {
  ch_holds : holds s' c t';
  ch_inorder : inorder t' = inorder t;
  ch_addrs : addrs t' ≡ₚ addrs t;
  ch_frame : forall p, p ∉ addrs t ++ ctx_addrs c -> heap s' !! p = heap s !! p
}.

Lemma commit_run {B} s c t t' hp (k : unit -> M B) :
  holds s c t -> rep hp t' -> addrs t' ≡ₚ addrs t -> inorder t' = inorder t ->
  (forall p, p ∉ addrs t -> hp !! p = heap s !! p) ->
  exists s', (set (place_of c) (ptr t') ≫= k) (mk_st (root s) hp) = k tt s' /\ changed s s' c t t' /\
    (forall p, p ∈ addrs t -> heap s' !! p = hp !! p).
Proof.
  intros (H1 & H2 & Hd) Hr Ha Hi Hf. pose proof Hd as Hd'. apply NoDup_app in Hd' as (_ & Hdis & Hc).
  destruct (set_run (mk_st (root s) hp) c (ptr t) (ptr t') k) as (s' & Hs & Hc' & Hf'); [|done|].
  - simpl. eapply rep_ctx_frame; [done|]. intros p Hp. apply Hf. intros Hin. by eapply Hdis.
  - exists s'. split; [done|]. simpl in Hf'. split; [|intros p Hp; apply Hf'; by apply Hdis]. split; [|done|done|].
    + split_and!; [|done|by rewrite Ha]. eapply rep_frame; [done|]. intros p Hp. apply Hf', Hdis. by rewrite <- Ha.
    + intros p Hp. rewrite Hf', Hf by set_solver. done.
Qed.

Lemma h_TT d k v u hh : h (TT_node d k v u hh) = hh.
Proof. by destruct d. Qed.

Lemma inorder_TT_rot d x kx y ky A Z D h1 h2 h3 h4 :
  inorder (TT d y ky (TT d x kx A Z h1) D h2) = inorder (TT d x kx A (TT d y ky Z D h3) h4).
Proof. destruct d; simpl; by rewrite <- !app_assoc. Qed.
Lemma inorder_TT_rot2 d x kx y ky z kz A B C D h1 h2 h3 h4 h5 h6 :
  inorder (TT d z kz (TT d x kx A B h1) (TT d y ky C D h2) h3) =
  inorder (TT d x kx A (TT d y ky (TT d z kz B C h4) D h5) h6).
Proof. destruct d; simpl; rewrite <- ?app_assoc; simpl; by rewrite <- ?app_assoc. Qed.

Lemma rot_single s c x kx y ky A G D hx hy dir :
  holds s c (TT dir x kx A (TT dir y ky G D hy) hx) ->
  avl A -> avl (TT dir y ky G D hy) -> hy = ht A + 2 -> ht G <= ht D ->
  exists t' s', rot (place_of c) x dir s = Some (ht t' - hx, s') /\
    changed s s' c (TT dir x kx A (TT dir y ky G D hy) hx) t' /\ avl t' /\
    ht A + 2 <= ht t' <= ht A + 3.
Proof.
  intros Hh HA HY Hhy HGD. pose proof Hh as (Hr & _ & Hnd).
  apply avl_TT in HY as (HG & HD & Ey & Hb).
  assert (Hnd' : NoDup (x :: y :: addrs A ++ addrs G ++ addrs D)).
  { apply NoDup_app in Hnd as [Hnd _]. eapply NoDup_Permutation_proper; [|exact Hnd].
    rewrite !addrs_TT. solve_Permutation. }
  rewrite rep_TT, rep_TT in Hr. destruct Hr as (Hx0 & Hx & RA & Hy0 & Hy & RG & RD).
  set (hp := <[y := TT_node dir ky (TT dir x kx A G (ht G + 1)) D (ht G + 2)]>
               (<[x := TT_node dir kx A G (ht G + 1)]> (heap s))).
  set (t' := TT dir y ky (TT dir x kx A G (ht G + 1)) D (ht G + 2)).
  assert (x <> y) as Hxy by (intros ->; inversion Hnd'; set_solver).
  assert (Hfr : forall p, p <> x -> p <> y -> hp !! p = heap s !! p).
  { intros p H1 H2. unfold hp. by rewrite !lookup_insert_ne by done. }
  assert (Hrep : rep hp t').
  { unfold t'. rewrite rep_TT, rep_TT. unfold hp. apply NoDup_cons in Hnd' as [Hnx Hnd'].
    apply NoDup_cons in Hnd' as [Hny Hnd'].
    split_and!; try done; [by simplify_map_eq|by simplify_map_eq|..]; eapply rep_frame; try done;
      intros p Hp; apply Hfr; intros ->; set_solver. }
  destruct (commit_run (B := Z) s c _ t' hp (fun _ => nz ← deref y; mret (h nz - hx)) Hh) as (s' & Hs & Hch & Hlk).
  - done.
  - unfold t'. rewrite !addrs_TT. solve_Permutation.
  - apply inorder_TT_rot.
  - intros p Hp. rewrite !addrs_TT in Hp. apply Hfr; set_solver.
  - exists t', s'. split_and!; [|done| | |].
    + unfold rot. rewrite (child_run _ _ _ _ _ Hx), (proj1 (ch_TT _ _ _ _ _)), ptr_TT.
      rewrite (child_run _ _ _ _ _ Hy), (proj2 (ch_TT _ _ _ _ _)), (deref_run _ _ _ _ Hx), (height_run _ _ _ RG).
      rewrite (child_run _ _ _ _ _ Hy), (proj1 (ch_TT _ _ _ _ _)), (height_run _ _ _ RD).
      destruct (Z.ltb_spec (ht D) (ht G)); [lia|]. rewrite bind_assoc.
      rewrite (update_run _ _ _ _ _ Hx), bind_assoc.
      erewrite update_run by (simpl; by rewrite lookup_insert_ne). rewrite bind_assoc.
      erewrite update_run by (simpl; by simplify_map_eq). rewrite bind_assoc.
      erewrite update_run by (simpl; by simplify_map_eq). rewrite ret_run. cbn [root heap].
      match goal with |- context [mk_st _ ?m] => assert (m = hp) as -> end.
      { apply map_eq. intros p. unfold hp, TT_node, with_h, with_ch.
        destruct (decide (p = y)) as [->|]; [simplify_map_eq; by destruct dir|].
        destruct (decide (p = x)) as [->|]; simplify_map_eq; by destruct dir. }
      assert (ptr t' = y) as Ept by (unfold t'; by rewrite ptr_TT). rewrite Ept in Hs. rewrite h_TT, Hs.
      rewrite (deref_run y (TT_node dir ky (TT dir x kx A G (ht G + 1)) D (ht G + 2))).
      { unfold mret, M_ret, t'. by rewrite ht_TT, h_TT. }
      rewrite Hlk by (rewrite !addrs_TT; set_solver). unfold hp. by simplify_map_eq.
    + unfold t'. rewrite !avl_TT, !ht_TT. split_and!; (done || lia).
    + unfold t'. rewrite ht_TT. lia.
    + unfold t'. rewrite ht_TT. lia.
Qed.

Lemma rot_double s c x kx y ky z kz A B C D hx hy hz dir :
  holds s c (TT dir x kx A (TT dir y ky (TT dir z kz B C hz) D hy) hx) ->
  avl A -> avl (TT dir y ky (TT dir z kz B C hz) D hy) -> hy = ht A + 2 -> ht D < hz ->
  exists t' s', rot (place_of c) x dir s = Some (ht t' - hx, s') /\
    changed s s' c (TT dir x kx A (TT dir y ky (TT dir z kz B C hz) D hy) hx) t' /\ avl t' /\
    ht A + 2 <= ht t' <= ht A + 3.
Proof.
  intros Hh HA HY Hhy HGD. pose proof Hh as (Hr & _ & Hnd).
  rewrite !avl_TT, ht_TT in HY. destruct HY as ((HB & HC & Ez & Hbz) & HD & Ey & Hb).
  assert (Hnd' : NoDup (x :: y :: z :: addrs A ++ addrs B ++ addrs C ++ addrs D)).
  { apply NoDup_app in Hnd as [Hnd _]. eapply NoDup_Permutation_proper; [|exact Hnd].
    rewrite !addrs_TT. solve_Permutation. }
  rewrite !rep_TT in Hr. destruct Hr as (Hx0 & Hx & RA & Hy0 & Hy & (Hz0 & Hz & RB & RC) & RD).
  set (X := TT dir x kx A B hz). set (Y := TT dir y ky C D hz).
  set (hp := <[z := TT_node dir kz X Y (hz + 1)]> (<[y := TT_node dir ky C D hz]>
               (<[x := TT_node dir kx A B hz]> (heap s)))).
  set (t' := TT dir z kz X Y (hz + 1)).
  apply NoDup_cons in Hnd' as [Hnx Hnd']. apply NoDup_cons in Hnd' as [Hny Hnd'].
  apply NoDup_cons in Hnd' as [Hnz Hnd'].
  assert (x <> y) as Hxy by (intros ->; set_solver). assert (x <> z) as Hxz by (intros ->; set_solver).
  assert (y <> z) as Hyz by (intros ->; set_solver).
  assert (Hfr : forall p, p <> x -> p <> y -> p <> z -> hp !! p = heap s !! p).
  { intros p H1 H2 H3. unfold hp. by rewrite !lookup_insert_ne by done. }
  assert (Hrep : rep hp t').
  { unfold t', X, Y. rewrite !rep_TT. unfold hp.
    split_and!; try done; [by simplify_map_eq|by simplify_map_eq|..|by simplify_map_eq| |]; eapply rep_frame; try done;
      intros p Hp; apply Hfr; intros ->; set_solver. }
  destruct (commit_run (B := Z) s c _ t' hp (fun _ => nz ← deref z; mret (h nz - hx)) Hh) as (s' & Hs & Hch & Hlk).
  - done.
  - unfold t', X, Y. rewrite !addrs_TT. solve_Permutation.
  - apply inorder_TT_rot2.
  - intros p Hp. rewrite !addrs_TT in Hp. apply Hfr; set_solver.
  - exists t', s'. split_and!; [|done| | |].
    + unfold rot. rewrite (child_run _ _ _ _ _ Hx), (proj1 (ch_TT _ _ _ _ _)), ptr_TT.
      rewrite (child_run _ _ _ _ _ Hy), (proj2 (ch_TT _ _ _ _ _)), (deref_run _ _ _ _ Hx).
      assert (RZ : rep (heap s) (TT dir z kz B C hz)) by by rewrite rep_TT.
      rewrite (height_run _ _ _ RZ), ptr_TT, ht_TT.
      rewrite (child_run _ _ _ _ _ Hy), (proj1 (ch_TT _ _ _ _ _)), (height_run _ _ _ RD).
      destruct (Z.ltb_spec (ht D) hz); [|lia]. rewrite bind_assoc.
      rewrite (child_run _ _ _ _ _ Hz), (proj2 (ch_TT _ _ _ _ _)), bind_assoc, (update_run _ _ _ _ _ Hx), bind_assoc.
      erewrite child_run by (simpl; by simplify_map_eq). rewrite (proj1 (ch_TT _ _ _ _ _)), bind_assoc.
      do 6 (erewrite update_run by (simpl; by simplify_map_eq); rewrite ?bind_assoc). rewrite ret_run. cbn [root heap].
      match goal with |- context [mk_st _ ?m] => assert (m = hp) as -> end.
      { apply map_eq. intros p. unfold hp, X, Y, TT_node, with_h, with_ch.
        destruct (decide (p = z)) as [->|]; [simplify_map_eq; by destruct dir|].
        destruct (decide (p = y)) as [->|]; [simplify_map_eq; by destruct dir|].
        destruct (decide (p = x)) as [->|]; simplify_map_eq; by destruct dir. }
      assert (ptr t' = z) as Ept by (unfold t'; by rewrite ptr_TT). rewrite Ept in Hs. rewrite h_TT, Hs.
      rewrite (deref_run z (TT_node dir kz X Y (hz + 1))).
      { unfold mret, M_ret, t'. by rewrite ht_TT, h_TT. }
      rewrite Hlk by (rewrite !addrs_TT; set_solver). unfold hp. by simplify_map_eq.
    + unfold t', X, Y. rewrite !avl_TT, !ht_TT. split_and!; (done || lia).
    + unfold t'. rewrite ht_TT. lia.
    + unfold t'. rewrite ht_TT. lia.
Qed.

(** ** Balancing *)

Lemma unbalanced h0 h1 : Z.abs (h0 - h1) <= 2 -> (wrap32 (h0 - h1 + 1) <? 3) = (Z.abs (h0 - h1) <=? 1).
Proof.
  intros H. unfold wrap. destruct (Z.leb_spec (Z.abs (h0 - h1)) 1).
  - rewrite Z.mod_small by lia. apply Z.ltb_lt. lia.
  - apply Z.ltb_ge. assert (h0 - h1 + 1 = 3 \/ h0 - h1 + 1 = -1) as [-> | ->] by lia; done.
Qed.

Lemma rot_ok s c x kx A Y hx dir :
  holds s c (TT dir x kx A Y hx) -> avl A -> avl Y -> ht Y = ht A + 2 ->
  exists t' s', rot (place_of c) x dir s = Some (ht t' - hx, s') /\
    changed s s' c (TT dir x kx A Y hx) t' /\ avl t' /\ ht A + 2 <= ht t' <= ht A + 3.
Proof.
  intros Hh HA HY Hht. pose proof (avl_ht A HA). destruct Y as [|y ky l r hy]; [simpl in Hht; lia|].
  destruct (TT_case dir y ky l r hy) as (G & D & E1 & _). rewrite E1 in *. rewrite ht_TT in Hht.
  destruct (decide (ht D < ht G)) as [Hlt|Hge]; [|apply rot_single; (done || lia)].
  pose proof HY as HY'. rewrite avl_TT in HY'. destruct HY' as (_ & HD & _). pose proof (avl_ht D HD).
  destruct G as [|z kz l' r' hz]; [simpl in Hlt; lia|].
  destruct (TT_case dir z kz l' r' hz) as (B & C & E2 & _). rewrite E2 in *. rewrite ht_TT in Hlt.
  by apply rot_double.
Qed.

Lemma balance_ok s c p k l r old :
  holds s c (T p k l r old) -> avl l -> avl r -> Z.abs (ht l - ht r) <= 2 ->
  exists t' s', __tsearch_balance (place_of c) s = Some (ht t' - old, s') /\
    changed s s' c (T p k l r old) t' /\ avl t' /\
    Z.max (ht l) (ht r) <= ht t' <= 1 + Z.max (ht l) (ht r) /\
    (Z.abs (ht l - ht r) <= 1 -> ht t' = 1 + Z.max (ht l) (ht r)).
Proof.
  intros Hh Hl Hr Hb. unfold __tsearch_balance. rewrite (get_run s c _ _ Hh). cbn [ptr].
  pose proof Hh as (Hrep & Hc & Hnd). simpl in Hrep. destruct Hrep as (Hp & Hlk & Rl & Rr).
  rewrite (deref_run _ _ _ _ Hlk). cbn [ch a0 a1]. rewrite (height_run _ _ _ Rl), (height_run _ _ _ Rr).
  rewrite unbalanced by done. destruct (Z.leb_spec (Z.abs (ht l - ht r)) 1) as [Hle|Hgt].
  - set (new := if ht l <? ht r then ht r + 1 else ht l + 1).
    assert (new = 1 + Z.max (ht l) (ht r)) as Hnew by (unfold new; destruct (Z.ltb_spec (ht l) (ht r)); lia).
    rewrite (update_run _ _ _ _ _ Hlk). exists (T p k l r new), (mk_st (root s) (<[p := mk_node k (ptr l) (ptr r) new]> (heap s))).
    pose proof Hnd as Hnd0. apply NoDup_app in Hnd as (Hnd & Hdis & Hc'). simpl in Hnd, Hdis. apply NoDup_cons in Hnd as [Hnp _].
    assert (Hfr : forall t, p ∉ addrs t -> rep (heap s) t -> rep (<[p := mk_node k (ptr l) (ptr r) new]> (heap s)) t).
    { intros t Ht R. eapply rep_frame; [done|]. intros q Hq. rewrite lookup_insert_ne; [done|]. by intros <-. }
    split_and!; [done| |simpl; split_and!; (done || lia)|simpl; lia|simpl; lia|simpl; lia].
    split; [|done|done|].
    + split_and!; simpl; [split_and!; [done|by simplify_map_eq|apply Hfr; set_solver|apply Hfr; set_solver]| |].
      * eapply rep_ctx_frame; [done|]. intros q Hq. rewrite lookup_insert_ne; [done|]. intros <-. eapply Hdis; [|done]. set_solver.
      * exact Hnd0.
    + simpl. intros q Hq. rewrite lookup_insert_ne; [done|]. set_solver.
  - destruct (Z.ltb_spec (ht l) (ht r)) as [Hlt|Hgt'].
    + destruct (rot_ok s c p k l r old true) as (t' & s' & H1 & H2 & H3 & H4); [done|done|done|lia|].
      exists t', s'. rewrite H1. split_and!; (done || lia).
    + destruct (rot_ok s c p k r l old false) as (t' & s' & H1 & H2 & H3 & H4); [done|done|done|lia|].
      exists t', s'. rewrite H1. split_and!; (done || lia).
Qed.

(** The context expects a subtree of height [hh] to be an AVL tree. *)
Fixpoint ctx_ok (c : list frame) (hh : Z) : Prop :=
  match c with
  | [] => True
  | f :: c => avl (f_sib f) /\ f_h f = 1 + Z.max (ht (f_sib f)) hh /\ Z.abs (ht (f_sib f) - hh) <= 1 /\ ctx_ok c (f_h f)
  end.

Lemma avl_fill f t :
  avl (fill f t) <-> avl t /\ avl (f_sib f) /\ f_h f = 1 + Z.max (ht (f_sib f)) (ht t) /\ Z.abs (ht (f_sib f) - ht t) <= 1.
Proof. unfold fill. destruct (f_d f); simpl; split; intros (? & ? & ? & ?); split_and!; (done || lia). Qed.
Lemma ht_fill f t : ht (fill f t) = f_h f.
Proof. unfold fill. by destruct (f_d f). Qed.

Lemma avl_plug c t : avl (plug c t) <-> avl t /\ ctx_ok c (ht t).
Proof.
  revert t. induction c as [|f c IH]; intros t; simpl; [tauto|]. rewrite IH, avl_fill, ht_fill. tauto.
Qed.

Lemma fill_inorder f t t' : inorder t = inorder t' -> inorder (fill f t) = inorder (fill f t').
Proof. intros H. unfold fill. destruct (f_d f); simpl; by rewrite H. Qed.
Lemma plug_inorder c t t' : inorder t = inorder t' -> inorder (plug c t) = inorder (plug c t').
Proof. revert t t'. induction c as [|f c IH]; intros t t' H; [done|]. simpl. by apply IH, fill_inorder. Qed.
Lemma plug_addrs c t : addrs (plug c t) ≡ₚ addrs t ++ ctx_addrs c.
Proof.
  revert t. induction c as [|f c IH]; intros t; [by rewrite app_nil_r|].
  change (plug (f :: c) t) with (plug c (fill f t)). by rewrite IH, fill_addrs, ctx_addrs_cons, app_assoc.
Qed.

(** The places above the hole. *)
Definition up (c : list frame) : list place := match c with [] => [] | _ :: c => places c end.
Lemma places_up c : places c = place_of c :: up c.
Proof. by destruct c. Qed.

Lemma rebalance_ok s c t hh :
  holds s c t -> avl t -> ctx_ok c hh -> Z.abs (ht t - hh) <= 1 ->
  exists T' s', rebalance (up c) s = Some (tt, s') /\ changed s s' [] (plug c t) T' /\ avl T'.
Proof.
  revert s t hh. induction c as [|f c IH]; intros s t hh Hh Ht Hc Hd.
  - exists t, s. done.
  - simpl in Hc. destruct Hc as (Hs & Hfh & Hb & Hc). rewrite <- holds_fill in Hh. cbn [up].
    change (plug (f :: c) t) with (plug c (fill f t)).
    rewrite places_up. cbn [rebalance].
    assert (exists p k l r, fill f t = T p k l r (f_h f) /\ avl l /\ avl r /\ Z.abs (ht l - ht r) <= 2 /\
      Z.max (ht l) (ht r) = Z.max (ht (f_sib f)) (ht t) /\
      Z.abs (ht l - ht r) = Z.abs (ht (f_sib f) - ht t)) as (p & k & l & r & E1 & Hl & Hr & Hlr & Hmax & Habs).
    { unfold fill. destruct (f_d f); eexists _, _, _, _; (split; [done|]); split_and!; (done || lia). }
    rewrite E1 in *. destruct (balance_ok s c p k l r (f_h f) Hh Hl Hr Hlr) as (t' & s' & Hrun & Hch & Ht' & Hbd & Hex).
    unfold mbind, M_bind. rewrite Hrun. destruct (Z.eqb_spec (ht t' - f_h f) 0) as [H0|H0].
    + exists (plug c t'), s'. split; [done|]. split; [|apply avl_plug; split; [done|by replace (ht t') with (f_h f) by lia]].
      destruct Hch as [C1 C2 C3 C4]. split; [by apply holds_plug|by apply plug_inorder| |].
      * by rewrite !plug_addrs, C3.
      * intros q Hq. apply C4. rewrite plug_addrs in Hq. set_solver.
    + destruct Hch as [C1 C2 C3 C4].
      destruct (IH s' t' (f_h f) C1 Ht' Hc) as (T' & s'' & R & Hch' & HT').
      { destruct (decide (Z.abs (ht l - ht r) <= 1)) as [Hle|]; [specialize (Hex Hle)|]; lia. }
      exists T', s''. split; [done|]. split; [|done]. destruct Hch' as [D1 D2 D3 D4]. split; [done| | |].
      * rewrite D2. by apply plug_inorder.
      * by rewrite D3, !plug_addrs, C3.
      * intros q Hq. rewrite plug_addrs in Hq. rewrite D4, C4; [done|set_solver|].
        rewrite plug_addrs, C3. done.
Qed.
