(* ===== verification/AvlSearch.v ===== *)
(** * AvlSearch: what tsearch, tfind, tdelete and twalk do

    The functions of Avl.v on a heap that represents an ordered AVL tree, for
    a comparison function that is a total order up to equivalence: the result
    in terms of the ordered list of keys, the tree that is left, and the bound
    on its height. *)

From S2P Require Import Prelude Avl AvlProofs.
From Stdlib Require Import ZArith Lia Bool List.
From stdpp Require Import base tactics numbers list gmap option sorting.
Open Scope Z_scope.

(** ** Heights *)

(** The least number of nodes of an AVL tree of height [n], and of [n + 1]. *)
Fixpoint min_nodes (n : nat) : Z * Z :=
  match n with O => (0, 1) | S n => let '(a, b) := min_nodes n in (b, a + b + 1) end.

Lemma min_nodes_mono n : 0 <= (min_nodes n).1 /\ (min_nodes n).1 <= (min_nodes n).2.
Proof. induction n as [|n IH]; simpl; [lia|]. destruct (min_nodes n). simpl in *. lia. Qed.

Lemma min_nodes_le n m : (n <= m)%nat -> (min_nodes n).1 <= (min_nodes m).1.
Proof.
  induction 1 as [|m _ IH]; [lia|]. pose proof (min_nodes_mono m). simpl. destruct (min_nodes m). simpl in *. lia.
Qed.

Lemma avl_size t : avl t -> (min_nodes (Z.to_nat (ht t))).1 <= Z.of_nat (length (addrs t)).
Proof.
  induction t as [|p k l IHl r IHr hh]; [done|]. simpl. intros (Hl & Hr & -> & Hb).
  pose proof (avl_ht l Hl). pose proof (avl_ht r Hr). specialize (IHl Hl). specialize (IHr Hr).
  rewrite length_app. set (n := Z.to_nat (Z.min (ht l) (ht r))).
  assert (exists m, Z.to_nat (1 + Z.max (ht l) (ht r)) = S m /\
    (min_nodes m).1 <= Z.of_nat (length (addrs l) + length (addrs r)) /\
    (min_nodes (S m)).1 <= Z.of_nat (S (length (addrs l) + length (addrs r)))) as (m & -> & _ & H1); [|done].
  exists (Z.to_nat (Z.max (ht l) (ht r))). split; [lia|].
  destruct (Z.to_nat (Z.max (ht l) (ht r))) as [|m] eqn:Em; [simpl; lia|].
  assert (Hm : (m <= Z.to_nat (ht l) /\ S m <= Z.to_nat (ht r) \/ S m <= Z.to_nat (ht l) /\ m <= Z.to_nat (ht r))%nat) by lia.
  pose proof (min_nodes_mono m).
  assert ((min_nodes m).1 + (min_nodes (S m)).1 <= Z.of_nat (length (addrs l)) + Z.of_nat (length (addrs r))) as Hsum.
  { destruct Hm as [[L R]|[L R]]; apply min_nodes_le in L, R; lia. }
  simpl in *. destruct (min_nodes m). simpl in *. lia.
Qed.

(** Fewer than 2^64 nodes: the height is at most 91. *)
Lemma avl_height_bound t : avl t -> Z.of_nat (length (addrs t)) < 2 ^ 64 -> ht t <= 91.
Proof.
  intros Ht Hs. destruct (decide (ht t <= 91)); [done|]. pose proof (avl_size t Ht).
  pose proof (min_nodes_le 92 (Z.to_nat (ht t)) ltac:(lia)) as Hm.
  assert (2 ^ 64 <= (min_nodes 92).1) by (vm_compute; done). lia.
Qed.

(** ** Order *)

(** The nodes left and right of a hole, in order. *)
Fixpoint before (c : list frame) : list (Z * Z) :=
  match c with
  | [] => []
  | f :: c => before c ++ (if f_d f then inorder (f_sib f) ++ [(f_p f, f_k f)] else [])
  end.
Fixpoint after (c : list frame) : list (Z * Z) :=
  match c with
  | [] => []
  | f :: c => (if f_d f then [] else (f_p f, f_k f) :: inorder (f_sib f)) ++ after c
  end.

Lemma plug_split c t : inorder (plug c t) = before c ++ inorder t ++ after c.
Proof.
  revert t. induction c as [|f c IH]; intros t; [by rewrite app_nil_r|].
  change (plug (f :: c) t) with (plug c (fill f t)). rewrite IH. unfold fill. simpl.
  destruct (f_d f); simpl; by rewrite <- ?app_assoc.
Qed.

Lemma keys_split c t : keys (plug c t) = (before c).*2 ++ keys t ++ (after c).*2.
Proof. unfold keys. by rewrite plug_split, !fmap_app. Qed.

Section order.
Context (cmp : Z -> Z -> Z) {O : CmpOrder cmp}.

Definition lt (x y : Z) : Prop := cmp x y < 0.
Definition ordered (l : list Z) : Prop := StronglySorted lt l.

Lemma ordered_app l1 l2 :
  ordered (l1 ++ l2) <-> ordered l1 /\ ordered l2 /\ forall x y, x ∈ l1 -> y ∈ l2 -> cmp x y < 0.
Proof.
  unfold ordered. induction l1 as [|a l1 IH]; simpl.
  - split; [intros H; split_and!; [constructor|done|]; set_solver|tauto].
  - split.
    + intros H. apply StronglySorted_inv in H as [H1 H2]. apply IH in H1 as (H3 & H4 & H5).
      rewrite Forall_app, !Forall_forall in H2. destruct H2 as [H2 H2'].
      split_and!; [by constructor; [|apply Forall_forall]|done|]. intros x y Hx Hy.
      apply elem_of_cons in Hx as [->|Hx]; [by apply H2'|by apply H5].
    + intros (H1 & H2 & H3). apply StronglySorted_inv in H1 as [H1 H4]. constructor.
      * apply IH. split_and!; [done|done|]. intros x y Hx Hy. apply H3; set_solver.
      * apply Forall_app. split; [done|]. apply Forall_forall. intros y Hy. apply H3; set_solver.
Qed.

(** The key belongs into the hole. *)
Definition belongs (k : Z) (c : list frame) : Prop :=
  (forall x, x ∈ (before c).*2 -> cmp k x > 0) /\ (forall x, x ∈ (after c).*2 -> cmp k x < 0).

(** ** Searching *)

Lemma length_places c : length (places c) = S (length c).
Proof. induction c as [|f c IH]; [done|]. simpl. by rewrite IH. Qed.

(** One step down keeps the invariant of the search. *)
Lemma belongs_step k c p kx l r hh :
  ordered (keys (plug c (T p kx l r hh))) -> belongs k c -> cmp k kx <> 0 ->
  belongs k (if 0 <? cmp k kx then mk_frame p kx l true hh :: c else mk_frame p kx r false hh :: c).
Proof.
  rewrite keys_split. unfold keys at 1. simpl. rewrite fmap_app. simpl. intros Ho [B1 B2] Hne.
  apply ordered_app in Ho as (_ & Ho & _). apply ordered_app in Ho as (Ho & _ & _).
  apply ordered_app in Ho as (_ & Ho & Hl). apply StronglySorted_inv in Ho as [_ Hr]. rewrite Forall_forall in Hr.
  destruct (Z.ltb_spec 0 (cmp k kx)) as [Hgt|Hle].
  - split; [|exact B2]. simpl. intros x. rewrite !fmap_app, !elem_of_app. intros [Hx|[Hx|Hx]]; [by apply B1| |].
    + eapply (cmp_gt_trans cmp); [|apply Hl; [exact Hx|by left]]. lia.
    + simpl in Hx. apply list_elem_of_singleton in Hx as ->. lia.
  - split; [simpl; by rewrite app_nil_r|]. intros x Hx. simpl in Hx. rewrite fmap_app in Hx. apply elem_of_cons in Hx as [->|Hx]; [lia|].
    apply elem_of_app in Hx as [Hx|Hx]; [|by apply B2]. eapply cmp_trans; [|apply Hr, Hx]. lia.
Qed.

Lemma descend_ok t : forall s c k ex size fuel,
  holds s c t -> avl t -> ordered (keys (plug c t)) -> belongs k c ->
  Z.of_nat (length (places c ++ ex)) + ht t <= Z.of_nat size -> ht t < Z.of_nat fuel ->
  exists t' c', descend cmp fuel size k (ptr t) (places c ++ ex) s = Some ((ptr t', places c' ++ ex), s) /\
    plug c' t' = plug c t /\ holds s c' t' /\ belongs k c' /\
    Z.of_nat (length (places c' ++ ex)) + ht t' <= Z.of_nat (length (places c ++ ex)) + ht t /\
    (t' = E \/ exists p kx l r hh, t' = T p kx l r hh /\ cmp k kx = 0).
Proof.
  induction t as [|p kx l IHl r IHr hh]; intros s c k ex size fuel Hh Ht Ho Hb Hsize Hfuel.
  - destruct fuel as [|fuel]; [simpl in Hfuel; lia|]. exists E, c. split_and!; try done; [by left].
  - pose proof Ht as (Hl & Hr & Ehh & Hbal). pose proof (avl_ht l Hl) as Hl0. pose proof (avl_ht r Hr) as Hr0.
    destruct fuel as [|fuel]; [simpl in Hfuel; lia|]. cbn [descend ptr]. pose proof Hh as (Hrep & _).
    simpl in Hrep. destruct Hrep as (Hp & Hlk & _). destruct (Z.eqb_spec p 0); [done|].
    rewrite (deref_run _ _ _ _ Hlk). cbn [key]. destruct (Z.eqb_spec (cmp k kx) 0) as [H0|Hne].
    { exists (T p kx l r hh), c. split_and!; try done. right. by eexists _, _, _, _, _. }
    unfold push. cbn [ht] in *.
    destruct (Nat.ltb_spec (length (places c ++ ex)) size) as [_|]; [|lia].
    pose proof (belongs_step k c p kx l r hh Ho Hb Hne) as Hb'.
    destruct (0 <? cmp k kx); cbn [ch a0 a1].
    + set (f := mk_frame p kx l true hh) in *.
      destruct (IHr s (f :: c) k ex size fuel) as (t' & c' & R & E1 & H1 & H2 & H3 & H4);
        [by apply (holds_fill s f c r)|done|done|done|simpl in *; lia|lia|].
      exists t', c'. simpl in R. split_and!; try done. simpl in *. lia.
    + set (f := mk_frame p kx r false hh) in *.
      destruct (IHl s (f :: c) k ex size fuel) as (t' & c' & R & E1 & H1 & H2 & H3 & H4);
        [by apply (holds_fill s f c l)|done|done|done|simpl in *; lia|lia|].
      exists t', c'. simpl in R. split_and!; try done. simpl in *. lia.
Qed.

(** The node the list has for a key. *)
Definition find_key (k : Z) (l : list (Z * Z)) : option Z :=
  (fun x => (x.2 : Z * Z).1) <$> list_find (fun x : Z * Z => cmp k x.2 = 0) l.

Lemma find_key_none k l : (forall x, x ∈ l.*2 -> cmp k x <> 0) -> find_key k l = None.
Proof.
  intros H. unfold find_key. destruct (list_find _ l) as [[i [p x]]|] eqn:F; [|done].
  apply list_find_Some in F as (F1 & F2 & _). exfalso. apply (H x); [|done].
  apply list_elem_of_lookup_2 in F1. apply list_elem_of_fmap. by exists (p, x).
Qed.
Lemma find_key_some k l1 p x l2 :
  (forall y, y ∈ l1.*2 -> cmp k y <> 0) -> cmp k x = 0 -> find_key k (l1 ++ (p, x) :: l2) = Some p.
Proof.
  intros H Hx. unfold find_key. assert (list_find (fun x : Z * Z => cmp k x.2 = 0) (l1 ++ (p, x) :: l2) = Some (length l1, (p, x))) as ->; [|done].
  apply list_find_Some. split_and!; [by rewrite lookup_app_r, Nat.sub_diag by lia|done|].
  intros j [q y] Hj Hlt. apply (H y). rewrite lookup_app_l in Hj by done. apply list_elem_of_lookup_2 in Hj.
  apply list_elem_of_fmap. by exists (q, y).
Qed.

(** What the search found. *)
Lemma find_key_empty k c : belongs k c -> find_key k (inorder (plug c E)) = None.
Proof.
  intros [B1 B2]. apply find_key_none. intros x. rewrite plug_split, !fmap_app, !elem_of_app.
  intros [Hx|[Hx|Hx]]; [specialize (B1 x Hx); lia|set_solver|specialize (B2 x Hx); lia].
Qed.
Lemma find_key_node k c p kx l r hh :
  ordered (keys (plug c (T p kx l r hh))) -> belongs k c -> cmp k kx = 0 ->
  find_key k (inorder (plug c (T p kx l r hh))) = Some p.
Proof.
  intros Ho [B1 B2] H0. rewrite plug_split. simpl. rewrite <- app_assoc. simpl. rewrite app_assoc.
  apply find_key_some; [|done]. intros y. rewrite fmap_app, elem_of_app. intros [Hy|Hy]; [specialize (B1 y Hy); lia|].
  rewrite keys_split in Ho. unfold keys in Ho. simpl in Ho. rewrite fmap_app in Ho. simpl in Ho.
  apply ordered_app in Ho as (_ & Ho & _). apply ordered_app in Ho as (Ho & _ & _).
  apply ordered_app in Ho as (_ & _ & Hl). pose proof (cmp_eq_gt cmp k y kx H0 (Hl y kx Hy ltac:(by left))). lia.
Qed.

(** ** Insertion *)

(** Another subtree is stored in the hole. *)
Lemma swap_run {B} s hp c q t' (k : unit -> M B) :
  rep_ctx (heap s) (root s) q c -> rep hp t' -> NoDup (addrs t' ++ ctx_addrs c) ->
  (forall p, p ∈ ctx_addrs c -> hp !! p = heap s !! p) ->
  exists s', (set (place_of c) (ptr t') ≫= k) (mk_st (root s) hp) = k tt s' /\ holds s' c t' /\
    (forall p, p ∉ ctx_addrs c -> heap s' !! p = hp !! p).
Proof.
  intros Hc Hr Hd Hf. pose proof Hd as Hd'. apply NoDup_app in Hd' as (_ & Hdis & Hc').
  destruct (set_run (mk_st (root s) hp) c q (ptr t') k) as (s' & Hs & Hc'' & Hf'); [|done|].
  - simpl. by eapply rep_ctx_frame.
  - exists s'. split; [done|]. simpl in Hf'. split; [|done].
    split_and!; [|done|done]. eapply rep_frame; [done|]. intros p Hp. by apply Hf', Hdis.
Qed.

(** The heap holds an ordered AVL tree at the root. *)
Record search_tree (s : st) (t : tree) : Prop := {
  tr_holds : holds s [] t;
  tr_avl : avl t;
  tr_ordered : ordered (keys t)
}.

Lemma rep_lookup hp t p : rep hp t -> p ∈ addrs t -> is_Some (hp !! p).
Proof.
  induction t as [|q k l IHl r IHr hh]; simpl; [set_solver|]. intros (_ & Hq & H1 & H2) Hp.
  apply elem_of_cons in Hp as [->|Hp]; [by rewrite Hq|]. apply elem_of_app in Hp as [Hp|Hp]; auto.
Qed.

Lemma ordered_insert k c : ordered (keys (plug c E)) -> belongs k c -> ordered ((before c).*2 ++ k :: (after c).*2).
Proof.
  rewrite keys_split. intros Ho [B1 B2]. simpl in Ho. apply ordered_app in Ho as (H1 & H2 & H3).
  apply ordered_app. split_and!; [done|constructor; [done|]|].
  - apply Forall_forall. intros x Hx. by apply B2.
  - intros x y Hx Hy. apply elem_of_cons in Hy as [->|Hy]; [|by apply H3]. apply (cmp_flip cmp). by apply B1.
Qed.

(** A tree with room to spare for the array of places. *)
Lemma descend_root s t k ex size fuel :
  search_tree s t -> Z.of_nat (length (addrs t)) < 2 ^ 64 -> (95 <= size)%nat -> (length ex <= 1)%nat -> (100 <= fuel)%nat ->
  exists t' c', descend cmp fuel size k (ptr t) (Root :: ex) s = Some ((ptr t', places c' ++ ex), s) /\
    plug c' t' = t /\ holds s c' t' /\ belongs k c' /\
    Z.of_nat (length (places c' ++ ex)) + ht t' <= Z.of_nat (length ex) + 92 /\
    (t' = E \/ exists p kx l r hh, t' = T p kx l r hh /\ cmp k kx = 0).
Proof.
  intros [Hh Ha Ho] Hs Hsize Hex Hf. pose proof (avl_height_bound t Ha Hs).
  destruct (descend_ok t s [] k ex size fuel) as (t' & c' & R & E1 & H1 & H2 & H3 & H4);
    [done|done|done|split; set_solver|simpl; lia|lia|].
  exists t', c'. split_and!; try done. cbn [places app length] in H3. lia.
Qed.

(** C13: [tsearch] on an ordered AVL tree of fewer than 2^64 nodes: it
    terminates without touching memory outside the tree and without
    overflowing its array of [MAXH] places; it returns the node whose key is
    equivalent, leaving the tree as it is; else, unless [malloc] fails, it
    returns the new node and leaves an ordered AVL tree with exactly that node
    more, at its place in the order. *)
Theorem tsearch_correct s t k new rootp fuel :
  search_tree s t -> Z.of_nat (length (addrs t)) < 2 ^ 64 -> rootp <> 0 -> heap s !! new = None -> (100 <= fuel)%nat ->
  exists r s' t', tsearch cmp fuel new k rootp s = Some (r, s') /\ search_tree s' t' /\
    (forall p, p ∉ addrs t -> p <> new -> heap s' !! p = heap s !! p) /\
    match find_key k (inorder t) with
    | Some p => r = p /\ s' = s /\ t' = t
    | None => if new =? 0 then r = 0 /\ s' = s /\ t' = t
              else r = new /\ exists l1 l2, inorder t = l1 ++ l2 /\ inorder t' = l1 ++ (new, k) :: l2
    end.
Proof.
  intros Ht Hs Hroot Hnew Hf. unfold tsearch. destruct (Z.eqb_spec rootp 0); [done|].
  rewrite (get_run s [] t) by apply Ht.
  destruct (descend_root s t k [] MAXH fuel) as (t' & c & R & E1 & H1 & H2 & H3 & H4); [done|done|unfold MAXH; lia|simpl; lia|done|].
  rewrite app_nil_r in *. unfold mbind at 1, M_bind at 1. rewrite R. subst t. pose proof (tr_ordered _ _ Ht) as Ho.
  destruct H4 as [->|(p & kx & l & r & hh & -> & H0)].
  - cbn [ptr]. rewrite Z.eqb_refl. cbn [negb]. rewrite find_key_empty by done.
    destruct (Z.eqb_spec new 0) as [->|Hn0]; [by exists 0, s, (plug c E)|].
    rewrite places_up. destruct H1 as (_ & Hc & Hd). simpl in Hd.
    assert (new ∉ ctx_addrs c) as Hnc.
    { intros Hin. assert (is_Some (heap s !! new)) as [? Hx]; [|by rewrite Hnew in Hx].
      apply (rep_lookup _ (plug c E)); [apply Ht|]. rewrite plug_addrs. set_solver. }
    set (hp := <[new := mk_node k 0 0 1]> (heap s)).
    unfold mbind at 1, M_bind at 1, alloc.
    destruct (swap_run (B := Z) s hp c 0 (T new k E E 1) (fun _ => rebalance (up c);; mret new)) as (s1 & R1 & Hh1 & F1).
    + done.
    + split_and!; try done. unfold hp. by simplify_map_eq.
    + simpl. by apply NoDup_cons.
    + intros q Hq. unfold hp. rewrite lookup_insert_ne; [done|]. by intros <-.
    + cbn [ptr] in R1. fold hp. rewrite R1.
      destruct (rebalance_ok s1 c (T new k E E 1) 0 Hh1) as (T' & s' & R2 & Hch & HT'); [simpl; lia| |simpl; lia|].
      { pose proof (tr_avl _ _ Ht) as Ha. by apply avl_plug in Ha as [_ Ha]. }
      unfold mbind, M_bind. rewrite R2. exists new, s', T'. destruct Hch as [D1 D2 D3 D4].
      rewrite plug_split in D2. simpl in D2.
      split_and!; [done|split; [done|done|]| |done|].
      * unfold keys. rewrite D2, fmap_app. simpl. by apply ordered_insert.
      * intros q Hq Hqn. rewrite plug_addrs in Hq. rewrite D4, F1 by (rewrite ?plug_addrs; simpl; set_solver).
        unfold hp. by rewrite lookup_insert_ne by done.
      * exists (before c), (after c). rewrite plug_split. done.
  - pose proof H1 as (Hrep & _). simpl in Hrep. cbn [ptr]. destruct (Z.eqb_spec p 0); [tauto|]. cbn [negb].
    rewrite find_key_node by done. by exists p, s, (plug c (T p kx l r hh)).
Qed.

(** ** Lookup *)

Lemma tfind_loop_ok t : forall s c k fuel,
  holds s c t -> ht t < Z.of_nat fuel -> avl t -> ordered (keys (plug c t)) -> belongs k c ->
  tfind_loop cmp fuel k (ptr t) s = Some (default 0 (find_key k (inorder (plug c t))), s).
Proof.
  induction t as [|p kx l IHl r IHr hh]; intros s c k fuel Hh Hfuel Ht Ho Hb.
  - destruct fuel; [simpl in Hfuel; lia|]. by rewrite find_key_empty.
  - pose proof Ht as (Hl & Hr & Ehh & Hbal). pose proof (avl_ht l Hl) as Hl0. pose proof (avl_ht r Hr) as Hr0.
    destruct fuel as [|fuel]; [simpl in Hfuel; lia|]. cbn [tfind_loop ptr]. pose proof Hh as (Hrep & _).
    simpl in Hrep. destruct Hrep as (Hp & Hlk & _). destruct (Z.eqb_spec p 0); [done|].
    rewrite (deref_run _ _ _ _ Hlk). cbn [key]. destruct (Z.eqb_spec (cmp k kx) 0) as [H0|Hne].
    { by rewrite find_key_node. }
    pose proof (belongs_step k c p kx l r hh Ho Hb Hne) as Hb'. cbn [ht] in *.
    destruct (0 <? cmp k kx); cbn [ch a0 a1].
    + apply (IHr s (mk_frame p kx l true hh :: c)); [by apply holds_fill|lia|done|done|done].
    + apply (IHl s (mk_frame p kx r false hh :: c)); [by apply holds_fill|lia|done|done|done].
Qed.

(** [tfind] returns the node whose key is equivalent, or null, and
    changes nothing. *)
Theorem tfind_correct s t k rootp fuel :
  search_tree s t -> Z.of_nat (length (addrs t)) < 2 ^ 64 -> rootp <> 0 -> (100 <= fuel)%nat ->
  tfind cmp fuel k rootp s = Some (default 0 (find_key k (inorder t)), s).
Proof.
  intros Ht Hs Hroot Hf. unfold tfind. destruct (Z.eqb_spec rootp 0); [done|].
  rewrite (get_run s [] t) by apply Ht. pose proof (avl_height_bound t (tr_avl _ _ Ht) Hs).
  apply (tfind_loop_ok t s []); [apply Ht|lia|apply Ht|apply Ht|split; set_solver].
Qed.

(** ** Deletion *)

Lemma rebalance1_app a q s : rebalance1 (a ++ [q]) s = rebalance a s.
Proof.
  revert s. induction a as [|q' a IH]; intros s; [done|]. cbn [app rebalance1].
  destruct (a ++ [q]) eqn:Ea; [by destruct a|]. cbn [rebalance]. unfold mbind, M_bind.
  destruct (__tsearch_balance q' s) as [[x s']|]; [|done]. destruct (x =? 0); [done|]. apply IH.
Qed.

(** What [tdelete] does at the end: a node with at most one child is freed,
    the child is moved up and the ancestors are balanced. *)
Definition unlink (n child parent : Z) (a : list place) : M Z :=
  free n;;
  match a with
  | q :: a => set q child;; rebalance1 a;; mret parent
  | [] => fail
  end.

Lemma unlink_ok s c p k l r hh sub parent :
  holds s c (T p k l r hh) -> avl (plug c (T p k l r hh)) -> l = E /\ sub = r \/ r = E /\ sub = l ->
  exists t' s', unlink p (ptr sub) parent (places c ++ [Root]) s = Some (parent, s') /\ holds s' [] t' /\ avl t' /\
    inorder t' = before c ++ inorder sub ++ after c /\ addrs (plug c (T p k l r hh)) ≡ₚ p :: addrs t' /\
    heap s' !! p = None /\ (forall q, q ∉ addrs (plug c (T p k l r hh)) -> heap s' !! q = heap s !! q).
Proof.
  intros (Hr & Hc & Hd) Ha Hsub. apply avl_plug in Ha as [(Hl & Hr' & Eh & Hb) Hok]. simpl in Hr.
  destruct Hr as (Hp & Hlk & Rl & Rr). simpl in Hd, Hok.
  assert (Had : addrs l ++ addrs r = addrs sub) by (destruct Hsub as [[-> ->]|[-> ->]]; simpl; by rewrite ?app_nil_r).
  assert (rep (heap s) sub /\ avl sub /\ ht sub <= hh <= ht sub + 1) as (Rs & As & Hh).
  { pose proof (avl_ht l Hl). pose proof (avl_ht r Hr'). destruct Hsub as [[-> ->]|[-> ->]]; simpl in *; split_and!; (done || lia). }
  rewrite Had in Hd. apply NoDup_cons in Hd as [Hnp Hd].
  set (hp := delete p (heap s)).
  assert (Hfr : forall q, q ∈ addrs sub ++ ctx_addrs c -> hp !! q = heap s !! q).
  { intros q Hq. unfold hp. apply lookup_delete_ne. by intros ->. }
  destruct (swap_run (B := Z) s hp c p sub (fun _ => rebalance1 (up c ++ [Root]);; mret parent)) as (s1 & R1 & Hh1 & F1).
  - done.
  - eapply rep_frame; [exact Rs|]. intros q Hq. apply Hfr. set_solver.
  - done.
  - intros q Hq. apply Hfr. set_solver.
  - destruct (rebalance_ok s1 c sub hh Hh1 As Hok) as (t' & s' & R2 & [D1 D2 D3 D4] & At); [lia|].
    exists t', s'. rewrite plug_addrs in D3. rewrite plug_split in D2.
    assert (Hpa : addrs (plug c (T p k l r hh)) ≡ₚ p :: addrs t') by (rewrite plug_addrs; simpl; by rewrite Had, D3).
    split_and!; try done.
    + unfold unlink, free. rewrite places_up. cbn [app]. unfold mbind at 1, M_bind at 1. rewrite Hlk. simpl. fold hp. rewrite R1.
      unfold mbind, M_bind. by rewrite rebalance1_app, R2.
    + rewrite D4, F1; [unfold hp; by simplify_map_eq|set_solver|rewrite plug_addrs; set_solver].
    + intros q Hq. rewrite Hpa in Hq. rewrite D4, F1.
      * unfold hp. apply lookup_delete_ne. intros ->. apply Hq. by left.
      * rewrite D3 in Hq. set_solver.
      * rewrite plug_addrs. rewrite D3 in Hq. set_solver.
Qed.

(** The frames [d] the walk to the rightmost node adds are all entered on the
    right. *)
Definition rights (d : list frame) : Prop := Forall (fun f => f_d f = true) d.

Lemma after_rights d c : rights d -> after (d ++ c) = after c.
Proof. induction 1 as [|f d Hf _ IH]; [done|]. simpl. by rewrite Hf. Qed.

Lemma rightmost_ok p kx l r hh : forall s c ex size fuel,
  holds s c (T p kx l r hh) -> avl (T p kx l r hh) ->
  Z.of_nat (length (places c ++ ex)) + hh <= Z.of_nat size + 1 -> hh <= Z.of_nat fuel ->
  exists d p' k' l' h', rights d /\
    rightmost fuel size p (places c ++ ex) s = Some ((p', places (d ++ c) ++ ex), s) /\
    plug (d ++ c) (T p' k' l' E h') = plug c (T p kx l r hh) /\ holds s (d ++ c) (T p' k' l' E h').
Proof.
  revert p kx l hh. induction r as [|p1 k1 l1 _ r1 IH h1]; intros p kx l hh s c ex size fuel Hh Ha Hs Hf.
  - pose proof Ha as (Hl & _ & Eh & _). pose proof (avl_ht l Hl). pose proof Hh as ((Hp & Hlk & _) & _).
    destruct fuel as [|fuel]; [lia|]. exists [], p, kx, l, hh. split_and!; try done; [by constructor|].
    cbn [rightmost app]. by rewrite (child_run _ _ _ _ _ Hlk).
  - pose proof Ha as (Hl & Hr & Eh & Hb). pose proof (avl_ht l Hl). pose proof (avl_ht _ Hr).
    pose proof Hh as ((Hp & Hlk & _ & (Hp1 & _)) & _). cbn [ht] in *.
    assert (0 < h1) by (destruct Hr as (H1 & H2 & -> & _); pose proof (avl_ht _ H1); lia).
    destruct fuel as [|fuel]; [lia|]. set (f := mk_frame p kx l true hh).
    destruct (IH p1 k1 l1 h1 s (f :: c) ex size fuel) as (d & p' & k' & l' & h' & Hd & R & E1 & Hh').
    + by apply (holds_fill s f c).
    + done.
    + simpl in *. lia.
    + lia.
    + exists (d ++ [f]), p', k', l', h'. rewrite <- app_assoc. cbn [app]. split_and!; [|cbn [rightmost]|done|done].
      * apply Forall_app. split; [done|]. by constructor.
      * rewrite (child_run _ _ _ _ _ Hlk). cbn [ch a1 ptr]. destruct (Z.eqb_spec p1 0); [done|]. unfold push.
        destruct (Nat.ltb_spec (length (places c ++ ex)) size) as [_|]; [done|lia].
Qed.

(** Another key in a frame of the context. *)
Lemma rekey_ok s d p kx k r b hh c t :
  holds s (d ++ mk_frame p kx r b hh :: c) t ->
  exists n, heap s !! p = Some n /\
    holds (mk_st (root s) (<[p := with_key k n]> (heap s))) (d ++ mk_frame p k r b hh :: c) t.
Proof.
  intros (Hr & Hc & Hd).
  assert (exists q, rep_ctx (heap s) (root s) q (mk_frame p kx r b hh :: c)) as (q & Hp & Hlk & _ & _).
  { clear Hd Hr. revert Hc. generalize (ptr t). induction d as [|f d IH]; intros q Hc; [by exists q|]. simpl in Hc. by eapply IH, Hc. }
  cbn [f_p] in *. eexists. split; [exact Hlk|].
  assert (Hsame : forall d', ctx_addrs (d' ++ mk_frame p k r b hh :: c) = ctx_addrs (d' ++ mk_frame p kx r b hh :: c)).
  { intros d'. unfold ctx_addrs. by rewrite !bind_app. }
  split_and!; simpl; [| |by rewrite Hsame].
  - eapply rep_frame; [exact Hr|]. intros x Hx. rewrite lookup_insert_ne; [done|]. intros <-.
    apply NoDup_app in Hd as (_ & Hd & _). apply (Hd _ Hx). unfold ctx_addrs. rewrite bind_app, elem_of_app. right. by left.
  - apply NoDup_app in Hd as (_ & _ & Hd). revert Hc Hd. generalize (ptr t). clear Hr.
    induction d as [|f d IH]; intros x Hc Hd; simpl in Hc |- *; cbn [app] in Hd; rewrite ctx_addrs_cons in Hd.
    + destruct Hc as (_ & Hx & Rs & Hc). rewrite Hlk in Hx. apply NoDup_app in Hd as (Hd1 & Hd2 & _).
      unfold frame_addrs in *. cbn [f_p f_sib] in *. apply NoDup_cons in Hd1 as [Hn _].
      split_and!; [done| | |].
      * rewrite lookup_insert_eq. injection Hx as Hx. unfold frame_node in *. cbn [f_d f_k f_sib f_h] in *. destruct b; by simplify_eq/=.
      * eapply rep_frame; [exact Rs|]. intros y Hy. rewrite lookup_insert_ne; [done|]. by intros <-.
      * eapply rep_ctx_frame; [exact Hc|]. intros y Hy. rewrite lookup_insert_ne; [done|]. intros <-. apply (Hd2 p); [by left|done].
    + destruct Hc as (H0 & Hx & Rs & Hc). apply NoDup_app in Hd as (Hd1 & Hd2 & Hd3).
      assert (p ∈ ctx_addrs (d ++ mk_frame p kx r b hh :: c)) as Hin.
      { unfold ctx_addrs. rewrite bind_app, elem_of_app. right. by left. }
      unfold frame_addrs in *. split_and!; [done| | |by apply IH].
      * rewrite lookup_insert_ne; [done|]. intros ->. by apply (Hd2 (f_p f)); [left|].
      * eapply rep_frame; [exact Rs|]. intros y Hy. rewrite lookup_insert_ne; [done|]. intros <-. by apply (Hd2 p); [right|].
Qed.

Lemma avl_rekey d p kx k r b hh c t :
  avl (plug (d ++ mk_frame p kx r b hh :: c) t) -> avl (plug (d ++ mk_frame p k r b hh :: c) t).
Proof.
  rewrite !avl_plug. intros [Ha Hc]. split; [done|]. revert Hc. generalize (ht t).
  induction d as [|f d IH]; intros x; simpl; [done|]. naive_solver.
Qed.
Lemma before_rekey d p kx k r hh c :
  before (d ++ mk_frame p k r false hh :: c) = before (d ++ mk_frame p kx r false hh :: c).
Proof. induction d as [|f d IH]; simpl; [done|]. by rewrite IH. Qed.
Lemma addrs_rekey d p kx k r b hh c t :
  addrs (plug (d ++ mk_frame p k r b hh :: c) t) ≡ₚ addrs (plug (d ++ mk_frame p kx r b hh :: c) t).
Proof. rewrite !plug_addrs. unfold ctx_addrs. by rewrite !bind_app. Qed.

(** The node in which the search found the key, or its predecessor whose key
    is moved up, is unlinked. *)
Definition remove (fuel : nat) (parent n : Z) (a : list place) : M Z :=
  l ← child n false;
  '(n, child, a) ← (if negb (l =? 0) then
      match push (S MAXH) (Slot n false) a with
      | None => fail
      | Some a =>
          let deleted := n in
          '(n, a) ← rightmost fuel (S MAXH) l a;
          nd ← deref n;
          update deleted (with_key (key nd));;
          mret (n, ch false nd, a)
      end
    else r ← child n true; mret (n, r, a));
  unlink n child parent a.

(** One node less, and of the keys in order the one at the place [kx]. *)
Record removed (s s' : st) (t t' : tree) (kx : Z) : Prop := {
  rm_holds : holds s' [] t';
  rm_avl : avl t';
  rm_keys : exists l1 l2, keys t = l1 ++ kx :: l2 /\ keys t' = l1 ++ l2;
  rm_addrs : exists q, addrs t ≡ₚ q :: addrs t' /\ heap s' !! q = None;
  rm_frame : forall q, q ∉ addrs t -> heap s' !! q = heap s !! q
}.

Lemma remove_ok s c p kx l r hh parent fuel :
  holds s c (T p kx l r hh) -> avl (plug c (T p kx l r hh)) -> (100 <= fuel)%nat ->
  hh <= 91 -> Z.of_nat (length (places c)) + hh <= 92 ->
  exists s' t', remove fuel parent p (places c ++ [Root]) s = Some (parent, s') /\
    removed s s' (plug c (T p kx l r hh)) t' kx.
Proof.
  intros Hh Ha Hf Hhh Hlen. pose proof Hh as ((Hp & Hlk & Rl & _) & _).
  pose proof (proj1 (proj1 (avl_plug _ _) Ha)) as (Al & Ar & Eh & Hb).
  pose proof (avl_ht l Al). pose proof (avl_ht r Ar). unfold remove. rewrite (child_run _ _ _ _ _ Hlk). cbn [ch a0].
  destruct l as [|p1 k1 l1 r1 h1].
  - cbn [ptr Z.eqb negb]. rewrite bind_assoc, (child_run _ _ _ _ _ Hlk), ret_run. cbn [ch a1].
    destruct (unlink_ok s c p kx E r hh r parent Hh Ha) as (t' & s' & R & Hh' & At & Hi & Hpa & Hq & Hfr); [by left|].
    exists s', t'. split; [done|]. split; [done|done| |by exists p|done].
    exists (before c).*2, (keys r ++ (after c).*2). rewrite keys_split. split; [done|].
    unfold keys at 1. by rewrite Hi, !fmap_app.
  - cbn [ptr]. simpl in Rl. destruct (Z.eqb_spec p1 0) as [|_]; [tauto|]. cbn [negb]. unfold push.
    rewrite length_app in *. cbn [length ht] in *.
    destruct (Nat.ltb_spec (length (places c) + 1) (S MAXH)) as [_|]; [|unfold MAXH in *; lia].
    set (f := mk_frame p kx r false hh).
    destruct (rightmost_ok p1 k1 l1 r1 h1 s (f :: c) [Root] (S MAXH) fuel) as (d & p' & k' & l' & h' & Hd & R & E1 & Hh').
    + by apply (holds_fill s f c).
    + done.
    + rewrite length_app, length_places. rewrite length_places in Hlen. cbn [length]. unfold MAXH. lia.
    + lia.
    + change (plug (f :: c) (T p1 k1 l1 r1 h1)) with (plug c (fill f (T p1 k1 l1 r1 h1))) in E1.
      change (fill f (T p1 k1 l1 r1 h1)) with (T p kx (T p1 k1 l1 r1 h1) r hh) in E1.
      cbn [places app place_of f f_p f_d] in R. rewrite bind_assoc. unfold mbind at 1, M_bind at 1. rewrite R.
      pose proof Hh' as ((_ & Hlk' & _) & _).
      rewrite bind_assoc, (deref_run _ _ _ _ Hlk'). cbn [key ch a0].
      destruct (rekey_ok s d p kx k' r false hh c _ Hh') as (n & Hn & Hh2).
      rewrite bind_assoc, (update_run _ _ _ _ _ Hn), ret_run.
      set (s2 := mk_st (root s) (<[p := with_key k' n]> (heap s))) in *.
      assert (Ha' : avl (plug (d ++ mk_frame p k' r false hh :: c) (T p' k' l' E h'))).
      { apply (avl_rekey d p kx). fold f. by rewrite E1. }
      destruct (unlink_ok s2 _ p' k' l' E h' l' parent Hh2 Ha') as (t' & s' & R' & Ht' & At & Hi & Hpa & Hq & Hfr); [by right|].
      exists s', t'. rewrite <- E1. rewrite (addrs_rekey d p kx) in Hpa. fold f in Hpa.
      assert (Hpl : places (d ++ mk_frame p k' r false hh :: c) = places (d ++ f :: c)).
      { clear. induction d as [|g d IH]; simpl; [done|]. by rewrite IH. }
      rewrite Hpl in R'. split; [done|]. split; [done|done| |by exists p'|].
      * exists ((before (d ++ f :: c)).*2 ++ keys l' ++ [k']), (keys r ++ (after c).*2).
        assert (keys t' = (inorder t').*2) as -> by done. rewrite keys_split, Hi, !(after_rights d) by done.
        unfold f. rewrite (before_rekey d p kx k'), !fmap_app. simpl. unfold keys. rewrite !fmap_app. simpl.
        by rewrite !fmap_app, <- !app_assoc.
      * intros q Hq'. rewrite Hfr; [|by rewrite (addrs_rekey d p kx)]. unfold s2. cbn [heap].
        rewrite lookup_insert_ne; [done|]. intros <-. apply Hq'. rewrite E1, plug_addrs. simpl. set_solver.
Qed.

Lemma bind_run {A B} (c : M A) (k : A -> M B) s x s' : c s = Some (x, s') -> (c ≫= k) s = k x s'.
Proof. intros H. unfold mbind, M_bind. by rewrite H. Qed.

(** The node above the hole; the hole's own node at the root. *)
Definition parent_ptr (p : Z) (c : list frame) : Z := match c with [] => p | f :: _ => f_p f end.

Lemma parent_run {B} s c t (k : Z -> M B) :
  holds s c t ->
  ((match places c ++ [Root] with _ :: q :: _ => get q | _ => fail end) ≫= k) s = k (parent_ptr (ptr t) c) s.
Proof.
  intros Hh. destruct c as [|f c].
  - apply (get_run s [] t k Hh).
  - cbn [places app]. rewrite places_up. cbn [app]. apply holds_fill in Hh.
    rewrite (get_run s c _ k Hh). by rewrite ptr_fill.
Qed.

Lemma tdelete_unfold fuel k rootp s :
  rootp <> 0 ->
  tdelete cmp fuel k rootp s =
  (n ← get Root; '(n, a) ← descend cmp fuel (S MAXH) k n [Root; Root];
   if n =? 0 then mret 0 else
   parent ← (match a with _ :: q :: _ => get q | _ => fail end); remove fuel parent n a) s.
Proof. intros H. unfold tdelete. by destruct (Z.eqb_spec rootp 0). Qed.

Lemma ordered_removed l1 kx l2 : ordered (l1 ++ kx :: l2) -> ordered (l1 ++ l2).
Proof.
  rewrite !ordered_app. intros (H1 & H2 & H3). apply StronglySorted_inv in H2 as [H2 _].
  split_and!; [done|done|]. intros x y Hx Hy. apply H3; [done|by right].
Qed.

(** The pointer is to the node that has [p] as a child, or to the root when
    [p] is the root. *)
Definition is_parent (s : st) (t : tree) (p parent : Z) : Prop :=
  p = ptr t /\ parent = p \/ exists n d, heap s !! parent = Some n /\ ch d n = p.

Lemma parent_ptr_ok s c t : holds s c t -> is_parent s (plug c t) (ptr t) (parent_ptr (ptr t) c).
Proof.
  intros (_ & Hc & _). destruct c as [|f c]; [by left|]. right. simpl in Hc. destruct Hc as (_ & H & _).
  exists (frame_node f (ptr t)), (f_d f). split; [done|]. unfold frame_node. by destruct (f_d f).
Qed.

(** C14: [tdelete] on an ordered AVL tree of fewer than 2^64 nodes: it
    terminates without touching memory outside the tree and without
    overflowing its array of [MAXH+1] places; without an equivalent key it
    returns null and changes nothing; else the keys in order are left with
    that key removed, in an ordered AVL tree on the same nodes without one,
    which is freed, and the result is the parent of the node that had the
    key (the root itself when that was the root). *)
Theorem tdelete_correct s t k rootp fuel :
  search_tree s t -> Z.of_nat (length (addrs t)) < 2 ^ 64 -> rootp <> 0 -> (100 <= fuel)%nat ->
  match find_key k (inorder t) with
  | None => tdelete cmp fuel k rootp s = Some (0, s)
  | Some p => exists parent s' t' kx, tdelete cmp fuel k rootp s = Some (parent, s') /\ search_tree s' t' /\
      cmp k kx = 0 /\ removed s s' t t' kx /\ is_parent s t p parent
  end.
Proof.
  intros Ht Hs Hroot Hf. rewrite tdelete_unfold by done. rewrite (get_run s [] t) by apply Ht.
  pose proof (avl_height_bound t (tr_avl _ _ Ht) Hs) as Hb.
  destruct (descend_root s t k [Root] (S MAXH) fuel) as (t' & c & R & E1 & H1 & H2 & H3 & H4);
    [done|done|unfold MAXH; lia|simpl; lia|done|].
  rewrite (bind_run _ _ _ _ _ R). subst t. pose proof (tr_ordered _ _ Ht) as Ho. rewrite length_app in H3. cbn [length] in H3.
  destruct H4 as [->|(p & kx & l & r & hh & -> & H0)].
  - cbn [ptr]. rewrite find_key_empty by done. done.
  - pose proof H1 as ((Hp & _) & _). cbn [ptr]. destruct (Z.eqb_spec p 0); [done|].
    rewrite find_key_node by done. rewrite (parent_run s c _ _ H1). cbn [ptr ht] in *.
    destruct (remove_ok s c p kx l r hh (parent_ptr p c) fuel H1 (tr_avl _ _ Ht) Hf) as (s' & t' & R' & Hrm).
    + rewrite length_places in H3. lia.
    + lia.
    + exists (parent_ptr p c), s', t', kx. split_and!; [done| |done|done|by apply (parent_ptr_ok s c)].
      pose proof Hrm as [Q1 Q2 (l1 & l2 & Q3 & Q4) _ _]. split; [done|done|].
      rewrite Q4. eapply ordered_removed. by rewrite <- Q3.
Qed.
End order.

(** ** Traversal and destruction *)

Fixpoint postorder_nodes (t : tree) : list (Z * Z) :=
  match t with E => [] | T p k l r _ => postorder_nodes l ++ postorder_nodes r ++ [(p, k)] end.

(** The nodes [action] is called with, for the calls of one kind. *)
Definition visited (kind : VISIT -> bool) (ev : list (Z * VISIT * Z)) : list Z :=
  (filter (fun e => Is_true (kind e.1.2)) ev).*1.*1.
Definition visit_pre (v : VISIT) : bool := match v with Avl.preorder | leaf => true | _ => false end.
Definition visit_in (v : VISIT) : bool := match v with postorder | leaf => true | _ => false end.
Definition visit_post (v : VISIT) : bool := match v with endorder | leaf => true | _ => false end.

Lemma visited_app kind e1 e2 : visited kind (e1 ++ e2) = visited kind e1 ++ visited kind e2.
Proof. unfold visited. by rewrite filter_app, !fmap_app. Qed.

Lemma ht_zero t : avl t -> ht t = 0 -> t = E.
Proof.
  destruct t as [|p k l r hh]; [done|]. simpl. intros (Hl & Hr & -> & _). pose proof (avl_ht l Hl). lia.
Qed.

Lemma walk_ok t : forall s d fuel, rep (heap s) t -> avl t -> ht t < Z.of_nat fuel ->
  exists ev, walk fuel (ptr t) d s = Some (ev, s) /\ visited visit_pre ev = addrs t /\
    visited visit_in ev = (inorder t).*1 /\ visited visit_post ev = (postorder_nodes t).*1.
Proof.
  induction t as [|p k l IHl r IHr hh]; intros s d fuel Hr Ha Hf.
  - destruct fuel; [simpl in Hf; lia|]. by exists [].
  - pose proof Ha as (Al & Ar & Eh & Hb). simpl in Hr. destruct Hr as (Hp & Hlk & Rl & Rr).
    pose proof (avl_ht l Al). pose proof (avl_ht r Ar). destruct fuel as [|fuel]; [simpl in Hf; lia|].
    cbn [walk ptr ht] in *. destruct (Z.eqb_spec p 0); [done|]. rewrite (deref_run _ _ _ _ Hlk). cbn [h ch a0 a1].
    destruct (Z.eqb_spec hh 1) as [Hone|Hmore].
    + rewrite (ht_zero l Al), (ht_zero r Ar) by lia. by exists [(p, leaf, d)].
    + destruct (IHl s (d + 1) fuel) as (el & Wl & L1 & L2 & L3); [done|done|lia|].
      destruct (IHr s (d + 1) fuel) as (er & Wr & R1 & R2 & R3); [done|done|lia|].
      rewrite (bind_run _ _ _ _ _ Wl), (bind_run _ _ _ _ _ Wr). eexists. split; [done|].
      rewrite !visited_app, L1, L2, L3, R1, R2, R3. simpl. rewrite !fmap_app. simpl. by rewrite !app_nil_r.
Qed.

(** [twalk] on an AVL tree in memory calls [action] for its nodes in order
    as postorder or leaf, in preorder as preorder or leaf, in postorder as
    endorder or leaf, and changes nothing. *)
Theorem twalk_correct s t fuel :
  holds s [] t -> avl t -> Z.of_nat (length (addrs t)) < 2 ^ 64 -> (100 <= fuel)%nat ->
  exists ev, twalk fuel (ptr t) s = Some (ev, s) /\ visited visit_in ev = (inorder t).*1 /\
    visited visit_pre ev = addrs t /\ visited visit_post ev = (postorder_nodes t).*1.
Proof.
  intros (Hr & _) Ha Hs Hf. pose proof (avl_height_bound t Ha Hs).
  destruct (walk_ok t s 0 fuel Hr Ha) as (ev & R & H1 & H2 & H3); [lia|]. by exists ev.
Qed.

Lemma tdestroy_ok t : forall s freekey fuel, rep (heap s) t -> NoDup (addrs t) -> avl t -> ht t < Z.of_nat fuel ->
  exists s', tdestroy fuel freekey (ptr t) s = Some (if freekey then (postorder_nodes t).*2 else [], s') /\
    root s' = root s /\ forall p, heap s' !! p = if decide (p ∈ addrs t) then None else heap s !! p.
Proof.
  induction t as [|p k l IHl r IHr hh]; intros s freekey fuel Hr Hd Ha Hf.
  - destruct fuel; [simpl in Hf; lia|]. exists s. simpl. by destruct freekey.
  - pose proof Ha as (Al & Ar & Eh & Hb). simpl in Hr. destruct Hr as (Hp & Hlk & Rl & Rr).
    pose proof (avl_ht l Al). pose proof (avl_ht r Ar). destruct fuel as [|fuel]; [simpl in Hf; lia|].
    cbn [ht addrs] in *. apply NoDup_cons in Hd as [Hn Hd]. apply NoDup_app in Hd as (Hdl & Hdis & Hdr).
    cbn [tdestroy ptr]. destruct (Z.eqb_spec p 0); [done|]. rewrite (child_run _ _ _ _ _ Hlk). cbn [ch a0].
    destruct (IHl s freekey fuel) as (s1 & D1 & E1 & F1); [done|done|done|lia|]. rewrite (bind_run _ _ _ _ _ D1).
    assert (Hlk1 : heap s1 !! p = Some (mk_node k (ptr l) (ptr r) hh)).
    { rewrite F1. rewrite decide_False by set_solver. done. }
    rewrite (child_run _ _ _ _ _ Hlk1). cbn [ch a1].
    destruct (IHr s1 freekey fuel) as (s2 & D2 & E2 & F2); [|done|done|lia|].
    { eapply rep_frame; [exact Rr|]. intros q Hq. rewrite F1, decide_False; [done|]. intros Hq'. by apply (Hdis q). }
    rewrite (bind_run _ _ _ _ _ D2).
    assert (Hlk2 : heap s2 !! p = Some (mk_node k (ptr l) (ptr r) hh)).
    { rewrite F2. rewrite decide_False by set_solver. done. }
    rewrite (deref_run _ _ _ _ Hlk2). eexists. split_and!.
    + unfold free, mbind, M_bind, mret, M_ret. rewrite Hlk2. cbn [key]. destruct freekey; [|done].
      cbn [postorder_nodes]. by rewrite !fmap_app.
    + simpl. by rewrite E2.
    + intros q. cbn [heap]. destruct (decide (q = p)) as [->|Hqp].
      * rewrite lookup_delete_eq, decide_True by set_solver. done.
      * rewrite lookup_delete_ne, F2, F1 by done.
        repeat case_decide; set_solver.
Qed.

(** [tdestroy] frees exactly the nodes of the tree, each once, and hands
    every key to [freekey] once, children before their parent. *)
Theorem tdestroy_correct s t freekey fuel :
  holds s [] t -> avl t -> Z.of_nat (length (addrs t)) < 2 ^ 64 -> (100 <= fuel)%nat ->
  exists s', tdestroy fuel freekey (ptr t) s = Some (if freekey then (postorder_nodes t).*2 else [], s') /\
    forall p, heap s' !! p = if decide (p ∈ addrs t) then None else heap s !! p.
Proof.
  intros (Hr & _ & Hd) Ha Hs Hf. pose proof (avl_height_bound t Ha Hs). rewrite app_nil_r in Hd.
  destruct (tdestroy_ok t s freekey fuel Hr Hd Ha) as (s' & R & _ & H1); [lia|]. by exists s'.
Qed.

(** ** A tree of integers *)

#[global] Instance sub_order : CmpOrder Z.sub.
Proof. split; intros; lia. Qed.

Definition demo_tree : tree := T 10 5 (T 20 3 E E 1) (T 30 8 E E 1) 2.
Definition demo_st : st :=
  mk_st 10 (<[10 := mk_node 5 20 30 2]> (<[20 := mk_node 3 0 0 1]> (<[30 := mk_node 8 0 0 1]> ∅))).

Lemma demo_search_tree : search_tree Z.sub demo_st demo_tree.
Proof.
  split.
  - split_and!; try done. simpl. repeat (apply NoDup_cons; split; [set_solver|]). apply NoDup_nil_2.
  - simpl. split_and!; (done || lia).
  - unfold ordered. simpl. repeat (constructor; unfold lt; try lia).
Qed.

Lemma tsearch_witness :
  exists r s' t', tsearch Z.sub 100 40 6 1 demo_st = Some (r, s') /\ search_tree Z.sub s' t' /\ r = 40 /\
    exists l1 l2, inorder demo_tree = l1 ++ l2 /\ inorder t' = l1 ++ (40, 6) :: l2.
Proof.
  destruct (tsearch_correct Z.sub demo_st demo_tree 6 40 1 100 demo_search_tree ltac:(done) ltac:(done) ltac:(done) ltac:(lia))
    as (r & s' & t' & H1 & H2 & _ & H3).
  exists r, s', t'. exact (conj H1 (conj H2 H3)).
Defined.

Lemma tfind_witness : tfind Z.sub 100 8 1 demo_st = Some (30, demo_st).
Proof. exact (tfind_correct Z.sub demo_st demo_tree 8 1 100 demo_search_tree ltac:(done) ltac:(done) ltac:(lia)). Defined.

Lemma tdelete_witness :
  exists parent s' t' kx, tdelete Z.sub 100 5 1 demo_st = Some (parent, s') /\ search_tree Z.sub s' t' /\
    5 - kx = 0 /\ removed demo_st s' demo_tree t' kx /\ is_parent demo_st demo_tree 10 parent.
Proof. exact (tdelete_correct Z.sub demo_st demo_tree 5 1 100 demo_search_tree ltac:(done) ltac:(done) ltac:(lia)). Defined.

Lemma twalk_witness :
  exists ev, twalk 100 10 demo_st = Some (ev, demo_st) /\ visited visit_in ev = [20; 10; 30] /\
    visited visit_pre ev = [10; 20; 30] /\ visited visit_post ev = [20; 30; 10].
Proof.
  exact (twalk_correct demo_st demo_tree 100 (tr_holds _ _ _ demo_search_tree) (tr_avl _ _ _ demo_search_tree) ltac:(done) ltac:(lia)).
Defined.

Lemma tdestroy_witness :
  exists s', tdestroy 100 true 10 demo_st = Some ([3; 8; 5], s') /\
    forall p, heap s' !! p = if decide (p ∈ [10; 20; 30]) then None else heap demo_st !! p.
Proof.
  exact (tdestroy_correct demo_st demo_tree true 100 (tr_holds _ _ _ demo_search_tree) (tr_avl _ _ _ demo_search_tree) ltac:(done) ltac:(lia)).
Defined.
