(* ===== verification/Hsearch.v ===== *)
(** * Hsearch: the hash table of hcreate, hsearch and hdestroy

    Definitions for M/search/hsearch.c.  The table is an array of entries
    whose size is a power of two; a key is a pointer to a string the caller
    keeps in memory, and the null pointer marks a free entry.  Reading a key
    goes through the memory of [CMem], so that hashing and comparing keys
    ([strcmp] of M/string) have the accesses of the C code.  The allocator
    is the argument [ok] of the operations that allocate: whether it has
    the memory asked for. *)

From S2P Require Import Prelude CMem StrScan StrTok.
From stdpp Require Import base tactics numbers list gmap.

Open Scope Z_scope.

Record ENTRY := mk_entry { key : Z; data : Z }.
#[export] Instance ENTRY_eq_dec : EqDecision ENTRY.
Proof. solve_decision. Defined.

Inductive ACTION := FIND | ENTER.

(** [struct __tab]; [entries] is [None] before the array is allocated. *)
Record tab := mk_tab { entries : option (list ENTRY); mask : Z; used : Z }.

Definition MINSIZE : Z := 8.
Definition MAXSIZE : Z := (2 ^ 64 - 1) / 2 + 1.

Definition keyhash (fuel : nat) (k : Z) : C Z :=
  loop fuel (fun '(p, h) =>
    b ← load8 p;
    mret (if truth b then inl (p + 1, wrap64 (31 * h + b)) else inr h)) (k, 0).

(** [entries + (i & mask)]: the index of the entry and what it holds. *)
Definition slot (t : tab) (i : Z) : C (nat * ENTRY) :=
  match entries t with
  | Some es =>
      let n := Z.to_nat (Z.land i (mask t)) in
      match es !! n with Some e => mret (n, e) | None => undef end
  | None => undef
  end.

(** [for (i=hash,j=1; ; i+=j++)] until [stop] holds of the entry. *)
Definition probe (fuel : nat) (t : tab) (stop : ENTRY -> C bool) (hash : Z) : C nat :=
  loop fuel (fun '(i, j) =>
    ne ← slot t i;
    b ← stop ne.2;
    mret (if b : bool then inr ne.1 else inl (wrap64 (i + j), wrap64 (j + 1)))) (hash, 1).

Definition lookup (fuel : nat) (k hash : Z) (t : tab) : C nat :=
  probe fuel t (fun e =>
    if key e =? 0 then mret true else r ← strcmp fuel (key e) k; mret (r =? 0)) hash.

(** [calloc]: null when the size overflows or the allocator has no memory. *)
Definition calloc (ok : bool) (n size : Z) : option (list ENTRY) :=
  if ok && (n * size <? 2 ^ 64) then Some (replicate (Z.to_nat n) (mk_entry 0 0)) else None.

Definition set_entry (t : tab) (n : nat) (e : ENTRY) : tab :=
  mk_tab (<[n := e]> <$> entries t) (mask t) (used t).

(** The loop of [resize] over the old entries. *)
Fixpoint rehash (fuel : nat) (old : list ENTRY) (t : tab) : C tab :=
  match old with
  | [] => mret t
  | e :: old =>
      if key e =? 0 then rehash fuel old t
      else
        h ← keyhash fuel (key e);
        n ← probe fuel t (fun e' => mret (key e' =? 0)) h;
        rehash fuel old (set_entry t n e)
  end.

Definition resize (fuel : nat) (ok : bool) (nel : Z) (t : tab) : C (Z * tab) :=
  let oldsize := wrap64 (mask t + 1) in
  let oldtab := entries t in
  let nel := if MAXSIZE <? nel then MAXSIZE else nel in
  newsize ← loop 64 (fun s => mret (if s <? nel then inl (wrap64 (s * 2)) else inr s)) MINSIZE;
  match calloc ok newsize 16 with
  | None => mret (0, t)
  | Some es =>
      let t' := mk_tab (Some es) (newsize - 1) (used t) in
      match oldtab with
      | None => mret (1, t')
      | Some old =>
          if Z.of_nat (length old) <? oldsize then undef
          else t'' ← rehash fuel (take (Z.to_nat oldsize) old) t'; mret (1, t'')
      end
  end.

(** [__hcreate_r]: [ok] is for the header, [ok'] for the array. *)
Definition __hcreate_r (fuel : nat) (ok ok' : bool) (nel : Z) : C (Z * option tab) :=
  if ok then
    rt ← resize fuel ok' nel (mk_tab None 0 0);
    mret (if rt.1 =? 0 then (rt.1, None) else (rt.1, Some rt.2))
  else mret (0, None).

Definition __hdestroy_r (htab : option tab) : option tab := None.

(** The part of [__hsearch_r] that enters the item at a free slot: the return
    value, [*retval] as an index into the entries (null is [None]) and the
    table. *)
Definition enter (fuel : nat) (ok : bool) (item : ENTRY) (hash : Z) (n : nat) (t : tab) : C (Z * option nat * tab) :=
  let t := set_entry t n item in
  let t := mk_tab (entries t) (mask t) (wrap64 (used t + 1)) in
  if used t >? wrap64 (mask t - mask t / 4) then
    rt ← resize fuel ok (wrap64 (2 * used t)) t;
    let t := rt.2 in
    if rt.1 =? 0 then
      mret (0, None, set_entry (mk_tab (entries t) (mask t) (wrap64 (used t - 1))) n (mk_entry 0 (data item)))
    else
      n ← lookup fuel (key item) hash t;
      mret (1, Some n, t)
  else mret (1, Some n, t).

Definition __hsearch_r (fuel : nat) (ok : bool) (item : ENTRY) (action : ACTION) (t : tab) :
    C (Z * option nat * tab) :=
  hash ← keyhash fuel (key item);
  n ← lookup fuel (key item) hash t;
  match entries t ≫= (.!! n) with
  | None => undef
  | Some e =>
      if negb (key e =? 0) then mret (1, Some n, t)
      else match action with
      | FIND => mret (0, None, t)
      | ENTER => enter fuel ok item hash n t
      end
  end.

(** The interface on the static table: [hsearch] of a table that was not
    created dereferences a null pointer. *)
Definition hcreate := __hcreate_r.
Definition hdestroy := __hdestroy_r.
Definition hsearch (fuel : nat) (ok : bool) (item : ENTRY) (action : ACTION) (htab : option tab) :
    C (option nat * option tab) :=
  match htab with
  | None => undef
  | Some t => r ← __hsearch_r fuel ok item action t; mret (r.1.2, Some r.2)
  end.
