(* ===== verification/HsearchProofs.v ===== *)
(** * HsearchProofs: the hash table implements a finite map

    Probing visits [hash], [hash+1], [hash+3], [hash+6], ... modulo a power of
    two.  The first section shows that this sequence meets every slot, so
    that a search ends as soon as one entry is free; the second states the
    invariant of the table, and the rest shows that searching, inserting and
    growing the table are those operations on a finite map from strings. *)

From Stdlib Require Import Znumtheory Zpow_facts.
From stdpp Require Import base tactics numbers list gmap.
From S2P Require Import Prelude CMem StrScan StrTok Hsearch.

Open Scope Z_scope.

(** ** The probe sequence *)

Definition tri (n : nat) : Z := Z.of_nat (n * (n + 1) / 2).
Definition pos (k h : Z) (n : nat) : nat := Z.to_nat ((h + tri n) `mod` 2 ^ k).

Lemma tri_double n : 2 * tri n = Z.of_nat n * (Z.of_nat n + 1).
Proof.
  unfold tri. enough (2 * (n * (n + 1) / 2) = n * (n + 1))%nat by lia.
  destruct (Nat.Even_or_Odd n) as [[m ->]|[m ->]].
  - replace (2 * m * (2 * m + 1))%nat with (m * (2 * m + 1) * 2)%nat by lia. rewrite Nat.div_mul; lia.
  - replace ((2 * m + 1) * (2 * m + 1 + 1))%nat with ((2 * m + 1) * (m + 1) * 2)%nat by lia. rewrite Nat.div_mul; lia.
Qed.

Lemma tri_S n : tri (S n) = tri n + Z.of_nat (S n).
Proof. pose proof (tri_double n). pose proof (tri_double (S n)). nia. Qed.

Lemma odd_factor k a b : 0 <= k -> 0 < a -> 0 < b < 2 ^ k -> Z.Odd a -> ~ (2 ^ k | a * b).
Proof.
  intros Hk Ha Hb [c Hc] Hd. apply Gauss in Hd.
  - apply Z.divide_pos_le in Hd; lia.
  - apply rel_prime_sym, rel_prime_Zpower_r; [lia|]. apply rel_prime_sym, prime_rel_prime; [apply prime_2|].
    intros [d Hd']. lia.
Qed.

Lemma pos_lt k h n : 0 <= k -> Z.of_nat (pos k h n) < 2 ^ k.
Proof. intros. unfold pos. pose proof (Z.mod_pos_bound (h + tri n) (2 ^ k)). lia. Qed.

Lemma pos_inj k h n1 n2 : 0 <= k -> (n1 < n2)%nat -> Z.of_nat n2 < 2 ^ k -> pos k h n1 <> pos k h n2.
Proof.
  intros Hk Hn H2 He. assert (0 < 2 ^ k) by (apply Z.pow_pos_nonneg; lia).
  assert ((h + tri n1) `mod` 2 ^ k = (h + tri n2) `mod` 2 ^ k) as Hm.
  { unfold pos in He. pose proof (Z.mod_pos_bound (h + tri n1) (2 ^ k)).
    pose proof (Z.mod_pos_bound (h + tri n2) (2 ^ k)). lia. }
  assert (2 ^ k | tri n2 - tri n1) as [d Hd].
  { exists ((h + tri n2) / 2 ^ k - (h + tri n1) / 2 ^ k).
    pose proof (Z.div_mod (h + tri n1) (2 ^ k)). pose proof (Z.div_mod (h + tri n2) (2 ^ k)). nia. }
  set (a := Z.of_nat n2 - Z.of_nat n1). set (b := Z.of_nat n2 + Z.of_nat n1 + 1).
  assert (2 ^ (k + 1) = 2 * 2 ^ k) as E by (rewrite Z.pow_add_r; lia).
  assert (2 ^ (k + 1) | a * b) as Hdiv.
  { exists d. pose proof (tri_double n1). pose proof (tri_double n2). unfold a, b. nia. }
  destruct (Z.Even_or_Odd a) as [[c Hc]|Ho].
  - rewrite Z.mul_comm in Hdiv. revert Hdiv. apply odd_factor; [lia|unfold b; lia|unfold a; lia|].
    exists (c + Z.of_nat n1). unfold a, b in *. lia.
  - revert Hdiv. apply odd_factor; [lia|unfold a; lia|unfold b; lia|done].
Qed.

(** Every slot is met within as many probes as there are slots. *)
Lemma pos_surj k h s : 0 <= k -> Z.of_nat s < 2 ^ k -> exists n, Z.of_nat n < 2 ^ k /\ pos k h n = s.
Proof.
  intros Hk Hs. set (N := Z.to_nat (2 ^ k)).
  assert (incl (seq 0 N) (pos k h <$> seq 0 N)) as Hi.
  { apply NoDup_length_incl.
    - apply NoDup_ListNoDup, NoDup_fmap_2_strong; [|apply NoDup_seq].
      intros x y Hx Hy He. apply elem_of_seq in Hx, Hy. destruct (Nat.lt_total x y) as [?|[->|?]]; [|done|].
      + exfalso. apply (pos_inj k h x y); (done || lia).
      + exfalso. apply (pos_inj k h y x); (done || lia).
    - rewrite length_fmap. lia.
    - intros x Hx. apply list_elem_of_In, list_elem_of_fmap in Hx as (y & -> & Hy). apply in_seq.
      pose proof (pos_lt k h y Hk). lia. }
  assert (s ∈ pos k h <$> seq 0 N) as Hin.
  { apply list_elem_of_In, Hi, in_seq. lia. }
  apply list_elem_of_fmap in Hin as (n & -> & Hn). apply elem_of_seq in Hn. exists n. split; [lia|done].
Qed.

Lemma least (P : nat -> Prop) `{!forall n, Decision (P n)} n :
  P n -> exists n0, (n0 <= n)%nat /\ P n0 /\ forall j, (j < n0)%nat -> ~ P j.
Proof.
  induction n as [n IH] using lt_wf_ind. intros Hn.
  destruct (decide (Exists P (seq 0 n))) as [He|He].
  - apply Exists_exists in He as (j & Hj & HP). apply elem_of_seq in Hj.
    destruct (IH j) as (n0 & ? & ? & ?); [lia|done|]. exists n0. split; [lia|done].
  - exists n. split_and!; [done|done|]. intros j Hj HP. apply He, Exists_exists. exists j. split; [|done].
    apply elem_of_seq. lia.
Qed.

(** An array of [2 ^ k] entries behind the table. *)
Record array (t : tab) (k : Z) (es : list ENTRY) : Prop := {
  ar_k : 0 <= k <= 63;
  ar_entries : entries t = Some es;
  ar_mask : mask t = 2 ^ k - 1;
  ar_len : lenZ es = 2 ^ k
}.

Lemma wrap64_mod k z : 0 <= k <= 64 -> wrap64 z `mod` 2 ^ k = z `mod` 2 ^ k.
Proof.
  intros Hk. unfold wrap. replace (2 ^ 64) with (2 ^ (64 - k) * 2 ^ k) by (rewrite <- Z.pow_add_r by lia; f_equal; lia).
  rewrite Z.mul_comm. rewrite Z.rem_mul_r by (apply Z.pow_nonzero || apply Z.pow_pos_nonneg; lia).
  rewrite Z.mul_comm, Z_mod_plus_full. apply Z.mod_mod. apply Z.pow_nonzero; lia.
Qed.

(** Probing stops at the first entry of the probe sequence that satisfies
    the condition. *)
Lemma wp_probe t k es m stop (P : ENTRY -> bool) h n0 e0 fuel (Q : nat -> memory -> Prop) :
  array t k es -> (forall e, e ∈ es -> wp (stop e) m (fun b m' => m' = m /\ b = P e)) ->
  Z.of_nat n0 < 2 ^ k -> es !! pos k h n0 = Some e0 -> P e0 = true ->
  (forall j e, (j < n0)%nat -> es !! pos k h j = Some e -> P e = false) ->
  2 ^ k < Z.of_nat fuel -> Q (pos k h n0) m -> wp (probe fuel t stop h) m Q.
Proof.
  intros [Hk He Hm Hlen] Hstop Hn0 Hs HP Hlt Hf HQ. unfold probe.
  apply (wp_loop (fun ij m' => m' = m /\ exists n, (n <= n0)%nat /\ ij.1 `mod` 2 ^ 64 = (h + tri n) `mod` 2 ^ 64 /\ ij.2 = Z.of_nat n + 1)
    (fun ij => (n0 - Z.to_nat (ij.2 - 1))%nat)).
  2: { split; [done|]. exists 0%nat. split_and!; [lia| |done]. simpl. f_equal. unfold tri. simpl. lia. }
  2: { simpl. lia. }
  intros [i j] m' (-> & n & Hn & Hi & Hj). simpl in Hi, Hj. subst j.
  assert (0 < 2 ^ k <= 2 ^ 63) as Hpk by (split; [apply Z.pow_pos_nonneg|apply Z.pow_le_mono_r]; lia).
  assert (Z.to_nat (Z.land i (mask t)) = pos k h n) as Hpos.
  { rewrite Hm. unfold pos. f_equal. rewrite Z.sub_1_r, <- Z.ones_equiv, Z.land_ones by lia.
    rewrite <- (wrap64_mod k i), <- (wrap64_mod k (h + tri n)) by lia. unfold wrap. by rewrite Hi. }
  destruct (lookup_lt_is_Some_2 es (pos k h n)) as [e Hes]; [pose proof (pos_lt k h n); lia|].
  apply wp_bind. unfold slot. rewrite He. cbv zeta. rewrite Hpos, Hes. apply wp_ret. simpl.
  apply wp_bind. eapply wp_mono; [apply Hstop; by eapply list_elem_of_lookup_2|].
  intros b m' [-> ->]. apply wp_ret.
  destruct (decide (n = n0)) as [->|Hne].
  - rewrite Hs in Hes. injection Hes as <-. by rewrite HP.
  - rewrite (Hlt n e) by (done || lia). split; [|simpl; unfold wrap; rewrite Z.mod_small; lia].
    split; [done|]. exists (S n). split_and!; [lia| |simpl; unfold wrap; rewrite Z.mod_small; lia].
    simpl. rewrite tri_S. unfold wrap. rewrite Z.mod_mod by lia. rewrite <- Z.add_mod_idemp_l, Hi, Z.add_mod_idemp_l by lia.
    f_equal. lia.
Qed.

(** ** The table *)

Definition used_entry (e : ENTRY) : Prop := key e <> 0.
#[export] Instance used_entry_dec e : Decision (used_entry e).
Proof. unfold used_entry. apply _. Defined.

Definition count (es : list ENTRY) : nat := length (filter used_entry es).

(** The hash of a string. *)
Definition hash_of (l : list Z) : Z := foldl (fun h b => wrap64 (31 * h + b)) 0 l.

Section table.
(** The strings the caller keeps in memory: [text p] is the string at [p]. *)
Context (m : memory) (text : Z -> list Z) (fuel : nat).

Definition is_key (p : Z) : Prop := p <> 0 /\ cstring m p (text p) /\ (length (text p) < fuel)%nat.

Lemma wp_keyhash p (Q : Z -> memory -> Prop) :
  is_key p -> Q (hash_of (text p)) m -> wp (keyhash fuel p) m Q.
Proof.
  intros (_ & Hs & Hf) HQ. unfold keyhash.
  apply (wp_loop (fun s m' => m' = m /\ exists l1 l2, text p = l1 ++ l2 /\ s = (p + lenZ l1, hash_of l1))
    (fun s => (length (text p) - Z.to_nat (s.1 - p))%nat)).
  2: { split; [done|]. exists [], (text p). split; [done|]. simpl. f_equal. lia. }
  2: { simpl. lia. }
  intros s m' (-> & l1 & l2 & Hl & ->). destruct (cstring_byte m p (text p) Hs (p + lenZ l1)) as (b & Hb & Hz).
  { rewrite Hl, length_app. lia. }
  apply wp_bind, (wp_load8 _ b); [done|]. apply wp_ret.
  destruct l2 as [|c l2].
  - rewrite app_nil_r in Hl. assert (b = 0) as -> by (apply Hz; rewrite Hl; lia). by rewrite Hl in HQ.
  - assert (b <> 0) as Hb0 by (rewrite Hz, Hl, length_app; simpl; lia).
    assert (b = c) as ->.
    { pose proof (bytes_at_lookup m p (text p ++ [0]) (length l1) c (cs_bytes _ _ _ Hs)) as H.
      rewrite Hl, <- app_assoc, lookup_app_r, Nat.sub_diag in H by lia. specialize (H eq_refl). congruence. }
    unfold truth. destruct (Z.eqb_spec c 0); [done|]. simpl. split; [|rewrite Hl, length_app; simpl; lia].
    split; [done|]. exists (l1 ++ [c]), l2. split; [by rewrite <- app_assoc|].
    rewrite length_app. simpl. unfold hash_of. rewrite foldl_app. simpl. f_equal. lia.
Qed.

(** The entries of a list, as a map from strings. *)
Definition holds (es : list ENTRY) (M : gmap (list Z) ENTRY) : Prop :=
  forall w e, M !! w = Some e <-> e ∈ es /\ used_entry e /\ text (key e) = w.

Lemma holds_unique es M1 M2 : holds es M1 -> holds es M2 -> M1 = M2.
Proof. intros H1 H2. apply map_eq. intros w. apply option_eq. intros e. by rewrite (H1 w e), (H2 w e). Qed.

(** What is true of the array between any two operations: keys are strings
    of the caller, no string occurs twice, and the slots probed before the
    one that holds a key are all taken. *)
Record stored (k : Z) (es : list ENTRY) (M : gmap (list Z) ENTRY) : Prop := {
  st_keys : Forall (fun e => used_entry e -> is_key (key e)) es;
  st_nodup : forall s1 s2 e1 e2, es !! s1 = Some e1 -> es !! s2 = Some e2 ->
    used_entry e1 -> used_entry e2 -> text (key e1) = text (key e2) -> s1 = s2;
  st_reach : forall s e, es !! s = Some e -> used_entry e ->
    exists n, Z.of_nat n < 2 ^ k /\ pos k (hash_of (text (key e))) n = s /\
      forall j, (j < n)%nat -> exists e', es !! pos k (hash_of (text (key e))) j = Some e' /\ used_entry e';
  st_holds : holds es M
}.

Lemma stored_empty k n d : stored k (replicate n (mk_entry 0 d)) ∅.
Proof.
  split.
  - apply Forall_replicate. intros H. by destruct H.
  - intros s1 s2 e1 e2 H1 _ Hu. apply lookup_replicate in H1 as [-> _]. by destruct Hu.
  - intros s e H1 Hu. apply lookup_replicate in H1 as [-> _]. by destruct Hu.
  - intros w e. rewrite lookup_empty, elem_of_replicate. split; [done|]. intros ([-> _] & Hu & _). by destruct Hu.
Qed.

Lemma count_lt es : (count es < length es)%nat -> exists s e, es !! s = Some e /\ ~ used_entry e.
Proof.
  unfold count. induction es as [|e es IH]; simpl; [lia|]. rewrite filter_cons. case_decide as Hu; simpl.
  - intros H. destruct IH as (s & e' & Hs & He'); [lia|]. by exists (S s), e'.
  - intros _. by exists 0%nat, e.
Qed.

(** The slot a search for [w] stops at: free if [w] is not in the map, and
    otherwise its entry. *)
Definition stops (w : list Z) (e : ENTRY) : Prop := ~ used_entry e \/ text (key e) = w.
#[local] Instance stops_dec w e : Decision (stops w e).
Proof. unfold stops. apply _. Defined.

Lemma first_slot k es (P : ENTRY -> Prop) `{!forall e, Decision (P e)} h :
  0 <= k -> lenZ es = 2 ^ k -> (count es < length es)%nat -> (forall e, ~ used_entry e -> P e) ->
  exists n e, Z.of_nat n < 2 ^ k /\ es !! pos k h n = Some e /\ P e /\
    forall j e, (j < n)%nat -> es !! pos k h j = Some e -> ~ P e.
Proof.
  intros Hk Hl Hc HP. destruct (count_lt es Hc) as (s & e & Hs & Hu). pose proof (lookup_lt_Some _ _ _ Hs).
  destruct (pos_surj k h s) as (n & Hn & Hp); [done|lia|].
  assert (forall n, Decision (from_option P False (es !! pos k h n))) as Hdec.
  { intros x. destruct (es !! pos k h x); simpl; apply _. }
  destruct (least (fun n => from_option P False (es !! pos k h n)) n) as (n0 & Hle & Hn0 & Hj).
  - rewrite Hp, Hs. by apply HP.
  - destruct (es !! pos k h n0) as [e0|] eqn:E; [|done]. exists n0, e0. split_and!; [lia|done|done|].
    intros j e' Hlt He' HPe. apply (Hj j Hlt). by rewrite He'.
Qed.

Lemma search_absent k es M w n e :
  stored k es M -> es !! pos k (hash_of w) n = Some e -> ~ used_entry e ->
  (forall j e, (j < n)%nat -> es !! pos k (hash_of w) j = Some e -> ~ stops w e) -> Z.of_nat n < 2 ^ k -> M !! w = None.
Proof.
  intros HS He Hu Hj Hn. destruct (M !! w) as [e'|] eqn:E; [exfalso|done].
  apply (st_holds _ _ _ HS) in E as (Hin & Hu' & Hw). apply list_elem_of_lookup in Hin as [s Hs].
  destruct (st_reach _ _ _ HS s e' Hs Hu') as (n' & Hn' & Hp & Hocc). rewrite Hw in *.
  destruct (Nat.lt_total n n') as [Hlt|[->|Hlt]].
  - destruct (Hocc n Hlt) as (e2 & He2 & Hu2). by simplify_eq.
  - by simplify_eq.
  - eapply (Hj n'); [done| |by right]. by rewrite Hp.
Qed.

Lemma search_present k es M w n e :
  stored k es M -> es !! pos k (hash_of w) n = Some e -> used_entry e -> stops w e -> M !! w = Some e.
Proof.
  intros HS He Hu [?|Hw]; [done|]. apply (st_holds _ _ _ HS). split_and!; [|done|done].
  by eapply list_elem_of_lookup_2.
Qed.

(** [lookup] stops at the first entry that is free or has the key. *)
Lemma wp_lookup_at t k es p h n e (Q : nat -> memory -> Prop) :
  array t k es -> Forall (fun e => used_entry e -> is_key (key e)) es -> is_key p -> 2 ^ k < Z.of_nat fuel ->
  Z.of_nat n < 2 ^ k -> es !! pos k h n = Some e -> stops (text p) e ->
  (forall j e, (j < n)%nat -> es !! pos k h j = Some e -> ~ stops (text p) e) ->
  Q (pos k h n) m -> wp (lookup fuel p h t) m Q.
Proof.
  intros HA Hks Hp Hf Hn He HP Hj HQ.
  eapply (wp_probe t k es m _ (fun e => bool_decide (stops (text p) e)) _ n e); [done| |done|done|by apply bool_decide_eq_true_2| |done|done].
  - intros e' Hin. destruct (Z.eqb_spec (key e') 0) as [Hz|Hz].
    + apply wp_ret. split; [done|]. symmetry. apply bool_decide_eq_true_2. left. by intros H'.
    + pose proof (proj1 (Forall_forall _ _) Hks e' Hin Hz) as (_ & Hs & Hlen).
      destruct Hp as (_ & Hsp & Hlp). apply wp_bind. eapply wp_mono; [by apply wp_strcmp|].
      intros r m' [-> ->]. apply wp_ret. split; [done|].
      destruct (strcmp_ref_zero (text (key e')) (text p) (cs_nz _ _ _ Hs) (cs_nz _ _ _ Hsp)) as [H1 H2].
      case_bool_decide as Hst; destruct (Z.eqb_spec (strcmp_ref (text (key e')) (text p)) 0) as [E|E]; try done.
      * destruct Hst as [?|?]; [done|]. by destruct E; auto.
      * destruct Hst. right. auto.
  - intros j e' Hlt He'. apply bool_decide_eq_false_2. by eapply Hj.
Qed.

Lemma wp_lookup t k es M p (Q : nat -> memory -> Prop) :
  array t k es -> stored k es M -> is_key p -> (count es < length es)%nat -> 2 ^ k < Z.of_nat fuel ->
  (forall n e, Z.of_nat n < 2 ^ k -> es !! pos k (hash_of (text p)) n = Some e ->
     (forall j e, (j < n)%nat -> es !! pos k (hash_of (text p)) j = Some e -> used_entry e) ->
     (if decide (used_entry e) then M !! text p = Some e else M !! text p = None) ->
     Q (pos k (hash_of (text p)) n) m) ->
  wp (lookup fuel p (hash_of (text p)) t) m Q.
Proof.
  intros HA HS Hp Hc Hf HQ. pose proof (ar_k _ _ _ HA). pose proof (ar_len _ _ _ HA) as Hl.
  destruct (first_slot k es (stops (text p)) (hash_of (text p))) as (n & e & Hn & He & HP & Hj);
    [lia|done|done|by left|].
  eapply wp_lookup_at; [done|exact (st_keys _ _ _ HS)|done|done|done|done|done|done|].
  apply (HQ n e); [done|done| |].
  - intros j e' Hlt He'. apply dec_stable. intros Hu. apply (Hj j e' Hlt He'). by left.
  - case_decide; [by eapply search_present|by eapply search_absent].
Qed.

(** Filling the first free slot of a key's probe sequence. *)
Lemma stored_insert k es M e n :
  0 <= k -> stored k es M -> is_key (key e) -> M !! text (key e) = None -> Z.of_nat n < 2 ^ k ->
  (exists e0, es !! pos k (hash_of (text (key e))) n = Some e0 /\ ~ used_entry e0) ->
  (forall j e', (j < n)%nat -> es !! pos k (hash_of (text (key e))) j = Some e' -> used_entry e') ->
  lenZ es = 2 ^ k ->
  stored k (<[pos k (hash_of (text (key e))) n := e]> es) (<[text (key e) := e]> M).
Proof.
  intros Hk HS Hke HM Hn (e0 & He0 & Hu0) Hocc Hlen. set (s := pos k (hash_of (text (key e))) n) in *.
  assert (s < length es)%nat as Hs by (by eapply lookup_lt_Some).
  assert (used_entry e) as Hue by apply Hke.
  assert (forall s' e', es !! s' = Some e' -> used_entry e' -> text (key e') <> text (key e)) as Hnew.
  { intros s' e' Hs' Hu' Ht. assert (M !! text (key e) = Some e') as E; [|congruence].
    apply (st_holds _ _ _ HS). split_and!; [by eapply list_elem_of_lookup_2|done|done]. }
  split.
  - apply Forall_insert; [apply HS|]. intros _. apply Hke.
  - intros s1 s2 e1 e2 H1 H2 U1 U2 Ht. apply list_lookup_insert_Some in H1, H2.
    destruct H1 as [(<- & <- & _)|[N1 H1]], H2 as [(<- & <- & _)|[N2 H2]]; [done| | |by eapply (st_nodup _ _ _ HS)].
    + by edestruct Hnew.
    + by edestruct Hnew.
  - intros s1 e1 H1 U1. apply list_lookup_insert_Some in H1 as [(<- & <- & _)|[N1 H1]].
    + exists n. split_and!; [done|done|]. intros j Hj.
      destruct (lookup_lt_is_Some_2 es (pos k (hash_of (text (key e))) j)) as [e' He'].
      { pose proof (pos_lt k (hash_of (text (key e))) j Hk). lia. }
      exists e'. split; [|by eapply Hocc]. rewrite list_lookup_insert_ne; [done|]. apply not_eq_sym, pos_inj; lia.
    + destruct (st_reach _ _ _ HS s1 e1 H1 U1) as (n1 & Hn1 & Hp1 & Ho1). exists n1. split_and!; [done|done|].
      intros j Hj. destruct (Ho1 j Hj) as (e' & He' & Hu'). exists e'. split; [|done].
      rewrite list_lookup_insert_ne; [done|]. intros E. rewrite <- E in He'. by simplify_eq.
  - intros w e'. destruct (decide (w = text (key e))) as [->|Hw].
    + rewrite lookup_insert_eq. split.
      * intros [= <-]. split_and!; [|done|done]. by apply list_elem_of_insert.
      * intros (Hin & Hu & Ht). apply list_elem_of_lookup in Hin as [i Hi].
        apply list_lookup_insert_Some in Hi as [(_ & -> & _)|[_ Hi]]; [done|]. by edestruct Hnew.
    + rewrite lookup_insert_ne by done. rewrite (st_holds _ _ _ HS w e'). split; intros (Hin & Hu & Ht); (split; [|done]).
      * apply list_elem_of_lookup in Hin as [i Hi]. apply (list_elem_of_lookup_2 _ i).
        rewrite list_lookup_insert_ne; [done|]. intros E. rewrite <- E in Hi. by simplify_eq.
      * apply list_elem_of_lookup in Hin as [i Hi]. apply list_lookup_insert_Some in Hi as [(_ & -> & _)|[_ Hi]]; [done|].
        by eapply list_elem_of_lookup_2.
Qed.

Lemma count_insert es s e e0 :
  es !! s = Some e0 -> ~ used_entry e0 -> used_entry e -> count (<[s := e]> es) = S (count es).
Proof.
  intros Hs Hu Hu'. pose proof (lookup_lt_Some _ _ _ Hs). rewrite insert_take_drop by done.
  rewrite <- (take_drop_middle es s e0 Hs) at 3. unfold count. rewrite !filter_app, !length_app.
  rewrite filter_cons_True, filter_cons_False by done. simpl. lia.
Qed.

(** Changing what a free slot holds. *)
Lemma stored_free k es M s e e0 :
  stored k es M -> es !! s = Some e0 -> ~ used_entry e0 -> ~ used_entry e -> stored k (<[s := e]> es) M.
Proof.
  intros HS Hs Hu0 Hu.
  assert (forall s' e', used_entry e' -> <[s := e]> es !! s' = Some e' <-> es !! s' = Some e') as Hsame.
  { intros s' e' Hu'. rewrite list_lookup_insert_Some. destruct (decide (s = s')) as [<-|]; [|tauto].
    rewrite Hs. split; [intros [(_ & -> & _)|?]|intros [= ->]]; naive_solver. }
  split.
  - apply Forall_insert; [apply HS|]. done.
  - intros s1 s2 e1 e2 H1 H2 U1 U2. apply Hsame in H1, H2; [|done..]. by apply (st_nodup _ _ _ HS).
  - intros s1 e1 H1 U1. apply Hsame in H1; [|done]. destruct (st_reach _ _ _ HS s1 e1 H1 U1) as (n & Hn & Hp & Ho).
    exists n. split_and!; [done|done|]. intros j Hj. destruct (Ho j Hj) as (e' & He' & Hu'). exists e'. split; [|done].
    by apply Hsame.
  - intros w e'. rewrite (st_holds _ _ _ HS w e'). rewrite !list_elem_of_lookup. split; intros ((i & Hi) & Hu' & Hw);
      (split; [|done]); exists i; by apply Hsame.
Qed.

Lemma count_free es s e e0 :
  es !! s = Some e0 -> ~ used_entry e0 -> ~ used_entry e -> count (<[s := e]> es) = count es.
Proof.
  intros Hs Hu Hu'. pose proof (lookup_lt_Some _ _ _ Hs). rewrite insert_take_drop by done.
  rewrite <- (take_drop_middle es s e0 Hs) at 3. unfold count. rewrite !filter_app, !length_app.
  rewrite !filter_cons_False by done. simpl. lia.
Qed.

(** ** Growing the table *)

Lemma array_set t k es s e : array t k es -> array (set_entry t s e) k (<[s := e]> es).
Proof. intros [Hk He Hm Hl]. split; [done| |done|by rewrite length_insert]. simpl. by rewrite He. Qed.

Lemma holds_snoc_free l e M : holds l M -> ~ used_entry e -> holds (l ++ [e]) M.
Proof. intros H Hu w e'. rewrite (H w e'), elem_of_app, list_elem_of_singleton. naive_solver. Qed.

Lemma holds_snoc l e M : holds l M -> used_entry e -> M !! text (key e) = None -> holds (l ++ [e]) (<[text (key e) := e]> M).
Proof.
  intros H Hu HM w e'. rewrite elem_of_app, list_elem_of_singleton.
  destruct (decide (w = text (key e))) as [->|Hw].
  - rewrite lookup_insert_eq. split; [intros [= <-]; auto|]. intros ([Hin| ->] & Hu' & Ht); [|done].
    assert (M !! text (key e) = Some e') by (apply H; auto). congruence.
  - rewrite lookup_insert_ne by done. rewrite (H w e'). naive_solver.
Qed.

Lemma count_snoc l e : count (l ++ [e]) = (count l + (if decide (used_entry e) then 1 else 0))%nat.
Proof. unfold count. rewrite filter_app, length_app, filter_cons, filter_nil. by case_decide. Qed.

Definition distinct_keys (es : list ENTRY) : Prop :=
  forall s1 s2 e1 e2, es !! s1 = Some e1 -> es !! s2 = Some e2 ->
    used_entry e1 -> used_entry e2 -> text (key e1) = text (key e2) -> s1 = s2.

Lemma wp_rehash k old : distinct_keys old -> Forall (fun e => used_entry e -> is_key (key e)) old ->
  Z.of_nat (count old) < 2 ^ k -> 2 ^ k < Z.of_nat fuel ->
  forall rest l t es M, old = l ++ rest -> array t k es -> stored k es M -> holds l M -> count es = count l ->
  wp (rehash fuel rest t) m (fun t' m' => m' = m /\ used t' = used t /\
    exists es' M', array t' k es' /\ stored k es' M' /\ holds old M' /\ count es' = count old).
Proof.
  intros Hd Hk Hc Hf rest. induction rest as [|e rest IH]; intros l t es M Hold HA HS HH Hcnt.
  - rewrite app_nil_r in Hold. subst l. apply wp_ret. split_and!; [done|done|]. by exists es, M.
  - assert (old = (l ++ [e]) ++ rest) as Hold' by (by rewrite <- app_assoc).
    pose proof (count_snoc l e) as Hsn. cbn [rehash]. destruct (Z.eqb_spec (key e) 0) as [Hz|Hz].
    + assert (~ used_entry e) as Hu by (intros Hu; by apply Hu). apply (IH (l ++ [e]) t es M); [done|done|done|by apply holds_snoc_free|].
      rewrite Hsn, decide_False by done. lia.
    + assert (used_entry e) as Hu by done. rewrite decide_True in Hsn by done.
      assert (is_key (key e)) as Hke.
      { rewrite Forall_forall in Hk. apply Hk; [|done]. subst old. set_solver. }
      assert (M !! text (key e) = None) as HM.
      { destruct (M !! text (key e)) as [e'|] eqn:E; [exfalso|done]. apply HH in E as (Hin & Hu' & Ht).
        apply list_elem_of_lookup in Hin as [i Hi]. pose proof (lookup_lt_Some _ _ _ Hi).
        assert (i = length l); [|lia]. apply (Hd i (length l) e' e); [..|done]; [| |done|done].
        - rewrite Hold. by apply lookup_app_l_Some.
        - rewrite Hold. by apply list_lookup_middle. }
      pose proof (ar_k _ _ _ HA) as Hkr. pose proof (ar_len _ _ _ HA) as Hl.
      assert (count (l ++ [e]) <= count old)%nat by (rewrite Hold'; unfold count; rewrite (filter_app _ (l ++ [e])), length_app; lia).
      destruct (first_slot k es (fun e => ~ used_entry e) (hash_of (text (key e)))) as (n & e0 & Hn & He0 & Hu0 & Hj);
        [lia|done|lia|done|].
      apply wp_bind, wp_keyhash; [done|]. apply wp_bind.
      eapply (wp_probe t k es m _ (fun e => key e =? 0) _ n e0); [done| |done|done| | |done|].
      * intros e' _. by apply wp_ret.
      * apply Z.eqb_eq. apply dec_stable. intros H'. by apply Hu0.
      * intros j e' Hlt He'. apply Z.eqb_neq. apply dec_stable. exact (Hj j e' Hlt He').
      * eapply wp_mono; [eapply (IH (l ++ [e]) (set_entry t _ e) _ (<[text (key e) := e]> M)); [done|by apply array_set| | |]|done].
        -- apply stored_insert; [lia|done|done|done|done|by exists e0| |done].
           intros j e' Hlt He'. apply dec_stable. exact (Hj j e' Hlt He').
        -- by apply holds_snoc.
        -- rewrite (count_insert es _ e e0) by done. lia.
Qed.

(** The loop that chooses the new size. *)
Lemma wp_newsize nel m0 (Q : Z -> memory -> Prop) : nel <= 2 ^ 63 ->
  (forall k, 3 <= k <= 63 -> nel <= 2 ^ k -> k = 3 \/ 2 ^ (k - 1) < nel -> Q (2 ^ k) m0) ->
  wp (loop 64 (fun s => mret (if s <? nel then inl (wrap64 (s * 2)) else inr s)) MINSIZE) m0 Q.
Proof.
  intros Hn HQ.
  apply (wp_loop (fun s m' => m' = m0 /\ exists k, 3 <= k <= 63 /\ s = 2 ^ k /\ (k = 3 \/ 2 ^ (k - 1) < nel))
    (fun s => Z.to_nat (63 - Z.log2 s))).
  - intros s m' (-> & k & Hk & -> & Hor). apply wp_ret. destruct (Z.ltb_spec (2 ^ k) nel) as [Hlt|Hge]; [|by apply HQ].
    assert (k < 63) by (apply (Z.pow_lt_mono_r_iff 2); lia).
    assert (wrap64 (2 ^ k * 2) = 2 ^ (k + 1)) as ->.
    { rewrite Z.mul_comm, <- Z.pow_succ_r by lia. apply wrap_small. split; [lia|]. apply Z.pow_lt_mono_r; lia. }
    split; [|rewrite !Z.log2_pow2 by lia; lia]. split; [done|]. exists (k + 1). split_and!; [lia|lia|done|]. right.
    by replace (k + 1 - 1) with k by lia.
  - split; [done|]. exists 3. split_and!; [lia|lia|done|by left].
  - vm_compute. lia.
Qed.

Lemma count_empty n d : count (replicate n (mk_entry 0 d)) = 0%nat.
Proof. unfold count. induction n as [|n IH]; [done|]. simpl. rewrite filter_cons_False; [done|]. intros H. by apply H. Qed.

(** [resize] of a table with contents: on failure nothing changes, on success
    the map is the same in a larger array. *)
Lemma wp_resize t k es M nel ok (Q : Z * tab -> memory -> Prop) :
  array t k es -> stored k es M -> Z.of_nat (count es) * 2 <= nel -> 2 ^ k < nel -> nel <= 2 ^ (k + 1) ->
  3 <= k <= 62 -> 2 ^ (k + 1) < Z.of_nat fuel ->
  (ok = false \/ 59 <= k -> Q (0, t) m) ->
  (ok = true -> k < 59 -> forall t' es', array t' (k + 1) es' -> stored (k + 1) es' M -> used t' = used t ->
     count es' = count es -> Q (1, t') m) ->
  wp (resize fuel ok nel t) m Q.
Proof.
  intros HA HS Hc Hlo Hhi Hk Hf Hfail Hok. unfold resize. cbv zeta.
  assert (2 ^ (k + 1) <= 2 ^ 63) by (apply Z.pow_le_mono_r; lia).
  change MAXSIZE with (2 ^ 63). destruct (Z.ltb_spec (2 ^ 63) nel) as [|_]; [lia|].
  apply wp_bind, wp_newsize; [lia|]. intros k' Hk' Hle Hor.
  assert (k' = k + 1) as ->.
  { assert (k < k') by (apply (Z.pow_lt_mono_r_iff 2); lia). destruct Hor as [->|Hlt]; [lia|].
    assert (k' - 1 < k + 1) by (apply (Z.pow_lt_mono_r_iff 2); lia). lia. }
  assert (Hsz : (2 ^ (k + 1) * 16 <? 2 ^ 64) = (k <? 59)).
  { change 16 with (2 ^ 4). rewrite <- Z.pow_add_r by lia. apply eq_bool_prop_intro.
    rewrite !Is_true_true, !Z.ltb_lt. rewrite <- (Z.pow_lt_mono_r_iff 2) by lia. lia. }
  unfold calloc. rewrite Hsz.
  destruct ok; [|apply wp_ret, Hfail; by left]. destruct (Z.ltb_spec k 59) as [Hlt|]; [|apply wp_ret, Hfail; by right].
  simpl andb. cbv iota. rewrite (ar_entries _ _ _ HA), (ar_mask _ _ _ HA).
  pose proof (ar_len _ _ _ HA) as Hl. assert (0 < 2 ^ k < 2 ^ 63) by (split; [apply Z.pow_pos_nonneg|apply Z.pow_lt_mono_r]; lia).
  replace (2 ^ k - 1 + 1) with (2 ^ k) by lia. rewrite wrap_small by (split; lia).
  destruct (Z.ltb_spec (lenZ es) (2 ^ k)) as [|_]; [lia|].
  rewrite take_ge by lia. apply wp_bind.
  eapply wp_mono; [eapply (wp_rehash (k + 1) es (st_nodup _ _ _ HS) (st_keys _ _ _ HS) ltac:(lia) Hf es [] _ _ ∅); [done| |apply stored_empty|..]|].
  - split; [lia|done|done|]. rewrite length_replicate. lia.
  - intros w e. rewrite lookup_empty, elem_of_nil. naive_solver.
  - by rewrite count_empty.
  - intros t' m' (-> & Hu & es' & M' & HA' & HS' & HH & Hcnt). apply wp_ret. simpl in Hu. eapply Hok; [done|done|done| |done|done].
    by rewrite (holds_unique es M M' (st_holds _ _ _ HS) HH).
Qed.

(** ** The operations on the map *)

(** The table [t] stands for the map [M] from strings to entries. *)
Definition represents (t : tab) (M : gmap (list Z) ENTRY) : Prop :=
  exists k es, array t k es /\ 3 <= k <= 59 /\ stored k es M /\ used t = Z.of_nat (count es) /\
    used t <= mask t - mask t / 4.

(** What [hsearch] may answer: a null result on [ENTER] only when memory is
    short, or when the table has reached the largest size an array can have. *)
Inductive map_step (ok : bool) (large : Prop) (item : ENTRY) (action : ACTION) (M : gmap (list Z) ENTRY) :
    option ENTRY -> gmap (list Z) ENTRY -> Prop :=
  | step_found e : M !! text (key item) = Some e -> map_step ok large item action M (Some e) M
  | step_missing : M !! text (key item) = None -> action = FIND -> map_step ok large item action M None M
  | step_entered : M !! text (key item) = None -> action = ENTER ->
      map_step ok large item action M (Some item) (<[text (key item) := item]> M)
  | step_nomem : M !! text (key item) = None -> action = ENTER -> ok = false \/ large ->
      map_step ok large item action M None M.

(** [*retval] read through the table it points into. *)
Definition entry_at (t : tab) (r : option nat) : option ENTRY := n ← r; es ← entries t; es !! n.

Record answered (ok : bool) (item : ENTRY) (action : ACTION) (t : tab) (M : gmap (list Z) ENTRY) (r : Z * option nat * tab) : Prop := {
  an_map : exists M', represents r.2 M' /\ map_step ok (2 ^ 59 <= mask t + 1) item action M (entry_at r.2 r.1.2) M';
  an_ret : r.1.1 = (if r.1.2 then 1 else 0);
  an_null : r.1.2 = None <-> entry_at r.2 r.1.2 = None;
  an_used : used r.2 <= used t + 1;
  an_size : mask r.2 + 1 <= Z.max (mask t + 1) (4 * used r.2)
}.

Lemma load_limit k : 3 <= k -> 2 ^ k - 1 - (2 ^ k - 1) / 4 = 3 * 2 ^ (k - 2).
Proof.
  intros Hk. assert (2 ^ k = 2 ^ (k - 2) * 4) as E by (rewrite <- (Z.pow_add_r 2 _ 2) by lia; f_equal; lia).
  assert (0 < 2 ^ (k - 2)) by (apply Z.pow_pos_nonneg; lia).
  enough ((2 ^ k - 1) / 4 = 2 ^ (k - 2) - 1) by lia. symmetry. apply (Z.div_unique_pos _ _ _ 3); lia.
Qed.

(** Powers of two around a table of size [2 ^ k]. *)
Lemma size_facts k : 3 <= k <= 59 ->
  2 ^ k = 4 * 2 ^ (k - 2) /\ 2 ^ (k + 1) = 8 * 2 ^ (k - 2) /\ 2 <= 2 ^ (k - 2) <= 2 ^ 57 /\
  2 ^ (k + 1 - 2) = 2 * 2 ^ (k - 2).
Proof.
  intros Hk. rewrite <- (Z.pow_add_r 2 2), <- (Z.pow_add_r 2 3), <- (Z.pow_add_r 2 1) by lia.
  split_and!; [f_equal; lia..| | |f_equal; lia]; [apply (Z.pow_le_mono_r 2 1)|apply Z.pow_le_mono_r]; lia.
Qed.

Lemma represents_intro t k es M :
  array t k es -> 3 <= k <= 59 -> stored k es M -> used t = Z.of_nat (count es) -> used t <= 3 * 2 ^ (k - 2) -> represents t M.
Proof. intros HA Hk HS Hu Hl. exists k, es. rewrite (ar_mask _ _ _ HA), load_limit by lia. done. Qed.

Lemma entry_at_some t k es n e : array t k es -> es !! n = Some e -> entry_at t (Some n) = Some e.
Proof. intros HA He. unfold entry_at. simpl. by rewrite (ar_entries _ _ _ HA). Qed.

Lemma answered_some ok item action t M t' n e M' :
  entry_at t' (Some n) = Some e -> represents t' M' -> map_step ok (2 ^ 59 <= mask t + 1) item action M (Some e) M' ->
  used t' <= used t + 1 -> mask t' + 1 <= Z.max (mask t + 1) (4 * used t') -> answered ok item action t M (1, Some n, t').
Proof. intros He HR Hs Hu Hm. split; cbn [fst snd]; rewrite ?He; [by exists M'|done|by split|done|done]. Qed.

Lemma answered_none ok item action t M t' M' :
  represents t' M' -> map_step ok (2 ^ 59 <= mask t + 1) item action M None M' ->
  used t' <= used t + 1 -> mask t' + 1 <= Z.max (mask t + 1) (4 * used t') -> answered ok item action t M (0, None, t').
Proof. intros HR Hs Hu Hm. split; cbn [fst snd]; [by exists M'|done|by split|done|done]. Qed.

(** The array is grown once more than three quarters of it are taken. *)
Lemma wp_grow t k es M ok item n e : let w := text (key item) in let s := pos k (hash_of w) n in
  array t k es -> stored k es M -> 3 <= k <= 59 -> used t = Z.of_nat (count es) -> used t = 3 * 2 ^ (k - 2) ->
  is_key (key item) -> 2 ^ (k + 1) < Z.of_nat fuel -> M !! w = None -> es !! s = Some e -> ~ used_entry e ->
  stored k (<[s := item]> es) (<[w := item]> M) ->
  let t1 := mk_tab (Some (<[s := item]> es)) (mask t) (used t + 1) in
  wp (rt ← resize fuel ok (wrap64 (2 * used t1)) t1;
      let t := rt.2 in
      if rt.1 =? 0 then
        mret (0, None, set_entry (mk_tab (entries t) (mask t) (wrap64 (used t - 1))) s (mk_entry 0 (data item)))
      else n ← lookup fuel (key item) (hash_of w) t; mret (1, Some n, t))
    m (fun r m' => m' = m /\ answered ok item ENTER t M r).
Proof.
  intros w s HA HS Hk Hu Hfull Hkey Hf HM He Hfree HS1 t1. set (es1 := <[s := item]> es) in *.
  destruct (size_facts k Hk) as (E & E' & Hp & E2). pose proof (ar_mask _ _ _ HA) as Hmask. pose proof (ar_len _ _ _ HA) as Hlen.
  assert (array t1 k es1) as HA1 by (split; [lia|done|done|unfold es1; by rewrite length_insert]).
  assert (count es1 = S (count es)) as Hc1 by (eapply count_insert; [done|done|apply Hkey]).
  apply wp_bind. rewrite wrap_small by (simpl; unfold in_range; lia).
  eapply (wp_resize t1 k es1 (<[w := item]> M)); [done|done|simpl; lia..| |].
  - intros Hbad. cbv zeta. unfold set_entry, t1. simpl. apply wp_ret. split; [done|].
    rewrite wrap_small by (unfold in_range; lia). replace (used t + 1 - 1) with (used t) by lia.
    unfold es1. rewrite list_insert_insert_eq.
    assert (~ used_entry (mk_entry 0 (data item))) as Hf0 by (intros H'; by apply H').
    apply (answered_none _ _ _ _ _ _ M); simpl; [|apply step_nomem; [done|done|]|lia|lia].
    + eapply (represents_intro _ k); [split; [lia|done|done|]|lia|by eapply stored_free| |simpl; lia].
      * by rewrite length_insert.
      * simpl. by erewrite count_free.
    + destruct Hbad as [?|Hge]; [by left|right]. rewrite Hmask.
      replace (2 ^ k - 1 + 1) with (2 ^ k) by lia. apply Z.pow_le_mono_r; lia.
  - intros _ Hk58 t' es' HA' HS' Hu' Hc'. cbv zeta. simpl. apply wp_bind. simpl in Hu'.
    pose proof (ar_len _ _ _ HA'). pose proof (ar_mask _ _ _ HA') as Hm'.
    eapply (wp_lookup t' (k + 1) es' _ (key item)); [done|done|done|lia|lia|].
    intros n' e' Hn' He' _ HM'. fold w in HM', He' |- *. rewrite lookup_insert_eq in HM'. case_decide; [|done].
    injection HM' as <-. apply wp_ret. split; [done|].
    eapply answered_some; [by eapply entry_at_some| |by apply step_entered|lia|lia].
    eapply (represents_intro _ (k + 1)); [done|lia|done|lia|lia].
Qed.

Lemma wp_hsearch_r t M item action ok :
  represents t M -> is_key (key item) -> 2 * (mask t + 1) < Z.of_nat fuel ->
  wp (__hsearch_r fuel ok item action t) m (fun r m' => m' = m /\ answered ok item action t M r).
Proof.
  intros (k & es & HA & Hk & HS & Hu & Hload) Hkey Hf. unfold __hsearch_r.
  pose proof (ar_mask _ _ _ HA) as Hmask. pose proof (ar_len _ _ _ HA) as Hlen.
  set (w := text (key item)) in *. set (s := pos k (hash_of w)).
  rewrite Hmask, load_limit in Hload by lia. rewrite Hmask in Hf. destruct (size_facts k Hk) as (E & E' & Hp & _).
  assert (represents t M) as HR by (by eapply represents_intro).
  apply wp_bind, wp_keyhash; [done|]. apply wp_bind.
  eapply (wp_lookup t k es M (key item)); [done|done|done|lia|lia|].
  intros n e Hn He Hocc HM. fold w s in HM, He, Hocc |- *.
  rewrite (ar_entries _ _ _ HA). simpl mbind. rewrite He.
  destruct (Z.eqb_spec (key e) 0) as [Hz|Hz].
  2: { rewrite decide_True in HM by done. apply wp_ret. split; [done|].
       eapply answered_some; [by eapply entry_at_some|done|by apply step_found|lia|lia]. }
  assert (~ used_entry e) as Hfree by (intros H'; by apply H').
  rewrite decide_False in HM by done. destruct action.
  { apply wp_ret. split; [done|]. eapply answered_none; [done|by apply step_missing|lia|lia]. }
  assert (stored k (<[s n := item]> es) (<[w := item]> M)) as HS1.
  { apply stored_insert; [lia|done|done|done|done|by exists e|done|done]. }
  cbn [negb]. cbv iota. unfold enter. cbv zeta. cbn [set_entry mask used entries]. rewrite (ar_entries _ _ _ HA). simpl fmap.
  rewrite (wrap_small 64 (_ - _)) by (rewrite Hmask, load_limit by lia; unfold in_range; lia).
  rewrite (wrap_small 64 (used t + 1)) by (unfold in_range; lia).
  destruct (Z.gtb_spec (used t + 1) (mask t - mask t / 4)) as [Hgt|Hle]; rewrite Hmask, load_limit in * by lia.
  - rewrite <- Hmask. eapply (wp_grow t k es M); [done|done|done|done|lia|done|lia|done|done|done|done].
  - apply wp_ret. split; [done|]. rewrite <- Hmask in *.
    eapply answered_some; [|eapply (represents_intro _ k); [split; [lia|done|done|]|lia|done| |simpl; lia]|by apply step_entered|simpl; lia|simpl; lia].
    + unfold entry_at. simpl. apply list_lookup_insert_eq. by eapply lookup_lt_Some.
    + by rewrite length_insert.
    + simpl. erewrite count_insert; [|done|done|apply Hkey]. lia.
Qed.

(** [hcreate] makes an empty table, of at least the size asked for. *)
Lemma wp_hcreate ok ok' nel : 0 <= nel < 2 ^ 64 ->
  wp (__hcreate_r fuel ok ok' nel) m (fun r m' => m' = m /\
    match r.2 with
    | Some t => r.1 = 1 /\ represents t ∅ /\ used t = 0 /\ nel <= mask t + 1 <= Z.max 8 (2 * nel)
    | None => r.1 = 0 /\ (ok = false \/ ok' = false \/ 2 ^ 59 < nel)
    end).
Proof.
  intros Hn. unfold __hcreate_r. destruct ok; [|apply wp_ret; split; [done|]; split; auto].
  apply wp_bind. unfold resize. cbv zeta. change MAXSIZE with (2 ^ 63). cbn [entries].
  apply wp_bind, wp_newsize; [destruct (Z.ltb_spec (2 ^ 63) nel); lia|]. intros k Hk Hle Hor.
  unfold calloc. destruct ok'; [|apply wp_ret; simpl; apply wp_ret; split; [done|]; split; auto].
  destruct (Z.ltb_spec (2 ^ k * 16) (2 ^ 64)) as [Hlt|Hge]; simpl andb; cbv iota.
  - apply wp_ret. cbn [fst snd]. apply wp_ret. split; [done|].
    assert (k < 60) by (change 16 with (2 ^ 4) in Hlt; rewrite <- Z.pow_add_r in Hlt by lia; apply Z.pow_lt_mono_r_iff in Hlt; lia).
    assert (2 ^ k <= 2 ^ 59) by (apply Z.pow_le_mono_r; lia).
    destruct (Z.ltb_spec (2 ^ 63) nel) as [Hbig|_]; [lia|]. destruct (size_facts k ltac:(lia)) as (_ & _ & Hp & _).
    simpl. split_and!; [done| |done|lia|].
    + eapply (represents_intro _ k); [split; [lia|done|done|]|lia|apply stored_empty|by rewrite count_empty|simpl; lia].
      rewrite length_replicate. lia.
    + destruct Hor as [->|Hor]; [lia|]. replace (2 ^ k) with (2 * 2 ^ (k - 1)); [lia|].
      rewrite <- Z.pow_succ_r by lia. f_equal. lia.
  - apply wp_ret. simpl. apply wp_ret. split; [done|]. split; [done|]. right. right.
    assert (59 < k). { change 16 with (2 ^ 4) in Hge. rewrite <- Z.pow_add_r in Hge by lia. apply Z.pow_le_mono_r_iff in Hge; lia. }
    destruct (Z.ltb_spec (2 ^ 63) nel) as [Hbig|_]; [lia|]. destruct Hor as [->|Hor]; [lia|].
    apply (Z.le_lt_trans _ (2 ^ (k - 1))); [apply Z.pow_le_mono_r; lia|done].
Qed.

(** ** Sequences of calls *)

(** A program that makes [reqs] calls and reads each entry it is given. *)
Fixpoint calls (reqs : list (bool * ENTRY * ACTION)) (htab : option tab) : C (list (option ENTRY) * option tab) :=
  match reqs with
  | [] => mret ([], htab)
  | (ok, item, action) :: reqs =>
      r ← hsearch fuel ok item action htab;
      rs ← calls reqs r.2;
      mret ((t ← r.2; entry_at t r.1) :: rs.1, rs.2)
  end.

(** The same program on a map. *)
Inductive map_calls : list (bool * ENTRY * ACTION) -> gmap (list Z) ENTRY -> list (option ENTRY) -> gmap (list Z) ENTRY -> Prop :=
  | calls_nil M : map_calls [] M [] M
  | calls_cons ok item action reqs M a M1 rs M2 :
      map_step ok False item action M a M1 -> map_calls reqs M1 rs M2 ->
      map_calls ((ok, item, action) :: reqs) M (a :: rs) M2.

Lemma map_step_small ok (P : Prop) item action M a M' :
  ~ P -> map_step ok P item action M a M' -> map_step ok False item action M a M'.
Proof. intros HP [e H|H H1|H H1|H H1 [H2|H2]]; [by apply step_found|by apply step_missing|by apply step_entered|apply step_nomem; auto|done]. Qed.

Lemma wp_calls N reqs : forall t M, Z.of_nat N < 2 ^ 55 -> 8 * Z.of_nat N < Z.of_nat fuel ->
  Forall (fun r => is_key (key r.1.2)) reqs ->
  represents t M -> used t + Z.of_nat (length reqs) <= Z.of_nat N -> mask t + 1 <= 4 * Z.of_nat N ->
  wp (calls reqs (Some t)) m (fun r m' => m' = m /\ exists t' M', r.2 = Some t' /\ represents t' M' /\ map_calls reqs M r.1 M').
Proof.
  induction reqs as [|[[ok item] action] reqs IH]; intros t M HN Hf Hk HR Hu Hm.
  { apply wp_ret. split; [done|]. exists t, M. split_and!; [done|done|constructor]. }
  apply List.Forall_cons_iff in Hk as [Hk Hks]. simpl in Hk, Hu. cbn [calls]. apply wp_bind. unfold hsearch.
  apply wp_bind. eapply wp_mono; [apply (wp_hsearch_r t M item action ok); [done|done|lia]|].
  intros [[z r] t'] m' (-> & [(M1 & HR1 & Hstep) _ _ Hu' Hm']). simpl in *. apply wp_ret. cbn [fst snd].
  apply wp_bind. eapply wp_mono; [apply (IH t' M1); [done|done|done|done|lia|lia]|].
  intros [rs h] m' (-> & t2 & M2 & Hh & HR2 & Hc). apply wp_ret. split; [done|]. exists t2, M2.
  split_and!; [done|done|]. econstructor; [|done]. eapply map_step_small; [|done]. simpl. lia.
Qed.

(** C16: Searching terminates: in an array of [2 ^ k] entries with any contents
    at all, as long as one entry is free, [lookup] finds within [2 ^ k] probes
    an entry that is free or holds the key searched for, from any hash value
    and although both counters wrap around. *)
Theorem lookup_terminates t k es p h :
  array t k es -> Forall (fun e => key e <> 0 -> is_key (key e)) es -> is_key p ->
  (exists e, e ∈ es /\ key e = 0) -> 2 ^ k < Z.of_nat fuel ->
  exists n e, lookup fuel p h t m = Some (n, m) /\ es !! n = Some e /\ (key e = 0 \/ text (key e) = text p).
Proof.
  intros HA Hks Hp (e1 & Hin & Hz) Hf. pose proof (ar_k _ _ _ HA). pose proof (ar_len _ _ _ HA) as Hl.
  assert (count es < length es)%nat as Hc by (apply (length_filter_lt _ _ e1); [done|by intros H'; apply H']).
  destruct (first_slot k es (stops (text p)) h) as (n & e & Hn & He & HP & Hj); [lia|done|done|by left|].
  exists (pos k h n), e. split_and!; [|done|destruct HP as [HP|]; [left; by apply dec_stable|by right]].
  apply wp_elim. apply (wp_lookup_at t k es p h n e); done.
Qed.

(** C15: The hash table is a finite map.  After [hcreate], whatever memory it
    and later calls are given, a sequence of [hsearch] calls ends, without
    undefined behaviour and leaving memory alone, and the entries it returns
    are those of a finite map from strings: the entry stored first under an
    equal string if there is one, otherwise nothing on FIND and the item itself
    on ENTER, unless memory is short while the table grows, in which case the
    call returns null and the map keeps all its entries. *)
Theorem hash_table_correct ok ok' nel reqs :
  0 <= nel < 2 ^ 55 -> 8 * (nel + lenZ reqs + 2) < Z.of_nat fuel -> nel + lenZ reqs + 2 < 2 ^ 55 ->
  Forall (fun r => is_key (key r.1.2)) reqs ->
  exists r htab, hcreate fuel ok ok' nel m = Some ((r, htab), m) /\
    (htab = None -> r = 0 /\ (ok = false \/ ok' = false)) /\
    (is_Some htab -> r = 1 /\ exists rs t M, calls reqs htab m = Some ((rs, Some t), m) /\
       map_calls reqs ∅ rs M /\ represents t M).
Proof.
  intros Hn Hf Hb Hk. pose proof (wp_hcreate ok ok' nel ltac:(lia)) as Hw. unfold wp in Hw. unfold hcreate.
  destruct (__hcreate_r fuel ok ok' nel m) as [[[r htab] m1]|]; [|done]. destruct Hw as [-> Hw]. simpl in Hw.
  exists r, htab. split; [done|]. destruct htab as [t|]; [|naive_solver lia]. destruct Hw as (-> & HR & Hu & Hm).
  split; [done|]. intros _. split; [done|].
  pose proof (wp_calls (Z.to_nat (nel + lenZ reqs + 2)) reqs t ∅ ltac:(lia) ltac:(lia) Hk HR ltac:(lia) ltac:(lia)) as Hw.
  unfold wp in Hw. destruct (calls reqs (Some t) m) as [[[rs h] m2]|]; [|done].
  destruct Hw as (-> & t' & M' & Hh & HR' & Hc). simpl in Hh. subst h. by exists rs, t', M'.
Qed.
End table.

(** ** A small table *)

(** Three strings, "ab", "ba" and "ab" again, and a table that grows. *)
Definition words : memory := mem_write ∅ 64 [97; 98; 0; 0; 0; 0; 0; 0; 98; 97; 0; 0; 0; 0; 0; 0; 97; 98; 0; 0; 0; 0; 0; 0].
Definition word_text (p : Z) : list Z := if p =? 72 then [98; 97] else [97; 98].
Definition word_reqs : list (bool * ENTRY * ACTION) :=
  [(true, mk_entry 64 1, ENTER); (true, mk_entry 72 2, FIND); (true, mk_entry 80 3, ENTER); (true, mk_entry 72 4, ENTER)].

Lemma word_is_key p : p = 64 \/ p = 72 \/ p = 80 -> is_key words word_text 200 p.
Proof.
  intros Hp. split_and!; [lia| |destruct Hp as [-> |[-> | ->]]; simpl; lia].
  destruct Hp as [-> |[-> | ->]]; (split; [vm_compute; done|by apply (bool_decide_unpack _)|]); intros q Hq; unfold word_text in Hq; simpl length in Hq;
    unfold words; rewrite mem_write_lookup, decide_True by (simpl length; Z.to_euclidean_division_equations; lia); apply lookup_lt_is_Some_2; simpl length; Z.to_euclidean_division_equations; lia.
Qed.

Lemma word_reqs_keys : Forall (fun r => is_key words word_text 200 (key r.1.2)) word_reqs.
Proof. unfold word_reqs. repeat (apply List.Forall_cons; [apply word_is_key; simpl; lia|]). apply List.Forall_nil. Qed.

Lemma lookup_terminates_witness :
  exists n e, lookup 200 72 5 (mk_tab (Some (mk_entry 64 1 :: replicate 7 (mk_entry 0 0))) 7 1) words = Some (n, words) /\
    (mk_entry 64 1 :: replicate 7 (mk_entry 0 0)) !! n = Some e /\ (key e = 0 \/ word_text (key e) = [98; 97]).
Proof.
  apply (lookup_terminates words word_text 200 _ 3 (mk_entry 64 1 :: replicate 7 (mk_entry 0 0)) 72 5).
  - by split.
  - simpl replicate. repeat (apply List.Forall_cons; [first [done|intros _; apply word_is_key; simpl; lia]|]). apply List.Forall_nil.
  - apply word_is_key. lia.
  - exists (mk_entry 0 0). split; [|done]. apply list_elem_of_further, list_elem_of_here.
  - lia.
Defined.

Lemma hash_table_witness :
  exists r htab, hcreate 200 true true 3 words = Some ((r, htab), words) /\
    (htab = None -> r = 0 /\ (true = false \/ true = false)) /\
    (is_Some htab -> r = 1 /\ exists rs t M, calls 200 word_reqs htab words = Some ((rs, Some t), words) /\
       map_calls word_text word_reqs ∅ rs M /\ represents words word_text 200 t M).
Proof. apply (hash_table_correct words word_text 200 true true 3 word_reqs); [lia|simpl; lia|simpl; lia|apply word_reqs_keys]. Defined.

Example word_calls : (h ← hcreate 200 true true 3; calls 200 word_reqs h.2) words ≫= (fun r => Some r.1.1) =
  Some [Some (mk_entry 64 1); None; Some (mk_entry 64 1); Some (mk_entry 72 4)].
Proof. vm_compute. reflexivity. Qed.
