(* ===== verification/Qsort.v ===== *)
(** * Qsort: sorting and binary search, musl src/stdlib

    qsort.c (smoothsort, on elements of any width moved through a 256-byte
    buffer), qsort_nr.c and bsearch.c, on the memory of CMem. The comparison
    function is a parameter that sees the bytes of two elements; the arrays
    [ar] and [lp] of the C code are lists whose ends are checked, and a shift
    by the width of its operand is an error. *)

From S2P Require Import Prelude CMem MemBlock.
From Stdlib Require Import ZArith Lia Bool List.
From stdpp Require Import base tactics numbers list gmap option.
Open Scope Z_scope.

(** ** Bit sets of two words *)

(** internal/atomic.h *)
Definition debruijn64 : list Z :=
  [ 0;  1;  2; 53;  3;  7; 54; 27;  4; 38; 41;  8; 34; 55; 48; 28;
   62;  5; 39; 46; 44; 42; 22;  9; 24; 35; 59; 56; 49; 18; 29; 11;
   63; 52;  6; 26; 37; 40; 33; 47; 61; 45; 43; 21; 23; 58; 17; 10;
   51; 25; 36; 32; 60; 20; 57; 16; 50; 31; 19; 15; 30; 14; 13; 12].
Definition a_ctz_64 (x : Z) : Z :=
  nth (Z.to_nat (Z.shiftr (wrap64 (Z.land x (wrap64 (- x)) * 0x022fdd63cc95386d)) 58)) debruijn64 0.

(** [size_t p[2]] *)
Definition bits : Type := Z * Z.

Definition pntz (p : bits) : Z :=
  let r := a_ctz_64 (wrap64 (p.1 - 1)) in
  if truth r then r else
  let r := 64 + a_ctz_64 p.2 in
  if negb (r =? 64) then r else 0.

(** A shift is defined for amounts below the width. *)
Definition shift_ok (n : Z) : bool := (0 <=? n) && (n <? 64).

Definition shl (p : bits) (n : Z) : C bits :=
  let '(n, (p0, p1)) := if 64 <=? n then (n - 64, (0, p.1)) else (n, p) in
  if shift_ok n && shift_ok (64 - n) then
    mret (wrap64 (Z.shiftl p0 n), Z.lor (wrap64 (Z.shiftl p1 n)) (Z.shiftr p0 (64 - n)))
  else undef.

Definition shr (p : bits) (n : Z) : C bits :=
  let '(n, (p0, p1)) := if 64 <=? n then (n - 64, (p.2, 0)) else (n, p) in
  if shift_ok n && shift_ok (64 - n) then
    mret (Z.lor (Z.shiftr p0 n) (wrap64 (Z.shiftl p1 (64 - n))), Z.shiftr p1 n)
  else undef.

Definition single (p : bits) : bool := (p.1 =? 1) && (p.2 =? 0).

(** ** Local arrays *)

(** [a[i++] = x] in an array of [size] elements, [i] the number in use. *)
Definition append (size : nat) (a : list Z) (x : Z) : C (list Z) :=
  if (length a <? size)%nat then mret (a ++ [x]) else undef.
Definition elem (a : list Z) (i : Z) : C Z :=
  if i <? 0 then undef else match a !! Z.to_nat i with Some x => mret x | None => undef end.

Definition AR_SIZE : nat := 14 * 8 + 1.
Definition LP_SIZE : nat := 12 * 8.

Fixpoint load_bytes (n : nat) (p : Z) : C (list Z) :=
  match n with O => mret [] | S n => b ← load8 p; l ← load_bytes n (p + 1); mret (b :: l) end.

Section qsort.
(** The comparison function; where the buffer [tmp] of [cycle] is. *)
Context (cmp : list Z -> list Z -> Z) (tmp : Z) (fuel : nat).

Definition call_cmp (width p q : Z) : C Z :=
  x ← load_bytes (Z.to_nat width) p;
  y ← load_bytes (Z.to_nat width) q;
  mret (cmp x y).

(** ** Rotating elements *)

(** [for(i = 0; i < n; i++) memcpy(ar[i], ar[i + 1], l);] *)
Fixpoint copy_along (l : Z) (ar : list Z) : C unit :=
  match ar with
  | p :: (q :: _) as ar' => memcpy fuel p q l;; copy_along l ar'
  | _ => mret tt
  end.

Definition cycle (width : Z) (ar : list Z) : C unit :=
  if (length ar <? 2)%nat then mret tt else
  if (AR_SIZE <=? length ar)%nat then undef else
  loop fuel (fun '(width, ar) =>
      if truth width then
        let l := if 256 <? width then 256 else width in
        memcpy fuel tmp (hd 0 ar) l;;
        copy_along l (ar ++ [tmp]);;
        mret (inl (width - l, map (fun p => p + l) ar))
      else mret (inr tt)) (width, ar).

(** ** Heaps *)

Definition sift (head width pshift : Z) (lp : list Z) : C unit :=
  let ar0 := head in
  ar ← loop fuel (fun '(head, pshift, ar) =>
      if 1 <? pshift then
        let rt := head - width in
        l ← elem lp (pshift - 2);
        let lf := head - width - l in
        stop ← (c ← call_cmp width ar0 lf;
                if 0 <=? c then c ← call_cmp width ar0 rt; mret (0 <=? c) else mret false);
        if (stop : bool) then mret (inr ar) else
        c ← call_cmp width lf rt;
        if 0 <=? c then
          ar ← append AR_SIZE ar lf; mret (inl (lf, pshift - 1, ar))
        else
          ar ← append AR_SIZE ar rt; mret (inl (rt, pshift - 2, ar))
      else mret (inr ar)) (head, pshift, [head]);
  cycle width ar.

Definition trinkle (head width : Z) (pp : bits) (pshift : Z) (trusty : bool) (lp : list Z) : C unit :=
  let ar0 := head in
  '(head, pshift, trusty, ar) ← loop fuel (fun '(head, p, pshift, trusty, ar) =>
      if negb (single p) then
        l ← elem lp pshift;
        let stepson := head - l in
        c ← call_cmp width stepson ar0;
        if c <=? 0 then mret (inr (head, pshift, trusty, ar)) else
        stop ← (if negb trusty && (1 <? pshift) then
                  let rt := head - width in
                  l ← elem lp (pshift - 2);
                  let lf := head - width - l in
                  c ← call_cmp width rt stepson;
                  if 0 <=? c then mret true else c ← call_cmp width lf stepson; mret (0 <=? c)
                else mret false);
        if (stop : bool) then mret (inr (head, pshift, trusty, ar)) else
        ar ← append AR_SIZE ar stepson;
        let head := stepson in
        let trail := pntz p in
        p ← shr p trail;
        mret (inl (head, p, pshift + trail, false, ar))
      else mret (inr (head, pshift, trusty, ar))) (head, pp, pshift, trusty, [head]);
  if negb trusty then cycle width ar;; sift head width pshift lp else mret tt.

(** ** __qsort_r *)

(** The Leonardo numbers, scaled by the element width. *)
Definition fill_lp (width size : Z) : C (list Z) :=
  loop fuel (fun lp =>
      let i := Z.of_nat (length lp) in
      a ← elem lp (i - 2);
      b ← elem lp (i - 1);
      let x := wrap64 (a + b + width) in
      lp ← append LP_SIZE lp x;
      if x <? size then mret (inl lp) else mret (inr lp)) [width; width].

Definition build_step (width : Z) (lp : list Z) (high : Z) (s : Z * bits * Z) : C ((Z * bits * Z) + (Z * bits * Z)) :=
  let '(head, p, pshift) := s in
  if head <? high then
    '(p, pshift) ← (if Z.land p.1 3 =? 3 then
        sift head width pshift lp;;
        p ← shr p 2;
        mret (p, pshift + 2)
      else
        l ← elem lp (pshift - 1);
        (if high - head <=? l then trinkle head width p pshift false lp
         else sift head width pshift lp);;
        if pshift =? 1 then p ← shl p 1; mret (p, 0)
        else p ← shl p (pshift - 1); mret (p, 1));
    mret (inl (head + width, (Z.lor p.1 1, p.2), pshift))
  else mret (inr (head, p, pshift)).

Definition unwind_step (width : Z) (lp : list Z) (s : Z * bits * Z) : C ((Z * bits * Z) + unit) :=
  let '(head, p, pshift) := s in
  if negb (pshift =? 1) || negb (single p) then
    '(p, pshift) ← (if pshift <=? 1 then
        let trail := pntz p in
        p ← shr p trail;
        mret (p, pshift + trail)
      else
        p ← shl p 2;
        let pshift := pshift - 2 in
        let p := (Z.lxor p.1 7, p.2) in
        p ← shr p 1;
        l ← elem lp pshift;
        trinkle (head - l - width) width p (pshift + 1) true lp;;
        p ← shl p 1;
        let p := (Z.lor p.1 1, p.2) in
        trinkle (head - width) width p pshift true lp;;
        mret (p, pshift));
    mret (inl (head - width, p, pshift))
  else mret (inr tt).

Definition __qsort_r (base nel width : Z) : C unit :=
  let size := wrap64 (width * nel) in
  if size =? 0 then mret tt else
  let head := base in
  let high := head + size - width in
  lp ← fill_lp width size;
  '(head, p, pshift) ← loop fuel (build_step width lp high) (head, (1, 0), 1);
  trinkle head width p pshift false lp;;
  loop fuel (unwind_step width lp) (head, p, pshift).

(** qsort_nr.c: the comparison function is called through [wrapper_cmp]. *)
Definition qsort (base nel width : Z) : C unit := __qsort_r base nel width.

(** ** bsearch.c *)

(** The key is only handed to the comparison function. *)
Definition bsearch (key : list Z) (base nel width : Z) : C Z :=
  loop fuel (fun '(base, nel) =>
      if 0 <? nel then
        let try := base + width * (nel `div` 2) in
        y ← load_bytes (Z.to_nat width) try;
        let sign := cmp key y in
        if sign <? 0 then mret (inl (base, nel `div` 2))
        else if 0 <? sign then mret (inl (try + width, nel - (nel `div` 2 + 1)))
        else mret (inr try)
      else mret (inr 0)) (base, nel).
End qsort.
