(* ===== verification/Smooth.v ===== *)
(** * Smooth: Leonardo heaps

    The theory of smoothsort on arrays as functions from indices: trees of
    Leonardo size, the heap order, sifting along a path of swaps, a forest of
    heaps with ordered roots, and moving a root to its place in the forest.
    Qsort.v's code is related to it in QsortProofs.v. *)

From S2P Require Import Prelude.
From Stdlib Require Import ZArith Lia Bool List.
From stdpp Require Import base tactics numbers sets list sorting.
Open Scope Z_scope.

(** ** Leonardo numbers *)

Fixpoint L (n : nat) : Z :=
  match n with S ((S n2) as n1) => L n1 + L n2 + 1 | _ => 1 end.

Lemma L_SS n : L (S (S n)) = L (S n) + L n + 1.
Proof. done. Qed.
Lemma L_pos_mono n : 1 <= L n <= L (S n).
Proof.
  induction n as [n IH] using lt_wf_ind. destruct n as [|[|n]]; [simpl; lia..|].
  pose proof (IH n ltac:(lia)). pose proof (IH (S n) ltac:(lia)). rewrite (L_SS (S n)), (L_SS n) in *. lia.
Qed.
Lemma L_pos n : 1 <= L n.
Proof. apply L_pos_mono. Qed.
Lemma L_mono n k : (n <= k)%nat -> L n <= L k.
Proof. induction 1 as [|k _ IH]; [lia|]. pose proof (L_pos_mono k). lia. Qed.
Lemma L_lt n : (1 <= n)%nat -> L n < L (S n).
Proof. destruct n as [|n]; [lia|]. intros _. rewrite L_SS. pose proof (L_pos n). lia. Qed.

Fixpoint leo_pair (n : nat) : Z * Z :=
  match n with O => (1, 1) | S n => let '(x, y) := leo_pair n in (y, x + y + 1) end.
Lemma leo_pair_L n : leo_pair n = (L n, L (S n)).
Proof. induction n as [|n IH]; [done|]. cbn [leo_pair]. rewrite IH, (L_SS n). f_equal. lia. Qed.
Lemma leo_pair_fst n : (leo_pair n).1 = L n.
Proof. by rewrite leo_pair_L. Qed.
Lemma L_63 : 2 ^ 44 < L 63.
Proof.
  assert (2 ^ 44 < (leo_pair 63).1) as H by (vm_compute; reflexivity).
  rewrite leo_pair_fst in H. exact H.
Qed.

Section smooth.
Context {A : Type} (cmp : A -> A -> Z) {O : CmpOrder cmp}.

Definition le (x y : A) : Prop := cmp x y <= 0.
Definition leb (x y : A) : bool := cmp x y <=? 0.

Lemma le_refl x : le x x.
Proof. unfold le. rewrite (cmp_refl cmp). lia. Qed.
Lemma le_trans x y z : le x y -> le y z -> le x z.
Proof. apply (cmp_le_trans cmp). Qed.
Lemma ge_le x y : (0 <=? cmp x y) = leb y x.
Proof. unfold leb. pose proof (cmp_flip_le cmp y x). destruct (Z.leb_spec 0 (cmp x y)), (Z.leb_spec (cmp y x) 0); lia. Qed.
Lemma leb_true x y : leb x y = true -> le x y.
Proof. unfold leb, le. lia. Qed.
Lemma leb_false x y : leb x y = false -> le y x.
Proof. rewrite <- ge_le. unfold le. rewrite (cmp_flip_le cmp y x). intros. pose proof (cmp_flip cmp y x). lia. Qed.

(** ** Arrays and swaps *)

Definition array : Type := Z -> A.
Implicit Types a b : array.

Definition swap (i j : Z) a : array := fun k => if k =? i then a j else if k =? j then a i else a k.

(** [b] is [a] with elements of the range [lo..hi] swapped. *)
Inductive swaps (lo hi : Z) : array -> array -> Prop :=
  | swaps_refl a b : (forall i, b i = a i) -> swaps lo hi a b
  | swaps_step a b i j : lo <= i <= hi -> lo <= j <= hi -> swaps lo hi (swap i j a) b -> swaps lo hi a b.

Lemma swaps_frame lo hi a b : swaps lo hi a b -> forall i, ~ (lo <= i <= hi) -> b i = a i.
Proof.
  induction 1 as [a b H|a b i j Hi Hj _ IH]; intros k Hk; [done|]. rewrite IH by done. unfold swap.
  destruct (Z.eqb_spec k i), (Z.eqb_spec k j); (done || lia).
Qed.
Lemma swaps_from lo hi a b : swaps lo hi a b -> forall i, lo <= i <= hi -> exists j, lo <= j <= hi /\ b i = a j.
Proof.
  induction 1 as [a b H|a b i j Hi Hj _ IH]; intros k Hk; [by exists k|].
  destruct (IH k Hk) as (l & Hl & ->). unfold swap. destruct (Z.eqb_spec l i), (Z.eqb_spec l j); eauto.
Qed.
Lemma swaps_to lo hi a b : swaps lo hi a b -> forall i, lo <= i <= hi -> exists j, lo <= j <= hi /\ b j = a i.
Proof.
  induction 1 as [a b H|a b i j Hi Hj _ IH]; intros k Hk; [by exists k|].
  destruct (Z.eq_dec k i) as [->|Hki].
  - destruct (IH j Hj) as (l & Hl & E). exists l. split; [done|]. rewrite E. unfold swap.
    destruct (Z.eqb_spec j i) as [->|]; [done|]. by rewrite Z.eqb_refl.
  - destruct (Z.eq_dec k j) as [->|Hkj].
    + destruct (IH i Hi) as (l & Hl & E). exists l. split; [done|]. rewrite E. unfold swap. by rewrite Z.eqb_refl.
    + destruct (IH k Hk) as (l & Hl & E). exists l. split; [done|]. rewrite E. unfold swap.
      destruct (Z.eqb_spec k i), (Z.eqb_spec k j); done.
Qed.
Lemma swaps_trans lo hi a b c : swaps lo hi a b -> swaps lo hi b c -> swaps lo hi a c.
Proof.
  induction 1 as [a b H|a b i j Hi Hj _ IH]; intros Hc; [|eapply swaps_step; [exact Hi|exact Hj|by apply IH]].
  revert a H. induction Hc as [b c H'|b c i j Hi Hj _ IH]; intros a H.
  - apply swaps_refl. intros i. by rewrite H', H.
  - eapply swaps_step; [exact Hi|exact Hj|]. apply IH. intros k. unfold swap. by rewrite !H.
Qed.
Lemma swaps_weaken lo hi lo' hi' a b : lo' <= lo -> hi <= hi' -> swaps lo hi a b -> swaps lo' hi' a b.
Proof.
  intros H1 H2. induction 1; [by apply swaps_refl|]. eapply swaps_step; [..|done]; lia.
Qed.

Lemma swap_perm n a i j :
  0 <= i < n -> 0 <= j < n -> swap i j a <$> seqZ 0 n ≡ₚ a <$> seqZ 0 n.
Proof.
  intros Hi Hj. destruct (Z.eq_dec i j) as [->|Hij].
  { apply reflexive_eq, list_fmap_ext. intros k x _. unfold swap. by destruct (Z.eqb_spec x j) as [->|]. }
  assert (exists l, seqZ 0 n ≡ₚ i :: j :: l /\ i ∉ l /\ j ∉ l) as (l & Hl & H1 & H2).
  { assert (i ∈ seqZ 0 n) as Hin by (apply elem_of_seqZ; lia). apply elem_of_Permutation in Hin as [l1 H1].
    assert (j ∈ i :: l1) as Hjn by (rewrite <- H1; apply elem_of_seqZ; lia).
    apply elem_of_cons in Hjn as [|Hjn]; [done|]. apply elem_of_Permutation in Hjn as [l H2]. rewrite H2 in H1.
    pose proof (NoDup_seqZ 0 n) as Hnd. rewrite H1 in Hnd. apply NoDup_cons in Hnd as [N1 Hnd].
    apply NoDup_cons in Hnd as [N2 _]. exists l. split; [done|]. split; [|done]. set_solver. }
  rewrite Hl. cbn [fmap list_fmap]. unfold swap at 1 2. rewrite !Z.eqb_refl. destruct (Z.eqb_spec j i); [done|].
  rewrite Permutation_swap. do 2 constructor. apply reflexive_eq, list_fmap_ext. intros k x Hk.
  apply list_elem_of_lookup_2 in Hk. unfold swap. destruct (Z.eqb_spec x i) as [->|]; [done|]. by destruct (Z.eqb_spec x j) as [->|].
Qed.
Lemma swaps_perm n a b : swaps 0 (n - 1) a b -> b <$> seqZ 0 n ≡ₚ a <$> seqZ 0 n.
Proof.
  induction 1 as [a b H|a b i j Hi Hj _ IH].
  - apply reflexive_eq, list_fmap_ext. intros. apply H.
  - rewrite IH. apply swap_perm; lia.
Qed.

(** Every element of the path moves to its predecessor's place, the first to
    the end. *)
Fixpoint rot (p : Z) (path : list Z) a : array :=
  match path with [] => a | q :: path => rot q path (swap p q a) end.

Lemma rot_swaps lo hi path : forall p a,
  lo <= p <= hi -> Forall (fun q => lo <= q <= hi) path -> swaps lo hi a (rot p path a).
Proof.
  induction path as [|q path IH]; intros p a Hp Hf; [by apply swaps_refl|].
  apply Forall_cons in Hf as [Hq Hf]. simpl. eapply swaps_step; [exact Hp|exact Hq|]. by apply IH.
Qed.

(** ** Heaps *)

(** The tree of order [k] with its root at [h] occupies the [L k] places up
    to [h]; its subtrees have orders [k - 1] and [k - 2]. *)
Fixpoint heap a (h : Z) (k : nat) : Prop :=
  match k with
  | S ((S k2) as k1) =>
      le (a (h - 1 - L k2)) (a h) /\ le (a (h - 1)) (a h) /\ heap a (h - 1 - L k2) k1 /\ heap a (h - 1) k2
  | _ => True
  end.
(** A heap but for its root. *)
Definition kids a (h : Z) (k : nat) : Prop :=
  match k with
  | S ((S k2) as k1) => heap a (h - 1 - L k2) k1 /\ heap a (h - 1) k2
  | _ => True
  end.

Lemma heap_SS a h k :
  heap a h (S (S k)) <->
  le (a (h - 1 - L k)) (a h) /\ le (a (h - 1)) (a h) /\ heap a (h - 1 - L k) (S k) /\ heap a (h - 1) k.
Proof. done. Qed.

(** Induction on orders: the two smaller ones. *)
Lemma order_ind (P : nat -> Prop) :
  P 0%nat -> P 1%nat -> (forall k, P k -> P (S k) -> P (S (S k))) -> forall k, P k.
Proof.
  intros H0 H1 HS. assert (forall k, P k /\ P (S k)) as H; [|intros k; apply H].
  induction k as [|k [IH1 IH2]]; auto.
Qed.

Lemma heap_kids a h k : heap a h k -> kids a h k.
Proof. destruct k as [|[|k]]; [done..|]. intros (_ & _ & H1 & H2). by split. Qed.

Lemma heap_ext a b k : forall h, (forall i, h - L k < i <= h -> b i = a i) -> heap a h k -> heap b h k.
Proof.
  induction k as [| |k IH0 IH1] using order_ind; intros h He; [done..|]. rewrite !heap_SS. rewrite L_SS in He.
  pose proof (L_pos k). pose proof (L_pos (S k)). intros (H1 & H2 & H3 & H4). rewrite !He by lia.
  split_and!; [done|done|apply IH1; [|done]|apply IH0; [|done]]; intros i Hi; apply He; lia.
Qed.
Lemma kids_ext a b h k : (forall i, h - L k < i < h -> b i = a i) -> kids a h k -> kids b h k.
Proof.
  destruct k as [|[|k]]; [done..|]. rewrite L_SS. intros He [H1 H2]. pose proof (L_pos k). pose proof (L_pos (S k)).
  split; (eapply heap_ext; [|done]); intros i Hi; apply He; lia.
Qed.

Lemma heap_max a k : forall h, heap a h k -> forall i, h - L k < i <= h -> le (a i) (a h).
Proof.
  induction k as [| |k IH0 IH1] using order_ind; intros h; [simpl; intros _ i Hi; replace i with h by lia; apply le_refl..|].
  rewrite heap_SS, L_SS. intros (H1 & H2 & H3 & H4) i Hi.
  destruct (Z.eq_dec i h) as [->|]; [apply le_refl|]. destruct (Z_le_gt_dec i (h - 1 - L k)).
  - eapply le_trans; [by apply (IH1 _ H3); lia|done].
  - eapply le_trans; [by apply (IH0 _ H4); lia|done].
Qed.

(** The way [sift] goes down with the value [x] from [h]. *)
Fixpoint sift_path a (x : A) (h : Z) (k : nat) : list Z :=
  match k with
  | S ((S k2) as k1) =>
      let rt := h - 1 in
      let lf := h - 1 - L k2 in
      if leb (a lf) x && leb (a rt) x then []
      else if leb (a rt) (a lf) then lf :: sift_path a x lf k1 else rt :: sift_path a x rt k2
  | _ => []
  end.

Lemma sift_path_SS a x h k :
  sift_path a x h (S (S k)) =
  if leb (a (h - 1 - L k)) x && leb (a (h - 1)) x then []
  else if leb (a (h - 1)) (a (h - 1 - L k)) then (h - 1 - L k) :: sift_path a x (h - 1 - L k) (S k)
  else (h - 1) :: sift_path a x (h - 1) k.
Proof. done. Qed.

Lemma sift_path_ext a b x k : forall h, (forall i, h - L k < i < h -> b i = a i) -> sift_path b x h k = sift_path a x h k.
Proof.
  induction k as [| |k IH0 IH1] using order_ind; intros h He; [done..|]. rewrite !sift_path_SS. rewrite L_SS in He.
  pose proof (L_pos k). pose proof (L_pos (S k)). rewrite !He by lia.
  rewrite (IH1 (h - 1 - L k)) by (intros; apply He; lia). rewrite (IH0 (h - 1)) by (intros; apply He; lia). done.
Qed.
Lemma sift_path_range a x k : forall h, Forall (fun i => h - L k < i < h) (sift_path a x h k).
Proof.
  induction k as [| |k IH0 IH1] using order_ind; intros h; [constructor..|]. rewrite sift_path_SS, L_SS.
  pose proof (L_pos k). pose proof (L_pos (S k)).
  destruct (leb _ _ && leb _ _); [constructor|]. destruct (leb _ _); constructor; try lia.
  - eapply Forall_impl; [apply IH1|]. cbv beta. intros i Hi. lia.
  - eapply Forall_impl; [apply IH0|]. cbv beta. intros i Hi. lia.
Qed.

Definition sifted a (h : Z) (k : nat) : array := rot h (sift_path a (a h) h k) a.

Lemma sifted_swaps a h k : swaps (h - L k + 1) h a (sifted a h k).
Proof.
  pose proof (L_pos k). apply rot_swaps; [lia|]. eapply Forall_impl; [apply sift_path_range|]. cbv beta. intros i Hi. lia.
Qed.

(** One step down, to a child [c] that is no less than the root: the path
    goes on in the array with the two swapped. *)
Lemma sift_step a h c kc :
  c < h -> heap a c kc -> le (a h) (a c) ->
  let b := rot h (c :: sift_path a (a h) c kc) a in
  b = sifted (swap h c a) c kc /\ b h = a c /\ swaps (c - L kc + 1) c (swap h c a) b /\ le (b c) (a c).
Proof.
  intros Hc Hh Hle b. pose proof (L_pos kc).
  assert (Hc' : swap h c a c = a h) by (unfold swap; rewrite Z.eqb_refl; by destruct (Z.eqb_spec c h) as [->|]).
  assert (Hlow : forall i, i < c -> swap h c a i = a i).
  { intros i Hi. unfold swap. destruct (Z.eqb_spec i h), (Z.eqb_spec i c); (done || lia). }
  assert (b = sifted (swap h c a) c kc) as Hb.
  { unfold b, sifted. cbn [rot]. rewrite Hc'. f_equal. symmetry. apply sift_path_ext. intros i Hi. apply Hlow. lia. }
  assert (swaps (c - L kc + 1) c (swap h c a) b) as Hs by (rewrite Hb; apply sifted_swaps).
  split_and!; [done| |done|].
  - rewrite (swaps_frame _ _ _ _ Hs) by lia. unfold swap. by rewrite Z.eqb_refl.
  - destruct (swaps_from _ _ _ _ Hs c) as (j & Hj & ->); [lia|]. destruct (Z.eq_dec j c) as [->|]; [by rewrite Hc'|].
    rewrite Hlow by lia. apply (heap_max a kc c Hh). lia.
Qed.

(** The root sinks to its place. *)
Lemma sifted_heap k : forall a h, kids a h k -> heap (sifted a h k) h k.
Proof.
  induction k as [| |k IH0 IH1] using order_ind; intros a h; [done..|]. intros [H1 H2].
  pose proof (L_pos k). pose proof (L_pos (S k)). unfold sifted. rewrite sift_path_SS.
  destruct (leb (a (h - 1 - L k)) (a h) && leb (a (h - 1)) (a h)) eqn:Estop.
  { apply andb_true_iff in Estop as [E1 E2]. cbn [rot]. rewrite heap_SS. split_and!; auto using leb_true. }
  assert (Hbig : le (a h) (a (h - 1 - L k)) \/ le (a h) (a (h - 1))).
  { apply andb_false_iff in Estop as [E1|E1]; apply leb_false in E1; auto. }
  destruct (leb (a (h - 1)) (a (h - 1 - L k))) eqn:E; rewrite heap_SS.
  - apply leb_true in E. assert (le (a h) (a (h - 1 - L k))) as Hle by (destruct Hbig; [done|by eapply le_trans]).
    destruct (sift_step a h (h - 1 - L k) (S k)) as (Eb & Bh & Hs & Bc); [lia|done|done|].
    set (b := rot h _ a) in *. pose proof (swaps_frame _ _ _ _ Hs) as Hf. rewrite Bh.
    assert (Hrt : forall i, h - 1 - L k < i < h -> b i = a i).
    { intros i Hi. rewrite Hf by lia. unfold swap. destruct (Z.eqb_spec i h), (Z.eqb_spec i (h - 1 - L k)); (done || lia). }
    split_and!; [done|by rewrite Hrt by lia| |].
    + rewrite Eb. apply IH1. eapply kids_ext; [|by apply heap_kids]. intros i Hi. unfold swap.
      destruct (Z.eqb_spec i h), (Z.eqb_spec i (h - 1 - L k)); (done || lia).
    + eapply heap_ext; [|done]. intros i Hi. apply Hrt. lia.
  - apply leb_false in E. assert (le (a h) (a (h - 1))) as Hle by (destruct Hbig; [by eapply le_trans|done]).
    destruct (sift_step a h (h - 1) k) as (Eb & Bh & Hs & Bc); [lia|done|done|].
    set (b := rot h _ a) in *. pose proof (swaps_frame _ _ _ _ Hs) as Hf. rewrite Bh.
    assert (Hlf : forall i, i <= h - 1 - L k -> b i = a i).
    { intros i Hi. rewrite Hf by lia. unfold swap. destruct (Z.eqb_spec i h), (Z.eqb_spec i (h - 1)); (done || lia). }
    split_and!; [by rewrite Hlf by lia|done| |].
    + eapply heap_ext; [|done]. intros i Hi. apply Hlf. lia.
    + rewrite Eb. apply IH0. eapply kids_ext; [|by apply heap_kids]. intros i Hi. unfold swap.
      destruct (Z.eqb_spec i h), (Z.eqb_spec i (h - 1)); (done || lia).
Qed.
(** ** Forests *)

(** Heaps of the orders [ks], right to left, fill the array up to [h]. *)
Fixpoint forest a (ks : list nat) (h : Z) : Prop :=
  match ks with [] => h = -1 | k :: ks => heap a h k /\ forest a ks (h - L k) end.
(** Their roots are in order. *)
Fixpoint roots a (ks : list nat) (h : Z) : Prop :=
  match ks with
  | k :: ((_ :: _) as ks') => le (a (h - L k)) (a h) /\ roots a ks' (h - L k)
  | _ => True
  end.

Lemma roots_cons a k ks h : roots a (k :: ks) h <-> (ks <> [] -> le (a (h - L k)) (a h)) /\ roots a ks (h - L k).
Proof. destruct ks as [|k' ks]; [simpl; naive_solver|]. cbn [roots]. naive_solver. Qed.

Lemma forest_low a ks h : forest a ks h -> -1 <= h.
Proof.
  revert h. induction ks as [|k ks IH]; intros h; simpl; [lia|]. intros [_ H]. specialize (IH _ H). pose proof (L_pos k). lia.
Qed.
Lemma forest_ext a b ks h : (forall i, 0 <= i <= h -> b i = a i) -> forest a ks h -> forest b ks h.
Proof.
  revert h. induction ks as [|k ks IH]; intros h He; simpl; [done|]. intros [H1 H2].
  pose proof (forest_low _ _ _ H2). pose proof (L_pos k). split.
  - eapply heap_ext; [|done]. intros i Hi. apply He. lia.
  - apply IH; [|done]. intros i Hi. apply He. lia.
Qed.
Lemma roots_ext a b ks h : forest a ks h -> (forall i, 0 <= i <= h -> b i = a i) -> roots a ks h -> roots b ks h.
Proof.
  revert h. induction ks as [|k ks IH]; intros h Hf He; [done|]. rewrite !roots_cons. simpl in Hf. destruct Hf as [H1 H2].
  pose proof (L_pos k). intros [Hr1 Hr2]. split.
  - intros Hks. pose proof (forest_low _ _ _ H2). destruct ks as [|k' ks]; [done|]. simpl in H2. destruct H2 as [_ H2].
    pose proof (forest_low _ _ _ H2). pose proof (L_pos k'). rewrite !He by lia. by apply Hr1.
  - apply IH; [done| |done]. intros i Hi. apply He. lia.
Qed.
Lemma forest_max a ks h : forest a ks h -> roots a ks h -> forall i, 0 <= i <= h -> le (a i) (a h).
Proof.
  revert h. induction ks as [|k ks IH]; intros h; [simpl; lia|]. rewrite roots_cons. intros [H1 H2] [Hr1 Hr2] i Hi.
  destruct (Z_le_gt_dec i (h - L k)) as [Hle|]; [|apply (heap_max a k h H1); lia].
  eapply le_trans; [by apply (IH (h - L k)); [| |lia]|]. apply Hr1. intros ->. simpl in H2. lia.
Qed.

(** The way [trinkle] goes along the roots with the value [x], and where it
    ends: the root, the order and whether the tree there is still a heap. *)
Fixpoint trinkle_path a (x : A) (h : Z) (k : nat) (ks : list nat) (trusty : bool) : list Z * (Z * nat * bool) :=
  match ks with
  | [] => ([], (h, k, trusty))
  | k' :: ks' =>
      let s := h - L k in
      if leb (a s) x then ([], (h, k, trusty)) else
      if negb trusty && (1 <? k)%nat && (leb (a s) (a (h - 1)) || leb (a s) (a (h - 1 - L (k - 2)))) then ([], (h, k, trusty)) else
      let '(path, r) := trinkle_path a x s k' ks' false in (s :: path, r)
  end.

Definition trinkled a (h : Z) (k : nat) (ks : list nat) (trusty : bool) : array :=
  let '(path, (h', k', trusty')) := trinkle_path a (a h) h k ks trusty in
  if trusty' then a else sifted (rot h path a) h' k'.

Lemma trinkle_path_ext a b x ks : forall h k trusty,
  (forall i, i < h -> b i = a i) -> trinkle_path b x h k ks trusty = trinkle_path a x h k ks trusty.
Proof.
  induction ks as [|k' ks IH]; intros h k trusty He; [done|]. cbn [trinkle_path]. pose proof (L_pos k). pose proof (L_pos (k - 2)).
  rewrite (He (h - L k)), (He (h - 1)), (He (h - 1 - L (k - 2))) by lia.
  rewrite (IH (h - L k)) by (intros; apply He; lia). done.
Qed.
Lemma trinkle_false a x ks : forall h k, (trinkle_path a x h k ks false).2.2 = false.
Proof.
  induction ks as [|k1 ks IH]; intros h k; [done|]. cbn [trinkle_path]. destruct (leb _ x); [done|].
  match goal with |- context [if ?c then _ else _] => destruct c; [done|] end. specialize (IH (h - L k) k1). by destruct (trinkle_path _ _ _ _ _ _).
Qed.

(** Stopping: the value belongs to the tree at [h], which is sifted unless it
    is a heap already. *)
Lemma trinkle_stop a h k ks (trusty : bool) :
  kids a h k -> (trusty = true -> heap a h k) -> forest a ks (h - L k) -> roots a ks (h - L k) ->
  (ks <> [] -> exists i, h - L k < i <= h /\ le (a (h - L k)) (a i)) ->
  (trusty = true -> ks <> [] -> le (a (h - L k)) (a h)) ->
  let b := if trusty then a else sifted a h k in
  forest b (k :: ks) h /\ roots b (k :: ks) h /\ swaps 0 h a b.
Proof.
  intros Hk Ht Hf Hr Hs Hs' b. pose proof (L_pos k). pose proof (forest_low _ _ _ Hf).
  rewrite roots_cons. destruct trusty; unfold b.
  - specialize (Ht eq_refl). split_and!; [by split|auto|done|by apply swaps_refl].
  - pose proof (sifted_swaps a h k) as Hsw. pose proof (sifted_heap k a h Hk) as Hh.
    assert (He : forall i, 0 <= i <= h - L k -> sifted a h k i = a i) by (intros; apply (swaps_frame _ _ _ _ Hsw); lia).
    split_and!; [split; [done|by eapply forest_ext]| |by eapply roots_ext|].
    + intros Hks. destruct (Hs Hks) as (i & Hi & Hle).
      assert (0 <= h - L k).
      { destruct ks as [|k' ks]; [done|]. simpl in Hf. destruct Hf as [_ Hf]. pose proof (forest_low _ _ _ Hf). pose proof (L_pos k'). lia. }
      rewrite He by lia. eapply le_trans; [exact Hle|].
      destruct (swaps_to _ _ _ _ Hsw i) as (j & Hj & <-); [lia|]. apply (heap_max _ k h Hh). lia.
    + eapply swaps_weaken; [..|done]; lia.
Qed.

(** Moving on: the next root comes to [h]. *)
Lemma trinkle_move a h k k' ks trusty :
  leb (a (h - L k)) (a h) = false ->
  negb trusty && (1 <? k)%nat && (leb (a (h - L k)) (a (h - 1)) || leb (a (h - L k)) (a (h - 1 - L (k - 2)))) = false ->
  trinkled a h k (k' :: ks) trusty = trinkled (swap h (h - L k) a) (h - L k) k' ks false.
Proof.
  intros E1 E2. unfold trinkled. cbn [trinkle_path]. rewrite E1, E2. pose proof (L_pos k). set (s := h - L k) in *.
  assert (swap h s a s = a h) as ->.
  { unfold swap. rewrite Z.eqb_refl. destruct (Z.eqb_spec s h); [lia|done]. }
  rewrite (trinkle_path_ext a (swap h s a)).
  - pose proof (trinkle_false a (a h) ks s k') as Hf. destruct (trinkle_path a (a h) s k' ks false) as [path [[h1 k1] t]].
    simpl in Hf. subst t. done.
  - intros i Hi. unfold swap. destruct (Z.eqb_spec i h), (Z.eqb_spec i s); (done || lia).
Qed.

(** The root of the last tree comes to its place among the roots. *)
Lemma trinkled_ok ks : forall a h k trusty,
  kids a h k -> (trusty = true -> heap a h k) -> forest a ks (h - L k) -> roots a ks (h - L k) ->
  let b := trinkled a h k ks trusty in
  forest b (k :: ks) h /\ roots b (k :: ks) h /\ swaps 0 h a b.
Proof.
  induction ks as [|k' ks IH]; intros a h k trusty Hk Ht Hf Hr b.
  { unfold b, trinkled. cbn [trinkle_path rot]. by apply trinkle_stop. }
  destruct (leb (a (h - L k)) (a h)) eqn:E1.
  { unfold b, trinkled. cbn [trinkle_path]. rewrite E1. apply leb_true in E1. pose proof (L_pos k).
    apply trinkle_stop; auto. intros _. exists h. split; [lia|done]. }
  destruct (negb trusty && (1 <? k)%nat && (leb (a (h - L k)) (a (h - 1)) || leb (a (h - L k)) (a (h - 1 - L (k - 2))))) eqn:E2.
  { unfold b, trinkled. cbn [trinkle_path]. rewrite E1, E2. cbn [rot].
    apply andb_true_iff in E2 as [E2 E3]. apply andb_true_iff in E2 as [Et E2]. destruct trusty; [done|].
    apply Nat.ltb_lt in E2. apply (trinkle_stop a h k (k' :: ks) false); try done. intros _.
    pose proof (L_pos (k - 2)). pose proof (L_pos (S (k - 2))).
    assert (L k = L (S (k - 2)) + L (k - 2) + 1) by (rewrite <- L_SS; f_equal; lia).
    apply orb_true_iff in E3 as [E3|E3]; apply leb_true in E3; eexists; (split; [|exact E3]); lia. }
  unfold b. clear b. rewrite trinkle_move by done. apply leb_false in E1. pose proof (L_pos k). pose proof (L_pos k').
  set (s := h - L k) in *. set (a1 := swap h s a). pose proof Hf as [Hs Hf2]. pose proof (forest_low _ _ _ Hf2).
  assert (Hlow : forall i, i < s -> a1 i = a i).
  { intros i Hi. unfold a1, swap. destruct (Z.eqb_spec i h), (Z.eqb_spec i s); (done || lia). }
  assert (Hsv : a1 s = a h) by (unfold a1, swap; rewrite Z.eqb_refl; destruct (Z.eqb_spec s h); [lia|done]).
  assert (Hhv : a1 h = a s) by (unfold a1, swap; by rewrite Z.eqb_refl).
  pose proof Hr as Hr'. rewrite roots_cons in Hr'. destruct Hr' as [_ Hr2].
  destruct (IH a1 s k' false) as (F & R & W).
  - eapply kids_ext; [|by apply heap_kids]. intros i Hi. apply Hlow. lia.
  - done.
  - eapply forest_ext; [|done]. intros i Hi. apply Hlow. lia.
  - eapply roots_ext; [exact Hf2| |done]. intros i Hi. apply Hlow. lia.
  - set (b := trinkled a1 s k' ks false) in *. pose proof (swaps_frame _ _ _ _ W) as Wf.
    assert (Hbh : b h = a s) by (rewrite Wf by lia; done).
    assert (Hmid : forall i, s < i < h -> b i = a i).
    { intros i Hi. rewrite Wf by lia. unfold a1, swap. destruct (Z.eqb_spec i h), (Z.eqb_spec i s); (done || lia). }
    split_and!.
    + cbn [forest]. split; [|done]. destruct k as [|[|k]]; [done..|]. rewrite heap_SS. destruct Hk as [Hk1 Hk2].
      assert (s = h - (L (S k) + L k + 1)) by done. pose proof (L_pos k). pose proof (L_pos (S k)). rewrite (Hmid (h - 1)), (Hmid (h - 1 - L k)), Hbh by lia.
      assert (le (a (h - 1 - L k)) (a s) /\ le (a (h - 1)) (a s)) as [C1 C2].
      { destruct trusty.
        - destruct (Ht eq_refl) as (T1 & T2 & _). split; eapply le_trans; eauto.
        - cbn [negb andb Nat.ltb Nat.leb] in E2. apply orb_false_iff in E2 as [E2 E3]. apply leb_false in E2, E3.
          replace (S (S k) - 2)%nat with k in E3 by lia. done. }
      split; [done|]. split; [done|]. split; (eapply heap_ext; [|done]); intros i Hi; apply Hmid; lia.
    + rewrite roots_cons. split; [|done]. intros _. fold s. rewrite Hbh.
      destruct (swaps_from _ _ _ _ W s) as (j & Hj & ->); [lia|]. destruct (Z.eq_dec j s) as [->|]; [by rewrite Hsv|].
      rewrite Hlow by lia. apply (forest_max a (k' :: ks) s); [done|done|lia].
    + eapply (swaps_step 0 h a b h s); [lia|lia|]. eapply swaps_weaken; [| |exact W]; lia.
Qed.

(** ** Paths *)

Lemma sift_path_lt a x k h i : i ∈ sift_path a x h k -> h - L k < i < h.
Proof. revert i. apply Forall_forall, sift_path_range. Qed.

Lemma sift_path_NoDup a x k : forall h, NoDup (h :: sift_path a x h k).
Proof.
  intros h. apply NoDup_cons. split.
  { intros Hin. apply sift_path_lt in Hin. lia. }
  revert h. induction k as [| |k IH0 IH1] using order_ind; intros h; [constructor..|]. rewrite sift_path_SS.
  destruct (leb _ _ && leb _ _); [constructor|].
  assert (Hn : forall c j, c ∉ sift_path a x c j).
  { intros c j Hin. apply sift_path_lt in Hin. lia. }
  destruct (leb _ _); apply NoDup_cons; auto.
Qed.
Lemma sift_path_length a x k : forall h, (length (sift_path a x h k) <= k)%nat.
Proof.
  induction k as [| |k IH0 IH1] using order_ind; intros h; [simpl; lia..|]. rewrite sift_path_SS.
  destruct (leb _ _ && leb _ _); [simpl; lia|]. specialize (IH0 (h - 1)). specialize (IH1 (h - 1 - L k)).
  destruct (leb _ _); cbn [length]; lia.
Qed.

(** The number of elements of the forest. *)
Fixpoint size (ks : list nat) : Z := match ks with [] => 0 | k :: ks => L k + size ks end.
Lemma size_nonneg ks : 0 <= size ks.
Proof. induction ks as [|k ks IH]; simpl; [lia|]. pose proof (L_pos k). lia. Qed.
Lemma forest_size a ks h : forest a ks h -> h = size ks - 1.
Proof. revert h. induction ks as [|k ks IH]; intros h; simpl; [lia|]. intros [_ H]. apply IH in H. lia. Qed.

Lemma trinkle_path_range a x ks : forall h k trusty,
  h = L k + size ks - 1 ->
  let '(path, (h', k', _)) := trinkle_path a x h k ks trusty in
  Forall (fun i => 0 <= i < h) path /\ NoDup path /\ (length path <= length ks)%nat /\
  k' ∈ k :: ks /\ -1 <= h' - L k' /\ h' <= h.
Proof.
  induction ks as [|k1 ks IH]; intros h k trusty Hh.
  { simpl in *. split_and!; [constructor|constructor|lia|by left|lia|lia]. }
  cbn [trinkle_path]. pose proof (L_pos k). pose proof (L_pos k1). pose proof (size_nonneg ks). cbn [size] in Hh.
  assert (Hstop : Forall (fun i => 0 <= i < h) [] /\ NoDup (@nil Z) /\ (length (@nil Z) <= length (k1 :: ks))%nat /\
    k ∈ k :: k1 :: ks /\ -1 <= h - L k /\ h <= h).
  { split_and!; [constructor|constructor|simpl; lia|by left|lia|lia]. }
  destruct (leb (a (h - L k)) x); [done|].
  match goal with |- context [if ?c then _ else _] => destruct c; [done|] end.
  specialize (IH (h - L k) k1 false ltac:(lia)).
  destruct (trinkle_path a x (h - L k) k1 ks false) as [path [[h' k'] t]]. destruct IH as (Q1 & Q2 & H3 & H4 & H5 & H6).
  rewrite Forall_forall in Q1. split_and!.
  - apply Forall_cons. split; [lia|]. apply Forall_forall. intros i Hi. specialize (Q1 i Hi). cbv beta in Q1. lia.
  - apply NoDup_cons. split; [|done]. intros Hi. specialize (Q1 _ Hi). cbv beta in Q1. lia.
  - simpl. lia.
  - by right.
  - lia.
  - lia.
Qed.

(** What moves where: [follow] is the element that comes to [i]. *)
Fixpoint follow {V} (g : Z -> V) (x : V) (p : Z) (path : list Z) (i : Z) : option V :=
  if i =? p then Some (match path with [] => x | q :: _ => g q end)
  else match path with [] => None | q :: path => follow g x q path i end.

Lemma follow_none {V} (g : Z -> V) x path : forall p i, i ∉ p :: path -> follow g x p path i = None.
Proof.
  induction path as [|q path IH]; intros p i Hi; cbn [follow]; destruct (Z.eqb_spec i p) as [->|]; try (exfalso; apply Hi; by left); [done|].
  apply IH. intros H. apply Hi. by right.
Qed.
Lemma follow_none_inv {V} (g : Z -> V) x path : forall p i, follow g x p path i = None -> i ∉ p :: path.
Proof.
  induction path as [|q path IH]; intros p i; cbn [follow]; destruct (Z.eqb_spec i p) as [->|Hn]; try done.
  - intros _ Hi. apply list_elem_of_singleton in Hi. done.
  - intros H. apply IH in H. intros Hi. apply elem_of_cons in Hi as [|]; done.
Qed.
Lemma follow_ext {V} (g g' : Z -> V) x path : forall p i,
  (forall q, q ∈ path -> g' q = g q) -> follow g' x p path i = follow g x p path i.
Proof.
  induction path as [|q path IH]; intros p i He; cbn [follow]; [done|]. rewrite (He q) by by left.
  rewrite IH; [done|]. intros r Hr. apply He. by right.
Qed.
Lemma follow_fmap {V W} (f : V -> W) (g : Z -> V) x path : forall p i,
  follow (fun j => f (g j)) (f x) p path i = f <$> follow g x p path i.
Proof.
  induction path as [|q path IH]; intros p i; cbn [follow]; destruct (i =? p); try done; apply IH.
Qed.

Lemma rot_follow path : forall p a i, NoDup (p :: path) -> rot p path a i = default (a i) (follow a (a p) p path i).
Proof.
  induction path as [|q path IH]; intros p a i Hn; cbn [rot].
  { cbn [follow]. by destruct (Z.eqb_spec i p) as [->|]. }
  apply NoDup_cons in Hn as [Hp Hn]. rewrite IH by done.
  assert (swap p q a q = a p) as ->.
  { unfold swap. rewrite Z.eqb_refl. by destruct (Z.eqb_spec q p) as [->|]. }
  rewrite (follow_ext a (swap p q a)).
  2:{ intros r Hr. apply NoDup_cons in Hn as [Hq _]. unfold swap.
      destruct (Z.eqb_spec r p) as [->|]; [exfalso; apply Hp; by right|]. by destruct (Z.eqb_spec r q) as [->|]. }
  cbn [follow]. destruct (Z.eqb_spec i p) as [->|Hip].
  - fold (follow a (a p) q path p). rewrite follow_none by done. simpl. unfold swap. by rewrite Z.eqb_refl.
  - destruct (follow a (a p) q path i) eqn:E; fold (follow a (a p) q path i); rewrite ?E; [done|].
    apply follow_none_inv in E. simpl. unfold swap. destruct (Z.eqb_spec i p); [done|].
    destruct (Z.eqb_spec i q) as [->|]; [exfalso; apply E; by left|done].
Qed.
End smooth.
