(* ===== verification/QsortBits.v ===== *)
(** * QsortBits: the orders of the trees as a bit set

    qsort.c keeps the orders of the trees in two words and a shift count.
    Here: counting trailing zeros by a de Bruijn sequence, and what the shifts
    and the bit operations of the two phases do to the set, for orders that
    fit one word. *)

From S2P Require Import Prelude CMem Qsort.
From Stdlib Require Import ZArith Lia Bool List.
From stdpp Require Import base tactics numbers sets list gmap option sorting.
Open Scope Z_scope.

(** ** Counting trailing zeros *)

Lemma land_opp_odd q : Z.land (2 * q + 1) (- (2 * q + 1)) = 1.
Proof.
  apply Z.bits_inj'. intros i Hi. rewrite Z.land_spec.
  replace (- (2 * q + 1)) with (Z.lnot (2 * q)) by (unfold Z.lnot; lia).
  destruct (Z.eq_dec i 0) as [->|Hi0].
  - rewrite Z.lnot_spec by lia. by rewrite Z.testbit_odd_0, Z.testbit_even_0.
  - rewrite Z.lnot_spec by lia. replace i with (Z.succ (i - 1)) by lia.
    rewrite Z.testbit_odd_succ, Z.testbit_even_succ by lia. destruct (Z.testbit q (i - 1)); simpl;
    symmetry; apply Z.bits_above_log2; simpl; lia.
Qed.
Lemma land_opp_pow d q : 0 <= d -> Z.land (2 ^ d * (2 * q + 1)) (- (2 ^ d * (2 * q + 1))) = 2 ^ d.
Proof.
  intros Hd. rewrite !(Z.mul_comm (2 ^ d)), <- Z.mul_opp_l, <- !Z.shiftl_mul_pow2 by done.
  rewrite <- Z.shiftl_land, land_opp_odd, Z.shiftl_mul_pow2 by done. lia.
Qed.

Lemma debruijn_pow d : (d < 64)%nat ->
  nth (Z.to_nat (Z.shiftr (wrap64 (2 ^ Z.of_nat d * 0x022fdd63cc95386d)) 58)) debruijn64 0 = Z.of_nat d.
Proof.
  intros Hd. do 64 (destruct d as [|d]; [vm_compute; reflexivity|]). lia.
Qed.

Lemma a_ctz_64_ok d q : 0 <= d < 64 -> a_ctz_64 (2 ^ d * (2 * q + 1)) = d.
Proof.
  intros Hd. unfold a_ctz_64, wrap at 2. rewrite <- Z.land_ones, Z.land_assoc, land_opp_pow, Z.land_ones by lia.
  rewrite Z.mod_small by (split; [lia|apply Z.pow_lt_mono_r; lia]).
  replace d with (Z.of_nat (Z.to_nat d)) by lia. apply debruijn_pow. lia.
Qed.

(** ** Orders as bits *)

Fixpoint enc (b : nat) (ks : list nat) : Z :=
  match ks with [] => 0 | k :: ks => 2 ^ Z.of_nat (k - b) + enc b ks end.

(** Orders from [lo] on, apart by at least two, the first one excepted. *)
Fixpoint spaced (lo : nat) (ks : list nat) : Prop :=
  match ks with [] => True | k :: ks => (lo <= k)%nat /\ spaced (S (S k)) ks end.
Definition shape (ks : list nat) : Prop := match ks with [] => True | k :: ks => spaced (S k) ks end.
Definition upto (K : nat) (ks : list nat) : Prop := Forall (fun k => (k <= K)%nat) ks.

Lemma spaced_weaken lo lo' ks : (lo' <= lo)%nat -> spaced lo ks -> spaced lo' ks.
Proof. destruct ks as [|k ks]; [done|]. simpl. intros H [H1 H2]. split; [lia|done]. Qed.
Lemma spaced_ge lo ks k : spaced lo ks -> k ∈ ks -> (lo <= k)%nat.
Proof.
  revert lo. induction ks as [|k' ks IH]; intros lo Hs Hk; [by apply not_elem_of_nil in Hk|]. simpl in Hs. destruct Hs as [H1 H2].
  apply elem_of_cons in Hk as [->|Hk]; [done|]. specialize (IH _ H2 Hk). lia.
Qed.

Lemma enc_nonneg b ks : 0 <= enc b ks.
Proof. induction ks as [|k ks IH]; simpl; [lia|]. pose proof (Z.pow_pos_nonneg 2 (Z.of_nat (k - b))). lia. Qed.
Lemma enc_up b d ks : (forall k, k ∈ ks -> (b + d <= k)%nat) -> enc b ks = 2 ^ Z.of_nat d * enc (b + d) ks.
Proof.
  induction ks as [|k ks IH]; intros H; simpl; [lia|]. rewrite IH by (intros; apply H; by right).
  specialize (H k ltac:(by left)). replace (k - b)%nat with (d + (k - (b + d)))%nat by lia.
  rewrite Nat2Z.inj_add, Z.pow_add_r by lia. lia.
Qed.
Lemma enc_bound b lo K ks : spaced lo ks -> upto K ks -> (b <= lo)%nat -> (lo <= S K)%nat ->
  enc b ks <= 2 ^ Z.of_nat (S K - b) - 2 ^ Z.of_nat (lo - b).
Proof.
  revert lo. induction ks as [|k ks IH]; intros lo Hs Hu Hb Hlo.
  - simpl. pose proof (Z.pow_le_mono_r 2 (Z.of_nat (lo - b)) (Z.of_nat (S K - b))). lia.
  - cbn [enc]. simpl in Hs. destruct Hs as [H1 H2]. apply Forall_cons in Hu as [Hk Hu].
    assert (spaced (S k) ks) as H2' by (eapply spaced_weaken; [|done]; lia).
    specialize (IH (S k) H2' Hu ltac:(lia) ltac:(lia)).
    assert (2 ^ Z.of_nat (S k - b) = 2 * 2 ^ Z.of_nat (k - b)) as E.
    { replace (S k - b)%nat with (S (k - b)) by lia. rewrite Nat2Z.inj_succ, Z.pow_succ_r by lia. done. }
    pose proof (Z.pow_le_mono_r 2 (Z.of_nat (lo - b)) (Z.of_nat (k - b))). lia.
Qed.

(** The bit set of a shape whose orders are at most 62 fits one word. *)
Lemma enc_word b k ks : shape (k :: ks) -> upto 62 (k :: ks) -> (b <= k)%nat -> 0 < enc b (k :: ks) < 2 ^ 63.
Proof.
  intros Hs Hu Hb. simpl in Hs. apply Forall_cons in Hu as [Hk Hu].
  pose proof (enc_bound b (S k) 62 ks Hs Hu ltac:(lia) ltac:(lia)) as H. cbn [enc].
  pose proof (Z.pow_pos_nonneg 2 (Z.of_nat (k - b))).  pose proof (enc_nonneg b ks).
  assert (2 ^ Z.of_nat (S k - b) = 2 * 2 ^ Z.of_nat (k - b)) as E.
  { replace (S k - b)%nat with (S (k - b)) by lia. rewrite Nat2Z.inj_succ, Z.pow_succ_r by lia. done. }
  pose proof (Z.pow_le_mono_r 2 (Z.of_nat (63 - b)) 63 ltac:(lia) ltac:(lia)). lia.
Qed.

Lemma enc_head k ks : enc k (k :: ks) = 1 + enc k ks.
Proof. cbn [enc]. by rewrite Nat.sub_diag. Qed.

(** ** Operations on the bit set *)

Lemma wp_shl P n m Q : 0 < n < 64 -> 0 <= P -> P * 2 ^ n < 2 ^ 64 -> Q (P * 2 ^ n, 0) m -> wp (shl (P, 0) n) m Q.
Proof.
  intros Hn HP Hb HQ. unfold shl. destruct (Z.leb_spec 64 n); [lia|]. unfold shift_ok.
  rewrite !(proj2 (Z.leb_le _ _)), !(proj2 (Z.ltb_lt _ _)) by lia. cbn [andb]. apply wp_ret.
  rewrite Z.shiftl_0_l, Z.shiftl_mul_pow2, wrap_small by (unfold in_range; lia).
  rewrite Z.shiftr_div_pow2, Z.div_small; [done| |lia]. split; [done|].
  assert (2 ^ 64 = 2 ^ (64 - n) * 2 ^ n) as E by (rewrite <- Z.pow_add_r by lia; f_equal; lia).
  pose proof (Z.pow_pos_nonneg 2 n). nia.
Qed.
Lemma wp_shr P n m Q : 0 < n < 64 -> Q (P / 2 ^ n, 0) m -> wp (shr (P, 0) n) m Q.
Proof.
  intros Hn HQ. unfold shr. destruct (Z.leb_spec 64 n); [lia|]. unfold shift_ok.
  rewrite !(proj2 (Z.leb_le _ _)), !(proj2 (Z.ltb_lt _ _)) by lia. cbn [andb]. apply wp_ret.
  rewrite Z.shiftl_0_l, Z.shiftr_0_l, Z.shiftr_div_pow2 by lia. change (wrap64 0) with 0. by rewrite Z.lor_0_r.
Qed.

Lemma lor_1 x : Z.lor (2 * x) 1 = 2 * x + 1.
Proof.
  symmetry. rewrite Z.add_nocarry_lxor, Z.lxor_lor; [done|..]; apply Z.bits_inj'; intros i Hi; rewrite Z.land_spec, Z.bits_0;
    (destruct (Z.eq_dec i 0) as [->|]; [by rewrite Z.testbit_even_0|]);
    rewrite andb_comm, (Z.bits_above_log2 1) by (simpl; lia); done.
Qed.
Lemma lxor_7 x : Z.lxor (8 * x + 4) 7 = 8 * x + 3.
Proof.
  assert (forall y, 0 <= y < 8 -> Z.lxor (8 * x) y = 8 * x + y) as H.
  { intros y Hy. symmetry. apply Z.add_nocarry_lxor. apply Z.bits_inj'. intros i Hi. rewrite Z.land_spec, Z.bits_0.
    destruct (Z_lt_dec i 3).
    - replace (8 * x) with (x * 2 ^ 3) by lia. by rewrite Z.mul_pow2_bits_low by lia.
    - rewrite andb_comm. destruct (Z.eq_dec y 0) as [->|]; [by rewrite Z.bits_0|].
      rewrite (Z.bits_above_log2 y); [done|lia|]. apply Z.log2_lt_pow2; [lia|]. pose proof (Z.pow_le_mono_r 2 3 i). lia. }
  rewrite <- (H 4), Z.lxor_assoc by lia. change (Z.lxor 4 7) with 3. apply H. lia.
Qed.

Section bitset.
Context (K : nat) (HK : (K <= 62)%nat).
Implicit Types (k : nat) (ks : list nat).

(** The bit set of the trees [k :: ks], bit 0 for the order [k]. *)
Definition bitset k ks : bits := (enc k (k :: ks), 0).

Lemma enc_shape_up k ks d : spaced (k + d) ks -> enc k ks = 2 ^ Z.of_nat d * enc (k + d) ks.
Proof. intros H. apply enc_up. intros k' Hk'. by eapply spaced_ge. Qed.

Lemma enc_pos b ks : ks <> [] -> 0 < enc b ks.
Proof.
  destruct ks as [|k ks]; [done|]. intros _. cbn [enc]. pose proof (enc_nonneg b ks).
  pose proof (Z.pow_pos_nonneg 2 (Z.of_nat (k - b))). lia.
Qed.

Lemma single_bitset k ks : single (bitset k ks) = bool_decide (ks = []).
Proof.
  unfold single, bitset. cbn [fst snd]. rewrite enc_head, andb_true_r. destruct ks as [|k' ks]; [done|].
  rewrite bool_decide_false by done. pose proof (enc_pos k (k' :: ks) ltac:(done)). destruct (Z.eqb_spec (1 + enc k (k' :: ks)) 1); [lia|done].
Qed.

Lemma enc_step k k' ks : (k < k')%nat -> spaced (S (S k')) ks ->
  exists q, enc k (k' :: ks) = 2 ^ Z.of_nat (k' - k) * (2 * q + 1) /\ enc k' (k' :: ks) = 2 * q + 1.
Proof.
  intros Hk Hs. exists (enc (k' + 1) ks).
  assert (enc k' (k' :: ks) = 2 * enc (k' + 1) ks + 1) as E.
  { rewrite enc_head, (enc_shape_up k' ks 1); [lia|]. eapply spaced_weaken; [|done]. lia. }
  split; [|done]. rewrite <- E. rewrite (enc_up k (k' - k)).
  - by replace (k + (k' - k))%nat with k' by lia.
  - intros j Hj. apply elem_of_cons in Hj as [->|Hj]; [lia|]. pose proof (spaced_ge _ _ _ Hs Hj). lia.
Qed.

Lemma pntz_bitset k k' ks : shape (k :: k' :: ks) -> upto K (k :: k' :: ks) ->
  pntz (bitset k (k' :: ks)) = Z.of_nat k' - Z.of_nat k.
Proof.
  intros Hs Hu. assert (upto 62 (k :: k' :: ks)) as Hu' by (eapply Forall_impl; [exact Hu|]; cbv beta; lia).
  pose proof (enc_word k k (k' :: ks) Hs Hu' ltac:(lia)) as Hb. simpl in Hs. destruct Hs as [Hk Hs].
  destruct (enc_step k k' ks) as (q & E & _); [lia|done|]. unfold pntz, bitset. cbn [fst snd]. rewrite enc_head in *.
  replace (1 + enc k (k' :: ks) - 1) with (enc k (k' :: ks)) by lia.
  pose proof (enc_nonneg k (k' :: ks)). rewrite wrap_small by (unfold in_range; lia).
  apply Forall_cons in Hu as [_ Hu]. apply Forall_cons in Hu as [Hk' _].
  rewrite E, a_ctz_64_ok by lia. unfold truth. destruct (Z.eqb_spec (Z.of_nat (k' - k)) 0); [lia|]. cbn [negb]. lia.
Qed.

Lemma wp_shr_next k k' ks m Q : shape (k :: k' :: ks) -> upto K (k :: k' :: ks) ->
  Q (bitset k' ks) m -> wp (shr (bitset k (k' :: ks)) (Z.of_nat k' - Z.of_nat k)) m Q.
Proof.
  intros Hs Hu HQ. apply Forall_cons in Hu as [_ Hu]. apply Forall_cons in Hu as [Hk' _]. simpl in Hs. destruct Hs as [Hk Hs].
  apply wp_shr; [lia|]. destruct (enc_step k k' ks) as (q & E & E'); [lia|done|]. rewrite enc_head, E.
  replace (Z.of_nat k' - Z.of_nat k) with (Z.of_nat (k' - k)) by lia. unfold bitset in HQ. rewrite E' in HQ.
  rewrite Z.mul_comm, Z.add_comm, Z.div_add_l by (apply Z.pow_nonzero; lia). rewrite Z.div_small; [by rewrite Z.add_0_r|].
  split; [lia|]. apply Z.pow_gt_1; lia.
Qed.

Lemma two_last k ks : shape (k :: ks) ->
  (Z.land (bitset k ks).1 3 =? 3) = match ks with k' :: _ => bool_decide (k' = S k) | [] => false end.
Proof.
  intros Hs. unfold bitset. cbn [fst]. rewrite enc_head. change 3 with (Z.ones 2) at 1. rewrite Z.land_ones by lia.
  destruct ks as [|k' ks]; [done|]. simpl in Hs. destruct Hs as [Hk Hs]. case_bool_decide as Hkk.
  - subst k'. cbn [enc]. replace (S k - k)%nat with 1%nat by lia.
    rewrite (enc_shape_up k ks 2) by (eapply spaced_weaken; [|done]; lia). apply Z.eqb_eq.
    change (2 ^ Z.of_nat 2) with 4. change (2 ^ Z.of_nat 1) with 2. change (2 ^ 2) with 4.
    symmetry. apply (Z.mod_unique_pos _ _ (enc (k + 2) ks)); lia.
  - rewrite (enc_shape_up k (k' :: ks) 2) by (simpl; split; [lia|done]). apply Z.eqb_neq.
    change (2 ^ Z.of_nat 2) with 4. change (2 ^ 2) with 4.
    rewrite <- (Z.mod_unique_pos (1 + 4 * enc (k + 2) (k' :: ks)) 4 (enc (k + 2) (k' :: ks)) 1) by lia. lia.
Qed.

(** Merging the last two trees. *)
Lemma wp_merge k ks m Q : shape (k :: S k :: ks) ->
  (forall p, (Z.lor p.1 1, p.2) = bitset (S (S k)) ks -> Q p m) -> wp (shr (bitset k (S k :: ks)) 2) m Q.
Proof.
  intros [_ Hs] HQ. apply wp_shr; [lia|]. apply HQ. cbn [fst snd]. unfold bitset. f_equal. rewrite !enc_head. cbn [enc].
  replace (S k - k)%nat with 1%nat by lia. rewrite (enc_shape_up k ks 2) by (eapply spaced_weaken; [|done]; lia).
  replace (k + 2)%nat with (S (S k)) by lia. rewrite (enc_shape_up (S (S k)) ks 1) by (eapply spaced_weaken; [|done]; lia).
  set (x := enc _ ks). change (2 ^ Z.of_nat 2) with 4. change (2 ^ Z.of_nat 1) with 2. change (2 ^ 2) with 4.
  replace (1 + (2 + 4 * (2 * x))) with (3 + (2 * x) * 4) by lia. rewrite Z.div_add by lia. simpl (3 / 4).
  rewrite Z.add_0_l, lor_1. lia.
Qed.

(** A new tree of order [b] after the others. *)
Lemma wp_new_tree b k ks m Q : shape (k :: ks) -> upto K (k :: ks) -> (b < k)%nat ->
  (forall p, (Z.lor p.1 1, p.2) = bitset b (k :: ks) -> Q p m) -> wp (shl (bitset k ks) (Z.of_nat k - Z.of_nat b)) m Q.
Proof.
  intros Hs Hu Hb HQ. assert (upto 62 (k :: ks)) as Hu' by (eapply Forall_impl; [exact Hu|]; cbv beta; lia).
  pose proof (enc_word b k ks Hs Hu' ltac:(lia)) as Hbd.
  assert (E : enc b (k :: ks) = 2 ^ Z.of_nat (k - b) * enc k (k :: ks)).
  { rewrite (enc_up b (k - b)); [by replace (b + (k - b))%nat with k by lia|].
    intros j Hj. apply elem_of_cons in Hj as [->|Hj]; [lia|]. pose proof (spaced_ge _ _ _ Hs Hj). lia. }
  replace (Z.of_nat k - Z.of_nat b) with (Z.of_nat (k - b)) by lia. apply Forall_cons in Hu as [Hk _].
  apply wp_shl; [lia|apply enc_nonneg|lia|]. apply HQ. cbn [fst snd]. unfold bitset. f_equal.
  rewrite (enc_head b), (enc_up b 1), Nat2Z.inj_succ.
  - rewrite Z.mul_comm, <- E, (enc_up b 1).
    + rewrite Nat2Z.inj_succ. change (2 ^ Z.succ (Z.of_nat 0)) with 2. rewrite lor_1. lia.
    + intros j Hj. apply elem_of_cons in Hj as [->|Hj]; [lia|]. pose proof (spaced_ge _ _ _ Hs Hj). lia.
  - intros j Hj. apply elem_of_cons in Hj as [->|Hj]; [lia|]. pose proof (spaced_ge _ _ _ Hs Hj). lia.
Qed.

(** Splitting the last tree: the bit sets with its left subtree and with both. *)
Lemma split_left k ks m Q : shape (S (S k) :: ks) -> upto K (S (S k) :: ks) ->
  Q (bitset (S k) ks) m ->
  wp (p ← shl (bitset (S (S k)) ks) 2; shr (Z.lxor p.1 7, p.2) 1) m Q.
Proof.
  intros Hs Hu HQ. assert (upto 62 (S (S k) :: ks)) as Hu' by (eapply Forall_impl; [exact Hu|]; cbv beta; lia).
  pose proof (enc_word k (S (S k)) ks Hs Hu' ltac:(lia)) as Hbd.
  assert (E : enc k (S (S k) :: ks) = 4 * enc (S (S k)) (S (S k) :: ks)).
  { rewrite (enc_up k 2); [by replace (k + 2)%nat with (S (S k)) by lia|].
    intros j Hj. apply elem_of_cons in Hj as [->|Hj]; [lia|]. pose proof (spaced_ge _ _ _ Hs Hj). lia. }
  apply wp_bind, wp_shl; [lia|apply enc_nonneg|change (2 ^ 2) with 4; lia|]. cbn [fst snd]. simpl in Hs.
  change (2 ^ 2) with 4.
  rewrite enc_head, (enc_shape_up (S (S k)) ks 1) by (eapply spaced_weaken; [|done]; lia).
  change (2 ^ Z.of_nat 1) with 2. set (x := enc _ ks). replace ((1 + 2 * x) * 4) with (8 * x + 4) by lia. rewrite lxor_7.
  apply wp_shr; [lia|]. change (2 ^ 1) with 2. replace (8 * x + 3) with (1 + (1 + 4 * x) * 2) by lia.
  rewrite Z.div_add by lia. change (1 / 2) with 0. unfold bitset in HQ.
  rewrite enc_head, (enc_shape_up (S k) ks 2) in HQ by (eapply spaced_weaken; [|done]; lia).
  change (2 ^ Z.of_nat 2) with 4 in HQ. rewrite Z.add_0_l. unfold x. by replace (S (S k) + 1)%nat with (S k + 2)%nat by lia.
Qed.
End bitset.
