(* ===== verification/QsortProofs.v ===== *)
(** * QsortProofs: qsort sorts, bsearch finds

    The code of Qsort.v on an array of elements in memory: rotating elements
    through the buffer, sifting and trinkling as the operations of Smooth.v,
    the two phases of smoothsort, and binary search. *)

From Stdlib Require Import ZArith Lia Bool List.
From stdpp Require Import base tactics numbers sets list gmap option sorting.
From S2P Require Import Prelude CMem MemBlock Qsort Smooth QsortBits.
Open Scope Z_scope.

Lemma wp_load_bytes l : forall p m (Q : list Z -> memory -> Prop),
  bytes_at m p l -> Q l m -> wp (load_bytes (length l) p) m Q.
Proof.
  induction l as [|b l IH]; intros p m Q Hl HQ; [done|]. destruct Hl as [Hb Hl]. cbn [length load_bytes].
  apply wp_bind. eapply wp_load8; [done|]. apply wp_bind. apply IH; [done|]. by apply wp_ret.
Qed.

Lemma wp_append size (ar : list Z) x m (Q : list Z -> memory -> Prop) :
  (length ar < size)%nat -> Q (ar ++ [x]) m -> wp (append size ar x) m Q.
Proof. intros Hs HQ. unfold append. destruct (Nat.ltb_spec (length ar) size); [by apply wp_ret|lia]. Qed.

(** ** Parts of elements *)

Definition chunk (off l : nat) (x : list Z) : list Z := take l (drop off x).
Definition splice (off : nat) (c x : list Z) : list Z := take off x ++ c ++ drop (off + length c) x.
(** The first [off] bytes of one element and the rest of the other. *)
Definition mix (off : nat) (x' x : list Z) : list Z := take off x' ++ drop off x.

Lemma length_splice off c x : (off + length c <= length x)%nat -> length (splice off c x) = length x.
Proof. intros H. unfold splice. rewrite !length_app, length_take, length_drop. lia. Qed.
Lemma chunk_mix off l x' x : length x' = length x -> (off + l <= length x)%nat -> chunk off l (mix off x' x) = chunk off l x.
Proof. intros E H. unfold chunk, mix. rewrite drop_app_ge by (rewrite length_take; lia). rewrite length_take, Nat.min_l, Nat.sub_diag by lia. done. Qed.
Lemma splice_mix off l x' x : length x' = length x -> (off + l <= length x)%nat ->
  splice off (chunk off l x') (mix off x' x) = mix (off + l) x' x.
Proof.
  intros E H. unfold splice, mix, chunk. rewrite length_take, length_drop, Nat.min_l by lia.
  rewrite take_app_le, take_take, Nat.min_id by (rewrite length_take; lia).
  rewrite drop_app_ge by (rewrite length_take; lia). rewrite length_take, Nat.min_l by lia.
  rewrite drop_drop. replace (off + l - off)%nat with l by lia. rewrite app_assoc. f_equal.
  symmetry. rewrite <- (take_drop off x') at 1. rewrite take_app_ge by (rewrite length_take; lia).
  rewrite length_take. do 2 f_equal. lia.
Qed.

Section memory.
Context (base tmp : Z) (w : nat) (n : Z).
Context (Hw : (0 < w)%nat).
Notation W := (Z.of_nat w).
(** The buffer is not part of the array. *)
Context (Hdis : tmp + 256 <= base \/ base + n * W <= tmp).

Definition addr (i : Z) : Z := base + i * W.

(** The elements [a] are in memory, and the buffer is mapped. *)
Record arr (m : memory) (a : Z -> list Z) : Prop := {
  arr_at : forall i, 0 <= i < n -> bytes_at m (addr i) (a i);
  arr_len : forall i, 0 <= i < n -> length (a i) = w;
  arr_byte : forall i, 0 <= i < n -> Forall is_byte (a i);
  arr_tmp : mapped m tmp 256
}.

(** Nothing outside the array and the buffer has changed. *)
Definition same_outside (m m' : memory) : Prop :=
  forall q, ~ (base <= q < base + n * W) -> ~ (tmp <= q < tmp + 256) -> m' !! q = m !! q.

Lemma same_refl m : same_outside m m.
Proof. done. Qed.
Lemma same_trans m1 m2 m3 : same_outside m1 m2 -> same_outside m2 m3 -> same_outside m1 m3.
Proof. intros H1 H2 q Hq Hq'. by rewrite H2, H1. Qed.

Lemma arr_ext m a b : (forall i, 0 <= i < n -> b i = a i) -> arr m a -> arr m b.
Proof. intros He [H1 H2 H3 H4]. split; [..|done]; intros i Hi; rewrite He by done; auto. Qed.

Definition upd (b : Z -> list Z) (i : Z) (v : list Z) : Z -> list Z := fun k => if k =? i then v else b k.

Lemma addr_apart i j : 0 <= i < n -> 0 <= j < n -> i <> j -> addr i + W <= addr j \/ addr j + W <= addr i.
Proof. intros. unfold addr. destruct (Z_lt_dec i j); nia. Qed.
Lemma addr_in i : 0 <= i < n -> base <= addr i /\ addr i + W <= base + n * W.
Proof. intros. unfold addr. nia. Qed.

(** Bytes written into an element. *)
Lemma arr_splice m b i off c :
  arr m b -> 0 <= i < n -> (off + length c <= w)%nat -> Forall is_byte c ->
  arr (mem_write m (addr i + Z.of_nat off) c) (upd b i (splice off c (b i))) /\
  same_outside m (mem_write m (addr i + Z.of_nat off) c).
Proof.
  intros [H1 H2 H3 H4] Hi Hc Hb. pose proof (addr_in i Hi) as Hin. split; [split|].
  - intros j Hj. unfold upd. destruct (Z.eqb_spec j i) as [->|Hji].
    + specialize (H1 i Hi). specialize (H2 i Hi). apply bytes_at_intro. intros o x Ho. rewrite mem_write_lookup.
      unfold splice in Ho. pose proof (lookup_lt_Some _ _ _ Ho) as Hlt. fold (splice off c (b i)) in Hlt. rewrite length_splice in Hlt by lia.
      case_decide as Hr.
      * rewrite lookup_app_r in Ho by (rewrite length_take; lia). rewrite length_take, Nat.min_l in Ho by lia.
        rewrite lookup_app_l in Ho by lia. rewrite <- Ho. f_equal. lia.
      * assert (b i !! o = Some x) as Ho'.
        { destruct (decide (o < off)%nat).
          - rewrite lookup_app_l in Ho by (rewrite length_take; lia). by rewrite lookup_take_lt in Ho by lia.
          - rewrite lookup_app_r in Ho by (rewrite length_take; lia). rewrite length_take, Nat.min_l in Ho by lia.
            rewrite lookup_app_r in Ho by lia. rewrite lookup_drop in Ho. rewrite <- Ho. f_equal. lia. }
        by eapply bytes_at_lookup in Ho'.
    + apply bytes_at_mem_write_disjoint; [|by apply H1]. rewrite H2 by done.
      pose proof (addr_apart i j Hi Hj ltac:(done)). unfold disjoint_ranges. lia.
  - intros j Hj. unfold upd. destruct (Z.eqb_spec j i) as [->|]; [|auto]. rewrite length_splice; [auto|]. rewrite H2 by done. lia.
  - intros j Hj. unfold upd. destruct (Z.eqb_spec j i) as [->|]; [|auto]. unfold splice. rewrite !Forall_app.
    split_and!; [apply Forall_take|done|apply Forall_drop]; auto.
  - by apply mapped_mem_write.
  - intros q Hq _. rewrite mem_write_ne; [done|]. lia.
Qed.

Lemma arr_chunk m b i off l :
  arr m b -> 0 <= i < n -> (off + l <= w)%nat ->
  bytes_at m (addr i + Z.of_nat off) (chunk off l (b i)) /\ length (chunk off l (b i)) = l /\ Forall is_byte (chunk off l (b i)).
Proof.
  intros [H1 H2 H3 _] Hi Hl. unfold chunk. specialize (H1 i Hi). specialize (H2 i Hi). specialize (H3 i Hi). split_and!.
  - rewrite <- (take_drop off (b i)), bytes_at_app in H1. destruct H1 as [_ H1]. rewrite length_take, Nat.min_l in H1 by lia.
    rewrite <- (take_drop l (drop off (b i))), bytes_at_app in H1. apply H1.
  - rewrite length_take, length_drop. lia.
  - by apply Forall_take, Forall_drop.
Qed.

(** ** Rotating elements *)

Section cycle.
Context (fuel : nat).

(** What [copy_along] does to the array: the chunk of each element of the
    path is the next one's, the last one's is [c]. *)
Fixpoint along (off l : nat) (c : list Z) (p : Z) (path : list Z) (b : Z -> list Z) : Z -> list Z :=
  match path with
  | [] => upd b p (splice off c (b p))
  | q :: path => along off l c q path (upd b p (splice off (chunk off l (b q)) (b p)))
  end.

Lemma along_follow off l c path : forall p b i, NoDup (p :: path) ->
  along off l c p path b i =
  match follow (fun j => chunk off l (b j)) c p path i with Some v => splice off v (b i) | None => b i end.
Proof.
  induction path as [|q path IH]; intros p b i Hn; cbn [along].
  { cbn [follow]. unfold upd. by destruct (Z.eqb_spec i p) as [->|]. }
  apply NoDup_cons in Hn as [Hp Hn]. rewrite IH by done. cbn [follow]. set (b1 := upd b p _).
  rewrite (follow_ext (fun j => chunk off l (b j)) (fun j => chunk off l (b1 j))).
  2:{ intros r Hr. unfold b1, upd. destruct (Z.eqb_spec r p) as [->|]; [exfalso; apply Hp; by right|done]. }
  destruct (Z.eqb_spec i p) as [->|Hip].
  - rewrite follow_none by done. unfold b1, upd. by rewrite Z.eqb_refl.
  - unfold b1, upd. by destruct (Z.eqb_spec i p).
Qed.

Lemma wp_copy_along off l c path : forall p b m,
  arr m b -> Forall (fun i => 0 <= i < n) (p :: path) -> NoDup (p :: path) ->
  bytes_at m tmp c -> length c = l -> Forall is_byte c -> (l <= 256)%nat -> (off + l <= w)%nat -> (l < fuel)%nat ->
  wp (copy_along fuel (Z.of_nat l) (map (fun i => addr i + Z.of_nat off) (p :: path) ++ [tmp])) m
    (fun _ m' => arr m' (along off l c p path b) /\ same_outside m m').
Proof.
  induction path as [|q path IH]; intros p b m Ha Hr Hn Hc Hlc Hbc Hl Hoff Hf.
  - apply Forall_cons in Hr as [Hp _]. cbn [map app copy_along along]. apply wp_bind. subst l.
    pose proof (addr_in p Hp). eapply wp_mono; [apply wp_memcpy; [done|done| | |done]|].
    + eapply mapped_weaken; [apply bytes_at_mapped, (arr_at _ _ Ha p Hp)|lia|]. rewrite (arr_len _ _ Ha p Hp). lia.
    + lia.
    + intros _ m' [_ ->]. apply wp_ret. by apply arr_splice.
  - apply Forall_cons in Hr as [Hp Hr]. apply NoDup_cons in Hn as [Hnp Hn]. pose proof (Forall_inv Hr) as Hq. cbv beta in Hq.
    assert (p <> q) as Hpq by (intros ->; apply Hnp; by left).
    destruct (arr_chunk m b q off l Ha Hq Hoff) as (C1 & C2 & C3).
    pose proof (addr_in p Hp). pose proof (addr_in q Hq). pose proof (addr_apart p q Hp Hq Hpq).
    cbn [map app copy_along along]. apply wp_bind. rewrite <- C2 at 1.
    eapply wp_mono; [apply wp_memcpy; [done|done| | |lia]|].
    + rewrite C2. eapply mapped_weaken; [apply bytes_at_mapped, (arr_at _ _ Ha p Hp)|lia|]. rewrite (arr_len _ _ Ha p Hp). lia.
    + lia.
    + intros _ m' [_ ->]. destruct (arr_splice m b p off (chunk off l (b q)) Ha Hp) as [Ha' Hs]; [lia|done|].
      eapply wp_mono; [apply (IH q _ _ Ha' Hr Hn); try done|].
      * apply bytes_at_mem_write_disjoint; [|done]. unfold disjoint_ranges. rewrite C2. lia.
      * intros _ m'' [H1' H2']. split; [done|]. by eapply same_trans.
Qed.

Lemma mix_0 x' x : mix 0 x' x = x.
Proof. by unfold mix. Qed.

(** [cycle] rotates the elements of the path. *)
Lemma wp_cycle m a p path :
  arr m a -> Forall (fun i => 0 <= i < n) (p :: path) -> NoDup (p :: path) ->
  (S (length path) < AR_SIZE)%nat -> (w < fuel)%nat -> (256 < fuel)%nat ->
  wp (cycle tmp fuel W (map addr (p :: path))) m (fun _ m' => arr m' (rot p path a) /\ same_outside m m').
Proof.
  intros Ha Hr Hn Hlen Hf Hf'. unfold cycle. rewrite length_map. cbn [length].
  destruct (Nat.ltb_spec (S (length path)) 2) as [H2|H2].
  { destruct path; [|simpl in H2; lia]. apply wp_ret. done. }
  destruct (Nat.leb_spec AR_SIZE (S (length path))); [lia|].
  assert (Hrot : forall i, 0 <= i < n -> length (rot p path a i) = w).
  { intros i Hi. assert (swaps 0 (n - 1) a (rot p path a)) as Hsw.
    { apply Forall_cons in Hr as [Hp Hr]. apply rot_swaps; [lia|]. eapply Forall_impl; [exact Hr|]. cbv beta. lia. }
    destruct (swaps_from _ _ _ _ Hsw i) as (j & Hj & ->); [lia|]. apply (arr_len _ _ Ha). lia. }
  apply (wp_loop
    (fun '(wd, ar) m' => exists off, (off <= w)%nat /\ wd = W - Z.of_nat off /\
       ar = map (fun i => addr i + Z.of_nat off) (p :: path) /\
       arr m' (fun i => mix off (rot p path a i) (a i)) /\ same_outside m m')
    (fun '(wd, _) => Z.to_nat wd)); [| |lia].
  2:{ exists 0%nat. split_and!; [lia|lia| |by eapply arr_ext; [|done]|done].
      apply map_ext. intros i. lia. }
  intros [wd ar] m1 (off & Hoff & -> & -> & Ha1 & Hs1). unfold truth.
  destruct (Z.eqb_spec (W - Z.of_nat off) 0) as [H0|H0]; cbn [negb].
  { apply wp_ret. split; [|done]. eapply arr_ext; [|exact Ha1]. intros i Hi. unfold mix.
    rewrite take_ge, drop_ge, app_nil_r; [done| |]; rewrite ?Hrot, ?(arr_len _ _ Ha) by done; lia. }
  set (l := if 256 <? W - Z.of_nat off then 256 else W - Z.of_nat off).
  assert (exists l', l = Z.of_nat l' /\ (0 < l' <= 256)%nat /\ (off + l' <= w)%nat) as (l' & El & Hl & Hol).
  { exists (Z.to_nat l). unfold l. destruct (Z.ltb_spec 256 (W - Z.of_nat off)); lia. }
  rewrite El. pose proof (Forall_inv Hr) as Hp. cbv beta in Hp. cbn [map hd].
  destruct (arr_chunk m1 _ p off l' Ha1 Hp Hol) as (C1 & C2 & C3).
  rewrite chunk_mix in C1, C2, C3 by (rewrite ?Hrot, ?(arr_len _ _ Ha) by done; lia).
  pose proof (addr_in p Hp). apply wp_bind. rewrite <- C2 at 1.
  eapply wp_mono; [apply wp_memcpy; [done|done| | |lia]|].
  { rewrite C2. eapply mapped_weaken; [apply (arr_tmp _ _ Ha1)|lia|lia]. }
  { rewrite C2. lia. }
  intros _ m2 [_ ->]. set (c := chunk off l' (a p)) in *.
  assert (Ha2 : arr (mem_write m1 tmp c) (fun i => mix off (rot p path a i) (a i))).
  { destruct Ha1 as [A1 A2 A3 A4]. split; [|done|done|by apply mapped_mem_write]. intros i Hi.
    apply bytes_at_mem_write_disjoint; [|by apply A1]. rewrite A2 by done. pose proof (addr_in i Hi). unfold disjoint_ranges. lia. }
  assert (Hs2 : same_outside m1 (mem_write m1 tmp c)).
  { intros q _ Hq. apply mem_write_ne. lia. }
  apply wp_bind. change (addr p + Z.of_nat off :: map (fun i => addr i + Z.of_nat off) path) with (map (fun i => addr i + Z.of_nat off) (p :: path)).
  eapply wp_mono; [apply (wp_copy_along off l' c path p _ _ Ha2); try done; [apply mem_write_bytes_at|lia..]|].
  intros _ m3 [Ha3 Hs3]. apply wp_ret. split; [|lia]. exists (off + l')%nat. split_and!; [lia|lia| | |].
  - cbn [map]. rewrite map_map. f_equal; [lia|]. apply map_ext. intros i. lia.
  - eapply arr_ext; [|exact Ha3]. intros i Hi. cbv beta. rewrite along_follow by done.
    rewrite (follow_ext (fun j => chunk off l' (a j))).
    2:{ intros q Hq. rewrite Forall_forall in Hr. specialize (Hr q ltac:(by right)). cbv beta in Hr.
        apply chunk_mix; rewrite ?Hrot, ?(arr_len _ _ Ha) by done; lia. }
    unfold c. rewrite (follow_fmap (chunk off l') a). rewrite rot_follow by done.
    destruct (follow a (a p) p path i) as [v|] eqn:Ef; simpl.
    + assert (length v = w) by (rewrite <- (Hrot i Hi), rot_follow, Ef by done; done).
      symmetry. apply splice_mix; rewrite ?(arr_len _ _ Ha) by done; lia.
    + unfold mix. by rewrite !take_drop.
  - eapply same_trans; [|exact Hs3]. by eapply same_trans.
Qed.
End cycle.

(** ** Sifting and trinkling *)

Section heaps.
Context (cmp : list Z -> list Z -> Z) {O : CmpOrder cmp} (fuel : nat).
Context (Hfw : (w < fuel)%nat) (Hf : (256 < fuel)%nat).
(** The highest order, and the array of Leonardo numbers up to it. *)
Context (K : nat) (HK : (K <= 62)%nat) (lp : list Z).
Context (Hlp : forall j, (j <= K)%nat -> lp !! j = Some (W * L j)).
Implicit Types (a : Z -> list Z) (h : Z) (k : nat).

Lemma wp_elem j z m (Q : Z -> memory -> Prop) :
  z = Z.of_nat j -> (j <= K)%nat -> Q (W * L j) m -> wp (elem lp z) m Q.
Proof.
  intros -> Hj HQ. unfold elem. destruct (Z.ltb_spec (Z.of_nat j) 0); [lia|]. rewrite Nat2Z.id, Hlp by done. by apply wp_ret.
Qed.
Lemma wp_call_cmp m a i j (Q : Z -> memory -> Prop) :
  arr m a -> 0 <= i < n -> 0 <= j < n -> Q (cmp (a i) (a j)) m -> wp (call_cmp cmp W (addr i) (addr j)) m Q.
Proof.
  intros Ha Hi Hj HQ. unfold call_cmp. rewrite Nat2Z.id.
  apply wp_bind. rewrite <- (arr_len _ _ Ha i Hi) at 1. apply wp_load_bytes; [by apply (arr_at _ _ Ha)|].
  apply wp_bind. rewrite <- (arr_len _ _ Ha j Hj) at 1. apply wp_load_bytes; [by apply (arr_at _ _ Ha)|]. by apply wp_ret.
Qed.

Lemma addr_rt h : addr h - W = addr (h - 1).
Proof. unfold addr. lia. Qed.
Lemma addr_lf h j : addr h - W - W * L j = addr (h - 1 - L j).
Proof. unfold addr. lia. Qed.
Lemma addr_step h j : addr h - W * L j = addr (h - L j).
Proof. unfold addr. lia. Qed.

(** The condition under which [sift] stops. *)
Lemma wp_sift_stop m a i lf rt :
  arr m a -> 0 <= i < n -> 0 <= lf < n -> 0 <= rt < n ->
  wp (c ← call_cmp cmp W (addr i) (addr lf);
      if 0 <=? c then c ← call_cmp cmp W (addr i) (addr rt); mret (0 <=? c) else mret false) m
    (fun stop m' => m' = m /\ stop = leb cmp (a lf) (a i) && leb cmp (a rt) (a i)).
Proof.
  intros Ha Hi Hl Hr. apply wp_bind. apply (wp_call_cmp m a); [done..|]. rewrite (ge_le cmp).
  destruct (leb cmp (a lf) (a i)); [|done]. apply wp_bind. apply (wp_call_cmp m a); [done..|]. rewrite (ge_le cmp). by apply wp_ret.
Qed.

Lemma map_snoc (pre : list Z) h x : map addr (h :: pre) ++ [addr x] = map addr (h :: (pre ++ [x])).
Proof. cbn [map app]. by rewrite map_app. Qed.

(** The array of [sift] holds the path. *)
Lemma wp_sift m a h k :
  arr m a -> (k <= K)%nat -> -1 <= h - L k -> h < n ->
  wp (sift cmp tmp fuel (addr h) W (Z.of_nat k) lp) m (fun _ m' => arr m' (sifted cmp a h k) /\ same_outside m m').
Proof.
  intros Ha Hk Hlo Hhi. unfold sift. apply wp_bind. pose proof (L_pos k).
  assert (Hend : forall m', m' = m ->
    wp (cycle tmp fuel W (map addr (h :: sift_path cmp a (a h) h k))) m' (fun _ m' => arr m' (sifted cmp a h k) /\ same_outside m m')).
  { intros m' ->. pose proof (sift_path_length cmp a (a h) k h).
    apply wp_cycle; [done| |apply sift_path_NoDup|unfold AR_SIZE; lia|done|done].
    apply Forall_cons. split; [lia|]. eapply Forall_impl; [apply sift_path_range|]. cbv beta. lia. }
  apply (wp_loop
    (fun '(head, pshift, ar) m' => m' = m /\ exists hh kk pre, head = addr hh /\ pshift = Z.of_nat kk /\ ar = map addr (h :: pre) /\
       sift_path cmp a (a h) h k = pre ++ sift_path cmp a (a h) hh kk /\ (kk <= k)%nat /\ -1 <= hh - L kk /\ hh <= h)
    (fun '(_, pshift, _) => Z.to_nat pshift)); [| |lia].
  2:{ split; [done|]. exists h, k, []. by split_and!. }
  intros [[head pshift] ar] m' (-> & hh & kk & pre & -> & -> & -> & Hpath & Hkk & Hl & Hh).
  destruct (Z.ltb_spec 1 (Z.of_nat kk)) as [Hk1|Hk1].
  - destruct kk as [|[|kk]]; [lia..|]. rewrite sift_path_SS in Hpath. rewrite L_SS in Hl.
    pose proof (L_pos kk). pose proof (L_pos (S kk)).
    apply wp_bind. apply (wp_elem kk); [lia|lia|]. rewrite addr_lf, addr_rt.
    assert (Hlen : (length (map addr (h :: pre)) < AR_SIZE)%nat).
    { pose proof (sift_path_length cmp a (a h) k h) as Hsl. rewrite Hpath, length_app in Hsl. rewrite length_map. cbn [length]. unfold AR_SIZE. lia. }
    apply wp_bind. eapply wp_mono; [apply (wp_sift_stop m a); [done|lia..]|]. intros stop m' [-> ->].
    destruct (leb cmp (a (hh - 1 - L kk)) (a h) && leb cmp (a (hh - 1)) (a h)).
    { rewrite app_nil_r in Hpath. subst pre. apply wp_ret. by apply Hend. }
    apply wp_bind. apply (wp_call_cmp m a); [done|lia|lia|]. rewrite (ge_le cmp).
    destruct (leb cmp (a (hh - 1)) (a (hh - 1 - L kk))); apply wp_bind, wp_append; try done; apply wp_ret; (split; [|lia]); (split; [done|]).
    + exists (hh - 1 - L kk), (S kk), (pre ++ [hh - 1 - L kk]). rewrite map_snoc, <- app_assoc. split_and!; (done || lia).
    + exists (hh - 1), kk, (pre ++ [hh - 1]). rewrite map_snoc, <- app_assoc. split_and!; (done || lia).
  - assert (sift_path cmp a (a h) hh kk = []) as E by (destruct kk as [|[|kk]]; [done..|lia]).
    rewrite E, app_nil_r in Hpath. subst pre. apply wp_ret. by apply Hend.
Qed.

Lemma spaced_length lo ks : spaced lo ks -> upto K ks -> (length ks + lo <= S K \/ ks = [])%nat.
Proof.
  revert lo. induction ks as [|k ks IH]; intros lo Hs Hu; [by right|]. left. simpl in Hs. destruct Hs as [H1 H2].
  apply Forall_cons in Hu as [Hk Hu]. destruct (IH _ H2 Hu) as [H| ->]; simpl; lia.
Qed.

(** The condition under which [trinkle] stops at a tree that is not a heap. *)
Lemma wp_trinkle_stop m a hh kk trusty :
  arr m a -> 0 <= hh - L kk -> hh < n -> (kk <= K)%nat ->
  wp (if negb trusty && (1 <? Z.of_nat kk) then
        l ← elem lp (Z.of_nat kk - 2);
        c ← call_cmp cmp W (addr hh - W) (addr (hh - L kk));
        if 0 <=? c then mret true else c ← call_cmp cmp W (addr hh - W - l) (addr (hh - L kk)); mret (0 <=? c)
      else mret false) m
    (fun stop m' => m' = m /\
       stop = negb trusty && (1 <? kk)%nat && (leb cmp (a (hh - L kk)) (a (hh - 1)) || leb cmp (a (hh - L kk)) (a (hh - 1 - L (kk - 2))))).
Proof.
  intros Ha Hs Hn Hk. destruct trusty; [done|]. cbn [negb andb].
  destruct (Z.ltb_spec 1 (Z.of_nat kk)), (Nat.ltb_spec 1 kk); try lia; [|done].
  destruct kk as [|[|kk]]; [lia..|]. rewrite L_SS in *. replace (S (S kk) - 2)%nat with kk by lia.
  pose proof (L_pos kk). pose proof (L_pos (S kk)).
  apply wp_bind. apply (wp_elem kk); [lia|lia|]. rewrite addr_lf, addr_rt.
  apply wp_bind. apply (wp_call_cmp m a); [done|lia|lia|]. rewrite (ge_le cmp).
  destruct (leb cmp (a (hh - (L (S kk) + L kk + 1))) (a (hh - 1))); [by apply wp_ret|].
  apply wp_bind. apply (wp_call_cmp m a); [done|lia|lia|]. rewrite (ge_le cmp). by apply wp_ret.
Qed.

(** [trinkle] along the roots, then [sift]. *)
Lemma wp_trinkle m a h k ks trusty :
  arr m a -> shape (k :: ks) -> upto K (k :: ks) -> h = L k + size ks - 1 -> h < n ->
  wp (trinkle cmp tmp fuel (addr h) W (bitset k ks) (Z.of_nat k) trusty lp) m
    (fun _ m' => arr m' (trinkled cmp a h k ks trusty) /\ same_outside m m').
Proof.
  intros Ha Hs Hu Eh Hn. unfold trinkle. apply wp_bind. pose proof (L_pos k). pose proof (size_nonneg ks).
  assert (Hlks : (length ks <= 62)%nat).
  { pose proof (Forall_inv Hu) as Hk. cbv beta in Hk. apply Forall_cons in Hu as [_ Hu].
    destruct (spaced_length (S k) ks Hs Hu) as [| ->]; simpl; lia. }
  apply (wp_loop
    (fun '(head, p, pshift, tr, ar) m' => m' = m /\ exists hh kk kss pre, head = addr hh /\ p = bitset kk kss /\
       pshift = Z.of_nat kk /\ ar = map addr (h :: pre) /\
       trinkle_path cmp a (a h) h k ks trusty = (let '(path, r) := trinkle_path cmp a (a h) hh kk kss tr in (pre ++ path, r)) /\
       shape (kk :: kss) /\ upto K (kk :: kss) /\ hh = L kk + size kss - 1 /\ hh <= h /\ (length pre + length kss <= length ks)%nat)
    (fun '(_, _, pshift, _, _) => Z.to_nat (63 - pshift))); [| |lia].
  - intros [[[[head p] pshift] tr] ar] m' (-> & hh & kk & kss & pre & -> & -> & -> & -> & Hpath & Hs' & Hu' & Ehh & Hhh & Hl).
    assert (Hend : trinkle_path cmp a (a h) h k ks trusty = (pre, (hh, kk, tr)) ->
      wp (if negb tr then cycle tmp fuel W (map addr (h :: pre));; sift cmp tmp fuel (addr hh) W (Z.of_nat kk) lp else mret tt) m
        (fun _ m' => arr m' (trinkled cmp a h k ks trusty) /\ same_outside m m')).
    { intros E. unfold trinkled. rewrite E. destruct tr; [by apply wp_ret|]. cbn [negb].
      pose proof (trinkle_path_range cmp a (a h) ks h k trusty Eh) as Hr. rewrite E in Hr.
      destruct Hr as (R1 & R2 & R3 & R4 & R5 & R6). rewrite Forall_forall in R1.
      apply wp_bind. eapply wp_mono; [apply wp_cycle; try done|].
      - apply Forall_cons. split; [lia|]. apply Forall_forall. intros i Hi. specialize (R1 i Hi). cbv beta in R1. lia.
      - apply NoDup_cons. split; [|done]. intros Hi. specialize (R1 _ Hi). cbv beta in R1. lia.
      - unfold AR_SIZE. lia.
      - intros _ m1 [Ha1 Hs1]. eapply wp_mono; [apply wp_sift; [done| |done|lia]|].
        + pose proof (Forall_inv Hu') as Hk. done.
        + intros _ m2 [Ha2 Hs2]. split; [done|]. by eapply same_trans. }
    rewrite (single_bitset K HK). destruct kss as [|k1 kss].
    { rewrite bool_decide_true by done. cbn [negb]. apply wp_ret. apply Hend. rewrite Hpath. cbn [trinkle_path]. by rewrite app_nil_r. }
    rewrite bool_decide_false by done. cbn [negb trinkle_path] in *. pose proof (L_pos kk). pose proof (L_pos k1). pose proof (size_nonneg kss).
    cbn [size] in Ehh. pose proof (Forall_inv Hu') as Hkk. cbv beta in Hkk.
    apply wp_bind. apply (wp_elem kk); [done|done|]. rewrite addr_step.
    apply wp_bind. apply (wp_call_cmp m a); [done|lia|lia|]. unfold leb at 1 in Hpath.
    destruct (cmp (a (hh - L kk)) (a h) <=? 0). { apply wp_ret. apply Hend. by rewrite Hpath, app_nil_r. }
    apply wp_bind. eapply wp_mono; [apply (wp_trinkle_stop m a hh kk tr); [done|lia|lia|done]|]. intros stop m' [-> ->].
    match type of Hpath with context [if ?c then _ else _] => destruct c end.
    { apply wp_ret. apply Hend. by rewrite Hpath, app_nil_r. }
    apply wp_bind, wp_append. { rewrite length_map. cbn [length] in *. unfold AR_SIZE. lia. }
    rewrite (pntz_bitset K HK) by done. apply wp_bind. apply (wp_shr_next K HK); [done|done|]. apply wp_ret.
    pose proof (Forall_inv_tail Hu') as Hu''. pose proof (Forall_inv Hu'') as Hk1. cbv beta in Hk1. pose proof Hs' as [Hk' Hs''].
    split; [|lia]. split; [done|]. exists (hh - L kk), k1, kss, (pre ++ [hh - L kk]).
    rewrite map_snoc. split_and!; try done; try lia.
    + rewrite Hpath. destruct (trinkle_path cmp a (a h) (hh - L kk) k1 kss false). by rewrite <- app_assoc.
    + simpl. eapply spaced_weaken; [|exact Hs'']. lia.
    + rewrite length_app. cbn [length] in *. lia.
  - split; [done|]. exists h, k, ks, []. split_and!; try done. by destruct (trinkle_path _ _ _ _ _ _ _).
Qed.
End heaps.
End memory.
