(* ===== verification/SmoothSort.v ===== *)
(** * SmoothSort: the two phases of smoothsort

    Steps of the building phase (sift, merge, start a new tree) and of the
    unwinding phase (drop the root, expose the subtrees) on the forests of
    Smooth.v, and the invariants they keep: which trees are heaps, which
    roots are in order, which elements are in their final places. *)

From Stdlib Require Import ZArith Lia Bool List.
From stdpp Require Import base tactics numbers sets list sorting.
From S2P Require Import Prelude CMem Qsort Smooth QsortBits.
Open Scope Z_scope.

(** The leftmost tree has an order above 0. *)
Fixpoint led (ks : list nat) : Prop :=
  match ks with [] => True | [k] => (1 <= k)%nat | _ :: ks => led ks end.
Lemma led_cons k k' ks : led (k :: k' :: ks) <-> led (k' :: ks).
Proof. done. Qed.

Section phases.
Context {A : Type} (cmp : A -> A -> Z) {O : CmpOrder cmp}.
(** The last index. *)
Context (hi : Z).
Implicit Types (a b : Z -> A) (h : Z) (k : nat) (ks : list nat).

(** ** Building *)

(** The roots are in order from each tree on that will not be merged. *)
Fixpoint settled a ks h : Prop :=
  match ks with
  | [] => True
  | k :: tl => (hi - h <= L (k - 1) -> roots cmp a (k :: tl) h) /\ settled a tl (h - L k)
  end.

Lemma settled_ext a b ks h : forest cmp a ks h -> (forall i, 0 <= i <= h -> b i = a i) -> settled a ks h -> settled b ks h.
Proof.
  revert h. induction ks as [|k ks IH]; intros h Hf He; [done|]. intros [H1 H2]. split.
  - intros Hh. eapply roots_ext; [exact Hf|done|by apply H1].
  - destruct Hf as [_ Hf]. apply IH; [done| |done]. pose proof (L_pos k). intros i Hi. apply He. lia.
Qed.
Lemma roots_settled a ks h : roots cmp a ks h -> settled a ks h.
Proof.
  revert h. induction ks as [|k ks IH]; intros h Hr; [done|]. split; [done|]. rewrite roots_cons in Hr. destruct Hr as [_ Hr]. by apply IH.
Qed.

(** A tree that stays has only trees to its left that stay. *)
Lemma settled_roots a k ks h :
  settled a ks (h - L k) -> match ks with k' :: _ => hi - (h - L k) <= L (k' - 1) | [] => True end ->
  roots cmp a ks (h - L k).
Proof. destruct ks as [|k' ks]; [done|]. intros [H _] Hh. by apply H. Qed.

(** What the first phase maintains at the element [h]. *)
Record building a h k ks : Prop := {
  bd_kids : kids cmp a h k;
  bd_forest : forest cmp a ks (h - L k);
  bd_settled : settled a ks (h - L k);
  bd_shape : shape (k :: ks);
  bd_led : led (k :: ks);
  bd_zero : k = 0%nat -> exists ks', ks = 1%nat :: ks'
}.

Lemma sifted_rest a h k ks :
  forest cmp a ks (h - L k) -> kids cmp a h k ->
  let b := sifted cmp a h k in
  heap cmp b h k /\ forest cmp b ks (h - L k) /\ (forall i, i <= h - L k -> b i = a i) /\ swaps 0 h a b.
Proof.
  intros Hf Hk b. pose proof (sifted_swaps cmp a h k) as Hs. pose proof (L_pos k). pose proof (forest_low _ _ _ _ Hf).
  assert (He : forall i, i <= h - L k -> b i = a i) by (intros; apply (swaps_frame _ _ _ _ Hs); lia).
  split_and!; [by apply sifted_heap| |done|eapply swaps_weaken; [..|exact Hs]; lia].
  eapply forest_ext; [|exact Hf]. intros i Hi. apply He. lia.
Qed.

Lemma build_merge a h k ks :
  building a h k (S k :: ks) ->
  let b := sifted cmp a h k in building b (h + 1) (S (S k)) ks /\ swaps 0 h a b.
Proof.
  intros [H1 H2 H3 H4 H5 H6] b. destruct (sifted_rest a h k (S k :: ks) H2 H1) as (B1 & B2 & B3 & B4). fold b in B1, B2, B3, B4.
  split; [|done]. pose proof (L_pos k). pose proof (L_pos (S k)).
  assert (Ep : h + 1 - L (S (S k)) = h - L k - L (S k)) by (rewrite L_SS; lia).
  destruct B2 as [B2 B5]. destruct H3 as [_ H3]. destruct H2 as [_ H2]. destruct H4 as [_ H4]. split.
  - simpl. replace (h + 1 - 1) with h by lia. done.
  - by rewrite Ep.
  - rewrite Ep. eapply settled_ext; [exact H2| |done]. intros i Hi. apply B3. lia.
  - simpl. eapply spaced_weaken; [|exact H4]. lia.
  - destruct ks as [|k1 ks]; [simpl; lia|]. exact H5.
  - done.
Qed.

(** Either step that is taken at a tree which is not merged at once. *)
Lemma build_next a h k ks :
  building a h k ks -> match ks with k' :: _ => k' <> S k | [] => True end ->
  let b := if hi - h <=? L (k - 1) then trinkled cmp a h k ks false else sifted cmp a h k in
  (forest cmp b (k :: ks) h /\ settled b (k :: ks) h) /\ (1 <= k)%nat /\ swaps 0 h a b.
Proof.
  intros [H1 H2 H3 H4 H5 H6] Hk' b.
  assert (1 <= k)%nat as Hk.
  { destruct k as [|k]; [|lia]. destruct (H6 eq_refl) as [ks' ->]. done. }
  pose proof (L_pos k). unfold b. clear b. destruct (Z.leb_spec (hi - h) (L (k - 1))) as [Hfin|Hfin].
  - assert (roots cmp a ks (h - L k)) as Hr.
    { apply settled_roots; [done|]. destruct ks as [|k' ks]; [done|]. destruct H4 as [H4 _].
      assert (L k + L (k - 1) + 1 = L (S k)).
      { destruct k as [|k]; [lia|]. rewrite L_SS. by replace (S k - 1)%nat with k by lia. }
      pose proof (L_mono (S k) (k' - 1) ltac:(lia)). lia. }
    destruct (trinkled_ok cmp ks a h k false) as (F & R & W); [done|done|done|done|].
    split; [split; [done|by apply roots_settled]|done].
  - destruct (sifted_rest a h k ks H2 H1) as (B1 & B2 & B3 & B4). split; [split; [by split|]|done].
    split; [lia|]. eapply settled_ext; [exact H2| |done]. intros i Hi. apply B3. lia.
Qed.

(** A new tree after the others: order 0 after order 1, else order 1. *)
Lemma build_start b h k ks :
  forest cmp b (k :: ks) h -> settled b (k :: ks) h -> shape (k :: ks) -> led (k :: ks) -> (1 <= k)%nat ->
  match ks with k' :: _ => k' <> S k | [] => True end ->
  building b (h + 1) (if (k =? 1)%nat then 0%nat else 1%nat) (k :: ks).
Proof.
  intros Hf Hset Hs Hl Hk Hk'.
  assert (spaced (S (S k)) ks) as Hs2.
  { destruct ks as [|k' ks]; [done|]. simpl in Hs |- *. destruct Hs as [H1 H2]. split; [lia|done]. }
  destruct (Nat.eqb_spec k 1) as [->|Hk1].
  - split; [done|by replace (h + 1 - L 0) with h by (simpl; lia)|by replace (h + 1 - L 0) with h by (simpl; lia)| |done|eauto].
    simpl. split; [lia|done].
  - split; [done|by replace (h + 1 - L 1) with h by (simpl; lia)|by replace (h + 1 - L 1) with h by (simpl; lia)| |done|done].
    simpl. split; [lia|done].
Qed.

(** The last element. *)
Lemma build_end a k ks :
  building a hi k ks ->
  let b := trinkled cmp a hi k ks false in
  forest cmp b (k :: ks) hi /\ roots cmp b (k :: ks) hi /\ swaps 0 hi a b.
Proof.
  intros [H1 H2 H3 H4 H5 H6]. apply (trinkled_ok cmp ks a hi k false); [done|done|done|]. apply settled_roots; [done|].
  destruct ks as [|k' ks]; [done|]. destruct H4 as [H4 _]. pose proof (L_mono k (k' - 1) ltac:(lia)). lia.
Qed.

(** ** Unwinding *)

(** What the second phase maintains: the elements after [h] are in place. *)
Record unwinding a h k ks : Prop := {
  uw_forest : forest cmp a (k :: ks) h;
  uw_roots : roots cmp a (k :: ks) h;
  uw_shape : shape (k :: ks);
  uw_led : led (k :: ks);
  uw_done : forall i j, h < j <= hi -> 0 <= i <= j -> le cmp (a i) (a j)
}.

(** The root of the last tree is in place too, whatever happens before it. *)
Lemma unwind_place a b h k ks :
  unwinding a h k ks -> swaps 0 (h - 1) a b ->
  forall i j, h - 1 < j <= hi -> 0 <= i <= j -> le cmp (b i) (b j).
Proof.
  intros [H1 H2 H3 H4 H5] Hs.
  assert (Hge : forall i j, h - 1 < j <= hi -> 0 <= i <= j -> le cmp (a i) (a j)).
  { intros i j Hj Hi. destruct (Z.eq_dec j h) as [->|]; [|apply H5; lia]. by apply (forest_max cmp a (k :: ks) h). }
  intros i j Hj Hi. rewrite (swaps_frame _ _ _ _ Hs j) by lia. destruct (Z_le_gt_dec i (h - 1)).
  - destruct (swaps_from _ _ _ _ Hs i) as (i' & Hi' & ->); [lia|]. apply Hge; lia.
  - rewrite (swaps_frame _ _ _ _ Hs i) by lia. by apply Hge.
Qed.

Lemma unwind_drop a h k k' ks : (k <= 1)%nat -> unwinding a h k (k' :: ks) -> unwinding a (h - 1) k' ks.
Proof.
  intros Hk Hu. pose proof Hu as [H1 H2 H3 H4 H5]. assert (L k = 1) as Hl by (destruct k as [|[|k]]; [done..|lia]).
  destruct H1 as [_ H1]. rewrite roots_cons in H2. destruct H2 as [_ H2]. rewrite Hl in *. split; [done|done| |done|].
  - destruct H3 as [H3 H3']. simpl. eapply spaced_weaken; [|exact H3']. lia.
  - eapply unwind_place; [exact Hu|]. by apply swaps_refl.
Qed.

Lemma unwind_split a h k ks :
  unwinding a h (S (S k)) ks ->
  let a1 := trinkled cmp a (h - 1 - L k) (S k) ks true in
  let b := trinkled cmp a1 (h - 1) k (S k :: ks) true in
  unwinding b (h - 1) k (S k :: ks) /\ swaps 0 (h - 1) a b.
Proof.
  intros Hu a1 b. pose proof Hu as [H1 H2 H3 H4 H5]. destruct H1 as [Hh H1]. rewrite roots_cons in H2. destruct H2 as [_ H2].
  apply heap_SS in Hh as (_ & _ & Hl & Hr). pose proof (L_pos k). pose proof (L_pos (S k)).
  assert (Ep : h - 1 - L k - L (S k) = h - L (S (S k))) by (rewrite L_SS; lia).
  destruct (trinkled_ok cmp ks a (h - 1 - L k) (S k) true) as (F1 & R1 & W1);
    [by apply heap_kids|done|by rewrite Ep|by rewrite Ep|]. fold a1 in F1, R1, W1.
  pose proof (forest_low _ _ _ _ F1).
  assert (heap cmp a1 (h - 1) k) as Hr1.
  { eapply heap_ext; [|exact Hr]. intros i Hi. apply (swaps_frame _ _ _ _ W1). lia. }
  destruct (trinkled_ok cmp (S k :: ks) a1 (h - 1) k true) as (F & R & W); [by apply heap_kids|done|done|done|].
  fold b in F, R, W. assert (swaps 0 (h - 1) a b) as Hsw.
  { eapply swaps_trans; [|exact W]. eapply swaps_weaken; [..|exact W1]; lia. }
  split; [|done]. split; [done|done| | |by eapply unwind_place].
  - simpl in H3 |- *. split; [lia|]. done.
  - destruct ks as [|k1 ks]; [simpl; lia|done].
Qed.

Lemma unwind_start a b k ks :
  building a hi k ks -> b = trinkled cmp a hi k ks false -> unwinding b hi k ks /\ swaps 0 hi a b.
Proof.
  intros Hb ->. destruct (build_end a k ks Hb) as (F & R & W). destruct Hb as [_ _ _ H4 H5 _].
  split; [|done]. split; [done|done|done|done|]. lia.
Qed.

Lemma unwind_sorted a h : unwinding a h 1 [] -> forall i j, 0 <= i <= j -> j <= hi -> le cmp (a i) (a j).
Proof.
  intros [H1 _ _ _ H5] i j Hi Hj. destruct H1 as [_ H1]. simpl in H1.
  destruct (Z_le_gt_dec j h) as [Hjh|]; [|apply H5; lia].
  replace i with j by lia. apply le_refl. done.
Qed.
End phases.
