(* ===== verification/QsortSort.v ===== *)
(** * QsortSort: what qsort and bsearch do

    The two loops of [__qsort_r] keep the invariants of SmoothSort.v, so the
    array ends sorted and a permutation of what it was, with nothing else in
    memory changed. [bsearch] finds an element equivalent to the key in a
    sorted array exactly when there is one. *)

From Stdlib Require Import ZArith Lia Bool List.
From stdpp Require Import base tactics numbers sets list gmap option sorting.
From S2P Require Import Prelude CMem MemBlock Qsort Smooth QsortBits QsortProofs SmoothSort.
Open Scope Z_scope.

(** The highest order a forest of [n] elements can have. *)
Lemma highest_order n : 1 <= n <= 2 ^ 44 -> exists K, (1 <= K <= 62)%nat /\ L K <= n < L (S K).
Proof.
  intros Hn. assert (forall j, (1 <= j)%nat -> n < L (S j) -> exists K, (1 <= K <= j)%nat /\ L K <= n < L (S K)) as H.
  { induction j as [|j IH]; intros Hj Hlt; [lia|]. destruct (Z_le_gt_dec (L (S j)) n); [by exists (S j)|].
    destruct j as [|j]; [simpl in *; lia|]. destruct IH as (K & HK & HL); [lia|lia|]. exists K. split; [lia|done]. }
  apply (H 62%nat); [lia|]. pose proof L_63. lia.
Qed.

Lemma upto_size K n ks : size ks <= n -> n < L (S K) -> upto K ks.
Proof.
  induction ks as [|k ks IH]; intros Hs Hn; [constructor|]. simpl in Hs. pose proof (size_nonneg ks). pose proof (L_pos k).
  apply Forall_cons. split; [|apply IH; lia]. destruct (le_lt_dec k K); [done|]. pose proof (L_mono (S K) k ltac:(lia)). lia.
Qed.

Section sort.
Context (base tmp : Z) (w : nat) (n : Z) (Hw : (0 < w)%nat).
Notation W := (Z.of_nat w).
Context (Hdis : tmp + 256 <= base \/ base + n * W <= tmp).
Context (cmp : list Z -> list Z -> Z) {O : CmpOrder cmp} (fuel : nat).
Context (Hn : 1 <= n <= 2 ^ 44) (Hsize : W * n < 2 ^ 62) (Hfuel : n + W + 300 < Z.of_nat fuel).
Notation arr := (arr base tmp w n).
Notation addr := (addr base w).
Notation same_outside := (same_outside base tmp w n).

Section order.
Context (K : nat) (HK : (1 <= K <= 62)%nat) (HKn : L K <= n < L (S K)).

Lemma wp_fill_lp m :
  wp (fill_lp fuel W (W * n)) m (fun lp m' => m' = m /\ forall j, (j <= K)%nat -> lp !! j = Some (W * L j)).
Proof.
  unfold fill_lp. set (tab := fun i => map (fun j => W * L j) (seq 0 i)).
  assert (Hlen : forall i, length (tab i) = i) by (intros; unfold tab; by rewrite length_map, length_seq).
  assert (Hlk : forall i j, (j < i)%nat -> tab i !! j = Some (W * L j)).
  { intros i j Hj. unfold tab. change (map (fun j => W * L j) (seq 0 i)) with ((fun j => W * L j) <$> seq 0 i).
    by rewrite list_lookup_fmap, lookup_seq_lt by done. }
  apply (wp_loop (fun lp m' => m' = m /\ exists i, lp = tab i /\ (2 <= i)%nat /\ (i = 2%nat \/ L (i - 1) < n)) (fun lp => (64 - length lp)%nat)); [| |lia].
  2:{ split; [done|]. exists 2%nat. split_and!; [|lia|by left]. unfold tab. simpl. f_equal; [lia|]. f_equal. lia. }
  intros lp m' (-> & i & -> & Hi & Hb). rewrite Hlen.
  assert (Hi' : (i <= S K)%nat).
  { destruct Hb as [->|Hb]; [lia|]. destruct (le_lt_dec i (S K)); [done|]. pose proof (L_mono (S K) (i - 1) ltac:(lia)). lia. }
  assert (Hel : forall j, (j < i)%nat -> forall (Q : Z -> memory -> Prop), Q (W * L j) m -> wp (elem (tab i) (Z.of_nat j)) m Q).
  { intros j Hj Q HQ. unfold elem. destruct (Z.ltb_spec (Z.of_nat j) 0); [lia|]. rewrite Nat2Z.id, Hlk by done. by apply wp_ret. }
  destruct i as [|[|i]]; [lia..|]. apply wp_bind. replace (Z.of_nat (S (S i)) - 2) with (Z.of_nat i) by lia. apply Hel; [lia|].
  apply wp_bind. replace (Z.of_nat (S (S i)) - 1) with (Z.of_nat (S i)) by lia. apply Hel; [lia|].
  assert (Hx : W * L i + W * L (S i) + W = W * L (S (S i))) by (rewrite L_SS; lia). rewrite Hx.
  assert (Hsm : 0 <= W * L (S (S i)) < 2 ^ 64).
  { pose proof (L_pos (S (S i))). split; [lia|]. destruct Hb as [Hb|Hb].
    - injection Hb as ->. simpl. nia.
    - replace (S (S i) - 1)%nat with (S i) in Hb by lia. rewrite L_SS. pose proof (L_pos_mono i). nia. }
  rewrite wrap_small by done. apply wp_bind, wp_append; [rewrite Hlen; unfold LP_SIZE; lia|].
  assert (Hsn : tab (S (S i)) ++ [W * L (S (S i))] = tab (S (S (S i)))).
  { unfold tab. rewrite (seq_S (S (S i))), map_app. done. }
  rewrite Hsn. destruct (Z.ltb_spec (W * L (S (S i))) (W * n)) as [Hlt|Hge]; apply wp_ret.
  - split; [|rewrite !Hlen; lia]. split; [done|]. exists (S (S (S i))). split_and!; [done|lia|]. right.
    replace (S (S (S i)) - 1)%nat with (S (S i)) by lia. nia.
  - split; [done|]. intros j Hj. apply Hlk. destruct (le_lt_dec (S (S (S i))) j) as [Hge'|]; [|done].
    assert (n <= L (S (S i))) by nia. pose proof (L_lt (S (S i)) ltac:(lia)). pose proof (L_mono (S (S (S i))) K ltac:(lia)). lia.
Qed.

Section loops.
Context (lp : list Z) (Hlp : forall j, (j <= K)%nat -> lp !! j = Some (W * L j)).
Implicit Types (a : Z -> list Z).

Lemma order_fits k ks h : size (k :: ks) = h + 1 -> h < n -> upto K (k :: ks).
Proof. intros H Hh. eapply (upto_size K n); [lia|]. lia. Qed.

Lemma sift_run m a h k :
  arr m a -> (k <= K)%nat -> -1 <= h - L k -> h < n ->
  wp (sift cmp tmp fuel (addr h) W (Z.of_nat k) lp) m (fun _ m' => arr m' (sifted cmp a h k) /\ same_outside m m').
Proof. intros. apply (wp_sift base tmp w n Hw Hdis cmp fuel ltac:(lia) ltac:(lia) K ltac:(lia) lp Hlp); done. Qed.
Lemma trinkle_run m a h k ks trusty :
  arr m a -> shape (k :: ks) -> size (k :: ks) = h + 1 -> h < n ->
  wp (trinkle cmp tmp fuel (addr h) W (bitset k ks) (Z.of_nat k) trusty lp) m
    (fun _ m' => arr m' (trinkled cmp a h k ks trusty) /\ same_outside m m').
Proof.
  intros Ha Hs He Hh. apply (wp_trinkle base tmp w n Hw Hdis cmp fuel ltac:(lia) ltac:(lia) K ltac:(lia) lp Hlp); [done|done|by eapply order_fits| |done].
  simpl in He. lia.
Qed.

Lemma elem_run j z m (Q : Z -> memory -> Prop) :
  z = Z.of_nat j -> (j <= K)%nat -> Q (W * L j) m -> wp (elem lp z) m Q.
Proof. apply (wp_elem w Hw fuel ltac:(lia) ltac:(lia) K ltac:(lia) lp Hlp). Qed.

(** The invariant of the first loop. *)
Definition build_inv (m : memory) (a : Z -> list Z) (s : Z * bits * Z) (m' : memory) : Prop :=
  exists h k ks a', s = (addr h, bitset k ks, Z.of_nat k) /\ 0 <= h <= n - 1 /\ building cmp (n - 1) a' h k ks /\
    swaps 0 (n - 1) a a' /\ arr m' a' /\ same_outside m m'.

Lemma wp_build_step m a s m' :
  build_inv m a s m' ->
  wp (build_step cmp tmp fuel W lp (addr (n - 1)) s) m' (fun r m'' =>
    match r with
    | inl s' => build_inv m a s' m'' /\ (Z.to_nat (n - (s'.1.1 - base) / W) < Z.to_nat (n - (s.1.1 - base) / W))%nat
    | inr s' => s' = s /\ m'' = m' /\ s.1.1 = addr (n - 1)
    end).
Proof.
  intros (h & k & ks & a' & -> & Hh & Hb & Hsw & Ha & Hso). pose proof Hb as [B1 B2 B3 B4 B5 B6].
  assert (size (k :: ks) = h + 1) as Hsz by (apply forest_size in B2; simpl; lia).
  pose proof (order_fits k ks h Hsz ltac:(lia)) as Hu. pose proof (Forall_inv Hu) as Hk. cbv beta in Hk.
  pose proof (L_pos k). pose proof (size_nonneg ks). simpl in Hsz.
  unfold build_step. destruct (Z.ltb_spec (addr h) (addr (n - 1))) as [Hlt|Hge].
  2:{ apply wp_ret. split_and!; [done|done|]. simpl. unfold QsortProofs.addr in *. nia. }
  assert (h < n - 1) as Hlt' by (unfold QsortProofs.addr in *; nia).
  assert (Hmeas : (Z.to_nat (n - (addr h + W - base) / W) < Z.to_nat (n - (addr h - base) / W))%nat).
  { replace (addr h + W - base) with ((h + 1) * W) by (unfold QsortProofs.addr; lia).
    replace (addr h - base) with (h * W) by (unfold QsortProofs.addr; lia). rewrite !Z.div_mul by lia. lia. }
  assert (Hnext : addr h + W = addr (h + 1)) by (unfold QsortProofs.addr; lia).
  rewrite (two_last K ltac:(lia) k ks) by done. apply wp_bind.
  destruct (match ks with k' :: _ => bool_decide (k' = S k) | [] => false end) eqn:E2.
  - destruct ks as [|k' ks]; [done|]. apply bool_decide_eq_true in E2. subst k'.
    apply wp_bind. eapply wp_mono; [apply sift_run; [done|done|lia|lia]|]. intros _ m1 [Ha1 Hs1].
    apply wp_bind. apply (wp_merge K ltac:(lia)); [done|]. intros p Hp. apply wp_ret. apply wp_ret. split; [|done].
    destruct (build_merge cmp (n - 1) a' h k ks Hb) as [Hb' Hsw'].
    exists (h + 1), (S (S k)), ks, (sifted cmp a' h k). split_and!; [|lia|lia|done| |done|by eapply same_trans].
    + rewrite Hnext, Hp. f_equal. lia.
    + eapply swaps_trans; [exact Hsw|]. eapply swaps_weaken; [..|exact Hsw']; lia.
  - assert (match ks with k' :: _ => k' <> S k | [] => True end) as Hk'.
    { destruct ks as [|k' ks]; [done|]. by apply bool_decide_eq_false in E2. }
    destruct (build_next cmp (n - 1) a' h k ks Hb Hk') as ([Hf Hset] & Hk1 & Hsw').
    apply wp_bind. apply (elem_run (k - 1)); [lia|lia|].
    replace (addr (n - 1) - addr h) with (W * (n - 1 - h)) by (unfold QsortProofs.addr; lia).
    assert (((W * (n - 1 - h)) <=? (W * L (k - 1))) = (n - 1 - h <=? L (k - 1))) as ->.
    { destruct (Z.leb_spec (n - 1 - h) (L (k - 1))), (Z.leb_spec (W * (n - 1 - h)) (W * L (k - 1))); (done || nia). }
    set (b := if n - 1 - h <=? L (k - 1) then _ else _) in *.
    apply wp_bind. eapply (wp_mono _ _ (fun _ m'' => arr m'' b /\ same_outside m' m'')).
    { unfold b. destruct (n - 1 - h <=? L (k - 1)); [apply trinkle_run|apply sift_run]; try done; simpl; lia. }
    intros _ m1 [Ha1 Hs1].
    pose proof (build_start cmp (n - 1) b h k ks Hf Hset B4 B5 Hk1 Hk') as Hb'.
    assert (Hinv : forall p b0, (Z.lor p.1 1, p.2) = bitset b0 (k :: ks) -> b0 = (if (k =? 1)%nat then 0%nat else 1%nat) ->
      build_inv m a (addr h + W, (Z.lor p.1 1, p.2), Z.of_nat b0) m1).
    { intros p b0 Hp ->. eexists (h + 1), _, _, b. rewrite Hnext, Hp. split_and!; [done|lia|lia|exact Hb'| |done|by eapply same_trans].
      eapply swaps_trans; [exact Hsw|]. eapply swaps_weaken; [..|exact Hsw']; lia. }
    destruct (Z.eqb_spec (Z.of_nat k) 1) as [Hk0|Hk0].
    + apply wp_bind. replace 1 with (Z.of_nat k - Z.of_nat 0) at 1 by lia.
      apply (wp_new_tree K ltac:(lia)); [done|done|lia|]. intros p Hp. apply wp_ret. apply wp_ret. split; [|done].
      apply (Hinv p 0%nat); [done|]. by destruct (Nat.eqb_spec k 1); [|lia].
    + apply wp_bind. replace (Z.of_nat k - 1) with (Z.of_nat k - Z.of_nat 1) by lia.
      apply (wp_new_tree K ltac:(lia)); [done|done|lia|]. intros p Hp. apply wp_ret. apply wp_ret. split; [|done].
      apply (Hinv p 1%nat); [done|]. by destruct (Nat.eqb_spec k 1); [lia|].
Qed.

(** The invariant of the second loop. *)
Definition unwind_inv (m : memory) (a : Z -> list Z) (s : Z * bits * Z) (m' : memory) : Prop :=
  exists h k ks a', s = (addr h, bitset k ks, Z.of_nat k) /\ 0 <= h <= n - 1 /\ unwinding cmp (n - 1) a' h k ks /\
    swaps 0 (n - 1) a a' /\ arr m' a' /\ same_outside m m'.

Lemma wp_unwind_step m a s m' :
  unwind_inv m a s m' ->
  wp (unwind_step cmp tmp fuel W lp s) m' (fun r m'' =>
    match r with
    | inl s' => unwind_inv m a s' m'' /\ (Z.to_nat ((s'.1.1 - base) / W) < Z.to_nat ((s.1.1 - base) / W))%nat
    | inr _ => exists a', arr m'' a' /\ same_outside m m'' /\ swaps 0 (n - 1) a a' /\
        forall i j, 0 <= i <= j -> j <= n - 1 -> le cmp (a' i) (a' j)
    end).
Proof.
  intros (h & k & ks & a' & -> & Hh & Hb & Hsw & Ha & Hso). pose proof Hb as [B1 B2 B3 B4 B5].
  assert (size (k :: ks) = h + 1) as Hsz by (apply forest_size in B1; lia).
  pose proof (order_fits k ks h Hsz ltac:(lia)) as Hu. pose proof (Forall_inv Hu) as Hk. cbv beta in Hk.
  pose proof (L_pos k). pose proof (size_nonneg ks). cbn [size] in Hsz.
  assert (Hprev : addr h - W = addr (h - 1)) by (unfold QsortProofs.addr; lia).
  assert (Hmeas : 0 < h -> (Z.to_nat ((addr h - W - base) / W) < Z.to_nat ((addr h - base) / W))%nat).
  { intros Hpos. replace (addr h - W - base) with ((h - 1) * W) by (unfold QsortProofs.addr; lia).
    replace (addr h - base) with (h * W) by (unfold QsortProofs.addr; lia). rewrite !Z.div_mul by lia. lia. }
  unfold unwind_step. rewrite (single_bitset K ltac:(lia)).
  destruct (negb (Z.of_nat k =? 1) || negb (bool_decide (ks = []))) eqn:Eend.
  2:{ apply orb_false_iff in Eend as [E1 E2]. apply negb_false_iff in E1, E2. apply bool_decide_eq_true in E2. subst ks.
      assert (k = 1%nat) as -> by lia. apply wp_ret. exists a'. split_and!; [done|done|done|]. by apply (unwind_sorted cmp (n - 1) a' h). }
  apply wp_bind. destruct (Z.leb_spec (Z.of_nat k) 1) as [Hk1|Hk1].
  - destruct ks as [|k' ks].
    { exfalso. simpl in B4. rewrite bool_decide_true in Eend by done. destruct (Z.eqb_spec (Z.of_nat k) 1); [done|]. lia. }
    pose proof (L_pos k'). pose proof (size_nonneg ks). cbn [size] in Hsz.
    rewrite (pntz_bitset K ltac:(lia)) by done. apply wp_bind. apply (wp_shr_next K ltac:(lia)); [done|done|]. do 2 apply wp_ret.
    split; [|apply Hmeas; lia]. exists (h - 1), k', ks, a'. split_and!; [|lia|lia|apply (unwind_drop cmp (n - 1) a' h k k' ks); [lia|done]|done|done|done].
    rewrite Hprev. f_equal. lia.
  - destruct k as [|[|k]]; [lia..|]. rewrite L_SS in Hsz. pose proof (L_pos k). pose proof (L_pos (S k)).
    destruct (unwind_split cmp (n - 1) a' h k ks Hb) as [Hb' Hsw'].
    set (a1 := trinkled cmp a' (h - 1 - L k) (S k) ks true) in *. set (b := trinkled cmp a1 (h - 1) k (S k :: ks) true) in *.
    pose proof (split_left K ltac:(lia) k ks m' (fun p m'' => p = bitset (S k) ks /\ m'' = m') B3 Hu ltac:(done)) as Hsplit.
    apply wp_bind_inv in Hsplit. apply wp_bind. eapply wp_mono; [exact Hsplit|]. clear Hsplit. intros p m2 Hp. cbv beta in Hp |- *.
    apply wp_bind. eapply wp_mono; [exact Hp|]. intros p' m'' [-> ->].
    replace (Z.of_nat (S (S k)) - 2) with (Z.of_nat k) by lia.
    apply wp_bind. apply (elem_run k); [done|lia|].
    replace (addr h - W * L k - W) with (addr (h - 1 - L k)) by (unfold QsortProofs.addr; lia).
    replace (Z.of_nat k + 1) with (Z.of_nat (S k)) by lia.
    assert (shape (S k :: ks)) as Hs1 by (simpl; simpl in B3; eapply spaced_weaken; [|exact B3]; lia).
    apply wp_bind. eapply wp_mono; [apply (trinkle_run _ a'); [done|done|cbn [size]; lia|lia]|]. intros _ m3 [Ha3 Hs3]. fold a1 in Ha3.
    apply wp_bind. replace 1 with (Z.of_nat (S k) - Z.of_nat k) at 1 by lia.
    assert (upto K (S k :: ks)) as Hu1 by (apply (order_fits (S k) ks (h - 1 - L k)); [cbn [size]; lia|lia]).
    apply (wp_new_tree K ltac:(lia)); [done|done|lia|]. intros p' Hp'. rewrite Hp'. rewrite Hprev.
    apply wp_bind. eapply wp_mono; [apply (trinkle_run _ a1); [done| |cbn [size]; lia|lia]|].
    { simpl. simpl in B3. split; [lia|done]. }
    intros _ m4 [Ha4 Hs4]. fold b in Ha4. do 2 apply wp_ret. cbn [fst]. rewrite <- Hprev. split; [|apply Hmeas; lia].
    exists (h - 1), k, (S k :: ks), b. split_and!; [|lia|lia|done| |done|].
    + rewrite Hprev. done.
    + eapply swaps_trans; [exact Hsw|]. eapply swaps_weaken; [..|exact Hsw']; lia.
    + eapply same_trans; [exact Hso|]. by eapply same_trans.
Qed.
End loops.

End order.

Lemma wp_qsort m a :
  arr m a ->
  wp (qsort cmp tmp fuel base n W) m (fun _ m' => exists a', arr m' a' /\ same_outside m m' /\ swaps 0 (n - 1) a a' /\
    forall i j, 0 <= i <= j -> j <= n - 1 -> le cmp (a' i) (a' j)).
Proof.
  intros Ha. destruct (highest_order n Hn) as (K & HK & HKn). unfold qsort, __qsort_r.
  rewrite wrap_small by (unfold in_range; nia). destruct (Z.eqb_spec (W * n) 0); [nia|].
  apply wp_bind. eapply wp_mono; [by apply (wp_fill_lp K)|]. intros lp m' [-> Hlp].
  replace (base + W * n - W) with (addr (n - 1)) by (unfold QsortProofs.addr; lia).
  apply wp_bind. apply (wp_loop (build_inv m a) (fun s => Z.to_nat (n - (s.1.1 - base) / W))).
  - intros s m1 Hinv. eapply wp_mono; [by apply (wp_build_step K HK HKn lp Hlp m a)|]. intros [s'|s'] m2; [done|].
    intros (-> & -> & Hhead). destruct Hinv as (h & k & ks & a1 & -> & Hh & Hb & Hsw & Ha1 & Hs1). simpl in Hhead.
    assert (h = n - 1) as -> by (unfold QsortProofs.addr in Hhead; nia).
    pose proof Hb as [_ B2 _ B4 _ _].
    assert (size (k :: ks) = n - 1 + 1) as Hsz by (apply forest_size in B2; simpl; lia).
    apply wp_bind. eapply wp_mono; [apply (trinkle_run K HK HKn lp Hlp _ a1); [done|done|done|lia]|]. intros _ m3 [Ha3 Hs3].
    destruct (unwind_start cmp (n - 1) a1 _ k ks Hb eq_refl) as [Hu Hsw'].
    apply (wp_loop (unwind_inv m a) (fun s => Z.to_nat ((s.1.1 - base) / W))).
    + intros s m4 Hinv. eapply wp_mono; [by apply (wp_unwind_step K HK HKn lp Hlp m a)|]. by intros [s'|s'] m5.
    + eexists (n - 1), k, ks, _. split_and!; [done|lia|lia|exact Hu|by eapply swaps_trans|done|by eapply same_trans].
    + simpl. replace (addr (n - 1) - base) with ((n - 1) * W) by (unfold QsortProofs.addr; lia). rewrite Z.div_mul by lia. lia.
  - exists 0, 1%nat, [], a. split_and!; [|lia|lia| |by apply swaps_refl|done|done].
    + unfold QsortProofs.addr. rewrite Z.add_0_r. done.
    + split; [done|done|done|done|simpl; lia|lia].
  - simpl. rewrite Z.sub_diag, Z.div_0_l by lia. lia.
Qed.
End sort.

(** ** Arrays as lists of elements *)

Lemma concat_at m w es : Forall (fun e => length e = w) es -> forall p,
  bytes_at m p (concat es) <-> forall i e, es !! i = Some e -> bytes_at m (p + Z.of_nat i * Z.of_nat w) e.
Proof.
  induction 1 as [|e es He _ IH]; intros p; simpl; [done|]. rewrite bytes_at_app, He, IH. split.
  - intros [H1 H2] [|i] x Hx; simpl in Hx; [injection Hx as <-; by replace (p + Z.of_nat 0 * Z.of_nat w) with p by lia|].
    replace (p + Z.of_nat (S i) * Z.of_nat w) with (p + Z.of_nat w + Z.of_nat i * Z.of_nat w) by lia. by apply H2.
  - intros H. split; [specialize (H 0%nat e eq_refl); by replace (p + Z.of_nat 0 * Z.of_nat w) with p in H by lia|].
    intros i x Hx. replace (p + Z.of_nat w + Z.of_nat i * Z.of_nat w) with (p + Z.of_nat (S i) * Z.of_nat w) by lia. by apply H.
Qed.

Lemma seqZ_lookup_map {A} (a : Z -> A) (n : nat) i x :
  (a <$> seqZ 0 (Z.of_nat n)) !! i = Some x <-> x = a (Z.of_nat i) /\ (i < n)%nat.
Proof.
  rewrite list_lookup_fmap, fmap_Some. split.
  - intros (z & Hz & ->). apply lookup_seqZ in Hz as [-> Hi]. split; [f_equal; lia|lia].
  - intros [-> Hi]. exists (Z.of_nat i). split; [|done]. apply lookup_seqZ. lia.
Qed.

Lemma nth_seqZ (es : list (list Z)) : (fun i => nth (Z.to_nat i) es []) <$> seqZ 0 (lenZ es) = es.
Proof.
  apply list_eq. intros i. apply option_eq. intros x. rewrite seqZ_lookup_map, Nat2Z.id. split.
  - intros [-> Hi]. rewrite nth_lookup. destruct (lookup_lt_is_Some_2 es i Hi) as [y ->]. done.
  - intros Hx. split; [by rewrite nth_lookup, Hx|by eapply lookup_lt_Some].
Qed.

Lemma sorted_seqZ {A} (R : A -> A -> Prop) (a : Z -> A) (n : nat) :
  (forall i j, 0 <= i <= j -> j <= Z.of_nat n - 1 -> R (a i) (a j)) -> StronglySorted R (a <$> seqZ 0 (Z.of_nat n)).
Proof.
  intros H. assert (forall k lo, 0 <= lo -> lo + Z.of_nat k <= Z.of_nat n -> StronglySorted R (a <$> seqZ lo (Z.of_nat k))) as Hg; [|apply Hg; lia].
  induction k as [|k IH]; intros lo Hlo Hk; [constructor|]. rewrite seqZ_cons by lia.
  replace (Z.pred (Z.of_nat (S k))) with (Z.of_nat k) by lia. cbn [fmap list_fmap]. constructor; [apply IH; lia|].
  apply Forall_forall. intros x Hx. apply list_elem_of_fmap in Hx as (z & -> & Hz). apply elem_of_seqZ in Hz. apply H; lia.
Qed.

(** The elements [es] of [w] bytes are at [base]. *)
Record elements (m : memory) (base : Z) (w : nat) (es : list (list Z)) : Prop := {
  el_at : bytes_at m base (concat es);
  el_len : Forall (fun e => length e = w) es;
  el_byte : Forall (Forall is_byte) es
}.

Lemma elements_arr m base tmp w es :
  elements m base w es -> mapped m tmp 256 ->
  arr base tmp w (lenZ es) m (fun i => nth (Z.to_nat i) es []).
Proof.
  intros [H1 H2 H3] Ht.
  assert (Hl : forall i, 0 <= i < lenZ es -> exists e, nth (Z.to_nat i) es [] = e /\ es !! Z.to_nat i = Some e).
  { intros i Hi. destruct (lookup_lt_is_Some_2 es (Z.to_nat i)) as [e He]; [lia|]. exists e. by rewrite nth_lookup, He. }
  split; [..|done]; intros i Hi; destruct (Hl i Hi) as (e & -> & He).
  - unfold addr. replace i with (Z.of_nat (Z.to_nat i)) at 1 by lia. by eapply concat_at.
  - exact (Forall_lookup_1 _ _ _ _ H2 He).
  - exact (Forall_lookup_1 _ _ _ _ H3 He).
Qed.
Lemma arr_elements m base tmp w n a :
  arr base tmp w (Z.of_nat n) m a -> elements m base w (a <$> seqZ 0 (Z.of_nat n)).
Proof.
  intros [H1 H2 H3 _].
  assert (Hlen : Forall (fun e => length e = w) (a <$> seqZ 0 (Z.of_nat n))).
  { apply Forall_lookup_2. intros i e He. apply seqZ_lookup_map in He as [-> Hi]. apply H2. lia. }
  split; [|done|].
  - apply (concat_at m w); [done|]. intros i e He. apply seqZ_lookup_map in He as [-> Hi]. apply H1. lia.
  - apply Forall_lookup_2. intros i e He. apply seqZ_lookup_map in He as [-> Hi]. apply H3. lia.
Qed.

(** C12: [qsort] on an array of elements of any width, for a comparison
    function that orders them: it terminates without undefined behaviour and
    leaves a sorted permutation of the elements, with nothing changed outside
    the array and the buffer on its stack. *)
Theorem qsort_correct cmp {O : CmpOrder cmp} m base tmp w es fuel :
  elements m base w es -> (0 < w)%nat -> lenZ es <= 2 ^ 44 -> Z.of_nat w * lenZ es < 2 ^ 62 ->
  mapped m tmp 256 -> tmp + 256 <= base \/ base + lenZ es * Z.of_nat w <= tmp ->
  lenZ es + Z.of_nat w + 300 < Z.of_nat fuel ->
  exists es' m', qsort cmp tmp fuel base (lenZ es) (Z.of_nat w) m = Some (tt, m') /\ elements m' base w es' /\
    es' ≡ₚ es /\ StronglySorted (fun x y => cmp x y <= 0) es' /\
    (forall q, ~ (base <= q < base + lenZ es * Z.of_nat w) -> ~ (tmp <= q < tmp + 256) -> m' !! q = m !! q).
Proof.
  intros He Hw Hn Hsz Ht Hdis Hf. destruct (decide (es = [])) as [->|Hne].
  { exists [], m. split_and!; try done; [|constructor]. unfold qsort, __qsort_r. cbn [length]. rewrite Z.mul_0_r. done. }
  assert (1 <= lenZ es) by (destruct es; [done|simpl; lia]).
  pose proof (elements_arr m base tmp w es He Ht) as Ha.
  pose proof (wp_qsort base tmp w (lenZ es) Hw Hdis cmp fuel ltac:(lia) Hsz Hf m _ Ha) as Hwp. unfold wp in Hwp.
  destruct (qsort cmp tmp fuel base (lenZ es) (Z.of_nat w) m) as [[[] m']|]; [|done].
  destruct Hwp as (a' & Ha' & Hs & Hsw & Hsort). exists (a' <$> seqZ 0 (lenZ es)), m'.
  split_and!; [done|by eapply arr_elements| |by apply sorted_seqZ|done].
  rewrite <- (nth_seqZ es) at 2. by apply (swaps_perm cmp).
Qed.

(** C36: When the next tree is exactly 64 orders larger, the second word is odd
    and [pntz] takes it for empty: it returns 0 instead of 64, and the shift
    by 0 that follows is undefined. Such trees have more than 2^44 elements. *)
Theorem pntz_misses_64 q m : pntz (1, 2 * q + 1) = 0 /\ shr (1, 2 * q + 1) (pntz (1, 2 * q + 1)) m = None.
Proof.
  assert (pntz (1, 2 * q + 1) = 0) as ->; [|done]. unfold pntz. cbn [fst snd].
  pose proof (a_ctz_64_ok 0 q ltac:(lia)) as H. rewrite Z.mul_1_l in H. rewrite H. done.
Qed.

(** ** Binary search *)

Section bsearch.
Context (cmp : list Z -> list Z -> Z) {O : CmpOrder cmp} (key : list Z).

(** In a sorted array what compares greater than the key comes before what is
    equivalent to it, and that before what compares less. *)
Lemma sorted_less es i j x y :
  StronglySorted (fun x y => cmp x y <= 0) es -> es !! i = Some x -> es !! j = Some y -> (i <= j)%nat ->
  (cmp key x < 0 -> cmp key y < 0) /\ (0 < cmp key y -> 0 < cmp key x).
Proof.
  intros Hs Hx Hy Hij. assert (cmp x y <= 0) as Hxy.
  { destruct (decide (i = j)) as [->|]; [assert (x = y) as -> by congruence; rewrite (cmp_refl cmp); lia|].
    revert i j Hx Hy Hij n. induction Hs as [|e es _ IH Hf]; intros i j Hx Hy Hij Hne; [done|].
    destruct i as [|i], j as [|j]; [done| |lia|simpl in *; apply (IH i j); (done || lia)].
    simpl in *. injection Hx as ->. exact (Forall_lookup_1 _ _ _ _ Hf Hy). }
  split; intros H.
  - destruct (Z_lt_dec (cmp key y) 0); [done|exfalso]. assert (cmp y key <= 0) as H1 by (apply (cmp_flip_le cmp); lia).
    pose proof (cmp_le_trans cmp x y key Hxy H1) as H2. apply (cmp_flip_le cmp) in H2. lia.
  - destruct (Z_lt_dec 0 (cmp key x)); [done|exfalso]. pose proof (cmp_le_trans cmp key x y ltac:(lia) Hxy). lia.
Qed.

(** [bsearch] in a sorted array terminates, reads only the array, changes
    nothing, and returns the address of an element equivalent to the key, or
    null when there is none. *)
Theorem bsearch_correct m base w es fuel :
  elements m base w es -> (0 < w)%nat -> 0 < base -> StronglySorted (fun x y => cmp x y <= 0) es ->
  (length es < fuel)%nat ->
  exists r, bsearch cmp fuel key base (lenZ es) (Z.of_nat w) m = Some (r, m) /\
    ((exists i e, es !! i = Some e /\ r = base + Z.of_nat i * Z.of_nat w /\ cmp key e = 0) \/
     (r = 0 /\ Forall (fun e => cmp key e <> 0) es)).
Proof.
  intros [He1 He2 He3] Hw Hbase Hs Hf.
  enough (wp (bsearch cmp fuel key base (lenZ es) (Z.of_nat w)) m (fun r m' => m' = m /\
    ((exists i e, es !! i = Some e /\ r = base + Z.of_nat i * Z.of_nat w /\ cmp key e = 0) \/
     (r = 0 /\ Forall (fun e => cmp key e <> 0) es)))) as H.
  { unfold wp in H. destruct (bsearch _ _ _ _ _ _ m) as [[r m']|]; [|done]. destruct H as [-> H]. by exists r. }
  unfold bsearch. apply (wp_loop
    (fun '(b, nel) m' => m' = m /\ exists lo k, b = base + Z.of_nat lo * Z.of_nat w /\ nel = Z.of_nat k /\ (lo + k <= length es)%nat /\
       (forall i e, es !! i = Some e -> (i < lo)%nat -> 0 < cmp key e) /\
       (forall i e, es !! i = Some e -> (lo + k <= i)%nat -> cmp key e < 0))
    (fun '(_, nel) => Z.to_nat nel)); [| |lia].
  2:{ split; [done|]. exists 0%nat, (length es). split_and!; [lia|done|lia|lia|]. intros i e Hi Hge. apply lookup_lt_Some in Hi. lia. }
  intros [b nel] m' (-> & lo & k & -> & -> & Hk & Hlo & Hhi). destruct (Z.ltb_spec 0 (Z.of_nat k)) as [Hpos|Hz].
  2:{ apply wp_ret. split; [done|]. right. split; [done|]. apply Forall_lookup_2. intros i e Hi.
      destruct (decide (i < lo)%nat); [pose proof (Hlo i e Hi); lia|pose proof (Hhi i e Hi); lia]. }
  replace (Z.of_nat k `div` 2) with (Z.of_nat (k / 2)) by (rewrite Nat2Z.inj_div; done).
  assert (Hdiv : (k / 2 < k)%nat) by (apply Nat.div_lt; lia). set (mid := (lo + k / 2)%nat).
  destruct (lookup_lt_is_Some_2 es mid) as [e Hmid]; [unfold mid; lia|].
  replace (base + Z.of_nat lo * Z.of_nat w + Z.of_nat w * Z.of_nat (k / 2)) with (base + Z.of_nat mid * Z.of_nat w) by (unfold mid; lia).
  apply wp_bind. rewrite Nat2Z.id.
  assert (length e = w) as Hew by exact (Forall_lookup_1 _ _ _ _ He2 Hmid). rewrite <- Hew at 1.
  apply wp_load_bytes; [by eapply concat_at|].
  destruct (Z.ltb_spec (cmp key e) 0) as [Hlt|Hge]; [|destruct (Z.ltb_spec 0 (cmp key e)) as [Hgt|Hle]].
  - apply wp_ret. split; [|lia]. split; [done|]. exists lo, (k / 2)%nat. split_and!; [lia|lia|lia|done|].
    intros i x Hi Hge. by apply (sorted_less es mid i e x).
  - apply wp_ret. split; [|lia]. split; [done|]. exists (S mid), (k - (k / 2 + 1))%nat.
    split_and!; [lia|lia|unfold mid; lia| |].
    + intros i x Hi Hlt'. by apply (sorted_less es i mid x e); [| | |lia|].
    + intros i x Hi Hge'. apply (Hhi i x Hi). unfold mid in Hge'. lia.
  - apply wp_ret. split; [done|]. left. exists mid, e. split_and!; [done|done|lia].
Qed.
End bsearch.

(** ** Little-endian integers of two bytes *)

#[global] Instance cmp_by {A} (f : A -> Z) : CmpOrder (fun x y => f x - f y).
Proof. split; intros; lia. Qed.

Definition cmp_le16 (x y : list Z) : Z := le_combine x - le_combine y.
Definition sort_elems : list (list Z) := [[3; 1]; [1; 0]; [2; 5]; [1; 1]].
Definition sort_mem : memory := mem_write (mem_write ∅ 1024 (replicate 256 0)) 64 (concat sort_elems).

Lemma sort_mem_elements : elements sort_mem 64 2 sort_elems.
Proof.
  split; [apply mem_write_bytes_at| |]; repeat first [apply List.Forall_cons|apply List.Forall_nil]; first [done|unfold in_range; lia].
Qed.
Lemma sort_mem_buffer : mapped sort_mem 1024 256.
Proof.
  apply mapped_mem_write. intros q Hq. rewrite mem_write_lookup, decide_True by (rewrite length_replicate; lia).
  rewrite lookup_replicate_2 by lia. done.
Qed.

Lemma qsort_witness :
  exists es' m', qsort cmp_le16 1024 400 64 4 2 sort_mem = Some (tt, m') /\ elements m' 64 2 es' /\
    es' ≡ₚ sort_elems /\ StronglySorted (fun x y => cmp_le16 x y <= 0) es' /\
    (forall q, ~ (64 <= q < 64 + 4 * 2) -> ~ (1024 <= q < 1024 + 256) -> m' !! q = sort_mem !! q).
Proof.
  exact (qsort_correct cmp_le16 (O := cmp_by le_combine) sort_mem 64 1024 2 sort_elems 400
    sort_mem_elements ltac:(lia) ltac:(simpl; lia) ltac:(simpl; lia) sort_mem_buffer ltac:(simpl; lia) ltac:(simpl; lia)).
Defined.

Definition sorted_mem : memory := mem_write ∅ 64 (concat [[1; 0]; [1; 1]; [3; 1]]).
Lemma bsearch_witness :
  exists r, bsearch cmp_le16 10 [3; 1] 64 3 2 sorted_mem = Some (r, sorted_mem) /\
    ((exists i e, [[1; 0]; [1; 1]; [3; 1]] !! i = Some e /\ r = 64 + Z.of_nat i * 2 /\ cmp_le16 [3; 1] e = 0) \/
     (r = 0 /\ Forall (fun e => cmp_le16 [3; 1] e <> 0) [[1; 0]; [1; 1]; [3; 1]])).
Proof.
  refine (bsearch_correct cmp_le16 (O := cmp_by le_combine) [3; 1] sorted_mem 64 2 [[1; 0]; [1; 1]; [3; 1]] 10 _ ltac:(lia) ltac:(lia) _ ltac:(simpl; lia)).
  - split; [apply mem_write_bytes_at| |]; repeat first [apply List.Forall_cons|apply List.Forall_nil]; first [done|unfold in_range; lia].
  - repeat constructor; vm_compute; done.
Defined.
