(* ===== verification/ListSearch.v ===== *)
(** * ListSearch: linear search and linked queues, M/search

    lsearch.c works on an array in the memory of [CMem] with a comparison
    function that sees the bytes of the key and of an element; insque.c links
    nodes that live in a heap of [next]/[prev] pairs. *)

From stdpp Require Import base tactics numbers list gmap.
From S2P Require Import Prelude CMem MemBlock Qsort QsortProofs QsortSort.

Open Scope Z_scope.

Lemma length_concat_uniform {A} w (es : list (list A)) :
  Forall (fun e => length e = w) es -> length (concat es) = (length es * w)%nat.
Proof. induction 1 as [|e es He _ IH]; [done|]. simpl. rewrite length_app, IH, He. lia. Qed.

(** ** lsearch.c *)

Section lsearch.
Context (compar : list Z -> list Z -> Z) (fuel : nat).

(** [for (i = 0; i < n; i++) if (compar(key, p[i]) == 0) return p[i];] *)
Definition scan (key base n width : Z) : C (option Z) :=
  loop fuel (fun i =>
    if i <? n then
      k ← load_bytes (Z.to_nat width) key;
      e ← load_bytes (Z.to_nat width) (base + i * width);
      mret (if compar k e =? 0 then inr (Some (base + i * width)) else inl (i + 1))
    else mret (inr None)) 0.

Definition lsearch (key base nelp width : Z) : C Z :=
  n ← load64 nelp;
  r ← scan key base n width;
  match r with
  | Some p => mret p
  | None => store64 nelp (wrap64 (n + 1));; memcpy fuel (base + n * width) key width
  end.

Definition lfind (key base nelp width : Z) : C Z :=
  n ← load64 nelp;
  r ← scan key base n width;
  mret (default 0 r).

(** The first element equal to the key. *)
Definition first_equal (k : list Z) (es : list (list Z)) : option nat :=
  fst <$> list_find (fun e => compar k e = 0) es.

Lemma wp_lscan m key base w k es :
  bytes_at m key k -> length k = w -> elements m base w es -> (length es < fuel)%nat ->
  wp (scan key base (lenZ es) (Z.of_nat w)) m (fun r m' => m' = m /\
    r = (fun i => base + Z.of_nat i * Z.of_nat w) <$> first_equal k es).
Proof.
  intros Hk Hw [He1 He2 _] Hf. unfold scan.
  apply (wp_loop (fun i m' => m' = m /\ 0 <= i <= lenZ es /\ Forall (fun e => compar k e <> 0) (take (Z.to_nat i) es))
    (fun i => Z.to_nat (lenZ es - i))); [|split; [done|split; [lia|by rewrite take_0]]|lia].
  intros i m' (-> & Hi & Hne). destruct (Z.ltb_spec i (lenZ es)) as [Hlt|Hge].
  - destruct (lookup_lt_is_Some_2 es (Z.to_nat i)) as [e He]; [lia|].
    assert (length e = w) as Hew by exact (Forall_lookup_1 _ _ _ _ He2 He).
    apply wp_bind. rewrite Nat2Z.id, <- Hw at 1. apply wp_load_bytes; [done|].
    apply wp_bind. rewrite Nat2Z.id, <- Hew at 1. apply wp_load_bytes.
    { rewrite <- (Z2Nat.id i) by lia. by eapply concat_at. }
    apply wp_ret. destruct (Z.eqb_spec (compar k e) 0) as [H0|H0].
    + split; [done|]. unfold first_equal. replace (list_find _ es) with (Some (Z.to_nat i, e)).
      { simpl. by rewrite Z2Nat.id by lia. }
      symmetry. apply list_find_Some. split_and!; [done|done|]. intros j y Hy Hj.
      rewrite Forall_lookup in Hne. apply (Hne j y). by rewrite lookup_take_lt.
    + split; [|lia]. split; [done|]. split; [lia|]. replace (Z.to_nat (i + 1)) with (S (Z.to_nat i)) by lia.
      rewrite (take_S_r _ _ e) by done. apply Forall_app. by repeat constructor.
  - apply wp_ret. split; [done|]. rewrite take_ge in Hne by lia. unfold first_equal.
    by rewrite (proj2 (list_find_None _ _)).
Qed.

(** A [size_t] in memory. *)
Record size_at (m : memory) (p v : Z) : Prop := {
  sz_align : p `mod` 8 = 0;
  sz_range : in_range 64 v;
  sz_bytes : bytes_at m p (le_split 8 v)
}.

Lemma wp_load_size m p v (Q : Z -> memory -> Prop) : size_at m p v -> Q v m -> wp (load64 p) m Q.
Proof.
  intros [Ha Hr Hb] HQ. eapply wp_load_word; [done|apply (length_le_split 8 v)|done|].
  by rewrite le_combine_split, wrap_small.
Qed.

(** [lsearch] and [lfind]: the address of the first equal element, memory
    unchanged; [lfind] returns null without one, [lsearch] appends the key. *)
Lemma lfind_spec m key base nelp w k es :
  bytes_at m key k -> length k = w -> elements m base w es -> size_at m nelp (lenZ es) -> (length es < fuel)%nat ->
  lfind key base nelp (Z.of_nat w) m = Some (from_option (fun i => base + Z.of_nat i * Z.of_nat w) 0 (first_equal k es), m).
Proof.
  intros Hk Hw He Hn Hf. apply wp_elim. unfold lfind. apply wp_bind. eapply wp_load_size; [done|].
  apply wp_bind. eapply wp_mono; [by apply (wp_lscan m key base w k es)|]. intros r m' [-> ->]. apply wp_ret.
  split; [|done]. by destruct (first_equal k es).
Qed.

(** [lsearch] terminates and returns the address of the first element equal
    to the key, leaving memory alone; when there is none it stores the key
    after the last element, counts it, changes no other byte and returns
    where it put it. *)
Theorem lsearch_correct m key base nelp w k es :
  bytes_at m key k -> Forall is_byte k -> length k = w -> elements m base w es -> size_at m nelp (lenZ es) ->
  mapped m (base + lenZ es * Z.of_nat w) w ->
  disjoint_ranges nelp 8 base ((length es + 1) * w) -> disjoint_ranges key w nelp 8 ->
  disjoint_ranges key w (base + lenZ es * Z.of_nat w) w -> lenZ es + 1 < 2 ^ 64 ->
  (length es + w < fuel)%nat ->
  match first_equal k es with
  | Some i => lsearch key base nelp (Z.of_nat w) m = Some (base + Z.of_nat i * Z.of_nat w, m)
  | None => exists m', lsearch key base nelp (Z.of_nat w) m = Some (base + lenZ es * Z.of_nat w, m') /\
      elements m' base w (es ++ [k]) /\ size_at m' nelp (lenZ es + 1) /\
      forall q, ~ (nelp <= q < nelp + 8) -> ~ (base + lenZ es * Z.of_nat w <= q < base + (lenZ es + 1) * Z.of_nat w) ->
        m' !! q = m !! q
  end.
Proof.
  intros Hk Hkb Hw He Hn Hm Hd1 Hd2 Hd3 Hs Hf. set (p := base + lenZ es * Z.of_nat w) in *.
  pose proof (wp_lscan m key base w k es Hk Hw He ltac:(lia)) as Hscan.
  assert (lsearch key base nelp (Z.of_nat w) m = (r ← scan key base (lenZ es) (Z.of_nat w);
    match r with Some p => mret p | None => store64 nelp (wrap64 (lenZ es + 1));; memcpy fuel p key (Z.of_nat w) end) m) as ->.
  { unfold lsearch. unfold mbind at 1, C_bind at 1.
    by rewrite (proj1 (wp_elim (load64 nelp) m (lenZ es) m) (wp_load_size m nelp _ _ Hn (conj eq_refl eq_refl))). }
  destruct (first_equal k es) as [i|] eqn:Ef.
  { apply wp_elim, wp_bind. eapply wp_mono; [exact Hscan|]. intros r m' [-> ->]. by apply wp_ret. }
  set (m1 := mem_write m nelp (le_split 8 (lenZ es + 1))). unfold disjoint_ranges in *.
  assert (Z.of_nat ((length es + 1) * w) = (lenZ es + 1) * Z.of_nat w) as Ew by lia.
  assert (length (le_split 8 (lenZ es + 1)) = 8%nat) as El by apply length_le_split.
  exists (mem_write m1 p k). split_and!.
  - apply wp_elim, wp_bind. eapply wp_mono; [exact Hscan|]. intros r m' [-> ->]. cbn [fmap option_fmap option_map].
    apply wp_bind, wp_store_word; [apply Hn| |].
    { rewrite <- El at 1. rewrite El, <- (length_le_split 8 (lenZ es)). apply bytes_at_mapped, Hn. }
    rewrite wrap_small by (unfold in_range; lia). fold m1. rewrite <- Hw.
    apply wp_memcpy; [|done| |lia|lia].
    + apply bytes_at_mem_write_disjoint; [unfold disjoint_ranges; lia|done].
    + rewrite Hw. by apply mapped_mem_write.
  - destruct He as [He1 He2 He3]. pose proof (length_concat_uniform w es He2) as Elc. split.
    + rewrite concat_app. simpl. rewrite app_nil_r. apply bytes_at_app.
      replace (base + lenZ (concat es)) with p by (unfold p; rewrite Elc; lia). split; [|apply mem_write_bytes_at].
      apply bytes_at_mem_write_disjoint; [unfold disjoint_ranges; rewrite Elc; unfold p; lia|].
      apply bytes_at_mem_write_disjoint; [unfold disjoint_ranges; rewrite Elc; lia|done].
    + apply Forall_app. by repeat constructor.
    + apply Forall_app. by repeat constructor.
  - split; [apply Hn|unfold in_range; lia|]. apply bytes_at_mem_write_disjoint; [unfold disjoint_ranges; lia|].
    apply mem_write_bytes_at.
  - intros q Hq1 Hq2. rewrite mem_write_ne by (unfold p; lia). apply mem_write_ne. lia.
Qed.
End lsearch.

(** ** insque.c *)

Record qnode := mk_qnode { next : Z; prev : Z }.

Definition with_next (v : Z) (n : qnode) : qnode := mk_qnode v (prev n).
Definition with_prev (v : Z) (n : qnode) : qnode := mk_qnode (next n) v.

(** A write through a pointer: undefined when there is no node. *)
Definition qset (p : Z) (f : qnode -> qnode) (hp : gmap Z qnode) : option (gmap Z qnode) :=
  n ← hp !! p; Some (<[p := f n]> hp).

Definition insque (e p : Z) (hp : gmap Z qnode) : option (gmap Z qnode) :=
  if p =? 0 then qset e (fun _ => mk_qnode 0 0) hp
  else
    pn ← hp !! p;
    hp ← qset e (with_next (next pn)) hp;
    hp ← qset e (with_prev p) hp;
    hp ← qset p (with_next e) hp;
    en ← hp !! e;
    if next en =? 0 then Some hp else qset (next en) (with_prev e) hp.

Definition remque (e : Z) (hp : gmap Z qnode) : option (gmap Z qnode) :=
  en ← hp !! e;
  hp ← (if next en =? 0 then Some hp else qset (next en) (with_prev (prev en)) hp);
  en ← hp !! e;
  if prev en =? 0 then Some hp else qset (prev en) (with_next (next en)) hp.

Definition head_or (l : list Z) (z : Z) : Z := match l with [] => z | a :: _ => a end.
Definition last_or (l : list Z) (z : Z) : Z := foldl (fun _ a => a) z l.

(** The nodes [l] are linked, from the node [a] before them to the node [b]
    after them. *)
Fixpoint linked (hp : gmap Z qnode) (a : Z) (l : list Z) (b : Z) : Prop :=
  match l with
  | [] => True
  | x :: l => hp !! x = Some (mk_qnode (head_or l b) a) /\ linked hp x l b
  end.

(** A queue: nodes at distinct non-null addresses, with null at both ends. *)
Definition queue (hp : gmap Z qnode) (l : list Z) : Prop := linked hp 0 l 0 /\ NoDup l /\ 0 ∉ l.

Lemma last_or_app l1 l2 a : last_or (l1 ++ l2) a = last_or l2 (last_or l1 a).
Proof. apply foldl_app. Qed.
Lemma head_or_app l1 l2 b : head_or (l1 ++ l2) b = head_or l1 (head_or l2 b).
Proof. by destruct l1. Qed.

Lemma linked_app hp l1 : forall a l2 b,
  linked hp a (l1 ++ l2) b <-> linked hp a l1 (head_or l2 b) /\ linked hp (last_or l1 a) l2 b.
Proof. induction l1 as [|x l1 IH]; intros a l2 b; simpl; [tauto|]. rewrite IH, head_or_app. unfold last_or. simpl. tauto. Qed.

Lemma linked_ext hp hp' l : forall a b, (forall x, x ∈ l -> hp' !! x = hp !! x) -> linked hp a l b -> linked hp' a l b.
Proof.
  induction l as [|x l IH]; intros a b Hx; simpl; [done|]. intros [H1 H2]. split; [rewrite Hx; [done|apply list_elem_of_here]|].
  apply IH; [|done]. intros y Hy. by apply Hx, list_elem_of_further.
Qed.

(** The first and the last node of a list are the ones that see a change of
    their neighbours. *)
Lemma linked_prev hp a a' x l b : x ∉ l -> linked hp a (x :: l) b -> linked (<[x := mk_qnode (head_or l b) a']> hp) a' (x :: l) b.
Proof.
  intros Hx [H1 H2]. split; [by rewrite lookup_insert_eq|]. eapply linked_ext; [|done].
  intros y Hy. apply lookup_insert_ne. by intros ->.
Qed.

Lemma linked_next hp a l x b b' : x ∉ l -> linked hp a (l ++ [x]) b ->
  linked (<[x := mk_qnode b' (last_or l a)]> hp) a (l ++ [x]) b'.
Proof.
  intros Hx [H1 [H2 _]]%linked_app. apply linked_app. split; [|by simpl; rewrite lookup_insert_eq].
  eapply linked_ext; [|done]. intros y Hy. apply lookup_insert_ne. by intros ->.
Qed.

(** [insque] puts a node after a node of the queue. *)
Lemma insque_spec hp l1 p l2 e :
  queue hp (l1 ++ p :: l2) -> e ∉ l1 ++ p :: l2 -> e <> 0 -> is_Some (hp !! e) ->
  exists hp', insque e p hp = Some hp' /\ queue hp' (l1 ++ p :: e :: l2) /\
    forall q, q ∉ e :: l1 ++ p :: l2 -> hp' !! q = hp !! q.
Proof.
  intros (HL & HN & H0) He He0 [en Hen]. apply linked_app in HL as [HL1 [Hp HL2]]. cbn [head_or] in HL1.
  apply NoDup_app in HN as (HN1 & HN12 & [Hp2 HN2]%NoDup_cons).
  assert (p <> 0 /\ p <> e /\ e ∉ l1 /\ e ∉ l2 /\ p ∉ l1 /\ 0 ∉ l2) as (Hp0 & Hpe & He1 & He2 & Hp1 & H02) by set_solver.
  assert (forall x, x ∈ l1 -> x ∉ l2) as H12 by set_solver.
  unfold insque, qset, with_next, with_prev. rewrite (proj2 (Z.eqb_neq p 0)), Hp by done. simpl. rewrite Hen. simpl. rewrite lookup_insert_eq. simpl.
  rewrite insert_insert_eq, lookup_insert_ne, Hp by done. simpl. rewrite lookup_insert_ne, lookup_insert_eq by done. simpl.
  set (hp1 := <[p := mk_qnode e (last_or l1 0)]> (<[e := mk_qnode (head_or l2 0) p]> hp)).
  assert (linked hp1 0 (l1 ++ [p]) e) as HA.
  { apply (linked_next _ _ _ _ (head_or l2 0)); [done|]. apply (linked_ext hp); [|by apply linked_app].
    intros x Hx. apply lookup_insert_ne. set_solver. }
  assert (hp1 !! e = Some (mk_qnode (head_or l2 0) p)) as Hhe by (unfold hp1; rewrite lookup_insert_ne, lookup_insert_eq; done).
  assert (forall hp', linked hp' 0 (l1 ++ [p]) e -> hp' !! e = Some (mk_qnode (head_or l2 0) p) -> linked hp' e l2 0 ->
    queue hp' (l1 ++ p :: e :: l2)) as Hq.
  { intros hp' K1 K2 K3. split.
    - change (p :: e :: l2) with ([p] ++ e :: l2). rewrite app_assoc. apply linked_app. split; [done|].
      rewrite last_or_app. by split.
    - split; [|set_solver]. apply NoDup_app. split; [done|]. split; [set_solver|].
      apply NoDup_cons. split; [set_solver|]. by apply NoDup_cons. }
  assert (forall x, x ∉ [p; e] -> hp1 !! x = hp !! x) as Hsame by (intros x Hx; unfold hp1; rewrite !lookup_insert_ne; set_solver).
  destruct l2 as [|x l2]; cbn [head_or] in *.
  - simpl. exists hp1. split; [done|]. split; [by apply Hq|]. intros q Hq'. apply Hsame. set_solver.
  - destruct (Z.eqb_spec x 0) as [->|Hx0]; [set_solver|]. destruct HL2 as [Hx HL2].
    assert (hp1 !! x = Some (mk_qnode (head_or l2 0) p)) as Hx1 by (rewrite Hsame; [done|set_solver]). rewrite Hx1. simpl.
    eexists. split; [done|]. split.
    + apply Hq.
      * eapply linked_ext; [|exact HA]. intros y Hy. apply lookup_insert_ne. set_solver.
      * rewrite lookup_insert_ne; [done|set_solver].
      * apply (linked_prev _ p); [apply NoDup_cons in HN2; apply HN2|]. split; [done|]. eapply linked_ext; [|done]. intros y Hy. apply Hsame. set_solver.
    + intros q Hq'. rewrite lookup_insert_ne by set_solver. apply Hsame. set_solver.
Qed.

(** [remque] takes a node out of the queue. *)
Lemma remque_spec hp l1 e l2 :
  queue hp (l1 ++ e :: l2) ->
  exists hp', remque e hp = Some hp' /\ queue hp' (l1 ++ l2) /\ hp' !! e = hp !! e /\
    forall q, q ∉ l1 ++ e :: l2 -> hp' !! q = hp !! q.
Proof.
  intros (HL & HN & H0). apply linked_app in HL as [HL1 [He HL2]]. cbn [head_or] in HL1.
  apply NoDup_app in HN as (HN1 & HN12 & [He2 HN2]%NoDup_cons).
  assert (e <> 0 /\ e ∉ l1 /\ 0 ∉ l1 /\ 0 ∉ l2) as (He0 & He1 & H01 & H02) by set_solver.
  assert (forall x, x ∈ l1 -> x ∉ l2) as H12 by set_solver.
  unfold remque, qset, with_next, with_prev. rewrite He. cbn [mbind option_bind next prev].
  set (step1 := if head_or l2 0 =? 0 then _ else _).
  assert (exists hp1, step1 = Some hp1 /\ linked hp1 (last_or l1 0) l2 0 /\ forall x, x ∉ l2 -> hp1 !! x = hp !! x)
    as (hp1 & -> & HL2' & Hs1).
  { unfold step1. destruct l2 as [|x l2]; [by exists hp|]. cbn [head_or]. destruct (Z.eqb_spec x 0) as [->|Hx0]; [set_solver|].
    destruct HL2 as [Hx HL2]. rewrite Hx. eexists. split; [done|]. split.
    - apply (linked_prev _ e); [apply NoDup_cons in HN2; apply HN2|by split].
    - intros y Hy. apply lookup_insert_ne. set_solver. }
  cbn [mbind option_bind]. rewrite Hs1, He by done. cbn [mbind option_bind next prev].
  destruct l1 as [|z l1 _] using rev_ind; [cbn [last_or foldl app] in *|].
  - exists hp1. split; [done|]. split; [done|]. split; [by rewrite Hs1|]. intros q Hq. apply Hs1. set_solver.
  - rewrite last_or_app in *. cbn [last_or foldl] in *. destruct (Z.eqb_spec z 0) as [->|Hz0]; [set_solver|].
    assert (z ∉ l1) as Hz by (apply NoDup_app in HN1; set_solver).
    assert (linked hp1 0 (l1 ++ [z]) e) as HL1' by (apply (linked_ext hp); [|done]; intros x Hx; apply Hs1; set_solver).
    pose proof (linked_next hp1 0 l1 z e (head_or l2 0) Hz HL1') as HL3.
    apply linked_app in HL1' as [_ [Hzn _]]. rewrite Hzn. eexists. split; [done|]. split; [|split].
    + split; [|split; [apply NoDup_app; set_solver|set_solver]]. apply linked_app. split; [exact HL3|].
      rewrite last_or_app. apply (linked_ext hp1); [|done]. intros x Hx. apply lookup_insert_ne. set_solver.
    + rewrite lookup_insert_ne by set_solver. by rewrite Hs1.
    + intros q Hq. rewrite lookup_insert_ne by set_solver. apply Hs1. set_solver.
Qed.

(** A node put into a queue with [insque] after one of its nodes is found
    there, linked in both directions, and [remque] takes it out again and
    restores the queue; neither touches a node outside the queue. *)
Theorem insque_remque hp l1 p l2 e :
  queue hp (l1 ++ p :: l2) -> e ∉ l1 ++ p :: l2 -> e <> 0 -> is_Some (hp !! e) ->
  exists hp' hp'', insque e p hp = Some hp' /\ queue hp' (l1 ++ p :: e :: l2) /\
    remque e hp' = Some hp'' /\ queue hp'' (l1 ++ p :: l2) /\
    forall q, q ∉ e :: l1 ++ p :: l2 -> hp' !! q = hp !! q /\ hp'' !! q = hp !! q.
Proof.
  intros HQ He He0 Hs. destruct (insque_spec hp l1 p l2 e HQ He He0 Hs) as (hp' & H1 & H2 & H3).
  destruct (remque_spec hp' (l1 ++ [p]) e l2) as (hp'' & H4 & H5 & _ & H6); [by rewrite <- app_assoc|].
  exists hp', hp''. rewrite <- app_assoc in H5. split_and!; [done..|]. intros q Hq. split; [by apply H3|].
  rewrite H6, H3; [done|done|]. rewrite <- app_assoc. set_solver.
Qed.

(** ** Examples *)

Definition two_nodes : gmap Z qnode := <[8 := mk_qnode 16 0]> (<[16 := mk_qnode 0 8]> (<[24 := mk_qnode 5 5]> ∅)).

Lemma insque_remque_witness :
  exists hp' hp'', insque 24 8 two_nodes = Some hp' /\ queue hp' [8; 24; 16] /\
    remque 24 hp' = Some hp'' /\ queue hp'' [8; 16] /\
    forall q, q ∉ [24; 8; 16] -> hp' !! q = two_nodes !! q /\ hp'' !! q = two_nodes !! q.
Proof.
  apply (insque_remque two_nodes [] 8 [16] 24); [|set_solver|lia|by exists (mk_qnode 5 5)].
  split; [done|]. split; [|set_solver]. repeat (apply NoDup_cons; split; [set_solver|]). apply NoDup_nil_2.
Defined.

(** Two-byte elements [1 0] and [2 0] at 64, their number at 48, a key at 40. *)
Definition lsearch_mem : memory := mem_write ∅ 40 ([3; 0; 9; 9; 9; 9; 9; 9] ++ le_split 8 2 ++ [9; 9; 9; 9; 9; 9; 9; 9] ++ [1; 0; 2; 0; 9; 9]).

Lemma lsearch_witness :
  exists m', lsearch cmp_le16 20 40 64 48 2 lsearch_mem = Some (68, m') /\
    elements m' 64 2 [[1; 0]; [2; 0]; [3; 0]] /\ size_at m' 48 3 /\
    forall q, ~ (48 <= q < 48 + 8) -> ~ (64 + 2 * 2 <= q < 64 + (2 + 1) * 2) -> m' !! q = lsearch_mem !! q.
Proof.
  assert (first_equal cmp_le16 [3; 0] [[1; 0]; [2; 0]] = None) as Ef by reflexivity.
  pose proof (lsearch_correct cmp_le16 20 lsearch_mem 40 64 48 2 [3; 0] [[1; 0]; [2; 0]]) as H. rewrite Ef in H.
  apply H.
  - vm_compute. done.
  - by apply (bool_decide_unpack _).
  - done.
  - split; [vm_compute; done|repeat first [apply List.Forall_cons|apply List.Forall_nil]; done|].
    repeat first [apply List.Forall_cons|apply List.Forall_nil]; unfold in_range; lia.
  - split; [done|unfold in_range; simpl; lia|vm_compute; done].
  - intros q Hq. unfold lsearch_mem. rewrite mem_write_lookup.
    rewrite decide_True; [apply lookup_lt_is_Some_2|]; revert Hq; simpl length; lia.
  - unfold disjoint_ranges. simpl length. lia.
  - unfold disjoint_ranges. lia.
  - unfold disjoint_ranges. simpl length. lia.
  - simpl length. lia.
  - simpl length. lia.
Defined.
