(* ===== verification/Utf8.v ===== *)
(** * Utf8: multibyte characters, musl src/multibyte

    The UTF-8 decoder and encoder of the C library: the restartable mbrtowc
    with its packed state, mbtowc, wcrtomb and the functions built on them.
    A source string is the list of bytes that may be read (reading past it is
    an error), a result holds what is returned and stored, the state and
    whether errno is set to EILSEQ. *)

From S2P Require Import Prelude.
From Stdlib Require Import ZArith Lia Bool List.
From stdpp Require Import base tactics numbers list option.
Open Scope Z_scope.

(** ** internal.h and internal.c *)

(** The upper six bits of a state are a negative offset that bounds the next
    byte. *)
Definition OOB (c b : Z) : Z :=
  Z.land (Z.lor (Z.shiftr b 3 - 0x10) (Z.shiftr b 3 + Z.shiftr (swrap32 c) 26)) (Z.lnot 7).
Definition R (a b : Z) : Z := wrap32 (Z.shiftl (if a =? 0x80 then wrap32 (0x40 - b) else wrap32 (0 - a)) 23).
Definition SA : Z := 0xc2.
Definition SB : Z := 0xf4.
(** A byte as a character that stands for itself; bytes are above 127 here. *)
Definition CODEUNIT (c : Z) : Z := Z.land 0xdfff (swrap 8 c).
Definition IS_CODEUNIT (c : Z) : bool := wrap32 (wrap32 c - 0xdf80) <? 0x80.

Definition C (x : Z) : Z := if x <? 2 then wrap32 (-1) else Z.lor (R 0x80 0xc0) x.
Definition D (x : Z) : Z := C (x + 16).
Definition E (x : Z) : Z :=
  Z.lor (Z.lor (if x =? 0 then R 0xa0 0xc0 else if x =? 0xd then R 0x80 0xa0 else R 0x80 0xc0)
               (Z.shiftr (R 0x80 0xc0) 6)) x.
Definition F (x : Z) : Z :=
  Z.lor (Z.lor (Z.lor (if 5 <=? x then 0 else if x =? 0 then R 0x90 0xc0 else if x =? 4 then R 0x80 0x90 else R 0x80 0xc0)
                      (Z.shiftr (R 0x80 0xc0) 6))
               (Z.shiftr (R 0x80 0xc0) 12)) x.

Definition bittab : list Z :=
  [                C 0x2; C 0x3; C 0x4; C 0x5; C 0x6; C 0x7;
   C 0x8; C 0x9; C 0xa; C 0xb; C 0xc; C 0xd; C 0xe; C 0xf;
   D 0x0; D 0x1; D 0x2; D 0x3; D 0x4; D 0x5; D 0x6; D 0x7;
   D 0x8; D 0x9; D 0xa; D 0xb; D 0xc; D 0xd; D 0xe; D 0xf;
   E 0x0; E 0x1; E 0x2; E 0x3; E 0x4; E 0x5; E 0x6; E 0x7;
   E 0x8; E 0x9; E 0xa; E 0xb; E 0xc; E 0xd; E 0xe; E 0xf;
   F 0x0; F 0x1; F 0x2; F 0x3; F 0x4].

(** [(size_t)-1] and [(size_t)-2]. *)
Definition ERR : Z := wrap64 (-1).
Definition INCOMPLETE : Z := wrap64 (-2).

(** ** mbrtowc.c *)

Record mbres := mk_mbres { ret : Z; out : option Z; state : Z; eilseq : bool }.

Definition ilseq : mbres := mk_mbres ERR None 0 true.
Definition shift_in (c b : Z) : Z := Z.lor (wrap32 (Z.shiftl c 6)) (wrap32 (b - 0x80)).
Definition more (c : Z) : bool := truth (Z.land c (Z.shiftl 1 31)).

(** The label [loop]: [n] bytes are left of [N]. *)
Fixpoint mbrtowc_loop (N n : nat) (c : Z) (s : list Z) : option mbres :=
  match n with
  | O => None
  | S n =>
      b ← s !! 0%nat;
      let c := shift_in c b in
      let s := drop 1 s in
      if negb (more c) then Some (mk_mbres (Z.of_nat (N - n)) (Some c) 0 false) else
      if (n =? 0)%nat then Some (mk_mbres INCOMPLETE None c false) else
      b ← s !! 0%nat;
      if 0x40 <=? wrap32 (b - 0x80) then Some ilseq else mbrtowc_loop N n c s
  end.

Definition mbrtowc_more (N n : nat) (c : Z) (s : list Z) : option mbres :=
  if (n =? 0)%nat then Some (mk_mbres INCOMPLETE None c false) else
  b ← s !! 0%nat;
  if truth (OOB c b) then Some ilseq else mbrtowc_loop N n c s.

(** [mb1] is MB_CUR_MAX==1, [c] the state. *)
Definition mbrtowc (mb1 : bool) (src : option (list Z)) (n : nat) (c : Z) : option mbres :=
  match src with
  | None => if truth c then Some ilseq else Some (mk_mbres 0 None c false)
  | Some s =>
      if (n =? 0)%nat then Some (mk_mbres INCOMPLETE None c false) else
      if c =? 0 then
        b ← s !! 0%nat;
        if b <? 0x80 then Some (mk_mbres (Z.b2z (truth b)) (Some b) c false) else
        if mb1 then Some (mk_mbres 1 (Some (CODEUNIT b)) c false) else
        if SB - SA <? wrap32 (b - SA) then Some ilseq else
        c ← bittab !! Z.to_nat (b - SA);
        mbrtowc_more n (n - 1) c (drop 1 s)
      else mbrtowc_more n n c s
  end.

(** mbrlen.c, mbsinit.c *)
Definition mbrlen (mb1 : bool) (s : option (list Z)) (n : nat) (c : Z) : option (Z * Z) :=
  r ← mbrtowc mb1 s n c; Some (ret r, state r).
Definition mbsinit (st : option Z) : bool := match st with None => true | Some c => negb (truth c) end.

(** ** mbtowc.c *)

Definition MBERR : Z * option Z := (-1, None).

Definition mbtowc (mb1 : bool) (src : option (list Z)) (n : nat) : option (Z * option Z) :=
  match src with
  | None => Some (0, None)
  | Some s =>
      if (n =? 0)%nat then Some MBERR else
      b ← s !! 0%nat;
      if b <? 0x80 then Some (Z.b2z (truth b), Some b) else
      if mb1 then Some (1, Some (CODEUNIT b)) else
      if SB - SA <? wrap32 (b - SA) then Some MBERR else
      c ← bittab !! Z.to_nat (b - SA);
      if (n <? 4)%nat && truth (Z.land (wrap32 (Z.shiftl c (6 * Z.of_nat n - 6))) (Z.shiftl 1 31)) then Some MBERR else
      b ← s !! 1%nat;
      if truth (OOB c b) then Some MBERR else
      let c := shift_in c b in
      if negb (more c) then Some (2, Some c) else
      b ← s !! 2%nat;
      if 0x40 <=? wrap32 (b - 0x80) then Some MBERR else
      let c := shift_in c b in
      if negb (more c) then Some (3, Some c) else
      b ← s !! 3%nat;
      if 0x40 <=? wrap32 (b - 0x80) then Some MBERR else
      Some (4, Some (shift_in c b))
  end.
Definition mblen (mb1 : bool) (s : option (list Z)) (n : nat) : option Z :=
  r ← mbtowc mb1 s n; Some r.1.

(** ** wcrtomb.c: the result and the bytes stored *)

Definition low6 (x : Z) : Z := Z.lor 0x80 (Z.land x 0x3f).

(** [wc] is an int. *)
Definition wcrtomb (mb1 : bool) (wc : Z) : Z * list Z :=
  if wrap32 wc <? 0x80 then (1, [wrap8 wc])
  else if mb1 then
    if negb (IS_CODEUNIT wc) then (ERR, []) else (1, [wrap8 wc])
  else if wrap32 wc <? 0x800 then (2, [Z.lor 0xc0 (Z.shiftr wc 6); low6 wc])
  else if (wrap32 wc <? 0xd800) || (wrap32 (wrap32 wc - 0xe000) <? 0x2000) then
    (3, [Z.lor 0xe0 (Z.shiftr wc 12); low6 (Z.shiftr wc 6); low6 wc])
  else if wrap32 (wrap32 wc - 0x10000) <? 0x100000 then
    (4, [Z.lor 0xf0 (Z.shiftr wc 18); low6 (Z.shiftr wc 12); low6 (Z.shiftr wc 6); low6 wc])
  else (ERR, []).

(** wctomb.c, c32rtomb.c; [s] is whether the destination is not null. *)
Definition wctomb (mb1 s : bool) (wc : Z) : Z * list Z := if negb s then (0, []) else wcrtomb mb1 wc.
Definition c32rtomb (mb1 s : bool) (c32 : Z) : Z * list Z := if negb s then (1, []) else wcrtomb mb1 (swrap32 c32).

(** btowc.c, wctob.c: EOF and WEOF are -1 as int and unsigned. *)
Definition btowc (mb1 : bool) (c : Z) : Z :=
  let b := wrap8 c in
  if b <? 128 then b else if mb1 && negb (c =? -1) then CODEUNIT c else wrap32 (-1).
Definition wctob (mb1 : bool) (c : Z) : Z :=
  if c <? 128 then c else if mb1 && IS_CODEUNIT c then wrap8 c else -1.

(** ** c16rtomb.c and mbrtoc16.c: the pair of states before and after *)

Definition c16rtomb (mb1 : bool) (s : bool) (c16 x : Z) : Z * list Z * Z * bool :=
  if negb s then (if truth x then (ERR, [], 0, true) else (1, [], x, false)) else
  if negb (truth x) && (wrap32 (c16 - 0xd800) <? 0x400) then (0, [], wrap32 (Z.shiftl (c16 - 0xd7c0) 10), false) else
  if truth x then
    if 0x400 <=? wrap32 (c16 - 0xdc00) then (ERR, [], 0, true) else
    let wc := swrap32 (x + c16 - 0xdc00) in
    let '(r, l) := wcrtomb mb1 wc in (r, l, 0, r =? ERR)
  else
    let '(r, l) := wcrtomb mb1 c16 in (r, l, x, r =? ERR).

(** A null [src] stands for the empty string, with the result not stored. *)
Definition or_empty (src : option (list Z)) (n : nat) : list Z * nat :=
  match src with Some s => (s, n) | None => ([0], 1%nat) end.

Definition mbrtoc16 (mb1 : bool) (src : option (list Z)) (n : nat) (pending : Z) : option mbres :=
  let '(s, n) := or_empty src n in
  let store x := match src with Some _ => Some (wrap16 x) | None => None end in
  if 0 <? swrap32 pending then Some (mk_mbres (wrap64 (-3)) (store pending) 0 false) else
  r ← mbrtowc mb1 (Some s) n pending;
  if ret r <=? 4 then
    wc ← out r;
    if 0x10000 <=? wc then
      Some (mk_mbres (ret r) (store (0xd7c0 + Z.shiftr wc 10)) (Z.land wc 0x3ff + 0xdc00) (eilseq r))
    else Some (mk_mbres (ret r) (store wc) (state r) (eilseq r))
  else Some (mk_mbres (ret r) None (state r) (eilseq r)).

Definition mbrtoc32 (mb1 : bool) (src : option (list Z)) (n : nat) (c : Z) : option mbres :=
  let '(s, n) := or_empty src n in
  r ← mbrtowc mb1 (Some s) n c;
  Some (mk_mbres (ret r) (match src with Some _ => wrap32 <$> out r | None => None end) (state r) (eilseq r)).
