(* ===== verification/Utf8Proofs.v ===== *)
(** * Utf8Proofs: the multibyte functions are UTF-8

    [encode] is the encoding of RFC 3629 and [classify] reads a character off
    a byte string by its table of well-formed sequences. mbrtowc computes
    [classify], from any state it can be left in; encoding and decoding invert
    each other, so exactly the shortest forms of scalar values are accepted. *)

From S2P Require Import Prelude Utf8.
From Stdlib Require Import ZArith Lia Bool List.
From stdpp Require Import base tactics numbers list option.
Open Scope Z_scope.

(** ** RFC 3629 *)

Definition scalar (wc : Z) : Prop := 0 <= wc < 0xd800 \/ 0xe000 <= wc < 0x110000.

Definition encode (wc : Z) : list Z :=
  if wc <? 0x80 then [wc]
  else if wc <? 0x800 then [0xc0 + wc / 64; 0x80 + wc mod 64]
  else if wc <? 0x10000 then [0xe0 + wc / 4096; 0x80 + (wc / 64) mod 64; 0x80 + wc mod 64]
  else [0xf0 + wc / 262144; 0x80 + (wc / 4096) mod 64; 0x80 + (wc / 64) mod 64; 0x80 + wc mod 64].

(** The bytes that may follow. *)
Definition tail (b : Z) : bool := (0x80 <=? b) && (b <=? 0xbf).
Definition second (b0 b1 : Z) : bool :=
  if b0 =? 0xe0 then (0xa0 <=? b1) && (b1 <=? 0xbf)
  else if b0 =? 0xed then (0x80 <=? b1) && (b1 <=? 0x9f)
  else if b0 =? 0xf0 then (0x90 <=? b1) && (b1 <=? 0xbf)
  else if b0 =? 0xf4 then (0x80 <=? b1) && (b1 <=? 0x8f)
  else tail b1.

(** A character, the beginning of one, or neither. *)
Inductive outcome := Done (wc : Z) (k : nat) | More | Bad.

Definition classify (l : list Z) : outcome :=
  match l with
  | [] => More
  | b0 :: l =>
      if b0 <? 0x80 then Done b0 1
      else if b0 <? 0xc2 then Bad
      else if 0xf4 <? b0 then Bad
      else match l with
      | [] => More
      | b1 :: l =>
          if negb (second b0 b1) then Bad
          else if b0 <? 0xe0 then Done ((b0 - 0xc0) * 64 + (b1 - 0x80)) 2
          else match l with
          | [] => More
          | b2 :: l =>
              if negb (tail b2) then Bad
              else if b0 <? 0xf0 then Done (((b0 - 0xe0) * 64 + (b1 - 0x80)) * 64 + (b2 - 0x80)) 3
              else match l with
              | [] => More
              | b3 :: _ =>
                  if negb (tail b3) then Bad
                  else Done ((((b0 - 0xf0) * 64 + (b1 - 0x80)) * 64 + (b2 - 0x80)) * 64 + (b3 - 0x80)) 4
              end
          end
      end
  end.

(** Decoding and encoding on the table. *)
Ltac decide_bytes :=
  repeat (match goal with
  | |- context [?a <? ?b] => destruct (Z.ltb_spec a b); try lia
  | |- context [?a <=? ?b] => destruct (Z.leb_spec a b); try lia
  | |- context [?a =? ?b] => destruct (Z.eqb_spec a b); try lia
  end; cbn [andb negb]).

(** A number in base 64. *)
Lemma base64 wc : exists q r, wc / 64 = q /\ wc mod 64 = r /\ wc = q * 64 + r /\ 0 <= r < 64.
Proof. exists (wc / 64), (wc mod 64). pose proof (Z.mod_pos_bound wc 64). pose proof (Z.div_mod wc 64). lia. Qed.

Lemma classify_encode wc rest : scalar wc -> classify (encode wc ++ rest) = Done wc (length (encode wc)).
Proof.
  intros Hs. unfold scalar in Hs. unfold encode.
  replace (wc / 4096) with (wc / 64 / 64) by (rewrite Z.div_div by lia; done).
  replace (wc / 262144) with (wc / 64 / 64 / 64) by (rewrite !Z.div_div by lia; done).
  destruct (base64 wc) as (q & r & -> & -> & Hq & Hr). destruct (base64 q) as (q1 & r1 & -> & -> & Hq1 & Hr1).
  destruct (base64 q1) as (q2 & r2 & -> & -> & Hq2 & Hr2).
  destruct (Z.ltb_spec wc 0x80); [|destruct (Z.ltb_spec wc 0x800); [|destruct (Z.ltb_spec wc 0x10000)]];
    unfold classify, second, tail; cbn [app length]; decide_bytes; f_equal; lia.
Qed.

Lemma base64_div q r : 0 <= r < 64 -> (q * 64 + r) / 64 = q /\ (q * 64 + r) mod 64 = r.
Proof. intros. rewrite Z.add_comm, Z.div_add, Z.mod_add, Z.div_small, Z.mod_small by lia. lia. Qed.

Ltac decide_in H :=
  repeat (match type of H with
  | context [?a <? ?b] => destruct (Z.ltb_spec a b); try lia
  | context [?a <=? ?b] => destruct (Z.leb_spec a b); try lia
  | context [?a =? ?b] => destruct (Z.eqb_spec a b); try lia
  end; cbn [andb negb] in H; try discriminate H).

(** Three digits. *)
Lemma encode_2 q r : 2 <= q < 32 -> 0 <= r < 64 -> encode (q * 64 + r) = [0xc0 + q; 0x80 + r].
Proof.
  intros Hq Hr. unfold encode. destruct (base64_div q r Hr) as [-> ->]. decide_bytes. done.
Qed.
Lemma encode_3 q1 q r : 0 <= q1 < 16 -> 0 <= q < 64 -> 0 <= r < 64 -> 0x800 <= (q1 * 64 + q) * 64 + r ->
  encode ((q1 * 64 + q) * 64 + r) = [0xe0 + q1; 0x80 + q; 0x80 + r].
Proof.
  intros Hq1 Hq Hr Hm. unfold encode.
  replace (((q1 * 64 + q) * 64 + r) / 4096) with (((q1 * 64 + q) * 64 + r) / 64 / 64) by (rewrite Z.div_div by lia; done).
  destruct (base64_div (q1 * 64 + q) r Hr) as [-> ->]. destruct (base64_div q1 q Hq) as [-> ->]. decide_bytes. done.
Qed.
Lemma encode_4 q2 q1 q r : 0 <= q2 < 8 -> 0 <= q1 < 64 -> 0 <= q < 64 -> 0 <= r < 64 ->
  0x10000 <= ((q2 * 64 + q1) * 64 + q) * 64 + r ->
  encode (((q2 * 64 + q1) * 64 + q) * 64 + r) = [0xf0 + q2; 0x80 + q1; 0x80 + q; 0x80 + r].
Proof.
  intros Hq2 Hq1 Hq Hr Hm. unfold encode. set (x := ((q2 * 64 + q1) * 64 + q) * 64 + r) in *.
  replace (x / 4096) with (x / 64 / 64) by (rewrite Z.div_div by lia; done).
  replace (x / 262144) with (x / 64 / 64 / 64) by (rewrite !Z.div_div by lia; done). unfold x in *.
  destruct (base64_div ((q2 * 64 + q1) * 64 + q) r Hr) as [-> ->]. destruct (base64_div (q2 * 64 + q1) q Hq) as [-> ->].
  destruct (base64_div q2 q1 Hq1) as [-> ->]. decide_bytes. done.
Qed.

Lemma classify_done l wc k : Forall (fun b => 0 <= b) l -> classify l = Done wc k ->
  scalar wc /\ take k l = encode wc /\ k = length (encode wc).
Proof.
  intros Hb H. unfold scalar. destruct l as [|b0 l]; [done|]. pose proof (Forall_inv Hb) as Hb0. cbv beta in Hb0. cbn [classify] in H.
  destruct (Z.ltb_spec b0 0x80).
  { injection H as <- <-. unfold encode. decide_bytes. split; [lia|done]. }
  destruct (Z.ltb_spec b0 0xc2); [done|]. destruct (Z.ltb_spec 0xf4 b0); [done|].
  destruct l as [|b1 l]; [done|]. unfold second, tail in H. destruct (Z.ltb_spec b0 0xe0).
  { decide_in H; injection H as <- <-; rewrite encode_2 by lia; (split; [lia|]); cbn [take length]; (split; [|done]); repeat f_equal; lia. }
  destruct l as [|b2 l]; [decide_in H; done|]. destruct (Z.ltb_spec b0 0xf0).
  { decide_in H; injection H as <- <-; rewrite encode_3 by lia; (split; [lia|]); cbn [take length]; (split; [|done]); repeat f_equal; lia. }
  destruct l as [|b3 l]; [decide_in H; done|].
  decide_in H; injection H as <- <-; rewrite encode_4 by lia; (split; [lia|]); cbn [take length]; (split; [|done]); repeat f_equal; lia.
Qed.

Lemma classify_bad_app l y : classify l = Bad -> classify (l ++ y) = Bad.
Proof.
  intros H. unfold classify in *. destruct l as [|b0 [|b1 [|b2 [|b3 l]]]]; cbn [app]; [done|..];
    repeat (match goal with |- context [if ?c then _ else _] => destruct c end); done.
Qed.

(** The beginning of a character can be completed. *)
Lemma classify_more l : Forall (fun b => 0 <= b) l -> classify l = More ->
  exists x y wc, Forall (fun b => 0 <= b) (l ++ x :: y) /\ classify (l ++ x :: y) = Done wc (length (l ++ x :: y)).
Proof.
  intros Hb H.
  assert (forall x y, 0 <= x -> Forall (fun b => 0 <= b) y -> Forall (fun b => 0 <= b) (l ++ x :: y)) as Happ.
  { intros. apply Forall_app. split; [done|]. by constructor. }
  assert (Forall (fun b => 0 <= b) [0x80] /\ Forall (fun b => 0 <= b) [0x80; 0x80]) as [T1 T2] by (repeat constructor; lia).
  assert (forall b0, exists x, second b0 x = true /\ 0 <= x) as Hsec.
  { intros b0. exists (if b0 =? 0xe0 then 0xa0 else if b0 =? 0xf0 then 0x90 else 0x80). unfold second, tail.
    destruct (Z.eqb_spec b0 0xe0); [done|]. destruct (Z.eqb_spec b0 0xf0) as [->|]; [done|]. decide_bytes; done. }
  destruct l as [|b0 [|b1 [|b2 [|b3 l]]]]; unfold classify in H.
  - exists 0, [], 0. split; [|done]. by apply Happ.
  - destruct (Hsec b0) as (x & Hx & Hx0). decide_in H.
    destruct (b0 <? 0xe0) eqn:E1; [|destruct (b0 <? 0xf0) eqn:E2]; [exists x, []|exists x, [0x80]|exists x, [0x80; 0x80]];
      eexists; (split; [by apply Happ|]); cbn [app length classify]; rewrite Hx, E1, ?E2; decide_bytes; reflexivity.
  - destruct (second b0 b1) eqn:Hx; cbn [negb] in H; decide_in H.
    destruct (b0 <? 0xf0) eqn:E2; [exists 0x80, []|exists 0x80, [0x80]];
      eexists; (split; [by apply Happ|]); cbn [app length classify]; rewrite Hx, E2; decide_bytes; reflexivity.
  - destruct (second b0 b1) eqn:Hx; cbn [negb] in H; [|decide_in H]. destruct (tail b2) eqn:Ht; cbn [negb] in H; decide_in H.
    exists 0x80, []. eexists. split; [by apply Happ|]. cbn [app length classify]. rewrite Hx, Ht. decide_bytes; reflexivity.
  - exfalso. repeat match type of H with context [if ?c then _ else _] => destruct c; try discriminate H end.
Qed.

(** ** The packed state *)

(** The state after the bytes [q] of an unfinished character. *)
Definition pack (q : list Z) : Z :=
  match q with
  | [] => 0
  | b0 :: q => foldl shift_in (default 0 (bittab !! Z.to_nat (b0 - SA))) q
  end.

Lemma bytes_all lo n (P : Z -> bool) :
  forallb P (seqZ lo n) = true -> forall b, lo <= b < lo + n -> P b = true.
Proof. intros H b Hb. rewrite forallb_forall in H. apply H. apply list_elem_of_In, elem_of_seqZ. lia. Qed.

Lemma bittab_lookup b0 : 0xc2 <= b0 <= 0xf4 -> bittab !! Z.to_nat (b0 - SA) = Some (pack [b0]).
Proof.
  intros Hb. unfold pack. cbn [foldl]. destruct (lookup_lt_is_Some_2 bittab (Z.to_nat (b0 - SA))) as [c ->]; [|done].
  unfold SA. change (length bittab) with 51%nat. lia.
Qed.

Lemma lead_range b0 : is_byte b0 -> (SB - SA <? wrap32 (b0 - SA)) = (b0 <? 0xc2) || (0xf4 <? b0).
Proof.
  unfold in_range. change (2 ^ 8) with 256. intros Hb.
  assert (forallb (fun b => Bool.eqb (SB - SA <? wrap32 (b - SA)) ((b <? 0xc2) || (0xf4 <? b))) (seqZ 0 256) = true) as H
    by (vm_compute; reflexivity).
  pose proof (bytes_all _ _ _ H b0 ltac:(lia)). by apply eqb_prop.
Qed.

(** The bound check of the first continuation byte is the table's. *)
Lemma oob_second b0 b : 0xc2 <= b0 <= 0xf4 -> is_byte b -> truth (OOB (pack [b0]) b) = negb (second b0 b).
Proof.
  unfold in_range. change (2 ^ 8) with 256. intros H0 Hb.
  assert (forallb (fun b0 => forallb (fun b => Bool.eqb (truth (OOB (pack [b0]) b)) (negb (second b0 b))) (seqZ 0 256)) (seqZ 0xc2 51) = true) as H
    by (vm_compute; reflexivity).
  pose proof (bytes_all _ _ _ H b0 ltac:(lia)) as H'. pose proof (bytes_all _ _ _ H' b ltac:(lia)) as H''. by apply eqb_prop.
Qed.

Lemma second_tail b0 b : second b0 b = true -> tail b = true.
Proof.
  unfold second, tail. intros H. destruct (Z.leb_spec 0x80 b), (Z.leb_spec b 0xbf); try done; cbn [andb]; decide_in H.
Qed.
Lemma tail_range b : tail b = true <-> 0x80 <= b <= 0xbf.
Proof. unfold tail. destruct (Z.leb_spec 0x80 b), (Z.leb_spec b 0xbf); cbn [andb]; split; (done || lia). Qed.
Lemma not_tail b : is_byte b -> (0x40 <=? wrap32 (b - 0x80)) = negb (tail b).
Proof.
  unfold in_range. change (2 ^ 8) with 256. intros Hb.
  assert (forallb (fun b => Bool.eqb (0x40 <=? wrap32 (b - 0x80)) (negb (tail b))) (seqZ 0 256) = true) as H by (vm_compute; reflexivity).
  pose proof (bytes_all _ _ _ H b ltac:(lia)). by apply eqb_prop.
Qed.

Lemma shift_in_arith c b : 0 <= c -> tail b = true -> shift_in c b = (c mod 2 ^ 26) * 64 + (b - 0x80).
Proof.
  intros Hc Hb. apply tail_range in Hb. unfold shift_in. rewrite (wrap_small _ (b - 0x80)) by (unfold in_range; lia).
  assert (wrap32 (Z.shiftl c 6) = Z.shiftl (c mod 2 ^ 26) 6) as ->.
  { unfold wrap. rewrite !Z.shiftl_mul_pow2 by lia. change (2 ^ 32) with (2 ^ 26 * 2 ^ 6). by rewrite Z.mul_mod_distr_r by lia. }
  rewrite <- Z.lxor_lor, <- Z.add_nocarry_lxor, Z.shiftl_mul_pow2; [done|lia|..].
  all: apply Z.bits_inj'; intros i Hi; rewrite Z.land_spec, Z.bits_0; destruct (Z_lt_dec i 6);
    [by rewrite Z.shiftl_spec_low by lia|rewrite andb_comm].
  all: destruct (Z.eq_dec (b - 0x80) 0) as [->|]; [by rewrite Z.bits_0|rewrite (Z.bits_above_log2 (b - 0x80)); [done|lia|]].
  all: apply Z.log2_lt_pow2; [lia|]; pose proof (Z.pow_le_mono_r 2 6 i); lia.
Qed.
Lemma more_spec c : 0 <= c < 2 ^ 32 -> more c = (2 ^ 31 <=? c).
Proof.
  intros Hc. unfold more, truth. rewrite Z.shiftl_1_l. destruct (Z.leb_spec (2 ^ 31) c) as [H|H].
  - destruct (Z.eqb_spec (Z.land c (2 ^ 31)) 0) as [E|]; [|done]. exfalso.
    assert (Z.testbit (Z.land c (2 ^ 31)) 31 = true) as T; [|by rewrite E in T].
    rewrite Z.land_spec, Z.pow2_bits_true, andb_true_r by lia. rewrite Z.testbit_true by lia.
    replace (c / 2 ^ 31) with 1; [done|]. apply (Z.div_unique c (2 ^ 31) 1 (c - 2 ^ 31)); lia.
  - destruct (Z.eqb_spec (Z.land c (2 ^ 31)) 0) as [E|E]; [done|]. exfalso. apply E. apply Z.bits_inj'. intros i Hi.
    rewrite Z.land_spec, Z.bits_0. destruct (Z.eq_dec i 31) as [->|].
    + destruct (Z.eq_dec c 0) as [->|]; [done|]. rewrite (Z.bits_above_log2 c); [done|lia|]. apply Z.log2_lt_pow2; lia.
    + rewrite Z.pow2_bits_false by lia. by rewrite andb_false_r.
Qed.

(** States after two and three bytes, and the values at the end. *)
Lemma pack_lead b0 : 0xc2 <= b0 <= 0xf4 ->
  0 <= pack [b0] /\ pack [b0] mod 2 ^ 26 =
    if b0 <? 0xe0 then b0 - 0xc0 else if b0 <? 0xf0 then 0x3000000 + (b0 - 0xe0) else 0x30c0000 + (b0 - 0xf0).
Proof.
  intros Hb.
  assert (forallb (fun b0 => (0 <=? pack [b0]) && (pack [b0] mod 2 ^ 26 =?
    if b0 <? 0xe0 then b0 - 0xc0 else if b0 <? 0xf0 then 0x3000000 + (b0 - 0xe0) else 0x30c0000 + (b0 - 0xf0))) (seqZ 0xc2 51) = true) as H
    by (vm_compute; reflexivity).
  pose proof (bytes_all _ _ _ H b0 ltac:(lia)) as H'. apply andb_true_iff in H' as [H1 H2]. apply Z.eqb_eq in H2. split; [lia|done].
Qed.
Lemma pack_2 b0 b1 : 0xc2 <= b0 <= 0xf4 -> tail b1 = true -> pack [b0; b1] =
  if b0 <? 0xe0 then (b0 - 0xc0) * 64 + (b1 - 0x80)
  else if b0 <? 0xf0 then 0xc0000000 + ((b0 - 0xe0) * 64 + (b1 - 0x80))
  else 0xc3000000 + ((b0 - 0xf0) * 64 + (b1 - 0x80)).
Proof.
  intros H0 H1. destruct (pack_lead b0 H0) as [Hp Em]. change (pack [b0; b1]) with (shift_in (pack [b0]) b1).
  rewrite shift_in_arith, Em by done. destruct (Z.ltb_spec b0 0xe0), (Z.ltb_spec b0 0xf0); lia.
Qed.
Lemma pack_3 b0 b1 b2 : 0xe0 <= b0 <= 0xf4 -> tail b1 = true -> tail b2 = true -> pack [b0; b1; b2] =
  if b0 <? 0xf0 then ((b0 - 0xe0) * 64 + (b1 - 0x80)) * 64 + (b2 - 0x80)
  else 0xc0000000 + (((b0 - 0xf0) * 64 + (b1 - 0x80)) * 64 + (b2 - 0x80)).
Proof.
  intros H0 H1 H2. change (pack [b0; b1; b2]) with (shift_in (pack [b0; b1]) b2). rewrite pack_2 by (done || lia).
  pose proof H1 as H1'. apply tail_range in H1'. destruct (Z.ltb_spec b0 0xe0); [lia|].
  destruct (Z.ltb_spec b0 0xf0); rewrite shift_in_arith by (done || lia).
  - replace (0xc0000000 + ((b0 - 0xe0) * 64 + (b1 - 0x80))) with (((b0 - 0xe0) * 64 + (b1 - 0x80)) + 48 * 2 ^ 26) by lia.
    rewrite Z.mod_add, Z.mod_small by lia. lia.
  - replace (0xc3000000 + ((b0 - 0xf0) * 64 + (b1 - 0x80))) with ((0x3000000 + ((b0 - 0xf0) * 64 + (b1 - 0x80))) + 48 * 2 ^ 26) by lia.
    rewrite Z.mod_add, Z.mod_small by lia. lia.
Qed.
Lemma pack_4 b0 b1 b2 b3 : 0xf0 <= b0 <= 0xf4 -> tail b1 = true -> tail b2 = true -> tail b3 = true ->
  pack [b0; b1; b2; b3] = (((b0 - 0xf0) * 64 + (b1 - 0x80)) * 64 + (b2 - 0x80)) * 64 + (b3 - 0x80).
Proof.
  intros H0 H1 H2 H3. change (pack [b0; b1; b2; b3]) with (shift_in (pack [b0; b1; b2]) b3). rewrite pack_3 by (done || lia).
  pose proof H1 as H1'. apply tail_range in H1'. pose proof H2 as H2'. apply tail_range in H2'. destruct (Z.ltb_spec b0 0xf0); [lia|].
  rewrite shift_in_arith by (done || lia).
  replace (0xc0000000 + (((b0 - 0xf0) * 64 + (b1 - 0x80)) * 64 + (b2 - 0x80))) with ((((b0 - 0xf0) * 64 + (b1 - 0x80)) * 64 + (b2 - 0x80)) + 48 * 2 ^ 26) by lia.
  rewrite Z.mod_add, Z.mod_small by lia. lia.
Qed.

Lemma more_2 b0 b1 : 0xc2 <= b0 <= 0xf4 -> tail b1 = true -> more (pack [b0; b1]) = negb (b0 <? 0xe0).
Proof.
  intros H0 H1. rewrite pack_2 by done. apply tail_range in H1.
  destruct (Z.ltb_spec b0 0xe0), (Z.ltb_spec b0 0xf0); rewrite more_spec by lia; decide_bytes; done.
Qed.
Lemma more_3 b0 b1 b2 : 0xe0 <= b0 <= 0xf4 -> tail b1 = true -> tail b2 = true -> more (pack [b0; b1; b2]) = negb (b0 <? 0xf0).
Proof.
  intros H0 H1 H2. rewrite pack_3 by done. apply tail_range in H1, H2.
  destruct (Z.ltb_spec b0 0xf0); rewrite more_spec by lia; decide_bytes; done.
Qed.

(** The bound check of a restarted character after its second byte. *)
Lemma oob_tail c b : 0xc0000000 <= c < 0xc4000000 -> is_byte b -> truth (OOB c b) = negb (tail b).
Proof.
  unfold in_range. change (2 ^ 8) with 256. intros Hc Hb. unfold OOB.
  assert (Z.shiftr (swrap32 c) 26 = -16) as ->.
  { unfold swrap. rewrite wrap_small by (unfold in_range; lia). change (2 ^ (32 - 1)) with 2147483648. destruct (Z.ltb_spec c 2147483648); [lia|].
    rewrite Z.shiftr_div_pow2 by lia. symmetry. apply (Z.div_unique _ _ _ (c - 0xc0000000)); lia. }
  assert (forallb (fun b => Bool.eqb (truth (Z.land (Z.lor (Z.shiftr b 3 - 0x10) (Z.shiftr b 3 + -16)) (Z.lnot 7))) (negb (tail b))) (seqZ 0 256) = true) as H
    by (vm_compute; reflexivity).
  pose proof (bytes_all _ _ _ H b ltac:(lia)). by apply eqb_prop.
Qed.

(** ** mbrtowc *)

Lemma loop_step N n c b s :
  mbrtowc_loop N (S n) c (b :: s) =
  if negb (more (shift_in c b)) then Some (mk_mbres (Z.of_nat (N - n)) (Some (shift_in c b)) 0 false) else
  if (n =? 0)%nat then Some (mk_mbres INCOMPLETE None (shift_in c b) false) else
  match s with
  | [] => None
  | b' :: _ => if 0x40 <=? wrap32 (b' - 0x80) then Some ilseq else mbrtowc_loop N n (shift_in c b) s
  end.
Proof. cbn [mbrtowc_loop]. simpl. rewrite drop_0. by destruct s. Qed.

(** Only the first [n] bytes are read. *)
Lemma loop_take N n : forall c s, mbrtowc_loop N n c s = mbrtowc_loop N n c (take n s).
Proof.
  induction n as [|n IH]; intros c s; [done|]. destruct s as [|b s]; [done|]. cbn [take]. rewrite !loop_step.
  destruct (negb (more (shift_in c b))); [done|]. destruct (Nat.eqb_spec n 0); [done|].
  rewrite (IH _ s). destruct n as [|n]; [done|]. by destruct s.
Qed.

(** What the outcome makes of a call with [N] bytes of which [n] are left
    after those of [q]. *)
Definition finish (N n : nat) (q s : list Z) : mbres :=
  match classify (q ++ s) with
  | Done wc k => mk_mbres (Z.of_nat (N - (n - (k - length q)))) (Some wc) 0 false
  | More => mk_mbres INCOMPLETE None (pack (q ++ s)) false
  | Bad => ilseq
  end.

(** From the third byte of a four-byte character on. *)
Lemma loop_4 N b0 b1 b2 b3 s : 0xf0 <= b0 <= 0xf4 -> second b0 b1 = true -> tail b2 = true -> tail b3 = true ->
  mbrtowc_loop N (S (length s)) (pack [b0; b1; b2]) (b3 :: s) = Some (finish N (S (length s)) [b0; b1; b2] (b3 :: s)).
Proof.
  intros H0 Hs H2 H3. pose proof (second_tail _ _ Hs) as H1. rewrite loop_step.
  change (shift_in (pack [b0; b1; b2]) b3) with (pack [b0; b1; b2; b3]). rewrite pack_4 by done.
  pose proof H1 as R1. apply tail_range in R1. pose proof H2 as R2. apply tail_range in R2. pose proof H3 as R3. apply tail_range in R3.
  rewrite more_spec by lia. decide_bytes. cbn [negb]. unfold finish, classify. cbn [app].
  rewrite Hs, H2, H3. cbn [negb]. decide_bytes. do 2 f_equal. cbn [length]. lia.
Qed.
Lemma loop_3 N b0 b1 b2 s : Forall is_byte s -> 0xe0 <= b0 <= 0xf4 -> second b0 b1 = true -> tail b2 = true ->
  mbrtowc_loop N (S (length s)) (pack [b0; b1]) (b2 :: s) = Some (finish N (S (length s)) [b0; b1] (b2 :: s)).
Proof.
  intros Hb H0 Hs H2. pose proof (second_tail _ _ Hs) as H1. rewrite loop_step.
  change (shift_in (pack [b0; b1]) b2) with (pack [b0; b1; b2]).
  rewrite more_3 by done.
  unfold finish, classify. cbn [app]. rewrite Hs, H2. cbn [negb]. destruct (Z.ltb_spec b0 0xf0); cbn [negb].
  - decide_bytes. rewrite pack_3 by done. decide_bytes. do 2 f_equal. cbn [length]. lia.
  - destruct s as [|b3 s]; cbn [length Nat.eqb]; [decide_bytes; done|]. pose proof (Forall_inv Hb) as Hb3. cbv beta in Hb3.
    rewrite not_tail by done. destruct (tail b3) eqn:H3; cbn [negb].
    + rewrite loop_4 by (done || lia). unfold finish, classify. cbn [app]. rewrite Hs, H2, H3. cbn [negb]. decide_bytes; done.
    + decide_bytes. done.
Qed.
Lemma loop_2 N b0 b1 s : Forall is_byte s -> 0xc2 <= b0 <= 0xf4 -> second b0 b1 = true ->
  mbrtowc_loop N (S (length s)) (pack [b0]) (b1 :: s) = Some (finish N (S (length s)) [b0] (b1 :: s)).
Proof.
  intros Hb H0 Hs. pose proof (second_tail _ _ Hs) as H1. rewrite loop_step.
  change (shift_in (pack [b0]) b1) with (pack [b0; b1]). rewrite more_2 by done.
  unfold finish, classify. cbn [app]. rewrite Hs. cbn [negb]. destruct (Z.ltb_spec b0 0xe0); cbn [negb].
  - decide_bytes. rewrite pack_2 by done. decide_bytes. do 2 f_equal. cbn [length]. lia.
  - destruct s as [|b2 s]; cbn [length Nat.eqb]; [decide_bytes; done|]. pose proof (Forall_inv Hb) as Hb2. cbv beta in Hb2.
    rewrite not_tail by done. destruct (tail b2) eqn:H2; cbn [negb].
    + rewrite loop_3 by (done || lia || by eapply Forall_inv_tail). unfold finish, classify. cbn [app]. rewrite Hs, H2. cbn [negb].
      decide_bytes; try (destruct s as [|b3 s]; [done|]; destruct (negb (tail b3)); [done|]); do 2 f_equal; cbn [length]; lia.
    + decide_bytes; done.
Qed.

Lemma classify_len l wc k : classify l = Done wc k -> (1 <= k <= length l)%nat.
Proof.
  unfold classify. intros H. destruct l as [|b0 [|b1 [|b2 [|b3 l]]]]; [done|..];
    repeat (match type of H with context [if ?c then _ else _] => destruct c; try discriminate H end);
    injection H as _ <-; cbn [length]; lia.
Qed.

Lemma classify_nonzero b0 l wc k : 0x80 <= b0 -> classify (b0 :: l) = Done wc k -> wc <> 0.
Proof.
  intros Hb H. destruct l as [|b1 [|b2 [|b3 l]]]; unfold classify, second, tail in H; decide_in H; injection H as <- <-; lia.
Qed.

(** The shapes of an unfinished character. *)
Lemma unfinished q : q <> [] -> classify q = More ->
  (exists b0, q = [b0] /\ 0xc2 <= b0 <= 0xf4) \/
  (exists b0 b1, q = [b0; b1] /\ 0xe0 <= b0 <= 0xf4 /\ second b0 b1 = true) \/
  (exists b0 b1 b2, q = [b0; b1; b2] /\ 0xf0 <= b0 <= 0xf4 /\ second b0 b1 = true /\ tail b2 = true).
Proof.
  intros Hq H. destruct q as [|b0 [|b1 [|b2 [|b3 q]]]]; [done|..]; unfold classify in H.
  - left. exists b0. decide_in H. split; [done|lia].
  - right. left. exists b0, b1. destruct (second b0 b1); cbn [negb] in H; decide_in H. split_and!; (done || lia).
  - right. right. exists b0, b1, b2. destruct (second b0 b1); cbn [negb] in H; [|decide_in H].
    destruct (tail b2); cbn [negb] in H; decide_in H. split_and!; (done || lia).
  - exfalso. repeat (match type of H with context [if ?c then _ else _] => destruct c; try discriminate H end).
Qed.

Lemma more_run N q s : q <> [] -> classify q = More -> Forall is_byte s ->
  pack q <> 0 /\ mbrtowc_more N (length s) (pack q) s = Some (finish N (length s) q s).
Proof.
  intros Hq Hm Hb. destruct (unfinished q Hq Hm) as [(b0 & -> & H0)|[(b0 & b1 & -> & H0 & Hs)|(b0 & b1 & b2 & -> & H0 & Hs & H2)]].
  - split.
    { assert (forallb (fun b0 => negb (pack [b0] =? 0)) (seqZ 0xc2 51) = true) as H by (vm_compute; reflexivity).
      pose proof (bytes_all _ _ _ H b0 ltac:(lia)) as H'. cbv beta in H'. by destruct (Z.eqb_spec (pack [b0]) 0). }
    unfold mbrtowc_more. destruct s as [|b1 s]; [unfold finish; by rewrite app_nil_r, Hm|]. cbn [length Nat.eqb].
    pose proof (Forall_inv Hb) as Hb1. cbv beta in Hb1. cbn [lookup list_lookup mbind option_bind]. rewrite oob_second by done.
    destruct (second b0 b1) eqn:Hs; cbn [negb]; [apply loop_2; [by eapply Forall_inv_tail|done|done]|].
    unfold finish, classify. cbn [app]. rewrite Hs. decide_bytes. done.
  - pose proof (second_tail _ _ Hs) as H1. pose proof H1 as R1. apply tail_range in R1.
    assert (0xc0000000 <= pack [b0; b1] < 0xc4000000) as Hp.
    { rewrite pack_2 by (done || lia). destruct (Z.ltb_spec b0 0xe0), (Z.ltb_spec b0 0xf0); lia. }
    split; [lia|]. unfold mbrtowc_more. destruct s as [|b2 s]; [unfold finish; by rewrite app_nil_r, Hm|]. cbn [length Nat.eqb].
    pose proof (Forall_inv Hb) as Hb2. cbv beta in Hb2. cbn [lookup list_lookup mbind option_bind]. rewrite oob_tail by done.
    destruct (tail b2) eqn:H2; cbn [negb]; [apply loop_3; [by eapply Forall_inv_tail|done|done|done]|].
    unfold finish, classify. cbn [app]. rewrite Hs, H2. cbn [negb]. decide_bytes; done.
  - pose proof (second_tail _ _ Hs) as H1. pose proof H1 as R1. apply tail_range in R1. pose proof H2 as R2. apply tail_range in R2.
    assert (0xc0000000 <= pack [b0; b1; b2] < 0xc4000000) as Hp.
    { rewrite pack_3 by (done || lia). destruct (Z.ltb_spec b0 0xf0); lia. }
    split; [lia|]. unfold mbrtowc_more. destruct s as [|b3 s]; [unfold finish; by rewrite app_nil_r, Hm|]. cbn [length Nat.eqb].
    pose proof (Forall_inv Hb) as Hb3. cbv beta in Hb3. cbn [lookup list_lookup mbind option_bind]. rewrite oob_tail by done.
    destruct (tail b3) eqn:H3; cbn [negb]; [apply loop_4; done|].
    unfold finish, classify. cbn [app]. rewrite Hs, H2, H3. cbn [negb]. decide_bytes; done.
Qed.

(** The result of a call that continues [q] with the bytes [s]. *)
Definition mb_result (q s : list Z) : mbres :=
  match classify (q ++ s) with
  | Done wc k => mk_mbres (if wc =? 0 then 0 else Z.of_nat (k - length q)) (Some wc) 0 false
  | More => mk_mbres INCOMPLETE None (pack (q ++ s)) false
  | Bad => ilseq
  end.

Lemma more_take N n c s : (n <= length s)%nat -> mbrtowc_more N n c s = mbrtowc_more N n c (take n s).
Proof.
  intros Hn. unfold mbrtowc_more. destruct (Nat.eqb_spec n 0); [done|]. rewrite lookup_take_lt by lia.
  destruct (s !! 0%nat) as [b|]; [|done]. cbn [mbind option_bind]. destruct (truth (OOB c b)); [done|]. apply loop_take.
Qed.

(** C17: [mbrtowc] in the UTF-8 locale, from the state left by the bytes [q] of
    an unfinished character and with [n] more bytes: it returns the character
    and its bytes taken from these, or remembers the longer unfinished
    character, or reports an illegal sequence, by RFC 3629's table; it reads no
    byte beyond the [n]. *)
Theorem mbrtowc_correct q s n :
  Forall is_byte s -> classify q = More -> (1 <= n <= length s)%nat ->
  mbrtowc false (Some s) n (pack q) = Some (mb_result q (take n s)).
Proof.
  intros Hb Hm Hn. unfold mbrtowc. destruct (Nat.eqb_spec n 0); [lia|].
  assert (Hbt : Forall is_byte (take n s)) by by apply Forall_take.
  assert (Hlt : length (take n s) = n) by (rewrite length_take; lia).
  destruct (decide (q = [])) as [->|Hq].
  - cbn [pack]. rewrite Z.eqb_refl. destruct s as [|b0 s]; [simpl in Hn; lia|]. destruct n as [|n]; [lia|].
    cbn [lookup list_lookup mbind option_bind drop take] in *. unfold mb_result. cbn [app].
    pose proof (Forall_inv Hb) as Hb0. cbv beta in Hb0.
    destruct (Z.ltb_spec b0 0x80) as [Hlow|Hhigh].
    { unfold classify. decide_bytes; cbn [length]; unfold truth; destruct (Z.eqb_spec b0 0); done. }
    rewrite lead_range by done.
    destruct ((b0 <? 0xc2) || (0xf4 <? b0)) eqn:Hlead.
    { unfold classify. destruct (Z.ltb_spec b0 0x80); [lia|]. apply orb_true_iff in Hlead as [HL|HL]; rewrite HL; [done|]. by destruct (b0 <? 0xc2). }
    apply orb_false_iff in Hlead as [HA HB]. rewrite bittab_lookup by lia. cbn [mbind option_bind].
    simpl (S n - 1)%nat. rewrite Nat.sub_0_r, drop_0.
    cbn [length] in Hn. rewrite more_take by lia. simpl in Hlt. assert (length (take n s) = n) as E by lia. rewrite <- E at 2.
    assert (classify [b0] = More) as Hm0 by (unfold classify; rewrite HA, HB; destruct (Z.ltb_spec b0 0x80); [lia|done]).
    destruct (more_run (S n) [b0] (take n s) ltac:(done) Hm0 ltac:(by eapply Forall_inv_tail)) as [_ ->].
    unfold finish. cbn [app]. destruct (classify (b0 :: take n s)) as [wc k| |] eqn:Ec; [|done|done].
    pose proof (classify_len _ _ _ Ec) as Hk. cbn [length] in Hk.
    assert (wc <> 0) as Hwc by (eapply classify_nonzero; [|exact Ec]; lia).
    destruct (Z.eqb_spec wc 0); [done|]. do 2 f_equal. cbn [length]. lia.
  - destruct (more_run n q (take n s) Hq Hm Hbt) as [Hp Hrun]. rewrite Hlt in Hrun.
    destruct (Z.eqb_spec (pack q) 0); [done|]. rewrite more_take, Hrun by lia. unfold finish, mb_result.
    destruct (classify (q ++ take n s)) as [wc k| |] eqn:Ec; [|done|done].
    pose proof (classify_len _ _ _ Ec) as Hk. rewrite length_app, Hlt in Hk.
    assert (wc <> 0) as Hwc.
    { destruct (unfinished q Hq Hm) as [(? & -> & ?)|[(? & ? & -> & ? & _)|(? & ? & ? & -> & ? & _)]];
        (eapply classify_nonzero; [|exact Ec]; lia). }
    destruct (Z.eqb_spec wc 0); [done|]. do 2 f_equal. lia.
Qed.

(** ** wcrtomb *)

Lemma lor_lead p n y : forallb (fun y => Z.lor p y =? p + y) (seqZ 0 n) = true -> 0 <= y < n -> Z.lor p y = p + y.
Proof. intros H Hy. apply Z.eqb_eq. apply (bytes_all 0 n (fun y => Z.lor p y =? p + y)); [done|lia]. Qed.
Lemma low6_mod x : low6 x = 0x80 + x mod 64.
Proof.
  unfold low6. change 0x3f with (Z.ones 6). rewrite Z.land_ones by lia. apply (lor_lead _ 64); [vm_compute; reflexivity|].
  apply Z.mod_pos_bound. lia.
Qed.

Definition scalarb (wc : Z) : bool := ((0 <=? wc) && (wc <? 0xd800)) || ((0xe000 <=? wc) && (wc <? 0x110000)).
Lemma scalarb_spec wc : scalarb wc = true <-> scalar wc.
Proof.
  unfold scalarb, scalar. destruct (Z.leb_spec 0 wc), (Z.ltb_spec wc 0xd800), (Z.leb_spec 0xe000 wc), (Z.ltb_spec wc 0x110000); cbn [andb orb]; split; (done || lia).
Qed.

(** [wcrtomb] in the UTF-8 locale stores the encoding of a scalar value
    and returns its length; for any other int (surrogates, negative numbers,
    numbers beyond U+10FFFF) it fails and stores nothing. *)
Theorem wcrtomb_correct wc :
  Prelude.in_int wc -> wcrtomb false wc = if scalarb wc then (Z.of_nat (length (encode wc)), encode wc) else (ERR, []).
Proof.
  unfold Prelude.in_int. intros Hw. unfold wcrtomb, encode. rewrite !low6_mod, !Z.shiftr_div_pow2 by lia.
  change (2 ^ 6) with 64. change (2 ^ 12) with 4096. change (2 ^ 18) with 262144.
  assert (wrap32 wc = if wc <? 0 then wc + 2 ^ 32 else wc) as ->.
  { unfold wrap. destruct (Z.ltb_spec wc 0); [symmetry; apply (Z.mod_unique_pos _ _ (-1)); lia|apply Z.mod_small; lia]. }
  unfold scalarb. destruct (Z.ltb_spec wc 0).
  { rewrite (wrap_small 32 (wc + 2 ^ 32 - 0xe000)), (wrap_small 32 (wc + 2 ^ 32 - 0x10000)) by (unfold in_range; lia). decide_bytes; done. }
  assert (Hq : 0 <= wc / 64) by (apply Z.div_pos; lia). assert (Hq1 : 0 <= wc / 4096) by (apply Z.div_pos; lia).
  assert (Hq2 : 0 <= wc / 262144) by (apply Z.div_pos; lia).
  destruct (Z.ltb_spec wc 0x80).
  { decide_bytes; rewrite wrap_small by (unfold in_range; lia); done. }
  destruct (Z.ltb_spec wc 0x800).
  { rewrite (lor_lead 0xc0 32); [|vm_compute; reflexivity|split; [lia|apply Z.div_lt_upper_bound; lia]]. decide_bytes; done. }
  assert (Hsur : (wrap32 (wc - 0xe000) <? 0x2000) = (0xe000 <=? wc) && (wc <? 0x10000)).
  { unfold wrap. destruct (Z.leb_spec 0xe000 wc).
    - rewrite Z.mod_small by lia. cbn [andb]. destruct (Z.ltb_spec wc 0x10000), (Z.ltb_spec (wc - 0xe000) 0x2000); (done || lia).
    - rewrite <- (Z.mod_unique_pos (wc - 0xe000) (2 ^ 32) (-1) (wc - 0xe000 + 2 ^ 32)) by lia. cbn [andb]. apply Z.ltb_ge. lia. }
  assert (Hast : (wrap32 (wc - 0x10000) <? 0x100000) = (0x10000 <=? wc) && (wc <? 0x110000)).
  { unfold wrap. destruct (Z.leb_spec 0x10000 wc).
    - rewrite Z.mod_small by lia. cbn [andb]. destruct (Z.ltb_spec wc 0x110000), (Z.ltb_spec (wc - 0x10000) 0x100000); (done || lia).
    - rewrite <- (Z.mod_unique_pos (wc - 0x10000) (2 ^ 32) (-1) (wc - 0x10000 + 2 ^ 32)) by lia. cbn [andb]. apply Z.ltb_ge. lia. }
  rewrite Hsur, Hast. destruct (Z.ltb_spec wc 0x10000).
  { rewrite (lor_lead 0xe0 16); [|vm_compute; reflexivity|split; [lia|apply Z.div_lt_upper_bound; lia]]. decide_bytes; cbn [orb andb]; decide_bytes; done. }
  destruct (Z.ltb_spec wc 0x110000).
  - rewrite (lor_lead 0xf0 8); [|vm_compute; reflexivity|split; [lia|apply Z.div_lt_upper_bound; lia]]. decide_bytes; cbn [orb andb]; decide_bytes; done.
  - decide_bytes; cbn [orb andb]; decide_bytes; done.
Qed.

(** ** Round trips *)

Lemma encode_bytes wc : scalar wc -> Forall is_byte (encode wc).
Proof.
  intros Hs. unfold scalar in Hs. unfold encode.
  replace (wc / 4096) with (wc / 64 / 64) by (rewrite Z.div_div by lia; done).
  replace (wc / 262144) with (wc / 64 / 64 / 64) by (rewrite !Z.div_div by lia; done).
  destruct (base64 wc) as (q & r & -> & -> & Hq & Hr). destruct (base64 q) as (q1 & r1 & -> & -> & Hq1 & Hr1).
  destruct (base64 q1) as (q2 & r2 & -> & -> & Hq2 & Hr2).
  decide_bytes; repeat (apply List.Forall_cons; [unfold in_range; lia|]); apply List.Forall_nil.
Qed.

Lemma take_encode wc rest n : (length (encode wc) <= n)%nat ->
  take n (encode wc ++ rest) = encode wc ++ take (n - length (encode wc)) rest.
Proof. intros H. by rewrite take_app_ge by done. Qed.

(** C18: Decoding inverts encoding, whatever follows, and nothing else is
    decoded: for every number [wc] and every string, [wc] is decoded, from [k]
    bytes, exactly when it is a scalar value and these bytes are what [wcrtomb]
    writes for it. Overlong forms, surrogates and numbers beyond U+10FFFF are
    never accepted. *)
Theorem utf8_roundtrip wc s n r :
  Forall is_byte s -> (1 <= n <= length s)%nat ->
  mbrtowc false (Some s) n 0 = Some (mk_mbres r (Some wc) 0 false) <->
  scalar wc /\ exists k, wcrtomb false wc = (Z.of_nat k, take k s) /\ (k <= n)%nat /\ r = if wc =? 0 then 0 else Z.of_nat k.
Proof.
  intros Hb Hn. change 0 with (pack []) at 1. rewrite mbrtowc_correct by done. unfold mb_result. cbn [app length].
  assert (Hpos : Forall (fun b => 0 <= b) (take n s)).
  { apply Forall_take. eapply Forall_impl; [|exact Hb]. unfold in_range. lia. }
  assert (Henc : scalar wc -> wcrtomb false wc = (Z.of_nat (length (encode wc)), encode wc)).
  { intros Hs. rewrite wcrtomb_correct by (unfold scalar in Hs; unfold Prelude.in_int; lia). by rewrite (proj2 (scalarb_spec wc) Hs). }
  split.
  - intros Hk. destruct (classify (take n s)) as [wc' k'| |] eqn:Ec; [|done|done]. rewrite Nat.sub_0_r in Hk. injection Hk as <- ->.
    pose proof (classify_len _ _ _ Ec) as Hl. apply classify_done in Ec as (Hs & Et & El); [|done].
    rewrite length_take in Hl. rewrite take_take, Nat.min_l in Et by lia. subst k'. split; [done|].
    exists (length (encode wc)). rewrite Henc, Et by done. split_and!; [done|lia|done].
  - intros (Hs & k & Hk & Hkn & ->). rewrite (Henc Hs) in Hk. injection Hk as Ek El. apply Nat2Z.inj in Ek. subst k.
    assert (take n s = encode wc ++ drop (length (encode wc)) (take n s)) as E.
    { rewrite <- (take_drop (length (encode wc)) (take n s)) at 1. f_equal. rewrite take_take, Nat.min_l by done. congruence. }
    rewrite E, classify_encode by done. by rewrite Nat.sub_0_r.
Qed.

(** ** mbtowc *)

Lemma early_exit b0 : 0xc2 <= b0 <= 0xf4 -> forall n, (1 <= n)%nat ->
  ((n <? 4)%nat && truth (Z.land (wrap32 (Z.shiftl (pack [b0]) (6 * Z.of_nat n - 6))) (Z.shiftl 1 31))) =
  (if (n =? 1)%nat then true else if (n =? 2)%nat then 0xe0 <=? b0 else if (n =? 3)%nat then 0xf0 <=? b0 else false).
Proof.
  intros Hb n Hn.
  assert (forallb (fun b0 =>
    truth (Z.land (wrap32 (Z.shiftl (pack [b0]) 0)) (Z.shiftl 1 31)) &&
    Bool.eqb (truth (Z.land (wrap32 (Z.shiftl (pack [b0]) 6)) (Z.shiftl 1 31))) (0xe0 <=? b0) &&
    Bool.eqb (truth (Z.land (wrap32 (Z.shiftl (pack [b0]) 12)) (Z.shiftl 1 31))) (0xf0 <=? b0)) (seqZ 0xc2 51) = true) as H
    by (vm_compute; reflexivity).
  pose proof (bytes_all _ _ _ H b0 ltac:(lia)) as H'. cbv beta in H'. apply andb_true_iff in H' as [H' H3].
  apply andb_true_iff in H' as [H1 H2]. apply eqb_prop in H2, H3.
  destruct n as [|[|[|[|n]]]]; [lia|exact H1|exact H2|exact H3|done].
Qed.

(** [mbtowc] decodes like [mbrtowc], except that an unfinished character is
    an error, and reads no byte beyond the [n]. *)
Theorem mbtowc_correct s n :
  Forall is_byte s -> (1 <= n <= length s)%nat ->
  mbtowc false (Some s) n = Some (match classify (take n s) with
    | Done wc k => (if wc =? 0 then 0 else Z.of_nat k, Some wc)
    | _ => (-1, None)
    end).
Proof.
  intros Hb Hn. unfold mbtowc. destruct (Nat.eqb_spec n 0); [lia|]. destruct s as [|b0 s]; [simpl in Hn; lia|].
  destruct n as [|n]; [lia|]. cbn [lookup list_lookup mbind option_bind take].
  pose proof (Forall_inv Hb) as Hb0. cbv beta in Hb0. apply Forall_inv_tail in Hb.
  destruct (Z.ltb_spec b0 0x80).
  { unfold classify, truth. decide_bytes; done. }
  rewrite lead_range by done. destruct ((b0 <? 0xc2) || (0xf4 <? b0)) eqn:Hlead.
  { unfold classify. destruct (Z.ltb_spec b0 0x80); [lia|]. apply orb_true_iff in Hlead as [HL|HL]; rewrite HL; [done|]. by destruct (b0 <? 0xc2). }
  apply orb_false_iff in Hlead as [HA HB]. assert (0xc2 <= b0 <= 0xf4) as Hlead by lia.
  rewrite bittab_lookup by done. cbn [mbind option_bind]. rewrite early_exit by (done || lia).
  assert (Hcl : forall l, match classify (b0 :: l) with Done wc k => (if wc =? 0 then 0 else Z.of_nat k, Some wc) | _ => (-1, None) end =
    match classify (b0 :: l) with Done wc k => (Z.of_nat k, Some wc) | _ => (-1, None) end).
  { intros l. destruct (classify (b0 :: l)) as [wc k| |] eqn:Ec; [|done|done].
    assert (wc <> 0) by (eapply classify_nonzero; [|exact Ec]; lia). by destruct (Z.eqb_spec wc 0). }
  rewrite Hcl. clear Hcl. unfold classify. rewrite HA, HB. destruct (Z.ltb_spec b0 0x80); [lia|].
  cbn [length] in Hn. destruct n as [|n]; [done|]. destruct s as [|b1 s]; [simpl in Hn; lia|]. cbn [Nat.eqb take lookup list_lookup].
  pose proof (Forall_inv Hb) as Hb1. cbv beta in Hb1. apply Forall_inv_tail in Hb.
  assert (Hread1 : forall X Y : option (Z * option Z), (if truth (OOB (pack [b0]) b1) then X else Y) = if second b0 b1 then Y else X).
  { intros. rewrite oob_second by done. by destruct (second b0 b1). }
  cbn [lookup list_lookup mbind option_bind]. rewrite Hread1. change (shift_in (pack [b0]) b1) with (pack [b0; b1]).
  destruct (second b0 b1) eqn:Hs; cbn [negb].
  2:{ by match goal with |- (if ?c then _ else _) = _ => destruct c end. }
  pose proof (second_tail _ _ Hs) as H1. rewrite more_2, negb_involutive by done. destruct (Z.ltb_spec b0 0xe0) as [H2|H2].
  { rewrite pack_2 by done. destruct (Z.leb_spec 0xe0 b0), (Z.leb_spec 0xf0 b0); try lia.
    destruct n as [|[|n]]; cbn [Nat.eqb]; by decide_bytes. }
  destruct n as [|n]; [cbn [Nat.eqb take]; by decide_bytes|]. destruct s as [|b2 s]; [simpl in Hn; lia|]. cbn [Nat.eqb take lookup list_lookup mbind option_bind].
  pose proof (Forall_inv Hb) as Hb2. cbv beta in Hb2. apply Forall_inv_tail in Hb.
  rewrite not_tail by done. change (shift_in (pack [b0; b1]) b2) with (pack [b0; b1; b2]).
  destruct (tail b2) eqn:T2; cbn [negb].
  2:{ by match goal with |- (if ?c then _ else _) = _ => destruct c end. }
  rewrite more_3, negb_involutive by (done || lia). destruct (Z.ltb_spec b0 0xf0) as [H3|H3].
  { rewrite pack_3 by (done || lia). destruct (Z.leb_spec 0xf0 b0); [lia|].
    destruct n; cbn [Nat.eqb]; by decide_bytes. }
  destruct n as [|n]; [cbn [Nat.eqb take]; by decide_bytes|]. destruct s as [|b3 s]; [simpl in Hn; lia|]. cbn [Nat.eqb take lookup list_lookup mbind option_bind].
  pose proof (Forall_inv Hb) as Hb3. cbv beta in Hb3. rewrite not_tail by done.
  change (shift_in (pack [b0; b1; b2]) b3) with (pack [b0; b1; b2; b3]).
  destruct (tail b3) eqn:T3; cbn [negb]; [|done]. by rewrite pack_4 by (done || lia).
Qed.

(** ** UTF-16 *)

(** A character beyond U+FFFF is read by [mbrtoc16] as a surrogate pair in
    two calls, and [c16rtomb] makes its UTF-8 form of that pair again. *)
Theorem utf16_roundtrip wc :
  0x10000 <= wc < 0x110000 ->
  exists hi lo x,
    mbrtoc16 false (Some (encode wc)) 4 0 = Some (mk_mbres 4 (Some hi) lo false) /\
    mbrtoc16 false (Some (encode wc)) 4 lo = Some (mk_mbres (wrap64 (-3)) (Some lo) 0 false) /\
    0xd800 <= hi < 0xdc00 /\ 0xdc00 <= lo < 0xe000 /\
    c16rtomb false true hi 0 = (0, [], x, false) /\
    c16rtomb false true lo x = (4, encode wc, 0, false).
Proof.
  intros Hw. assert (scalar wc) as Hs by (unfold scalar; lia).
  assert (El : length (encode wc) = 4%nat) by (unfold encode; decide_bytes; done).
  pose proof (Z.div_mod wc 1024 ltac:(lia)) as Hdm. pose proof (Z.mod_pos_bound wc 1024 ltac:(lia)) as Hm.
  assert (64 <= wc / 1024 < 1088) as Hq by (split; [apply Z.div_le_lower_bound; lia|apply Z.div_lt_upper_bound; lia]).
  set (q := wc / 1024) in *. set (r := wc mod 1024) in *.
  exists (0xd7c0 + q), (r + 0xdc00), (q * 1024). unfold mbrtoc16, or_empty.
  pose proof (mbrtowc_correct [] (encode wc) 4 (encode_bytes wc Hs) eq_refl ltac:(lia)) as Hmb. change (pack []) with 0 in Hmb.
  rewrite take_ge in Hmb by lia. unfold mb_result in Hmb. cbn [app] in Hmb.
  pose proof (classify_encode wc [] Hs) as Hc. rewrite app_nil_r in Hc. rewrite Hc, El in Hmb. rewrite Hmb.
  cbn [mbind option_bind ret out eilseq state length]. destruct (Z.eqb_spec wc 0); [lia|]. change (0 <? swrap32 0) with false.
  change (Z.of_nat (4 - 0) <=? 4) with true. destruct (Z.leb_spec 0x10000 wc); [|lia].
  rewrite Z.shiftr_div_pow2 by lia. change 0x3ff with (Z.ones 10). rewrite Z.land_ones by lia. change (2 ^ 10) with 1024. fold q r.
  rewrite !(wrap_small 16) by (unfold in_range; lia).
  assert (swrap32 (r + 0xdc00) = r + 0xdc00) as ->.
  { unfold swrap. rewrite wrap_small by (unfold in_range; lia). change (2 ^ (32 - 1)) with 2147483648. by destruct (Z.ltb_spec (r + 0xdc00) 2147483648); [|lia]. }
  destruct (Z.ltb_spec 0 (r + 0xdc00)); [|lia]. split_and!; [done|done|lia|lia|lia|lia|..]; unfold c16rtomb; cbn [negb andb truth].
  - change (truth 0) with false. cbn [negb andb]. rewrite (wrap_small 32 (0xd7c0 + q - 0xd800)) by (unfold in_range; lia).
    destruct (Z.ltb_spec (0xd7c0 + q - 0xd800) 0x400); [|lia]. replace (0xd7c0 + q - 0xd7c0) with q by lia.
    rewrite Z.shiftl_mul_pow2, wrap_small by (unfold in_range; lia). done.
  - assert (truth (q * 1024) = true) as -> by (unfold truth; destruct (Z.eqb_spec (q * 1024) 0); [lia|done]). cbn [negb andb].
    rewrite (wrap_small 32 (r + 0xdc00 - 0xdc00)) by (unfold in_range; lia). destruct (Z.leb_spec 0x400 (r + 0xdc00 - 0xdc00)); [lia|].
    replace (q * 1024 + (r + 0xdc00) - 0xdc00) with wc by lia.
    assert (swrap32 wc = wc) as ->.
    { unfold swrap. rewrite wrap_small by (unfold in_range; lia). change (2 ^ (32 - 1)) with 2147483648. by destruct (Z.ltb_spec wc 2147483648); [|lia]. }
    rewrite wcrtomb_correct by (unfold Prelude.in_int; lia). rewrite (proj2 (scalarb_spec wc) Hs), El. done.
Qed.

(** ** The C locale *)

(** Where MB_CUR_MAX is 1 every byte is a character: converting it to a
    wide character and back, alone or in a string, gives the byte again. *)
Theorem codeunit_roundtrip b s n st :
  is_byte b -> (1 <= n)%nat ->
  exists wc, mbrtowc true (Some (b :: s)) n 0 = Some (mk_mbres (Z.b2z (truth b)) (Some wc) 0 false) /\
    wcrtomb true wc = (1, [b]) /\ mbtowc true (Some (b :: s)) n = Some (Z.b2z (truth b), Some wc) /\
    btowc true b = wc /\ wctob true wc = b /\ mbsinit st = match st with Some c => c =? 0 | None => true end.
Proof.
  intros Hb Hn.
  assert (forallb (fun b => bool_decide (wcrtomb true (if b <? 0x80 then b else CODEUNIT b) = (1, [b])) &&
    (btowc true b =? (if b <? 0x80 then b else CODEUNIT b)) && (wctob true (if b <? 0x80 then b else CODEUNIT b) =? b)) (seqZ 0 256) = true) as H
    by (vm_compute; reflexivity).
  pose proof (bytes_all _ _ _ H b) as H'. unfold in_range in Hb. change (2 ^ 8) with 256 in Hb. specialize (H' ltac:(lia)). cbv beta in H'.
  apply andb_true_iff in H' as [H' H3]. apply andb_true_iff in H' as [H1 H2]. apply bool_decide_eq_true in H1. apply Z.eqb_eq in H2, H3.
  exists (if b <? 0x80 then b else CODEUNIT b). unfold mbrtowc, mbtowc. destruct (Nat.eqb_spec n 0); [lia|].
  cbn [Z.eqb lookup list_lookup mbind option_bind].
  assert (0x80 <= b -> truth b = true) as Ht by (intros; unfold truth; by destruct (Z.eqb_spec b 0); [lia|]).
  split_and!; [|done| |done|done|].
  - destruct (Z.ltb_spec b 0x80); [done|]. by rewrite Ht by lia.
  - destruct (Z.ltb_spec b 0x80); [done|]. by rewrite Ht by lia.
  - destruct st as [c|]; [|done]. unfold mbsinit, truth. by rewrite negb_involutive.
Qed.

(** ** A Euro sign in two pieces *)

Lemma mbrtowc_witness :
  mbrtowc false (Some [0x82; 0xac; 0x41]) 3 (pack [0xe2]) = Some (mk_mbres 2 (Some 0x20ac) 0 false).
Proof.
  exact (mbrtowc_correct [0xe2] [0x82; 0xac; 0x41] 3 ltac:(repeat constructor; unfold in_range; lia) eq_refl ltac:(simpl; lia)).
Defined.
Lemma wcrtomb_witness : wcrtomb false 0x20ac = (3, [0xe2; 0x82; 0xac]).
Proof. exact (wcrtomb_correct 0x20ac ltac:(unfold Prelude.in_int; lia)). Defined.
Lemma utf8_roundtrip_witness :
  (mbrtowc false (Some [0xe2; 0x82; 0xac; 0x41]) 4 0 = Some (mk_mbres 3 (Some 0x20ac) 0 false) <->
   scalar 0x20ac /\ exists k, wcrtomb false 0x20ac = (Z.of_nat k, take k [0xe2; 0x82; 0xac; 0x41]) /\ (k <= 4)%nat /\ 3 = if 0x20ac =? 0 then 0 else Z.of_nat k) /\
  mbrtowc false (Some [0xed; 0xa0; 0x80]) 3 0 <> Some (mk_mbres 3 (Some 0xd800) 0 false).
Proof.
  split.
  - exact (utf8_roundtrip 0x20ac [0xe2; 0x82; 0xac; 0x41] 4 3 ltac:(repeat constructor; unfold in_range; lia) ltac:(simpl; lia)).
  - intros H. apply (utf8_roundtrip 0xd800 [0xed; 0xa0; 0x80] 3 3) in H as [H _]; [unfold scalar in H; lia|repeat constructor; unfold in_range; lia|simpl; lia].
Defined.
Lemma mbtowc_witness : mbtowc false (Some [0xe2; 0x82; 0xac]) 2 = Some (-1, None).
Proof. exact (mbtowc_correct [0xe2; 0x82; 0xac] 2 ltac:(repeat constructor; unfold in_range; lia) ltac:(simpl; lia)). Defined.
Lemma utf16_witness :
  exists hi lo x,
    mbrtoc16 false (Some (encode 0x1f600)) 4 0 = Some (mk_mbres 4 (Some hi) lo false) /\
    mbrtoc16 false (Some (encode 0x1f600)) 4 lo = Some (mk_mbres (wrap64 (-3)) (Some lo) 0 false) /\
    0xd800 <= hi < 0xdc00 /\ 0xdc00 <= lo < 0xe000 /\
    c16rtomb false true hi 0 = (0, [], x, false) /\ c16rtomb false true lo x = (4, encode 0x1f600, 0, false).
Proof. exact (utf16_roundtrip 0x1f600 ltac:(lia)). Defined.
Lemma codeunit_witness :
  exists wc, mbrtowc true (Some [0xe9; 0x41]) 2 0 = Some (mk_mbres 1 (Some wc) 0 false) /\
    wcrtomb true wc = (1, [0xe9]) /\ mbtowc true (Some [0xe9; 0x41]) 2 = Some (1, Some wc) /\
    btowc true 0xe9 = wc /\ wctob true wc = 0xe9 /\ mbsinit (Some 0) = true.
Proof. exact (codeunit_roundtrip 0xe9 [0x41] 2 (Some 0) ltac:(unfold in_range; lia) ltac:(lia)). Defined.
