(* ===== verification/MbString.v ===== *)
(** * MbString: multibyte strings, musl src/multibyte

    The conversions of whole strings: wcsrtombs, wcsnrtombs and wcstombs to
    UTF-8, mbsrtowcs, mbsnrtowcs and mbstowcs from it, on memory. A wide
    character is four bytes; the pointers and states the callers pass by
    address are in memory. errno is set to EILSEQ exactly where (size_t)-1 is
    returned; local buffers that are only written are not kept. *)

From stdpp Require Import base tactics numbers list gmap.
From S2P Require Import Prelude CMem StrScan Utf8.
Open Scope Z_scope.

(** ** To multibyte strings *)

Fixpoint store_list (p : Z) (l : list Z) : CMem.C unit :=
  match l with [] => mret tt | b :: l => store8 p b;; store_list (p + 1) l end.

(** wcrtomb with a destination. *)
Definition wcrtomb_at (mb1 : bool) (s wc : Z) : CMem.C Z :=
  let '(r, l) := wcrtomb mb1 wc in store_list s l;; mret r.

Definition failed (l : Z) : bool := negb (truth (wrap64 (l + 1))).

(** The increment of the pointer stored at [ws]. *)
Definition advance (ws : Z) : CMem.C unit := p ← load64 ws; store64 ws (p + 4).

Definition wcsrtombs_count (mb1 : bool) (fuel : nat) (w : Z) : CMem.C Z :=
  loop fuel (fun '(n, ws2) =>
    x ← load32 ws2;
    if truth x then
      if 0x80 <=? x then
        let l := fst (wcrtomb mb1 (swrap32 x)) in
        if failed l then mret (inr ERR) else mret (inl (wrap64 (n + l), ws2 + 4))
      else mret (inl (wrap64 (n + 1), ws2 + 4))
    else mret (inr n)) (0, w).

Definition finish_mbs (s ws r : Z) : CMem.C (Z * Z + (Z * Z + Z)) := store8 s 0;; store64 ws 0;; mret (inr (inr r)).

Definition wcsrtombs (mb1 : bool) (fuel : nat) (s ws n : Z) : CMem.C Z :=
  let N := n in
  if s =? 0 then w ← load64 ws; wcsrtombs_count mb1 fuel w else
  r ← loop fuel (fun '(s, n) =>
    if 4 <=? n then
      p ← load64 ws; x ← load32 p;
      if 0x7f <=? wrap32 (x - 1) then
        if negb (truth x) then finish_mbs s ws (N - n) else
        l ← wcrtomb_at mb1 s (swrap32 x);
        if failed l then mret (inr (inr ERR)) else
        advance ws;; mret (inl (s + l, n - l))
      else store8 s x;; advance ws;; mret (inl (s + 1, n - 1))
    else mret (inr (inl (s, n)))) (s, n);
  match r with
  | inr r => mret r
  | inl (s, n) =>
      r ← loop fuel (fun '(s, n) =>
        if truth n then
          p ← load64 ws; x ← load32 p;
          if 0x7f <=? wrap32 (x - 1) then
            if negb (truth x) then finish_mbs s ws (N - n) else
            let l := fst (wcrtomb mb1 (swrap32 x)) in
            if failed l then mret (inr (inr ERR)) else
            if n <? l then mret (inr (inr (N - n))) else
            wcrtomb_at mb1 s (swrap32 x);;
            advance ws;; mret (inl (s + l, n - l))
          else store8 s x;; advance ws;; mret (inl (s + 1, n - 1))
        else mret (inr (inl (s, n)))) (s, n);
      mret (match r with inr r => r | inl _ => N end)
  end.

(** The copy of the argument that wcstombs passes by address is at [wsp]. *)
Definition wcstombs (mb1 : bool) (fuel : nat) (wsp s ws n : Z) : CMem.C Z :=
  store64 wsp ws;; wcsrtombs mb1 fuel s wsp n.

Definition MB_LEN_MAX : Z := 4.

Definition wcsnrtombs (mb1 : bool) (fuel : nat) (dst wcs wn n : Z) : CMem.C Z :=
  ws ← load64 wcs;
  let n := if dst =? 0 then 0 else n in
  '(ws, dst', cnt) ← loop fuel (fun '(ws, wn, dst', n, cnt) =>
    if truth ws && truth wn then
      x ← load32 ws;
      let '(l, bytes) := wcrtomb mb1 (swrap32 x) in
      (if n <? MB_LEN_MAX then mret tt else store_list dst' bytes);;
      if l =? ERR then mret (inr (ws, dst', ERR)) else
      if truth dst && (n <? MB_LEN_MAX) && (n <? l) then mret (inr (ws, dst', cnt)) else
      (if truth dst && (n <? MB_LEN_MAX) then store_list dst' bytes else mret tt);;
      let dst' := if truth dst then dst' + l else dst' in
      let n := if truth dst then n - l else n in
      x ← load32 ws;
      if negb (truth x) then mret (inr (0, dst', cnt)) else
      mret (inl (ws + 4, wn - 1, dst', n, wrap64 (cnt + l)))
    else mret (inr (ws, dst', cnt))) (ws, wn, dst, n, 0);
  (if truth dst then store64 wcs ws else mret tt);;
  mret cnt.

(** ** From multibyte strings *)

(** The word test: four bytes that are all ASCII and not NUL. *)
Definition ascii4 (x : Z) : bool := negb (truth (Z.land (Z.lor x (wrap32 (x - 0x01010101))) 0x80808080)).

Definition is_ascii (b : Z) : bool := wrap32 (b - 1) <? 0x7f.
Definition not_tail_byte (b : Z) : bool := 0x40 <=? wrap32 (b - 0x80).

(** From the label [resume]: a character continued from the state [c]; whether
    it is complete, the new [c] and [s]. *)
Definition resume3 (c s : Z) : CMem.C (bool * Z * Z) :=
  b ← load8 s;
  if not_tail_byte b then mret (false, c, s - 3) else mret (true, shift_in c b, s + 1).
Definition resume2 (c s : Z) : CMem.C (bool * Z * Z) :=
  b ← load8 s;
  if not_tail_byte b then mret (false, c, s - 2) else
  let c := shift_in c b in let s := s + 1 in
  if negb (more c) then mret (true, c, s) else resume3 c s.
Definition resume (c s : Z) : CMem.C (bool * Z * Z) :=
  b ← load8 s;
  if truth (OOB c b) then mret (false, c, s - 1) else
  let c := shift_in c b in let s := s + 1 in
  if negb (more c) then mret (true, c, s) else resume2 c s.

(** From the label [resume0]: the same without the character. *)
Definition resume0 (c s : Z) : CMem.C (bool * Z) :=
  b ← load8 s;
  if truth (OOB c b) then mret (false, s - 1) else
  let s := s + 1 in
  if negb (truth (Z.land c (Z.shiftl 1 25))) then mret (true, s) else
  b ← load8 s;
  if not_tail_byte b then mret (false, s - 2) else
  let s := s + 1 in
  if negb (truth (Z.land c (Z.shiftl 1 19))) then mret (true, s) else
  b ← load8 s;
  if not_tail_byte b then mret (false, s - 3) else
  mret (true, s + 1).

(** The loop that counts; it leaves with [c], [s] and [wn]. *)
Definition count_from (c s wn : Z) : CMem.C (Z * Z + Z * Z * Z) :=
  '(ok, s) ← resume0 c s;
  mret (if (ok : bool) then inl (s, wrap64 (wn - 1)) else inr (c, s, wn)).

Definition count_body (fuel : nat) (st : Z * Z) : CMem.C (Z * Z + Z * Z * Z) :=
  let '(s, wn) := st in
  b ← load8 s;
  '(s, wn) ← (if is_ascii b && (s `mod` 4 =? 0) then
      loop fuel (fun '(s, wn) => x ← load32 s; if ascii4 x then mret (inl (s + 4, wrap64 (wn - 4))) else mret (inr (s, wn))) (s, wn)
    else mret (s, wn));
  b ← load8 s;
  if is_ascii b then mret (inl (s + 1, wrap64 (wn - 1))) else
  if SB - SA <? wrap32 (b - SA) then mret (inr (0, s, wn)) else
  match bittab !! Z.to_nat (b - SA) with
  | None => undef
  | Some c => count_from c (s + 1) wn
  end.

(** The loop that converts: [ws], [s] and [wn]. It leaves with [s] and, unless
    the space is used up, with [c], [ws] and [wn]. *)
Definition convert_from (c ws s wn : Z) : CMem.C (Z * Z * Z + Z * option (Z * Z * Z)) :=
  '(ok, c, s) ← resume c s;
  if (ok : bool) then store32 ws c;; mret (inl (ws + 4, s, wrap64 (wn - 1))) else mret (inr (s, Some (c, ws, wn))).

Definition copy_ascii (ws s : Z) : CMem.C unit := b ← load8 s; store32 ws b.

Definition convert_body (fuel : nat) (st : Z * Z * Z) : CMem.C (Z * Z * Z + Z * option (Z * Z * Z)) :=
  let '(ws, s, wn) := st in
  if negb (truth wn) then mret (inr (s, None)) else
  b ← load8 s;
  '(ws, s, wn) ← (if is_ascii b && (s `mod` 4 =? 0) then
      loop fuel (fun '(ws, s, wn) =>
        if 5 <=? wn then
          x ← load32 s;
          if ascii4 x then
            copy_ascii ws s;; copy_ascii (ws + 4) (s + 1);; copy_ascii (ws + 8) (s + 2);; copy_ascii (ws + 12) (s + 3);;
            mret (inl (ws + 16, s + 4, wn - 4))
          else mret (inr (ws, s, wn))
        else mret (inr (ws, s, wn))) (ws, s, wn)
    else mret (ws, s, wn));
  b ← load8 s;
  if is_ascii b then copy_ascii ws s;; mret (inl (ws + 4, s + 1, wn - 1)) else
  if SB - SA <? wrap32 (b - SA) then mret (inr (s, Some (0, ws, wn))) else
  match bittab !! Z.to_nat (b - SA) with
  | None => undef
  | Some c => convert_from c ws (s + 1) wn
  end.

(** [if (!c && !*s)] *)
Definition at_end (c s : Z) : CMem.C bool := if truth c then mret false else b ← load8 s; mret (negb (truth b)).

(** The result and the new value of [*src] where it is assigned. *)
Definition count_end (wn0 : Z) (r : Z * Z * Z) : CMem.C (Z * option Z) :=
  let '(c, s, wn) := r in
  z ← at_end c s;
  mret (if (z : bool) then (wrap64 (wn0 - wn), None) else (ERR, None)).

Definition convert_end (wn0 : Z) (r : Z * option (Z * Z * Z)) : CMem.C (Z * option Z) :=
  match r with
  | (s, None) => mret (wn0, Some s)
  | (s, Some (c, ws, wn)) =>
      z ← at_end c s;
      if (z : bool) then store32 ws 0;; mret (wrap64 (wn0 - wn), Some 0) else mret (ERR, Some s)
  end.

(** Where MB_CUR_MAX is 1. *)
Definition convert_bytes (fuel : nat) (ws s wn : Z) : CMem.C (Z * option Z) :=
  let wn0 := wn in
  r ← loop fuel (fun '(ws, s, wn) =>
    if negb (truth wn) then mret (inr (inl s)) else
    b ← load8 s;
    if negb (truth b) then mret (inr (inr (ws, wn))) else
    store32 ws (CODEUNIT b);; mret (inl (ws + 4, s + 1, wn - 1))) (ws, s, wn);
  match r with
  | inl s => mret (wn0, Some s)
  | inr (ws, wn) => store32 ws 0;; mret (wrap64 (wn0 - wn), Some 0)
  end.

(** All of mbsrtowcs but the access to [*src]. *)
Definition convert (mb1 : bool) (fuel : nat) (ws s wn st : Z) : CMem.C (Z * option Z) :=
  c ← (if truth st then load32 st else mret 0);
  if truth c then
    if truth ws then
      store32 st 0;;
      r ← convert_from c ws s wn;
      r ← match r with inl l => loop fuel (convert_body fuel) l | inr r => mret r end;
      convert_end wn r
    else
      r ← count_from c s wn;
      r ← match r with inl l => loop fuel (count_body fuel) l | inr r => mret r end;
      count_end wn r
  else if mb1 then
    if negb (truth ws) then n ← strlen fuel s; mret (n, None) else convert_bytes fuel ws s wn
  else if negb (truth ws) then r ← loop fuel (count_body fuel) (s, wn); count_end wn r
  else r ← loop fuel (convert_body fuel) (ws, s, wn); convert_end wn r.

Definition mbsrtowcs (mb1 : bool) (fuel : nat) (ws src wn st : Z) : CMem.C Z :=
  s ← load64 src;
  '(r, v) ← convert mb1 fuel ws s wn st;
  match v with Some v => store64 src v | None => mret tt end;;
  mret r.

Definition mbstowcs (mb1 : bool) (fuel : nat) (ws s wn : Z) : CMem.C Z :=
  r ← convert mb1 fuel ws s wn 0; mret (fst r).

(** ** mbsnrtowcs *)

(** The bytes that can be read from [s], at most [n]. *)
Fixpoint readable (m : memory) (s : Z) (n : nat) : list Z :=
  match n with O => [] | S n => match m !! s with Some b => b :: readable m (s + 1) n | None => [] end end.

Section mbsnrtowcs.
(** The addresses of the local [wbuf] and of the static state of mbrtowc. *)
Variables (wbuf internal_state : Z).

Definition mbrtowc_at (mb1 : bool) (wc s n st : Z) : CMem.C Z :=
  let st := if truth st then st else internal_state in
  c ← load32 st;
  r ← (fun m => match mbrtowc mb1 (Some (readable m s (Z.to_nat n))) (Z.to_nat n) c with Some r => Some (r, m) | None => None end);
  match out r with Some x => store32 wc x | None => mret tt end;;
  store32 st (state r);;
  mret (ret r).

Definition mbsnrtowcs (mb1 : bool) (fuel : nat) (wcs src n wn st : Z) : CMem.C Z :=
  s ← load64 src;
  let '(ws, wn) := if truth wcs then (wcs, wn) else (wbuf, 256) in
  '(ws, s, n, wn, cnt) ← loop fuel (fun '(ws, s, n, wn, cnt) =>
    let n2 := n / 4 in
    if truth s && truth wn && ((wn <=? n2) || (32 <? n2)) then
      let n2 := if wn <=? n2 then wn else n2 in
      '(l, v) ← convert mb1 fuel ws s n2 st;
      let tmp_s := s in
      let s := default s v in
      if failed l then mret (inr (ws, s, n, 0, l)) else
      let '(ws, wn) := if ws =? wbuf then (ws, wn) else (ws + 4 * l, wn - l) in
      mret (inl (ws, s, if truth s then n - (s - tmp_s) else 0, wn, wrap64 (cnt + l)))
    else mret (inr (ws, s, n, wn, cnt))) (ws, s, n, wn, 0);
  '(s, cnt) ← (if negb (truth s) then mret (s, cnt) else
    loop fuel (fun '(ws, s, n, wn, cnt) =>
      if truth wn && truth n then
        l ← mbrtowc_at mb1 ws s n st;
        if wrap64 (l + 2) <=? 2 then
          if failed l then mret (inr (s, l)) else
          if negb (truth l) then mret (inr (0, cnt)) else
          store32 st 0;; mret (inr (s, cnt))
        else mret (inl (ws + 4, s + l, n - l, wn - 1, wrap64 (cnt + 1)))
      else mret (inr (s, cnt))) (ws, s, n, wn, cnt));
  (if truth wcs then store64 src s else mret tt);;
  mret cnt.
End mbsnrtowcs.
