(* ===== verification/MbStringProofs.v ===== *)
(** * MbStringProofs: converting strings to and from UTF-8

    [to_mbs] and [from_mbs] say what fits into the space given, where a
    conversion stops and why. The functions of [MbString] compute them, store
    exactly the result and leave the pointer where they stopped. *)

From Stdlib Require Import ZArith Lia Bool.
From stdpp Require Import base tactics numbers list gmap.
From S2P Require Import Prelude CMem StrScan MemBlock StrCopy StrTok StrDemo Utf8 Utf8Proofs MbString.
Open Scope Z_scope.

(** The end of the string, a character without an encoding or a malformed
    sequence, or no more space. *)
Inductive stop := End | Invalid | Full.

(** The encoding of a wide character: RFC 3629, or a byte in the C locale. *)
Definition enc (mb1 : bool) (wc : Z) : option (list Z) :=
  if mb1 then
    if (0 <=? wc) && (wc <? 0x80) then Some [wc] else if (0xdf80 <=? wc) && (wc <? 0xe000) then Some [wc - 0xdf00] else None
  else if scalarb wc then Some (encode wc) else None.

(** What is stored in [n] bytes, of how many characters. *)
Fixpoint to_mbs (mb1 : bool) (n : Z) (wl : list Z) : list Z * nat * stop :=
  if n =? 0 then ([], 0%nat, Full) else
  match wl with
  | [] => ([], 0%nat, End)
  | wc :: wl =>
      match enc mb1 wc with
      | None => ([], 0%nat, Invalid)
      | Some l => if n <? lenZ l then ([], 0%nat, Full) else let '(o, k, e) := to_mbs mb1 (n - lenZ l) wl in (l ++ o, S k, e)
      end
  end.

Lemma wcrtomb_enc mb1 wc : in_int wc -> wcrtomb mb1 wc = match enc mb1 wc with Some l => (lenZ l, l) | None => (ERR, []) end.
Proof.
  intros Hwc. destruct mb1; [|rewrite wcrtomb_correct by done; unfold enc; by destruct (scalarb wc)].
  unfold in_int in Hwc. unfold wcrtomb, enc, IS_CODEUNIT. cbn [andb].
  assert (wrap32 wc = if wc <? 0 then wc + 2 ^ 32 else wc) as E.
  { destruct (Z.ltb_spec wc 0); [|apply wrap_small; unfold in_range; lia]. unfold wrap. symmetry. apply (Z.mod_unique_pos wc (2 ^ 32) (-1)); lia. }
  rewrite E.
  assert (wrap32 ((if wc <? 0 then wc + 2 ^ 32 else wc) - 0xdf80) = if (0 <=? wc) && (wc <? 0xdf80) then wc - 0xdf80 + 2 ^ 32 else if wc <? 0 then wc + 2 ^ 32 - 0xdf80 else wc - 0xdf80) as ->.
  { destruct (Z.ltb_spec wc 0), (Z.leb_spec 0 wc), (Z.ltb_spec wc 0xdf80); cbn [andb]; try lia;
      try (apply wrap_small; unfold in_range; lia); unfold wrap; symmetry; apply (Z.mod_unique_pos _ (2 ^ 32) (-1)); lia. }
  destruct (Z.ltb_spec wc 0), (Z.leb_spec 0 wc), (Z.ltb_spec wc 0x80), (Z.ltb_spec wc 0xdf80), (Z.leb_spec 0xdf80 wc), (Z.ltb_spec wc 0xe000); cbn [andb]; try lia;
    decide_bytes; cbn [negb length]; try done; repeat f_equal; try (apply wrap_small; unfold in_range; lia).
  unfold wrap. replace wc with (wc - 0xdf00 + 223 * 2 ^ 8) at 1 by lia. rewrite Z.mod_add, Z.mod_small by lia. done.
Qed.

(** ** Writing *)

Lemma wp_store_list m p l (Q : unit -> memory -> Prop) :
  mapped m p (length l) -> Forall is_byte l -> Q tt (mem_write m p l) -> wp (store_list p l) m Q.
Proof.
  intros Hm Hb. revert m p Hm Q. induction Hb as [|b l Hb Hl IH]; intros m p Hm Q HQ; cbn [store_list]; [by apply wp_ret|].
  wp_step. wp_step; [apply Hm; simpl; lia|]. rewrite (wrap_small 8 b Hb). apply IH; [|done].
  intros q Hq. destruct (decide (q = p)) as [->|]; [rewrite lookup_insert_eq; eauto|]. rewrite lookup_insert_ne by done. apply Hm. simpl. lia.
Qed.

(** Writes to different places commute, a second write to a place prevails. *)
Lemma mem_write_comm m p l q k : disjoint_ranges p (length l) q (length k) ->
  mem_write (mem_write m p l) q k = mem_write (mem_write m q k) p l.
Proof.
  unfold disjoint_ranges. intros Hd. apply map_eq. intros a. rewrite !mem_write_lookup. repeat case_decide; (done || lia).
Qed.
Lemma mem_write_twice m p l k : length l = length k -> mem_write (mem_write m p l) p k = mem_write m p k.
Proof. intros E. apply map_eq. intros a. rewrite !mem_write_lookup, E. by case_decide. Qed.

(** ** wcsrtombs *)

Definition wide (l : list Z) : list Z := concat (le_split 4 <$> l).
Lemma length_wide l : lenZ (wide l) = 4 * lenZ l.
Proof. induction l as [|a l IH]; [done|]. change (wide (a :: l)) with (le_split 4 a ++ wide l). rewrite length_app, length_le_split. simpl length. lia. Qed.
Lemma wide_app l1 l2 : wide (l1 ++ l2) = wide l1 ++ wide l2.
Proof. unfold wide. by rewrite fmap_app, concat_app. Qed.
Lemma wide_1 a : wide [a] = le_split 4 a.
Proof. unfold wide. cbn [fmap list_fmap concat]. by rewrite app_nil_r. Qed.

(** A character of a wide string. *)
Lemma wide_at m w l k wc : bytes_at m w (wide l) -> l !! k = Some wc -> bytes_at m (w + 4 * Z.of_nat k) (le_split 4 wc).
Proof.
  intros Hb Hk. rewrite <- (take_drop_middle l k wc Hk), wide_app in Hb. apply bytes_at_app in Hb as [_ Hb]. rewrite length_wide, length_take_le in Hb.
  - change (wc :: drop (S k) l) with ([wc] ++ drop (S k) l) in Hb. rewrite wide_app, wide_1 in Hb. by apply bytes_at_app in Hb as [? _].
  - apply lookup_lt_Some in Hk. lia.
Qed.

Lemma wp_load32_split m p v (Q : Z -> memory -> Prop) : p mod 4 = 0 -> bytes_at m p (le_split 4 v) -> Q (wrap32 v) m -> wp (load32 p) m Q.
Proof. intros Ha Hb HQ. eapply wp_load_word; [done|apply length_le_split|done|]. by rewrite le_combine_split. Qed.
Lemma wp_load64_split m p v (Q : Z -> memory -> Prop) : p mod 8 = 0 -> bytes_at m p (le_split 8 v) -> 0 <= v < 2 ^ 64 -> Q v m -> wp (load64 p) m Q.
Proof. intros Ha Hb Hv HQ. eapply wp_load_word; [done|apply length_le_split|done|]. rewrite le_combine_split, wrap_small; done. Qed.

Lemma enc_bytes mb1 wc l : enc mb1 wc = Some l -> Forall is_byte l /\ (1 <= length l <= 4)%nat.
Proof.
  unfold enc. destruct mb1.
  - intros E. destruct (Z.leb_spec 0 wc), (Z.ltb_spec wc 0x80); cbn [andb] in E; [injection E as <-|..];
      try (destruct (Z.leb_spec 0xdf80 wc), (Z.ltb_spec wc 0xe000); cbn [andb] in E; [injection E as <-|done..]);
      (split; [repeat constructor; unfold in_range; lia|simpl; lia]).
  - destruct (scalarb wc) eqn:E; [|done]. intros [= <-]. apply scalarb_spec in E. split; [by apply encode_bytes|].
    unfold encode. destruct (wc <? 0x80), (wc <? 0x800), (wc <? 0x10000); simpl; lia.
Qed.

(** The test for a character that is stored as it is. *)
Lemma ascii_test mb1 wc : in_int wc -> if 0x7f <=? wrap32 (wrap32 wc - 1) then True else enc mb1 wc = Some [wc] /\ is_byte wc /\ wrap32 wc = wc /\ wc <> 0.
Proof.
  intros Hwc. unfold in_int in Hwc. destruct (Z.leb_spec 0x7f (wrap32 (wrap32 wc - 1))) as [|H]; [done|]. rewrite wrap_sub_l in H.
  assert (1 <= wc < 0x80) as Hr.
  { destruct (Z_lt_le_dec wc 1); [exfalso|rewrite wrap_small in H by (unfold in_range; lia); lia].
    assert (wrap32 (wc - 1) = wc - 1 + 2 ^ 32) as E; [|lia]. unfold wrap. symmetry. apply (Z.mod_unique_pos _ (2 ^ 32) (-1)); lia. }
  split; [|split; [unfold in_range; lia|split; [apply wrap_small; unfold in_range; lia|lia]]]. unfold enc.
  destruct mb1; [decide_bytes; done|]. rewrite (proj2 (scalarb_spec wc)) by (unfold scalar; lia). unfold encode. by decide_bytes.
Qed.

Lemma swrap_wrap32 wc : in_int wc -> swrap32 (wrap32 wc) = wc.
Proof. intros H. unfold swrap. rewrite wrap_wrap. apply swrap_small; [lia|exact H]. Qed.
Lemma truth_wrap32 wc : in_int wc -> truth (wrap32 wc) = truth wc.
Proof.
  intros H. destruct (truth wc) eqn:E.
  - apply truth_true in E. apply truth_true. intros E'. apply E. rewrite <- (swrap_wrap32 wc H), E'. done.
  - apply truth_false in E. by rewrite E.
Qed.
Lemma failed_len (l : list Z) : (length l <= 4)%nat -> failed (lenZ l) = false.
Proof. intros H. unfold failed. rewrite wrap_small by (unfold in_range; lia). by rewrite (proj2 (truth_true _)) by lia. Qed.

(** The count of a whole string, in any amount of space. *)
Lemma to_mbs_fits mb1 wl n o k : to_mbs mb1 n wl = (o, k, End) -> lenZ o < n \/ n < 0.
Proof.
  revert n o k. induction wl as [|wc wl IH]; intros n o k E; cbn [to_mbs] in E; destruct (Z.eqb_spec n 0); try done.
  - injection E as <- <-. simpl. lia.
  - destruct (enc mb1 wc) as [l|]; [|done]. destruct (Z.ltb_spec n (lenZ l)); [done|]. destruct (to_mbs mb1 (n - lenZ l) wl) as [[o' k'] e'] eqn:E'.
    injection E as <- <- ->. apply IH in E'. rewrite length_app. lia.
Qed.

Section wcsrtombs.
Context (mb1 : bool) (m : memory) (s ws w : Z) (wl : list Z) (n : nat) (fuel : nat).
Let N := Z.of_nat n.
Hypothesis Hs : s <> 0.
Hypothesis Hint : Forall in_int wl.
Hypothesis Hnz : Forall (fun wc => wc <> 0) wl.
Hypothesis Hw : bytes_at m w (wide (wl ++ [0])).
Hypothesis Hw4 : w mod 4 = 0.
Hypothesis Hwr : 0 <= w /\ w + 4 * lenZ wl + 4 <= 2 ^ 64.
Hypothesis Hws : ws mod 8 = 0.
Hypothesis Hptr : bytes_at m ws (le_split 8 w).
Hypothesis Hdst : mapped m s n.
Hypothesis D1 : disjoint_ranges s n ws 8.
Hypothesis D2 : disjoint_ranges w (4 * (length wl + 1)) s n.
Hypothesis D3 : disjoint_ranges w (4 * (length wl + 1)) ws 8.
Hypothesis Hf : N + 1 < Z.of_nat fuel.

(** Memory with the bytes [o] stored and the pointer at [p]. *)
Definition written (o : list Z) (p : Z) : memory := mem_write (mem_write m s o) ws (le_split 8 p).
Definition wchar (k : nat) : Z := w + 4 * Z.of_nat k.

Lemma written_init : written [] w = m.
Proof. unfold written. cbn [mem_write]. by apply mem_write_id. Qed.

Lemma written_list o p l (Q : unit -> memory -> Prop) : (length o + length l <= n)%nat -> Forall is_byte l ->
  Q tt (written (o ++ l) p) -> wp (store_list (s + lenZ o) l) (written o p) Q.
Proof.
  intros Hl Hb HQ. apply wp_store_list; [|done|].
  - unfold written. do 2 apply mapped_mem_write. eapply mapped_weaken; [exact Hdst|lia..].
  - unfold written in *. rewrite mem_write_comm in HQ by (rewrite length_le_split; unfold disjoint_ranges in *; rewrite length_app; lia).
    rewrite mem_write_app in HQ. rewrite (mem_write_comm m s o) by (rewrite length_le_split; unfold disjoint_ranges in *; lia). exact HQ.
Qed.

Lemma written_byte o p b (Q : unit -> memory -> Prop) : (length o + 1 <= n)%nat -> is_byte b ->
  Q tt (written (o ++ [b]) p) -> wp (store8 (s + lenZ o) b) (written o p) Q.
Proof.
  intros Hl Hb HQ. assert (Forall is_byte [b]) as Hb1 by (apply List.Forall_cons; [done|apply List.Forall_nil]).
  pose proof (written_list o p [b] Q Hl Hb1 HQ) as H. cbn [store_list] in H.
  apply wp_bind_inv in H. eapply wp_mono; [exact H|]. by intros [] m' H'.
Qed.

Lemma written_pointer o p p' (Q : unit -> memory -> Prop) : Q tt (written o p') -> wp (store64 ws p') (written o p) Q.
Proof.
  intros HQ. apply wp_store_word; [done|unfold written; apply bytes_at_mapped in Hptr; rewrite length_le_split in Hptr; by do 2 apply mapped_mem_write|].
  unfold written in *. by rewrite mem_write_twice.
Qed.

Lemma written_load o p (Q : Z -> memory -> Prop) : 0 <= p < 2 ^ 64 -> Q p (written o p) -> wp (load64 ws) (written o p) Q.
Proof.
  intros Hp HQ. apply (wp_load64_split _ _ p); [done| |done|done]. unfold written. pose proof (mem_write_bytes_at (mem_write m s o) ws (le_split 8 p)). done.
Qed.

Lemma written_wchar o p k wc (Q : Z -> memory -> Prop) : (length o <= n)%nat -> (wl ++ [0]) !! k = Some wc ->
  Q (wrap32 wc) (written o p) -> wp (load32 (wchar k)) (written o p) Q.
Proof.
  intros Ho Hk HQ. pose proof (lookup_lt_Some _ _ _ Hk) as Hl. rewrite length_app in Hl. simpl in Hl. unfold wchar. apply (wp_load32_split _ _ wc); [|unfold written|done].
  - rewrite Z.add_mod, Hw4, Z.mul_comm, Z.mod_mul by lia. done.
  - unfold disjoint_ranges in *. do 2 (apply bytes_at_mem_write_disjoint; [rewrite !length_le_split; unfold disjoint_ranges; lia|]).
    by apply (wide_at m w (wl ++ [0])).
Qed.

Lemma written_advance o k (Q : unit -> memory -> Prop) : (k < length wl)%nat -> Q tt (written o (wchar (S k))) -> wp (advance ws) (written o (wchar k)) Q.
Proof.
  intros Hk HQ. unfold advance. wp_step. apply written_load; [unfold wchar; lia|]. apply (written_pointer o (wchar k)).
  replace (wchar k + 4) with (wchar (S k)) by (unfold wchar; lia). done.
Qed.

(** Where the conversion has got to, and how it ends. *)
Definition mbs_inv (st : Z * Z) (m' : memory) : Prop :=
  exists o k, st = (s + lenZ o, N - lenZ o) /\ (length o <= n)%nat /\ m' = written o (wchar k) /\ (k <= length wl)%nat /\
    to_mbs mb1 N wl = (let '(o', k', e) := to_mbs mb1 (N - lenZ o) (drop k wl) in (o ++ o', (k + k')%nat, e)).

Definition mbs_end (r : Z) (m' : memory) : Prop :=
  let '(o, k, e) := to_mbs mb1 N wl in
  match e with
  | End => r = lenZ o /\ m' = written (o ++ [0]) 0
  | Invalid => r = ERR /\ m' = written o (wchar k)
  | Full => r = lenZ o /\ m' = written o (wchar k)
  end.

(** One character: it ends the string, is stored, or stops the conversion. *)
Lemma mbs_next o k : (length o <= n)%nat -> N - lenZ o <> 0 -> (k <= length wl)%nat ->
  to_mbs mb1 N wl = (let '(o', k', e) := to_mbs mb1 (N - lenZ o) (drop k wl) in (o ++ o', (k + k')%nat, e)) ->
  exists wc, (wl ++ [0]) !! k = Some wc /\ in_int wc /\
    if wc =? 0 then mbs_end (lenZ o) (written (o ++ [0]) 0)
    else (k < length wl)%nat /\ match enc mb1 wc with
    | None => mbs_end ERR (written o (wchar k))
    | Some l => if N - lenZ o <? lenZ l then mbs_end (lenZ o) (written o (wchar k))
                else mbs_inv (s + lenZ o + lenZ l, N - lenZ o - lenZ l) (written (o ++ l) (wchar (S k)))
    end.
Proof.
  intros Ho Hn0 Hk E. destruct (decide (k = length wl)) as [->|Hkl].
  - exists 0. rewrite lookup_app_r, Nat.sub_diag by lia. split_and!; [done|unfold in_int; lia|]. cbn [Z.eqb]. unfold mbs_end. rewrite E, drop_all. cbn [to_mbs].
    destruct (Z.eqb_spec (N - lenZ o) 0); [done|]. by rewrite app_nil_r.
  - destruct (lookup_lt_is_Some_2 wl k ltac:(lia)) as [wc Hwc]. exists wc. rewrite lookup_app_l by lia. split; [done|].
    split; [by apply (Forall_lookup_1 _ _ _ _ Hint Hwc)|]. pose proof (Forall_lookup_1 _ _ _ _ Hnz Hwc) as Hwz. cbv beta in Hwz.
    destruct (Z.eqb_spec wc 0); [done|]. split; [lia|]. rewrite (drop_S wl wc k Hwc) in E. cbn [to_mbs] in E. destruct (Z.eqb_spec (N - lenZ o) 0); [done|].
    destruct (enc mb1 wc) as [l|] eqn:El.
    + destruct (Z.ltb_spec (N - lenZ o) (lenZ l)).
      * unfold mbs_end. rewrite E. by rewrite app_nil_r, Nat.add_0_r.
      * exists (o ++ l), (S k). rewrite length_app. split_and!; [tuple_lia|lia|done|lia|]. replace (N - Z.of_nat (length o + length l)) with (N - lenZ o - lenZ l) by lia.
        rewrite E. destruct (to_mbs mb1 (N - lenZ o - lenZ l) (drop (S k) wl)) as [[o' k'] e]. by rewrite <- app_assoc, Nat.add_succ_r.
    + unfold mbs_end. rewrite E. by rewrite app_nil_r, Nat.add_0_r.
Qed.

Lemma wp_wcrtomb_at o p wc (Q : Z -> memory -> Prop) : in_int wc ->
  match enc mb1 wc with
  | Some l => (length o + length l <= n)%nat /\ Q (lenZ l) (written (o ++ l) p)
  | None => Q ERR (written o p)
  end -> wp (wcrtomb_at mb1 (s + lenZ o) wc) (written o p) Q.
Proof.
  intros Hwc HQ. unfold wcrtomb_at. rewrite (wcrtomb_enc mb1 wc Hwc). destruct (enc mb1 wc) as [l|] eqn:El.
  - destruct HQ as [Hl HQ]. wp_step. apply written_list; [done|by apply (enc_bytes _ _ _ El)|]. by wp_step.
  - wp_step. cbn [store_list]. by do 2 wp_step.
Qed.

(** What a round of one of the loops that store leaves. *)
Definition mbs_post (n0 : Z) (r : Z * Z + (Z * Z + Z)) (m' : memory) : Prop :=
  match r with
  | inl st => mbs_inv st m' /\ 0 <= snd st < n0
  | inr (inl _) => False
  | inr (inr r) => mbs_end r m'
  end.

Lemma mbs_post_next o k l : (length o <= n)%nat -> (1 <= length l <= 4)%nat -> lenZ l <= N - lenZ o ->
  mbs_inv (s + lenZ o + lenZ l, N - lenZ o - lenZ l) (written (o ++ l) (wchar (S k))) -> (k < length wl)%nat ->
  wp (advance ws;; mret (inl (s + lenZ o + lenZ l, N - lenZ o - lenZ l))) (written (o ++ l) (wchar k)) (mbs_post (N - lenZ o)).
Proof. intros Ho Hl Hle HI Hk. wp_step. apply written_advance; [done|]. wp_step. split; [done|]. simpl. lia. Qed.

Definition char_ok (o : list Z) (k : nat) (wc : Z) : Prop :=
  in_int wc /\ wc <> 0 /\ (k < length wl)%nat /\ (length o <= n)%nat /\ N - lenZ o <> 0 /\
  match enc mb1 wc with
  | None => mbs_end ERR (written o (wchar k))
  | Some l => if N - lenZ o <? lenZ l then mbs_end (lenZ o) (written o (wchar k))
              else mbs_inv (s + lenZ o + lenZ l, N - lenZ o - lenZ l) (written (o ++ l) (wchar (S k)))
  end.

(** The part the two loops share: [other] handles the characters that are not
    ASCII. *)
Lemma wp_mbs_body (other : Z -> Z -> Z -> CMem.C (Z * Z + (Z * Z + Z))) s' n' m' :
  mbs_inv (s', n') m' -> n' <> 0 ->
  (forall o k wc, n' = N - lenZ o -> char_ok o k wc -> wp (other (s + lenZ o) (N - lenZ o) (wrap32 wc)) (written o (wchar k)) (mbs_post (N - lenZ o))) ->
  wp (p ← load64 ws; x ← load32 p;
      if 0x7f <=? wrap32 (x - 1) then
        if negb (truth x) then finish_mbs s' ws (N - n') else other s' n' x
      else store8 s' x;; advance ws;; mret (inl (s' + 1, n' - 1))) m' (mbs_post n').
Proof.
  intros (o & k & [= -> ->] & Ho & -> & Hk & E) Hn0 Hother.
  destruct (mbs_next o k Ho Hn0 Hk E) as (wc & Hwc & Hi & Hnext).
  wp_step. apply written_load; [unfold wchar; lia|]. wp_step. apply (written_wchar _ _ k wc); [done|done|].
  pose proof (ascii_test mb1 wc Hi) as Hasc. destruct (0x7f <=? wrap32 (wrap32 wc - 1)).
  - rewrite truth_wrap32 by done. unfold truth. rewrite negb_involutive. destruct (Z.eqb_spec wc 0) as [->|Hwz].
    + unfold finish_mbs. wp_step. apply written_byte; [lia|unfold in_range; lia|]. wp_step. apply (written_pointer _ (wchar k)). wp_step.
      unfold mbs_post. by replace (N - (N - lenZ o)) with (lenZ o) by lia.
    + destruct Hnext as [Hkl Hnext]. by apply Hother.
  - destruct Hasc as (El & Hb & -> & Hwz). destruct (Z.eqb_spec wc 0); [done|]. destruct Hnext as [Hkl Hnext]. rewrite El in Hnext.
    destruct (Z.ltb_spec (N - lenZ o) (lenZ [wc])); [simpl length in *; lia|]. wp_step. apply written_byte; [simpl length in *; lia|done|].
    exact (mbs_post_next o k [wc] Ho ltac:(simpl; lia) ltac:(assumption) Hnext Hkl).
Qed.

Lemma wp_wcsrtombs : wp (wcsrtombs mb1 fuel s ws N) m mbs_end.
Proof.
  unfold wcsrtombs. destruct (Z.eqb_spec s 0); [done|]. wp_step. fold N.
  assert (mbs_inv (s, N) m) as Hinit.
  { exists [], 0%nat. rewrite drop_0. change (lenZ []) with 0. rewrite !Z.add_0_r, !Z.sub_0_r. split_and!; [done|simpl; lia| |lia|by destruct (to_mbs mb1 N wl) as [[? ?] ?]].
    unfold wchar. rewrite Z.add_0_r. symmetry. exact written_init. }
  apply (wp_mono _ _ (fun r m' => match r with inl st => mbs_inv st m' /\ 0 <= snd st < 4 | inr r => mbs_end r m' end)).
  - apply (wp_loop (fun st m' => mbs_inv st m' /\ 0 <= snd st) (fun st => Z.to_nat (snd st))); [|split; [done|simpl; lia]|simpl; lia].
    intros [s' n'] m' [HI Hn']. cbn [snd] in *. destruct (Z.leb_spec 4 n') as [H4|H4]; [|wp_step; split; [done|simpl; lia]].
    eapply wp_mono; [apply (wp_mbs_body (fun s' n' x => l ← wcrtomb_at mb1 s' (swrap32 x); if failed l then mret (inr (inr ERR)) else advance ws;; mret (inl (s' + l, n' - l)))); [done|lia|]|].
    + intros o k wc -> (Hi & Hwz & Hk & Ho & Hn0 & Hok). rewrite swrap_wrap32 by done. wp_step. apply wp_wcrtomb_at; [done|].
      destruct (enc mb1 wc) as [l|] eqn:El; [|by change (failed ERR) with true; wp_step].
      destruct (enc_bytes _ _ _ El) as [Hb Hl]. destruct (Z.ltb_spec (N - lenZ o) (lenZ l)); [lia|]. split; [lia|].
      rewrite failed_len by lia. by apply mbs_post_next.
    + intros [st|[st|r]] m1; cbn [mbs_post]; [intros [? ?]; split; [split; [done|lia]|lia]|done..].
  - intros [[s' n']|r] m' Hr; [|by wp_step]. destruct Hr as [HI Hn']. cbn [snd] in Hn'. wp_step.
    apply (wp_mono _ _ (fun r m' => match r with inl st => mbs_inv st m' /\ snd st = 0 | inr r => mbs_end r m' end)).
    + apply (wp_loop (fun st m' => mbs_inv st m' /\ 0 <= snd st) (fun st => Z.to_nat (snd st))); [|split; [done|simpl; lia]|].
      2: { destruct HI as (o & k & [= -> ->] & _). simpl. lia. }
      clear s' n' m' HI Hn'. intros [s' n'] m' [HI Hn']. cbn [snd] in *. destruct (truth n') eqn:Hn0; [apply truth_true in Hn0|apply truth_false in Hn0; by wp_step].
      eapply wp_mono; [apply (wp_mbs_body (fun s' n' x => let l := fst (wcrtomb mb1 (swrap32 x)) in if failed l then mret (inr (inr ERR)) else
        if n' <? l then mret (inr (inr (N - n'))) else wcrtomb_at mb1 s' (swrap32 x);; advance ws;; mret (inl (s' + l, n' - l)))); [done|lia|]|].
      * intros o k wc -> (Hi & Hwz & Hk & Ho & _ & Hok). rewrite swrap_wrap32 by done. cbv zeta. rewrite (wcrtomb_enc mb1 wc Hi).
        destruct (enc mb1 wc) as [l|] eqn:El; cbn [fst]; [|by change (failed ERR) with true; wp_step].
        destruct (enc_bytes _ _ _ El) as [Hb Hl]. rewrite failed_len by lia. destruct (Z.ltb_spec (N - lenZ o) (lenZ l)).
        { wp_step. unfold mbs_post. by replace (N - (N - lenZ o)) with (lenZ o) by lia. }
        wp_step. apply wp_wcrtomb_at; [done|]. rewrite El. split; [lia|]. by apply mbs_post_next.
      * intros [st|[st|r]] m1; cbn [mbs_post]; [intros [? ?]; split; [split; [done|lia]|lia]|done..].
    + intros [[s2 n2]|r] m2; [|intros Hr; by wp_step]. intros [(o & k & [= -> ->] & Ho & -> & Hk & E) Hz]. cbn [snd] in Hz. wp_step.
      unfold mbs_end. rewrite E. rewrite Hz. assert (to_mbs mb1 0 (drop k wl) = ([], 0%nat, Full)) as -> by (by destruct (drop k wl)).
      rewrite app_nil_r, Nat.add_0_r. split; [lia|done].
Qed.
End wcsrtombs.

(** ** From multibyte strings *)

(** The characters read into [wn] places, how many bytes they were, and why
    the conversion stopped. *)
Fixpoint from_mbs (wn : nat) (l : list Z) : list Z * Z * stop :=
  match wn with
  | O => ([], 0, Full)
  | S wn =>
      match classify l with
      | Done wc k => if wc =? 0 then ([], 0, End) else let '(o, j, e) := from_mbs wn (drop k l) in (wc :: o, Z.of_nat k + j, e)
      | _ => ([], 0, Invalid)
      end
  end.

(** The same after the bytes [q] of an unfinished character. *)
Definition from_state (q : list Z) (wn : nat) (l : list Z) : list Z * Z * stop :=
  match q with
  | [] => from_mbs wn l
  | _ =>
      match classify (q ++ l) with
      | Done wc k => let '(o, j, e) := from_mbs (wn - 1) (drop (k - length q) l) in (wc :: o, Z.of_nat (k - length q) + j, e)
      | _ => ([], -1, Invalid)
      end
  end.

Lemma from_mbs_step wn o (l : list Z) j wc k :
  classify (drop j l) = Done wc k -> wc <> 0 -> (length o < wn)%nat ->
  (let '(o', j', e) := from_mbs (wn - length o) (drop j l) in (o ++ o', Z.of_nat j + j', e)) =
  (let '(o', j', e) := from_mbs (wn - length (o ++ [wc])) (drop (j + k) l) in ((o ++ [wc]) ++ o', Z.of_nat (j + k) + j', e)).
Proof.
  intros Hc Hwc Ho. replace (wn - length o)%nat with (S (wn - length (o ++ [wc]))) by (rewrite length_app; simpl; lia). cbn [from_mbs].
  rewrite Hc. destruct (Z.eqb_spec wc 0); [done|]. rewrite drop_drop. destruct (from_mbs _ (drop (j + k) l)) as [[o' j'] e].
  rewrite <- app_assoc. apply f_equal2; [|done]. apply f_equal2; [done|lia].
Qed.

Lemma encode_nonzero wc : scalar wc -> wc <> 0 -> Forall (fun b => b <> 0) (encode wc).
Proof.
  intros Hs Hwc. assert (0 <= wc) as H0 by (unfold scalar in Hs; lia). unfold encode.
  pose proof (Z.mod_pos_bound wc 64 ltac:(lia)). pose proof (Z.mod_pos_bound (wc / 64) 64 ltac:(lia)). pose proof (Z.mod_pos_bound (wc / 4096) 64 ltac:(lia)).
  pose proof (Z.div_pos wc 64 H0 ltac:(lia)). pose proof (Z.div_pos wc 4096 H0 ltac:(lia)). pose proof (Z.div_pos wc 262144 H0 ltac:(lia)).
  decide_bytes; repeat (apply List.Forall_cons; [cbv beta; lia|]); apply List.Forall_nil.
Qed.

Lemma classify_nonzeros l wc k : Forall is_byte l -> classify l = Done wc k -> wc <> 0 -> Forall (fun b => b <> 0) (take k l).
Proof.
  intros Hb Hc Hwc. destruct (classify_done l wc k) as (Hs & E & _); [|done|].
  { eapply Forall_impl; [exact Hb|]. unfold in_range. lia. }
  rewrite E. by apply encode_nonzero.
Qed.

(** Bytes enough for [wn] characters, or a NUL whose word is readable. *)
Definition enough (s : Z) (wn : Z) (l : list Z) : Prop :=
  4 * wn <= lenZ l \/ exists k, l !! k = Some 0 /\ 4 * ((s + Z.of_nat k) / 4 + 1) <= s + lenZ l.

Lemma enough_nonempty s wn l : enough s wn l -> 0 < wn -> exists b l', l = b :: l'.
Proof. intros [H|(k & H & _)] Hw; destruct l as [|b l']; try done; [simpl in H; lia|eauto|eauto]. Qed.

Lemma enough_word s wn l : enough s wn l -> s mod 4 = 0 -> 5 <= wn -> (4 <= length l)%nat.
Proof.
  intros [H|(k & _ & H)] Ha Hw; [lia|]. pose proof (Z.div_mod s 4 ltac:(lia)). pose proof (Z.div_le_mono s (s + Z.of_nat k) 4 ltac:(lia)). lia.
Qed.

Lemma enough_drop s wn l wc k : Forall is_byte l -> enough s wn l -> classify l = Done wc k -> wc <> 0 -> enough (s + Z.of_nat k) (wn - 1) (drop k l).
Proof.
  intros Hb He Hc Hwc. pose proof (classify_len _ _ _ Hc) as Hk. destruct He as [H|(i & Hi & H)].
  - left. rewrite length_drop. assert (k <= 4)%nat; [|lia]. destruct (classify_done l wc k) as (_ & _ & ->); [|done|].
    { eapply Forall_impl; [exact Hb|]. unfold in_range. lia. }
    unfold encode. destruct (wc <? 0x80), (wc <? 0x800), (wc <? 0x10000); simpl; lia.
  - right. assert (k <= i)%nat as Hki.
    { destruct (decide (k <= i)%nat) as [|Hn]; [done|exfalso]. pose proof (classify_nonzeros l wc k Hb Hc Hwc) as Hnz.
      assert (take k l !! i = Some 0) as E by (rewrite lookup_take_lt by lia; done). by apply (Forall_lookup_1 _ _ _ _ Hnz E). }
    exists (i - k)%nat. rewrite lookup_drop, length_drop. replace (k + (i - k))%nat with i by lia. split; [done|].
    replace (s + Z.of_nat k + Z.of_nat (i - k)) with (s + Z.of_nat i) by lia. apply lookup_lt_Some in Hi. lia.
Qed.

(** With enough bytes no character is unfinished. *)
Lemma classify_more_short l : classify l = More -> (length l < 4)%nat /\ 0 ∉ l.
Proof.
  intros H. destruct (decide (l = [])) as [->|Hl]; [split; [simpl; lia|set_solver]|].
  destruct (unfinished l Hl H) as [(b0 & -> & H0)|[(b0 & b1 & -> & H0 & Hs)|(b0 & b1 & b2 & -> & H0 & Hs & H2)]].
  - split; [simpl; lia|]. rewrite list_elem_of_singleton. lia.
  - apply second_tail, tail_range in Hs. split; [simpl; lia|]. rewrite !elem_of_cons, elem_of_nil. lia.
  - apply second_tail, tail_range in Hs. apply tail_range in H2. split; [simpl; lia|]. rewrite !elem_of_cons, elem_of_nil. lia.
Qed.

Lemma enough_decides s wn q l : enough s wn l -> 0 < wn -> classify (q ++ l) <> More.
Proof.
  intros He Hw H. apply classify_more_short in H as [Hlen H0]. rewrite length_app in Hlen. destruct He as [He|(k & Hk & _)]; [lia|].
  apply H0. apply elem_of_app. right. by apply list_elem_of_lookup_2 in Hk.
Qed.

(** The test of four bytes at once. *)
Lemma byte_mask7 b : 1 <= b < 256 -> (Z.land (Z.lor b (b - 1)) 128 = 0 <-> b < 128).
Proof.
  intros Hb. assert (forallb (fun i => Bool.eqb (Z.land (Z.lor i (i - 1)) 128 =? 0) (i <? 128)) (seqZ 1 255) = true) as H by (vm_compute; reflexivity).
  pose proof (bytes_all _ _ _ H b ltac:(lia)) as E. cbv beta in E. apply eqb_prop in E. rewrite <- Z.eqb_eq, E. apply Z.ltb_lt.
Qed.

Lemma ascii_combine l : Forall is_byte l ->
  Z.land (Z.lor (le_combine l) (le_combine l - rep (length l) 1)) (rep (length l) 128) = 0 <-> Forall (fun b => 1 <= b < 128) l.
Proof.
  induction 1 as [|b l Hb Hl IH]; [split; [constructor|done]|]. cbn [le_combine rep length]. set (y := le_combine l) in *. set (o := rep (length l) 1) in *.
  unfold in_range in Hb. change (2 ^ 8) with 256 in Hb.
  assert (0 <= rep (length l) 128) as Hrep by (clear; induction (length l) as [|k IH]; cbn [rep]; lia).
  rewrite Forall_cons. destruct (decide (b = 0)) as [->|Hnz].
  - replace (0 + 256 * y - (1 + 256 * o)) with (255 + 256 * (y - o - 1)) by lia.
    rewrite lor_split, land_split by (lia || (split; vm_compute; done)). change (Z.land (Z.lor 0 255) 128) with 128.
    assert (0 <= Z.land (Z.lor y (y - o - 1)) (rep (length l) 128)) by (apply Z.land_nonneg; by right). lia.
  - replace (b + 256 * y - (1 + 256 * o)) with ((b - 1) + 256 * (y - o)) by lia. pose proof (byte_mask7 b ltac:(lia)) as Hm.
    assert (0 <= Z.lor b (b - 1) < 256) as Hlor by (change 256 with (2 ^ 8); apply lor_in_range; unfold in_range; lia).
    rewrite lor_split, land_split by lia.
    assert (0 <= Z.land (Z.lor y (y - o)) (rep (length l) 128)) by (apply Z.land_nonneg; by right).
    assert (0 <= Z.land (Z.lor b (b - 1)) 128) by (apply Z.land_nonneg; by right). rewrite <- IH. lia.
Qed.

Lemma ascii4_spec l : length l = 4%nat -> Forall is_byte l -> ascii4 (le_combine l) = true <-> Forall (fun b => 1 <= b < 0x80) l.
Proof.
  intros Hl Hb. unfold ascii4, truth. rewrite negb_involutive, Z.eqb_eq, <- (ascii_combine l Hb), Hl.
  change 0x01010101 with (rep 4 1). change 0x80808080 with (rep 4 128).
  assert (Z.land (Z.lor (le_combine l) (wrap32 (le_combine l - rep 4 1))) (rep 4 128) = Z.land (Z.lor (le_combine l) (le_combine l - rep 4 1)) (rep 4 128)) as ->; [|done].
  apply Z.bits_inj'. intros i Hi. rewrite !Z.land_spec, !Z.lor_spec. unfold wrap. destruct (Z.ltb_spec i 32).
  - by rewrite Z.mod_pow2_bits_low by lia.
  - replace (Z.testbit (rep 4 128) i) with false; [by rewrite !andb_false_r|]. symmetry. apply Z.bits_above_log2; [vm_compute; done|].
    change (Z.log2 (rep 4 128)) with 31. lia.
Qed.

(** ** A character continued *)

Definition next_ok (q : list Z) (b : Z) : bool := match q with [b0] => second b0 b | _ => tail b end.

Lemma pack_snoc q b : q <> [] -> pack (q ++ [b]) = shift_in (pack q) b.
Proof. intros Hq. destruct q as [|b0 q]; [done|]. cbn [app pack]. by rewrite foldl_app. Qed.

Lemma pack_nonzero q : q <> [] -> classify q = More -> pack q <> 0.
Proof. intros Hq Hm. by apply (more_run 0 q []). Qed.

(** The test of the first continuation byte. *)
Lemma oob_next q b : q <> [] -> classify q = More -> is_byte b -> truth (OOB (pack q) b) = negb (next_ok q b).
Proof.
  intros Hq Hm Hb. destruct (unfinished q Hq Hm) as [(b0 & -> & H0)|[(b0 & b1 & -> & H0 & Hs)|(b0 & b1 & b2 & -> & H0 & Hs & H2)]]; cbn [next_ok].
  - by apply oob_second.
  - apply second_tail in Hs. apply oob_tail; [|done]. rewrite pack_2 by (done || lia). apply tail_range in Hs.
    destruct (Z.ltb_spec b0 0xe0), (Z.ltb_spec b0 0xf0); lia.
  - apply second_tail in Hs. apply oob_tail; [|done]. rewrite pack_3 by (done || lia). apply tail_range in Hs, H2. destruct (Z.ltb_spec b0 0xf0); lia.
Qed.

(** One more byte: malformed, the end of the character, or not yet. *)
Lemma one_more q b : q <> [] -> classify q = More ->
  if next_ok q b then
    if more (pack (q ++ [b])) then classify (q ++ [b]) = More else forall l, classify (q ++ b :: l) = Done (pack (q ++ [b])) (S (length q))
  else forall l, classify (q ++ b :: l) = Bad.
Proof.
  intros Hq Hm. destruct (unfinished q Hq Hm) as [(b0 & -> & H0)|[(b0 & b1 & -> & H0 & Hs)|(b0 & b1 & b2 & -> & H0 & Hs & H2)]]; cbn [next_ok app].
  - destruct (second b0 b) eqn:Hs; [|intros l; unfold classify; rewrite Hs; by decide_bytes]. pose proof (second_tail _ _ Hs) as H1.
    rewrite more_2 by done. destruct (Z.ltb_spec b0 0xe0); cbn [negb].
    + intros l. unfold classify. rewrite Hs, pack_2 by done. by decide_bytes.
    + unfold classify. rewrite Hs. by decide_bytes.
  - pose proof (second_tail _ _ Hs) as H1. destruct (tail b) eqn:H2; [|intros l; unfold classify; rewrite Hs, H2; by decide_bytes].
    rewrite more_3 by (done || lia). destruct (Z.ltb_spec b0 0xf0); cbn [negb].
    + intros l. unfold classify. rewrite Hs, H2, pack_3 by (done || lia). by decide_bytes.
    + unfold classify. rewrite Hs, H2. by decide_bytes.
  - pose proof (second_tail _ _ Hs) as H1. destruct (tail b) eqn:H3; [|intros l; unfold classify; rewrite Hs, H2, H3; by decide_bytes].
    rewrite pack_4 by done. apply tail_range in H1. pose proof H2 as R2. pose proof H3 as R3. apply tail_range in R2, R3.
    rewrite more_spec by lia. destruct (Z.leb_spec (2 ^ 31) ((((b0 - 0xf0) * 64 + (b1 - 0x80)) * 64 + (b2 - 0x80)) * 64 + (b - 0x80))); [lia|].
    intros l. unfold classify. rewrite Hs, H2, H3. by decide_bytes.
Qed.

(** What becomes of a character of which [q] has been read; a failure leaves
    the pointer at [f]. *)
Definition resumed (q l : list Z) (s f : Z) (r : bool * Z * Z) : Prop :=
  match classify (q ++ l) with
  | Done wc k => r = (true, wc, s + Z.of_nat (k - length q))
  | _ => exists c, r = (false, c, f) /\ c <> 0
  end.

Lemma more_longer x l wc k : x <> [] -> classify x = More -> classify (x ++ l) = Done wc k -> (length x < k)%nat.
Proof.
  intros Hx Hm H. destruct l as [|b l]; [rewrite app_nil_r in H; congruence|]. pose proof (one_more x b Hx Hm) as Ho.
  destruct (next_ok x b); [|by rewrite Ho in H]. destruct (more (pack (x ++ [b]))) eqn:E; [|rewrite Ho in H; injection H as _ <-; lia].
  assert (x ++ [b] <> []) as Hx' by (by destruct x). replace (x ++ b :: l) with ((x ++ [b]) ++ l) in H by (by rewrite <- app_assoc).
  destruct (decide (length x < k)%nat) as [|Hn]; [done|exfalso].
  destruct (unfinished (x ++ [b]) Hx' Ho) as [(b0 & Ex & ?)|[(b0 & b1 & Ex & ? & Hs)|(b0 & b1 & b2 & Ex & ? & Hs & H2)]];
    rewrite Ex in H; cbn [app] in H; unfold classify in H; rewrite ?Hs, ?H2 in H; cbn [negb] in H;
    apply (f_equal length) in Ex; rewrite length_app in Ex; simpl in Ex; destruct l as [|b3 [|b4 [|b5 l]]]; decide_in H;
    repeat match type of H with context [if ?c then _ else _] => destruct c; try discriminate H end; injection H as _ <-; lia.
Qed.

Lemma resumed_cons q b l s f r : classify (q ++ [b]) = More -> resumed (q ++ [b]) l (s + 1) f r -> resumed q (b :: l) s f r.
Proof.
  unfold resumed. intros Hm H. rewrite <- app_assoc in H. cbn [app] in H. destruct (classify (q ++ b :: l)) as [wc k| |] eqn:E; [|done|done].
  rewrite H. rewrite length_app. cbn [length]. f_equal. assert (length (q ++ [b]) < k)%nat as Hk; [|rewrite length_app in Hk; simpl in Hk; lia].
  apply (more_longer (q ++ [b]) l wc); [by destruct q|done|]. by rewrite <- app_assoc.
Qed.

Section resume.
Context (m : memory).

(** One round of [resume], with any test that says what [next_ok] says. *)
Lemma wp_resume_byte q l s f (test : Z -> bool) (K : Z -> Z -> CMem.C (bool * Z * Z)) :
  q <> [] -> classify q = More -> Forall is_byte l -> bytes_at m s l -> classify (q ++ l) <> More ->
  (forall b, is_byte b -> test b = negb (next_ok q b)) ->
  (forall b l', l = b :: l' -> classify (q ++ [b]) = More -> wp (K (pack (q ++ [b])) (s + 1)) m (fun r m' => m' = m /\ resumed (q ++ [b]) l' (s + 1) f r)) ->
  wp (b ← load8 s;
      if test b then mret (false, pack q, f) else
      let c := shift_in (pack q) b in let s := s + 1 in
      if negb (more c) then mret (true, c, s) else K c s) m (fun r m' => m' = m /\ resumed q l s f r).
Proof.
  intros Hq Hm Hb Hl Hd Htest HK. destruct l as [|b l]; [by rewrite app_nil_r in Hd|]. destruct Hl as [Hmb Hl].
  pose proof (Forall_inv Hb) as Hbb. cbv beta in Hbb. wp_step. wp_step; [done|]. rewrite Htest by done. cbv zeta. rewrite <- pack_snoc by done.
  pose proof (one_more q b Hq Hm) as Ho. destruct (next_ok q b); cbn [negb].
  - destruct (more (pack (q ++ [b]))) eqn:Em; cbn [negb].
    + eapply wp_mono; [by apply HK|]. intros r m' [-> Hr]. split; [done|]. by apply resumed_cons.
    + wp_step. split; [done|]. unfold resumed. rewrite Ho. f_equal. lia.
  - wp_step. split; [done|]. unfold resumed. rewrite Ho. exists (pack q). split; [done|by apply pack_nonzero].
Qed.

Lemma tail_test q b : (2 <= length q)%nat -> is_byte b -> not_tail_byte b = negb (next_ok q b).
Proof. intros Hq Hb. unfold not_tail_byte. rewrite not_tail by done. by destruct q as [|? [|? ?]]; simpl in Hq; [lia|lia|]. Qed.

Lemma wp_resume q l s : q <> [] -> classify q = More -> Forall is_byte l -> bytes_at m s l -> classify (q ++ l) <> More ->
  wp (resume (pack q) s) m (fun r m' => m' = m /\ resumed q l s (s - 1) r).
Proof.
  intros Hq Hm Hb Hl Hd. apply (wp_resume_byte q l s (s - 1) (fun b => truth (OOB (pack q) b)) resume2); try done; [intros; by apply oob_next|].
  intros b1 l1 -> Hm1. assert (q ++ [b1] <> []) as Hq1 by (by destruct q). assert (1 <= length q)%nat as Hlen by (destruct q; [done|simpl; lia]).
  apply Forall_inv_tail in Hb. destruct Hl as [_ Hl]. replace (q ++ b1 :: l1) with ((q ++ [b1]) ++ l1) in Hd by (by rewrite <- app_assoc).
  replace (s - 1) with (s + 1 - 2) by lia. apply (wp_resume_byte (q ++ [b1]) l1 (s + 1) (s + 1 - 2) not_tail_byte resume3); try done; [intros; apply tail_test; [rewrite length_app; simpl; lia|done]|].
  intros b2 l2 -> Hm2. set (q2 := (q ++ [b1]) ++ [b2]) in *. assert (3 <= length q2)%nat as Hl2 by (unfold q2; rewrite !length_app; simpl; lia).
  apply Forall_inv_tail in Hb. destruct Hl as [_ Hl]. replace ((q ++ [b1]) ++ b2 :: l2) with (q2 ++ l2) in Hd by (unfold q2; by rewrite <- app_assoc).
  assert (q2 <> []) as Hq2 by (intros E; rewrite E in Hl2; simpl in Hl2; lia).
  destruct l2 as [|b3 l3]; [by rewrite app_nil_r in Hd|]. destruct Hl as [Hmb _]. pose proof (Forall_inv Hb) as Hb3. cbv beta in Hb3.
  unfold resume3. wp_step. wp_step; [done|]. rewrite (tail_test q2) by (done || lia). pose proof (one_more q2 b3 Hq2 Hm2) as Ho. destruct (next_ok q2 b3); cbn [negb]; wp_step; (split; [done|]).
  - assert (more (pack (q2 ++ [b3])) = false) as Em.
    { destruct (more (pack (q2 ++ [b3]))); [|done]. apply classify_more_short in Ho as [Ho _]. rewrite length_app in Ho. simpl in Ho. lia. }
    rewrite Em in Ho. unfold resumed. rewrite Ho, pack_snoc by done. f_equal. lia.
  - unfold resumed. rewrite Ho. exists (pack q2). split; [f_equal; lia|by apply pack_nonzero].
Qed.

End resume.

(** The tests of [resume0], on the state that is not shifted. *)
Lemma truth_bit z k : 0 <= k -> truth (Z.land z (Z.shiftl 1 k)) = Z.testbit z k.
Proof. intros Hk. rewrite Z.shiftl_1_l, land_pow2 by done. destruct (Z.testbit z k); [|done]. apply truth_true. pose proof (Z.pow_pos_nonneg 2 k). lia. Qed.

Lemma bit_of z k a r : 0 <= k -> z = a * 2 ^ k + r -> 0 <= r < 2 ^ k -> Z.testbit z k = Z.odd a.
Proof.
  intros Hk -> Hr. rewrite Z.testbit_odd, Z.shiftr_div_pow2, Z.div_add_l by lia. by rewrite Z.div_small, Z.add_0_r by done.
Qed.

Lemma bit25 q b : q <> [] -> classify q = More -> next_ok q b = true -> truth (Z.land (pack q) (Z.shiftl 1 25)) = more (pack (q ++ [b])).
Proof.
  intros Hq Hm. rewrite truth_bit by done.
  destruct (unfinished q Hq Hm) as [(b0 & -> & H0)|[(b0 & b1 & -> & H0 & Hs)|(b0 & b1 & b2 & -> & H0 & Hs & H2)]]; cbn [next_ok app]; intros Hn.
  - apply second_tail in Hn. rewrite more_2 by done.
    assert (forallb (fun b0 => Bool.eqb (Z.testbit (pack [b0]) 25) (negb (b0 <? 0xe0))) (seqZ 0xc2 51) = true) as H by (vm_compute; reflexivity).
    apply eqb_prop. by apply (bytes_all _ _ _ H b0); lia.
  - apply second_tail in Hs. rewrite more_3, pack_2 by (done || lia). apply tail_range in Hs. destruct (Z.ltb_spec b0 0xe0), (Z.ltb_spec b0 0xf0); try lia; cbn [negb].
    + by rewrite (bit_of _ 25 96 ((b0 - 0xe0) * 64 + (b1 - 0x80))) by lia.
    + by rewrite (bit_of _ 25 97 (0x1000000 + ((b0 - 0xf0) * 64 + (b1 - 0x80)))) by lia.
  - apply second_tail in Hs. rewrite pack_3, pack_4 by (done || lia). apply tail_range in Hs, H2, Hn. destruct (Z.ltb_spec b0 0xf0); [lia|].
    rewrite (bit_of _ 25 96 (((b0 - 0xf0) * 64 + (b1 - 0x80)) * 64 + (b2 - 0x80))) by lia. rewrite more_spec by lia.
    symmetry. apply Z.leb_gt. lia.
Qed.

Lemma bit19 q b b' : q <> [] -> classify q = More -> next_ok q b = true -> classify (q ++ [b]) = More -> tail b' = true ->
  truth (Z.land (pack q) (Z.shiftl 1 19)) = more (pack ((q ++ [b]) ++ [b'])).
Proof.
  intros Hq Hm. rewrite truth_bit by done.
  destruct (unfinished q Hq Hm) as [(b0 & -> & H0)|[(b0 & b1 & -> & H0 & Hs)|(b0 & b1 & b2 & -> & H0 & Hs & H2)]]; cbn [next_ok app]; intros Hn Hm2 Ht.
  - assert (0xe0 <= b0) as H1 by (unfold classify in Hm2; rewrite Hn in Hm2; decide_in Hm2; lia). apply second_tail in Hn. rewrite more_3 by (done || lia).
    assert (forallb (fun b0 => Bool.eqb (Z.testbit (pack [b0]) 19) (negb (b0 <? 0xf0))) (seqZ 0xe0 21) = true) as H by (vm_compute; reflexivity).
    apply eqb_prop. by apply (bytes_all _ _ _ H b0); lia.
  - assert (0xf0 <= b0) as H1 by (unfold classify in Hm2; rewrite Hs, Hn in Hm2; cbn [negb] in Hm2; decide_in Hm2; lia).
    apply second_tail in Hs. rewrite pack_2, pack_4 by (done || lia). apply tail_range in Hs, Ht, Hn. destruct (Z.ltb_spec b0 0xe0), (Z.ltb_spec b0 0xf0); try lia.
    rewrite (bit_of _ 19 6240 ((b0 - 0xf0) * 64 + (b1 - 0x80))) by lia. rewrite more_spec by lia. symmetry. apply Z.leb_gt. lia.
  - by apply classify_more_short in Hm2 as [Hlen _]; simpl in Hlen; lia.
Qed.

Definition skipped (q l : list Z) (s f : Z) (r : bool * Z) : Prop :=
  match classify (q ++ l) with Done wc k => r = (true, s + Z.of_nat (k - length q)) | _ => r = (false, f) end.

Lemma wp_resume0 m q l s : q <> [] -> classify q = More -> Forall is_byte l -> bytes_at m s l -> classify (q ++ l) <> More ->
  wp (resume0 (pack q) s) m (fun r m' => m' = m /\ skipped q l s (s - 1) r).
Proof.
  intros Hq Hm Hb Hl Hd. unfold resume0, skipped. destruct l as [|b1 l1]; [by rewrite app_nil_r in Hd|].
  pose proof (Forall_inv Hb) as Hb1. cbv beta in Hb1. apply Forall_inv_tail in Hb. destruct Hl as [Hm1 Hl].
  wp_step. wp_step; [done|]. rewrite oob_next by done. pose proof (one_more q b1 Hq Hm) as Ho. pose proof (bit25 q b1 Hq Hm) as H25. pose proof (bit19 q b1) as H19.
  destruct (next_ok q b1); cbn [negb]; [|wp_step; split; [done|]; by rewrite Ho]. rewrite H25 by done.
  destruct (more (pack (q ++ [b1]))); cbn [negb]; [|wp_step; split; [done|]; rewrite Ho; f_equal; lia].
  set (q1 := q ++ [b1]) in *. assert (2 <= length q1)%nat as Hl1 by (unfold q1; rewrite length_app; destruct q; simpl; [done|lia]).
  assert (q1 <> []) as Hq1 by (intros E; rewrite E in Hl1; simpl in Hl1; lia). replace (q ++ b1 :: l1) with (q1 ++ l1) in * by (unfold q1; by rewrite <- app_assoc).
  destruct l1 as [|b2 l2]; [by rewrite app_nil_r in Hd|]. pose proof (Forall_inv Hb) as Hb2. cbv beta in Hb2. apply Forall_inv_tail in Hb. destruct Hl as [Hm2 Hl].
  wp_step. wp_step; [done|]. rewrite (tail_test q1) by done. pose proof (one_more q1 b2 Hq1 Ho) as Ho2.
  assert (next_ok q1 b2 = tail b2) as En by (destruct q1 as [|? [|? ?]]; simpl in Hl1; [lia|lia|done]). rewrite En in *.
  destruct (tail b2) eqn:Ht2; cbn [negb]; [|wp_step; split; [done|]; rewrite Ho2; f_equal; lia]. rewrite (H19 b2) by done.
  assert (length q + 1 = length q1)%nat as Elen by (unfold q1; rewrite length_app; done).
  destruct (more (pack (q1 ++ [b2]))); cbn [negb]; [|wp_step; split; [done|]; rewrite Ho2; f_equal; lia].
  set (q2 := q1 ++ [b2]) in *. assert (length q1 + 1 = length q2)%nat as Elen2 by (unfold q2; rewrite length_app; done).
  assert (q2 <> []) as Hq2 by (intros E; rewrite E in Elen2; simpl in Elen2; lia). replace (q1 ++ b2 :: l2) with (q2 ++ l2) in * by (unfold q2; by rewrite <- app_assoc).
  destruct l2 as [|b3 l3]; [by rewrite app_nil_r in Hd|]. pose proof (Forall_inv Hb) as Hb3. cbv beta in Hb3. destruct Hl as [Hm3 _].
  wp_step. wp_step; [done|]. rewrite (tail_test q2) by (done || lia). pose proof (one_more q2 b3 Hq2 Ho2) as Ho3.
  destruct (next_ok q2 b3); cbn [negb]; wp_step; (split; [done|]); [|rewrite Ho3; f_equal; lia].
  destruct (more (pack (q2 ++ [b3]))); [|rewrite Ho3; f_equal; lia]. apply classify_more_short in Ho3 as [Ho3 _]. rewrite length_app in Ho3. simpl in Ho3. lia.
Qed.
