(* ===== verification/MbStringMain.v ===== *)
(** * MbStringMain: the string conversions

    The loops of mbsrtowcs, the theorems of both directions, and the round
    trip. *)

From Stdlib Require Import ZArith Lia Bool.
From stdpp Require Import base tactics numbers list gmap.
From S2P Require Import Prelude CMem StrScan MemBlock StrCopy StrTok StrDemo Utf8 Utf8Proofs MbString MbStringProofs.
Open Scope Z_scope.

Lemma is_ascii_spec b : is_byte b -> is_ascii b = true <-> 1 <= b < 0x80.
Proof.
  unfold in_range. change (2 ^ 8) with 256. intros Hb.
  assert (forallb (fun b => Bool.eqb (is_ascii b) ((1 <=? b) && (b <? 0x80))) (seqZ 0 256) = true) as H by (vm_compute; reflexivity).
  pose proof (bytes_all _ _ _ H b ltac:(lia)) as E. apply eqb_prop in E. rewrite E, andb_true_iff, Z.leb_le, Z.ltb_lt. done.
Qed.

Lemma classify_ascii b l : b < 0x80 -> classify (b :: l) = Done b 1.
Proof. intros Hb. unfold classify. by decide_bytes. Qed.

Lemma classify_lead b l : is_byte b -> 0x80 <= b -> SB - SA <? wrap32 (b - SA) = true -> classify (b :: l) = Bad.
Proof.
  intros Hb H1 H2. rewrite lead_range in H2 by done. unfold classify. destruct (Z.ltb_spec b 0x80); [lia|].
  apply orb_true_iff in H2 as [->|H2]; [done|]. rewrite H2. by destruct (b <? 0xc2).
Qed.

Lemma classify_1_more b : 0xc2 <= b <= 0xf4 -> classify [b] = More.
Proof. intros H. unfold classify. by decide_bytes. Qed.

(** ** The input *)

Section input.
Context (m0 : memory) (s0 : Z) (l : list Z) (T : list Z * Z * stop) (W : nat) (N : Z).
Hypothesis Hb : Forall is_byte l.

(** [o] is what has been read, of the first [j] bytes; [T] is the whole
    result, of a conversion with [N] places. *)
Record progress (o : list Z) (j : nat) : Prop := {
  pr_j : (j <= length l)%nat;
  pr_o : (length o <= W)%nat;
  pr_enough : enough (s0 + Z.of_nat j) (N - lenZ o) (drop j l);
  pr_T : T = (let '(o', j', e) := from_mbs (W - length o) (drop j l) in (o ++ o', Z.of_nat j + j', e)) }.

Lemma progress_step o j wc k : progress o j -> (length o < W)%nat -> classify (drop j l) = Done wc k -> wc <> 0 -> progress (o ++ [wc]) (j + k).
Proof.
  intros [H1 H2 H3 H4] Ho Hc Hwc. pose proof (classify_len _ _ _ Hc) as Hk. rewrite length_drop in Hk. split.
  - lia.
  - rewrite length_app. simpl. lia.
  - rewrite length_app. replace (s0 + Z.of_nat (j + k)) with (s0 + Z.of_nat j + Z.of_nat k) by lia. rewrite <- drop_drop.
    replace (N - Z.of_nat (length o + length [wc])) with (N - lenZ o - 1) by (simpl; lia). apply (enough_drop _ _ _ wc); try done. by apply Forall_drop.
  - rewrite H4. by apply from_mbs_step.
Qed.

Lemma progress_ascii o j b l' : progress o j -> (length o < W)%nat -> drop j l = b :: l' -> 1 <= b < 0x80 ->
  progress (o ++ [b]) (j + 1) /\ drop (j + 1) l = l' /\ lenZ (o ++ [b]) = lenZ o + 1.
Proof.
  intros HP Ho E Hbb. split_and!; [apply (progress_step o j b 1); [done|done|rewrite E; apply classify_ascii; lia|lia]|by rewrite <- drop_drop, E|rewrite length_app; simpl; lia].
Qed.

(** The end of the string, and a malformed sequence. *)
Lemma progress_end o j l' : progress o j -> (length o < W)%nat -> drop j l = 0 :: l' -> T = (o, Z.of_nat j, End).
Proof.
  intros [_ _ _ H] Ho E. rewrite H, E. replace (W - length o)%nat with (S (W - length o - 1)) by lia. cbn [from_mbs].
  rewrite classify_ascii by lia. cbn [Z.eqb]. by rewrite app_nil_r, Z.add_0_r.
Qed.
Lemma progress_bad o j : progress o j -> (length o < W)%nat -> classify (drop j l) = Bad -> T = (o, Z.of_nat j, Invalid).
Proof.
  intros [_ _ _ H] Ho E. rewrite H. replace (W - length o)%nat with (S (W - length o - 1)) by lia. cbn [from_mbs]. rewrite E. by rewrite app_nil_r, Z.add_0_r.
Qed.
Lemma progress_full o j : progress o j -> length o = W -> T = (o, Z.of_nat j, Full).
Proof. intros [_ _ _ H] Ho. rewrite H. rewrite Ho, Nat.sub_diag. cbn [from_mbs]. by rewrite app_nil_r, Z.add_0_r. Qed.

Lemma drop_next o j : progress o j -> lenZ o < N -> exists b l', drop j l = b :: l' /\ is_byte b.
Proof.
  intros H Ho. destruct (enough_nonempty _ _ _ (pr_enough _ _ H)) as (b & l' & E); [lia|]. exists b, l'. split; [done|].
  pose proof (Forall_drop is_byte j l Hb) as Hd. rewrite E in Hd. by apply Forall_inv in Hd.
Qed.
End input.

(** Bytes of the input in a memory that still holds it. *)
Lemma input_drop m s l j : bytes_at m s l -> (j <= length l)%nat -> bytes_at m (s + Z.of_nat j) (drop j l).
Proof. intros Hb Hj. rewrite <- (take_drop j l) in Hb. apply bytes_at_app in Hb as [_ Hb]. by rewrite length_take_le in Hb. Qed.

(** ** mbsrtowcs with a destination *)

Section convert.
Context (m0 : memory) (s0 ws0 : Z) (l : list Z) (T : list Z * Z * stop) (W : nat) (fuel : nat).
Let N := Z.of_nat W.
Hypothesis Hb : Forall is_byte l.
Hypothesis Hl : bytes_at m0 s0 l.
Hypothesis Hw4 : ws0 mod 4 = 0.
Hypothesis Hdst : mapped m0 ws0 (4 * W).
Hypothesis Hdis : disjoint_ranges ws0 (4 * W) s0 (length l).
Hypothesis HN : N < 2 ^ 62.
Hypothesis Hf : N + 1 < Z.of_nat fuel.

Abbreviation progress := (progress s0 l T W N).

(** Memory once [o] is stored. *)
Definition stored (o : list Z) : memory := mem_write m0 ws0 (wide o).

Lemma stored_input o j : (length o <= W)%nat -> (j <= length l)%nat -> bytes_at (stored o) (s0 + Z.of_nat j) (drop j l).
Proof.
  intros Ho Hj. apply input_drop; [|done]. unfold stored. apply bytes_at_mem_write_disjoint; [|done].
  pose proof (length_wide o). unfold disjoint_ranges in *. lia.
Qed.

Lemma stored_store o wc (Q : unit -> memory -> Prop) : (length o < W)%nat -> Q tt (stored (o ++ [wc])) -> wp (store32 (ws0 + 4 * lenZ o) wc) (stored o) Q.
Proof.
  intros Ho HQ. apply wp_store_word.
  - change (Z.of_nat 4) with 4. rewrite Z.add_mod, Hw4, Z.mul_comm, Z.mod_mul by lia. done.
  - unfold stored. apply mapped_mem_write. eapply mapped_weaken; [exact Hdst|lia..].
  - unfold stored in *. rewrite wide_app, mem_write_app, length_wide, wide_1 in HQ. done.
Qed.

Definition conv_inv (st : Z * Z * Z) (m' : memory) : Prop :=
  exists o j, st = (ws0 + 4 * lenZ o, s0 + Z.of_nat j, N - lenZ o) /\ m' = stored o /\ progress o j.

(** One character stored. *)
Lemma conv_store o j wc k m' : progress o j -> (length o < W)%nat -> classify (drop j l) = Done wc k -> wc <> 0 -> m' = stored (o ++ [wc]) ->
  conv_inv (ws0 + 4 * lenZ o + 4, s0 + Z.of_nat j + Z.of_nat k, N - lenZ o - 1) m'.
Proof.
  intros HP Ho Hc Hwc ->. exists (o ++ [wc]), (j + k)%nat. split_and!; [|done|by apply progress_step].
  rewrite length_app. simpl length. tuple_lia.
Qed.

Lemma wp_copy_ascii o j b (Q : unit -> memory -> Prop) l' : progress o j -> (length o < W)%nat -> drop j l = b :: l' -> Q tt (stored (o ++ [b])) ->
  wp (copy_ascii (ws0 + 4 * lenZ o) (s0 + Z.of_nat j)) (stored o) Q.
Proof.
  intros HP Ho E HQ. unfold copy_ascii. wp_step. pose proof (stored_input o j ltac:(lia) (pr_j _ _ _ _ _ _ _ HP)) as Hd. rewrite E in Hd. destruct Hd as [Hd _].
  wp_step; [done|]. by apply stored_store.
Qed.

(** Four ASCII characters at once. *)
Lemma wp_ascii_words st (Q : Z * Z * Z -> memory -> Prop) m' :
  conv_inv st m' -> 0 < st.2 -> (st.1.2) mod 4 = 0 -> (forall st' m', conv_inv st' m' -> 0 < st'.2 <= st.2 -> Q st' m') ->
  wp (loop fuel (fun '(ws, s, wn) =>
        if 5 <=? wn then
          x ← load32 s;
          if ascii4 x then
            copy_ascii ws s;; copy_ascii (ws + 4) (s + 1);; copy_ascii (ws + 8) (s + 2);; copy_ascii (ws + 12) (s + 3);;
            mret (inl (ws + 16, s + 4, wn - 4))
          else mret (inr (ws, s, wn))
        else mret (inr (ws, s, wn))) st) m' Q.
Proof.
  intros HI Hpos Ha HQ. apply (wp_loop (fun st' m' => conv_inv st' m' /\ 0 < st'.2 <= st.2 /\ (st'.1.2) mod 4 = 0) (fun '(_, _, wn) => Z.to_nat wn)); [|split_and!; (done || lia)|].
  2: { destruct HI as (o & j & -> & _ & HP). lia. }
  clear m' HI Hpos Ha. set (n0 := st.2) in *. clearbody n0. clear st. intros st m' (HI & Hpos & Ha). pose proof HI as (o & j & -> & -> & HP). cbn [fst snd] in Hpos, Ha.
  destruct (Z.leb_spec 5 (N - lenZ o)); [|wp_step; by apply HQ].
  pose proof (enough_word _ _ _ (pr_enough _ _ _ _ _ _ _ HP) Ha ltac:(lia)) as H4.
  destruct (drop j l) as [|b0 [|b1 [|b2 [|b3 l']]]] eqn:Ed; simpl in H4; try lia.
  pose proof (stored_input o j ltac:(lia) (pr_j _ _ _ _ _ _ _ HP)) as Hd. rewrite Ed in Hd. change (b0 :: b1 :: b2 :: b3 :: l') with ([b0; b1; b2; b3] ++ l') in Hd.
  apply bytes_at_app in Hd as [Hd _]. assert (Forall is_byte [b0; b1; b2; b3]) as Hbb.
  { pose proof (Forall_drop is_byte j l Hb) as H'. rewrite Ed in H'. change (b0 :: b1 :: b2 :: b3 :: l') with ([b0; b1; b2; b3] ++ l') in H'. by apply Forall_app in H' as [? _]. }
  wp_step. apply (wp_load_word _ 4 _ [b0; b1; b2; b3]); [exact Ha|done|exact Hd|]. pose proof (ascii4_spec [b0; b1; b2; b3] eq_refl Hbb) as Hasc.
  destruct (ascii4 (le_combine [b0; b1; b2; b3])); [|wp_step; by apply HQ]. destruct Hasc as [Hasc _]. specialize (Hasc eq_refl).
  pose proof (Forall_inv Hasc) as A0. apply Forall_inv_tail in Hasc. pose proof (Forall_inv Hasc) as A1. apply Forall_inv_tail in Hasc.
  pose proof (Forall_inv Hasc) as A2. apply Forall_inv_tail in Hasc. pose proof (Forall_inv Hasc) as A3. cbv beta in A0, A1, A2, A3.
  destruct (progress_ascii s0 l T W N Hb o j b0 (b1 :: b2 :: b3 :: l')) as (P1 & E1 & L1); [done|lia|done|done|].
  destruct (progress_ascii s0 l T W N Hb _ _ b1 (b2 :: b3 :: l') P1) as (P2 & E2 & L2); [lia|done|done|].
  destruct (progress_ascii s0 l T W N Hb _ _ b2 (b3 :: l') P2) as (P3 & E3 & L3); [lia|done|done|].
  wp_step. apply (wp_copy_ascii o j b0 _ (b1 :: b2 :: b3 :: l')); [done|lia|done|].
  wp_step. replace (ws0 + 4 * lenZ o + 4) with (ws0 + 4 * lenZ (o ++ [b0])) by lia. replace (s0 + Z.of_nat j + 1) with (s0 + Z.of_nat (j + 1)) by lia.
  apply (wp_copy_ascii _ _ b1 _ (b2 :: b3 :: l')); [done|lia|done|].
  wp_step. replace (ws0 + 4 * lenZ o + 8) with (ws0 + 4 * lenZ ((o ++ [b0]) ++ [b1])) by lia. replace (s0 + Z.of_nat j + 2) with (s0 + Z.of_nat (j + 1 + 1)) by lia.
  apply (wp_copy_ascii _ _ b2 _ (b3 :: l')); [done|lia|done|].
  wp_step. replace (ws0 + 4 * lenZ o + 12) with (ws0 + 4 * lenZ (((o ++ [b0]) ++ [b1]) ++ [b2])) by lia. replace (s0 + Z.of_nat j + 3) with (s0 + Z.of_nat (j + 1 + 1 + 1)) by lia.
  apply (wp_copy_ascii _ _ b3 _ l'); [done|lia|done|]. wp_step. split; [|lia].
  split; [|cbn [fst snd]; split; [lia|rewrite Z.add_mod, Ha by lia; done]].
  pose proof (conv_store _ _ b3 1 _ P3 ltac:(lia) ltac:(rewrite E3; apply classify_ascii; lia) ltac:(lia) eq_refl) as HC.
  replace (ws0 + 4 * lenZ o + 16, s0 + Z.of_nat j + 4, N - lenZ o - 4) with
    (ws0 + 4 * lenZ (((o ++ [b0]) ++ [b1]) ++ [b2]) + 4, s0 + Z.of_nat (j + 1 + 1 + 1) + Z.of_nat 1, N - lenZ (((o ++ [b0]) ++ [b1]) ++ [b2]) - 1) by tuple_lia.
  exact HC.
Qed.

Definition conv_exit (r : Z * option (Z * Z * Z)) (m' : memory) : Prop :=
  exists o j e, T = (o, j, e) /\ fst r = s0 + j /\ m' = stored o /\
    match snd r with
    | None => e = Full /\ length o = W
    | Some (c, ws, wn) => ws = ws0 + 4 * lenZ o /\ wn = N - lenZ o /\ (length o < W)%nat /\
        ((c <> 0 /\ e = Invalid) \/ (c = 0 /\ exists b, m' !! fst r = Some b /\ (b = 0 /\ e = End \/ b <> 0 /\ e = Invalid)))
    end.

(** A character continued from the state [pack q], its bytes in [q ++ rest]. *)
Lemma wp_convert_from o q rest s (Q : Z * Z * Z + Z * option (Z * Z * Z) -> memory -> Prop) :
  (length o < W)%nat -> q <> [] -> classify q = More -> Forall is_byte rest -> bytes_at (stored o) s rest -> classify (q ++ rest) <> More ->
  match classify (q ++ rest) with
  | Done wc k => Q (inl (ws0 + 4 * lenZ o + 4, s + Z.of_nat (k - length q), N - lenZ o - 1)) (stored (o ++ [wc]))
  | _ => forall c, c <> 0 -> Q (inr (s - 1, Some (c, ws0 + 4 * lenZ o, N - lenZ o))) (stored o)
  end -> wp (convert_from (pack q) (ws0 + 4 * lenZ o) s (N - lenZ o)) (stored o) Q.
Proof.
  intros Ho Hq Hm Hbr Hr Hd HQ. unfold convert_from. wp_step. eapply wp_mono; [by apply wp_resume|]. intros [[ok c] s'] ? [-> Hres].
  unfold resumed in Hres. destruct (classify (q ++ rest)) as [wc k| |]; [|done|].
  - injection Hres as -> -> ->. wp_step. apply stored_store; [done|]. wp_step. rewrite wrap_small by (unfold in_range; lia). done.
  - destruct Hres as (c' & [= -> -> ->] & Hc). wp_step. by apply HQ.
Qed.

Lemma wp_convert_body st m' : conv_inv st m' ->
  wp (convert_body fuel st) m' (fun r m'' => match r with inl st' => conv_inv st' m'' /\ 0 <= st'.2 < st.2 | inr r => conv_exit r m'' end).
Proof.
  intros HI. pose proof HI as (o & j & -> & -> & HP). unfold convert_body. lazy beta iota. pose proof (pr_o _ _ _ _ _ _ _ HP) as Ho.
  destruct (truth (N - lenZ o)) eqn:Hwn; cbn [negb].
  2: { apply truth_false in Hwn. wp_step. exists o, (Z.of_nat j), Full. split; [apply (progress_full s0 l T W N o j HP); lia|]. split; [done|]. split; [done|]. cbn [snd]. split; [done|lia]. }
  apply truth_true in Hwn.
  assert (forall st2 m2, conv_inv st2 m2 -> 0 < st2.2 <= N - lenZ o -> wp (let '(ws, s, wn) := st2 in
    b ← load8 s;
    if is_ascii b then copy_ascii ws s;; mret (inl (ws + 4, s + 1, wn - 1)) else
    if SB - SA <? wrap32 (b - SA) then mret (inr (s, Some (0, ws, wn))) else
    match bittab !! Z.to_nat (b - SA) with
    | None => undef
    | Some c => convert_from c ws (s + 1) wn
    end) m2 (fun r m'' => match r with inl st' => conv_inv st' m'' /\ 0 <= st'.2 < N - lenZ o | inr r => conv_exit r m'' end)) as Hrest.
  { clear HP HI. rename o into o0, Ho into Ho0, Hwn into Hwn0. intros st2 m2 (o & i & -> & -> & HP) Hle. cbn [snd] in Hle. pose proof (pr_j _ _ _ _ _ _ _ HP) as Hi.
    destruct (drop_next s0 l T W N Hb o i HP ltac:(lia)) as (b & l' & E & Hbb).
    pose proof (stored_input o i ltac:(lia) Hi) as Hd. rewrite E in Hd. destruct Hd as [Hmb Hl']. wp_step. wp_step; [done|].
    destruct (is_ascii b) eqn:Ha.
    { apply is_ascii_spec in Ha; [|done]. wp_step. apply (wp_copy_ascii o i b _ l'); [done|lia|done|]. wp_step. split; [|cbn [snd]; lia].
      apply (conv_store o i b 1); [done|lia|rewrite E; apply classify_ascii; lia|lia|done]. }
    assert (b = 0 \/ 0x80 <= b) as Hb0.
    { destruct (Z_lt_le_dec b 0x80); [left|by right]. destruct (decide (1 <= b < 0x80)) as [Hd|]; [apply (is_ascii_spec b Hbb) in Hd; congruence|unfold in_range in Hbb; lia]. }
    destruct (SB - SA <? wrap32 (b - SA)) eqn:Hlead.
    { wp_step. destruct Hb0 as [->|Hb0].
      - exists o, (Z.of_nat i), End. split; [by apply (progress_end s0 l T W N o i l'); [|lia|]|]. split; [done|]. split; [done|]. cbn [snd fst]. split_and!; [done|done|lia|].
        right. split; [done|]. exists 0. split; [done|by left].
      - exists o, (Z.of_nat i), Invalid. split; [apply (progress_bad s0 l T W N o i); [done|lia|rewrite E; by apply classify_lead]|].
        split; [done|]. split; [done|]. cbn [snd fst]. split_and!; [done|done|lia|]. right. split; [done|]. exists b. split; [done|right; split; [lia|done]]. }
    rewrite lead_range in Hlead by done. apply orb_false_iff in Hlead as [HA HB]. assert (0xc2 <= b <= 0xf4) as Hlead by lia.
    rewrite bittab_lookup by done. pose proof (classify_1_more b Hlead) as Hm.
    pose proof (Forall_drop is_byte i l Hb) as Hbd. rewrite E in Hbd. apply Forall_inv_tail in Hbd.
    assert (classify ([b] ++ l') <> More) as Hdec.
    { pose proof (enough_decides _ _ [] _ (pr_enough _ _ _ _ _ _ _ HP)) as H'. rewrite E in H'. apply H'. lia. }
    apply (wp_convert_from o [b] l'); try done; [lia|]. destruct (classify ([b] ++ l')) as [wc k| |] eqn:Ec; [|done|].
    - pose proof (classify_nonzero b l' wc k ltac:(lia) Ec) as Hwz. split; [|cbn [snd]; lia].
      pose proof (classify_len _ _ _ Ec) as Hk. cbn [length]. replace (s0 + Z.of_nat i + 1 + Z.of_nat (k - 1)) with (s0 + Z.of_nat i + Z.of_nat k) by lia.
      apply (conv_store o i wc k); [done|lia|by rewrite E|done|done].
    - intros c Hc. exists o, (Z.of_nat i), Invalid. split; [by apply (progress_bad s0 l T W N o i); [|lia|rewrite E]|].
      split; [cbn [fst]; lia|]. split; [done|]. cbn [snd fst]. split_and!; [done|done|lia|by left]. }
  destruct (drop_next s0 l T W N Hb o j HP ltac:(lia)) as (b & l' & E & Hbb).
  pose proof (stored_input o j ltac:(lia) (pr_j _ _ _ _ _ _ _ HP)) as Hd. rewrite E in Hd. destruct Hd as [Hmb _]. wp_step. wp_step; [done|]. cbn [snd].
  wp_step. destruct (is_ascii b && ((s0 + Z.of_nat j) mod 4 =? 0)) eqn:Hw.
  - apply andb_true_iff in Hw as [_ Hw]. apply Z.eqb_eq in Hw. apply wp_ascii_words; [done|simpl; lia|done|]. intros st2 m2 H1 H2. by apply Hrest.
  - wp_step. apply (Hrest (ws0 + 4 * lenZ o, s0 + Z.of_nat j, N - lenZ o)); [done|simpl; lia].
Qed.

Definition conv_final (rv : Z * option Z) (m' : memory) : Prop :=
  let '(o, j, e) := T in
  match e with
  | Full => rv = (N, Some (s0 + j)) /\ m' = stored o
  | End => rv = (lenZ o, Some 0) /\ m' = stored (o ++ [0])
  | Invalid => rv = (ERR, Some (s0 + j)) /\ m' = stored o
  end.

Lemma wp_convert_end r m' : conv_exit r m' -> wp (convert_end N r) m' conv_final.
Proof.
  intros (o & j & e & ET & Es & -> & H). destruct r as [s' [[[c ws] wn]|]]; cbn [fst snd] in *; subst s'; unfold convert_end, conv_final; rewrite ET.
  - destruct H as (-> & -> & Ho & H). wp_step. unfold at_end. destruct H as [[Hc ->]|(-> & b & Hmb & Hbe)].
    + rewrite (proj2 (truth_true c) Hc). do 2 wp_step. done.
    + change (truth 0) with false. wp_step. wp_step; [done|]. wp_step. destruct Hbe as [[-> ->]|[Hbz ->]].
      * change (negb (truth 0)) with true. wp_step. apply stored_store; [done|]. wp_step. rewrite wrap_small by (unfold in_range; lia). split; [|done]. repeat f_equal. lia.
      * rewrite (proj2 (truth_true b) Hbz). cbn [negb]. by wp_step.
  - destruct H as [-> Ho]. by wp_step.
Qed.

Lemma wp_convert_loop st m' : conv_inv st m' -> wp (r ← loop fuel (convert_body fuel) st; convert_end N r) m' conv_final.
Proof.
  intros HI. wp_step. apply (wp_mono _ _ conv_exit); [|intros r m1; apply wp_convert_end].
  apply (wp_loop conv_inv (fun st => Z.to_nat st.2)); [|done|].
  - intros st1 m1 H1. eapply wp_mono; [by apply wp_convert_body|]. intros [st2|r] m2; [|done]. intros [? ?]. split; [done|lia].
  - destruct HI as (o & j & -> & _ & _). cbn [snd]. lia.
Qed.
End convert.

Lemma unfinished_bytes q : q <> [] -> classify q = More -> Forall is_byte q /\ exists b0 q', q = b0 :: q' /\ 0x80 <= b0.
Proof.
  intros Hq Hm. destruct (unfinished q Hq Hm) as [(b0 & -> & H0)|[(b0 & b1 & -> & H0 & Hs)|(b0 & b1 & b2 & -> & H0 & Hs & H2)]].
  - split; [|by exists b0, []; split; [|lia]]. apply List.Forall_cons; [unfold in_range; lia|apply List.Forall_nil].
  - apply second_tail, tail_range in Hs. split; [|by exists b0, [b1]; split; [|lia]]. repeat (apply List.Forall_cons; [unfold in_range; lia|]). apply List.Forall_nil.
  - apply second_tail, tail_range in Hs. apply tail_range in H2. split; [|by exists b0, [b1; b2]; split; [|lia]].
    repeat (apply List.Forall_cons; [unfold in_range; lia|]). apply List.Forall_nil.
Qed.

(** After the first character, which was pending. *)
Lemma pending_progress q s l W N wc k : q <> [] -> classify q = More -> Forall is_byte l -> enough s N l -> (0 < W)%nat -> classify (q ++ l) = Done wc k ->
  wc <> 0 /\ (length q < k)%nat /\ progress s l (from_state q W l) W N [wc] (k - length q).
Proof.
  intros Hq Hm Hb He HW Hc. destruct (unfinished_bytes q Hq Hm) as (Hqb & b0 & q' & Eq & H0).
  pose proof (more_longer q l wc k Hq Hm Hc) as Hk. pose proof (classify_len _ _ _ Hc) as Hkl. rewrite length_app in Hkl.
  assert (wc <> 0) as Hwc by (rewrite Eq in Hc; exact (classify_nonzero b0 (q' ++ l) wc k H0 Hc)). split; [done|]. split; [done|]. split.
  - lia.
  - simpl. lia.
  - assert (enough (s - lenZ q) N (q ++ l)) as He'.
    { destruct He as [H|(i & Hi & H)]; [left; rewrite length_app; lia|right]. exists (length q + i)%nat. rewrite lookup_app_r, length_app by lia.
      replace (length q + i - length q)%nat with i by lia. split; [done|]. replace (s - lenZ q + Z.of_nat (length q + i)) with (s + Z.of_nat i) by lia. lia. }
    assert (Forall is_byte (q ++ l)) as Hql by (by apply Forall_app). pose proof (enough_drop _ _ _ wc k Hql He' Hc Hwc) as Hd. rewrite drop_app_ge in Hd by lia.
    replace (s + Z.of_nat (k - length q)) with (s - lenZ q + Z.of_nat k) by lia. exact Hd.
  - unfold from_state. rewrite Hc. destruct q; [done|]. change (length [wc]) with 1%nat. by destruct (from_mbs (W - 1) _) as [[o j] e].
Qed.

(** ** mbsrtowcs without a destination *)

Section count.
Context (m : memory) (s0 : Z) (l : list Z) (T : list Z * Z * stop) (wn0 : Z) (fuel : nat).
Let W := S (length l).
Let N := Z.of_nat W.
Hypothesis Hb : Forall is_byte l.
Hypothesis Hl : bytes_at m s0 l.
Hypothesis HN : N < 2 ^ 62.
Hypothesis Hf : N + 1 < Z.of_nat fuel.

Abbreviation progress := (progress s0 l T W N).

Definition count_inv (st : Z * Z) (m' : memory) : Prop :=
  m' = m /\ exists o j, st = (s0 + Z.of_nat j, wrap64 (wn0 - lenZ o)) /\ (length o <= j)%nat /\ progress o j.

Definition count_exit (r : Z * Z * Z) (m' : memory) : Prop :=
  m' = m /\ let '(c, s, wn) := r in exists o j e, T = (o, j, e) /\ s = s0 + j /\ wn = wrap64 (wn0 - lenZ o) /\ (length o < W)%nat /\
    ((c <> 0 /\ e = Invalid) \/ (c = 0 /\ exists b, m !! s = Some b /\ (b = 0 /\ e = End \/ b <> 0 /\ e = Invalid))).

Lemma count_step o j wc k : progress o j -> (length o <= j)%nat -> classify (drop j l) = Done wc k -> wc <> 0 ->
  count_inv (s0 + Z.of_nat j + Z.of_nat k, wrap64 (wrap64 (wn0 - lenZ o) - 1)) m.
Proof.
  intros HP Ho Hc Hwc. pose proof (classify_len _ _ _ Hc) as Hk. pose proof (pr_j _ _ _ _ _ _ _ HP) as Hj. split; [done|]. exists (o ++ [wc]), (j + k)%nat.
  rewrite wrap_sub_l, length_app. simpl length. split_and!; [|lia|apply (progress_step s0 l T W N Hb); try done; unfold W; lia].
  apply f_equal2; [lia|f_equal; lia].
Qed.

Lemma wp_count_words st (Q : Z * Z -> memory -> Prop) : count_inv st m -> (st.1) mod 4 = 0 ->
  (forall st', count_inv st' m -> st.1 <= st'.1 -> Q st' m) ->
  wp (loop fuel (fun '(s, wn) => x ← load32 s; if ascii4 x then mret (inl (s + 4, wrap64 (wn - 4))) else mret (inr (s, wn))) st) m Q.
Proof.
  intros HI Ha HQ. apply (wp_loop (fun st' m' => count_inv st' m' /\ st.1 <= st'.1 /\ (st'.1) mod 4 = 0) (fun '(s, _) => Z.to_nat (s0 + lenZ l - s))); [|split_and!; (done || lia)|].
  2: { destruct HI as (_ & o & j & -> & _ & HP). pose proof (pr_j _ _ _ _ _ _ _ HP). unfold N, W in *. lia. }
  clear HI Ha. set (p0 := st.1) in *. clearbody p0. clear st. intros st m' (HI & Hpos & Ha). pose proof HI as (-> & o & j & -> & Ho & HP). cbn [fst snd] in Hpos, Ha.
  pose proof (pr_j _ _ _ _ _ _ _ HP) as Hj.
  assert (4 <= length (drop j l))%nat as H4.
  { destruct (pr_enough _ _ _ _ _ _ _ HP) as [H|(i & Hi & H)].
    - rewrite length_drop in H. unfold N, W in H. lia.
    - pose proof (Z.div_mod (s0 + Z.of_nat j) 4 ltac:(lia)). pose proof (Z.div_le_mono (s0 + Z.of_nat j) (s0 + Z.of_nat j + Z.of_nat i) 4 ltac:(lia)). lia. }
  destruct (drop j l) as [|b0 [|b1 [|b2 [|b3 l']]]] eqn:Ed; simpl in H4; try lia.
  pose proof (input_drop m s0 l j Hl Hj) as Hd. rewrite Ed in Hd. change (b0 :: b1 :: b2 :: b3 :: l') with ([b0; b1; b2; b3] ++ l') in Hd.
  apply bytes_at_app in Hd as [Hd _]. assert (Forall is_byte [b0; b1; b2; b3]) as Hbb.
  { pose proof (Forall_drop is_byte j l Hb) as H'. rewrite Ed in H'. change (b0 :: b1 :: b2 :: b3 :: l') with ([b0; b1; b2; b3] ++ l') in H'. by apply Forall_app in H' as [? _]. }
  wp_step. apply (wp_load_word _ 4 _ [b0; b1; b2; b3]); [exact Ha|done|exact Hd|]. pose proof (ascii4_spec [b0; b1; b2; b3] eq_refl Hbb) as Hasc.
  destruct (ascii4 (le_combine [b0; b1; b2; b3])); [|wp_step; by apply HQ]. destruct Hasc as [Hasc _]. specialize (Hasc eq_refl).
  pose proof (Forall_inv Hasc) as A0. apply Forall_inv_tail in Hasc. pose proof (Forall_inv Hasc) as A1. apply Forall_inv_tail in Hasc.
  pose proof (Forall_inv Hasc) as A2. apply Forall_inv_tail in Hasc. pose proof (Forall_inv Hasc) as A3. cbv beta in A0, A1, A2, A3.
  assert (j + 4 <= length l)%nat as Hj4 by (pose proof (f_equal length Ed) as El; rewrite length_drop in El; simpl in El; lia).
  assert (Hlen : forall x : list Z, (length x <= j + 3)%nat -> (length x < W)%nat) by (unfold W; intros; lia).
  destruct (progress_ascii s0 l T W N Hb o j b0 (b1 :: b2 :: b3 :: l')) as (P1 & E1 & L1); [done|apply Hlen; lia|done|done|].
  destruct (progress_ascii s0 l T W N Hb _ _ b1 (b2 :: b3 :: l') P1) as (P2 & E2 & L2); [apply Hlen; lia|done|done|].
  destruct (progress_ascii s0 l T W N Hb _ _ b2 (b3 :: l') P2) as (P3 & E3 & L3); [apply Hlen; lia|done|done|].
  destruct (progress_ascii s0 l T W N Hb _ _ b3 l' P3) as (P4 & E4 & L4); [apply Hlen; lia|done|done|].
  wp_step. split; [|lia]. cbn [fst]. split; [|split; [lia|rewrite Z.add_mod, Ha by lia; done]]. split; [done|].
  eexists _, _. split; [|split; [|exact P4]]; [|lia]. rewrite wrap_sub_l. apply f_equal2; [lia|f_equal; lia].
Qed.

Lemma wp_count_from o q rest s (Q : Z * Z + Z * Z * Z -> memory -> Prop) :
  q <> [] -> classify q = More -> Forall is_byte rest -> bytes_at m s rest -> classify (q ++ rest) <> More ->
  match classify (q ++ rest) with
  | Done wc k => Q (inl (s + Z.of_nat (k - length q), wrap64 (o - 1))) m
  | _ => Q (inr (pack q, s - 1, o)) m
  end -> wp (count_from (pack q) s o) m Q.
Proof.
  intros Hq Hm Hbr Hr Hd HQ. unfold count_from. wp_step. eapply wp_mono; [by apply wp_resume0|]. intros [ok s'] ? [-> Hres].
  unfold skipped in Hres. destruct (classify (q ++ rest)) as [wc k| |]; [|done|]; injection Hres as -> ->; by wp_step.
Qed.

Lemma wp_count_body st : count_inv st m ->
  wp (count_body fuel st) m (fun r m'' => match r with inl st' => count_inv st' m'' /\ st.1 < st'.1 | inr r => count_exit r m'' end).
Proof.
  intros HI. pose proof HI as (_ & o & j & -> & Ho & HP). unfold count_body. lazy beta iota.
  assert (forall st2, count_inv st2 m -> s0 + Z.of_nat j <= st2.1 -> wp (let '(s, wn) := st2 in
    b ← load8 s;
    if is_ascii b then mret (inl (s + 1, wrap64 (wn - 1))) else
    if SB - SA <? wrap32 (b - SA) then mret (inr (0, s, wn)) else
    match bittab !! Z.to_nat (b - SA) with
    | None => undef
    | Some c => count_from c (s + 1) wn
    end) m (fun r m'' => match r with inl st' => count_inv st' m'' /\ s0 + Z.of_nat j < st'.1 | inr r => count_exit r m'' end)) as Hrest.
  { clear HP HI Ho o. intros st2 (_ & o & i & -> & Ho & HP) Hle. cbn [fst] in Hle. pose proof (pr_j _ _ _ _ _ _ _ HP) as Hi.
    assert (length o < W)%nat as HoW by (unfold W; lia).
    destruct (drop_next s0 l T W N Hb o i HP ltac:(unfold N; lia)) as (b & l' & E & Hbb).
    pose proof (input_drop m s0 l i Hl Hi) as Hd. rewrite E in Hd. destruct Hd as [Hmb Hl']. wp_step. wp_step; [done|].
    destruct (is_ascii b) eqn:Ha.
    { apply is_ascii_spec in Ha; [|done]. wp_step. split; [|cbn [fst]; lia].
      apply (count_step o i b 1); [done|done|rewrite E; apply classify_ascii; lia|lia]. }
    assert (b = 0 \/ 0x80 <= b) as Hb0.
    { destruct (Z_lt_le_dec b 0x80); [left|by right]. destruct (decide (1 <= b < 0x80)) as [Hd|]; [apply (is_ascii_spec b Hbb) in Hd; congruence|unfold in_range in Hbb; lia]. }
    destruct (SB - SA <? wrap32 (b - SA)) eqn:Hlead.
    { wp_step. split; [done|]. destruct Hb0 as [->|Hb0].
      - exists o, (Z.of_nat i), End. split_and!; try done; [by apply (progress_end s0 l T W N o i l')|]. right. split; [done|]. exists 0. split; [done|by left].
      - exists o, (Z.of_nat i), Invalid. split_and!; try done; [apply (progress_bad s0 l T W N o i); [done|done|rewrite E; by apply classify_lead]|].
        right. split; [done|]. exists b. split; [done|right; split; [lia|done]]. }
    rewrite lead_range in Hlead by done. apply orb_false_iff in Hlead as [HA HB]. assert (0xc2 <= b <= 0xf4) as Hlead by lia.
    rewrite bittab_lookup by done. pose proof (classify_1_more b Hlead) as Hm.
    pose proof (Forall_drop is_byte i l Hb) as Hbd. rewrite E in Hbd. apply Forall_inv_tail in Hbd.
    assert (classify ([b] ++ l') <> More) as Hdec.
    { pose proof (enough_decides _ _ [] _ (pr_enough _ _ _ _ _ _ _ HP)) as H'. rewrite E in H'. apply H'. unfold N. lia. }
    apply (wp_count_from _ [b] l'); try done. destruct (classify ([b] ++ l')) as [wc k| |] eqn:Ec; [|done|].
    - pose proof (classify_nonzero b l' wc k ltac:(lia) Ec) as Hwz. pose proof (classify_len _ _ _ Ec) as Hk. cbn [length].
      replace (s0 + Z.of_nat i + 1 + Z.of_nat (k - 1)) with (s0 + Z.of_nat i + Z.of_nat k) by lia.
      split; [|cbn [fst]; lia]. apply (count_step o i wc k); [done|done|by rewrite E|done].
    - split; [done|]. exists o, (Z.of_nat i), Invalid. split_and!; try done; [by apply (progress_bad s0 l T W N o i); [| |rewrite E]|lia|].
      left. split; [by apply pack_nonzero|done]. }
  pose proof (pr_j _ _ _ _ _ _ _ HP) as Hj.
  destruct (drop_next s0 l T W N Hb o j HP ltac:(unfold N, W; lia)) as (b & l' & E & Hbb).
  pose proof (input_drop m s0 l j Hl Hj) as Hd. rewrite E in Hd. destruct Hd as [Hmb _]. wp_step. wp_step; [done|]. cbn [fst].
  wp_step. destruct (is_ascii b && ((s0 + Z.of_nat j) mod 4 =? 0)) eqn:Hw.
  - apply andb_true_iff in Hw as [_ Hw]. apply Z.eqb_eq in Hw. apply wp_count_words; [done|done|]. intros st2 H1 H2. by apply Hrest.
  - wp_step. apply (Hrest (s0 + Z.of_nat j, wrap64 (wn0 - lenZ o))); [done|simpl; lia].
Qed.

Definition count_final (rv : Z * option Z) (m' : memory) : Prop :=
  m' = m /\ let '(o, j, e) := T in rv = (match e with End => lenZ o | _ => ERR end, None).

Lemma wp_count_end r : count_exit r m -> wp (count_end wn0 r) m count_final.
Proof.
  intros [_ H]. destruct r as [[c s] wn]. destruct H as (o & j & e & ET & -> & -> & Ho & H). unfold count_end, count_final. rewrite ET. wp_step. unfold at_end.
  destruct H as [[Hc ->]|(-> & b & Hmb & Hbe)].
  - rewrite (proj2 (truth_true c) Hc). by do 2 wp_step.
  - change (truth 0) with false. wp_step. wp_step; [done|]. wp_step. destruct Hbe as [[-> ->]|[Hbz ->]].
    + change (negb (truth 0)) with true. wp_step. rewrite wrap_sub_r, wrap_small by (unfold in_range, N, W in *; lia). split; [done|]. repeat f_equal. lia.
    + rewrite (proj2 (truth_true b) Hbz). cbn [negb]. by wp_step.
Qed.

Lemma wp_count_loop st : count_inv st m -> wp (r ← loop fuel (count_body fuel) st; count_end wn0 r) m count_final.
Proof.
  intros HI. wp_step. apply (wp_mono _ _ count_exit); [|intros r m1 Hr; pose proof Hr as [-> _]; by apply wp_count_end].
  apply (wp_loop count_inv (fun st => Z.to_nat (s0 + lenZ l - st.1))); [|done|].
  - intros st1 m1 H1. pose proof H1 as [-> _]. eapply wp_mono; [by apply wp_count_body|]. intros [st2|r] m2; [|done]. intros [H2 ?]. split; [done|].
    destruct H2 as (_ & o & j & -> & _ & HP). pose proof (pr_j _ _ _ _ _ _ _ HP). cbn [fst] in *. lia.
  - destruct HI as (_ & o & j & -> & _ & HP). pose proof (pr_j _ _ _ _ _ _ _ HP). cbn [fst]. unfold N, W in *. lia.
Qed.
End count.
