(* ===== verification/MbConvert.v ===== *)
(** * MbConvert: the theorems on whole multibyte strings

    mbsrtowcs from any conversion state, wcsrtombs in both locales, the round
    trip, what happens where there is no room or no state, and a page of
    memory to apply them to. *)

From Stdlib Require Import ZArith Lia Bool.
From stdpp Require Import base tactics numbers list gmap.
From S2P Require Import Prelude CMem StrScan MemBlock StrCopy StrTok StrDemo Utf8 Utf8Proofs MbString MbStringProofs MbStringMain.
Open Scope Z_scope.

(** ** The theorems *)

(** The state of a conversion, with the bytes [q] of an unfinished character:
    a null pointer or four bytes apart from the string. *)
Definition state_at (m : memory) (st : Z) (q : list Z) (s : Z) (n : nat) : Prop :=
  (st = 0 /\ q = []) \/
  (st <> 0 /\ st mod 4 = 0 /\ bytes_at m st (le_split 4 (pack q)) /\ (q = [] \/ classify q = More) /\ disjoint_ranges st 4 s n).

(** Where a character was pending the state is cleared. *)
Definition cleared (m : memory) (st : Z) (q : list Z) : memory :=
  match q with [] => m | _ => mem_write m st (le_split 4 0) end.

Lemma pack_range q : q = [] \/ classify q = More -> in_range 32 (pack q).
Proof.
  intros [->|Hm]; [done|]. destruct (decide (q = [])) as [->|Hq]; [done|]. unfold in_range.
  destruct (unfinished q Hq Hm) as [(b0 & -> & H0)|[(b0 & b1 & -> & H0 & Hs)|(b0 & b1 & b2 & -> & H0 & Hs & H2)]].
  - assert (forallb (fun b0 => (0 <=? pack [b0]) && (pack [b0] <? 2 ^ 32)) (seqZ 0xc2 51) = true) as H by (vm_compute; reflexivity).
    pose proof (bytes_all _ _ _ H b0 ltac:(lia)) as H'. cbv beta in H'. apply andb_true_iff in H' as [H1 H2]. lia.
  - apply second_tail in Hs. rewrite pack_2 by (done || lia). apply tail_range in Hs. destruct (b0 <? 0xe0) eqn:E1, (b0 <? 0xf0) eqn:E2; lia.
  - apply second_tail in Hs. rewrite pack_3 by (done || lia). apply tail_range in Hs, H2. destruct (b0 <? 0xf0); lia.
Qed.

Lemma wp_load_state m st q s n (Q : Z -> memory -> Prop) : state_at m st q s n -> Q (pack q) m ->
  wp (if truth st then load32 st else mret 0) m Q.
Proof.
  intros [[-> ->]|(Hst & Ha & Hb & Hq & _)] HQ; [change (truth 0) with false; by wp_step|]. rewrite (proj2 (truth_true st) Hst).
  apply (wp_load32_split _ _ (pack q)); [done|done|]. by rewrite wrap_small by (by apply pack_range).
Qed.

(** No character is pending. *)
Lemma wp_convert_start m s ws l W fuel : Forall is_byte l -> bytes_at m s l -> ws mod 4 = 0 -> mapped m ws (4 * W) ->
  disjoint_ranges ws (4 * W) s (length l) -> Z.of_nat W < 2 ^ 62 -> Z.of_nat W + 1 < Z.of_nat fuel -> enough s (Z.of_nat W) l ->
  wp (r ← loop fuel (convert_body fuel) (ws, s, Z.of_nat W); convert_end (Z.of_nat W) r) m (conv_final m s ws (from_mbs W l) W).
Proof.
  intros. apply (wp_convert_loop m s ws l _ W fuel); try done. exists [], 0%nat. split_and!; [simpl; tuple_lia|done|]. split; [lia|simpl; lia| |].
  - by rewrite drop_0, Z.add_0_r, Z.sub_0_r.
  - change (length (@nil Z)) with 0%nat. rewrite drop_0, Nat.sub_0_r. destruct (from_mbs W l) as [[o' j'] e']. reflexivity.
Qed.

(** A character continued in the first place. *)
Lemma wp_convert_pending m s ws l q W fuel : Forall is_byte l -> bytes_at m s l -> ws mod 4 = 0 -> mapped m ws (4 * W) ->
  disjoint_ranges ws (4 * W) s (length l) -> Z.of_nat W < 2 ^ 62 -> Z.of_nat W + 1 < Z.of_nat fuel ->
  q <> [] -> classify q = More -> (0 < W)%nat -> enough s (Z.of_nat W) l ->
  wp (r ← convert_from (pack q) ws s (Z.of_nat W); r ← match r with inl l => loop fuel (convert_body fuel) l | inr r => mret r end; convert_end (Z.of_nat W) r)
    m (conv_final m s ws (from_state q W l) W).
Proof.
  intros Hb Hl Ha Hm Hd HW Hf Hq Hmore HW0 He. pose proof (enough_decides s (Z.of_nat W) q l He ltac:(lia)) as Hdec. wp_step.
  pose proof (wp_convert_from m ws W fuel Ha Hm HW [] q l s) as Hfrom. cbn [length app] in Hfrom. change (stored m ws []) with m in Hfrom.
  replace (ws + 4 * 0) with ws in Hfrom by lia. replace (Z.of_nat W - Z.of_nat 0) with (Z.of_nat W) in Hfrom by lia. replace (ws + 4 * Z.of_nat 0) with ws in Hfrom by lia.
  apply Hfrom; try done. clear Hfrom. destruct (classify (q ++ l)) as [wc k| |] eqn:Ec; [|done|].
  - destruct (pending_progress q s l W (Z.of_nat W) wc k) as (Hwz & Hk & HP); try done.
    apply (wp_convert_loop m s ws l _ W fuel); try done. exists [wc], (k - length q)%nat. split_and!; [simpl; tuple_lia|done|done].
  - intros c Hc. wp_step. wp_step. apply (wp_convert_end m s ws _ W fuel); try done.
    exists [], (-1), Invalid. split_and!; [unfold from_state; rewrite Ec; by destruct q|cbn [fst]; lia|done|]. cbn [snd fst]. split_and!; [simpl; lia|simpl; lia|simpl; lia|by left].
Qed.

(** ** Where MB_CUR_MAX is 1 *)

(** ASCII stands for itself, the other bytes for the numbers from 0xdf80 on. *)
Definition byte_char (b : Z) : Z := if b <? 0x80 then b else 0xdf00 + b.
Fixpoint from_bytes (wn : nat) (l : list Z) : list Z * Z * stop :=
  match wn, l with
  | O, _ => ([], 0, Full)
  | S _, [] => ([], 0, Invalid)
  | S wn, b :: l => if b =? 0 then ([], 0, End) else let '(o, j, e) := from_bytes wn l in (byte_char b :: o, 1 + j, e)
  end.

(** In either locale. A state that holds bytes is continued in UTF-8 in both. *)
Definition read_mbs (mb1 : bool) (q : list Z) (wn : nat) (l : list Z) : list Z * Z * stop :=
  if mb1 && bool_decide (q = []) then from_bytes wn l else from_state q wn l.

Lemma codeunit_char b : is_byte b -> CODEUNIT b = byte_char b.
Proof.
  intros Hb. assert (forallb (fun b => CODEUNIT b =? byte_char b) (seqZ 0 256) = true) as H by (vm_compute; reflexivity).
  unfold in_range in Hb. change (2 ^ 8) with 256 in Hb. apply Z.eqb_eq. exact (bytes_all _ _ _ H b ltac:(lia)).
Qed.

Lemma from_bytes_length W : forall l o j e, from_bytes W l = (o, j, e) -> (length o <= W)%nat /\ match e with Full => length o = W | _ => (length o < W)%nat end.
Proof.
  induction W as [|W IH]; intros l o j e E; cbn [from_bytes] in E; [by injection E as <- <- <-|]. destruct l as [|b l]; [injection E as <- <- <-; simpl; lia|].
  destruct (b =? 0); [injection E as <- <- <-; simpl; lia|]. destruct (from_bytes W l) as [[o' j'] e'] eqn:E'. injection E as <- <- <-. apply IH in E'. simpl. destruct e'; lia.
Qed.

Lemma wp_convert_bytes_loop W : forall l m ws s fuel, Forall is_byte l -> bytes_at m s l -> ws mod 4 = 0 -> mapped m ws (4 * W) ->
  disjoint_ranges ws (4 * W) s (length l) -> (W <= length l)%nat \/ 0 ∈ l -> (W < fuel)%nat ->
  wp (loop fuel (fun '(ws, s, wn) =>
    if negb (truth wn) then mret (inr (inl s)) else
    b ← load8 s;
    if negb (truth b) then mret (inr (inr (ws, wn))) else
    store32 ws (CODEUNIT b);; mret (inl (ws + 4, s + 1, wn - 1))) (ws, s, Z.of_nat W)) m
  (fun r m' => let '(o, j, e) := from_bytes W l in m' = mem_write m ws (wide o) /\
    match e with Full => r = inl (s + j) | End => r = inr (ws + 4 * lenZ o, Z.of_nat W - lenZ o) | Invalid => False end).
Proof.
  induction W as [|W IH]; intros l m ws s fuel Hb Hl Ha Hm Hd He Hf; (destruct fuel as [|fuel]; [lia|]); cbn [loop from_bytes].
  - change (negb (truth (Z.of_nat 0))) with true. do 2 wp_step. split; [done|]. by rewrite Z.add_0_r.
  - rewrite (proj2 (truth_true (Z.of_nat (S W)))) by lia. cbn [negb]. destruct l as [|b l]; [destruct He as [He|He]; [simpl in He; lia|by apply elem_of_nil in He]|].
    destruct Hl as [Hmb Hl]. do 2 wp_step. wp_step; [done|]. destruct (Z.eqb_spec b 0) as [->|Hz].
    + change (negb (truth 0)) with true. do 2 wp_step. split; [done|]. cbn [length]. apply f_equal, f_equal2; lia.
    + rewrite (proj2 (truth_true b) Hz). cbn [negb]. rewrite codeunit_char by (by apply Forall_inv in Hb).
      wp_step. apply wp_store_word; [done|eapply mapped_weaken; [exact Hm|lia..]|]. wp_step. lazy beta iota. replace (Z.of_nat (S W) - 1) with (Z.of_nat W) by lia.
      eapply wp_mono; [apply (IH l)|].
      * by apply Forall_inv_tail in Hb.
      * apply bytes_at_mem_write_disjoint; [|done]. rewrite length_le_split. unfold disjoint_ranges in *. simpl length in Hd. lia.
      * rewrite Z.add_mod, Ha by lia. done.
      * apply mapped_mem_write. eapply mapped_weaken; [exact Hm|lia..].
      * unfold disjoint_ranges in *. simpl length in Hd. lia.
      * destruct He as [He|He]; [left; simpl in He; lia|right]. apply elem_of_cons in He as [?|?]; [congruence|done].
      * lia.
      * intros r m'. destruct (from_bytes W l) as [[o j] e]. intros [-> Hr]. split.
        { change (wide (byte_char b :: o)) with (wide ([byte_char b] ++ o)). rewrite wide_app, wide_1, mem_write_app, length_le_split. done. }
        cbn [length]. destruct e; [|done|]; rewrite Hr; apply f_equal; [apply f_equal2; lia|lia].
Qed.

Lemma wp_convert_bytes m s ws l W fuel : Forall is_byte l -> bytes_at m s l -> ws mod 4 = 0 -> mapped m ws (4 * W) ->
  disjoint_ranges ws (4 * W) s (length l) -> Z.of_nat W < 2 ^ 62 -> Z.of_nat W + 1 < Z.of_nat fuel -> enough s (Z.of_nat W) l ->
  wp (convert_bytes fuel ws s (Z.of_nat W)) m (conv_final m s ws (from_bytes W l) W).
Proof.
  intros Hb Hl Ha Hm Hd HW Hf He. unfold convert_bytes. wp_step. eapply wp_mono; [apply (wp_convert_bytes_loop W l); try (done || lia)|].
  { destruct He as [He|(k & Hk & _)]; [left; lia|right; by apply list_elem_of_lookup_2 in Hk]. }
  intros r m'. unfold conv_final. destruct (from_bytes W l) as [[o j] e] eqn:E. apply from_bytes_length in E as [Ho E]. intros [-> Hr]. destruct e; [|done|]; subst r.
  - wp_step. apply (stored_store m ws W fuel Ha Hm); [done|]. wp_step. rewrite wrap_small by (unfold in_range; lia). split; [|done]. f_equal. lia.
  - by wp_step.
Qed.

(** The value returned, what is stored and the new source pointer. *)
Definition report (wn s : Z) (T : list Z * Z * stop) : Z * list Z * Z :=
  let '(o, j, e) := T in
  match e with
  | End => (lenZ o, o ++ [0], 0)
  | Full => (wn, o, s + j)
  | Invalid => (ERR, o, s + j)
  end.

(** What mbsrtowcs is given. *)
Record from_args (m : memory) (ws src wn st : Z) (q : list Z) (s : Z) (l : list Z) : Prop := {
  fa_src : src mod 8 = 0 /\ bytes_at m src (le_split 8 s) /\ 0 <= s < 2 ^ 64;
  fa_bytes : bytes_at m s l /\ Forall is_byte l;
  fa_state : state_at m st q s (length l);
  fa_size : 0 <= wn < 2 ^ 62 /\ lenZ l < 2 ^ 61;
  fa_dst : ws <> 0 -> ws mod 4 = 0 /\ mapped m ws (4 * Z.to_nat wn) /\ disjoint_ranges ws (4 * Z.to_nat wn) s (length l) /\ enough s wn l;
  fa_nul : ws = 0 -> enough s (2 ^ 62) l }.

(** With a destination. *)
Lemma mbsrtowcs_stores mb1 m ws src wn st q s l fuel :
  from_args m ws src wn st q s l -> ws <> 0 -> (q <> [] -> 0 < wn) -> wn + 1 < Z.of_nat fuel ->
  let '(r, out, p) := report wn s (read_mbs mb1 q (Z.to_nat wn) l) in
  mbsrtowcs mb1 fuel ws src wn st m = Some (r, mem_write (mem_write (cleared m st q) ws (wide out)) src (le_split 8 p)).
Proof.
  intros [(Hsa & Hsb & Hsr) (Hl & Hb) Hst Hsz Hd _] Hws Hq Hf. destruct (Hd Hws) as (Hwa & Hwm & Hdis & He). clear Hd.
  assert (wp (convert mb1 fuel ws s wn st) m (fun rv m' => mapped m' src 8 /\
    let '(o, j, e) := read_mbs mb1 q (Z.to_nat wn) l in
    match e with
    | Full => rv = (wn, Some (s + j)) /\ m' = mem_write (cleared m st q) ws (wide o)
    | End => rv = (lenZ o, Some 0) /\ m' = mem_write (cleared m st q) ws (wide (o ++ [0]))
    | Invalid => rv = (ERR, Some (s + j)) /\ m' = mem_write (cleared m st q) ws (wide o)
    end)) as Hc.
  { apply (wp_mono _ _ (conv_final (cleared m st q) s ws (read_mbs mb1 q (Z.to_nat wn) l) (Z.to_nat wn))).
    2: { intros [r v] m' H. unfold conv_final, stored in H. rewrite Z2Nat.id in H by lia.
      destruct (read_mbs mb1 q (Z.to_nat wn) l) as [[o j] e]. split; [|by destruct e].
      assert (mapped (cleared m st q) src 8) as Hm.
      { apply bytes_at_mapped in Hsb. rewrite length_le_split in Hsb. unfold cleared. destruct q; [done|by apply mapped_mem_write]. }
      destruct e; destruct H as [_ ->]; by apply mapped_mem_write. }
    assert (bytes_at (cleared m st q) s l) as Hl1.
    { unfold cleared. destruct q; [done|]. destruct Hst as [[_ [=]]|(_ & _ & _ & _ & Hdst)]. apply bytes_at_mem_write_disjoint; [by rewrite length_le_split|done]. }
    assert (mapped (cleared m st q) ws (4 * Z.to_nat wn)) as Hwm1 by (unfold cleared; destruct q; [done|by apply mapped_mem_write]).
    unfold convert. wp_step. eapply wp_load_state; [exact Hst|].
    assert (0 <= wn < 2 ^ 62) as Hwn by lia. rewrite <- (Z2Nat.id wn) in He by lia. set (W := Z.to_nat wn) in *. assert (wn = Z.of_nat W) as Ew by lia.
    destruct (decide (q = [])) as [->|Hqn].
    - change (truth (pack [])) with false. rewrite (proj2 (truth_true ws) Hws). cbn [negb]. rewrite Ew.
      unfold read_mbs. destruct mb1; cbn [andb]; [rewrite bool_decide_eq_true_2 by done; apply wp_convert_bytes|apply wp_convert_start]; try (done || lia).
    - assert (classify q = More) as Hm by (destruct Hst as [[_ ?]|(_ & _ & _ & [?|?] & _)]; done). specialize (Hq Hqn).
      rewrite (proj2 (truth_true _) (pack_nonzero q Hqn Hm)), (proj2 (truth_true ws) Hws).
      destruct Hst as [[_ ?]|(Hst0 & Hsta & Hstb & _ & Hstd)]; [done|]. wp_step. apply wp_store_word; [done|apply bytes_at_mapped in Hstb; by rewrite length_le_split in Hstb|].
      assert (mem_write m st (le_split 4 0) = cleared m st q) as -> by (by destruct q). set (m1 := cleared m st q) in *.
      unfold read_mbs. rewrite bool_decide_eq_false_2, andb_false_r by done. rewrite Ew. apply wp_convert_pending; try (done || lia). }
  unfold report. destruct (read_mbs mb1 q (Z.to_nat wn) l) as [[o j] e].
  destruct e; apply wp_elim; unfold mbsrtowcs; wp_step; (apply (wp_load64_split _ _ s); [done|done|done|]); wp_step; (eapply wp_mono; [exact Hc|]);
    intros [r v] m1 [Hm [[= -> ->] ->]]; wp_step; lazy beta iota; (apply wp_store_word; [done|done|]); by wp_step.
Qed.

Lemma wp_count_pending m s l q wn fuel : in_range 64 wn -> Forall is_byte l -> bytes_at m s l -> Z.of_nat (S (length l)) < 2 ^ 62 -> Z.of_nat (S (length l)) + 1 < Z.of_nat fuel ->
  q <> [] -> classify q = More -> enough s (Z.of_nat (S (length l))) l ->
  wp (r ← count_from (pack q) s wn; r ← match r with inl l => loop fuel (count_body fuel) l | inr r => mret r end; count_end wn r)
    m (count_final m (from_state q (S (length l)) l)).
Proof.
  intros Hwn Hb Hl HW Hf Hq Hmore He. pose proof (enough_decides s _ q l He ltac:(lia)) as Hdec. wp_step.
  apply (wp_count_from m wn q l); try done. destruct (classify (q ++ l)) as [wc k| |] eqn:Ec; [|done|].
  - destruct (pending_progress q s l (S (length l)) (Z.of_nat (S (length l))) wc k) as (Hwz & Hk & HP); try (done || lia).
    apply (wp_count_loop m s l _ wn fuel); try done. split; [done|]. exists [wc], (k - length q)%nat. split_and!; [done|simpl; lia|done].
  - wp_step. wp_step. apply (wp_count_end m s l _ wn fuel); try done. split; [done|].
    exists [], (-1), Invalid. split_and!; [unfold from_state; rewrite Ec; by destruct q|lia|cbn [length]; rewrite Z.sub_0_r; symmetry; by apply wrap_small|simpl; lia|].
    left. split; [by apply pack_nonzero|done].
Qed.

(** In the C locale strlen does the work, and reads aligned words. *)
Definition string_in (m : memory) (mb1 : bool) (q : list Z) (s : Z) : Prop :=
  mb1 = true -> q = [] -> mem_ok m /\ exists x, cstring m s x.

Lemma from_bytes_string x : forall n r, Forall (fun b => b <> 0) x -> (length x < n)%nat -> exists o, from_bytes n (x ++ 0 :: r) = (o, lenZ x, End) /\ length o = length x.
Proof.
  induction x as [|b x IH]; intros [|n] r Hx Hn; cbn [length] in Hn; [lia| |lia|]; cbn [app from_bytes]; [by exists []|].
  destruct (Z.eqb_spec b 0) as [->|]; [by apply Forall_inv in Hx|]. destruct (IH n r) as (o & -> & Ho); [by apply Forall_inv_tail in Hx|lia|].
  exists (byte_char b :: o). simpl length. split; [|lia]. apply f_equal2; [|done]. apply f_equal2; [done|lia].
Qed.

Lemma string_prefix m s l x : bytes_at m s l -> bytes_at m s (x ++ [0]) -> Forall (fun b => b <> 0) x -> 0 ∈ l -> exists r, l = x ++ 0 :: r.
Proof.
  revert s x. induction l as [|b l IH]; intros s x Hl Hx Hnz Hin; [by apply elem_of_nil in Hin|]. destruct Hl as [Hb Hl].
  destruct x as [|c x]; destruct Hx as [Hc Hx]; (assert (c = b) as -> by congruence) || (assert (b = 0) as -> by congruence); [by exists l|].
  pose proof (Forall_inv Hnz). apply elem_of_cons in Hin as [?|Hin]; [by cbv beta in *; congruence|]. destruct (IH (s + 1) x) as [r ->]; [done|done|by apply Forall_inv_tail in Hnz|done|]. by exists r.
Qed.

Lemma wp_count_bytes m s l x fuel : mem_ok m -> cstring m s x -> bytes_at m s l -> 0 ∈ l -> lenZ l + 2 < Z.of_nat fuel ->
  wp (n ← strlen fuel s; mret (n, @None Z)) m (count_final m (from_bytes (S (length l)) l)).
Proof.
  intros Hok Hx Hl Hin Hf. destruct (string_prefix m s l x Hl (cs_bytes _ _ _ Hx) (cs_nz _ _ _ Hx) Hin) as [r ->].
  assert (length (x ++ 0 :: r) = (length x + S (length r))%nat) as El by by rewrite length_app. rewrite El in *.
  wp_step. eapply wp_mono; [apply (wp_strlen m s x Hok Hx); lia|]. intros n m' [-> ->]. wp_step. split; [done|].
  destruct (from_bytes_string x (S (length x + S (length r))) r (cs_nz _ _ _ Hx)) as (o & -> & Ho); [lia|]. by rewrite Ho.
Qed.

(** Without. *)
Lemma mbsrtowcs_counts mb1 m src wn st q s l fuel :
  from_args m 0 src wn st q s l -> string_in m mb1 q s -> lenZ l + 2 < Z.of_nat fuel ->
  let '(o, _, e) := read_mbs mb1 q (S (length l)) l in
  mbsrtowcs mb1 fuel 0 src wn st m = Some (match e with End => lenZ o | _ => ERR end, m).
Proof.
  intros [(Hsa & Hsb & Hsr) (Hl & Hb) Hst Hsz _ He] Hstr Hf. specialize (He eq_refl).
  assert (enough s (Z.of_nat (S (length l))) l) as He' by (destruct He as [H|H]; [lia|by right]).
  assert (in_range 64 wn) as Hwn by (unfold in_range; lia).
  assert (wp (convert mb1 fuel 0 s wn st) m (count_final m (read_mbs mb1 q (S (length l)) l))) as Hc.
  { unfold convert. wp_step. eapply wp_load_state; [exact Hst|]. destruct (decide (q = [])) as [->|Hqn].
    - change (truth (pack [])) with false. change (truth 0) with false. cbn [negb]. unfold read_mbs. destruct mb1; cbn [andb].
      { rewrite bool_decide_eq_true_2 by done. destruct (Hstr eq_refl eq_refl) as (Hok & x & Hx). apply (wp_count_bytes m s l x); try (done || lia).
        destruct He as [H|(k & Hk & _)]; [lia|by apply list_elem_of_lookup_2 in Hk]. }
      apply (wp_count_loop m s l _ wn fuel); try (done || lia). split; [done|]. exists [], 0%nat. split_and!; [|simpl; lia|].
      + cbn [length]. rewrite Z.sub_0_r, wrap_small by done. tuple_lia.
      + split; [lia|simpl; lia| |]; rewrite drop_0; cbn [length]; [by rewrite Z.add_0_r, Z.sub_0_r|].
        rewrite Nat.sub_0_r. unfold from_state. destruct (from_mbs (S (length l)) l) as [[o' j'] e']. reflexivity.
    - assert (classify q = More) as Hm by (destruct Hst as [[_ ?]|(_ & _ & _ & [?|?] & _)]; done).
      rewrite (proj2 (truth_true _) (pack_nonzero q Hqn Hm)). change (truth 0) with false. unfold read_mbs. rewrite bool_decide_eq_false_2, andb_false_r by done. apply wp_count_pending; try (done || lia). }
  unfold count_final in Hc. destruct (read_mbs mb1 q (S (length l)) l) as [[o j] e]. apply wp_elim. unfold mbsrtowcs. wp_step.
  apply (wp_load64_split _ _ s); [done|done|done|]. wp_step. eapply wp_mono; [exact Hc|]. intros [r v] m1 [-> [= -> ->]]. wp_step. lazy beta iota. by do 2 wp_step.
Qed.

(** C19: [mbsrtowcs], in the UTF-8 locale and in the one where MB_CUR_MAX is
    1, restarts the character the state holds and converts what [read_mbs]
    reads. With a destination it stores exactly those characters, and a NUL
    when it reached one, sets the source pointer to null, to the end of what
    was converted or, for a malformed sequence, to its start (one byte before
    the string when the character was begun in an earlier call), and clears a
    state that held bytes; it needs no bytes but those of four for each place,
    or up to the end of the aligned word of a NUL. Without one it returns the
    length of the string or (size_t)-1 and changes nothing. A destination
    without a place is left out where the state holds the beginning of a
    character: [mbsrtowcs_no_room] says what happens then. *)
Theorem mbsrtowcs_correct mb1 m ws src wn st q s l fuel :
  from_args m ws src wn st q s l -> (ws <> 0 -> q <> [] -> 0 < wn) -> (ws = 0 -> string_in m mb1 q s) -> wn + 1 < Z.of_nat fuel -> lenZ l + 2 < Z.of_nat fuel ->
  if ws =? 0 then
    let '(o, _, e) := read_mbs mb1 q (S (length l)) l in
    mbsrtowcs mb1 fuel ws src wn st m = Some (match e with End => lenZ o | _ => ERR end, m)
  else
    let '(r, out, p) := report wn s (read_mbs mb1 q (Z.to_nat wn) l) in
    mbsrtowcs mb1 fuel ws src wn st m = Some (r, mem_write (mem_write (cleared m st q) ws (wide out)) src (le_split 8 p)).
Proof.
  intros Ha Hq Hx H1 H2. destruct (Z.eqb_spec ws 0) as [->|Hws]; [by apply (mbsrtowcs_counts mb1 m src wn st q s); auto|]. apply mbsrtowcs_stores; auto.
Qed.

(** ** wcsrtombs *)

(** What wcsrtombs is given: the wide string [wl] at [w], its address at [ws]
    and, unless [s] is null, space for [n] bytes. *)
Record to_args (m : memory) (s ws n w : Z) (wl : list Z) : Prop := {
  ta_chars : Forall in_int wl /\ Forall (fun wc => wc <> 0) wl;
  ta_string : bytes_at m w (wide (wl ++ [0])) /\ w mod 4 = 0 /\ 0 <= w /\ w + 4 * lenZ wl + 4 <= 2 ^ 64;
  ta_ptr : ws mod 8 = 0 /\ bytes_at m ws (le_split 8 w);
  ta_size : 0 <= n /\ lenZ wl < 2 ^ 61;
  ta_dst : s <> 0 -> mapped m s (Z.to_nat n) /\ disjoint_ranges s (Z.to_nat n) ws 8 /\
    disjoint_ranges w (4 * (length wl + 1)) s (Z.to_nat n) /\ disjoint_ranges w (4 * (length wl + 1)) ws 8 }.

(** The bytes of a string, or [None] at a character without an encoding. *)
Fixpoint mbs_bytes (mb1 : bool) (wl : list Z) : option (list Z) :=
  match wl with
  | [] => Some []
  | wc :: wl => l ← enc mb1 wc; o ← mbs_bytes mb1 wl; Some (l ++ o)
  end.

Lemma mbs_bytes_length mb1 wl o : mbs_bytes mb1 wl = Some o -> lenZ o <= 4 * lenZ wl.
Proof.
  revert o. induction wl as [|wc wl IH]; intros o E; cbn [mbs_bytes] in E; [injection E as <-; done|].
  destruct (enc mb1 wc) as [l|] eqn:El; [|done]. destruct (mbs_bytes mb1 wl) as [o'|]; [|done]. injection E as <-. specialize (IH o' eq_refl).
  apply enc_bytes in El as [_ El]. rewrite length_app. simpl length. lia.
Qed.

Lemma enc_small mb1 wc : in_int wc -> wrap32 wc < 0x80 -> wc <> 0 -> enc mb1 wc = Some [wc].
Proof.
  intros Hi Hlt Hz. pose proof (swrap_wrap32 wc Hi) as E. assert (0 <= wrap32 wc) as H0 by (unfold wrap; apply Z.mod_pos_bound; lia).
  rewrite swrap_small in E by (unfold in_int in *; lia). pose proof (ascii_test mb1 wc Hi) as Ht. rewrite E in *.
  rewrite wrap_small in Ht by (unfold in_range; lia). destruct (Z.leb_spec 0x7f (wc - 1)); [lia|]. by destruct Ht as [Ht _].
Qed.

Lemma wp_wcsrtombs_count m mb1 w wl fuel : Forall in_int wl -> Forall (fun wc => wc <> 0) wl -> bytes_at m w (wide (wl ++ [0])) -> w mod 4 = 0 ->
  lenZ wl < 2 ^ 61 -> lenZ wl + 1 < Z.of_nat fuel ->
  wp (wcsrtombs_count mb1 fuel w) m (fun r m' => m' = m /\ r = match mbs_bytes mb1 wl with Some o => lenZ o | None => ERR end).
Proof.
  intros Hi Hnz Hw Ha Hlen Hf. unfold wcsrtombs_count.
  apply (wp_loop (fun '(n, p) m' => m' = m /\ exists o k, n = lenZ o /\ p = w + 4 * Z.of_nat k /\ (k <= length wl)%nat /\ (length o <= 4 * k)%nat /\
    mbs_bytes mb1 wl = (o' ← mbs_bytes mb1 (drop k wl); Some (o ++ o'))) (fun '(_, p) => Z.to_nat ((w + 4 * lenZ wl - p) / 4 + 1))).
  - intros [n p] ? (-> & o & k & -> & -> & Hk & Ho & E).
    assert (exists wc, (wl ++ [0]) !! k = Some wc /\ in_int wc) as (wc & Hwc & Hin).
    { destruct (lookup_lt_is_Some_2 (wl ++ [0]) k) as [wc Hwc]; [rewrite length_app; simpl; lia|]. exists wc. split; [done|].
      apply (Forall_lookup_1 in_int (wl ++ [0]) k); [|done]. apply Forall_app. split; [done|]. by repeat constructor. }
    wp_step. apply (wp_load32_split _ _ wc); [rewrite Z.add_mod, Ha, Z.mul_comm, Z.mod_mul by lia; done|by apply (wide_at m w (wl ++ [0]))|].
    rewrite truth_wrap32 by done. destruct (truth wc) eqn:Hz.
    2: { apply truth_false in Hz. wp_step. split; [done|]. assert (k = length wl) as ->.
         { destruct (decide (k = length wl)); [done|]. rewrite lookup_app_l in Hwc by lia. by apply (Forall_lookup_1 _ _ _ _ Hnz) in Hwc. }
         rewrite drop_all in E. rewrite E. cbn [mbs_bytes mbind option_bind]. by rewrite app_nil_r. }
    apply truth_true in Hz. assert (k < length wl)%nat as Hkl.
    { destruct (decide (k = length wl)) as [->|]; [|lia]. rewrite lookup_app_r, Nat.sub_diag in Hwc by lia. by injection Hwc as <-. }
    rewrite lookup_app_l in Hwc by done. rewrite (drop_S wl wc k Hwc) in E. cbn [mbs_bytes] in E.
    assert (Z.to_nat ((w + 4 * lenZ wl - (w + 4 * Z.of_nat k + 4)) / 4 + 1) < Z.to_nat ((w + 4 * lenZ wl - (w + 4 * Z.of_nat k)) / 4 + 1))%nat as Hdec.
    { replace (w + 4 * lenZ wl - (w + 4 * Z.of_nat k + 4)) with ((lenZ wl - Z.of_nat k - 1) * 4) by lia.
      replace (w + 4 * lenZ wl - (w + 4 * Z.of_nat k)) with ((lenZ wl - Z.of_nat k) * 4) by lia. rewrite !Z.div_mul by done. lia. }
    assert (forall l, enc mb1 wc = Some l -> (length l <= 4)%nat /\ (m = m /\ exists o0 k0, wrap64 (lenZ o + lenZ l) = lenZ o0 /\ w + 4 * Z.of_nat k + 4 = w + 4 * Z.of_nat k0 /\ (k0 <= length wl)%nat /\ (length o0 <= 4 * k0)%nat /\
      mbs_bytes mb1 wl = (o' ← mbs_bytes mb1 (drop k0 wl); Some (o0 ++ o')))) as Hnext.
    { intros l El. pose proof (enc_bytes _ _ _ El) as [_ Hl]. split; [lia|]. split; [done|]. exists (o ++ l), (S k). rewrite length_app.
      split_and!; [rewrite wrap_small by (unfold in_range; lia); lia|lia|lia|lia|]. rewrite E, El. cbn [mbind option_bind].
      destruct (mbs_bytes mb1 (drop (S k) wl)); [|done]. cbn [mbind option_bind]. by rewrite app_assoc. }
    destruct (Z.leb_spec 0x80 (wrap32 wc)) as [H80|H80].
    + rewrite swrap_wrap32, wcrtomb_enc by done. destruct (enc mb1 wc) as [l|] eqn:El; cbn [fst].
      * destruct (Hnext l eq_refl) as [Hl H]. rewrite failed_len by done. wp_step. split; [exact H|exact Hdec].
      * change (failed ERR) with true. wp_step. split; [done|]. by rewrite E.
    + destruct (Hnext [wc]) as [_ H]; [by apply enc_small|]. wp_step. split; [exact H|exact Hdec].
  - split; [done|]. exists [], 0%nat. split_and!; [done|lia|lia|simpl; lia|]. rewrite drop_0. by destruct (mbs_bytes mb1 wl).
  - replace (w + 4 * lenZ wl - w) with (lenZ wl * 4) by lia. rewrite Z.div_mul by done. lia.
Qed.

(** What wcsrtombs returns and stores, and the new pointer. *)
Definition to_report (w : Z) (T : list Z * nat * stop) : Z * list Z * Z :=
  let '(o, k, e) := T in
  match e with
  | End => (lenZ o, o ++ [0], 0)
  | Full => (lenZ o, o, w + 4 * Z.of_nat k)
  | Invalid => (ERR, o, w + 4 * Z.of_nat k)
  end.

Lemma wcsrtombs_stores mb1 m s ws n w wl fuel : to_args m s ws n w wl -> s <> 0 -> n + 1 < Z.of_nat fuel ->
  let '(r, out, p) := to_report w (to_mbs mb1 n wl) in
  wcsrtombs mb1 fuel s ws n m = Some (r, mem_write (mem_write m s out) ws (le_split 8 p)).
Proof.
  intros [[Hi Hnz] (Hw & Hw4 & Hw0 & Hwr) [Hws Hptr] [Hn Hlen] Hdst] Hs Hf1.
  destruct (Hdst Hs) as (Hm & D1 & D2 & D3). pose proof (Z2Nat.id n Hn) as En.
  pose proof (wp_wcsrtombs mb1 m s ws w wl (Z.to_nat n) fuel) as H. rewrite En in H.
  assert (wp (wcsrtombs mb1 fuel s ws n) m (mbs_end mb1 m s ws w wl (Z.to_nat n))) as Hwp by (apply H; done).
  clear H. unfold mbs_end, written, wchar in Hwp. rewrite En in Hwp. unfold to_report.
  destruct (to_mbs mb1 n wl) as [[o k] e]; destruct e; apply wp_elim; (eapply wp_mono; [exact Hwp|]); intros r m' [-> ->]; done.
Qed.

(** C20: [wcsrtombs] in either locale: with space for [n] bytes it stores the
    encodings of the characters that fit, whole, and a NUL when all do,
    returns the number of bytes without the NUL, or (size_t)-1 at a character
    without an encoding, and leaves the pointer at the first character it did
    not convert, or null. Without a destination it returns the size of the
    whole encoding, and changes nothing. *)
Theorem wcsrtombs_correct mb1 m s ws n w wl fuel :
  to_args m s ws n w wl -> n + 1 < Z.of_nat fuel -> lenZ wl + 1 < Z.of_nat fuel ->
  if s =? 0 then wcsrtombs mb1 fuel s ws n m = Some (match mbs_bytes mb1 wl with Some o => lenZ o | None => ERR end, m)
  else
    let '(r, out, p) := to_report w (to_mbs mb1 n wl) in
    wcsrtombs mb1 fuel s ws n m = Some (r, mem_write (mem_write m s out) ws (le_split 8 p)).
Proof.
  intros Ha Hf1 Hf2. destruct (Z.eqb_spec s 0) as [->|Hs]; [|by apply wcsrtombs_stores].
  destruct Ha as [[Hi Hnz] (Hw & Hw4 & Hw0 & Hwr) [Hws Hptr] [Hn Hlen] _]. apply wp_elim. unfold wcsrtombs. cbn [Z.eqb]. wp_step.
  apply (wp_load64_split _ _ w); [done|done|lia|]. eapply wp_mono; [by apply (wp_wcsrtombs_count m mb1 w wl)|]. by intros r m' [-> ->].
Qed.

(** ** The round trip *)

Lemma to_mbs_all mb1 wl n o : mbs_bytes mb1 wl = Some o -> lenZ o < n -> to_mbs mb1 n wl = (o, length wl, End).
Proof.
  revert n o. induction wl as [|wc wl IH]; intros n o E Hn; cbn [mbs_bytes to_mbs] in *; (destruct (Z.eqb_spec n 0); [lia|]); [by injection E as <-|].
  destruct (enc mb1 wc) as [l|]; [|done]. cbn [mbind option_bind] in E. destruct (mbs_bytes mb1 wl) as [o'|]; [|done]. injection E as <-.
  rewrite length_app in Hn. destruct (Z.ltb_spec n (lenZ l)); [lia|]. by rewrite (IH (n - lenZ l) o') by (done || lia).
Qed.

Lemma mbs_bytes_scalars wl : Forall scalar wl -> exists o, mbs_bytes false wl = Some o /\ Forall is_byte o.
Proof.
  induction 1 as [|wc wl Hs Hwl (o & IH & Hb)]; [by exists []|]. cbn [mbs_bytes]. unfold enc. rewrite (proj2 (scalarb_spec wc) Hs), IH.
  exists (encode wc ++ o). split; [done|]. apply Forall_app. split; [by apply encode_bytes|done].
Qed.

(** What is written is read back. *)
Lemma from_to_mbs wl o rest n : Forall (fun wc => wc <> 0) wl -> mbs_bytes false wl = Some o -> (length wl < n)%nat ->
  from_mbs n (o ++ 0 :: rest) = (wl, lenZ o, End).
Proof.
  intros Hnz. revert n o. induction Hnz as [|wc wl Hwc Hwl IH]; intros n o E Hn; (destruct n as [|n]; [simpl in Hn; lia|]); cbn [mbs_bytes from_mbs] in *.
  - by injection E as <-.
  - unfold enc in E. destruct (scalarb wc) eqn:Hs; [|done]. apply scalarb_spec in Hs. cbn [mbind option_bind] in E.
    destruct (mbs_bytes false wl) as [o'|]; [|done]. injection E as <-. rewrite <- app_assoc, classify_encode by done.
    destruct (Z.eqb_spec wc 0); [done|]. rewrite drop_app_length, (IH n o') by (done || (simpl in Hn; lia)). rewrite length_app. apply f_equal2; [apply f_equal2; [done|lia]|done].
Qed.

(** C21: A string of scalar values that [wcstombs] writes and [mbstowcs] reads
    back is the string, with its length; the array between needs four bytes a
    character and four more. *)
Theorem mbs_roundtrip m wsp s w wl n d wn fuel :
  mem_ok m -> mapped m wsp 8 -> to_args (mem_write m wsp (le_split 8 w)) s wsp n w wl -> Forall scalar wl -> s <> 0 -> 4 * lenZ wl + 4 <= n ->
  d <> 0 -> d mod 4 = 0 -> mapped m d (4 * Z.to_nat wn) -> disjoint_ranges d (4 * Z.to_nat wn) s (Z.to_nat n) -> lenZ wl < wn < 2 ^ 62 ->
  n + 1 < Z.of_nat fuel -> wn + 1 < Z.of_nat fuel ->
  wp (wcstombs false fuel wsp s w n;; mbstowcs false fuel d s wn) m (fun r m' => r = lenZ wl /\ bytes_at m' d (wide (wl ++ [0]))).
Proof.
  intros Hok Hwsp Ha Hsc Hs Hn Hd Hd4 Hdm Hdis Hwn Hf1 Hf2.
  assert (exists W, wn = Z.of_nat W) as [W ->] by (exists (Z.to_nat wn); lia). rewrite Nat2Z.id in *. set (m1 := mem_write m wsp (le_split 8 w)) in *.
  destruct (mbs_bytes_scalars wl Hsc) as (o & Eo & Ho). pose proof (mbs_bytes_length _ _ _ Eo) as Hlo.
  pose proof (wcsrtombs_stores false m1 s wsp n w wl fuel Ha Hs Hf1) as Hw.
  rewrite (to_mbs_all false wl n o Eo ltac:(lia)) in Hw. cbn [to_report] in Hw. pose proof (ta_dst _ _ _ _ _ _ Ha Hs) as (Hm & D1 & _).
  set (m2 := mem_write (mem_write m1 s (o ++ [0])) wsp (le_split 8 0)) in *. pose proof (ta_ptr _ _ _ _ _ _ Ha) as [Hws8 _].
  assert (mapped m2 (s + lenZ (o ++ [0])) 3) as Hrest.
  { do 2 apply mapped_mem_write. eapply mapped_weaken; [exact Hm|rewrite ?length_app; simpl; lia..]. }
  apply mapped_bytes in Hrest as (rest & Hlr & Hrest).
  assert (mem_ok m2) as Hok2.
  { apply mem_ok_write; [|apply le_split_byte]. apply mem_ok_write; [by apply mem_ok_write; [|apply le_split_byte]|]. apply Forall_app. split; [done|]. by repeat constructor. }
  assert (bytes_at m2 s (o ++ 0 :: rest)) as Hl2.
  { replace (o ++ 0 :: rest) with ((o ++ [0]) ++ rest) by (by rewrite <- app_assoc). apply bytes_at_app. split; [|exact Hrest].
    apply bytes_at_mem_write_disjoint; [|apply mem_write_bytes_at]. rewrite length_le_split. unfold disjoint_ranges in *. rewrite length_app. simpl length. lia. }
  apply wp_bind. eapply wp_mono with (P := fun r m' => m' = m2).
  { unfold wcstombs. wp_step. apply wp_store_word; [done|done|]. fold m1. unfold wp. by rewrite Hw. }
  intros _ ? ->. unfold mbstowcs. wp_step. unfold convert. wp_step. change (truth 0) with false. wp_step. change (truth 0) with false.
  rewrite (proj2 (truth_true d) Hd). cbn [negb]. eapply wp_mono.
  - apply (wp_convert_start m2 s d (o ++ 0 :: rest) W fuel); try (done || lia).
    + by apply (mem_ok_bytes m2 s).
    + by do 3 apply mapped_mem_write.
    + unfold disjoint_ranges in *. rewrite length_app. simpl length. lia.
    + right. exists (length o). rewrite lookup_app_r, Nat.sub_diag by lia. split; [done|]. rewrite length_app. simpl length.
      pose proof (Z.div_mod (s + lenZ o) 4). pose proof (Z.mod_pos_bound (s + lenZ o) 4). lia.
  - intros r m' H. unfold conv_final in H. rewrite (from_to_mbs wl o rest) in H; [|by destruct Ha as [[_ ?] _ _ _ _]|done|lia].
    destruct H as [-> ->]. wp_step. split; [done|]. unfold stored. apply mem_write_bytes_at.
Qed.

(** ** Where there is no room, or no state *)

Lemma bind_undef {A B} (c : CMem.C A) (k : A -> CMem.C B) m a m' : c m = Some (a, m') -> k a m' = None -> (c ≫= k) m = None.
Proof. intros E. by rewrite (run_bind _ _ _ _ _ E). Qed.

Lemma store_undef n p v m : (0 < n)%nat -> m !! p = None -> store_word n p v m = None.
Proof.
  intros Hn H. unfold store_word. destruct (p mod Z.of_nat n =? 0); [|done]. destruct n as [|n]; [lia|]. cbn [store_le].
  unfold mbind, C_bind, store8. by rewrite H.
Qed.

(** C37: Space for no character is no protection when the state holds the
    beginning of one: the character is stored before the space is looked at,
    and where the destination cannot be written the call is undefined. *)
Theorem mbsrtowcs_no_room m ws src st q s l fuel wc k :
  from_args m ws src 0 st q s l -> ws <> 0 -> q <> [] -> classify (q ++ l) = Done wc k -> m !! ws = None ->
  mbsrtowcs false fuel ws src 0 st m = None.
Proof.
  intros [(Hsa & Hsb & Hsr) (Hl & Hb) Hst Hsz Hd _] Hws Hq Hc Hno.
  assert (classify q = More) as Hm by (destruct Hst as [[_ ?]|(_ & _ & _ & [?|?] & _)]; done).
  unfold mbsrtowcs. apply (bind_undef _ _ m s m); [apply wp_elim; by apply (wp_load64_split _ _ s)|].
  unfold mbind at 1, C_bind at 1. enough (convert false fuel ws s 0 st m = None) as -> by done. unfold convert.
  apply (bind_undef _ _ m (pack q) m); [apply wp_elim; by eapply wp_load_state|].
  rewrite (proj2 (truth_true _) (pack_nonzero q Hq Hm)), (proj2 (truth_true ws) Hws).
  destruct Hst as [[_ ?]|(Hst0 & Hsta & Hstb & _ & Hstd)]; [done|]. set (m1 := mem_write m st (le_split 4 0)).
  apply (bind_undef _ _ m tt m1).
  { apply wp_elim. apply wp_store_word; [done|apply bytes_at_mapped in Hstb; by rewrite length_le_split in Hstb|]. by fold m1. }
  assert (m1 !! ws = None) as Hno1.
  { unfold m1. rewrite mem_write_lookup. case_decide as Hdec; [|done]. rewrite length_le_split in Hdec. apply bytes_at_mapped in Hstb.
    rewrite length_le_split in Hstb. destruct (Hstb ws ltac:(lia)) as [? H]. congruence. }
  assert (bytes_at m1 s l) as Hl1 by (apply bytes_at_mem_write_disjoint; [by rewrite length_le_split|done]).
  unfold mbind at 1, C_bind at 1. enough (convert_from (pack q) ws s 0 m1 = None) as -> by done. unfold convert_from.
  pose proof (wp_resume m1 q l s Hq Hm Hb Hl1 ltac:(congruence)) as Hr. unfold resumed, wp in Hr. rewrite Hc in Hr.
  destruct (resume (pack q) s m1) as [[r m2]|] eqn:Er; [|done]. destruct Hr as [-> ->].
  apply (bind_undef _ _ _ _ _ Er). cbn beta iota. unfold mbind, C_bind. by rewrite store_undef by (done || lia).
Qed.

(** ** A page of memory *)

(** A wide string at 64 with room for its address at 80, 32 bytes at 96, the
    address of a string at 128, a state at 136 and the string at 144. *)
Definition mb_wide : list Z := [0xe9; 0x20ac].
Definition mb_string : list Z := [0x82; 0xac; 0x41; 0x42; 0x43; 0x44; 0x45; 0].
Definition mb_page : memory :=
  mem_write (mem_write (mem_write (mem_write (mem_write page 64 (wide (mb_wide ++ [0]))) 80 (le_split 8 64)) 128 (le_split 8 144)) 136 (le_split 4 (pack [0xe2]))) 144 mb_string.

Lemma mb_page_ok : mem_ok mb_page.
Proof. unfold mb_page. do 5 (apply mem_ok_write; [|repeat apply List.Forall_cons; try apply List.Forall_nil; first [apply le_split_byte|by apply wrap_range|unfold in_range; lia]]). apply page_ok. Qed.
Lemma mb_page_mapped p n : 64 <= p -> p + Z.of_nat n <= 192 -> mapped mb_page p n.
Proof. intros H1 H2. unfold mb_page. do 5 apply mapped_mem_write. by apply page_mapped. Qed.

Ltac bytes := repeat split; vm_compute; reflexivity.

Lemma mb_from_args ws wn st q : (ws = 160 /\ wn = 8) \/ (ws = 0 /\ wn = 8) \/ (ws = 400 /\ wn = 0) -> (st = 136 /\ q = [0xe2]) \/ (st = 0 /\ q = []) ->
  from_args mb_page ws 128 wn st q 144 mb_string.
Proof.
  intros Hc Hst. split.
  - split_and!; [done|bytes|lia..].
  - split; [bytes|]. repeat (apply List.Forall_cons; [unfold in_range; lia|]). apply List.Forall_nil.
  - destruct Hst as [[-> ->]|[-> ->]]; [right|by left]. split_and!; [done|done|bytes|by right|unfold disjoint_ranges; simpl; lia].
  - simpl. lia.
  - intros H. destruct Hc as [[-> ->]|[[-> ->]|[-> ->]]]; [|done|].
    + split_and!; [done|apply mb_page_mapped; simpl; lia|unfold disjoint_ranges; simpl; lia|right; by exists 7%nat].
    + split_and!; [done|intros x Hx; simpl in Hx; lia|unfold disjoint_ranges; simpl; lia|left; simpl; lia].
  - intros _. right. by exists 7%nat.
Qed.

Lemma mb_page_string : string_in mb_page true [] 144.
Proof.
  intros _ _. split; [apply mb_page_ok|]. exists (take 7 mb_string). split; [bytes| |intros x Hx; change (144 + 7 < x < 152) in Hx; lia].
  repeat (apply List.Forall_cons; [done|]). apply List.Forall_nil.
Qed.

Lemma mbsrtowcs_witness :
  mbsrtowcs false 30 160 128 8 136 mb_page =
    Some (6, mem_write (mem_write (mem_write mb_page 136 (le_split 4 0)) 160 (wide [0x20ac; 0x41; 0x42; 0x43; 0x44; 0x45; 0])) 128 (le_split 8 0)) /\
  mbsrtowcs false 30 0 128 8 136 mb_page = Some (6, mb_page) /\
  mbsrtowcs true 30 160 128 8 0 mb_page =
    Some (7, mem_write (mem_write mb_page 160 (wide [0xdf82; 0xdfac; 0x41; 0x42; 0x43; 0x44; 0x45; 0])) 128 (le_split 8 0)) /\
  mbsrtowcs true 30 0 128 8 0 mb_page = Some (7, mb_page).
Proof.
  split_and!.
  - apply (mbsrtowcs_correct false mb_page 160 128 8 136 [0xe2] 144 mb_string 30); [apply mb_from_args; lia || by left|lia|done|lia|cbn; lia].
  - apply (mbsrtowcs_correct false mb_page 0 128 8 136 [0xe2] 144 mb_string 30); [apply mb_from_args; lia || by left|lia|done|lia|cbn; lia].
  - apply (mbsrtowcs_correct true mb_page 160 128 8 0 [] 144 mb_string 30); [apply mb_from_args; lia || by right|lia|done|lia|cbn; lia].
  - apply (mbsrtowcs_correct true mb_page 0 128 8 0 [] 144 mb_string 30); [apply mb_from_args; lia || by right|lia|intros _; apply mb_page_string|lia|cbn; lia].
Defined.

Lemma mbsrtowcs_no_room_witness : mbsrtowcs false 30 400 128 0 136 mb_page = None.
Proof. apply (mbsrtowcs_no_room mb_page 400 128 136 [0xe2] 144 mb_string 30 0x20ac 3); [apply mb_from_args; lia || by left|done..]. Defined.

Lemma mb_to_args s n : (s = 96 /\ n = 12) \/ (s = 96 /\ n = 4) \/ (s = 0 /\ n = 0) -> to_args mb_page s 80 n 64 mb_wide.
Proof.
  intros Hc. split.
  - split; repeat (apply List.Forall_cons; [unfold in_int; lia|]); apply List.Forall_nil.
  - split_and!; [bytes|done|done|simpl; lia].
  - split; [done|bytes].
  - simpl. lia.
  - intros H. destruct Hc as [[-> ->]|[[-> ->]|[-> ->]]]; [| |done];
      (split_and!; [apply mb_page_mapped; simpl; lia|unfold disjoint_ranges; simpl; lia..]).
Qed.

Lemma wcsrtombs_witness :
  wcsrtombs false 30 96 80 4 mb_page = Some (2, mem_write (mem_write mb_page 96 [0xc3; 0xa9]) 80 (le_split 8 68)) /\
  wcsrtombs false 30 0 80 0 mb_page = Some (5, mb_page) /\ wcsrtombs true 30 0 80 0 mb_page = Some (ERR, mb_page).
Proof.
  split_and!.
  - apply (wcsrtombs_correct false mb_page 96 80 4 64 mb_wide 30); [apply mb_to_args; lia|lia|cbn; lia].
  - apply (wcsrtombs_correct false mb_page 0 80 0 64 mb_wide 30); [apply mb_to_args; lia|lia|cbn; lia].
  - apply (wcsrtombs_correct true mb_page 0 80 0 64 mb_wide 30); [apply mb_to_args; lia|lia|cbn; lia].
Defined.

Lemma mbs_roundtrip_witness :
  wp (wcstombs false 30 80 96 64 12;; mbstowcs false 30 160 96 3) mb_page (fun r m' => r = 2 /\ bytes_at m' 160 (wide (mb_wide ++ [0]))).
Proof.
  apply (mbs_roundtrip mb_page 80 96 64 mb_wide 12 160 3 30); try (done || cbn; lia).
  - apply mb_page_ok.
  - apply mb_page_mapped; simpl; lia.
  - rewrite mem_write_id by bytes. apply mb_to_args. lia.
  - repeat (apply List.Forall_cons; [unfold scalar; lia|]); apply List.Forall_nil.
  - apply mb_page_mapped; simpl; lia.
  - unfold disjoint_ranges. simpl. lia.
Defined.

(** With no state of its own mbsnrtowcs rolls back the incomplete character at
    the end of its input through the null pointer; with one it returns. *)
Lemma mbsnrtowcs_null_state :
  let m := mem_write (mem_write page 64 (le_split 8 96)) 96 [0x41; 0xe2; 0x82] in
  mbsnrtowcs 1000 72 false 20 160 64 3 4 0 m = None /\
  (fst <$> mbsnrtowcs 1000 72 false 20 160 64 3 4 80 m) = Some 1.
Proof. split; vm_compute; reflexivity. Qed.
