(* ===== verification/IntScan.v ===== *)
(** * IntScan: reading integers, musl src/internal/intscan.c and its callers

    A scanner takes bytes from a [FILE] with shgetc and gives them back with
    shunget. The strto* functions make a FILE of a string, the wcsto*
    functions one whose read function narrows a wide string chunk by chunk.
    Also atoi, atol and atoll, which scan the string themselves, and the digit
    printers of vfprintf.c. The functions return errno where they set it. *)

From stdpp Require Import base tactics numbers list gmap.
From S2P Require Import Prelude CMem StrScan.
Open Scope Z_scope.

(** ** ctype *)

Definition isspace (c : Z) : bool := (c =? 32) || (wrap32 (wrap32 c - 9) <? 5).
Definition isdigit (c : Z) : bool := wrap32 (wrap32 c - 48) <? 10.

Definition spaces : list Z :=
  [32; 9; 10; 13; 11; 12; 0x85; 0x2000; 0x2001; 0x2002; 0x2003; 0x2004; 0x2005;
   0x2006; 0x2008; 0x2009; 0x200a; 0x2028; 0x2029; 0x205f; 0x3000].
Definition iswspace (wc : Z) : bool := truth wc && bool_decide (wc ∈ spaces).

(** ** FILE

    The members of struct _IO_FILE that reading uses. *)

Record FILE := mk_FILE {
  flags : Z; rpos : Z; rend : Z; wend : Z; wpos : Z; wbase : Z; buf : Z; buf_size : Z; mode : Z; cookie : Z;
  shend : Z; shlim : Z; shcnt : Z }.

Definition EOF : Z := -1.
Definition F_NORD : Z := 4.
Definition F_EOF : Z := 16.
Definition F_ERR : Z := 32.

Definition with_read (f : FILE) (rpos rend : Z) : FILE :=
  mk_FILE (flags f) rpos rend (wend f) (wpos f) (wbase f) (buf f) (buf_size f) (mode f) (cookie f) (shend f) (shlim f) (shcnt f).
Definition with_sh (f : FILE) (shend shlim shcnt : Z) : FILE :=
  mk_FILE (flags f) (rpos f) (rend f) (wend f) (wpos f) (wbase f) (buf f) (buf_size f) (mode f) (cookie f) shend shlim shcnt.
Definition with_flags (f : FILE) (flags : Z) : FILE :=
  mk_FILE flags (rpos f) (rend f) (wend f) (wpos f) (wbase f) (buf f) (buf_size f) (mode f) (cookie f) (shend f) (shlim f) (shcnt f).

(** The macro shcnt. *)
Definition shcount (f : FILE) : Z := shcnt f + (rpos f - buf f).

Definition __shlim (f : FILE) (lim : Z) : FILE :=
  with_sh f (if truth lim && (lim <? rend f - rpos f) then rpos f + lim else rend f) lim (buf f - rpos f).

Definition shunget (f : FILE) : FILE := if 0 <=? shlim f then with_read f (rpos f - 1) (rend f) else f.

(** The string pseudo-FILE of shgetc.h, over whatever the structure held. *)
Definition sh_fromstring (f : FILE) (s : Z) : FILE :=
  mk_FILE (flags f) s (wrap64 (-1)) (wend f) (wpos f) (wbase f) s (buf_size f) (mode f) (cookie f) (shend f) (shlim f) (shcnt f).

Section stream.
(** The functions of the stream: [read] stores into its one-byte buffer, whose
    content it returns with the count; [write] flushes. *)
Variables (read : FILE -> CMem.C (Z * Z * FILE)) (write : FILE -> CMem.C FILE).

Definition __toread (f : FILE) : CMem.C (Z * FILE) :=
  let f := mk_FILE (flags f) (rpos f) (rend f) (wend f) (wpos f) (wbase f) (buf f) (buf_size f) (Z.lor (mode f) (mode f - 1)) (cookie f) (shend f) (shlim f) (shcnt f) in
  f ← (if wpos f =? wbase f then mret f else write f);
  let f := mk_FILE (flags f) (rpos f) (rend f) 0 0 0 (buf f) (buf_size f) (mode f) (cookie f) (shend f) (shlim f) (shcnt f) in
  if truth (Z.land (flags f) F_NORD) then mret (EOF, with_flags f (Z.lor (flags f) F_ERR)) else
  let f := with_read f (buf f + buf_size f) (buf f + buf_size f) in
  mret (if truth (Z.land (flags f) F_EOF) then EOF else 0, f).

Definition __uflow (f : FILE) : CMem.C (Z * FILE) :=
  '(r, f) ← __toread f;
  if truth r then mret (EOF, f) else
  '(n, c, f) ← read f;
  mret (if n =? 1 then c else EOF, f).

Definition __shgetc (f : FILE) : CMem.C (Z * FILE) :=
  let cnt := shcount f in
  let eof f := mret (EOF, with_sh f (rpos f) (-1) (buf f - rpos f + cnt)) in
  if truth (shlim f) && (shlim f <=? cnt) then eof f else
  '(c, f) ← __uflow f;
  if c <? 0 then eof f else
  let cnt := cnt + 1 in
  let f := with_sh f (if truth (shlim f) && (shlim f - cnt <? rend f - rpos f) then rpos f + (shlim f - cnt) else rend f) (shlim f) (buf f - rpos f + cnt) in
  (if rpos f <=? buf f then store8 (rpos f - 1) c else mret tt);;
  mret (c, f).

Definition shgetc (f : FILE) : CMem.C (Z * FILE) :=
  if rpos f =? shend f then __shgetc f else b ← load8 (rpos f); mret (b, with_read f (rpos f + 1) (rend f)).

(** ** __intscan *)

Definition EINVAL : Z := 22.
Definition ERANGE : Z := 34.
Definition UINT_MAX : Z := 2 ^ 32 - 1.
Definition ULLONG_MAX : Z := 2 ^ 64 - 1.

Definition none (n : nat) : list Z := replicate n 255.
Definition table : list Z :=
  none 1 ++ none 16 ++ none 16 ++ none 16 ++
  [0; 1; 2; 3; 4; 5; 6; 7; 8; 9] ++ none 6 ++
  none 1 ++ [10; 11; 12; 13; 14; 15; 16; 17; 18; 19; 20; 21; 22; 23; 24] ++
  [25; 26; 27; 28; 29; 30; 31; 32; 33; 34; 35] ++ none 5 ++
  none 1 ++ [10; 11; 12; 13; 14; 15; 16; 17; 18; 19; 20; 21; 22; 23; 24] ++
  [25; 26; 27; 28; 29; 30; 31; 32; 33; 34; 35] ++ none 5 ++
  none 16 ++ none 16 ++ none 16 ++ none 16 ++ none 16 ++ none 16 ++ none 16 ++ none 16.

(** [val[c]], from -1 on. *)
Definition val (c : Z) : Z := default 255 (table !! Z.to_nat (c + 1)).

(** A loop [for (; test; c=shgetc(f)) x = step]. *)
Definition scan (fuel : nat) (test : Z -> Z -> bool) (step : Z -> Z -> Z) (x c : Z) (f : FILE) : CMem.C (Z * Z * FILE) :=
  loop fuel (fun '(x, c, f) => if test x c then '(c', f) ← shgetc f; mret (inl (step x c, c', f)) else mret (inr (x, c, f))) (x, c, f).

Definition bs (base : Z) : Z := default 0 ([0; 1; 2; 4; 7; 3; 6; 5] !! Z.to_nat (Z.land (Z.shiftr (wrap32 (0x17 * base)) 5) 7)).

Definition accumulate (fuel : nat) (base c : Z) (f : FILE) : CMem.C (Z * Z * FILE) :=
  if base =? 10 then
    '(x, c, f) ← scan fuel (fun x c => (wrap32 (c - 48) <? 10) && (x <=? UINT_MAX / 10 - 1)) (fun x c => wrap32 (wrap32 (x * 10) + (c - 48))) 0 c f;
    scan fuel (fun y c => (wrap32 (c - 48) <? 10) && (y <=? ULLONG_MAX / 10) && (wrap64 (10 * y) <=? wrap64 (ULLONG_MAX - (c - 48))))
      (fun y c => wrap64 (wrap64 (y * 10) + (c - 48))) x c f
  else if negb (truth (Z.land base (wrap32 (base - 1)))) then
    '(x, c, f) ← scan fuel (fun x c => (val c <? base) && (x <=? UINT_MAX / 32)) (fun x c => Z.lor (wrap32 (Z.shiftl x (bs base))) (val c)) 0 c f;
    scan fuel (fun y c => (val c <? base) && (y <=? Z.shiftr ULLONG_MAX (bs base))) (fun y c => Z.lor (wrap64 (Z.shiftl y (bs base))) (val c)) x c f
  else
    '(x, c, f) ← scan fuel (fun x c => (val c <? base) && (x <=? UINT_MAX / 36 - 1)) (fun x c => wrap32 (wrap32 (x * base) + val c)) 0 c f;
    scan fuel (fun y c => (val c <? base) && (y <=? ULLONG_MAX / base) && (wrap64 (base * y) <=? ULLONG_MAX - val c))
      (fun y c => wrap64 (wrap64 (y * base) + val c)) x c f.

(** From [if (base == 10)] to the end: the digits, and the result. *)
Definition finish (fuel : nat) (base neg lim c : Z) (f : FILE) : CMem.C (Z * option Z * FILE) :=
  '(y, c, f) ← accumulate fuel base c f;
  '(y, neg, errno, f) ← (if negb ((base =? 10) && (10 <=? wrap32 (c - 48))) && (val c <? base) then
      '(_, _, f) ← scan fuel (fun _ c => val c <? base) (fun x _ => x) 0 c f;
      mret (lim, if truth (Z.land lim 1) then 0 else neg, Some ERANGE, f)
    else mret (y, neg, None, f));
  let f := shunget f in
  if (lim <=? y) && (negb (truth (Z.land lim 1)) && negb (truth neg)) then mret (wrap64 (lim - 1), Some ERANGE, f)
  else if (lim <=? y) && (lim <? y) then mret (lim, Some ERANGE, f)
  else mret (wrap64 (Z.lxor y (wrap64 neg) - wrap64 neg), errno, f).

Definition __intscan (fuel : nat) (f : FILE) (base : Z) (pok : bool) (lim : Z) : CMem.C (Z * option Z * FILE) :=
  if (36 <? base) || (base =? 1) then mret (0, Some EINVAL, f) else
  '(c, f) ← loop fuel (fun f => '(c, f) ← shgetc f; mret (if isspace c then inl f else inr (c, f))) f;
  '(neg, c, f) ← (if (c =? 43) || (c =? 45) then '(c', f) ← shgetc f; mret (if c =? 45 then -1 else 0, c', f) else mret (0, c, f));
  if ((base =? 0) || (base =? 16)) && (c =? 48) then
    '(c, f) ← shgetc f;
    if Z.lor c 32 =? 120 then
      '(c, f) ← shgetc f;
      if 16 <=? val c then
        let f := shunget f in
        mret (0, None, if pok then shunget f else __shlim f 0)
      else finish fuel 16 neg lim c f
    else finish fuel (if base =? 0 then 8 else base) neg lim c f
  else
    let base := if base =? 0 then 10 else base in
    if base <=? val c then mret (0, Some EINVAL, __shlim (shunget f) 0) else finish fuel base neg lim c f.
End stream.

(** ** strto* *)

Section strtol.
Variables (read : FILE -> CMem.C (Z * Z * FILE)) (write : FILE -> CMem.C FILE).

(** [f0] is what the local FILE holds before it is set up. *)
Definition strtox (fuel : nat) (f0 : FILE) (s p base lim : Z) : CMem.C (Z * option Z) :=
  let f := __shlim (sh_fromstring f0 s) 0 in
  '(y, e, f) ← __intscan read write fuel f (wrap32 base) true lim;
  (if truth p then store64 p (s + shcount f) else mret tt);;
  mret (y, e).

Definition strtoull (fuel : nat) (f0 : FILE) (s p base : Z) : CMem.C (Z * option Z) := strtox fuel f0 s p base ULLONG_MAX.
Definition strtoul (fuel : nat) (f0 : FILE) (s p base : Z) : CMem.C (Z * option Z) := strtox fuel f0 s p base ULLONG_MAX.
Definition strtoll (fuel : nat) (f0 : FILE) (s p base : Z) : CMem.C (Z * option Z) :=
  '(y, e) ← strtox fuel f0 s p base (2 ^ 63); mret (swrap64 y, e).
Definition strtol (fuel : nat) (f0 : FILE) (s p base : Z) : CMem.C (Z * option Z) :=
  '(y, e) ← strtox fuel f0 s p base (2 ^ 63); mret (swrap64 y, e).
Definition strtoimax (fuel : nat) (f0 : FILE) (s p base : Z) : CMem.C (Z * option Z) := strtoll fuel f0 s p base.
Definition strtoumax (fuel : nat) (f0 : FILE) (s p base : Z) : CMem.C (Z * option Z) := strtoull fuel f0 s p base.
End strtol.

(** ** wcsto* *)

Section wcstol.
(** The addresses of the local buffer and of the literal L"@". *)
Variables (bufp at_sign : Z) (write : FILE -> CMem.C FILE).

(** Called with a length of 1. *)
Definition do_read (fuel : nat) (f : FILE) : CMem.C (Z * Z * FILE) :=
  x ← load32 (cookie f);
  let wcs := if negb (truth x) then at_sign else cookie f in
  i ← loop fuel (fun i =>
    if i <? buf_size f then
      x ← load32 (wcs + 4 * i);
      if truth x then store8 (buf f + i) (if swrap32 x <? 128 then x else 64);; mret (inl (i + 1)) else mret (inr i)
    else mret (inr i)) 0;
  let f := mk_FILE (flags f) (buf f) (buf f + i) (wend f) (wpos f) (wbase f) (buf f) (buf_size f) (mode f) (wcs + 4 * i) (shend f) (shlim f) (shcnt f) in
  if truth i then b ← load8 (rpos f); mret (1, b, with_read f (rpos f + 1) (rend f)) else mret (0, 0, f).

Definition wcstox (fuel : nat) (s p base lim : Z) : CMem.C (Z * option Z) :=
  t ← loop fuel (fun t => x ← load32 t; mret (if iswspace x then inl (t + 4) else inr t)) s;
  let f := mk_FILE 0 (bufp + 4) (bufp + 4) 0 0 0 (bufp + 4) 60 0 t 0 0 0 in
  let f := __shlim f 0 in
  '(y, e, f) ← __intscan (do_read fuel) write fuel f (wrap32 base) true lim;
  (if truth p then let cnt := shcount f in store64 p (if truth cnt then t + 4 * cnt else s) else mret tt);;
  mret (y, e).

Definition wcstoull (fuel : nat) (s p base : Z) : CMem.C (Z * option Z) := wcstox fuel s p base ULLONG_MAX.
Definition wcstoul (fuel : nat) (s p base : Z) : CMem.C (Z * option Z) := wcstox fuel s p base ULLONG_MAX.
Definition wcstoll (fuel : nat) (s p base : Z) : CMem.C (Z * option Z) :=
  '(y, e) ← wcstox fuel s p base (2 ^ 63); mret (swrap64 y, e).
Definition wcstol (fuel : nat) (s p base : Z) : CMem.C (Z * option Z) :=
  '(y, e) ← wcstox fuel s p base (2 ^ 63); mret (swrap64 y, e).
Definition wcstoimax (fuel : nat) (s p base : Z) : CMem.C (Z * option Z) := wcstoll fuel s p base.
Definition wcstoumax (fuel : nat) (s p base : Z) : CMem.C (Z * option Z) := wcstoull fuel s p base.
End wcstol.

(** ** atoi, atol and atoll *)

(** A signed result: beyond its range the behaviour is undefined. *)
Definition checked (w z : Z) : CMem.C Z := if (- 2 ^ (w - 1) <=? z) && (z <? 2 ^ (w - 1)) then mret z else undef.

Definition ato (w : Z) (fuel : nat) (s : Z) : CMem.C Z :=
  s ← loop fuel (fun s => b ← load8 s; mret (if isspace b then inl (s + 1) else inr s)) s;
  b ← load8 s;
  let neg := b =? 45 in
  let s := if (b =? 45) || (b =? 43) then s + 1 else s in
  n ← loop fuel (fun '(n, s) =>
    b ← load8 s;
    if isdigit b then m ← checked w (10 * n); n ← checked w (m - (b - 48)); mret (inl (n, s + 1)) else mret (inr n)) (0, s);
  if neg then mret n else checked w (- n).

Definition atoi (fuel : nat) (s : Z) : CMem.C Z := ato 32 fuel s.
Definition atol (fuel : nat) (s : Z) : CMem.C Z := ato 64 fuel s.
Definition atoll (fuel : nat) (s : Z) : CMem.C Z := ato 64 fuel s.

(** ** The digit printers of vfprintf.c

    They write backwards from [s] and return where the digits begin. *)

Definition xdigits : list Z := [48; 49; 50; 51; 52; 53; 54; 55; 56; 57; 65; 66; 67; 68; 69; 70].

Definition print (fuel : nat) (test : Z -> bool) (char next : Z -> Z) (x s : Z) : CMem.C (Z * Z) :=
  loop fuel (fun '(x, s) => if test x then store8 (s - 1) (char x);; mret (inl (next x, s - 1)) else mret (inr (x, s))) (x, s).

Definition fmt_x (fuel : nat) (x s lower : Z) : CMem.C Z :=
  r ← print fuel truth (fun x => Z.lor (default 0 (xdigits !! Z.to_nat (Z.land x 15))) lower) (fun x => Z.shiftr x 4) x s; mret r.2.
Definition fmt_o (fuel : nat) (x s : Z) : CMem.C Z :=
  r ← print fuel truth (fun x => 48 + Z.land x 7) (fun x => Z.shiftr x 3) x s; mret r.2.
Definition fmt_u (fuel : nat) (x s : Z) : CMem.C Z :=
  '(x, s) ← print fuel (fun x => 2 ^ 64 - 1 <? x) (fun x => 48 + x `mod` 10) (fun x => x / 10) x s;
  r ← print fuel truth (fun x => 48 + x `mod` 10) (fun x => x / 10) x s; mret r.2.
