(* ===== verification/IntScanProofs.v ===== *)
(** * IntScanProofs: integers are read as the C standard says

    [parse] says which prefix of a string is a number in a base and which
    number; [__intscan] computes it from any stream that keeps the promises of
    the class [Stream], with the result and errno of [result]. *)

From Stdlib Require Import ZArith Lia Bool.
From stdpp Require Import base tactics numbers list gmap.
From S2P Require Import Prelude CMem StrScan Utf8Proofs IntScan.
Open Scope Z_scope.

(** ** Numbers in a base *)

Definition digit (b : Z) : option Z :=
  if (48 <=? b) && (b <=? 57) then Some (b - 48)
  else if (65 <=? b) && (b <=? 90) then Some (b - 55)
  else if (97 <=? b) && (b <=? 122) then Some (b - 87) else None.

Definition dig (base b : Z) : option Z := match digit b with Some d => if d <? base then Some d else None | None => None end.

Fixpoint digits (base : Z) (l : list Z) : list Z :=
  match l with b :: l => match dig base b with Some d => d :: digits base l | None => [] end | [] => [] end.

Definition number_from (base x : Z) (ds : list Z) : Z := foldl (fun x d => x * base + d) x ds.
Definition number (base : Z) (ds : list Z) : Z := number_from base 0 ds.

Fixpoint prefix_len (p : Z -> bool) (l : list Z) : nat :=
  match l with b :: l => if p b then S (prefix_len p l) else 0%nat | [] => 0%nat end.

(** The base, and how many bytes of a prefix 0x belong to it. *)
Definition prefix (base : Z) (l : list Z) : Z * nat :=
  match l with
  | 48 :: x :: b :: _ =>
      if ((base =? 0) || (base =? 16)) && ((x =? 120) || (x =? 88)) && bool_decide (is_Some (dig 16 b)) then (16, 2%nat)
      else if base =? 0 then (8, 0%nat) else (base, 0%nat)
  | 48 :: _ => if base =? 0 then (8, 0%nat) else (base, 0%nat)
  | _ => if base =? 0 then (10, 0%nat) else (base, 0%nat)
  end.

(** The sign, the number and where it ends; [None] where there is none. *)
Definition parse (base : Z) (l : list Z) : option (bool * Z * nat) :=
  let i := prefix_len isspace l in
  let '(neg, i) := match l !! i with Some 45 => (true, S i) | Some 43 => (false, S i) | _ => (false, i) end in
  let '(base, k) := prefix base (drop i l) in
  match digits base (drop (i + k) l) with
  | [] => None
  | ds => Some (neg, number base ds, (i + k + length ds)%nat)
  end.

(** The value returned with its errno, for the limits of the unsigned and the
    signed functions, and the end. *)
Definition clamp (lim : Z) (neg : bool) (v : Z) : Z * option Z :=
  if truth (Z.land lim 1) then if lim <? v then (lim, Some ERANGE) else (wrap64 (if neg then - v else v), None)
  else if neg then if lim <? v then (lim, Some ERANGE) else (wrap64 (- v), None)
  else if lim <=? v then (lim - 1, Some ERANGE) else (v, None).
Definition result (lim base : Z) (l : list Z) : Z * option Z * nat :=
  if (36 <? base) || (base =? 1) then (0, Some EINVAL, 0%nat) else
  match parse base l with
  | None => (0, Some EINVAL, 0%nat)
  | Some (neg, v, e) => (clamp lim neg v, e)
  end.

(** ** Digits *)

Lemma dig_inv base b d : dig base b = Some d ->
  d < base /\ (48 <= b <= 57 /\ d = b - 48 \/ 65 <= b <= 90 /\ d = b - 55 \/ 97 <= b <= 122 /\ d = b - 87).
Proof.
  unfold dig, digit. intros H.
  destruct ((48 <=? b) && (b <=? 57)) eqn:E1; [|destruct ((65 <=? b) && (b <=? 90)) eqn:E2; [|destruct ((97 <=? b) && (b <=? 122)) eqn:E3; [|discriminate H]]]; cbn beta iota in H;
    match type of H with context [?x <? base] => destruct (x <? base) eqn:?; [injection H as H|done] end; lia.
Qed.

Lemma dig_range base b d : dig base b = Some d -> 0 <= d < base.
Proof. intros H. apply dig_inv in H. lia. Qed.

Lemma val_digit b : is_byte b -> val b = default 255 (digit b).
Proof.
  unfold in_range. change (2 ^ 8) with 256. intros Hb.
  assert (forallb (fun b => val b =? default 255 (digit b)) (seqZ 0 256) = true) as H by (vm_compute; reflexivity).
  apply Z.eqb_eq. by apply (bytes_all _ _ _ H b); lia.
Qed.

Lemma val_test base b : is_byte b -> base <= 36 -> (val b <? base) = match dig base b with Some _ => true | None => false end.
Proof. intros Hb Hbase. rewrite val_digit by done. unfold dig. destruct (digit b) as [d|]; simpl; [by destruct (d <? base)|]. by destruct (Z.ltb_spec 255 base); [lia|]. Qed.
Lemma val_dig base b d : is_byte b -> dig base b = Some d -> val b = d.
Proof. intros Hb H. rewrite val_digit by done. unfold dig in H. destruct (digit b) as [d'|]; [|done]. destruct (d' <? base); [|done]. by injection H. Qed.

Lemma dec_test b : is_byte b -> (wrap32 (b - 48) <? 10) = match dig 10 b with Some _ => true | None => false end.
Proof.
  unfold in_range. change (2 ^ 8) with 256. intros Hb.
  assert (forallb (fun b => Bool.eqb (wrap32 (b - 48) <? 10) match dig 10 b with Some _ => true | None => false end) (seqZ 0 256) = true) as H by (vm_compute; reflexivity).
  apply eqb_prop. by apply (bytes_all _ _ _ H b); lia.
Qed.
Lemma dec_dig b d : dig 10 b = Some d -> b - 48 = d.
Proof. intros H. apply dig_inv in H. lia. Qed.

Lemma digits_range base l : Forall (fun d => 0 <= d < base) (digits base l).
Proof.
  induction l as [|b l IH]; cbn [digits]; [done|]. destruct (dig base b) eqn:E; [|done]. apply List.Forall_cons; [by apply (dig_range _ b)|done].
Qed.
Lemma digits_length base l : (length (digits base l) <= length l)%nat.
Proof. induction l as [|b l IH]; cbn [digits]; [done|]. destruct (dig base b); simpl; lia. Qed.

Lemma digits_drop base l k : (k <= length (digits base l))%nat -> digits base (drop k l) = drop k (digits base l).
Proof.
  revert k. induction l as [|b l IH]; intros k Hk; [by destruct k|]. destruct k as [|k]; [by rewrite !drop_0|]. cbn [digits drop] in *.
  destruct (dig base b); [|simpl in Hk; lia]. cbn [drop]. apply IH. simpl in Hk. lia.
Qed.

Lemma number_from_ge base x ds : 1 <= base -> 0 <= x -> Forall (fun d => 0 <= d < base) ds -> x <= number_from base x ds.
Proof.
  intros Hb Hx Hds. revert x Hx. induction Hds as [|d ds Hd Hds IH]; intros x Hx; [unfold number_from; simpl; lia|].
  change (number_from base x (d :: ds)) with (number_from base (x * base + d) ds). specialize (IH (x * base + d) ltac:(nia)). nia.
Qed.
Lemma number_from_app base x ds es : number_from base x (ds ++ es) = number_from base (number_from base x ds) es.
Proof. apply foldl_app. Qed.

(** Once a digit does not fit, nothing does. *)
Lemma number_from_exceeds base x ds k d M : 1 <= base -> 0 <= x -> Forall (fun d => 0 <= d < base) ds -> ds !! k = Some d ->
  M < number_from base x (take k ds) * base + d -> M < number_from base x ds.
Proof.
  intros Hb Hx Hds Hk HM. rewrite <- (take_drop_middle ds k d Hk), number_from_app. change (d :: drop (S k) ds) with ([d] ++ drop (S k) ds).
  rewrite number_from_app. unfold number_from at 2. cbn [foldl].
  pose proof (Forall_lookup_1 _ _ _ _ Hds Hk) as Hd. cbv beta in Hd.
  pose proof (number_from_ge base x (take k ds) Hb Hx (Forall_take _ _ _ Hds)).
  pose proof (number_from_ge base (number_from base x (take k ds) * base + d) (drop (S k) ds) Hb ltac:(nia) (Forall_drop _ _ _ Hds)). lia.
Qed.

(** ** Streams *)

(** What the scanner relies on: the stream delivers the bytes of [l] and then
    [term]; [At i] holds once [i] of them are taken, and counts them. *)
Class Stream (read : FILE -> CMem.C (Z * Z * FILE)) (write : FILE -> CMem.C FILE) (l : list Z) (term : Z) (At : nat -> FILE -> memory -> Prop) : Prop := {
  st_bytes : Forall is_byte l;
  st_term : is_byte term /\ isspace term = false /\ digit term = None /\ term <> 43 /\ term <> 45 /\ Z.lor term 32 <> 120;
  st_getc : forall i f m, (i <= length l)%nat -> At i f m ->
    wp (shgetc read write f) m (fun r m' => r.1 = default term (l !! i) /\ At (S i) r.2 m');
  st_count : forall i f m, At i f m -> shlim f = 0 /\ shcount f = Z.of_nat i }.

Section stream.
Context {read : FILE -> CMem.C (Z * Z * FILE)} {write : FILE -> CMem.C FILE} {l : list Z} {term : Z} {At : nat -> FILE -> memory -> Prop}.
Context {ST : Stream read write l term At}.

Definition inp (i : nat) : Z := default term (l !! i).

Lemma inp_byte i : is_byte (inp i).
Proof.
  unfold inp. destruct (l !! i) as [b|] eqn:E; simpl; [by apply (Forall_lookup_1 _ _ _ _ st_bytes E)|]. by apply st_term.
Qed.

Lemma inp_digit base i : dig base (inp i) = head (digits base (drop i l)).
Proof.
  unfold inp. destruct (l !! i) as [b|] eqn:E; simpl.
  - rewrite (drop_S l b i E). cbn [digits]. by destruct (dig base b).
  - rewrite drop_ge by (by apply lookup_ge_None). cbn [digits head]. unfold dig. destruct st_term as (_ & _ & -> & _). done.
Qed.

Lemma inp_digits base i k : (k <= length (digits base (drop i l)))%nat -> dig base (inp (i + k)) = digits base (drop i l) !! k.
Proof.
  intros Hk. rewrite inp_digit, <- drop_drop, digits_drop by done. rewrite head_lookup, lookup_drop. f_equal. lia.
Qed.

Lemma wp_getc i f m (Q : Z * FILE -> memory -> Prop) : (i <= length l)%nat -> At i f m -> (forall f' m', At (S i) f' m' -> Q (inp i, f') m') ->
  wp (shgetc read write f) m Q.
Proof. intros Hi Ha HQ. eapply wp_mono; [by apply st_getc|]. intros [c f'] m' [E H]. cbn [fst snd] in *. rewrite E. by apply HQ. Qed.

(** A loop over digits: it takes all of them, or stops before one that [guard]
    refuses. *)
Lemma wp_scan_digits base test step guard next (P : Z -> Prop) x0 i f m fuel (Q : Z * Z * FILE -> memory -> Prop) :
  (forall x c, is_byte c -> test x c = match dig base c with Some d => guard x d | None => false end) ->
  (forall x c d, P x -> is_byte c -> dig base c = Some d -> guard x d = true -> step x c = next x d /\ P (next x d)) ->
  P x0 -> (i <= length l)%nat -> At (S i) f m -> (length l < fuel)%nat ->
  (let ds := digits base (drop i l) in forall k f' m', (k <= length ds)%nat -> (i + k <= length l)%nat -> P (foldl next x0 (take k ds)) -> At (S (i + k)) f' m' ->
     k = length ds \/ (exists d, ds !! k = Some d /\ guard (foldl next x0 (take k ds)) d = false) -> Q (foldl next x0 (take k ds), inp (i + k), f') m') ->
  wp (scan read write fuel test step x0 (inp i) f) m Q.
Proof.
  intros Htest Hstep Hx0 Hi Ha Hf HQ. unfold scan. cbv zeta in HQ. set (ds := digits base (drop i l)) in *.
  pose proof (digits_length base (drop i l)) as Hlen. fold ds in Hlen. rewrite length_drop in Hlen.
  apply (wp_loop (fun '(x, c, f) m => exists k, (k <= length ds)%nat /\ x = foldl next x0 (take k ds) /\ P x /\ c = inp (i + k) /\ At (S (i + k)) f m)
    (fun '(x, c, f) => (S (length l) - Z.to_nat (shcount f))%nat)).
  - clear f m Ha. intros [[x c] f] m (k & Hk & -> & HP & -> & Ha). destruct (st_count _ _ _ Ha) as [_ Hcnt].
    rewrite Htest by apply inp_byte. rewrite inp_digits by done. fold ds. destruct (ds !! k) as [d|] eqn:Hd.
    + pose proof (lookup_lt_Some _ _ _ Hd) as Hkl. destruct (guard (foldl next x0 (take k ds)) d) eqn:Hg.
      * wp_step. apply (wp_getc (S (i + k))); [lia|done|]. intros f' m' Ha'. wp_step.
        assert (dig base (inp (i + k)) = Some d) as Hdig by (rewrite inp_digits by done; exact Hd).
        destruct (Hstep _ _ d HP (inp_byte _) Hdig Hg) as [-> HP'].
        split.
        -- exists (S k). rewrite (take_S_r _ _ _ Hd), foldl_app. cbn [foldl]. split_and!; [lia|done|done|f_equal; lia|by replace (S (i + S k)) with (S (S (i + k))) by lia].
        -- destruct (st_count _ _ _ Ha') as [_ Hcnt']. rewrite Hcnt, Hcnt'. lia.
      * wp_step. apply HQ; [done|lia|done|done|right; by exists d].
    + apply lookup_ge_None in Hd. wp_step. apply HQ; [done|lia|done|done|left; lia].
  - exists 0%nat. rewrite Nat.add_0_r. split_and!; [lia|done|done|done|done].
  - destruct (st_count _ _ _ Ha) as [_ ->]. lia.
Qed.

(** The step of a loop over [w]-bit integers that does not wrap around. *)
Definition exact (w base : Z) (test : Z -> Z -> bool) (step : Z -> Z -> Z) (guard : Z -> Z -> bool) : Prop :=
  (forall x c, is_byte c -> test x c = match dig base c with Some d => guard x d | None => false end) /\
  (forall x c d, in_range w x -> is_byte c -> dig base c = Some d -> guard x d = true -> step x c = x * base + d /\ in_range w (x * base + d)).

(** What is read of the digits [ds]: all, or too much for 64 bits. *)
Definition read_digits (i : nat) (ds : list Z) (base : Z) (Q : Z * Z * FILE -> memory -> Prop) : Prop :=
  forall k f' m', (k <= length ds)%nat -> (i + k <= length l)%nat -> in_range 64 (number base (take k ds)) -> At (S (i + k)) f' m' ->
    k = length ds \/ (k < length ds)%nat /\ ULLONG_MAX < number base ds -> Q (number base (take k ds), inp (i + k), f') m'.

Lemma wp_two_scans base t1 s1 g1 t2 s2 g2 i f m fuel Q :
  1 <= base -> exact 32 base t1 s1 g1 -> exact 64 base t2 s2 g2 ->
  (forall y d, in_range 64 y -> 0 <= d < base -> g2 y d = false -> ULLONG_MAX < y * base + d) ->
  (i <= length l)%nat -> At (S i) f m -> (length l < fuel)%nat -> read_digits i (digits base (drop i l)) base Q ->
  wp ('(x, c, f) ← scan read write fuel t1 s1 0 (inp i) f; scan read write fuel t2 s2 x c f) m Q.
Proof.
  intros Hbase [Ht1 Hs1] [Ht2 Hs2] Hg2 Hi Ha Hf HQ. set (ds := digits base (drop i l)) in *. wp_step.
  apply (wp_scan_digits base t1 s1 g1 (fun x d => x * base + d) (in_range 32)); try done.
  cbv zeta. fold ds. intros k1 f1 m1 Hk1 Hl1 HP1 Ha1 _. fold (number_from base 0 (take k1 ds)) in *. fold (number base (take k1 ds)) in *. lazy beta iota.
  assert (digits base (drop (i + k1) l) = drop k1 ds) as Eds by (by rewrite <- drop_drop, digits_drop).
  apply (wp_scan_digits base t2 s2 g2 (fun x d => x * base + d) (in_range 64)); try done; [unfold in_range in *; lia|].
  cbv zeta. rewrite Eds. intros k2 f2 m2 Hk2 Hl2 HP2 Ha2 Hend. rewrite length_drop in Hk2, Hend.
  assert (foldl (fun x d => x * base + d) (number base (take k1 ds)) (take k2 (drop k1 ds)) = number base (take (k1 + k2) ds)) as E.
  { unfold number. rewrite <- (take_take_drop ds k1 k2), number_from_app. done. }
  rewrite E in *. replace (i + k1 + k2)%nat with (i + (k1 + k2))%nat in * by lia. apply HQ; try (done || lia).
  destruct Hend as [Hend|(d & Hd & Hg)]; [left; lia|right]. rewrite lookup_drop in Hd. pose proof (lookup_lt_Some _ _ _ Hd). split; [lia|].
  pose proof (digits_range base (drop i l)) as Hr. fold ds in Hr. pose proof (Forall_lookup_1 _ _ _ _ Hr Hd) as Hdr. cbv beta in Hdr.
  apply (number_from_exceeds base 0 ds (k1 + k2) d); try (done || lia). by apply Hg2.
Qed.

Lemma le_div b y M : 0 < b -> (y <= M / b <-> y * b <= M).
Proof.
  intros Hb. split; intros H; [|by apply Z.div_le_lower_bound; lia].
  pose proof (Z.mul_div_le M b Hb). nia.
Qed.

(** The two ways of testing for a digit, and the last guard. *)
Lemma exact_dec w (g : Z -> Z -> bool) step guard :
  (forall x c d, dig 10 c = Some d -> g x c = guard x d) ->
  (forall x c d, in_range w x -> is_byte c -> dig 10 c = Some d -> guard x d = true -> step x c = x * 10 + d /\ in_range w (x * 10 + d)) ->
  forall test, (forall x c, test x c = (wrap32 (c - 48) <? 10) && g x c) -> exact w 10 test step guard.
Proof.
  intros Hg Hs test Ht. split; [|done]. intros x c Hc. rewrite Ht, dec_test by done. destruct (dig 10 c) as [d|] eqn:E; [by apply Hg|done].
Qed.
Lemma exact_val w base (g : Z -> Z -> bool) step guard :
  base <= 36 -> (forall x c d, is_byte c -> dig base c = Some d -> g x c = guard x d) ->
  (forall x c d, in_range w x -> is_byte c -> dig base c = Some d -> guard x d = true -> step x c = x * base + d /\ in_range w (x * base + d)) ->
  forall test, (forall x c, test x c = (val c <? base) && g x c) -> exact w base test step guard.
Proof.
  intros Hb Hg Hs test Ht. split; [|done]. intros x c Hc. rewrite Ht, val_test by done. destruct (dig base c) as [d|] eqn:E; [by apply Hg|done].
Qed.

Definition fits (base y d : Z) : bool := (y <=? ULLONG_MAX / base) && (wrap64 (base * y) <=? ULLONG_MAX - d).

Lemma fits_spec base y d : 1 <= base -> in_range 64 y -> 0 <= d -> fits base y d = (y * base + d <=? ULLONG_MAX).
Proof.
  intros Hb Hy Hd. unfold in_range in Hy. unfold fits. destruct (Z.leb_spec y (ULLONG_MAX / base)) as [H|H].
  - apply le_div in H; [|lia]. rewrite wrap_small by (unfold in_range, ULLONG_MAX in *; nia). cbn [andb].
    destruct (Z.leb_spec (base * y) (ULLONG_MAX - d)), (Z.leb_spec (y * base + d) ULLONG_MAX); try done; lia.
  - cbn [andb]. symmetry. apply Z.leb_gt. apply Z.nle_gt. intros H'. apply Z.lt_nge in H. apply H. apply le_div; lia.
Qed.

Lemma bs_spec base : 2 <= base <= 36 -> truth (Z.land base (wrap32 (base - 1))) = false -> 1 <= bs base <= 5 /\ base = 2 ^ bs base.
Proof.
  intros Hb. assert (forallb (fun base => truth (Z.land base (wrap32 (base - 1))) || ((1 <=? bs base) && (bs base <=? 5) && (base =? 2 ^ bs base))) (seqZ 2 35) = true) as H by (vm_compute; reflexivity).
  pose proof (bytes_all _ _ _ H base ltac:(lia)) as E. cbv beta in E. intros Hl. rewrite Hl in E. cbn [orb] in E. rewrite !andb_true_iff in E. lia.
Qed.

Lemma lor_shift x d k : 0 <= k -> 0 <= d < 2 ^ k -> Z.lor (Z.shiftl x k) d = x * 2 ^ k + d.
Proof.
  intros Hk Hd. rewrite <- Z.add_nocarry_lor; [by rewrite Z.shiftl_mul_pow2|]. apply Z.bits_inj'. intros n Hn. rewrite Z.land_spec, Z.bits_0.
  destruct (Z.ltb_spec n k); [by rewrite Z.shiftl_spec_low|]. replace (Z.testbit d n) with false; [by rewrite andb_false_r|].
  symmetry. rewrite <- (Z.mod_small d (2 ^ k)) by done. by apply Z.mod_pow2_bits_high; lia.
Qed.

Lemma wp_accumulate base i f m fuel Q : 2 <= base <= 36 -> (i <= length l)%nat -> At (S i) f m -> (length l < fuel)%nat ->
  read_digits i (digits base (drop i l)) base Q -> wp (accumulate read write fuel base (inp i) f) m Q.
Proof.
  intros Hb Hi Ha Hf HQ. unfold accumulate. destruct (Z.eqb_spec base 10) as [->|H10]; [|destruct (truth (Z.land base (wrap32 (base - 1)))) eqn:Hpow; cbn [negb]].
  - apply (wp_two_scans 10 _ _ (fun x d => x <=? UINT_MAX / 10 - 1) _ _ (fits 10)); try (done || lia).
    + eapply exact_dec; [| |reflexivity]; [done|]. intros x c d Hx Hc Hd Hg. pose proof (dig_range _ _ _ Hd) as Hr. apply Z.leb_le in Hg.
      rewrite (dec_dig c d Hd). change (UINT_MAX / 10 - 1) with 429496728 in Hg. unfold in_range in *. rewrite !wrap_small; unfold in_range; rewrite ?wrap_small; unfold in_range; lia.
    + eapply (exact_dec _ (fun y c => (y <=? ULLONG_MAX / 10) && (wrap64 (10 * y) <=? wrap64 (ULLONG_MAX - (c - 48))))); [| |intros; by rewrite andb_assoc].
      * intros y c d Hd. pose proof (dig_range _ _ _ Hd) as Hr. rewrite (dec_dig c d Hd). unfold fits. by rewrite (wrap_small 64 (ULLONG_MAX - d)) by (unfold in_range, ULLONG_MAX; lia).
      * intros y c d Hy Hc Hd Hg. pose proof (dig_range _ _ _ Hd) as Hr. rewrite (dec_dig c d Hd). rewrite fits_spec in Hg by (done || lia). apply Z.leb_le in Hg.
        unfold in_range, ULLONG_MAX in *. rewrite !wrap_small; unfold in_range; rewrite ?wrap_small; unfold in_range; lia.
    + intros y d Hy Hd Hg. rewrite fits_spec in Hg by (done || lia). apply Z.leb_gt in Hg. done.
  - apply (wp_two_scans base _ _ (fun x d => x <=? UINT_MAX / 36 - 1) _ _ (fits base)); try (done || lia).
    + eapply exact_val; [lia| | |reflexivity]; [done|]. intros x c d Hx Hc Hd Hg. pose proof (dig_range _ _ _ Hd) as Hr. apply Z.leb_le in Hg.
      rewrite (val_dig base c d Hc Hd). change (UINT_MAX / 36 - 1) with 119304646 in Hg. unfold in_range in *. rewrite !wrap_small; unfold in_range; rewrite ?wrap_small; unfold in_range; nia.
    + eapply (exact_val _ _ (fun y c => (y <=? ULLONG_MAX / base) && (wrap64 (base * y) <=? ULLONG_MAX - val c))); [lia| | |intros; by rewrite andb_assoc].
      * intros y c d Hc Hd. by rewrite (val_dig base c d Hc Hd).
      * intros y c d Hy Hc Hd Hg. pose proof (dig_range _ _ _ Hd) as Hr. rewrite (val_dig base c d Hc Hd). rewrite fits_spec in Hg by (done || lia). apply Z.leb_le in Hg.
        unfold in_range, ULLONG_MAX in *. rewrite !wrap_small; unfold in_range; rewrite ?wrap_small; unfold in_range; nia.
    + intros y d Hy Hd Hg. rewrite fits_spec in Hg by (done || lia). apply Z.leb_gt in Hg. done.
  - destruct (bs_spec base Hb Hpow) as [Hbs Ebase]. set (k := bs base) in *.
    assert (forall w x c d M, M * base + base <= 2 ^ w -> in_range w x -> is_byte c -> dig base c = Some d -> (x <=? M) = true ->
      Z.lor (wrap w (Z.shiftl x k)) (val c) = x * base + d /\ in_range w (x * base + d)) as Hstep.
    { intros w x c d M HM Hx Hc Hd Hg. pose proof (dig_range _ _ _ Hd) as Hr. apply Z.leb_le in Hg. unfold in_range in *.
      rewrite (val_dig base c d Hc Hd), wrap_small by (unfold in_range; rewrite Z.shiftl_mul_pow2, <- Ebase by lia; nia).
      rewrite lor_shift, <- Ebase by lia. split; [done|nia]. }
    apply (wp_two_scans base _ _ (fun x d => x <=? UINT_MAX / 32) _ _ (fun y d => y <=? Z.shiftr ULLONG_MAX k)); try (done || lia).
    + eapply exact_val; [lia| | |reflexivity]; [done|]. intros x c d Hx Hc Hd Hg. apply (Hstep 32 x c d (UINT_MAX / 32)); try done. change (UINT_MAX / 32) with 134217727. assert (base <= 32) by (rewrite Ebase; change 32 with (2 ^ 5); apply Z.pow_le_mono_r; lia). lia.
    + eapply exact_val; [lia| | |reflexivity]; [done|]. intros x c d Hx Hc Hd Hg. apply (Hstep 64 x c d (Z.shiftr ULLONG_MAX k)); try done.
      rewrite Z.shiftr_div_pow2, <- Ebase by lia. assert (k = 1 \/ k = 2 \/ k = 3 \/ k = 4 \/ k = 5) as [E|[E|[E|[E|E]]]] by lia; rewrite Ebase, E; vm_compute; done.
    + intros y d Hy Hd Hg. apply Z.leb_gt in Hg. rewrite Z.shiftr_div_pow2, <- Ebase in Hg by lia. apply Z.nle_gt. intros H. apply Z.lt_nge in Hg. apply Hg. apply le_div; lia.
Qed.

(** The sign: [(y^neg)-neg]. *)
Definition sign (nb : bool) : Z := if nb then -1 else 0.
Lemma negate y nb : in_range 64 y -> wrap64 (Z.lxor y (wrap64 (sign nb)) - wrap64 (sign nb)) = wrap64 (if nb then - y else y).
Proof.
  intros Hy. destruct nb; cbn [sign].
  - change (wrap64 (-1)) with (Z.ones 64). assert (Z.lxor y (Z.ones 64) = Z.ones 64 - y) as ->; [|f_equal; lia].
    assert (Z.lxor y (Z.ones 64) + y = Z.ones 64); [|lia].
    rewrite Z.add_nocarry_lxor; [by rewrite (Z.lxor_comm y), Z.lxor_assoc, Z.lxor_nilpotent, Z.lxor_0_r|].
    apply Z.bits_inj'. intros n Hn. rewrite Z.land_spec, Z.lxor_spec, Z.bits_0, Z.testbit_ones by lia. rewrite (proj2 (Z.leb_le 0 n)) by done. destruct (Z.ltb_spec n 64).
    + by destruct (Z.testbit y n).
    + replace (Z.testbit y n) with false; [done|]. symmetry. rewrite <- (wrap_small 64 y) by done. unfold wrap. by apply Z.mod_pow2_bits_high; lia.
  - change (wrap64 0) with 0. by rewrite Z.lxor_0_r, Z.sub_0_r.
Qed.

(** What a scan ends with: [n] bytes taken and counted. *)
Definition scanned (n : nat) (r : Z * option Z) (res : Z * option Z * FILE) (m : memory) : Prop :=
  res.1 = r /\ shcount res.2 = Z.of_nat n /\ exists i f, At i f m.

Lemma unget_count n f m : At (S n) f m -> shcount (shunget f) = Z.of_nat n.
Proof.
  intros Ha. destruct (st_count _ _ _ Ha) as [Hlim Hcnt]. unfold shunget. rewrite Hlim. change (0 <=? 0) with true. unfold shcount in *. cbn [shcnt rpos buf with_read]. lia.
Qed.

Definition limit (lim : Z) : Prop := lim = 2 ^ 63 \/ lim = ULLONG_MAX.

Lemma wp_finish base nb lim i f m fuel : 2 <= base <= 36 -> limit lim -> (i <= length l)%nat -> At (S i) f m -> (length l < fuel)%nat ->
  let ds := digits base (drop i l) in
  wp (finish read write fuel base (sign nb) lim (inp i) f) m (scanned (i + length ds) (clamp lim nb (number base ds))).
Proof.
  intros Hb Hlim Hi Ha Hf ds. unfold finish. wp_step. apply (wp_accumulate base); try done. intros k f1 m1 Hk Hl Hr Ha1 Hend. fold ds in Hk, Hr, Hend |- *. lazy beta iota.
  assert (negb ((base =? 10) && (10 <=? wrap32 (inp (i + k) - 48))) && (val (inp (i + k)) <? base) = (k <? length ds)%nat) as ->.
  { rewrite (val_test base _ (inp_byte _)) by lia. pose proof (inp_digits base i k Hk) as Hd. fold ds in Hd. rewrite Hd. destruct (Nat.ltb_spec k (length ds)) as [Hkl|Hkl].
    - destruct (lookup_lt_is_Some_2 ds k Hkl) as [d Hd']. rewrite Hd' in *. rewrite andb_true_r. destruct (Z.eqb_spec base 10) as [->|]; [|done].
      pose proof (dec_test (inp (i + k)) (inp_byte _)) as Ht. rewrite Hd in Ht. apply Z.ltb_lt in Ht. cbn [andb]. by destruct (Z.leb_spec 10 (wrap32 (inp (i + k) - 48))); [lia|].
    - rewrite lookup_ge_None_2 by lia. apply andb_false_r. }
  wp_step. destruct (Nat.ltb_spec k (length ds)) as [Hkl|Hkl].
  - destruct Hend as [Hend|[_ Hbig]]; [lia|]. wp_step. apply (wp_scan_digits base _ _ (fun _ _ => true) (fun x _ => x) (fun _ => True)); try done.
    { intros x c Hc. apply val_test; [done|lia]. }
    cbv zeta. rewrite <- drop_drop, digits_drop by done. fold ds. rewrite length_drop. intros k2 f2 m2 Hk2 Hl2 _ Ha2 Hend. lazy beta iota.
    assert (k2 = (length ds - k)%nat) as -> by (destruct Hend as [?|(d & _ & ?)]; [lia|done]).
    replace (i + k + (length ds - k))%nat with (i + length ds)%nat in Ha2 by lia.
    assert (forall r, r = clamp lim nb (number base ds) -> wp (mret (r, shunget f2)) m2 (scanned (i + length ds) (clamp lim nb (number base ds)))) as Hret.
    { intros r ->. wp_step. split; [done|]. split; [by apply (unget_count _ _ m2)|by eexists _, _]. }
    wp_step. unfold ULLONG_MAX in Hbig.
    destruct Hlim as [->| ->]; unfold ULLONG_MAX in *; destruct nb; apply Hret; unfold clamp, sign;
      [change (truth (Z.land (2 ^ 63) 1)) with false|change (truth (Z.land (2 ^ 63) 1)) with false|change (truth (Z.land (2 ^ 64 - 1) 1)) with true|change (truth (Z.land (2 ^ 64 - 1) 1)) with true]; cbn [negb andb];
      match goal with |- context [?a <? number base ds] => rewrite (proj2 (Z.ltb_lt a (number base ds))) by lia | |- context [?a <=? number base ds] => rewrite (proj2 (Z.leb_le a (number base ds))) by lia end; done.
  - assert (k = length ds) as -> by lia. clear Hend Hk Hkl. rewrite firstn_all in *. set (v := number base ds) in *. wp_step.
    assert (forall r, r = clamp lim nb v -> wp (mret (r, shunget f1)) m1 (scanned (i + length ds) (clamp lim nb v))) as Hret.
    { intros r ->. wp_step. split; [done|]. split; [by apply (unget_count _ _ m1)|by eexists _, _]. }
    pose proof (negate v nb Hr) as Hneg. unfold in_range in Hr.
    destruct Hlim as [->| ->]; unfold ULLONG_MAX in *; unfold clamp in *.
    + change (truth (Z.land (2 ^ 63) 1)) with false in *. cbn [negb andb]. destruct nb; cbn [sign truth negb] in *.
      * change (negb (truth (-1))) with false. rewrite andb_false_r. destruct (Z.ltb_spec (2 ^ 63) v).
        -- rewrite (proj2 (Z.leb_le (2 ^ 63) v)) by lia. cbn [andb]. by apply Hret.
        -- rewrite andb_false_r, Hneg. by apply Hret.
      * change (negb (truth 0)) with true. rewrite andb_true_r. destruct (Z.leb_spec (2 ^ 63) v).
        -- by apply Hret.
        -- cbn [andb]. rewrite Hneg, wrap_small by (unfold in_range; lia). by apply Hret.
    + change (truth (Z.land (2 ^ 64 - 1) 1)) with true in *. cbn [negb andb]. rewrite andb_false_r. destruct (Z.ltb_spec (2 ^ 64 - 1) v); [lia|].
      rewrite andb_false_r, Hneg. by apply Hret.
Qed.

(** ** The whole of __intscan *)

Lemma inp_at i v : inp i = v -> v <> term -> l !! i = Some v /\ (i < length l)%nat.
Proof. unfold inp. destruct (l !! i) as [b|] eqn:E; simpl; [|by intros <-]. intros -> _. split; [done|by apply lookup_lt_Some in E]. Qed.

Lemma inp_prefix (p : Z -> bool) j : p term = false -> (j <= prefix_len p l)%nat -> p (inp j) = (j <? prefix_len p l)%nat.
Proof.
  intros Ht. unfold inp. clear ST. revert j. induction l as [|b l' IH]; intros j Hj; cbn [prefix_len] in *; [by destruct j|].
  destruct (p b) eqn:Hb; [|by replace j with 0%nat by lia]. destruct j as [|j]; [done|]. cbn [lookup list_lookup]. rewrite IH by lia.
  by destruct (Nat.ltb_spec j (prefix_len p l')), (Nat.ltb_spec (S j) (S (prefix_len p l'))); try lia.
Qed.
Lemma prefix_len_le (p : Z -> bool) (k : list Z) : (prefix_len p k <= length k)%nat.
Proof. induction k as [|b k IH]; cbn [prefix_len]; [done|]. destruct (p b); simpl; lia. Qed.

Lemma wp_spaces fuel f m (Q : Z * FILE -> memory -> Prop) : At 0 f m -> (S (length l) < fuel)%nat ->
  (let i := prefix_len isspace l in forall f' m', At (S i) f' m' -> Q (inp i, f') m') ->
  wp (loop fuel (fun f => '(c, f) ← shgetc read write f; mret (if isspace c then inl f else inr (c, f))) f) m Q.
Proof.
  intros Ha Hf HQ. cbv zeta in HQ. pose proof (prefix_len_le isspace l) as Hle.
  apply (wp_loop (fun f m => exists j, (j <= prefix_len isspace l)%nat /\ At j f m) (fun f => (S (length l) - Z.to_nat (shcount f))%nat)); [|by exists 0%nat; split; [lia|]|].
  - clear f m Ha. intros f m (j & Hj & Ha). destruct (st_count _ _ _ Ha) as [_ Hcnt]. wp_step. apply (wp_getc j); [lia|done|]. intros f' m' Ha'. wp_step.
    rewrite inp_prefix by (done || apply st_term). destruct (Nat.ltb_spec j (prefix_len isspace l)) as [Hlt|Hge].
    + split; [by exists (S j)|]. destruct (st_count _ _ _ Ha') as [_ Hcnt']. rewrite Hcnt, Hcnt'. lia.
    + replace j with (prefix_len isspace l) in * by lia. by apply HQ.
  - destruct (st_count _ _ _ Ha) as [_ ->]. lia.
Qed.

(** Where the number starts, and its sign. *)
Definition start : bool * nat :=
  let i := prefix_len isspace l in match l !! i with Some 45 => (true, S i) | Some 43 => (false, S i) | _ => (false, i) end.

Lemma start_cases (c : Z) : c = inp (prefix_len isspace l) ->
  if (c =? 43) || (c =? 45) then start = (c =? 45, S (prefix_len isspace l)) /\ (prefix_len isspace l < length l)%nat
  else start = (false, prefix_len isspace l).
Proof.
  intros ->. destruct st_term as (_ & _ & _ & H43 & H45 & _). unfold start. set (i := prefix_len isspace l).
  destruct (Z.eqb_spec (inp i) 43) as [E|E43]; [|destruct (Z.eqb_spec (inp i) 45) as [E|E45]]; cbn [orb].
  - destruct (inp_at i 43 E) as [-> ?]; [done|]. by rewrite E.
  - destruct (inp_at i 45 E) as [-> ?]; [done|]. by rewrite ?E.
  - unfold inp in *. destruct (l !! i) as [b|]; simpl in *; [|done]. destruct b as [|b|b]; try done. do 6 (destruct b as [b|b|]; try done).
Qed.

(** From the sign on. *)
Definition number_at (lim : Z) (nb : bool) (base : Z) (j : nat) : Z * option Z * nat :=
  let '(b, k) := prefix base (drop j l) in
  match digits b (drop (j + k) l) with
  | [] => (0, Some EINVAL, 0%nat)
  | ds => (clamp lim nb (number b ds), (j + k + length ds)%nat)
  end.

Lemma result_start lim base : (36 <? base) || (base =? 1) = false -> result lim base l = let '(nb, j) := start in number_at lim nb base j.
Proof.
  intros Hb. unfold result, parse, number_at, start. rewrite Hb. destruct (match l !! prefix_len isspace l with Some 45 => _ | Some 43 => _ | _ => _ end) as [nb j].
  destruct (prefix base (drop j l)) as [b k]. by destruct (digits b (drop (j + k) l)).
Qed.

Lemma wp_finish_at b lim nb j k i f m fuel : 2 <= b <= 36 -> limit lim -> (i <= length l)%nat -> At (S i) f m -> (length l < fuel)%nat ->
  forall base, prefix base (drop j l) = (b, k) -> digits b (drop (j + k) l) <> [] ->
  (exists n, i = (j + k + n)%nat /\ (n <= length (digits b (drop (j + k) l)))%nat /\ number b (take n (digits b (drop (j + k) l))) = 0) ->
  wp (finish read write fuel b (sign nb) lim (inp i) f) m (scanned (number_at lim nb base j).2 (number_at lim nb base j).1).
Proof.
  intros Hb Hlim Hi Ha Hf base Hpre Hne (n & -> & Hn & Hz). unfold number_at. rewrite Hpre. set (ds := digits b (drop (j + k) l)) in *.
  eapply wp_mono; [by apply wp_finish|]. cbv zeta. intros res m'. rewrite <- drop_drop, digits_drop by done. fold ds.
  assert (number b (drop n ds) = number b ds) as ->.
  { unfold number. rewrite <- (take_drop n ds) at 2. rewrite number_from_app. fold (number b (take n ds)). by rewrite Hz. }
  rewrite length_drop. replace (j + k + n + (length ds - n))%nat with (j + k + length ds)%nat by lia. by destruct ds.
Qed.

Lemma prefix_other base j : (base = 0 \/ base = 16) /\ inp j = 48 \/ prefix base (drop j l) = (if base =? 0 then 10 else base, 0%nat) /\ ~ ((base = 0 \/ base = 16) /\ inp j = 48).
Proof.
  destruct (decide ((base = 0 \/ base = 16) /\ inp j = 48)) as [H|H]; [by left|right; split; [|done]].
  destruct (decide (inp j = 48)) as [E|E].
  - assert (base <> 0 /\ base <> 16) as [H0 H16] by tauto. destruct (Z.eqb_spec base 0); [done|]. destruct (inp_at j 48 E) as [Ej _].
    { destruct st_term as (_ & _ & Ht & _). intros <-. done. }
    rewrite (drop_S l 48 j Ej). unfold prefix. destruct (drop (S j) l) as [|x [|b r]]; destruct (Z.eqb_spec base 0), (Z.eqb_spec base 16); done.
  - unfold inp in E. destruct (drop j l) as [|b r] eqn:Ed; [by unfold prefix; destruct (base =? 0)|].
    assert (l !! j = Some b) as Ej by (rewrite <- (Nat.add_0_r j), <- lookup_drop, Ed; done). rewrite Ej in E. simpl in E.
    unfold prefix. destruct b as [|b|b]; try (by destruct (base =? 0)). do 6 (destruct b as [b|b|]; try (by destruct (base =? 0))).
Qed.

Lemma hex_mark x : is_byte x -> (Z.lor x 32 =? 120) = (x =? 120) || (x =? 88).
Proof.
  unfold in_range. change (2 ^ 8) with 256. intros Hx.
  assert (forallb (fun x => Bool.eqb (Z.lor x 32 =? 120) ((x =? 120) || (x =? 88))) (seqZ 0 256) = true) as H by (vm_compute; reflexivity).
  apply eqb_prop. by apply (bytes_all _ _ _ H x); lia.
Qed.

(** A leading 0 where the base is not given: hexadecimal, its mark without a
    digit, or a digit. *)
Lemma prefix_zero base j : base = 0 \/ base = 16 -> l !! j = Some 48 ->
  let b := if base =? 0 then 8 else base in
  if (inp (S j) =? 120) || (inp (S j) =? 88) then
    match dig 16 (inp (S (S j))) with
    | Some _ => prefix base (drop j l) = (16, 2%nat)
    | None => prefix base (drop j l) = (b, 0%nat) /\ digits b (drop j l) = [0]
    end
  else prefix base (drop j l) = (b, 0%nat) /\ digits b (drop j l) = 0 :: digits b (drop (S j) l).
Proof.
  intros Hbase Ej b. assert ((base =? 0) || (base =? 16) = true) as Hz by (destruct Hbase as [->| ->]; done).
  assert (b = 8 \/ b = 16) as Hb by (unfold b; destruct Hbase as [->| ->]; [by left|by right]).
  assert (dig b 48 = Some 0) as H48 by (destruct Hb as [->| ->]; done).
  assert ((if base =? 0 then (8, 0%nat) else (base, 0%nat)) = (b, 0%nat)) as Eb by (unfold b; by destruct (base =? 0)).
  rewrite (drop_S l 48 j Ej). unfold prefix. cbn [digits]. rewrite H48, Hz, Eb. cbn [andb].
  unfold inp. destruct (l !! S j) as [x|] eqn:Ex.
  - rewrite (drop_S l x (S j) Ex). simpl (default term (Some x)). assert ((x =? 120) || (x =? 88) = true -> dig b x = None) as Hx.
    { rewrite orb_true_iff, !Z.eqb_eq. intros [->| ->]; destruct Hb as [->| ->]; done. }
    destruct (l !! S (S j)) as [c|] eqn:Ec.
    + rewrite (drop_S l c (S (S j)) Ec). simpl (default term (Some c)). destruct ((x =? 120) || (x =? 88)); cbn [andb]; [|by split].
      destruct (dig 16 c) as [d|]; [by rewrite bool_decide_eq_true_2 by eauto|]. rewrite bool_decide_eq_false_2 by (by intros [? ?]). split; [done|]. cbn [digits]. by rewrite Hx.
    + rewrite (drop_ge l (S (S j))) by (by apply lookup_ge_None). simpl. destruct ((x =? 120) || (x =? 88)); [|by split].
      unfold dig at 1. destruct st_term as (_ & _ & -> & _). split; [done|]. by rewrite Hx.
  - simpl. rewrite (drop_ge l (S j)) by (by apply lookup_ge_None). destruct st_term as (Hb8 & _ & Hd & _ & _ & Hm). pose proof (hex_mark term Hb8) as E.
    rewrite <- E. destruct (Z.eqb_spec (Z.lor term 32) 120); [done|]. by split.
Qed.

Lemma wp_number base lim nb j f m fuel : base = 0 \/ 2 <= base <= 36 -> limit lim -> (j <= length l)%nat -> At (S j) f m -> (length l < fuel)%nat ->
  wp (if ((base =? 0) || (base =? 16)) && (inp j =? 48) then
    '(c, f) ← shgetc read write f;
    if Z.lor c 32 =? 120 then
      '(c, f) ← shgetc read write f;
      if 16 <=? val c then
        let f := shunget f in
        mret (0, None, if true then shunget f else __shlim f 0)
      else finish read write fuel 16 (sign nb) lim c f
    else finish read write fuel (if base =? 0 then 8 else base) (sign nb) lim c f
  else
    let base := if base =? 0 then 10 else base in
    if base <=? val (inp j) then mret (0, Some EINVAL, __shlim (shunget f) 0) else finish read write fuel base (sign nb) lim (inp j) f)
   m (scanned (number_at lim nb base j).2 (number_at lim nb base j).1).
Proof.
  intros Hbase Hlim Hj Ha Hf. destruct st_term as (Htb & _ & Hdt & _ & _ & Hmt).
  destruct (((base =? 0) || (base =? 16)) && (inp j =? 48)) eqn:Hcond.
  - apply andb_true_iff in Hcond as [H0 H48]. apply Z.eqb_eq in H48. rewrite orb_true_iff, !Z.eqb_eq in H0.
    destruct (inp_at j 48 H48) as [Ej Hjl]; [intros <-; done|]. pose proof (prefix_zero base j H0 Ej) as Hpre. cbv zeta in Hpre.
    wp_step. apply (wp_getc (S j)); [lia|done|]. intros f1 m1 Ha1. lazy beta iota. rewrite hex_mark by apply inp_byte.
    assert (2 <= (if base =? 0 then 8 else base) <= 36) as Hb8 by (destruct H0 as [->| ->]; simpl; lia).
    destruct ((inp (S j) =? 120) || (inp (S j) =? 88)) eqn:Hx.
    + assert (S j < length l)%nat as Hjl1.
      { destruct (decide (inp (S j) = term)) as [E|E]; [|by apply (inp_at (S j) (inp (S j)))]. rewrite E, <- hex_mark in Hx by done. by apply Z.eqb_eq in Hx. }
      wp_step. apply (wp_getc (S (S j))); [lia|done|]. intros f2 m2 Ha2. lazy beta iota.
      pose proof (val_test 16 (inp (S (S j))) (inp_byte _) ltac:(lia)) as Hv. rewrite Z.leb_antisym, Hv. pose proof (inp_digit 16 (S (S j))) as Hd.
      destruct (dig 16 (inp (S (S j)))) as [d|]; cbn [negb].
      * assert (j + 2 = S (S j))%nat as E2 by lia.
        apply (wp_finish_at 16 lim nb j 2 (S (S j)) f2 m2 fuel ltac:(lia) Hlim ltac:(lia) Ha2 Hf base Hpre); rewrite E2; [by destruct (digits 16 (drop (S (S j)) l))|].
        exists 0%nat. split_and!; [lia|lia|done].
      * destruct Hpre as [Hpre Hds]. unfold number_at. rewrite Hpre, Nat.add_0_r, Hds. cbn [fst snd length]. wp_step. split_and!.
        -- cbn [fst]. unfold clamp, number, number_from. simpl. destruct Hlim as [->| ->]; by destruct nb.
        -- cbn [snd]. assert (shlim (shunget f2) = 0) as Hl0.
           { destruct (st_count _ _ _ Ha2) as [Hl _]. unfold shunget. rewrite Hl. done. }
           pose proof (unget_count (S (S j)) f2 m2 Ha2) as Hc. unfold shunget at 1. rewrite Hl0. change (0 <=? 0) with true.
           unfold shcount in *. cbn [with_read shcnt rpos buf]. lia.
        -- by eexists _, _.
    + destruct Hpre as [Hpre Hds]. eapply (wp_finish_at _ lim nb j 0 (S j) f1 m1 fuel Hb8 Hlim ltac:(lia) Ha1 Hf base Hpre); rewrite Nat.add_0_r, Hds; [done|].
      exists 1%nat. split_and!; [lia|simpl; lia|done].
  - destruct (prefix_other base j) as [[H0 H48]|[Hpre _]].
    { exfalso. rewrite H48 in Hcond. destruct H0 as [->| ->]; done. }
    set (b := if base =? 0 then 10 else base) in *. assert (2 <= b <= 36) as Hb by (unfold b; destruct (Z.eqb_spec base 0); lia).
    cbv zeta. rewrite Z.leb_antisym, (val_test b _ (inp_byte _)) by lia. pose proof (inp_digit b j) as Hd. rewrite Hd.
    destruct (digits b (drop j l)) as [|d ds] eqn:Eds; cbn [head negb].
    + unfold number_at. rewrite Hpre, Nat.add_0_r, Eds. cbn [fst snd]. wp_step. split_and!; [done| |by eexists _, _].
      cbn [snd]. unfold __shlim, shcount. cbn [with_sh shcnt rpos buf]. lia.
    + apply (wp_finish_at b lim nb j 0 j f m fuel Hb Hlim Hj Ha Hf base Hpre); rewrite Nat.add_0_r, Eds; [done|]. exists 0%nat. split_and!; [lia|lia|done].
Qed.

Lemma wp_intscan base lim f m fuel : 0 <= base -> limit lim -> At 0 f m -> (S (length l) < fuel)%nat ->
  wp (__intscan read write fuel f base true lim) m (scanned (result lim base l).2 (result lim base l).1).
Proof.
  intros Hbase Hlim Ha Hf. unfold __intscan. destruct ((36 <? base) || (base =? 1)) eqn:Hb.
  - unfold result. rewrite Hb. wp_step. destruct (st_count _ _ _ Ha) as [_ Hc]. split_and!; [done|done|by eexists _, _].
  - rewrite result_start by done. assert (base = 0 \/ 2 <= base <= 36) as Hbase' by (apply orb_false_iff in Hb; lia).
    wp_step. apply wp_spaces; [done|done|]. cbv zeta. set (i := prefix_len isspace l). intros f1 m1 Ha1. lazy beta iota. wp_step.
    pose proof (start_cases (inp i) eq_refl) as Hs. pose proof (prefix_len_le isspace l) as Hi. fold i in Hs, Hi. destruct ((inp i =? 43) || (inp i =? 45)).
    + destruct Hs as [-> Hil]. wp_step. apply (wp_getc (S i)); [lia|done|]. intros f2 m2 Ha2. wp_step.
      replace (if inp i =? 45 then -1 else 0) with (sign (inp i =? 45)) by (by destruct (inp i =? 45)). apply wp_number; try done; lia.
    + rewrite Hs. wp_step. apply (wp_number base lim false); try done; lia.
Qed.
End stream.
