(* ===== verification/StrTol.v ===== *)
(** * StrTol: the strto* and wcsto* functions, atoi and printing

    The two FILEs that IntScan sets up keep the promises of [Stream]; the
    functions return the number clamped to their type, set errno and store the
    end. What vfprintf's digit printers write is read back. *)

From Stdlib Require Import ZArith Lia Bool.
From stdpp Require Import base tactics numbers list gmap.
From S2P Require Import Prelude CMem StrScan MemBlock StrCopy StrTok StrDemo Utf8Proofs MbStringProofs IntScan IntScanProofs.
Open Scope Z_scope.

(** ** The specifications *)

(** The C standard's result for an unsigned and a signed type of 64 bits. *)
Definition unsigned_result (base : Z) (l : list Z) : Z * option Z * nat :=
  if (36 <? base) || (base =? 1) then (0, Some EINVAL, 0%nat) else
  match parse base l with
  | None => (0, Some EINVAL, 0%nat)
  | Some (neg, v, e) => (if v <=? ULLONG_MAX then wrap64 (if neg then - v else v) else ULLONG_MAX, if v <=? ULLONG_MAX then None else Some ERANGE, e)
  end.

Definition signed_result (base : Z) (l : list Z) : Z * option Z * nat :=
  if (36 <? base) || (base =? 1) then (0, Some EINVAL, 0%nat) else
  match parse base l with
  | None => (0, Some EINVAL, 0%nat)
  | Some (neg, v, e) =>
      let z := if neg then - v else v in
      (Z.max (- 2 ^ 63) (Z.min (2 ^ 63 - 1) z), if (- 2 ^ 63 <=? z) && (z <? 2 ^ 63) then None else Some ERANGE, e)
  end.

Lemma parse_nonneg base l neg v e : 0 <= base -> (36 <? base) || (base =? 1) = false -> parse base l = Some (neg, v, e) -> 0 <= v.
Proof.
  intros Hb H. unfold parse. set (i := prefix_len isspace l). destruct (match l !! i with Some 45 => _ | Some 43 => _ | _ => _ end) as [nb j].
  destruct (prefix base (drop j l)) as [b k] eqn:Hp. destruct (digits b (drop (j + k) l)) as [|d ds] eqn:Ed; [done|]. intros [= _ <- _].
  assert (1 <= b) as Hb1.
  { pose proof (digits_range b (drop (j + k) l)) as Hr. rewrite Ed in Hr. apply Forall_inv in Hr. lia. }
  apply number_from_ge; [done|done|]. rewrite <- Ed. apply digits_range.
Qed.

Lemma result_unsigned base l : result ULLONG_MAX base l = unsigned_result base l.
Proof.
  unfold result, unsigned_result. destruct ((36 <? base) || (base =? 1)); [done|]. destruct (parse base l) as [[[neg v] e]|]; [|done].
  unfold clamp. change (truth (Z.land ULLONG_MAX 1)) with true. cbn beta iota. by destruct (Z.ltb_spec ULLONG_MAX v), (Z.leb_spec v ULLONG_MAX); try lia.
Qed.

Lemma result_signed base l : 0 <= base -> let '(y, e, n) := result (2 ^ 63) base l in (swrap64 y, e, n) = signed_result base l.
Proof.
  intros Hb. unfold result, signed_result. destruct ((36 <? base) || (base =? 1)) eqn:Hbad; [done|].
  destruct (parse base l) as [[[neg v] e]|] eqn:Hp; [|done]. pose proof (parse_nonneg base l neg v e Hb Hbad Hp) as Hv.
  unfold clamp. change (truth (Z.land (2 ^ 63) 1)) with false. cbn beta iota. destruct neg.
  - destruct (Z.ltb_spec (2 ^ 63) v).
    + destruct (Z.leb_spec (- 2 ^ 63) (- v)); [lia|]. cbn [andb]. rewrite Z.max_l by lia. done.
    + rewrite (proj2 (Z.leb_le _ _)), (proj2 (Z.ltb_lt _ _)) by lia. cbn [andb]. unfold swrap at 1. rewrite wrap_wrap. fold (swrap64 (- v)).
      rewrite swrap_small by lia. repeat f_equal. lia.
  - destruct (Z.leb_spec (2 ^ 63) v).
    + destruct (Z.ltb_spec v (2 ^ 63)); [lia|]. rewrite andb_false_r. rewrite Z.min_l by lia. done.
    + rewrite (proj2 (Z.leb_le _ _)), (proj2 (Z.ltb_lt _ _)) by lia. cbn [andb]. rewrite swrap_small by lia. repeat f_equal. lia.
Qed.

(** The end pointer, where one is asked for. *)
Definition with_end (m : memory) (p v : Z) : memory := if truth p then mem_write m p (le_split 8 v) else m.
Definition end_ok (m : memory) (p : Z) : Prop := p = 0 \/ p mod 8 = 0 /\ mapped m p 8.

Lemma wp_store_end m p v (Q : unit -> memory -> Prop) : end_ok m p -> Q tt (with_end m p v) -> wp (if truth p then store64 p v else mret tt) m Q.
Proof.
  unfold with_end. intros [->|[Ha Hm]] HQ; [change (truth 0) with false in *; by apply wp_ret|].
  destruct (truth p); [by apply wp_store_word|by apply wp_ret].
Qed.

(** ** strto* *)

Section strto.
Context (read : FILE -> CMem.C (Z * Z * FILE)) (write : FILE -> CMem.C FILE).
Context (m : memory) (s : Z) (l : list Z) (f0 : FILE).
Hypothesis Hb : Forall is_byte l.
Hypothesis Hs : bytes_at m s (l ++ [0]).
Hypothesis Hr : 0 <= s /\ s + lenZ l < 2 ^ 64 - 1.

(** The FILE over the string, with [i] bytes taken. *)
Definition string_at (i : nat) (f : FILE) (m' : memory) : Prop :=
  m' = m /\ buf f = s /\ rpos f = s + Z.of_nat i /\ shend f = 2 ^ 64 - 1 /\ shlim f = 0 /\ shcnt f = 0.

#[local] Instance string_stream : Stream read write l 0 string_at.
Proof.
  split; [exact Hb|by repeat split| |].
  - intros i f m' Hi (-> & Hbuf & Hpos & Hend & Hlim & Hcnt). unfold shgetc. rewrite Hpos, Hend. destruct (Z.eqb_spec (s + Z.of_nat i) (2 ^ 64 - 1)); [lia|].
    wp_step. assert ((l ++ [0]) !! i = Some (default 0 (l !! i))) as Hi'.
    { destruct (decide (i < length l)%nat) as [Hl|Hl].
      - rewrite lookup_app_l by done. destruct (lookup_lt_is_Some_2 l i Hl) as [b E]. by rewrite E.
      - replace i with (length l) by lia. rewrite lookup_app_r, Nat.sub_diag, (lookup_ge_None_2 l) by lia. done. }
    wp_step; [by apply (bytes_at_lookup m s (l ++ [0]))|]. wp_step. split; [done|]. unfold string_at. cbn [with_read buf rpos shend shlim shcnt snd]. split_and!; try done; lia.
  - intros i f m' (-> & Hbuf & Hpos & Hend & Hlim & Hcnt). split; [done|]. unfold shcount. lia.
Qed.

Lemma wp_strtox fuel p base lim : limit lim -> end_ok m p -> (S (length l) < fuel)%nat ->
  wp (strtox read write fuel f0 s p base lim) m (fun r m' => r = (result lim (wrap32 base) l).1 /\ m' = with_end m p (s + Z.of_nat (result lim (wrap32 base) l).2)).
Proof.
  intros Hlim Hp Hf. unfold strtox. wp_step. eapply wp_mono.
  - apply (wp_intscan (At := string_at) (wrap32 base) lim); [by apply (wrap_range 32)|done| |done].
    split; [done|]. cbn. change (wrap64 (-1)) with (2 ^ 64 - 1). split_and!; (done || lia).
  - intros [[y e] f] m' (Hres & Hcnt & i & f1 & Hat). cbn [fst snd] in Hres, Hcnt. destruct Hat as (-> & _). wp_step. rewrite Hcnt.
    apply wp_store_end; [done|]. wp_step. by rewrite <- Hres.
Qed.

(** C22: [strtoul] and [strtoull] read white space, a sign, a 0x or 0 where the
    base allows it, and all digits of the base that follow; they return the
    number, modulo 2^64 where it is negative, or ULLONG_MAX and ERANGE where
    it has more than 64 bits, [strtol] and [strtoll] the number or the nearest
    one of their type and ERANGE. The end is after the last digit, or the
    start and EINVAL where there is no digit or no such base. *)
Theorem strtol_correct p base fuel : end_ok m p -> (S (length l) < fuel)%nat ->
  strtoull read write fuel f0 s p base m =
    (let '(v, e, n) := unsigned_result (wrap32 base) l in Some ((v, e), with_end m p (s + Z.of_nat n))) /\
  strtoll read write fuel f0 s p base m =
    (let '(v, e, n) := signed_result (wrap32 base) l in Some ((v, e), with_end m p (s + Z.of_nat n))) /\
  strtoul read write fuel f0 s p base m = strtoull read write fuel f0 s p base m /\
  strtol read write fuel f0 s p base m = strtoll read write fuel f0 s p base m.
Proof.
  intros Hp Hf. split_and!; [| |done|done].
  - rewrite <- result_unsigned. pose proof (wp_strtox fuel p base ULLONG_MAX ltac:(by right) Hp Hf) as H.
    destruct (result ULLONG_MAX (wrap32 base) l) as [[y e] n]. by apply wp_elim.
  - pose proof (result_signed (wrap32 base) l ltac:(by apply (wrap_range 32))) as Es. pose proof (wp_strtox fuel p base (2 ^ 63) ltac:(by left) Hp Hf) as H.
    destruct (result (2 ^ 63) (wrap32 base) l) as [[y e] n]. rewrite <- Es. apply wp_elim. unfold strtoll. wp_step. eapply wp_mono; [exact H|].
    intros [y' e'] m' [[= -> ->] ->]. by wp_step.
Qed.
End strto.

(** ** wcsto* *)

(** How do_read narrows a wide character. *)
Definition narrow (wc : Z) : Z := if wc <? 128 then wrap8 wc else 64.

Record wide_string (m : memory) (w : Z) (wl : list Z) : Prop := {
  ws_chars : Forall in_int wl /\ Forall (fun wc => wc <> 0) wl;
  ws_aligned : w mod 4 = 0;
  ws_bytes : bytes_at m w (wide (wl ++ [0])) }.

Lemma wide_string_drop m w wl k : (k <= length wl)%nat -> wide_string m w wl -> wide_string m (w + 4 * Z.of_nat k) (drop k wl).
Proof.
  intros Hk [[Hi Hn] Ha Hb]. split.
  - split; by apply Forall_drop.
  - rewrite Z.add_mod, Ha, Z.mul_comm, Z.mod_mul by lia. done.
  - rewrite <- (take_drop k wl), <- app_assoc, wide_app in Hb. apply bytes_at_app in Hb as [_ Hb]. rewrite length_wide, length_take_le in Hb by done. exact Hb.
Qed.

Lemma wp_load_wide m w wl k (Q : Z -> memory -> Prop) : wide_string m w wl -> (k <= length wl)%nat ->
  (forall wc, (wl ++ [0]) !! k = Some wc -> in_int wc -> (wc = 0 <-> k = length wl) -> Q (wrap32 wc) m) -> wp (load32 (w + 4 * Z.of_nat k)) m Q.
Proof.
  intros [[Hi Hn] Ha Hb] Hk HQ. destruct (lookup_lt_is_Some_2 (wl ++ [0]) k) as [wc Hwc]; [rewrite length_app; simpl; lia|].
  apply (wp_load32_split _ _ wc); [rewrite Z.add_mod, Ha, Z.mul_comm, Z.mod_mul by lia; done|by apply (wide_at m w (wl ++ [0]))|].
  apply HQ; [done| |].
  - apply (Forall_lookup_1 in_int (wl ++ [0]) k); [|done]. apply Forall_app. split; [done|]. by repeat constructor.
  - destruct (decide (k < length wl)%nat) as [Hl|Hl].
    + rewrite lookup_app_l in Hwc by done. apply (Forall_lookup_1 _ _ _ _ Hn) in Hwc. lia.
    + replace k with (length wl) in * by lia. rewrite lookup_app_r, Nat.sub_diag in Hwc by lia. injection Hwc as <-. done.
Qed.

Lemma store_mem_write m B L k v (Q : unit -> memory -> Prop) : (k < length L)%nat -> mapped m B (length L) ->
  Q tt (mem_write m B (<[k := wrap8 v]> L)) -> wp (store8 (B + Z.of_nat k) v) (mem_write m B L) Q.
Proof.
  intros Hk Hm HQ. apply wp_store8; [apply (mapped_mem_write m B L B (length L) Hm); lia|].
  assert (<[B + Z.of_nat k := wrap8 v]> (mem_write m B L) = mem_write m B (<[k := wrap8 v]> L)) as ->; [|done].
  apply map_eq. intros a. rewrite mem_write_lookup, length_insert. destruct (decide (a = B + Z.of_nat k)) as [->|Hne].
  - rewrite lookup_insert_eq, decide_True by lia. replace (Z.to_nat (B + Z.of_nat k - B)) with k by lia. by rewrite list_lookup_insert_eq.
  - rewrite lookup_insert_ne, mem_write_lookup by done. case_decide; [|done]. rewrite list_lookup_insert_ne by lia. done.
Qed.

Section wcsto.
Context (bufp at_sign : Z) (write : FILE -> CMem.C FILE) (m : memory) (t : Z) (wl : list Z) (fuel : nat).
Let B := bufp + 4.
Hypothesis Hw : wide_string m t wl.
Hypothesis Hat : wide_string m at_sign [64].
Hypothesis Hbuf : mapped m bufp 64.
Hypothesis D1 : disjoint_ranges bufp 64 t (4 * (length wl + 1)).
Hypothesis D2 : disjoint_ranges bufp 64 at_sign 8.
Hypothesis Hf : (60 < fuel)%nat.

Definition buffered (bl : list Z) : memory := mem_write m B bl.

Lemma buffer_mapped : mapped m B 60.
Proof. eapply mapped_weaken; [exact Hbuf|unfold B; lia..]. Qed.

(** A string outside the buffer is still there. *)
Lemma buffered_string w k bl : wide_string m w k -> disjoint_ranges bufp 64 w (4 * (length k + 1)) -> length bl = 60%nat -> wide_string (buffered bl) w k.
Proof.
  intros [Hc Ha Hb] Hd Hl. split; [done|done|]. unfold buffered. apply bytes_at_mem_write_disjoint; [|done].
  pose proof (length_wide (k ++ [0])) as E. rewrite length_app in E. unfold disjoint_ranges, B in *. simpl length in *. lia.
Qed.

(** The loop of do_read copies the string, or as much as fits. *)
Lemma wp_fill w k bl (Q : Z -> memory -> Prop) : wide_string m w k -> disjoint_ranges bufp 64 w (4 * (length k + 1)) -> length bl = 60%nat ->
  (let n := Nat.min 60 (length k) in Q (Z.of_nat n) (buffered (take n (narrow <$> k) ++ drop n bl))) ->
  wp (loop fuel (fun i =>
    if i <? 60 then
      x ← load32 (w + 4 * i);
      if truth x then store8 (B + i) (if swrap32 x <? 128 then x else 64);; mret (inl (i + 1)) else mret (inr i)
    else mret (inr i)) 0) (buffered bl) Q.
Proof.
  intros Hk Hd Hl HQ. cbv zeta in HQ.
  apply (wp_loop (fun i m' => exists j, i = Z.of_nat j /\ (j <= 60)%nat /\ (j <= length k)%nat /\ m' = buffered (take j (narrow <$> k) ++ drop j bl)) (fun i => Z.to_nat (60 - i))).
  - intros i m' (j & -> & Hj & Hjk & ->). set (L := take j (narrow <$> k) ++ drop j bl).
    assert (length L = 60%nat) as HL by (unfold L; rewrite length_app, length_take, length_fmap, length_drop; lia).
    assert (forall m', m' = buffered L -> j = Nat.min 60 (length k) -> Q (Z.of_nat j) m') as Hend by (intros ? -> E; rewrite <- E in HQ; exact HQ).
    destruct (Z.ltb_spec (Z.of_nat j) 60) as [Hj60|Hj60]; [|wp_step; apply Hend; [done|lia]].
    wp_step. eapply wp_load_wide; [by apply (buffered_string w k L)|done|]. intros wc Hwc Hin Hz. rewrite truth_wrap32 by done.
    destruct (truth wc) eqn:Ht; [apply truth_true in Ht|apply truth_false in Ht; wp_step; apply Hend; [done|]; apply Hz in Ht; lia].
    assert (j < length k)%nat as Hjk' by (destruct (decide (j = length k)); [tauto|lia]). rewrite lookup_app_l in Hwc by done.
    wp_step. apply store_mem_write; [lia|rewrite HL; exact buffer_mapped|]. wp_step. split; [|lia]. exists (S j). split_and!; [lia|lia|lia|].
    unfold buffered. f_equal. rewrite swrap_wrap32 by done.
    assert (wrap8 (if wc <? 128 then wrap32 wc else 64) = narrow wc) as ->.
    { unfold narrow. destruct (wc <? 128); [|done]. unfold wrap. change (2 ^ 32) with (2 ^ 8 * 2 ^ 24). rewrite Z.rem_mul_r by lia. rewrite Z.mul_comm, Z.mod_add by lia. apply Z.mod_mod. lia. }
    unfold L. rewrite insert_app_r_alt by (rewrite length_take, length_fmap; lia). rewrite length_take, length_fmap, Nat.min_l, Nat.sub_diag by lia.
    destruct (lookup_lt_is_Some_2 bl j ltac:(lia)) as [b Eb]. rewrite (drop_S bl b j Eb). cbn [list_insert insert list_insert].
    rewrite (take_S_r _ _ (narrow wc)) by (rewrite list_lookup_fmap, Hwc; done). by rewrite <- app_assoc.
  - exists 0%nat. by split_and!; [|lia|lia|].
  - lia.
Qed.

(** What is in the buffer: a chunk of the string from [k], or the terminator
    after all of it; [j] of its bytes are taken. *)
Definition wide_state (i : nat) (f : FILE) (m' : memory) : Prop :=
  exists bl c k j, length bl = 60%nat /\ m' = buffered bl /\ (length c <= 60)%nat /\ (j <= length c)%nat /\ take (length c) bl = c /\ i = (k + j)%nat /\
    (c = take (length c) (drop k (narrow <$> wl)) /\ (k + length c <= length wl)%nat /\ cookie f = t + 4 * Z.of_nat (k + length c) \/ c = [64] /\ k = length wl /\ j = 1%nat) /\
    flags f = 0 /\ wpos f = 0 /\ wbase f = 0 /\ buf f = B /\ buf_size f = 60 /\ shlim f = 0 /\
    rpos f = B + Z.of_nat j /\ rend f = B + lenZ c /\ shend f = rend f /\ shcount f = Z.of_nat i.

Definition refill (i : nat) (f : FILE) (m' : memory) : Prop :=
  exists bl, length bl = 60%nat /\ m' = buffered bl /\ (i <= length wl)%nat /\ cookie f = t + 4 * Z.of_nat i /\
    flags f = 0 /\ buf f = B /\ buf_size f = 60 /\ shlim f = 0.

(** A refill delivers the next byte and the state after it. *)
Lemma wp_do_read i f m' : refill i f m' ->
  wp (do_read at_sign fuel f) m' (fun r m2 => r.1 = (1, default 64 ((narrow <$> wl) !! i)) /\
    flags r.2 = 0 /\ wpos r.2 = wpos f /\ wbase r.2 = wbase f /\ buf r.2 = B /\ buf_size r.2 = 60 /\ shlim r.2 = 0 /\ shcnt r.2 = shcnt f /\ rpos r.2 = B + 1 /\
    exists bl c, length bl = 60%nat /\ m2 = buffered bl /\ (1 <= length c <= 60)%nat /\ take (length c) bl = c /\ rend r.2 = B + lenZ c /\
      (c = take (length c) (drop i (narrow <$> wl)) /\ (i + length c <= length wl)%nat /\ cookie r.2 = t + 4 * Z.of_nat (i + length c) \/ c = [64] /\ i = length wl)).
Proof.
  intros (bl & Hbl & -> & Hi & Hck & Hfl & Hbf & Hsz & Hlim). unfold do_read. rewrite Hck. wp_step.
  eapply wp_load_wide; [apply (buffered_string t wl bl); [done|exact D1|done]|done|]. intros wc Hwc Hin Hz. rewrite truth_wrap32 by done.
  set (k := if decide (i = length wl) then [64] else drop i wl). set (w := if decide (i = length wl) then at_sign else t + 4 * Z.of_nat i).
  assert ((if negb (truth wc) then at_sign else t + 4 * Z.of_nat i) = w) as ->.
  { unfold w. destruct (decide (i = length wl)) as [E|E]; [by rewrite (proj2 Hz E)|]. by rewrite (proj2 (truth_true wc)) by tauto. }
  assert (wide_string m w k /\ disjoint_ranges bufp 64 w (4 * (length k + 1)) /\ (1 <= length k)%nat) as (Hk & Hd & Hlk).
  { unfold w, k. destruct (decide (i = length wl)); [by split_and!|]. split_and!; [by apply wide_string_drop| |rewrite length_drop; lia].
    unfold disjoint_ranges in *. rewrite length_drop. lia. }
  wp_step. rewrite Hbf, Hsz. apply (wp_fill w k bl); [done|done|done|]. cbv zeta. set (n := Nat.min 60 (length k)).
  set (bl2 := take n (narrow <$> k) ++ drop n bl). lazy beta iota. assert (1 <= n)%nat as Hn by lia. rewrite (proj2 (truth_true (Z.of_nat n))) by lia. cbn [rpos].
  assert (length (take n (narrow <$> k)) = n) as Hln by (rewrite length_take, length_fmap; lia).
  assert (length bl2 = 60%nat) as Hbl2 by (unfold bl2; rewrite length_app, Hln, length_drop; lia).
  assert (bl2 !! 0%nat = Some (default 64 ((narrow <$> wl) !! i))) as Hhead.
  { unfold bl2. rewrite lookup_app_l, lookup_take_lt by lia. unfold k. destruct (decide (i = length wl)) as [->|E].
    - rewrite (lookup_ge_None_2 (narrow <$> wl)) by (rewrite length_fmap; lia). done.
    - rewrite fmap_drop, lookup_drop, Nat.add_0_r. destruct (lookup_lt_is_Some_2 (narrow <$> wl) i) as [x Hx]; [rewrite length_fmap; lia|]. by rewrite Hx. }
  wp_step. wp_step. { rewrite <- (Z.add_0_r B). apply (bytes_at_lookup _ _ bl2 0%nat); [apply mem_write_bytes_at|exact Hhead]. }
  wp_step. cbn [fst snd with_read flags wpos wbase buf buf_size shlim shcnt rpos rend cookie]. split_and!; try done.
  exists bl2, (take n (narrow <$> k)). rewrite Hln. split_and!; try done; try lia.
  - unfold bl2. by rewrite take_app_le, take_take, Nat.min_id by lia.
  - unfold k, w in *. destruct (decide (i = length wl)) as [E|E]; [right|left].
    + split; [|done]. cbn. by destruct n as [|[|n']].
    + rewrite fmap_drop. split_and!; [done| |].
      * unfold n. rewrite length_drop. lia.
      * lia.
Qed.

Lemma narrow_byte wc : is_byte (narrow wc).
Proof. unfold narrow. destruct (wc <? 128); [by apply (wrap_range 8)|unfold in_range; lia]. Qed.

#[local] Instance wide_stream : Stream (do_read at_sign fuel) write (narrow <$> wl) 64 wide_state.
Proof.
  split.
  - apply Forall_fmap, Forall_true. intros wc. apply narrow_byte.
  - by repeat split.
  - intros i f m' Hi (bl & c & k & j & Hbl & -> & Hc & Hj & Htk & -> & Hcase & Hfl & Hwp & Hwb & Hbf & Hsz & Hlim & Hpos & Hrend & Hshend & Hcnt).
    rewrite length_fmap in Hi. unfold shgetc. rewrite Hpos, Hshend, Hrend. destruct (Z.eqb_spec (B + Z.of_nat j) (B + lenZ c)) as [E|E].
    + assert (j = length c) as -> by lia. destruct Hcase as [(Hcd & Hkc & Hck)|(-> & -> & _)]; [|simpl in Hi; lia].
      unfold __shgetc. rewrite Hlim. change (truth 0) with false. cbn [andb]. wp_step. unfold __uflow, __toread.
      cbn [wpos wbase]. rewrite Hwp, Hwb. change (0 =? 0) with true. wp_step. wp_step. wp_step. cbn [flags wend buf buf_size mode cookie shend shlim shcnt rpos rend]. rewrite Hfl.
      change (truth (Z.land 0 F_NORD)) with false. wp_step. cbn [with_read flags]. change (truth (Z.land 0 F_EOF)) with false. lazy beta iota. change (truth 0) with false.
      wp_step. eapply wp_mono.
      * apply (wp_do_read (k + length c)). exists bl. cbn [with_read cookie flags buf buf_size shlim]. split_and!; (done || lia).
      * intros [[n b] f2] m2 ([= -> ->] & Hfl2 & Hwp2 & Hwb2 & Hbf2 & Hsz2 & Hlim2 & Hcnt2 & Hpos2 & bl2 & c2 & Hbl2 & -> & Hc2 & Htk2 & Hrend2 & Hcase2).
        cbn [fst snd with_read wpos wbase shcnt] in *. wp_step. change (1 =? 1) with true. lazy beta iota.
        pose proof (narrow_byte) as Hnb. assert (0 <= default 64 ((narrow <$> wl) !! (k + length c)%nat)) as Hpos0.
        { rewrite list_lookup_fmap. destruct (wl !! (k + length c)%nat); simpl; [apply Hnb|lia]. }
        destruct (Z.ltb_spec (default 64 ((narrow <$> wl) !! (k + length c)%nat)) 0); [lia|].
        wp_step. cbn [with_sh rpos buf]. rewrite Hpos2, Hbf2. destruct (Z.leb_spec (B + 1) B); [lia|]. wp_step. wp_step. cbn [fst snd]. split; [done|].
        exists bl2, c2, (k + length c)%nat, 1%nat. cbn [with_sh flags wpos wbase buf buf_size shlim rpos rend shend cookie].
        rewrite Hlim2. change (truth 0) with false. cbn [andb]. split_and!; try (done || lia).
        -- destruct Hcase2 as [?|[? ?]]; [by left|by right].
        -- unfold shcount in *. cbn [with_sh shcnt rpos buf]. lia.
    + assert (j < length c)%nat as Hjc by lia. destruct (lookup_lt_is_Some_2 c j Hjc) as [b Hcj].
      wp_step. wp_step.
      { apply (bytes_at_lookup _ _ bl j); [apply mem_write_bytes_at|]. rewrite <- (lookup_take_lt bl (length c) j) by lia. by rewrite Htk. }
      wp_step. cbn [fst snd]. split.
      * destruct Hcase as [(Hcd & Hkc & Hck)|(-> & -> & ->)]; [|simpl in Hjc; lia]. rewrite Hcd in Hcj. rewrite lookup_take_lt, lookup_drop in Hcj by lia. by rewrite Hcj.
      * exists bl, c, k, (S j). cbn [with_read flags wpos wbase buf buf_size shlim rpos rend shend cookie]. split_and!; try (done || lia).
        -- destruct Hcase as [?|(-> & -> & ->)]; [by left|simpl in Hjc; lia].
        -- unfold shcount in *. cbn [with_read shcnt rpos buf]. lia.
  - intros i f m' (bl & c & k & j & Hrest). by split; destruct_and?.
Qed.
End wcsto.

(** What wcsto* is given: the wide string, the literal and the local buffer,
    apart from them. *)
Record wcsto_args (m : memory) (bufp at_sign s : Z) (wl : list Z) (p : Z) : Prop := {
  wa_string : wide_string m s wl;
  wa_at : wide_string m at_sign [64];
  wa_buf : mapped m bufp 64;
  wa_apart : disjoint_ranges bufp 64 s (4 * (length wl + 1)) /\ disjoint_ranges bufp 64 at_sign 8;
  wa_end : end_ok m p }.

Definition wspaces (wl : list Z) : nat := prefix_len (fun wc => iswspace (wrap32 wc)) wl.

Section wcstol.
Context (bufp at_sign : Z) (write : FILE -> CMem.C FILE) (m : memory) (s : Z) (wl : list Z) (p : Z) (fuel : nat).
Hypothesis Ha : wcsto_args m bufp at_sign s wl p.
Hypothesis Hf : (60 < fuel)%nat /\ (S (length wl) < fuel)%nat.

Lemma wp_wspaces (Q : Z -> memory -> Prop) : Q (s + 4 * Z.of_nat (wspaces wl)) m ->
  wp (loop fuel (fun t => x ← load32 t; mret (if iswspace x then inl (t + 4) else inr t)) s) m Q.
Proof.
  intros HQ. pose proof (prefix_len_le (fun wc => iswspace (wrap32 wc)) wl) as Hle. fold (wspaces wl) in Hle.
  apply (wp_loop (fun t m' => m' = m /\ exists j, (j <= wspaces wl)%nat /\ t = s + 4 * Z.of_nat j) (fun t => (wspaces wl - Z.to_nat ((t - s) / 4))%nat)).
  - intros t ? (-> & j & Hj & ->). wp_step. apply (wp_load_wide m s wl j); [apply Ha|lia|]. intros wc Hwc Hin _. wp_step.
    assert (iswspace (wrap32 wc) = (j <? wspaces wl)%nat) as ->.
    { pose proof (inp_prefix (l := wl) (term := 0) (fun wc => iswspace (wrap32 wc)) j eq_refl Hj) as E. unfold inp in E. fold (wspaces wl) in E. rewrite <- E.
      destruct (decide (j < length wl)%nat) as [Hl|Hl]; [by rewrite lookup_app_l in Hwc by done; rewrite Hwc|].
      rewrite (lookup_ge_None_2 wl) by lia. rewrite lookup_app_r in Hwc by lia. replace (j - length wl)%nat with 0%nat in Hwc by lia. by injection Hwc as <-. }
    destruct (Nat.ltb_spec j (wspaces wl)).
    + split; [split; [done|exists (S j); lia]|]. replace (s + 4 * Z.of_nat j + 4 - s) with (Z.of_nat (S j) * 4) by lia. replace (s + 4 * Z.of_nat j - s) with (Z.of_nat j * 4) by lia.
      rewrite !Z.div_mul by done. lia.
    + by replace (wspaces wl) with j in HQ by lia.
  - split; [done|]. exists 0%nat. lia.
  - rewrite Z.sub_diag, Z.div_0_l by done. lia.
Qed.

Lemma wp_wcstox base lim : limit lim ->
  wp (wcstox bufp at_sign write fuel s p base lim) m (fun r m' =>
    let '(v, e, n) := result lim (wrap32 base) (narrow <$> drop (wspaces wl) wl) in
    r = (v, e) /\ exists bl, length bl = 60%nat /\
    m' = with_end (mem_write m (bufp + 4) bl) p (if (n =? 0)%nat then s else s + 4 * Z.of_nat (wspaces wl + n))).
Proof.
  intros Hlim. destruct Ha as [Hw Hat Hbuf [D1 D2] Hend]. pose proof (prefix_len_le (fun wc => iswspace (wrap32 wc)) wl) as Hle. fold (wspaces wl) in Hle.
  unfold wcstox. wp_step. apply wp_wspaces. set (t := s + 4 * Z.of_nat (wspaces wl)). set (wl' := drop (wspaces wl) wl).
  assert (wide_string m t wl') as Hw' by (by apply wide_string_drop).
  assert (disjoint_ranges bufp 64 t (4 * (length wl' + 1))) as D1' by (unfold t, wl', disjoint_ranges in *; rewrite length_drop; lia).
  assert (mapped m (bufp + 4) 60) as Hbm by (eapply mapped_weaken; [exact Hbuf|lia..]). destruct (mapped_bytes m (bufp + 4) 60 Hbm) as (bl0 & Hl0 & Hb0).
  wp_step. eapply wp_mono.
  - assert (Stream (do_read at_sign fuel) write (narrow <$> wl') 64 (wide_state bufp m t wl')) as HS by (eapply wide_stream; (eassumption || tauto)).
    apply (wp_intscan (ST := HS) (wrap32 base) lim); [by apply (wrap_range 32)|done| |unfold wl'; rewrite length_fmap, length_drop; lia].
    exists bl0, [], 0%nat, 0%nat. cbn. split_and!; try (done || lia).
    + unfold buffered. by rewrite mem_write_id.
    + left. split_and!; [done|lia|lia].
    + unfold shcount. cbn. lia.
  - intros [[y e] f] m' (Hres & Hcnt & i & f1 & (bl & c & k & j & Hbl & -> & _)). cbn [fst snd] in Hres, Hcnt.
    destruct (result lim (wrap32 base) (narrow <$> wl')) as [[v e'] n]. cbn [fst snd] in *. injection Hres as -> ->. wp_step. rewrite Hcnt.
    assert ((if truth (Z.of_nat n) then t + 4 * Z.of_nat n else s) = (if (n =? 0)%nat then s else s + 4 * Z.of_nat (wspaces wl + n))) as ->.
    { destruct (Nat.eqb_spec n 0) as [->|Hn]; [done|]. rewrite (proj2 (truth_true _)) by lia. unfold t. lia. }
    apply wp_store_end.
    + destruct Hend as [->|[? ?]]; [by left|right]. split; [done|]. by apply mapped_mem_write.
    + wp_step. split; [done|]. by exists bl.
Qed.

(** C23: The wcsto* functions read a wide string as the strto* functions read
    its bytes, with Unicode white space in front, through a buffer of 60 bytes
    that is refilled as often as the number needs: the same numbers, limits
    and errno, the end in wide characters, and nothing written but the buffer
    and the end. A character beyond ASCII ends the number; a negative one is
    read as its low byte. *)
Theorem wcstol_correct base :
  wp (wcstoull bufp at_sign write fuel s p base) m (fun r m' =>
    let '(v, e, n) := unsigned_result (wrap32 base) (narrow <$> drop (wspaces wl) wl) in
    r = (v, e) /\ exists bl, length bl = 60%nat /\
    m' = with_end (mem_write m (bufp + 4) bl) p (if (n =? 0)%nat then s else s + 4 * Z.of_nat (wspaces wl + n))) /\
  wp (wcstoll bufp at_sign write fuel s p base) m (fun r m' =>
    let '(v, e, n) := signed_result (wrap32 base) (narrow <$> drop (wspaces wl) wl) in
    r = (v, e) /\ exists bl, length bl = 60%nat /\
    m' = with_end (mem_write m (bufp + 4) bl) p (if (n =? 0)%nat then s else s + 4 * Z.of_nat (wspaces wl + n))).
Proof.
  split.
  - rewrite <- result_unsigned. apply wp_wcstox. by right.
  - set (l := narrow <$> drop (wspaces wl) wl). pose proof (result_signed (wrap32 base) l ltac:(by apply (wrap_range 32))) as Es.
    unfold wcstoll. wp_step. eapply wp_mono; [apply wp_wcstox; by left|]. intros [y e] m' H. fold l in H.
    destruct (result (2 ^ 63) (wrap32 base) l) as [[v e'] n]. rewrite <- Es. destruct H as [[= -> ->] H]. by wp_step.
Qed.
End wcstol.

(** ** atoi, atol and atoll *)

Definition ato_value (l : list Z) : Z := match parse 10 l with Some (neg, v, _) => if neg then - v else v | None => 0 end.

Lemma prefix_ten l : prefix 10 l = (10, 0%nat).
Proof.
  unfold prefix. destruct l as [|b l]; [done|]. destruct b as [|b|b]; try done. do 6 (destruct b as [b|b|]; try done).
  by destruct l as [|x [|c l]].
Qed.

Lemma isdigit_dig b : is_byte b -> isdigit b = match dig 10 b with Some _ => true | None => false end.
Proof. intros Hb. unfold isdigit. rewrite (wrap_small 32 b) by (unfold in_range in *; lia). by apply dec_test. Qed.

Section ato.
Context (w : Z) (m : memory) (s : Z) (l : list Z).
Hypothesis Hw : w = 32 \/ w = 64.
Hypothesis Hb : Forall is_byte l.
Hypothesis Hs : bytes_at m s (l ++ [0]).

Definition fits_in (z : Z) : bool := (- 2 ^ (w - 1) <=? z) && (z <? 2 ^ (w - 1)).

Lemma load_string i : (i <= length l)%nat -> load8 (s + Z.of_nat i) m = Some (default 0 (l !! i), m).
Proof.
  intros Hi. apply wp_elim. apply (wp_load8 _ (default 0 (l !! i))); [|done]. apply (bytes_at_lookup m s (l ++ [0])); [done|].
  destruct (decide (i < length l)%nat) as [Hl|Hl].
  - rewrite lookup_app_l by done. destruct (lookup_lt_is_Some_2 l i Hl) as [b E]. by rewrite E.
  - replace i with (length l) by lia. by rewrite lookup_app_r, Nat.sub_diag, (lookup_ge_None_2 l) by lia.
Qed.

Lemma ato_spaces fuel : (length l < fuel)%nat ->
  loop fuel (fun s => b ← load8 s; mret (if isspace b then inl (s + 1) else inr s)) s m = Some (s + Z.of_nat (prefix_len isspace l), m).
Proof.
  intros Hf. assert (forall suf i fuel, drop i l = suf -> (i <= length l)%nat -> (length suf < fuel)%nat ->
    loop fuel (fun s => b ← load8 s; mret (if isspace b then inl (s + 1) else inr s)) (s + Z.of_nat i) m = Some (s + Z.of_nat i + Z.of_nat (prefix_len isspace suf), m)) as H.
  { clear fuel Hf. induction suf as [|b suf IH]; intros i [|fuel] Hd Hi Hf; try (simpl in Hf; lia); cbn [loop prefix_len].
    - rewrite (run_bind _ _ m (inr (s + Z.of_nat i)) m); [apply (f_equal (fun z => Some (z, m))); lia|]. rewrite (run_bind _ _ _ _ _ (load_string i Hi)).
      rewrite (lookup_ge_None_2 l) by (pose proof (f_equal length Hd) as E; rewrite length_drop in E; simpl in E; lia). done.
    - assert (l !! i = Some b) as Ei by (rewrite <- (Nat.add_0_r i), <- lookup_drop, Hd; done). pose proof (lookup_lt_Some _ _ _ Ei).
      rewrite (run_bind _ _ m (if isspace b then inl (s + Z.of_nat i + 1) else inr (s + Z.of_nat i)) m).
      2: { rewrite (run_bind _ _ _ _ _ (load_string i Hi)). by rewrite Ei. }
      destruct (isspace b); [|apply (f_equal (fun z => Some (z, m))); lia]. replace (s + Z.of_nat i + 1) with (s + Z.of_nat (S i)) by lia.
      rewrite (IH (S i) fuel); [apply (f_equal (fun z => Some (z, m))); lia| |lia|simpl in Hf; lia]. rewrite <- Nat.add_1_r, <- drop_drop, Hd. done. }
  replace s with (s + Z.of_nat 0) at 1 by lia. rewrite (H l); [apply (f_equal (fun z => Some (z, m))); lia|by rewrite drop_0|lia|done].
Qed.

(** The digits, counted down from [n]. *)
Lemma ato_digits suf i n fuel : drop i l = suf -> (i <= length l)%nat -> (length suf < fuel)%nat -> n <= 0 -> fits_in n = true ->
  loop fuel (fun '(n, s) => b ← load8 s; if isdigit b then k ← checked w (10 * n); n ← checked w (k - (b - 48)); mret (inl (n, s + 1)) else mret (inr n)) (n, s + Z.of_nat i) m =
    (let r := - number_from 10 (- n) (digits 10 suf) in if fits_in r then Some (r, m) else None).
Proof.
  revert i n fuel. induction suf as [|b suf IH]; intros i n [|fuel] Hd Hi Hf Hn Hfit; try (simpl in Hf; lia); cbn [loop digits].
  - rewrite (run_bind _ _ m (inr n) m); [unfold number_from; simpl; rewrite Z.opp_involutive, Hfit; done|]. rewrite (run_bind _ _ _ _ _ (load_string i Hi)).
    rewrite (lookup_ge_None_2 l) by (pose proof (f_equal length Hd) as E; rewrite length_drop in E; simpl in E; lia). done.
  - assert (l !! i = Some b) as Ei by (rewrite <- (Nat.add_0_r i), <- lookup_drop, Hd; done). pose proof (lookup_lt_Some _ _ _ Ei).
    pose proof (Forall_lookup_1 _ _ _ _ Hb Ei) as Hbb. cbv beta in Hbb. pose proof (isdigit_dig b Hbb) as Hdig.
    destruct (dig 10 b) as [d|] eqn:Edig.
    + pose proof (dec_dig b d Edig) as Ed. pose proof (dig_range _ _ _ Edig) as Hr.
      change (number_from 10 (- n) (d :: digits 10 suf)) with (number_from 10 (- n * 10 + d) (digits 10 suf)).
      pose proof (number_from_ge 10 (- n * 10 + d) (digits 10 suf) ltac:(lia) ltac:(lia) (digits_range 10 suf)) as Hge.
      assert (0 < 2 ^ (w - 1)) as Hp by (apply Z.pow_pos_nonneg; lia).
      destruct (fits_in (10 * n - d)) eqn:Hfit2.
      * rewrite (run_bind _ _ m (inl (10 * n - d, s + Z.of_nat (S i))) m).
        2: { rewrite (run_bind _ _ _ _ _ (load_string i Hi)). rewrite Ei. simpl (default 0 (Some b)). rewrite Hdig, Ed. unfold checked, fits_in in *.
             apply andb_true_iff in Hfit2 as [H1%Z.leb_le H2%Z.ltb_lt]. rewrite (proj2 (Z.leb_le _ (10 * n))), (proj2 (Z.ltb_lt (10 * n) _)) by lia. cbn [andb].
             rewrite (run_bind _ _ m (10 * n) m) by done. rewrite (proj2 (Z.leb_le _ (10 * n - d))), (proj2 (Z.ltb_lt (10 * n - d) _)) by lia. cbn [andb].
             rewrite (run_bind _ _ m (10 * n - d) m) by done. by replace (s + Z.of_nat (S i)) with (s + Z.of_nat i + 1) by lia. }
        cbn beta iota. rewrite (IH (S i) (10 * n - d) fuel); [|rewrite <- Nat.add_1_r, <- drop_drop, Hd; done|lia|simpl in Hf; lia|lia|done].
        by replace (- (10 * n - d)) with (- n * 10 + d) by lia.
      * assert (fits_in (- number_from 10 (- n * 10 + d) (digits 10 suf)) = false) as ->.
        { unfold fits_in in *. apply andb_false_iff in Hfit2. apply andb_false_iff. rewrite Z.leb_gt, Z.ltb_ge in *. lia. }
        unfold mbind at 1, C_bind at 1. enough (forall k : Z -> CMem.C (Z * Z + Z), (b ← load8 (s + Z.of_nat i); if isdigit b then k b else mret (inr n)) m = k b m) as Hk.
        { rewrite Hk. rewrite Ed. unfold checked. fold (fits_in (10 * n)). fold (fits_in (10 * n - d)). destruct (fits_in (10 * n)); [|done].
          rewrite (run_bind _ _ m (10 * n) m) by done. fold (fits_in (10 * n - d)). by rewrite Hfit2. }
        intros k. rewrite (run_bind _ _ _ _ _ (load_string i Hi)). rewrite Ei. simpl (default 0 (Some b)). by rewrite Hdig.
    + rewrite (run_bind _ _ m (inr n) m); [unfold number_from; simpl; rewrite Z.opp_involutive, Hfit; done|].
      rewrite (run_bind _ _ _ _ _ (load_string i Hi)). rewrite Ei. simpl (default 0 (Some b)). by rewrite Hdig.
Qed.

Lemma ato_value_start : let '(neg, j) := start (l := l) in (j <= length l)%nat /\ ato_value l = (if neg then - number 10 (digits 10 (drop j l)) else number 10 (digits 10 (drop j l))).
Proof.
  unfold ato_value, parse, start. set (i := prefix_len isspace l). pose proof (prefix_len_le isspace l) as Hi. fold i in Hi.
  assert (forall (neg : bool) j, (j <= length l)%nat -> (j <= length l)%nat /\
    match (let '(b, k) := prefix 10 (drop j l) in match digits b (drop (j + k) l) with [] => None | ds => Some (neg, number b ds, (j + k + length ds)%nat) end) with
    | Some (neg, v, _) => if neg then - v else v | None => 0 end = (if neg then - number 10 (digits 10 (drop j l)) else number 10 (digits 10 (drop j l)))) as H.
  { intros neg j Hj. split; [done|]. rewrite prefix_ten, Nat.add_0_r. destruct (digits 10 (drop j l)); [by destruct neg|done]. }
  destruct (l !! i) as [b|] eqn:E; [|by apply H]. pose proof (lookup_lt_Some _ _ _ E) as Hl.
  destruct b as [|b|b]; try (by apply H). do 6 (destruct b as [b|b|]; try (apply H; lia)).
Qed.

(** C38: [atoi], [atol] and [atoll] return the number of the longest prefix that
    is one, as strtol with base 10 reads it, and 0 where there is none; exactly
    where it does not fit their type the behaviour is undefined, the smallest
    number included among those that fit. *)
Theorem ato_correct fuel : (length l < fuel)%nat ->
  ato w fuel s m = if fits_in (ato_value l) then Some (ato_value l, m) else None.
Proof.
  intros Hf. unfold ato. rewrite (run_bind _ _ _ _ _ (ato_spaces fuel Hf)). pose proof ato_value_start as Hv. unfold start in Hv. set (i := prefix_len isspace l) in *.
  pose proof (prefix_len_le isspace l) as Hi. fold i in Hi. rewrite (run_bind _ _ _ _ _ (load_string i Hi)).
  assert (0 < 2 ^ (w - 1)) as Hp by (apply Z.pow_pos_nonneg; lia).
  assert (forall (neg : bool) j, (j <= length l)%nat ->
    (n ← loop fuel (fun '(n, s) => b ← load8 s; if isdigit b then k ← checked w (10 * n); n ← checked w (k - (b - 48)); mret (inl (n, s + 1)) else mret (inr n)) (0, s + Z.of_nat j);
     if neg then mret n else checked w (- n)) m =
    (let z := if neg then - number 10 (digits 10 (drop j l)) else number 10 (digits 10 (drop j l)) in if fits_in z then Some (z, m) else None)) as H.
  { intros neg j Hj. cbv zeta. set (v := number 10 (digits 10 (drop j l))).
    assert (0 <= v) as Hv0 by (apply number_from_ge; [done|done|apply digits_range]).
    pose proof (ato_digits (drop j l) j 0 fuel eq_refl Hj ltac:(rewrite length_drop; lia) ltac:(lia)) as Hd. cbv zeta in Hd. change (- 0) with 0 in Hd. fold (number 10 (digits 10 (drop j l))) in Hd. fold v in Hd.
    assert (fits_in 0 = true) as H0 by (unfold fits_in; rewrite (proj2 (Z.leb_le _ _)), (proj2 (Z.ltb_lt _ _)) by lia; done). specialize (Hd H0).
    destruct (fits_in (- v)) eqn:Hfit.
    - rewrite (run_bind _ _ _ _ _ Hd). destruct neg; [by rewrite Hfit|]. rewrite Z.opp_involutive. unfold checked. fold (fits_in v). by destruct (fits_in v).
    - rewrite (stop_bind _ _ _ Hd). destruct neg; [by rewrite Hfit|]. assert (fits_in v = false) as ->; [|done].
      unfold fits_in in *. apply andb_false_iff in Hfit. apply andb_false_iff. rewrite Z.leb_gt, Z.ltb_ge in *. lia. }
  destruct (l !! i) as [b|] eqn:Ei; simpl (default 0 _).
  - destruct (Z.eqb_spec b 45) as [->|H45]; [|destruct (Z.eqb_spec b 43) as [->|H43]]; cbn [orb]; cbv zeta.
    + destruct Hv as [Hj ->]. replace (s + Z.of_nat i + 1) with (s + Z.of_nat (S i)) by lia. by apply (H true).
    + destruct Hv as [Hj ->]. replace (s + Z.of_nat i + 1) with (s + Z.of_nat (S i)) by lia. by apply (H false).
    + rewrite (H false i Hi). cbv zeta. assert (ato_value l = number 10 (digits 10 (drop i l))) as ->; [|done].
      destruct b as [|b|b]; try tauto. do 6 (destruct b as [b|b|]; try tauto).
  - cbv zeta. change (0 =? 45) with false. change (0 =? 43) with false. cbn [orb]. destruct Hv as [_ ->]. apply (H false i Hi).
Qed.
End ato.

(** ** Printing *)

Lemma number_from_0 base y ds : 1 <= base -> 0 <= y -> Forall (fun d => 0 <= d < base) ds -> number_from base y ds = 0 -> y = 0.
Proof. intros Hb Hy Hd H. pose proof (number_from_ge base y ds Hb Hy Hd). lia. Qed.

Section print.
Context (base : Z) (glyph char next : Z -> Z).
Hypothesis Hbase : 2 <= base <= 36.
Hypothesis Hglyph : forall d, 0 <= d < base -> is_byte (glyph d) /\ dig base (glyph d) = Some d.
Hypothesis Hchar : forall x, 0 <= x -> char x = glyph (x mod base).
Hypothesis Hnext : forall x, 0 <= x -> next x = x / base.

(** The digits of [x], without leading zeros. *)
Definition canonical (x : Z) (ds : list Z) : Prop :=
  Forall (fun d => 0 <= d < base) ds /\ number base ds = x /\ head ds <> Some 0.

Lemma wp_print m s k x fuel (Q : Z * Z -> memory -> Prop) : 0 <= x < base ^ Z.of_nat k -> mapped m (s - Z.of_nat k) k -> (k < fuel)%nat ->
  (forall ds y, (length ds <= k)%nat -> canonical x ds -> Q (y, s - lenZ ds) (mem_write m (s - lenZ ds) (glyph <$> ds))) ->
  wp (print fuel truth char next x s) m Q.
Proof.
  intros Hx Hm Hf HQ. unfold print.
  apply (wp_loop (fun '(y, p) m' => exists ds, p = s - lenZ ds /\ (length ds <= k)%nat /\ m' = mem_write m p (glyph <$> ds) /\
    Forall (fun d => 0 <= d < base) ds /\ number_from base y ds = x /\ 0 <= y < base ^ (Z.of_nat k - lenZ ds) /\ (y = 0 -> head ds <> Some 0)) (fun '(_, p) => Z.to_nat (p - (s - Z.of_nat k)))).
  - intros [y p] m' (ds & -> & Hl & -> & Hds & Hn & Hy & Hh). destruct (truth y) eqn:Ht; [apply truth_true in Ht|apply truth_false in Ht].
    + assert (length ds < k)%nat as Hlk by (destruct (decide (length ds = k)) as [E|]; [rewrite E, Z.sub_diag in Hy; simpl in Hy|]; lia).
      pose proof (Z.mod_pos_bound y base ltac:(lia)) as Hmod. pose proof (Z.div_mod y base ltac:(lia)) as Hdm. pose proof (Z.div_pos y base ltac:(lia) ltac:(lia)) as Hdp.
      destruct (Hglyph (y mod base) Hmod) as [Hgb _]. rewrite Hchar, Hnext by lia. wp_step. apply wp_store8.
      { apply mapped_mem_write with (n := k) (q := s - Z.of_nat k); [done|lia]. }
      wp_step. split; [|lia]. exists (y mod base :: ds). cbn [length fmap list_fmap head]. split_and!.
      * lia.
      * lia.
      * rewrite (wrap_small 8 _ Hgb). apply map_eq. intros a. rewrite mem_write_lookup. cbn [length]. rewrite length_fmap. destruct (decide (a = s - lenZ ds - 1)) as [->|Hne].
        -- rewrite lookup_insert_eq, decide_True by lia. by rewrite Z.sub_diag.
        -- rewrite lookup_insert_ne, mem_write_lookup, length_fmap by done. destruct (decide (s - lenZ ds <= a < s - lenZ ds + lenZ ds)) as [Hr|Hr].
           ++ rewrite decide_True by lia. replace (Z.to_nat (a - (s - lenZ ds - 1))) with (S (Z.to_nat (a - (s - lenZ ds)))) by lia. done.
           ++ by rewrite decide_False by lia.
      * by apply List.Forall_cons.
      * change (number_from base (y / base) (y mod base :: ds)) with (number_from base (y / base * base + y mod base) ds). rewrite <- Hn. f_equal. lia.
      * done.
      * replace (Z.of_nat k - lenZ ds) with (Z.succ (Z.of_nat k - Z.of_nat (S (length ds)))) in Hy by lia. rewrite Z.pow_succ_r in Hy by lia. apply Z.div_lt_upper_bound; lia.
      * intros E [= E']. lia.
    + subst y. wp_step. apply HQ; [done|]. unfold canonical. split_and!; [done|done|by apply Hh].
  - exists []. split_and!; try done; simpl length; rewrite ?Z.sub_0_r; lia.
  - lia.
Qed.

Lemma digits_glyph ds : Forall (fun d => 0 <= d < base) ds -> digits base (glyph <$> ds) = ds /\ Forall is_byte (glyph <$> ds).
Proof.
  induction 1 as [|d ds Hd Hds [IH1 IH2]]; [done|]. cbn [fmap list_fmap digits]. destruct (Hglyph d Hd) as [Hb ->]. rewrite IH1. split; [done|]. by apply List.Forall_cons.
Qed.

(** What is printed is read as what it is. *)
Lemma parse_printed x ds b : 0 < x -> canonical x ds -> b = base \/ b = 0 /\ base = 10 -> parse b (glyph <$> ds) = Some (false, x, length ds).
Proof.
  intros Hx (Hds & Hn & Hh) Hb. destruct ds as [|d ds]; [unfold number, number_from in Hn; simpl in Hn; lia|].
  destruct (digits_glyph (d :: ds) Hds) as [Hdg _]. pose proof (Forall_inv Hds) as Hd. cbv beta in Hd. destruct (Hglyph d Hd) as [Hgb Hgd].
  pose proof (dig_inv _ _ _ Hgd) as [_ Hrange]. cbn [fmap list_fmap] in *. set (g := glyph d) in *.
  assert (isspace g = false) as Hsp.
  { unfold isspace. rewrite (wrap_small 32 g) by (unfold in_range in *; lia). rewrite wrap_small by (unfold in_range; lia).
    destruct (Z.eqb_spec g 32), (Z.ltb_spec (g - 9) 5); try done; lia. }
  unfold parse. cbn [prefix_len]. rewrite Hsp. cbn [lookup list_lookup].
  assert (forall (A : Type) (p q r : A), match g with 45 => p | 43 => q | _ => r end = r) as Hsign.
  { intros. destruct (decide (g = 45)); [lia|]. destruct (decide (g = 43)); [lia|]. destruct g as [|y|y]; try done. do 6 (destruct y as [y|y|]; try done). }
  rewrite Hsign. rewrite drop_0. assert (prefix b (g :: (glyph <$> ds)) = (base, 0%nat)) as ->.
  { destruct Hb as [->|[-> Hten]].
    - unfold prefix. assert (base =? 0 = false) as -> by (apply Z.eqb_neq; lia).
      assert (forall x : Z, dig base x <> None -> (base =? 16) && ((x =? 120) || (x =? 88)) = false) as Hx16.
      { intros x0 Hx0. destruct (Z.eqb_spec base 16) as [E|]; [|done]. rewrite E in Hx0. destruct (Z.eqb_spec x0 120) as [->|]; [by destruct Hx0|]. by destruct (Z.eqb_spec x0 88) as [->|]; [by destruct Hx0|]. }
      destruct ds as [|d1 ds]; [destruct g as [|y|y]; try done; do 6 (destruct y as [y|y|]; try done)|].
      apply Forall_inv_tail in Hds. pose proof (Forall_inv Hds) as Hd1. cbv beta in Hd1. destruct (Hglyph d1 Hd1) as [_ Hg1]. cbn [fmap list_fmap].
      specialize (Hx16 (glyph d1) ltac:(congruence)). cbn [orb]. destruct ds as [|d2 ds]; cbn [fmap list_fmap].
      + destruct g as [|y|y]; try done; do 6 (destruct y as [y|y|]; try done).
      + rewrite Hx16. cbn [andb]. destruct g as [|y|y]; try done; do 6 (destruct y as [y|y|]; try done).
    - assert (g <> 48) as H48. { intros E. rewrite Hten in Hgd. pose proof (dec_dig g d Hgd). apply Hh. cbn. f_equal. lia. }
      unfold prefix. rewrite Hten. destruct g as [|y|y]; try done; do 6 (destruct y as [y|y|]; try done). }
  cbn [drop Nat.add]. rewrite Hdg. rewrite Hn. done.
Qed.
End print.

Section roundtrip.
Context (read : FILE -> CMem.C (Z * Z * FILE)) (write : FILE -> CMem.C FILE) (f0 : FILE) (m : memory) (s x : Z) (fuel : nat).
Hypothesis Hx : 0 < x < 2 ^ 64.
Hypothesis Hm : mapped m (s - 22) 22.
Hypothesis Hend : bytes_at m s [0].
Hypothesis Hs : 22 <= s < 2 ^ 64 - 1.
Hypothesis Hf : (23 < fuel)%nat.

Lemma wp_read_back base glyph ds b : 2 <= base <= 36 -> (forall d, 0 <= d < base -> is_byte (glyph d) /\ dig base (glyph d) = Some d) ->
  canonical base x ds -> (length ds <= 22)%nat -> b = base \/ b = 0 /\ base = 10 ->
  wp (strtoull read write fuel f0 (s - lenZ ds) 0 b) (mem_write m (s - lenZ ds) (glyph <$> ds)) (fun r _ => r = (x, None)).
Proof.
  intros Hbase Hg Hc Hl Hb. destruct (digits_glyph base glyph Hg ds) as [_ Hbytes]; [by destruct Hc|]. unfold strtoull. eapply wp_mono.
  - apply (wp_strtox read write _ (s - lenZ ds) (glyph <$> ds) f0 Hbytes); [|rewrite length_fmap; lia|by right|by left|rewrite length_fmap; lia].
    apply bytes_at_app. split; [apply mem_write_bytes_at|]. rewrite length_fmap. replace (s - lenZ ds + lenZ ds) with s by lia.
    apply bytes_at_mem_write_disjoint; [unfold disjoint_ranges; rewrite length_fmap; simpl length; lia|done].
  - intros r m' [-> _]. rewrite result_unsigned. unfold unsigned_result. rewrite wrap_small by (unfold in_range; lia).
    assert ((36 <? b) || (b =? 1) = false) as -> by (apply orb_false_iff; rewrite Z.ltb_ge, Z.eqb_neq; lia).
    rewrite (parse_printed base glyph Hbase Hg x ds b) by (done || lia). cbn [fst]. unfold ULLONG_MAX. rewrite (proj2 (Z.leb_le _ _)) by lia.
    by rewrite wrap_small by (unfold in_range; lia).
Qed.

(** Printing with one of the printers and reading back. *)
Lemma wp_print_read base glyph char next b : 8 <= base <= 36 -> (forall d, 0 <= d < base -> is_byte (glyph d) /\ dig base (glyph d) = Some d) ->
  (forall y, 0 <= y -> char y = glyph (y mod base)) -> (forall y, 0 <= y -> next y = y / base) -> b = base \/ b = 0 /\ base = 10 ->
  wp (r ← print fuel truth char next x s; strtoull read write fuel f0 r.2 0 b) m (fun r _ => r = (x, None)).
Proof.
  intros Hbase Hg Hc Hn Hb. wp_step. apply (wp_print base glyph char next ltac:(lia) Hg Hc Hn m s 22 x fuel); [|exact Hm|lia|].
  - split; [lia|]. apply (Z.lt_le_trans _ (2 ^ 64)); [lia|]. apply (Z.le_trans _ (8 ^ 22)); [done|]. apply Z.pow_le_mono_l. lia.
  - intros ds y Hl Hcan. cbn [snd]. apply wp_read_back with (base := base); try done. lia.
Qed.

Lemma xdigits_glyph lower d : lower = 0 \/ lower = 32 -> 0 <= d < 16 ->
  is_byte (Z.lor (default 0 (xdigits !! Z.to_nat d)) lower) /\ dig 16 (Z.lor (default 0 (xdigits !! Z.to_nat d)) lower) = Some d.
Proof.
  intros Hl Hd. assert (forallb (fun d => forallb (fun lower => let g := Z.lor (default 0 (xdigits !! Z.to_nat d)) lower in
    (0 <=? g) && (g <? 256) && bool_decide (dig 16 g = Some d)) [0; 32]) (seqZ 0 16) = true) as H by (vm_compute; reflexivity).
  pose proof (bytes_all _ _ _ H d ltac:(lia)) as E. cbv beta in E. rewrite forallb_forall in E. specialize (E lower ltac:(simpl; destruct Hl; auto)).
  cbv beta zeta in E. rewrite !andb_true_iff, Z.leb_le, Z.ltb_lt, bool_decide_eq_true in E. destruct E as [E1 E2]. split; [exact E1|exact E2].
Qed.

Lemma dec_glyph base d : base = 8 \/ base = 10 -> 0 <= d < base -> is_byte (48 + d) /\ dig base (48 + d) = Some d.
Proof.
  intros Hb Hd. split; [unfold in_range; lia|]. unfold dig, digit. rewrite (proj2 (Z.leb_le 48 (48 + d))), (proj2 (Z.leb_le (48 + d) 57)) by lia. cbn [andb].
  replace (48 + d - 48) with d by lia. by rewrite (proj2 (Z.ltb_lt d base)) by lia.
Qed.

(** C24: A number that printf's fmt_u, fmt_x (in either case) or fmt_o writes
    before a NUL is what [strtoull] reads there, in the base it was printed in
    and, in decimal, also where the base is left open; twenty-two bytes are
    enough for every number. *)
Theorem print_scan_roundtrip :
  wp (p ← fmt_u fuel x s; strtoull read write fuel f0 p 0 10) m (fun r _ => r = (x, None)) /\
  wp (p ← fmt_u fuel x s; strtoull read write fuel f0 p 0 0) m (fun r _ => r = (x, None)) /\
  wp (p ← fmt_o fuel x s; strtoull read write fuel f0 p 0 8) m (fun r _ => r = (x, None)) /\
  forall lower, lower = 0 \/ lower = 32 -> wp (p ← fmt_x fuel x s lower; strtoull read write fuel f0 p 0 16) m (fun r _ => r = (x, None)).
Proof.
  assert (forall b, b = 10 \/ b = 0 -> wp (p ← fmt_u fuel x s; strtoull read write fuel f0 p 0 b) m (fun r _ => r = (x, None))) as Hu.
  { intros b Hb. unfold fmt_u. apply wp_bind, wp_bind.
    assert (print fuel (fun x => 2 ^ 64 - 1 <? x) (fun x => 48 + x `mod` 10) (fun x => x / 10) x s m = Some ((x, s), m)) as E.
    { clear Hm Hend. unfold print. destruct fuel as [|n]; [lia|]. cbn [loop]. assert (2 ^ 64 - 1 <? x = false) as -> by (apply Z.ltb_ge; lia). done. }
    unfold wp at 1. rewrite E.
    pose proof (wp_print_read 10 (fun d => 48 + d) (fun y => 48 + y mod 10) (fun y => y / 10) b ltac:(lia) (fun d Hd => dec_glyph 10 d ltac:(by right) Hd) ltac:(done) ltac:(done) ltac:(tauto)) as H.
    apply wp_bind_inv in H. apply wp_bind. eapply wp_mono; [exact H|]. intros r m' Hr. by wp_step. }
  split_and!; [apply Hu; tauto|apply Hu; tauto| |].
  - pose proof (wp_print_read 8 (fun d => 48 + d) (fun y => 48 + Z.land y 7) (fun y => Z.shiftr y 3) 8 ltac:(lia) (fun d Hd => dec_glyph 8 d ltac:(by left) Hd)
      ltac:(intros; cbv beta; by change 7 with (Z.ones 3); rewrite Z.land_ones) ltac:(intros; cbv beta; by rewrite Z.shiftr_div_pow2) ltac:(by left)) as H.
    unfold fmt_o. apply wp_bind_inv in H. apply wp_bind, wp_bind. eapply wp_mono; [exact H|]. intros r m' Hr. by wp_step.
  - intros lower Hl.
    pose proof (wp_print_read 16 (fun d => Z.lor (default 0 (xdigits !! Z.to_nat d)) lower) (fun y => Z.lor (default 0 (xdigits !! Z.to_nat (Z.land y 15))) lower) (fun y => Z.shiftr y 4) 16
      ltac:(lia) (fun d Hd => xdigits_glyph lower d Hl Hd) ltac:(intros; cbv beta; by change 15 with (Z.ones 4); rewrite Z.land_ones) ltac:(intros; cbv beta; by rewrite Z.shiftr_div_pow2) ltac:(by left)) as H.
    unfold fmt_x. apply wp_bind_inv in H. apply wp_bind, wp_bind. eapply wp_mono; [exact H|]. intros r m' Hr. by wp_step.
Qed.
End roundtrip.

(** ** On a page *)

Definition no_read (f : FILE) : CMem.C (Z * Z * FILE) := undef.
Definition no_write (f : FILE) : CMem.C FILE := undef.
Definition any_file : FILE := mk_FILE 1 2 3 4 5 6 7 8 9 10 11 12 13.

(** " -0x1fz" at 64. *)
Definition hex_text : list Z := [32; 45; 48; 120; 49; 102; 122].
Definition hex_page : memory := mem_write page 64 hex_text.

Lemma strtol_witness :
  strtoull no_read no_write 9 any_file 64 128 0 hex_page = Some ((2 ^ 64 - 31, None), mem_write hex_page 128 (le_split 8 70)) /\
  strtoll no_read no_write 9 any_file 64 128 0 hex_page = Some ((-31, None), mem_write hex_page 128 (le_split 8 70)).
Proof.
  destruct (strtol_correct no_read no_write hex_page 64 hex_text any_file) with (p := 128) (base := 0) (fuel := 9%nat) as (H1 & H2 & _).
  - repeat (apply List.Forall_cons; [unfold in_range; lia|]). apply List.Forall_nil.
  - repeat split; vm_compute; reflexivity.
  - simpl. lia.
  - right. split; [done|]. apply mapped_mem_write, page_mapped; lia.
  - simpl. lia.
  - split; [exact H1|exact H2].
Defined.

(** A space, "7A" and a letter that is not ASCII at 128, L"@" at 152. *)
Definition wide_text : list Z := [0x2003; 0x37; 0x41; 0xe9].
Definition wide_page : memory := mem_write (mem_write page 128 (wide (wide_text ++ [0]))) 152 (wide [64; 0]).

Lemma wide_text_string m w k : Forall in_int k /\ Forall (fun wc => wc <> 0) k -> w mod 4 = 0 -> bytes_at m w (wide (k ++ [0])) -> wide_string m w k.
Proof. by split. Qed.

Lemma wide_page_args : wcsto_args wide_page 64 152 128 wide_text 168.
Proof.
  split.
  - apply wide_text_string; [|done|repeat split; vm_compute; reflexivity].
    split; repeat (apply List.Forall_cons; [unfold in_int; lia|]); apply List.Forall_nil.
  - apply wide_text_string; [|done|repeat split; vm_compute; reflexivity].
    split; repeat (apply List.Forall_cons; [unfold in_int; lia|]); apply List.Forall_nil.
  - do 2 apply mapped_mem_write. apply page_mapped; lia.
  - split; unfold disjoint_ranges; simpl; lia.
  - right. split; [done|]. do 2 apply mapped_mem_write. apply page_mapped; lia.
Qed.

Lemma wcstol_witness :
  wp (wcstoll 64 152 no_write 61 128 168 16) wide_page (fun r m' =>
    r = (0x7a, None) /\ exists bl, length bl = 60%nat /\ m' = mem_write (mem_write wide_page 68 bl) 168 (le_split 8 140)).
Proof.
  destruct (wcstol_correct 64 152 no_write wide_page 128 wide_text 168 61 wide_page_args) with (base := 16) as [_ H]; [simpl; lia|].
  eapply wp_mono; [exact H|]. intros r m' H'. exact H'.
Defined.

(** "-2147483648" at 64. *)
Definition min_text : list Z := [45; 50; 49; 52; 55; 52; 56; 51; 54; 52; 56].
Definition min_page : memory := mem_write page 64 min_text.
Lemma ato_witness : atoi 12 64 min_page = Some (-2147483648, min_page).
Proof.
  apply (ato_correct 32 min_page 64 min_text); [by left| |repeat split; vm_compute; reflexivity|simpl; lia].
  repeat (apply List.Forall_cons; [unfold in_range; lia|]). apply List.Forall_nil.
Defined.

Lemma print_scan_witness : wp (p ← fmt_u 24 255 100; strtoull no_read no_write 24 any_file p 0 10) page (fun r _ => r = (255, None)).
Proof.
  destruct (print_scan_roundtrip no_read no_write any_file page 100 255 24) as [H _]; [lia|apply page_mapped; simpl; lia|split; [vm_compute; reflexivity|done]|lia|lia|].
  exact H.
Defined.
