(* ===== verification/Fnmatch.v ===== *)
(** * Fnmatch: filename patterns, musl src/regex/fnmatch.c

    The pattern and the string are the lists [P] and [T] of bytes with their
    terminating NUL, a pointer into one is an offset; a read past the end is
    undefined. Sizes are size_t, -1 where the string ends at its NUL. The
    locale is MB_CUR_MAX==1 or UTF-8; character classes and case are arguments. *)

From stdpp Require Import base tactics numbers list option.
From S2P Require Import Prelude Utf8.
Open Scope Z_scope.

Definition FNM_PATHNAME : Z := 0x1.
Definition FNM_NOESCAPE : Z := 0x2.
Definition FNM_PERIOD : Z := 0x4.
Definition FNM_LEADING_DIR : Z := 0x8.
Definition FNM_CASEFOLD : Z := 0x10.
Definition FNM_NOMATCH : Z := 1.

Definition END : Z := 0.
Definition UNMATCHABLE : Z := -2.
Definition BRACKET : Z := -3.
Definition QUESTION : Z := -4.
Definition STAR : Z := -5.

(** A loop whose body goes on ([inl]) or leaves ([inr]). *)
Fixpoint oloop {S R} (fuel : nat) (body : S -> option (S + R)) (s : S) : option R :=
  match fuel with
  | O => None
  | S fuel => r ← body s; match r with inl s => oloop fuel body s | inr v => Some v end
  end.

Definition flag (flags f : Z) : bool := truth (Z.land flags f).

(** [n] as mbtowc sees it: beyond four it makes no difference. *)
Definition avail (n : Z) : nat := Z.to_nat (Z.min n 4).

Section strings.
Variables (mb1 : bool) (P T : list Z).

(** ** str_next and pat_next: the character or token, and its size *)

Definition str_next (s : nat) (n : Z) : option (Z * nat) :=
  if n =? 0 then Some (0, 0%nat) else
  b ← T !! s;
  if 128 <=? b then
    '(k, wc) ← mbtowc mb1 (Some (drop s T)) (avail n);
    if k <? 0 then Some (-1, 1%nat) else wc ← wc; Some (wc, Z.to_nat k)
  else Some (b, 1%nat).

(** [k<m && pat[k]] *)
Definition inside (pat : nat) (m : Z) (k : nat) : option bool :=
  if Z.of_nat k <? m then b ← P !! (pat + k)%nat; Some (truth b) else Some false.

(** The [while] loop over a class such as [:alpha:]. *)
Definition class_end (fuel : nat) (pat : nat) (m z : Z) (k : nat) : option nat :=
  oloop fuel (fun k =>
    i ← inside pat m k;
    if (i : bool) then
      a ← P !! (pat + k - 1)%nat; b ← P !! (pat + k)%nat;
      if negb (a =? z) || negb (b =? 93) then Some (inl (S k)) else Some (inr k)
    else Some (inr k)) k.

(** The [for] loop: where the bracket expression ends, or does not. *)
Definition bracket_end (fuel : nat) (pat : nat) (m : Z) (k : nat) : option nat :=
  oloop fuel (fun k =>
    i ← inside pat m k;
    if negb (i : bool) then Some (inr k) else
    b ← P !! (pat + k)%nat;
    if b =? 93 then Some (inr k) else
    i ← inside pat m (S k);
    if (i : bool) && (b =? 91) then
      z ← P !! (pat + k + 1)%nat;
      if (z =? 58) || (z =? 46) || (z =? 61) then
        let k := (k + 2)%nat in
        i ← inside pat m k;
        let k := if (i : bool) then S k else k in
        k ← class_end (length P) pat m z k;
        i ← inside pat m k;
        if negb (i : bool) then Some (inr k) else Some (inl (S k))
      else Some (inl (S k))
    else Some (inl (S k))) k.

Definition pat_next (pat : nat) (m flags : Z) : option (Z * nat) :=
  if m =? 0 then Some (END, 0%nat) else
  b ← P !! pat;
  if b =? 0 then Some (END, 0%nat) else
  let escaped (pat esc : nat) : option (Z * nat) :=
    b ← P !! pat;
    if 128 <=? b then
      '(k, wc) ← mbtowc mb1 (Some (drop pat P)) (avail m);
      if k <? 0 then Some (UNMATCHABLE, 0%nat) else wc ← wc; Some (wc, (Z.to_nat k + esc)%nat)
    else Some (b, S esc) in
  esc ← (if b =? 92 then c ← P !! S pat; Some (truth c && negb (flag flags FNM_NOESCAPE)) else Some false);
  if (esc : bool) then escaped (S pat) 1%nat else
  if b =? 91 then
    let k := 1%nat in
    k ← (if Z.of_nat k <? m then c ← P !! (pat + k)%nat; Some (if (c =? 94) || (c =? 33) then S k else k) else Some k);
    k ← (if Z.of_nat k <? m then c ← P !! (pat + k)%nat; Some (if c =? 93 then S k else k) else Some k);
    k ← bracket_end (length P) pat m k;
    i ← inside pat m k;
    if negb (i : bool) then Some (91, 1%nat) else Some (BRACKET, S k)
  else if b =? 42 then Some (STAR, 1%nat)
  else if b =? 63 then Some (QUESTION, 1%nat)
  else escaped pat 0%nat.

(** ** casefold and match_bracket *)

Variables (towupper towlower : Z -> Z) (wctype : list Z -> Z) (iswctype : Z -> Z -> bool).

Definition casefold (k : Z) : Z := let c := towupper k in if c =? k then towlower k else c.

(** The [while] loop to the end of a class. *)
Definition skip_class (fuel : nat) (z : Z) (p : nat) : option nat :=
  oloop fuel (fun p => a ← P !! (p - 1)%nat; b ← P !! p; if negb (a =? z) || negb (b =? 93) then Some (inl (S p)) else Some (inr p)) p.

Definition match_items (fuel : nat) (p : nat) (wc k kfold : Z) (inv : bool) : option bool :=
  oloop fuel (fun '(p, wc) =>
    b ← P !! p;
    if b =? 93 then Some (inr inv) else
    c ← P !! S p;
    if (b =? 45) && negb (c =? 93) then
      '(l, wc2) ← mbtowc mb1 (Some (drop (S p) P)) 4;
      if l <? 0 then Some (inr false) else
      wc2 ← wc2;
      if (wc <=? wc2) && ((wrap32 (wrap32 k - wrap32 wc) <=? wrap32 (wc2 - wc)) || (wrap32 (wrap32 kfold - wrap32 wc) <=? wrap32 (wc2 - wc)))
      then Some (inr (negb inv)) else Some (inl (p + Z.to_nat l, wc)%nat)
    else if (b =? 91) && ((c =? 58) || (c =? 46) || (c =? 61)) then
      let p0 := (p + 2)%nat in
      p ← skip_class (length P) c (p + 3)%nat;
      let name := take (p - 1 - p0) (drop p0 P) in
      if (c =? 58) && (p - 1 - p0 <? 16)%nat && (iswctype k (wctype name) || iswctype kfold (wctype name))
      then Some (inr (negb inv)) else Some (inl (S p, wc))
    else
      let literal (p : nat) (wc : Z) : option (nat * Z + bool) := if (wc =? k) || (wc =? kfold) then Some (inr (negb inv)) else Some (inl (S p, wc)) in
      if b <? 128 then literal p b else
      '(l, wc) ← mbtowc mb1 (Some (drop p P)) 4;
      if l <? 0 then Some (inr false) else wc ← wc; literal (p + (Z.to_nat l - 1))%nat wc) (p, wc).

Definition match_bracket (p : nat) (k kfold : Z) : option bool :=
  let p := S p in
  b ← P !! p;
  let inv := (b =? 94) || (b =? 33) in
  let p := if inv then S p else p in
  b ← P !! p;
  if ((b =? 93) || (b =? 45)) && (k =? b) then Some (negb inv) else
  let p := if (b =? 93) || (b =? 45) then S p else p in
  wc ← P !! (p - 1)%nat;
  match_items (length P) p wc k kfold inv.

(** ** fnmatch_internal *)

(** The test of a token that is not END, STAR or UNMATCHABLE. *)
Definition tok_match (flags c : Z) (pat : nat) (k : Z) : option bool :=
  let kfold := if flag flags FNM_CASEFOLD then casefold k else k in
  if c =? BRACKET then match_bracket pat k kfold else Some ((c =? QUESTION) || (k =? c) || (kfold =? c)).

(** The head: until the first star ([inl]) or an answer. *)
Definition head_loop (fuel : nat) (flags : Z) (st : nat * Z * nat * Z) : option ((nat * Z * nat * Z) + Z) :=
  oloop fuel (fun '(pat, m, str, n) =>
    '(c, pinc) ← pat_next pat m flags;
    if c =? UNMATCHABLE then Some (inr (inr FNM_NOMATCH)) else
    if c =? STAR then Some (inr (inl (S pat, wrap64 (m - 1), str, n))) else
    '(k, sinc) ← str_next str n;
    if k <=? 0 then Some (inr (inr (if c =? END then 0 else FNM_NOMATCH))) else
    ok ← tok_match flags c pat k;
    if negb (ok : bool) then Some (inr (inr FNM_NOMATCH)) else
    Some (inl ((pat + pinc)%nat, wrap64 (m - Z.of_nat pinc), (str + sinc)%nat, wrap64 (n - Z.of_nat sinc)))) st.

Definition strnlen (l : list Z) (p : nat) (m : Z) : option nat :=
  oloop (S (length l)) (fun k => if Z.of_nat k <? m then b ← l !! (p + k)%nat; Some (if truth b then inl (S k) else inr k) else Some (inr k)) 0%nat.

(** The last star and the characters after it; [None] inside for an
    unmatchable token. *)
Definition find_tail (fuel : nat) (flags : Z) (endpat : nat) (st : nat * nat * Z) : option (option (nat * Z)) :=
  oloop fuel (fun '(p, ptail, tailcnt) =>
    if (p <? endpat)%nat then
      '(c, pinc) ← pat_next p (Z.of_nat (endpat - p)) flags;
      if c =? UNMATCHABLE then Some (inr None) else
      if c =? STAR then Some (inl ((p + pinc)%nat, S p, 0)) else Some (inl ((p + pinc)%nat, ptail, tailcnt + 1))
    else Some (inr (Some (ptail, tailcnt)))) st.

(** Back over one character, [s>str]. *)
Definition back_char (fuel : nat) (str s : nat) : option nat :=
  b ← T !! (s - 1)%nat;
  if (b <? 128) || mb1 then Some (s - 1)%nat else
  oloop fuel (fun s => let s := (s - 1)%nat in b ← T !! s; if (wrap32 (b - 0x80) <? 0x40) && (str <? s)%nat then Some (inl s) else Some (inr s)) s.

Definition tail_start (fuel : nat) (str endstr : nat) (tailcnt : Z) : option (nat * Z) :=
  oloop fuel (fun '(s, tailcnt) =>
    if (str <? s)%nat && truth tailcnt then s ← back_char (length T) str s; Some (inl (s, tailcnt - 1)) else Some (inr (s, tailcnt))) (endstr, tailcnt).

Definition match_tail (fuel : nat) (flags : Z) (p endpat s endstr : nat) : option bool :=
  oloop fuel (fun '(p, s) =>
    '(c, pinc) ← pat_next p (Z.of_nat (endpat - p)) flags;
    '(k, sinc) ← str_next s (Z.of_nat (endstr - s));
    if k <=? 0 then Some (inr (c =? END)) else
    ok ← tok_match flags c p k;
    if negb (ok : bool) then Some (inr false) else Some (inl ((p + pinc)%nat, (s + sinc)%nat))) (p, s).

(** A component of the sea of stars against the string from [s]. *)
Inductive component := Committed (p s : nat) | Exhausted | Mismatch.

Definition match_component (fuel : nat) (flags : Z) (p endpat s endstr : nat) : option component :=
  oloop fuel (fun '(p, s) =>
    '(c, pinc) ← pat_next p (Z.of_nat (endpat - p)) flags;
    if c =? STAR then Some (inr (Committed (p + pinc) s)) else
    '(k, sinc) ← str_next s (Z.of_nat (endstr - s));
    if k =? 0 then Some (inr Exhausted) else
    ok ← tok_match flags c p k;
    if negb (ok : bool) then Some (inr Mismatch) else Some (inl ((p + pinc)%nat, (s + sinc)%nat))) (p, s).

(** The string advanced by a character, or past all invalid bytes. *)
Definition advance_str (fuel : nat) (str endstr : nat) : option nat :=
  '(k, sinc) ← str_next str (Z.of_nat (endstr - str));
  if 0 <? k then Some (str + sinc)%nat else
  oloop fuel (fun str => '(k, _) ← str_next str (Z.of_nat (endstr - str)); if k <? 0 then Some (inl (S str)) else Some (inr str)) (S str).

Definition sea_of_stars (fuel : nat) (flags : Z) (pat endpat str endstr : nat) : option Z :=
  oloop fuel (fun '(pat, str) =>
    if (pat <? endpat)%nat then
      r ← match_component (length P) flags pat endpat str endstr;
      match r with
      | Committed p s => Some (inl (p, s))
      | Exhausted => Some (inr FNM_NOMATCH)
      | Mismatch => str ← advance_str (length T) str endstr; Some (inl (pat, str))
      end
    else Some (inr 0)) (pat, str).

Definition fnmatch_internal (fuel : nat) (pat : nat) (m : Z) (str : nat) (n flags : Z) : option Z :=
  hidden ← (if flag flags FNM_PERIOD then a ← T !! str; b ← P !! pat; Some ((a =? 46) && negb (b =? 46)) else Some false);
  if (hidden : bool) then Some FNM_NOMATCH else
  r ← head_loop fuel flags (pat, m, str, n);
  match r with
  | inr r => Some r
  | inl (pat, m, str, n) =>
      m ← strnlen P pat m;
      let endpat := (pat + m)%nat in
      t ← find_tail fuel flags endpat (pat, pat, 0);
      match t with
      | None => Some FNM_NOMATCH
      | Some (ptail, tailcnt) =>
          n ← strnlen T str n;
          let endstr := (str + n)%nat in
          if Z.of_nat n <? tailcnt then Some FNM_NOMATCH else
          '(s, missing) ← tail_start fuel str endstr tailcnt;
          if truth missing then Some FNM_NOMATCH else
          ok ← match_tail fuel flags ptail endpat s endstr;
          if negb (ok : bool) then Some FNM_NOMATCH else
          sea_of_stars fuel flags pat ptail str s
      end
  end.

(** ** fnmatch *)

Definition slash_str (fuel : nat) (str : nat) : option nat :=
  oloop fuel (fun s => b ← T !! s; if truth b && negb (b =? 47) then Some (inl (S s)) else Some (inr s)) str.

Definition slash_pat (fuel : nat) (flags : Z) (pat : nat) : option (nat * Z * nat) :=
  oloop fuel (fun p => '(c, inc) ← pat_next p (wrap64 (-1)) flags; if negb (c =? END) && negb (c =? 47) then Some (inl (p + inc)%nat) else Some (inr (p, c, inc))) pat.

(** The loop over the components of a path. *)
Definition segments (rounds fuel : nat) (flags : Z) (st : nat * nat) : option Z :=
  oloop rounds (fun '(pat, str) =>
    s ← slash_str fuel str;
    '(p, c, inc) ← slash_pat fuel flags pat;
    a ← T !! s;
    if negb (c =? a) && (negb (truth a) || negb (flag flags FNM_LEADING_DIR)) then Some (inr FNM_NOMATCH) else
    r ← fnmatch_internal fuel pat (Z.of_nat (p - pat)) str (Z.of_nat (s - str)) flags;
    if truth r then Some (inr FNM_NOMATCH) else
    if negb (truth c) then Some (inr 0) else Some (inl ((p + inc)%nat, S s))) st.

(** The loop over the slashes of the string. *)
Definition leading_dirs (rounds fuel : nat) (flags : Z) (s : nat) : option (option Z) :=
  oloop rounds (fun s =>
    a ← T !! s;
    if negb (truth a) then Some (inr None) else
    if negb (a =? 47) then Some (inl (S s)) else
    r ← fnmatch_internal fuel 0 (wrap64 (-1)) 0 (Z.of_nat s) flags;
    if negb (truth r) then Some (inr (Some 0)) else Some (inl (S s))) s.

Definition fnmatch (fuel : nat) (flags : Z) : option Z :=
  if flag flags FNM_PATHNAME then segments fuel fuel flags (0%nat, 0%nat)
  else
    r ← (if flag flags FNM_LEADING_DIR then leading_dirs fuel fuel flags 0 else Some None);
    match r with Some r => Some r | None => fnmatch_internal fuel 0 (wrap64 (-1)) 0 (wrap64 (-1)) flags end.
End strings.
