(* ===== verification/FnSpec.v ===== *)
(** * FnSpec: what a pattern with stars matches

    A pattern is a list of tokens, each a star or a test of one character.
    [matches] is the reference; the lemmas justify matching the tail first and
    each component between stars at its first occurrence. *)

From Stdlib Require Import ZArith Lia Bool.
From stdpp Require Import base tactics numbers list.
From S2P Require Import Prelude MbStringProofs Fnmatch.
Local Close Scope Z_scope.

Section pattern.
Context {K : Type}.
Implicit Types (ks : list K) (f : K -> bool) (ts : list (option (K -> bool))).

(** [None] is a star. *)
Fixpoint matches ts : list K -> bool :=
  match ts with
  | [] => fun ks => match ks with [] => true | _ => false end
  | Some f :: ts => fun ks => match ks with k :: ks => f k && matches ts ks | [] => false end
  | None :: ts =>
      fix star ks := matches ts ks || match ks with _ :: ks => star ks | [] => false end
  end.

Lemma matches_star ts ks : matches (None :: ts) ks = matches ts ks || match ks with _ :: ks => matches (None :: ts) ks | [] => false end.
Proof. by destruct ks. Qed.

Lemma matches_star_true ts ks : matches (None :: ts) ks = true <-> exists i, i <= length ks /\ matches ts (drop i ks) = true.
Proof.
  induction ks as [|k ks IH]; rewrite matches_star, orb_true_iff.
  - split; [intros [H|H]; [by exists 0|done]|intros (i & _ & H); left; by destruct i].
  - rewrite IH. split.
    + intros [H|(i & Hi & H)]; [by exists 0; split; [lia|]|exists (S i); simpl; split; [lia|done]].
    + intros ([|i] & Hi & H); [by left|right; exists i; simpl in *; split; [lia|done]].
Qed.

(** A star absorbs what stands before. *)
Lemma matches_star_mono ts ks1 ks2 : matches (None :: ts) ks2 = true -> matches (None :: ts) (ks1 ++ ks2) = true.
Proof. induction ks1 as [|k ks1 IH]; [done|]. intros H. cbn [app]. rewrite matches_star, IH by done. apply orb_true_r. Qed.

Lemma matches_app xs ys ks : matches (xs ++ ys) ks = true <-> exists i, i <= length ks /\ matches xs (take i ks) = true /\ matches ys (drop i ks) = true.
Proof.
  revert ks. induction xs as [|[f|] xs IH]; intros ks; cbn [app].
  - split; [by exists 0; split; [lia|]|]. intros (i & Hi & H1 & H2). assert (i = 0) as ->; [|done].
    destruct i as [|i]; [done|]. destruct ks; [simpl in Hi; lia|done].
  - cbn [matches]. destruct ks as [|k ks].
    + split; [done|]. intros (i & _ & H & _). by destruct i.
    + rewrite andb_true_iff, IH. split.
      * intros (Hf & i & Hi & H1 & H2). exists (S i). simpl. rewrite Hf. split_and!; [lia|done|done].
      * intros ([|i] & Hi & H1 & H2); [done|]. simpl in *. apply andb_true_iff in H1 as [? ?]. split; [done|]. exists i. split_and!; [lia|done|done].
  - rewrite matches_star_true. setoid_rewrite IH. split.
    + intros (j & Hj & i & Hi & H1 & H2). rewrite length_drop in Hi. exists (j + i). split; [lia|]. rewrite drop_drop in H2. split; [|done].
      apply matches_star_true. exists j. rewrite length_take. split; [lia|]. rewrite skipn_firstn_comm. by replace (j + i - j) with i by lia.
    + intros (i & Hi & H1 & H2). apply matches_star_true in H1 as (j & Hj & H1). rewrite length_take in Hj. exists j. split; [lia|].
      exists (i - j). rewrite length_drop, drop_drop. rewrite skipn_firstn_comm in H1. split_and!; [lia|done|]. by replace (j + (i - j)) with i by lia.
Qed.

(** Tests only. *)
Definition ones (fs : list (K -> bool)) : list (option (K -> bool)) := Some <$> fs.

Lemma matches_ones_length fs ks : matches (ones fs) ks = true -> length ks = length fs.
Proof.
  revert ks. induction fs as [|f fs IH]; intros [|k ks] H; cbn in *; try done. apply andb_true_iff in H as [_ H]. by rewrite (IH ks).
Qed.

Lemma matches_tail xs fs ks : matches (xs ++ ones fs) ks =
  (length fs <=? length ks) && matches (ones fs) (drop (length ks - length fs) ks) && matches xs (take (length ks - length fs) ks).
Proof.
  apply eq_true_iff_eq. rewrite matches_app, !andb_true_iff, Nat.leb_le. split.
  - intros (i & Hi & H1 & H2). pose proof (matches_ones_length _ _ H2) as E. rewrite length_drop in E. assert (length ks - length fs = i) as -> by lia. split_and!; [lia|done|done].
  - intros ((Hl & H1) & H2). exists (length ks - length fs). split_and!; [lia|done|done].
Qed.

(** A component at the front of the string, as far as it goes. *)
Inductive attempt := Fits (rest : list K) | TooShort | Differs.
Fixpoint try (fs : list (K -> bool)) ks : attempt :=
  match fs, ks with
  | [], _ => Fits ks
  | _, [] => TooShort
  | f :: fs, k :: ks => if f k then try fs ks else Differs
  end.

Lemma try_matches fs ts ks : matches (ones fs ++ ts) ks = match try fs ks with Fits rest => matches ts rest | _ => false end.
Proof.
  revert ks. induction fs as [|f fs IH]; intros ks; [done|]. cbn [ones fmap list_fmap app matches try]. destruct ks as [|k ks]; [done|].
  destruct (f k); [apply IH|done].
Qed.
Lemma try_fits fs ks rest : try fs ks = Fits rest -> ks = take (length fs) ks ++ rest /\ length fs <= length ks.
Proof.
  revert ks. induction fs as [|f fs IH]; intros ks H; cbn [try] in *; [injection H as <-; simpl; split; [done|lia]|]. destruct ks as [|k ks]; [done|].
  destruct (f k); [|done]. apply IH in H as [E ?]. simpl. split; [by rewrite <- E|lia].
Qed.
Lemma try_short fs ks : try fs ks = TooShort -> length ks < length fs.
Proof.
  revert ks. induction fs as [|f fs IH]; intros ks H; cbn [try] in *; [done|]. destruct ks as [|k ks]; [simpl; lia|].
  destruct (f k); [|done]. apply IH in H. simpl. lia.
Qed.
Lemma try_differs fs ks : try fs ks = Differs -> ks <> [].
Proof. destruct fs, ks; done. Qed.

(** The first occurrence of a component is as good as any. *)
Lemma greedy fs ts ks : matches (None :: ones fs ++ None :: ts) ks =
  match try fs ks with
  | Fits rest => matches (None :: ts) rest
  | TooShort => false
  | Differs => match ks with _ :: ks => matches (None :: ones fs ++ None :: ts) ks | [] => false end
  end.
Proof.
  rewrite matches_star, try_matches. destruct (try fs ks) as [rest| |] eqn:E.
  - destruct (matches (None :: ts) rest) eqn:Hr; [done|]. cbn [orb]. destruct ks as [|k ks]; [done|].
    apply not_true_is_false. intros H. apply matches_star_true in H as (i & Hi & H). rewrite try_matches in H.
    destruct (try fs (drop i ks)) as [rest'| |] eqn:E'; try done. apply try_fits in E as [E Hl], E' as [E' Hl'].
    assert (exists ks1, rest = ks1 ++ rest') as [ks1 ->]; [|by rewrite matches_star_mono in Hr].
    assert (rest = drop (length fs) (k :: ks)) as -> by (rewrite E at 1; rewrite drop_app_length'; [done|rewrite length_take; lia]).
    assert (rest' = drop (length fs) (drop i ks)) as -> by (rewrite E' at 1; rewrite drop_app_length'; [done|rewrite length_take; lia]).
    exists (take (S i) (drop (length fs) (k :: ks))). rewrite drop_drop. replace (i + length fs) with (length fs + i) by lia.
    change (drop (length fs + i) ks) with (drop (S (length fs + i)) (k :: ks)). replace (S (length fs + i)) with (length fs + S i) by lia.
    rewrite <- (drop_drop (k :: ks)). by rewrite take_drop.
  - cbn [orb]. apply try_short in E. destruct ks as [|k ks]; [done|]. apply not_true_is_false. intros H.
    apply matches_star_true in H as (i & Hi & H). rewrite try_matches in H. destruct (try fs (drop i ks)) as [rest'| |] eqn:E'; try done.
    apply try_fits in E' as [_ E']. rewrite length_drop in E'. simpl in E. lia.
  - done.
Qed.
End pattern.

(** ** The patterns of the shell *)

Section syntax.
Open Scope Z_scope.
Variables (mb1 : bool).

(** The bytes of a string of characters. *)
Definition bytes_of (k : Z) : list Z := default [] (enc mb1 k).
Definition text (ks : list Z) : list Z := ks ≫= bytes_of.
Definition char_ok (k : Z) : bool := (0 <? k) && bool_decide (is_Some (enc mb1 k)).

(** What stands between brackets: a character, a range that ends in ASCII or
    a class. *)
Inductive item := IChar (k : Z) | IRange (lo hi : Z) | IClass (name : list Z).

(** [Set_] has a [!] or [^], and a [ ] ] or [-] in the first place. *)
Inductive token := Star | Any | Lit (escaped : bool) (k : Z) | Set_ (inv first : option Z) (items : list item).

#[export] Instance item_eq_dec : EqDecision item.
Proof. solve_decision. Defined.
#[export] Instance token_eq_dec : EqDecision token.
Proof. solve_decision. Defined.

Definition item_text (i : item) : list Z :=
  match i with
  | IChar k => bytes_of k
  | IRange lo hi => bytes_of lo ++ [45; hi]
  | IClass name => [91; 58] ++ name ++ [58; 93]
  end.
Definition items_text (its : list item) : list Z := its ≫= item_text.
Definition opt (o : option Z) : list Z := match o with Some b => [b] | None => [] end.
Definition token_text (t : token) : list Z :=
  match t with
  | Star => [42]
  | Any => [63]
  | Lit escaped k => (if escaped then [92] else []) ++ bytes_of k
  | Set_ inv first items => [91] ++ opt inv ++ opt first ++ items_text items ++ [93]
  end.
Definition pattern_text (ts : list token) : list Z := ts ≫= token_text.

(** Which of them are read as they are meant: special characters stand where
    they are ordinary, or after a backslash. *)
Definition is_in (b : Z) (l : list Z) : bool := existsb (Z.eqb b) l.
Definition plain (k next : Z) : bool :=
  negb (k =? 93) && (negb (k =? 45) || (next =? 93)) && (negb (k =? 91) || negb (is_in next [58; 46; 61])).
Definition item_ok (next : Z) (i : item) : bool :=
  match i with
  | IChar k => char_ok k && plain k next
  | IRange lo hi => char_ok lo && plain lo 45 && (0 <? hi) && (hi <? 128) && plain hi next && negb (hi =? 45) && (lo <=? hi)
  | IClass name => forallb (fun b => (0 <? b) && negb (b =? 58)) name
  end.
Definition next_byte (its : list item) : Z := default 0 ((items_text its ++ [93]) !! 0%nat).
Fixpoint items_ok (its : list item) : bool := match its with [] => true | i :: its => item_ok (next_byte its) i && items_ok its end.
Definition token_ok (noescape : bool) (t : token) : bool :=
  match t with
  | Star | Any => true
  | Lit escaped k => char_ok k && (if escaped then negb noescape else negb (is_in k [92; 91; 42; 63]))
  | Set_ inv first items =>
      items_ok items && match inv with Some b => is_in b [33; 94] | None => true end &&
      match first with Some b => is_in b [93; 45] | None => negb (is_in (next_byte items) [93; 45]) && (bool_decide (is_Some inv) || negb (is_in (next_byte items) [33; 94])) end
  end.

(** ** What they match *)

Variables (towupper towlower : Z -> Z) (wctype : list Z -> Z) (iswctype : Z -> Z -> bool) (foldcase : bool).

(** The upper case of a character that has one, else the lower case. *)
Definition other_case (k : Z) : Z := if towupper k =? k then towlower k else towupper k.
Definition fold_of (k : Z) : Z := if foldcase then other_case k else k.
(** As it is, or in the other case. *)
Definition either (f : Z -> bool) (k : Z) : bool := f k || f (fold_of k).
Definition item_test (k : Z) (i : item) : bool :=
  match i with
  | IChar c => either (Z.eqb c) k
  | IRange lo hi => either (fun k => (lo <=? k) && (k <=? hi)) k
  | IClass name => (length name <? 16)%nat && either (fun k => iswctype k (wctype name)) k
  end.
Definition token_test (t : token) : option (Z -> bool) :=
  match t with
  | Star => None
  | Any => Some (fun _ => true)
  | Lit _ c => Some (either (Z.eqb c))
  | Set_ inv first items => Some (fun k =>
      xorb (bool_decide (is_Some inv)) (bool_decide (first = Some k) || existsb (item_test k) items))
  end.
Definition pattern_matches (ts : list token) (ks : list Z) : bool := matches (token_test <$> ts) ks.
End syntax.
