(* ===== verification/FnProofs.v ===== *)
(** * FnProofs: characters, bracket expressions and tokens

    What [str_next], [pat_next] and [match_bracket] do on the text of a
    character and of a token, wherever it stands and whatever follows. *)

From Stdlib Require Import ZArith Lia Bool.
From stdpp Require Import base tactics numbers list sets.
From S2P Require Import Prelude Utf8 Utf8Proofs MbStringProofs Fnmatch FnSpec.
Open Scope Z_scope.

(** ** Loops and positions *)

Lemma oloop_go {S R} (body : S -> option (S + R)) fuel s s' v : (0 < fuel)%nat -> body s = Some (inl s') -> oloop (fuel - 1) body s' = Some v -> oloop fuel body s = Some v.
Proof. destruct fuel as [|fuel]; [lia|]. intros _ E H. cbn [oloop]. rewrite E. cbn [mbind option_bind]. replace (Datatypes.S fuel - 1)%nat with fuel in H by lia. done. Qed.
Lemma oloop_stop {S R} (body : S -> option (S + R)) fuel s v : (0 < fuel)%nat -> body s = Some (inr v) -> oloop fuel body s = Some v.
Proof. destruct fuel as [|fuel]; [lia|]. intros _ E. cbn [oloop]. by rewrite E. Qed.

Lemma drop_head {A} (l : list A) p b r : drop p l = b :: r -> l !! p = Some b.
Proof. intros E. rewrite <- (Nat.add_0_r p), <- lookup_drop, E. done. Qed.
Lemma drop_app_more {A} (l : list A) p a r : drop p l = a ++ r -> drop (p + length a) l = r.
Proof. intros E. rewrite <- drop_drop, E. by rewrite drop_app_length. Qed.
Lemma drop_tail {A} (l : list A) p b r : drop p l = b :: r -> drop (S p) l = r.
Proof. intros E. replace (S p) with (p + length [b])%nat by (simpl; lia). by apply drop_app_more. Qed.
Lemma drop_short {A} (l : list A) p a r : drop p l = a ++ r -> (length a <= length l - p)%nat.
Proof. intros E. rewrite <- length_drop, E, length_app. lia. Qed.

Lemma truth_nz z : z <> 0 -> truth z = true.
Proof. intros. unfold truth. by destruct (Z.eqb_spec z 0). Qed.

(** ** Characters *)

(** An encoding is an ASCII character, or has no ASCII byte in it. *)
Lemma enc_shape mb1 k l : enc mb1 k = Some l -> 0 < k ->
  k < 0x110000 /\ (k < 128 /\ l = [k] \/ 128 <= k /\ exists b c, l = b :: c /\ Forall (fun b => 128 <= b < 256) l /\
    if mb1 then c = [] else c <> [] /\ 0xc0 <= b /\ Forall (fun b => tail b = true) c).
Proof.
  intros E Hk. unfold enc in E. destruct mb1.
  - destruct (Z.leb_spec 0 k), (Z.ltb_spec k 0x80); cbn [andb] in E; try lia.
    + injection E as <-. split; [lia|by left].
    + destruct (Z.leb_spec 0xdf80 k), (Z.ltb_spec k 0xe000); cbn [andb] in E; try done. injection E as <-. split; [lia|right].
      split; [lia|]. exists (k - 0xdf00), []. split_and!; [done| |done]. repeat constructor; lia.
  - destruct (scalarb k) eqn:Hs; [|done]. apply scalarb_spec in Hs. injection E as <-. unfold scalar in Hs. split; [lia|]. unfold encode.
    replace (k / 4096) with (k / 64 / 64) by (rewrite Z.div_div by lia; done). replace (k / 262144) with (k / 64 / 64 / 64) by (rewrite !Z.div_div by lia; done).
    destruct (base64 k) as (q & r & -> & -> & Hq & Hr). destruct (base64 q) as (q1 & r1 & -> & -> & Hq1 & Hr1). destruct (base64 q1) as (q2 & r2 & -> & -> & Hq2 & Hr2).
    destruct (Z.ltb_spec k 0x80); [by left|right; split; [lia|]].
    destruct (Z.ltb_spec k 0x800); [|destruct (Z.ltb_spec k 0x10000)]; (do 2 eexists; split; [reflexivity|split; [repeat (apply List.Forall_cons; [lia|]); apply List.Forall_nil|split; [done|split; [lia|]]]]);
      repeat (apply List.Forall_cons; [apply tail_range; lia|]); apply List.Forall_nil.
Qed.

Section chars.
Context (mb1 : bool).

Lemma char_ok_enc k : char_ok mb1 k = true -> 0 < k /\ enc mb1 k = Some (bytes_of mb1 k).
Proof. unfold char_ok, bytes_of. intros H. apply andb_true_iff in H as [H1 H2]. apply bool_decide_eq_true in H2 as [l E]. rewrite E. split; [lia|done]. Qed.
Lemma bytes_length k : char_ok mb1 k = true -> (1 <= length (bytes_of mb1 k) <= 4)%nat.
Proof. intros H. apply char_ok_enc in H as [_ H]. apply (enc_bytes _ _ _ H). Qed.
Lemma bytes_ascii k : char_ok mb1 k = true -> k < 128 -> bytes_of mb1 k = [k].
Proof. intros H Hk. apply char_ok_enc in H as [H0 H]. destruct (enc_shape _ _ _ H H0) as (_ & [[_ E]|[? _]]); [done|lia]. Qed.
Lemma bytes_high k : char_ok mb1 k = true -> 128 <= k -> exists b c, bytes_of mb1 k = b :: c /\ Forall (fun b => 128 <= b < 256) (b :: c) /\
  if mb1 then c = [] else c <> [] /\ 0xc0 <= b /\ Forall (fun b => tail b = true) c.
Proof. intros H Hk. apply char_ok_enc in H as [H0 H]. destruct (enc_shape _ _ _ H H0) as (_ & [[? _]|(_ & b & c & E & Hc)]); [lia|]. exists b, c. rewrite E in *. done. Qed.
Lemma char_range k : char_ok mb1 k = true -> 0 < k < 0x110000.
Proof. intros H. apply char_ok_enc in H as [H0 H]. destruct (enc_shape _ _ _ H H0). lia. Qed.
Lemma bytes_nonzero k : char_ok mb1 k = true -> Forall (fun b => 0 < b < 256) (bytes_of mb1 k).
Proof.
  intros H. pose proof (char_range k H). destruct (Z_lt_le_dec k 128).
  - rewrite bytes_ascii by done. repeat constructor; lia.
  - destruct (bytes_high k H ltac:(done)) as (b & c & -> & Hb & _). eapply Forall_impl; [exact Hb|]. cbv beta. lia.
Qed.

(** More room makes no difference where a character has been read. *)
Lemma mbtowc_more l r n0 n k w : Forall is_byte l -> (1 <= n0 <= n)%nat -> mbtowc mb1 (Some l) n0 = Some (k, w) -> 0 <= k -> mbtowc mb1 (Some (l ++ r)) n = Some (k, w).
Proof.
  intros Hb Hn. unfold mbtowc. destruct (Nat.eqb_spec n0 0); [lia|]. destruct (Nat.eqb_spec n 0); [lia|].
  destruct l as [|b0 l]; [done|]. cbn [app lookup list_lookup mbind option_bind].
  destruct (b0 <? 128); [done|]. destruct mb1; [done|]. pose proof (Forall_inv Hb) as Hb0. cbv beta in Hb0.
  rewrite lead_range by done. destruct (Z.ltb_spec b0 0xc2), (Z.ltb_spec 0xf4 b0); cbn [orb]; try done.
  rewrite bittab_lookup by lia. cbn [mbind option_bind]. rewrite !early_exit by lia.
  set (E0 := if (n0 =? 1)%nat then true else _). set (E1 := if (n =? 1)%nat then true else _).
  assert (E0 = false -> E1 = false) as HE.
  { unfold E0, E1. destruct n0 as [|[|[|[|]]]], n as [|[|[|[|]]]]; cbn [Nat.eqb]; intros; try lia; try done. }
  destruct E0; [intros [= <- _]; lia|]. rewrite HE by done.
  destruct l as [|b1 l]; [done|]. cbn [app lookup list_lookup mbind option_bind]. destruct (truth (OOB (pack [b0]) b1)); [done|].
  destruct (negb (more _)); [done|]. destruct l as [|b2 l]; [done|]. cbn [app lookup list_lookup mbind option_bind]. destruct (64 <=? wrap32 (b2 - 128)); [done|].
  destruct (negb (more _)); [done|]. destruct l as [|b3 l]; [done|]. done.
Qed.

Lemma mbtowc_char k r n : char_ok mb1 k = true -> (length (bytes_of mb1 k) <= n)%nat -> mbtowc mb1 (Some (bytes_of mb1 k ++ r)) n = Some (Z.of_nat (length (bytes_of mb1 k)), Some k).
Proof.
  intros H Hn. pose proof (bytes_length k H) as Hl. pose proof (bytes_nonzero k H) as Hb. pose proof (char_range k H) as Hk.
  assert (Forall is_byte (bytes_of mb1 k)) by (eapply Forall_impl; [exact Hb|unfold in_range; cbv beta; lia]).
  apply (mbtowc_more _ _ (length (bytes_of mb1 k))); [done|lia| |lia]. pose proof (char_ok_enc k H) as [_ E]. destruct mb1.
  - unfold bytes_of, enc in *. unfold mbtowc. destruct (Z.leb_spec 0 k); [|lia]. cbn [andb] in *.
    destruct (Z.ltb_spec k 0x80) as [Hlt|Hge]; cbn [default id length Nat.eqb lookup list_lookup mbind option_bind].
    + destruct (Z.ltb_spec k 0x80); [|lia]. destruct (Z.ltb_spec k 128); [|lia]. by rewrite truth_nz by lia.
    + destruct (Z.leb_spec 0xdf80 k), (Z.ltb_spec k 0xe000); cbn [andb] in *; try done. cbn [default id length Nat.eqb lookup list_lookup mbind option_bind].
      destruct (Z.ltb_spec (k - 0xdf00) 0x80); [lia|]. do 3 f_equal.
      assert (forallb (fun b => CODEUNIT b =? b + 0xdf00) (seqZ 0x80 0x80) = true) as Hc by (vm_compute; reflexivity).
      pose proof (bytes_all _ _ _ Hc (k - 0xdf00) ltac:(lia)) as Hc'. cbv beta in Hc'. apply Z.eqb_eq in Hc'. rewrite Hc'. f_equal. lia.
  - rewrite mbtowc_correct by (done || lia). rewrite take_ge by lia.
    unfold enc in E. destruct (scalarb k) eqn:Hs; [|done]. apply scalarb_spec in Hs. injection E as E. rewrite <- E.
    pose proof (classify_encode k [] Hs) as Hc. rewrite app_nil_r in Hc. rewrite Hc. by destruct (Z.eqb_spec k 0); [lia|].
Qed.

Lemma avail_ge n k : char_ok mb1 k = true -> Z.of_nat (length (bytes_of mb1 k)) <= n -> (length (bytes_of mb1 k) <= avail n)%nat.
Proof. intros H Hn. apply bytes_length in H. unfold avail. lia. Qed.

Lemma str_next_char T s n k r : char_ok mb1 k = true -> drop s T = bytes_of mb1 k ++ r -> Z.of_nat (length (bytes_of mb1 k)) <= n ->
  str_next mb1 T s n = Some (k, length (bytes_of mb1 k)).
Proof.
  intros H Es Hn. pose proof (bytes_length k H) as Hl. pose proof (avail_ge n k H Hn) as Ha. unfold str_next. destruct (Z.eqb_spec n 0); [lia|].
  destruct (Z_lt_le_dec k 128) as [Hk|Hk].
  - rewrite (bytes_ascii k H Hk) in Es |- *. rewrite (drop_head _ _ _ _ Es). cbn [mbind option_bind]. destruct (Z.leb_spec 128 k); [lia|done].
  - rewrite Es, mbtowc_char by done. destruct (bytes_high k H Hk) as (b & c & E & Hb & _). rewrite E in Es. rewrite (drop_head _ _ _ _ Es).
    apply Forall_inv in Hb. cbv beta in Hb. cbn [mbind option_bind]. destruct (Z.leb_spec 128 b); [|lia]. destruct (Z.ltb_spec (Z.of_nat (length (bytes_of mb1 k))) 0); [lia|].
    by rewrite Nat2Z.id.
Qed.
End chars.

(** ** Bracket expressions: where they end *)

Lemma inside_true P pat m k b r : drop (pat + k) P = b :: r -> Z.of_nat k < m -> b <> 0 -> inside P pat m k = Some true.
Proof. intros E Hk Hb. unfold inside. destruct (Z.ltb_spec (Z.of_nat k) m); [|lia]. rewrite (drop_head _ _ _ _ E). cbn [mbind option_bind]. by rewrite truth_nz. Qed.

Lemma plain_spec k next : plain k next = true ->
  k <> 93 /\ (k = 45 -> next = 93) /\ (k = 91 -> ((next =? 58) || (next =? 46) || (next =? 61)) = false).
Proof.
  unfold plain, is_in. cbn [existsb]. intros H. apply andb_true_iff in H as [H H3]. apply andb_true_iff in H as [H1 H2]. apply negb_true_iff, Z.eqb_neq in H1.
  split_and!; [done|intros ->|intros ->]; cbn in H2, H3; [by apply Z.eqb_eq in H2|]. apply negb_true_iff in H3. by rewrite orb_false_r, orb_assoc in H3.
Qed.

Section brackets.
Context (mb1 : bool) (P : list Z) (pat : nat) (m : Z).

(** A byte that is neither the end nor the beginning of a class. *)
Lemma end_plain fuel k b n r e : drop (pat + k) P = b :: n :: r -> Z.of_nat k < m -> 0 < b -> plain b n = true \/ (b = 45) -> (0 < fuel)%nat ->
  bracket_end P (fuel - 1) pat m (S k) = Some e -> bracket_end P fuel pat m k = Some e.
Proof.
  intros E Hk Hb Hp Hf He. apply (oloop_go _ fuel k (S k) e); [done| |done].
  rewrite (inside_true _ _ _ _ _ _ E) by lia. cbn [mbind option_bind negb]. rewrite (drop_head _ _ _ _ E). cbn [mbind option_bind].
  destruct (Z.eqb_spec b 93) as [->|H93]; [destruct Hp as [Hp|?]; [by apply plain_spec in Hp as [? _]|done]|].
  assert (exists i, inside P pat m (S k) = Some i) as [i ->].
  { unfold inside. destruct (Z.of_nat (S k) <? m); [|by eexists]. replace (pat + S k)%nat with (S (pat + k)) by lia. apply drop_tail in E. rewrite (drop_head _ _ _ _ E). by eexists. }
  cbn [mbind option_bind]. destruct i; [|done]. cbn [andb]. destruct (Z.eqb_spec b 91) as [->|]; [|done]. destruct Hp as [Hp|?]; [|lia]. apply plain_spec in Hp as (_ & _ & Hp).
  replace (pat + k + 1)%nat with (S (pat + k)) by lia. apply drop_tail in E. rewrite (drop_head _ _ _ _ E). cbn [mbind option_bind]. by rewrite Hp.
Qed.

Lemma end_high c : forall fuel k n r e, Forall (fun b => 128 <= b < 256) c -> drop (pat + k) P = c ++ n :: r -> Z.of_nat (k + length c) < m -> (length c < fuel)%nat ->
  bracket_end P (fuel - length c) pat m (k + length c) = Some e -> bracket_end P fuel pat m k = Some e.
Proof.
  induction c as [|b c IH]; intros fuel k n r e Hc E Hk Hf He; cbn [length app] in *.
  { replace (fuel - 0)%nat with fuel in He by lia. by replace (k + 0)%nat with k in He by lia. }
  pose proof (Forall_inv Hc) as Hb. apply Forall_inv_tail in Hc. cbv beta in Hb.
  assert (exists n' r', c ++ n :: r = n' :: r') as (n' & r' & E') by (destruct c; by do 2 eexists).
  eapply (end_plain fuel k b n' r'); [by rewrite E, E'|lia|lia| |lia|].
  { left. unfold plain, is_in. destruct (Z.eqb_spec b 93), (Z.eqb_spec b 45), (Z.eqb_spec b 91); lia. }
  apply (IH (fuel - 1)%nat (S k) n r e); [done| |lia|lia|].
  - replace (pat + S k)%nat with (S (pat + k)) by lia. by apply drop_tail in E.
  - replace (fuel - 1 - length c)%nat with (fuel - S (length c))%nat by lia. by replace (S k + length c)%nat with (k + S (length c))%nat by lia.
Qed.

Lemma end_char fuel k c n r e : char_ok mb1 c = true -> plain c n = true -> drop (pat + k) P = bytes_of mb1 c ++ n :: r -> Z.of_nat (k + length (bytes_of mb1 c)) < m ->
  (length (bytes_of mb1 c) < fuel)%nat -> bracket_end P (fuel - length (bytes_of mb1 c)) pat m (k + length (bytes_of mb1 c)) = Some e -> bracket_end P fuel pat m k = Some e.
Proof.
  intros Hc Hp E Hk Hf He. pose proof (char_range mb1 c Hc). destruct (Z_lt_le_dec c 128).
  - rewrite bytes_ascii in * by done. cbn [length app] in *. apply (end_plain fuel k c n r e); [done|lia|lia|by left|lia|]. by replace (S k) with (k + 1)%nat by lia.
  - destruct (bytes_high mb1 c Hc ltac:(done)) as (b & d & Eb & Hb & _). rewrite Eb in *. apply (end_high (b :: d) fuel k n r e); try done; lia.
Qed.

(** The end of the name of a class. *)
Lemma class_end_name w : forall fuel j r, Forall (fun b => 0 < b /\ b <> 58) w -> drop (pat + j) P = w ++ 58 :: 93 :: r -> Z.of_nat (S j + length w) < m -> (length w < fuel)%nat ->
  class_end P fuel pat m 58 (S j) = Some (S j + length w)%nat.
Proof.
  induction w as [|b w IH]; intros fuel j r Hw E Hk Hf; cbn [length app] in *; pose proof (drop_tail _ _ _ _ E) as E1.
  - apply oloop_stop; [lia|]. replace (S (pat + j)) with (pat + S j)%nat in E1 by lia. rewrite (inside_true _ _ _ _ _ _ E1) by lia. cbn [mbind option_bind].
    replace (pat + S j - 1)%nat with (pat + j)%nat by lia. rewrite (drop_head _ _ _ _ E), (drop_head _ _ _ _ E1). cbn [mbind option_bind]. do 2 f_equal. lia.
  - pose proof (Forall_inv Hw) as [Hb Hb']. apply Forall_inv_tail in Hw. replace (S (pat + j)) with (pat + S j)%nat in E1 by lia.
    apply (oloop_go _ fuel (S j) (S (S j)) _); [lia| |].
    + assert (exists n r', w ++ 58 :: 93 :: r = n :: r' /\ n <> 0) as (n & r' & En & Hn).
      { destruct w as [|n w]; [by exists 58, (93 :: r)|]. apply Forall_inv in Hw. exists n, (w ++ 58 :: 93 :: r). split; [done|lia]. }
      rewrite En in E1. rewrite (inside_true _ _ _ _ _ _ E1) by lia. cbn [mbind option_bind].
      replace (pat + S j - 1)%nat with (pat + j)%nat by lia. rewrite (drop_head _ _ _ _ E), (drop_head _ _ _ _ E1). cbn [mbind option_bind].
      by destruct (Z.eqb_spec b 58).
    + replace (S j + S (length w))%nat with (S (S j) + length w)%nat by lia. by apply (IH (fuel - 1)%nat (S j) r); [|..|lia|lia].
Qed.
Lemma skip_class_name w : forall fuel p r, Forall (fun b => 0 < b /\ b <> 58) w -> drop p P = w ++ 58 :: 93 :: r -> (length w < fuel)%nat ->
  skip_class P fuel 58 (S p) = Some (S p + length w)%nat.
Proof.
  induction w as [|b w IH]; intros fuel p r Hw E Hf; cbn [length app] in *; pose proof (drop_tail _ _ _ _ E) as E1.
  - apply oloop_stop; [lia|]. replace (S p - 1)%nat with p by lia. rewrite (drop_head _ _ _ _ E), (drop_head _ _ _ _ E1). cbn [mbind option_bind]. do 2 f_equal. lia.
  - pose proof (Forall_inv Hw) as [Hb Hb']. apply Forall_inv_tail in Hw. apply (oloop_go _ fuel (S p) (S (S p)) _); [lia| |].
    + assert (exists n r', w ++ 58 :: 93 :: r = n :: r') as (n & r' & En) by (destruct w; by do 2 eexists). rewrite En in E1.
      replace (S p - 1)%nat with p by lia. rewrite (drop_head _ _ _ _ E), (drop_head _ _ _ _ E1). cbn [mbind option_bind]. by destruct (Z.eqb_spec b 58).
    + replace (S p + S (length w))%nat with (S (S p) + length w)%nat by lia. by apply (IH (fuel - 1)%nat (S p) r); [|..|lia].
Qed.

Lemma class_ok_spec name : forallb (fun b => (0 <? b) && negb (b =? 58)) name = true -> Forall (fun b => 0 < b /\ b <> 58) name.
Proof.
  intros H. apply Forall_forall. intros b Hb. rewrite forallb_forall in H. apply list_elem_of_In, H in Hb. apply andb_true_iff in Hb as [? Hb]. apply negb_true_iff, Z.eqb_neq in Hb. lia.
Qed.

Lemma items_next its rest : exists r, items_text mb1 its ++ 93 :: rest = next_byte mb1 its :: r.
Proof.
  unfold next_byte. destruct (items_text mb1 its) as [|b l]; [by exists rest|]. by exists (l ++ 93 :: rest).
Qed.

(** An item is passed over. *)
Lemma end_item i its fuel k rest e : item_ok mb1 (next_byte mb1 its) i = true -> drop (pat + k) P = item_text mb1 i ++ items_text mb1 its ++ 93 :: rest ->
  Z.of_nat (k + length (item_text mb1 i)) < m -> (length (item_text mb1 i) < fuel)%nat ->
  (forall fuel', (fuel - length (item_text mb1 i) <= fuel')%nat -> bracket_end P fuel' pat m (k + length (item_text mb1 i)) = Some e) -> bracket_end P fuel pat m k = Some e.
Proof.
  intros Hi E Hk Hf He. destruct (items_next its rest) as [r En]. rewrite En in E. destruct i as [c|lo hi|name]; cbn [item_text item_ok] in *.
  - apply andb_true_iff in Hi as [Hc Hp]. apply (end_char fuel k c (next_byte mb1 its) r); try done. by apply He.
  - rewrite !andb_true_iff in Hi. destruct Hi as ((((((Hlo & Hplo) & Hhi) & Hhi') & Hphi) & Hm) & Hle). rewrite length_app in *. cbn [length] in *. rewrite <- app_assoc in E. cbn [app] in E.
    apply (end_char fuel k lo 45 (hi :: next_byte mb1 its :: r)); try done; [lia|lia|]. set (fuel1 := (fuel - _)%nat). set (k1 := (k + _)%nat).
    assert (drop (pat + k1) P = 45 :: hi :: next_byte mb1 its :: r) as E1 by (unfold k1; rewrite Nat.add_assoc; by apply drop_app_more).
    apply (end_plain fuel1 k1 45 hi (next_byte mb1 its :: r)); [done|lia|lia|by right|lia|]. apply drop_tail in E1. replace (S (pat + k1)) with (pat + S k1)%nat in E1 by lia.
    apply (end_plain (fuel1 - 1) (S k1) hi (next_byte mb1 its) r); [done|lia|lia|by left|lia|]. replace (S (S k1)) with (k + (length (bytes_of mb1 lo) + 2))%nat by lia. apply He. lia.
  - apply class_ok_spec in Hi. cbn [app length] in *. rewrite <- app_assoc in E. cbn [app] in E. rewrite length_app in *. cbn [length] in *.
    apply (oloop_go _ fuel k (k + S (S (length name + 2)))%nat); [lia| |apply He; lia].
    rewrite (inside_true _ _ _ _ _ _ E) by lia. cbn [mbind option_bind negb]. rewrite (drop_head _ _ _ _ E). cbn [mbind option_bind]. change (91 =? 93) with false. cbv iota.
    pose proof (drop_tail _ _ _ _ E) as E1. replace (S (pat + k)) with (pat + S k)%nat in E1 by lia. rewrite (inside_true _ _ _ _ _ _ E1) by lia. cbn [mbind option_bind andb].
    change (91 =? 91) with true. cbv iota. replace (pat + k + 1)%nat with (pat + S k)%nat by lia. rewrite (drop_head _ _ _ _ E1). cbn [mbind option_bind]. change (58 =? 58) with true. cbn [orb]. cbv zeta.
    pose proof (drop_tail _ _ _ _ E1) as E2. replace (S (pat + S k)) with (pat + (k + 2))%nat in E2 by lia.
    assert (inside P pat m (k + 2) = Some true) as ->.
    { destruct name as [|b name]; cbn [app] in E2; [by rewrite (inside_true _ _ _ _ _ _ E2) by (simpl length in *; lia)|]. apply Forall_inv in Hi. rewrite (inside_true _ _ _ _ _ _ E2) by (simpl length in *; lia). done. }
    cbn [mbind option_bind]. pose proof (drop_short _ _ _ _ E2) as Hs. rewrite (class_end_name name _ (k + 2) (next_byte mb1 its :: r)) by (done || (assert (drop (pat + (k + 2)) P <> []) as Hne by (rewrite E2; by destruct name); apply (f_equal length) in E2; rewrite length_drop, length_app in E2; simpl length in E2; lia)). cbn [mbind option_bind].
    apply drop_app_more in E2. apply drop_tail in E2. replace (S (pat + (k + 2) + length name)) with (pat + (S (k + 2) + length name))%nat in E2 by lia.
    rewrite (inside_true _ _ _ _ _ _ E2) by lia. cbn [mbind option_bind negb]. do 3 f_equal. lia.
Qed.

Lemma items_text_cons i its : items_text mb1 (i :: its) = item_text mb1 i ++ items_text mb1 its.
Proof. done. Qed.

Lemma end_items its : forall fuel k rest, items_ok mb1 its = true -> drop (pat + k) P = items_text mb1 its ++ 93 :: rest -> Z.of_nat (k + length (items_text mb1 its)) < m ->
  (length (items_text mb1 its) < fuel)%nat -> bracket_end P fuel pat m k = Some (k + length (items_text mb1 its))%nat.
Proof.
  induction its as [|i its IH]; intros fuel k rest Hi E Hk Hf.
  - cbn [items_text mbind list_bind app length] in *. apply oloop_stop; [lia|]. rewrite (inside_true _ _ _ _ _ _ E) by lia. cbn [mbind option_bind negb].
    rewrite (drop_head _ _ _ _ E). cbn [mbind option_bind]. change (93 =? 93) with true. cbv iota. do 2 f_equal. lia.
  - cbn [items_ok] in Hi. apply andb_true_iff in Hi as [Hi1 Hi]. rewrite items_text_cons, length_app in *. rewrite <- app_assoc in E.
    apply (end_item i its fuel k rest); [done|done|lia|lia|]. intros fuel' Hf'. rewrite Nat.add_assoc. apply (IH fuel' _ rest); [done| |lia|lia]. rewrite Nat.add_assoc. by apply drop_app_more.
Qed.
End brackets.

(** ** Bracket expressions: what they match *)

Lemma range_test lo hi k : 0 < lo -> lo <= hi < 128 -> 0 < k < 2 ^ 31 -> (wrap32 (wrap32 k - wrap32 lo) <=? wrap32 (hi - lo)) = (lo <=? k) && (k <=? hi).
Proof.
  intros Hlo Hhi Hk. rewrite wrap_sub_l, wrap_sub_r, (wrap_small 32 (hi - lo)) by (unfold in_range; lia). destruct (Z_lt_le_dec k lo).
  - assert (wrap32 (k - lo) = k - lo + 2 ^ 32) as -> by (unfold wrap; symmetry; apply (Z.mod_unique_pos _ _ (-1)); lia). lia.
  - rewrite wrap_small by (unfold in_range; lia). lia.
Qed.

Section scan.
Context (mb1 : bool) (P : list Z) (towupper towlower : Z -> Z) (wctype : list Z -> Z) (iswctype : Z -> Z -> bool) (foldcase : bool) (k : Z).
Local Abbreviation kf := (fold_of towupper towlower foldcase k).
Local Abbreviation items := (match_items mb1 P wctype iswctype).
Local Abbreviation test := (item_test towupper towlower wctype iswctype foldcase k).
Context (Hk : 0 < k < 2 ^ 31) (Hkf : 0 < kf < 2 ^ 31).

Lemma scan_char c n r fuel p wc inv v : char_ok mb1 c = true -> plain c n = true -> drop p P = bytes_of mb1 c ++ n :: r -> (0 < fuel)%nat ->
  (if (c =? k) || (c =? kf) then v = negb inv else items (fuel - 1)%nat (p + length (bytes_of mb1 c))%nat c k kf inv = Some v) ->
  items fuel p wc k kf inv = Some v.
Proof.
  intros Hc Hp E Hf Hv. pose proof (plain_spec _ _ Hp) as (H93 & H45 & H91). pose proof (bytes_length mb1 c Hc) as Hl. pose proof (char_range mb1 c Hc) as Hr.
  set (hit := (c =? k) || (c =? kf)) in *.
  assert (forall body : nat * Z -> option (nat * Z + bool), body (p, wc) = Some (if hit then inr (negb inv) else inl (p + length (bytes_of mb1 c), c)%nat) ->
    (hit = false -> oloop (fuel - 1) body (p + length (bytes_of mb1 c), c)%nat = Some v) -> oloop fuel body (p, wc) = Some v) as Hstep.
  { intros body Hb Hn. destruct hit; [rewrite Hv; by apply oloop_stop|]. by eapply oloop_go; [done|exact Hb|apply Hn]. }
  apply Hstep; [clear Hstep Hv|intros Hh; by rewrite Hh in Hv]. cbv beta zeta. destruct (Z_lt_le_dec c 128) as [Hlt|Hge].
  - rewrite bytes_ascii in E |- * by done. cbn [app length] in *. pose proof (drop_tail _ _ _ _ E) as E1. rewrite (drop_head _ _ _ _ E), (drop_head _ _ _ _ E1). cbn [mbind option_bind].
    destruct (Z.eqb_spec c 93); [done|]. assert ((c =? 45) && negb (n =? 93) = false) as ->.
    { destruct (Z.eqb_spec c 45) as [->|]; [|done]. by rewrite H45. }
    assert ((c =? 91) && ((n =? 58) || (n =? 46) || (n =? 61)) = false) as ->.
    { destruct (Z.eqb_spec c 91) as [->|]; [|done]. by rewrite H91. }
    destruct (Z.ltb_spec c 128); [|lia]. fold hit. destruct hit; [done|]. by replace (S p) with (p + 1)%nat by lia.
  - pose proof E as E0. destruct (bytes_high mb1 c Hc Hge) as (b & d & Eb & Hb & _). rewrite Eb in E at 1. cbn [app] in E.
    assert (exists n' r', d ++ n :: r = n' :: r') as (n' & r' & Ed) by (destruct d; by do 2 eexists). rewrite Ed in E. pose proof (drop_tail _ _ _ _ E) as E1.
    apply Forall_inv in Hb. cbv beta in Hb. rewrite (drop_head _ _ _ _ E), (drop_head _ _ _ _ E1). cbn [mbind option_bind].
    destruct (Z.eqb_spec b 93); [lia|]. destruct (Z.eqb_spec b 45); [lia|]. destruct (Z.eqb_spec b 91); [lia|]. cbn [andb]. destruct (Z.ltb_spec b 128); [lia|].
    rewrite E0, mbtowc_char by (done || lia). cbn [mbind option_bind]. destruct (Z.ltb_spec (Z.of_nat (length (bytes_of mb1 c))) 0); [lia|]. cbn [mbind option_bind].
    fold hit. destruct hit; [done|]. do 3 f_equal. lia.
Qed.

Lemma scan_range lo hi n r fuel p inv v : 0 < lo -> lo <= hi < 128 -> hi <> 93 -> drop p P = 45 :: hi :: n :: r -> (0 < fuel)%nat ->
  (if either towupper towlower foldcase (fun k => (lo <=? k) && (k <=? hi)) k then v = negb inv else items (fuel - 1)%nat (S p) lo k kf inv = Some v) ->
  items fuel p lo k kf inv = Some v.
Proof.
  intros Hlo Hhi H93 E Hf Hv. pose proof (drop_tail _ _ _ _ E) as E1.
  set (hit := either towupper towlower foldcase (fun k => (lo <=? k) && (k <=? hi)) k) in *.
  assert (forall body : nat * Z -> option (nat * Z + bool), body (p, lo) = Some (if hit then inr (negb inv) else inl (S p, lo)) ->
    (hit = false -> oloop (fuel - 1) body (S p, lo) = Some v) -> oloop fuel body (p, lo) = Some v) as Hstep.
  { intros body Hb Hn. destruct hit; [rewrite Hv; by apply oloop_stop|]. by eapply oloop_go; [done|exact Hb|apply Hn]. }
  apply Hstep; [clear Hstep Hv|intros Hh; by rewrite Hh in Hv]. cbv beta zeta. rewrite (drop_head _ _ _ _ E), (drop_head _ _ _ _ E1). cbn [mbind option_bind].
  change (45 =? 93) with false. change (45 =? 45) with true. destruct (Z.eqb_spec hi 93); [done|]. cbn [negb andb]. rewrite E1.
  assert (mbtowc mb1 (Some (hi :: n :: r)) 4 = Some (1, Some hi)) as ->.
  { unfold mbtowc. cbn [Nat.eqb lookup list_lookup mbind option_bind]. destruct (Z.ltb_spec hi 0x80); [|lia]. by rewrite truth_nz by lia. }
  cbn [mbind option_bind]. change (1 <? 0) with false. cbn [mbind option_bind]. rewrite !range_test by (done || lia).
  destruct (Z.leb_spec lo hi); [|lia]. cbn [andb]. fold kf. change (((lo <=? k) && (k <=? hi)) || ((lo <=? kf) && (kf <=? hi))) with hit. destruct hit; [done|].
  do 3 f_equal. lia.
Qed.

Lemma scan_class name n r fuel p (wc : Z) inv v : Forall (fun b => 0 < b /\ b <> 58) name -> drop p P = item_text mb1 (IClass name) ++ n :: r -> (0 < fuel)%nat ->
  (if test (IClass name) then v = negb inv else items (fuel - 1)%nat (p + length (item_text mb1 (IClass name)))%nat wc k kf inv = Some v) ->
  items fuel p wc k kf inv = Some v.
Proof.
  intros Hn E Hf Hv. set (hit := test (IClass name)) in *. set (len := length (item_text mb1 (IClass name))) in *.
  assert (forall body : nat * Z -> option (nat * Z + bool), body (p, wc) = Some (if hit then inr (negb inv) else inl (p + len, wc)%nat) ->
    (hit = false -> oloop (fuel - 1) body (p + len, wc)%nat = Some v) -> oloop fuel body (p, wc) = Some v) as Hstep.
  { intros body Hb Hn'. destruct hit; [rewrite Hv; by apply oloop_stop|]. by eapply oloop_go; [done|exact Hb|apply Hn']. }
  apply Hstep; [clear Hstep Hv|intros Hh; by rewrite Hh in Hv]. cbv beta zeta. cbn [item_text app] in E. rewrite <- app_assoc in E. cbn [app] in E.
  pose proof (drop_tail _ _ _ _ E) as E1. rewrite (drop_head _ _ _ _ E), (drop_head _ _ _ _ E1). cbn [mbind option_bind].
  change (91 =? 93) with false. change (91 =? 45) with false. change (91 =? 91) with true. change (58 =? 58) with true. cbn [andb orb]. cbv iota.
  pose proof (drop_tail _ _ _ _ E1) as E2. replace (p + 3)%nat with (S (S (S p))) by lia.
  rewrite (skip_class_name P name (length P) (S (S p)) (n :: r)); [|done|done|apply (f_equal length) in E2; rewrite length_drop, length_app in E2; simpl length in E2; lia].
  cbn [mbind option_bind]. replace (S (S (S p)) + length name - 1 - (p + 2))%nat with (length name) by lia. replace (p + 2)%nat with (S (S p)) by lia. rewrite E2, take_app_length.
  change ((length name <? 16)%nat && (iswctype k (wctype name) || iswctype kf (wctype name))) with hit. destruct hit; [done|]. do 3 f_equal.
  unfold len. cbn [item_text]. rewrite !length_app. simpl length. lia.
Qed.

Lemma scan_items its : forall fuel p wc rest inv, items_ok mb1 its = true -> drop p P = items_text mb1 its ++ 93 :: rest -> (length (items_text mb1 its) < fuel)%nat ->
  items fuel p wc k kf inv = Some (xorb inv (existsb test its)).
Proof.
  induction its as [|i its IH]; intros fuel p wc rest inv Hi E Hf.
  - cbn [items_text mbind list_bind app length existsb] in *. rewrite xorb_false_r. apply oloop_stop; [lia|]. cbv beta zeta. rewrite (drop_head _ _ _ _ E). cbn [mbind option_bind]. done.
  - cbn [items_ok existsb] in *. apply andb_true_iff in Hi as [Hi1 Hi]. rewrite items_text_cons in *. rewrite length_app in Hf. rewrite <- app_assoc in E.
    pose proof (drop_app_more _ _ _ _ E) as E'. destruct (items_next mb1 its rest) as [r En]. pose proof E as E0. rewrite En in E0.
    assert (Hnext : forall fuel' wc', (length (items_text mb1 its) < fuel')%nat -> if test i then True else items fuel' (p + length (item_text mb1 i))%nat wc' k kf inv = Some (xorb inv (test i || existsb test its))).
    { intros fuel' wc' Hf'. destruct (test i) eqn:Ht; [done|]. by apply (IH fuel' _ wc' rest). }
    assert (Hhit : test i = true -> xorb inv (test i || existsb test its) = negb inv) by (intros ->; apply xorb_true_r).
    destruct i as [c|lo hi|name]; cbn [item_text item_ok] in *.
    + apply andb_true_iff in Hi1 as [Hc Hp]. pose proof (bytes_length mb1 c Hc). apply (scan_char c (next_byte mb1 its) r); [done|done|done|lia|]. specialize (Hnext (fuel - 1)%nat c ltac:(lia)).
      cbn [item_test] in *. unfold either in *. destruct ((c =? k) || (c =? kf)); [by apply Hhit|done].
    + rewrite !andb_true_iff in Hi1. destruct Hi1 as ((((((Hlo & Hplo) & Hhi) & Hhi') & Hphi) & Hm) & Hle). pose proof (bytes_length mb1 lo Hlo). pose proof (char_range mb1 lo Hlo).
      rewrite length_app in *. cbn [length] in *. rewrite <- app_assoc in E0. cbn [app] in E0.
      assert (char_ok mb1 hi = true) as Hhc by (unfold char_ok, enc; unfold scalarb; destruct mb1; destruct (Z.leb_spec 0 hi), (Z.ltb_spec hi 0x80), (Z.ltb_spec hi 0xd800); try lia; cbn [andb orb]; by rewrite Hhi).
      pose proof (drop_app_more _ _ _ _ E0) as E1. pose proof (drop_tail _ _ _ _ E1) as E2. cbn [item_test] in *. unfold either in Hnext, Hhit |- *.
      apply (scan_char lo 45 (hi :: next_byte mb1 its :: r)); [done|done|done|lia|]. destruct ((lo =? k) || (lo =? kf)) eqn:H1.
      { apply Hhit. lia. }
      apply (scan_range lo hi (next_byte mb1 its) r); [lia|lia|by apply plain_spec in Hphi as [? _]|done|lia|]. unfold either. destruct (_ || _) eqn:H2 in |- *; [apply xorb_true_r|].
      apply (scan_char hi (next_byte mb1 its) r); [done|done|rewrite (bytes_ascii mb1 hi Hhc) by lia; exact E2|lia|]. destruct ((hi =? k) || (hi =? kf)) eqn:H3; [exfalso; lia|].
      rewrite (bytes_ascii mb1 hi Hhc) by lia. cbn [length]. specialize (Hnext (fuel - 1 - 1 - 1)%nat hi ltac:(lia)). rewrite H2 in Hnext.
      by replace (S (p + length (bytes_of mb1 lo)) + 1)%nat with (p + (length (bytes_of mb1 lo) + 2))%nat by lia.
    + apply class_ok_spec in Hi1. apply (scan_class name (next_byte mb1 its) r); [done|done|lia|]. specialize (Hnext (fuel - 1)%nat wc). destruct (test (IClass name)); [by apply Hhit|].
      apply Hnext. cbn [app length] in Hf. lia.
Qed.
End scan.

(** ** Tokens *)

Section tokens.
Context (mb1 : bool) (P : list Z) (flags : Z).
Local Abbreviation noescape := (flag flags FNM_NOESCAPE).
Local Abbreviation next := (pat_next mb1 P).
Local Abbreviation text := (token_text mb1).

(** What [pat_next] makes of a token. *)
Definition code (t : token) : Z := match t with Star => STAR | Any => QUESTION | Lit _ k => k | Set_ _ _ _ => BRACKET end.

Lemma token_length t : token_ok mb1 noescape t = true -> (1 <= length (text t))%nat.
Proof. intros H. destruct t as [| |esc k|inv first its]; cbn [token_text] in *; rewrite ?length_app; simpl length; try lia. cbn [token_ok] in H. apply andb_true_iff in H as [H _]. pose proof (bytes_length mb1 k H). lia. Qed.

Lemma is_in_false b l : is_in b l = false -> b ∉ l.
Proof. unfold is_in. intros H Hb. apply not_true_iff_false in H. apply H. apply existsb_exists. exists b. split; [by apply list_elem_of_In|by apply Z.eqb_eq]. Qed.
Lemma is_in_true b l : is_in b l = true -> b ∈ l.
Proof. unfold is_in. intros H. apply existsb_exists in H as (x & Hx & E). apply Z.eqb_eq in E as ->. by apply list_elem_of_In. Qed.

(** Where the items of a bracket expression start. *)
Lemma set_ok inv first its : token_ok mb1 noescape (Set_ inv first its) = true ->
  items_ok mb1 its = true /\ (inv = None \/ inv = Some 33 \/ inv = Some 94) /\ (first = Some 93 \/ first = Some 45 \/
    first = None /\ next_byte mb1 its <> 93 /\ next_byte mb1 its <> 45 /\ (inv = None -> next_byte mb1 its <> 33 /\ next_byte mb1 its <> 94)).
Proof.
  cbn [token_ok]. intros H. apply andb_true_iff in H as [H Hfirst]. apply andb_true_iff in H as [H Hinv]. split; [done|split].
  - destruct inv as [b|]; [|by left]. apply is_in_true in Hinv. set_solver.
  - destruct first as [b|]; [apply is_in_true in Hfirst; set_solver|]. right; right. apply andb_true_iff in Hfirst as [H1 H2]. apply negb_true_iff, is_in_false in H1.
    split_and!; [done|set_solver|set_solver|]. intros ->. cbn [bool_decide] in H2. apply negb_true_iff, is_in_false in H2. set_solver.
Qed.

Lemma next_set inv first its p m rest : token_ok mb1 noescape (Set_ inv first its) = true -> drop p P = text (Set_ inv first its) ++ rest ->
  Z.of_nat (length (text (Set_ inv first its))) <= m -> next p m flags = Some (BRACKET, length (text (Set_ inv first its))).
Proof.
  intros Hok E Hm. destruct (set_ok _ _ _ Hok) as (Hits & Hinv & Hfirst). cbn [token_text] in *. rewrite <- !app_assoc in E.
  assert (Hlen : length ([91] ++ opt inv ++ opt first ++ items_text mb1 its ++ [93]) = S (S (length (opt inv) + length (opt first) + length (items_text mb1 its)))) by (rewrite !length_app; simpl length; lia).
  rewrite Hlen in *. unfold pat_next. destruct (Z.eqb_spec m 0); [lia|]. cbn [app] in E. rewrite (drop_head _ _ _ _ E). cbn [mbind option_bind]. cbv zeta.
  change (91 =? 0) with false. change (91 =? 92) with false. change (91 =? 91) with true. cbn [mbind option_bind]. cbv iota.
  destruct (Z.ltb_spec (Z.of_nat 1) m); [|lia]. pose proof (drop_tail _ _ _ _ E) as E1. replace (S p) with (p + 1)%nat in E1 by lia.
  destruct (items_next mb1 its rest) as [r En].
  set (k1 := (1 + length (opt inv))%nat). set (k2 := (k1 + length (opt first))%nat).
  pose proof (drop_app_more _ _ _ _ E1) as E2. pose proof (drop_app_more _ _ _ _ E2) as E3. replace (p + 1 + length (opt inv) + length (opt first))%nat with (p + k2)%nat in E3 by lia. replace (p + 1 + length (opt inv))%nat with (p + k1)%nat in E2 by lia.
  assert (b1 : exists b, P !! (p + 1)%nat = Some b /\ (if (b =? 94) || (b =? 33) then 2%nat else 1%nat) = k1).
  { destruct Hinv as [->|[->| ->]]; cbn [opt app] in E1; [|by eexists; split; [by rewrite (drop_head _ _ _ _ E1)|]..].
    destruct Hfirst as [->|[->|(-> & _ & _ & Hb)]]; cbn [opt app] in E1; [by eexists; split; [by rewrite (drop_head _ _ _ _ E1)|]..|].
    rewrite En in E1. eexists; split; [by rewrite (drop_head _ _ _ _ E1)|]. destruct (Hb eq_refl). by destruct (Z.eqb_spec (next_byte mb1 its) 94), (Z.eqb_spec (next_byte mb1 its) 33). }
  destruct b1 as (b & -> & Ek1). cbn [mbind option_bind]. rewrite Ek1. destruct (Z.ltb_spec (Z.of_nat k1) m); [|lia].
  assert (b2 : exists b, P !! (p + k1)%nat = Some b /\ exists k2', (if b =? 93 then S k1 else k1) = k2' /\ (k2' = k2 \/ first = Some 45 /\ S k2' = k2)).
  { destruct Hfirst as [->|[->|(-> & Hb & Hb' & _)]]; cbn [opt app] in E2.
    - eexists; split; [by rewrite (drop_head _ _ _ _ E2)|]. eexists; split; [done|]. left. unfold k2. simpl. lia.
    - eexists; split; [by rewrite (drop_head _ _ _ _ E2)|]. eexists; split; [done|]. right. split; [done|]. unfold k2. simpl. lia.
    - rewrite En in E2. eexists; split; [by rewrite (drop_head _ _ _ _ E2)|]. destruct (Z.eqb_spec (next_byte mb1 its) 93); [done|]. eexists; split; [done|]. left. unfold k2. simpl. lia. }
  destruct b2 as (b' & -> & k2' & Ek2 & Hk2). cbn [mbind option_bind]. rewrite Ek2.
  pose proof (f_equal length E3) as HL. rewrite length_drop, !length_app in HL. simpl length in HL.
  assert (bracket_end P (length P) p m k2' = Some (k2 + length (items_text mb1 its))%nat) as ->.
  { destruct Hk2 as [->|[-> Hk2]].
    - apply (end_items mb1 P p m its (length P) k2 rest); [done|done|lia|lia].
    - cbn [opt app] in E2. rewrite En in E2. replace k1 with k2' in E2 by (unfold k2 in Hk2; simpl in Hk2; lia).
      apply (end_plain P p m (length P) k2' 45 (next_byte mb1 its) r); [exact E2|lia|lia|by right|lia|]. rewrite Hk2. apply (end_items mb1 P p m its _ k2 rest); [done|done|lia|lia]. }
  cbn [mbind option_bind]. apply drop_app_more in E3. rewrite <- Nat.add_assoc in E3. rewrite (inside_true _ _ _ _ _ _ E3) by lia. cbn [mbind option_bind negb]. by do 2 f_equal.
Qed.

Lemma next_token t p m rest : token_ok mb1 noescape t = true -> drop p P = text t ++ rest -> Z.of_nat (length (text t)) <= m ->
  next p m flags = Some (code t, length (text t)).
Proof.
  intros Hok E Hm. pose proof (token_length t Hok) as Hl. destruct t as [| |esc k|inv first its]; [..|by apply next_set with rest].
  1,2: unfold pat_next; cbn [token_text app length] in *; rewrite (drop_head _ _ _ _ E); destruct (Z.eqb_spec m 0); [lia|done].
  cbn [token_ok token_text code] in *. apply andb_true_iff in Hok as [Hc Hesc]. pose proof (bytes_length mb1 k Hc) as Hb. pose proof (char_range mb1 k Hc) as Hr.
  (* the label [escaped] *)
  assert (Hlabel : forall q esc, drop q P = bytes_of mb1 k ++ rest -> (b ← P !! q;
    if 128 <=? b then '(k, wc) ← mbtowc mb1 (Some (drop q P)) (avail m); if k <? 0 then Some (UNMATCHABLE, 0%nat) else wc ← wc; Some (wc, (Z.to_nat k + esc)%nat) else Some (b, S esc)) = Some (k, (length (bytes_of mb1 k) + esc)%nat)).
  { clear - Hc Hb Hr Hm. intros q e E. rewrite length_app in Hm. pose proof E as E0. destruct (Z_lt_le_dec k 128) as [Hk|Hk].
    - rewrite (bytes_ascii mb1 k Hc Hk) in *. rewrite (drop_head _ _ _ _ E). cbn [mbind option_bind length]. destruct (Z.leb_spec 128 k); [lia|done].
    - destruct (bytes_high mb1 k Hc Hk) as (b & d & Eb & Hb' & _). rewrite Eb in E at 1. rewrite (drop_head _ _ _ _ E). cbn [mbind option_bind]. apply Forall_inv in Hb'. cbv beta in Hb'.
      destruct (Z.leb_spec 128 b); [|lia]. rewrite E0, mbtowc_char by (done || (apply avail_ge; [done|lia])). cbn [mbind option_bind].
      destruct (Z.ltb_spec (Z.of_nat (length (bytes_of mb1 k))) 0); [lia|]. cbn [mbind option_bind]. by rewrite Nat2Z.id. }
  unfold pat_next. destruct (Z.eqb_spec m 0); [lia|]. destruct esc; cbn [app] in E.
  - rewrite (drop_head _ _ _ _ E). cbn [mbind option_bind]. cbv zeta. change (92 =? 0) with false. change (92 =? 92) with true. cbv iota.
    pose proof (drop_tail _ _ _ _ E) as E1. pose proof (Hlabel (S p) 1%nat E1) as Hlab. pose proof (bytes_nonzero mb1 k Hc) as Hnz.
    destruct (bytes_of mb1 k) as [|b l]; [simpl in Hb; lia|]. apply Forall_inv in Hnz. cbv beta in Hnz. pose proof (drop_head _ _ _ _ E1) as Hh.
    rewrite Hh. cbn [mbind option_bind]. rewrite truth_nz by lia. rewrite Hesc. cbn [andb]. rewrite Hh in Hlab. cbn [mbind option_bind] in Hlab. rewrite ?Hh. cbn [mbind option_bind].
    rewrite Hlab. do 2 f_equal. cbn [app length]. lia.
  - pose proof (Hlabel p 0%nat E) as Hlab. pose proof (bytes_nonzero mb1 k Hc) as Hnz. apply negb_true_iff, is_in_false in Hesc.
    assert (exists b l, bytes_of mb1 k = b :: l /\ b <> 92 /\ b <> 91 /\ b <> 42 /\ b <> 63) as (b & l & Eb & H1 & H2 & H3 & H4).
    { destruct (Z_lt_le_dec k 128) as [Hk|Hk]; [rewrite bytes_ascii by done; exists k, []; set_solver|].
      destruct (bytes_high mb1 k Hc Hk) as (b & d & -> & Hb' & _). apply Forall_inv in Hb'. cbv beta in Hb'. exists b, d. split; [done|lia]. }
    rewrite Eb in *. apply Forall_inv in Hnz. cbv beta in Hnz. pose proof (drop_head _ _ _ _ E) as Hh. rewrite Hh in *. cbn [mbind option_bind] in *.
    destruct (Z.eqb_spec b 0); [lia|]. destruct (Z.eqb_spec b 92); [done|]. cbn [mbind option_bind]. destruct (Z.eqb_spec b 91); [done|]. destruct (Z.eqb_spec b 42); [done|]. destruct (Z.eqb_spec b 63); [done|].
    cbv zeta. rewrite ?Hh. cbn [mbind option_bind]. rewrite Hlab. do 2 f_equal. cbn [app length]. lia.
Qed.

End tokens.

Section tests.
Context (mb1 : bool) (P : list Z) (towupper towlower : Z -> Z) (wctype : list Z -> Z) (iswctype : Z -> Z -> bool) (flags : Z).
Local Abbreviation foldcase := (flag flags FNM_CASEFOLD).
Local Abbreviation noescape := (flag flags FNM_NOESCAPE).
Local Abbreviation test := (token_test towupper towlower wctype iswctype foldcase).
Local Abbreviation text := (token_text mb1).
Context (k : Z) (Hk : 0 < k < 2 ^ 31) (Hkf : 0 < fold_of towupper towlower foldcase k < 2 ^ 31).

Lemma bracket_set inv first its p rest : token_ok mb1 noescape (Set_ inv first its) = true -> drop p P = text (Set_ inv first its) ++ rest ->
  match_bracket mb1 P wctype iswctype p k (fold_of towupper towlower foldcase k) = Some (default (fun _ => false) (test (Set_ inv first its)) k).
Proof.
  intros Hok E. destruct (set_ok mb1 flags _ _ _ Hok) as (Hits & Hinv & Hfirst). cbn [token_text] in *. rewrite <- !app_assoc in E. cbn [app] in E.
  pose proof (drop_tail _ _ _ _ E) as E1. pose proof (drop_app_more _ _ _ _ E1) as E2. pose proof (drop_app_more _ _ _ _ E2) as E3. destruct (items_next mb1 its rest) as [r En].
  unfold match_bracket. cbv zeta. cbn [token_test default id]. set (neg := bool_decide (is_Some inv)).
  assert (exists b, P !! S p = Some b /\ ((b =? 94) || (b =? 33)) = neg /\ (if neg then S (S p) else S p) = (S p + length (opt inv))%nat) as (b & -> & Eb & Ep).
  { unfold neg. destruct Hinv as [->|[->| ->]]; cbn [opt app] in E1; [|by eexists; split; [by rewrite (drop_head _ _ _ _ E1)|split; [done|simpl; lia]]..].
    destruct Hfirst as [->|[->|(-> & _ & _ & Hb)]]; cbn [opt app] in E1; [by eexists; split; [by rewrite (drop_head _ _ _ _ E1)|split; [done|simpl; lia]]..|].
    rewrite En in E1. eexists; split; [by rewrite (drop_head _ _ _ _ E1)|]. destruct (Hb eq_refl). split; [|simpl; lia]. by destruct (Z.eqb_spec (next_byte mb1 its) 94), (Z.eqb_spec (next_byte mb1 its) 33). }
  cbn [mbind option_bind]. rewrite Eb, Ep. set (q := (S p + length (opt inv))%nat) in *.
  assert (Hscan : exists wc, P !! (q + length (opt first) - 1)%nat = Some wc) .
  { apply lookup_lt_is_Some_2. pose proof (f_equal length E3) as HL. rewrite length_drop, !length_app in HL. simpl length in HL. lia. }
  destruct Hscan as [wc Hwc]. pose proof (f_equal length E3) as HL. rewrite length_drop, !length_app in HL. simpl length in HL.
  assert (Hscan := fun wc => scan_items mb1 P towupper towlower wctype iswctype foldcase k Hk Hkf its (length P) (q + length (opt first)) wc rest neg Hits E3 ltac:(lia)).
  destruct Hfirst as [->|[->|(-> & H93 & H45 & _)]]; cbn [opt app length] in *.
  1,2: rewrite (drop_head _ _ _ _ E2); cbn [mbind option_bind]; rewrite Nat.add_1_r in *; replace (S q - 1)%nat with q in * by lia.
  - change (93 =? 93) with true. cbn [orb andb]. destruct (Z.eqb_spec k 93) as [->|Hne]; [rewrite bool_decide_eq_true_2 by done; by rewrite xorb_true_r|].
    rewrite bool_decide_eq_false_2 by congruence. replace (S q - 1)%nat with q by lia. rewrite (drop_head _ _ _ _ E2). cbn [mbind option_bind orb]. apply Hscan.
  - change (45 =? 45) with true. rewrite orb_true_r. cbn [andb]. destruct (Z.eqb_spec k 45) as [->|Hne]; [rewrite bool_decide_eq_true_2 by done; by rewrite xorb_true_r|].
    rewrite bool_decide_eq_false_2 by congruence. replace (S q - 1)%nat with q by lia. rewrite (drop_head _ _ _ _ E2). cbn [mbind option_bind orb]. apply Hscan.
  - rewrite En in E2. rewrite (drop_head _ _ _ _ E2). cbn [mbind option_bind]. destruct (Z.eqb_spec (next_byte mb1 its) 93); [done|]. destruct (Z.eqb_spec (next_byte mb1 its) 45); [done|].
    cbn [orb andb]. rewrite Nat.add_0_r in *. rewrite Hwc. cbn [mbind option_bind]. apply Hscan.
Qed.

(** The test made of a token that is not a star. *)
Lemma fold_casefold : (if foldcase then casefold towupper towlower k else k) = fold_of towupper towlower foldcase k.
Proof. unfold fold_of, casefold, other_case. destruct foldcase; [|done]. cbv zeta. by destruct (towupper k =? k). Qed.

Lemma tok_match_token t f p rest : token_ok mb1 noescape t = true -> test t = Some f -> drop p P = text t ++ rest ->
  tok_match mb1 P towupper towlower wctype iswctype flags (code t) p k = Some (f k).
Proof.
  intros Hok Ht E. unfold tok_match. rewrite fold_casefold. cbv zeta.
  destruct t as [| |esc c|inv first its]; cbn [code]; [done|by injection Ht as <-|..].
  - cbn [token_ok] in Hok. apply andb_true_iff in Hok as [Hc _]. pose proof (char_range mb1 c Hc). unfold BRACKET, QUESTION. destruct (Z.eqb_spec c (-3)); [lia|]. destruct (Z.eqb_spec c (-4)); [lia|].
    injection Ht as <-. unfold either. cbn [orb]. f_equal. by rewrite (Z.eqb_sym k), (Z.eqb_sym _ c).
  - change (BRACKET =? BRACKET) with true. cbv iota. rewrite (bracket_set inv first its p rest) by done. by rewrite Ht.
Qed.

Lemma tok_match_end p : tok_match mb1 P towupper towlower wctype iswctype flags END p k = Some false.
Proof.
  unfold tok_match, END, BRACKET, QUESTION. rewrite fold_casefold. cbv zeta.
  change (0 =? -3) with false. change (0 =? -4) with false. destruct (Z.eqb_spec k 0); [lia|]. by destruct (Z.eqb_spec (fold_of towupper towlower foldcase k) 0); [lia|].
Qed.
End tests.
