(* ===== verification/FnMain.v ===== *)
(** * FnMain: a pattern against a string

    The loops of [fnmatch_internal], each against [matches]: the tokens before
    the first star, the ones after the last star against the end of the
    string, and what is between stars at its first occurrence. *)

From Stdlib Require Import ZArith Lia Bool.
From stdpp Require Import base tactics numbers list.
From S2P Require Import Prelude Utf8 Utf8Proofs MbStringProofs Fnmatch FnSpec FnProofs.
Open Scope Z_scope.
Local Abbreviation lenZ l := (Z.of_nat (length l)).

(** [body] stands at [p], all of the [m] bytes or before a NUL. *)
Definition sized (l : list Z) (p : nat) (m : Z) (body : list Z) : Prop :=
  exists r, drop p l = body ++ r /\ lenZ body <= m /\ (m = lenZ body \/ head r = Some 0).

Lemma sized_step l p m a b : sized l p m (a ++ b) -> sized l (p + length a) (m - lenZ a) b.
Proof.
  intros (r & E & Hm & Hr). rewrite <- app_assoc in E. exists r. split; [by apply drop_app_more|]. rewrite length_app in *. split; [lia|]. destruct Hr as [Hr|Hr]; [left; lia|by right].
Qed.
Lemma sized_exact l p body r : drop p l = body ++ r -> sized l p (Z.of_nat (p + length body - p)) body.
Proof. intros E. exists r. split; [done|]. split; [lia|]. left. lia. Qed.

Section matching.
Context (mb1 : bool) (P T : list Z) (towupper towlower : Z -> Z) (wctype : list Z -> Z) (iswctype : Z -> Z -> bool) (flags : Z).
Local Abbreviation foldcase := (flag flags FNM_CASEFOLD).
Local Abbreviation noescape := (flag flags FNM_NOESCAPE).
Local Abbreviation fold := (fold_of towupper towlower foldcase).
Local Abbreviation test := (token_test towupper towlower wctype iswctype foldcase).
Local Abbreviation M := (pattern_matches towupper towlower wctype iswctype foldcase).
Local Abbreviation next := (pat_next mb1 P).
Local Abbreviation try_token := (tok_match mb1 P towupper towlower wctype iswctype flags).
Definition tokens_ok (ts : list token) : Prop := Forall (fun t => token_ok mb1 noescape t = true) ts.
Definition chars_ok (ks : list Z) : Prop := Forall (fun k => char_ok mb1 k = true) ks.
Definition starless (ts : list token) : Prop := Forall (fun t => t <> Star) ts.
Context (Hfold : forall k, char_ok mb1 k = true -> 0 < fold k < 2 ^ 31).

Lemma pattern_text_cons t ts : pattern_text mb1 (t :: ts) = token_text mb1 t ++ pattern_text mb1 ts.
Proof. done. Qed.
Lemma pattern_text_app ts ts' : pattern_text mb1 (ts ++ ts') = pattern_text mb1 ts ++ pattern_text mb1 ts'.
Proof. apply bind_app. Qed.
Lemma text_cons k ks : text mb1 (k :: ks) = bytes_of mb1 k ++ text mb1 ks.
Proof. done. Qed.
Lemma text_app ks ks' : text mb1 (ks ++ ks') = text mb1 ks ++ text mb1 ks'.
Proof. apply bind_app. Qed.
Lemma text_length ks : chars_ok ks -> (length ks <= length (text mb1 ks))%nat.
Proof. induction 1 as [|k ks Hk _ IH]; [done|]. rewrite text_cons, length_app. pose proof (bytes_length mb1 k Hk). simpl. lia. Qed.
Lemma pattern_length ts : tokens_ok ts -> (length ts <= length (pattern_text mb1 ts))%nat.
Proof. induction 1 as [|t ts Ht _ IH]; [done|]. rewrite pattern_text_cons, length_app. pose proof (token_length mb1 flags t Ht). simpl. lia. Qed.

Lemma M_token t f ts k ks : test t = Some f -> M (t :: ts) (k :: ks) = f k && M ts ks.
Proof. intros E. unfold pattern_matches. cbn [fmap list_fmap]. by rewrite E. Qed.
Lemma M_short t ts : t <> Star -> M (t :: ts) [] = false.
Proof. intros H. unfold pattern_matches. cbn [fmap list_fmap]. by destruct t. Qed.

(** ** One token or character at a position *)

Lemma code_star t : token_ok mb1 noescape t = true -> t <> Star -> exists f, test t = Some f /\ (code t =? STAR) = false /\ (code t =? UNMATCHABLE) = false /\ (code t =? END) = false.
Proof.
  intros Hok H. destruct t as [| |esc k|inv first its]; [done|..]; (eexists; split; [reflexivity|]); cbn [code]; [done| |done].
  cbn [token_ok] in Hok. apply andb_true_iff in Hok as [Hc _]. pose proof (char_range mb1 k Hc). unfold STAR, UNMATCHABLE, END. split_and!; lia.
Qed.

Lemma at_token p m t ts : token_ok mb1 noescape t = true -> sized P p m (pattern_text mb1 (t :: ts)) ->
  next p m flags = Some (code t, length (token_text mb1 t)) /\ sized P (p + length (token_text mb1 t)) (m - lenZ (token_text mb1 t)) (pattern_text mb1 ts).
Proof.
  intros Hok Hs. rewrite pattern_text_cons in Hs. split; [|by apply sized_step]. destruct Hs as (r & E & Hm & _). rewrite length_app in Hm. rewrite <- app_assoc in E.
  eapply next_token; [done|exact E|lia].
Qed.
Lemma at_pattern_end p m : sized P p m (pattern_text mb1 []) -> next p m flags = Some (END, 0%nat).
Proof.
  intros (r & E & Hm & Hr). cbn [pattern_text mbind list_bind app length] in *. unfold pat_next. destruct (Z.eqb_spec m 0); [done|]. destruct Hr as [?|Hr]; [lia|].
  destruct r as [|b r]; [done|]. injection Hr as ->. by rewrite (drop_head _ _ _ _ E).
Qed.
Lemma at_char s n k ks : char_ok mb1 k = true -> sized T s n (text mb1 (k :: ks)) ->
  str_next mb1 T s n = Some (k, length (bytes_of mb1 k)) /\ sized T (s + length (bytes_of mb1 k)) (n - lenZ (bytes_of mb1 k)) (text mb1 ks).
Proof.
  intros Hok Hs. rewrite text_cons in Hs. split; [|by apply sized_step]. destruct Hs as (r & E & Hm & _). rewrite length_app in Hm. rewrite <- app_assoc in E.
  eapply str_next_char; [done|exact E|lia].
Qed.
Lemma at_string_end s n : sized T s n (text mb1 []) -> exists i, str_next mb1 T s n = Some (0, i).
Proof.
  intros (r & E & Hm & Hr). cbn [text mbind list_bind app length] in *. unfold str_next. destruct (Z.eqb_spec n 0); [by eexists|]. destruct Hr as [?|Hr]; [lia|].
  destruct r as [|b r]; [done|]. injection Hr as ->. rewrite (drop_head _ _ _ _ E). by eexists.
Qed.
Lemma token_try p m t f ts k : token_ok mb1 noescape t = true -> test t = Some f -> char_ok mb1 k = true -> sized P p m (pattern_text mb1 (t :: ts)) -> try_token (code t) p k = Some (f k).
Proof.
  intros Hok Ht Hk (r & E & _). rewrite pattern_text_cons, <- app_assoc in E. pose proof (char_range mb1 k Hk). eapply tok_match_token; [lia|by apply Hfold|done|done|exact E].
Qed.
Lemma end_try p k : char_ok mb1 k = true -> try_token END p k = Some false.
Proof. intros Hk. pose proof (char_range mb1 k Hk). apply tok_match_end; [lia|by apply Hfold]. Qed.

(** ** The head *)

Definition verdict (b : bool) : Z := if b then 0 else FNM_NOMATCH.

Lemma head_correct ts : forall fuel pat m str n ks, tokens_ok ts -> chars_ok ks -> sized P pat m (pattern_text mb1 ts) -> sized T str n (text mb1 ks) ->
  m < 2 ^ 64 -> n < 2 ^ 64 -> (length ts < fuel)%nat ->
  exists r, head_loop mb1 P T towupper towlower wctype iswctype fuel flags (pat, m, str, n) = Some r /\
  match r with
  | inr v => v = verdict (M ts ks)
  | inl (pat', m', str', n') => exists ts' ks', tokens_ok ts' /\ chars_ok ks' /\ sized P pat' m' (pattern_text mb1 ts') /\ sized T str' n' (text mb1 ks') /\ M ts ks = M (Star :: ts') ks'
  end.
Proof.
  induction ts as [|t ts IH]; intros fuel pat m str n ks Hts Hks Hp Hs Hm Hn Hf; (destruct fuel as [|fuel]; [simpl in Hf; lia|]); unfold head_loop; cbn [oloop]; fold (head_loop mb1 P T towupper towlower wctype iswctype fuel flags).
  - rewrite (at_pattern_end pat m Hp). cbn [mbind option_bind]. change (END =? UNMATCHABLE) with false. change (END =? STAR) with false. cbv iota. destruct ks as [|k ks].
    + destruct (at_string_end str n Hs) as [i ->]. by eexists.
    + pose proof (Forall_inv Hks) as Hk. destruct (at_char str n k ks Hk Hs) as [-> _]. pose proof (char_range mb1 k Hk). cbn [mbind option_bind]. destruct (Z.leb_spec k 0); [lia|].
      rewrite end_try by done. by eexists.
  - pose proof (Forall_inv Hts) as Ht. destruct (at_token pat m t ts Ht Hp) as [-> Hp']. cbn [mbind option_bind]. destruct (decide (t = Star)) as [->|Hstar].
    + change (code Star =? UNMATCHABLE) with false. change (code Star =? STAR) with true. cbv iota. eexists. split; [reflexivity|]. cbv beta iota. cbn [token_text length] in Hp'.
      exists ts, ks. apply Forall_inv_tail in Hts. destruct Hp' as (r & E & Hm' & Hr). rewrite wrap_small by (unfold in_range; lia). split_and!; try done. exists r. split; [by replace (S pat) with (pat + 1)%nat by lia|done].
    + destruct (code_star t Ht Hstar) as (f & Hf' & -> & -> & HE). destruct ks as [|k ks].
      * destruct (at_string_end str n Hs) as [i ->]. cbn [mbind option_bind]. eexists. split; [reflexivity|]. cbv beta iota. rewrite HE. by rewrite M_short.
      * pose proof (Forall_inv Hks) as Hk. destruct (at_char str n k ks Hk Hs) as [-> Hs']. pose proof (char_range mb1 k Hk). cbn [mbind option_bind]. destruct (Z.leb_spec k 0); [lia|].
        rewrite (token_try pat m t f ts k) by done. rewrite (M_token t f) by done. cbn [mbind option_bind]. destruct (f k); cbn [negb]; [|by eexists].
        destruct Hp' as (r & E & Hm' & Hr), Hs' as (r' & E' & Hn' & Hr'). rewrite !wrap_small by (unfold in_range; lia).
        apply Forall_inv_tail in Hts, Hks. cbn [andb]. apply IH; [done|done|by exists r|by exists r'|lia|lia|simpl in Hf; lia].
Qed.

(** ** The length of what is left *)

Lemma strnlen_correct l p m body : sized l p m body -> Forall (fun b => b <> 0) body -> strnlen l p m = Some (length body).
Proof.
  intros (r & E & Hm & Hr) Hnz. unfold strnlen.
  assert (forall k fuel, (k <= length body)%nat -> (length body - k < fuel)%nat -> oloop fuel (fun k => if Z.of_nat k <? m then b ← l !! (p + k)%nat; Some (if truth b then inl (S k) else inr k) else Some (inr k)) k = Some (length body)) as H.
  { intros k fuel. revert k. induction fuel as [|fuel IH]; [lia|]. intros k Hk Hf. cbn [oloop]. rewrite <- lookup_drop, E. destruct (decide (k = length body)) as [->|Hne].
    - destruct (Z.ltb_spec (lenZ body) m); [|done]. destruct Hr as [?|Hr]; [lia|]. rewrite lookup_app_r, Nat.sub_diag by done. destruct r as [|b r]; [done|]. by injection Hr as ->.
    - destruct (Z.ltb_spec (Z.of_nat k) m); [|lia]. rewrite lookup_app_l by lia. destruct (lookup_lt_is_Some_2 body k ltac:(lia)) as [b Hb]. rewrite Hb. cbn [mbind option_bind].
      rewrite truth_nz by (by apply (proj1 (Forall_lookup _ _) Hnz k b)). apply IH; lia. }
  apply (f_equal length) in E. rewrite length_drop, length_app in E. apply H; lia.
Qed.
Lemma text_nonzero ks : chars_ok ks -> Forall (fun b => b <> 0) (text mb1 ks).
Proof.
  induction 1 as [|k ks Hk _ IH]; [apply Forall_nil_2|]. rewrite text_cons. apply Forall_app. split; [|done]. eapply Forall_impl; [by apply bytes_nonzero|]. cbv beta. lia.
Qed.
Lemma item_nonzero n i : item_ok mb1 n i = true -> Forall (fun b => b <> 0) (item_text mb1 i).
Proof.
  destruct i as [c|lo hi|name]; cbn [item_ok item_text]; intros H; rewrite ?andb_true_iff in H.
  - destruct H as [H _]. eapply Forall_impl; [by apply bytes_nonzero|]. cbv beta. lia.
  - destruct H as ((((((H & _) & Hh) & _) & _) & _) & _). apply Forall_app. split; [eapply Forall_impl; [by apply bytes_nonzero|]; cbv beta; lia|]. repeat constructor; lia.
  - apply class_ok_spec in H. do 2 (apply List.Forall_cons; [done|]). apply Forall_app. split; [|by repeat constructor]. eapply Forall_impl; [exact H|]. cbv beta. lia.
Qed.
Lemma items_nonzero its : items_ok mb1 its = true -> Forall (fun b => b <> 0) (items_text mb1 its).
Proof.
  induction its as [|i its IH]; intros H; [apply Forall_nil_2|]. cbn [items_ok] in H. apply andb_true_iff in H as [Hi H]. rewrite items_text_cons. apply Forall_app. split; [by eapply item_nonzero|by apply IH].
Qed.
Lemma token_nonzero t : token_ok mb1 noescape t = true -> Forall (fun b => b <> 0) (token_text mb1 t).
Proof.
  intros H. destruct t as [| |esc k|inv first its]; cbn [token_text]; [by repeat constructor|by repeat constructor|..].
  - cbn [token_ok] in H. apply andb_true_iff in H as [H _]. apply Forall_app. split; [destruct esc; by repeat constructor|]. eapply Forall_impl; [by apply bytes_nonzero|]. cbv beta. lia.
  - apply set_ok in H as (Hi & Hinv & Hfirst). apply List.Forall_cons; [done|]. repeat (apply Forall_app; split); [destruct Hinv as [->|[->| ->]]; by repeat constructor| |by apply items_nonzero|by repeat constructor].
    destruct Hfirst as [->|[->|[-> _]]]; by repeat constructor.
Qed.
Lemma pattern_nonzero ts : tokens_ok ts -> Forall (fun b => b <> 0) (pattern_text mb1 ts).
Proof. induction 1 as [|t ts Ht _ IH]; [apply Forall_nil_2|]. rewrite pattern_text_cons. apply Forall_app. split; [by apply token_nonzero|done]. Qed.

(** ** The last star *)

(** Nothing, or up to and with a star. *)
Definition closed (ts : list token) : Prop := ts = [] \/ exists ts', ts = ts' ++ [Star].

Lemma find_tail_correct rem : forall fuel r pat mid tl, tokens_ok rem -> starless tl -> closed mid -> drop pat P = pattern_text mb1 (mid ++ tl ++ rem) ++ r -> (length rem < fuel)%nat ->
  exists mid' tl', mid ++ tl ++ rem = mid' ++ tl' /\ closed mid' /\ starless tl' /\
    find_tail mb1 P fuel flags (pat + length (pattern_text mb1 (mid ++ tl ++ rem))) (pat + length (pattern_text mb1 (mid ++ tl)), pat + length (pattern_text mb1 mid), lenZ tl)%nat =
    Some (Some (pat + length (pattern_text mb1 mid'), lenZ tl')%nat).
Proof.
  induction rem as [|t rem IH]; intros fuel r pat mid tl Hok Htl Hmid E Hf; (destruct fuel as [|fuel]; [simpl in Hf; lia|]).
  - exists mid, tl. rewrite !app_nil_r in *. split_and!; try done. unfold find_tail. cbn [oloop]. destruct (Nat.ltb_spec (pat + length (pattern_text mb1 (mid ++ tl))) (pat + length (pattern_text mb1 (mid ++ tl)))); [lia|done].
  - pose proof (Forall_inv Hok) as Ht. apply Forall_inv_tail in Hok. pose proof (token_length mb1 flags t Ht) as Hl. set (whole := mid ++ tl ++ t :: rem) in *.
    assert (E' : drop (pat + length (pattern_text mb1 (mid ++ tl))) P = pattern_text mb1 (t :: rem) ++ r).
    { apply drop_app_more. rewrite E. unfold whole. rewrite !pattern_text_app. by rewrite <- !app_assoc. }
    assert (Hend : length (pattern_text mb1 whole) = (length (pattern_text mb1 (mid ++ tl)) + length (pattern_text mb1 (t :: rem)))%nat) by (unfold whole; rewrite !pattern_text_app, !length_app; lia).
    pose proof (sized_exact _ _ _ _ E') as Hs. rewrite <- Nat.add_assoc, <- Hend in Hs. destruct (at_token _ _ t rem Ht Hs) as [Hnext _].
    assert (Hlt : (pat + length (pattern_text mb1 (mid ++ tl)) < pat + length (pattern_text mb1 whole))%nat) by (rewrite Hend, pattern_text_cons, length_app; lia).
    destruct (decide (t = Star)) as [->|Hstar].
    + destruct (IH fuel r pat (mid ++ tl ++ [Star]) [] Hok) as (mid' & tl' & Eq & Hm' & Ht' & Hr); [by apply Forall_nil_2|right; exists (mid ++ tl); by rewrite app_assoc| |simpl in Hf; lia|].
      { rewrite E. unfold whole. by rewrite <- !app_assoc. }
      exists mid', tl'. split_and!; [rewrite <- Eq; unfold whole; by rewrite <- !app_assoc|done|done|]. rewrite <- Hr.
      unfold find_tail. cbn [oloop]. destruct (Nat.ltb_spec (pat + length (pattern_text mb1 (mid ++ tl))) (pat + length (pattern_text mb1 whole))); [|lia]. rewrite Hnext. cbn [mbind option_bind].
      change (code Star =? UNMATCHABLE) with false. change (code Star =? STAR) with true. cbn [token_text length app] in *.
      assert (whole = (mid ++ tl ++ [Star]) ++ rem) as -> by (unfold whole; by rewrite <- !app_assoc).
      replace (S (pat + length (pattern_text mb1 (mid ++ tl))))%nat with (pat + length (pattern_text mb1 (mid ++ tl ++ [Star])))%nat by (rewrite app_assoc, pattern_text_app, length_app; simpl; lia).
      replace (pat + length (pattern_text mb1 (mid ++ tl)) + 1)%nat with (pat + length (pattern_text mb1 (mid ++ tl ++ [Star])))%nat by (rewrite app_assoc, pattern_text_app, length_app; simpl; lia).
      by rewrite app_nil_r.
    + destruct (code_star t Ht Hstar) as (f & _ & Hc1 & Hc2 & _).
      destruct (IH fuel r pat mid (tl ++ [t]) Hok) as (mid' & tl' & Eq & Hm' & Ht' & Hr); [apply Forall_app; split; [done|by constructor]|done| |simpl in Hf; lia|].
      { rewrite E. unfold whole. by rewrite <- !app_assoc. }
      exists mid', tl'. split_and!; [rewrite <- Eq; unfold whole; by rewrite <- !app_assoc|done|done|]. rewrite <- Hr.
      unfold find_tail. cbn [oloop]. destruct (Nat.ltb_spec (pat + length (pattern_text mb1 (mid ++ tl))) (pat + length (pattern_text mb1 whole))); [|lia]. rewrite Hnext. cbn [mbind option_bind]. rewrite Hc1, Hc2.
      assert (whole = mid ++ (tl ++ [t]) ++ rem) as -> by (unfold whole; by rewrite <- !app_assoc).
      replace (pat + length (pattern_text mb1 (mid ++ tl)) + length (token_text mb1 t))%nat with (pat + length (pattern_text mb1 (mid ++ tl ++ [t])))%nat
        by (rewrite !pattern_text_app, pattern_text_cons, !length_app; simpl; lia).
      replace (lenZ tl + 1) with (lenZ (tl ++ [t])) by (rewrite length_app; simpl; lia). done.
Qed.

(** ** The end of the string *)

Lemma back_char_correct str s0 k r : char_ok mb1 k = true -> (str <= s0)%nat -> drop s0 T = bytes_of mb1 k ++ r -> back_char mb1 T (length T) str (s0 + length (bytes_of mb1 k)) = Some s0.
Proof.
  intros Hk Hs E. pose proof (bytes_length mb1 k Hk) as Hl. pose proof (drop_short _ _ _ _ E) as Hsh. unfold back_char.
  destruct (Z_lt_le_dec k 128) as [Hlt|Hge].
  { rewrite (bytes_ascii mb1 k Hk Hlt) in *. cbn [length app] in *. replace (s0 + 1 - 1)%nat with s0 by lia. rewrite (drop_head _ _ _ _ E). cbn [mbind option_bind]. by destruct (Z.ltb_spec k 128); [|lia]. }
  destruct (bytes_high mb1 k Hk Hge) as (b & c & Eb & Hb & Hc). rewrite Eb in *. cbn [length app] in *.
  assert (Hlast : exists x, T !! (s0 + length c)%nat = Some x /\ 128 <= x).
  { destruct (lookup_lt_is_Some_2 (b :: c) (length c) ltac:(simpl; lia)) as [x Hx]. exists x. split; [|by apply (proj1 (Forall_lookup _ _) Hb _ _ Hx)].
    rewrite <- lookup_drop, E. change (b :: c ++ r) with ((b :: c) ++ r). by apply lookup_app_l_Some. }
  destruct Hlast as (x & Hx & Hx'). replace (s0 + S (length c) - 1)%nat with (s0 + length c)%nat by lia. rewrite Hx. cbn [mbind option_bind].
  destruct (Z.ltb_spec x 128); [lia|]. cbn [orb]. destruct mb1; [subst c; simpl; f_equal; lia|]. destruct Hc as (_ & Hb0 & Hc).
  (* over the continuation bytes *)
  pose proof (drop_tail _ _ _ _ E) as E1. pose proof (drop_head _ _ _ _ E) as Hhead. clear Hx Hx' Eb.
  assert (H0 : forall fuel d e, c = d ++ e -> (S (length d) <= fuel)%nat ->
    oloop fuel (fun s => let s := (s - 1)%nat in b ← T !! s; if (wrap32 (b - 0x80) <? 0x40) && (str <? s)%nat then Some (inl s) else Some (inr s)) (s0 + S (length d))%nat = Some s0).
  { intros fuel d. revert fuel. induction d as [|y d IH] using rev_ind; intros fuel e Ec Hf.
    - apply oloop_stop; [lia|]. cbv zeta. replace (s0 + S (length []) - 1)%nat with s0 by (simpl; lia). rewrite Hhead. cbn [mbind option_bind]. apply Forall_inv in Hb. cbv beta in Hb.
      rewrite wrap_small by (unfold in_range; lia). by destruct (Z.ltb_spec (b - 128) 64); [lia|].
    - rewrite length_app in *. cbn [length] in *. apply (oloop_go _ fuel _ (s0 + S (length d))%nat); [lia| |apply (IH _ (y :: e)); [by rewrite Ec, <- app_assoc|lia]]. cbv zeta.
      replace (s0 + S (length d + 1) - 1)%nat with (S s0 + length d)%nat by lia. rewrite <- lookup_drop, E1, Ec, <- !app_assoc. cbn [app]. rewrite list_lookup_middle by done. cbn [mbind option_bind].
      rewrite Ec in Hc. apply Forall_app in Hc as [Hc _]. apply Forall_app in Hc as [_ Hc]. apply Forall_inv in Hc. apply tail_range in Hc. rewrite wrap_small by (unfold in_range; lia).
      destruct (Z.ltb_spec (y - 128) 64); [|lia]. destruct (Nat.ltb_spec str (S s0 + length d)); [|lia]. cbn [andb]. do 2 f_equal. lia. }
  apply (H0 _ c []); [by rewrite app_nil_r|lia].
Qed.

Lemma tail_start_correct ks : forall fuel str r cnt, chars_ok ks -> drop str T = text mb1 ks ++ r -> (length ks < fuel)%nat ->
  tail_start mb1 T fuel str (str + length (text mb1 ks)) (Z.of_nat cnt) = Some (str + length (text mb1 (take (length ks - cnt) ks)), Z.of_nat (cnt - length ks))%nat.
Proof.
  induction ks as [|k ks IH] using rev_ind; intros fuel str r cnt Hks E Hf; unfold tail_start.
  - apply oloop_stop; [lia|]. simpl text. cbn [length]. destruct (Nat.ltb_spec str (str + 0)); [lia|]. cbn [andb]. do 3 f_equal. lia.
  - rewrite length_app in *. cbn [length] in *. apply Forall_app in Hks as [Hks Hk]. apply Forall_inv in Hk. pose proof (bytes_length mb1 k Hk) as Hl.
    assert (Ht : text mb1 (ks ++ [k]) = text mb1 ks ++ bytes_of mb1 k) by (rewrite text_app, text_cons; simpl; by rewrite app_nil_r).
    destruct cnt as [|cnt].
    + apply oloop_stop; [lia|]. rewrite andb_false_r. rewrite take_ge by (rewrite length_app; simpl; lia). by do 3 f_equal.
    + rewrite Ht in *. rewrite length_app. apply (oloop_go _ fuel _ (str + length (text mb1 ks), Z.of_nat cnt)%nat); [lia| |].
      * destruct (Nat.ltb_spec str (str + (length (text mb1 ks) + length (bytes_of mb1 k)))); [|lia]. rewrite truth_nz by lia. cbn [andb]. rewrite Nat.add_assoc, <- app_assoc in *.
        rewrite (back_char_correct str _ k r); [cbn [mbind option_bind]; do 3 f_equal; lia|done|lia|by apply drop_app_more].
      * rewrite <- app_assoc in E. etransitivity; [exact (IH (fuel - 1)%nat str _ cnt Hks E ltac:(lia))|]. replace (length ks + 1 - S cnt)%nat with (length ks - cnt)%nat by lia. rewrite take_app_le by lia.
        do 3 f_equal. lia.
Qed.

Lemma match_tail_correct tl : forall fuel p s ks r r', tokens_ok tl -> starless tl -> chars_ok ks -> drop p P = pattern_text mb1 tl ++ r -> drop s T = text mb1 ks ++ r' -> (length tl < fuel)%nat ->
  match_tail mb1 P T towupper towlower wctype iswctype fuel flags p (p + length (pattern_text mb1 tl)) s (s + length (text mb1 ks)) = Some (M tl ks).
Proof.
  induction tl as [|t tl IH]; intros fuel p s ks r r' Hts Htl Hks E Es Hf; (destruct fuel as [|fuel]; [simpl in Hf; lia|]); pose proof (sized_exact _ _ _ _ E) as Hp; pose proof (sized_exact _ _ _ _ Es) as Hs;
    unfold match_tail; cbn [oloop].
  - rewrite (at_pattern_end _ _ Hp). cbn [mbind option_bind]. destruct ks as [|k ks].
    + destruct (at_string_end _ _ Hs) as [i ->]. done.
    + pose proof (Forall_inv Hks) as Hk. destruct (at_char _ _ k ks Hk Hs) as [-> _]. pose proof (char_range mb1 k Hk). cbn [mbind option_bind]. destruct (Z.leb_spec k 0); [lia|]. by rewrite end_try.
  - pose proof (Forall_inv Hts) as Ht. pose proof (Forall_inv Htl) as Hstar. destruct (at_token _ _ t tl Ht Hp) as [-> _]. cbn [mbind option_bind]. destruct (code_star t Ht Hstar) as (f & Hf' & _ & _ & HE). destruct ks as [|k ks].
    + destruct (at_string_end _ _ Hs) as [i ->]. cbn [mbind option_bind]. rewrite M_short by done. by rewrite HE.
    + pose proof (Forall_inv Hks) as Hk. destruct (at_char _ _ k ks Hk Hs) as [-> _]. pose proof (char_range mb1 k Hk). cbn [mbind option_bind]. destruct (Z.leb_spec k 0); [lia|].
      rewrite (token_try _ _ t f tl k Ht Hf' Hk Hp), (M_token t f) by done. cbn [mbind option_bind]. destruct (f k); [|done]. cbn [negb andb]. rewrite pattern_text_cons, text_cons, !length_app, !Nat.add_assoc in *.
      apply Forall_inv_tail in Hts, Htl, Hks. rewrite <- app_assoc in E, Es. apply drop_app_more in E, Es. by apply (IH fuel _ _ ks r r'); [..|simpl in Hf; lia].
Qed.

(** ** Between stars *)

Lemma match_component_correct cs : forall fuel p s mid ks r r' fs, tokens_ok (cs ++ Star :: mid) -> starless cs -> chars_ok ks -> test <$> cs = ones fs ->
  drop p P = pattern_text mb1 (cs ++ Star :: mid) ++ r -> drop s T = text mb1 ks ++ r' -> (length cs < fuel)%nat ->
  match_component mb1 P T towupper towlower wctype iswctype fuel flags p (p + length (pattern_text mb1 (cs ++ Star :: mid))) s (s + length (text mb1 ks)) =
  Some (match try fs ks with
    | Fits rest => Committed (p + length (pattern_text mb1 (cs ++ [Star]))) (s + (length (text mb1 ks) - length (text mb1 rest)))
    | TooShort => Exhausted
    | Differs => Mismatch
    end)%nat.
Proof.
  induction cs as [|t cs IH]; intros fuel p s mid ks r r' fs Hts Hcs Hks Efs E Es Hf; (destruct fuel as [|fuel]; [simpl in Hf; lia|]); pose proof (sized_exact _ _ _ _ E) as Hp; pose proof (sized_exact _ _ _ _ Es) as Hs;
    unfold match_component; cbn [oloop app] in *; pose proof (Forall_inv Hts) as Ht; destruct (at_token _ _ _ _ Ht Hp) as [-> _]; cbn [mbind option_bind].
  - destruct fs; [|done]. cbn [try]. change (code Star =? STAR) with true. cbv iota. rewrite Nat.sub_diag, Nat.add_0_r. done.
  - destruct fs as [|f fs]; [done|]. cbn [fmap list_fmap ones] in Efs. injection Efs as Ef Efs. pose proof (Forall_inv Hcs) as Hstar. destruct (code_star t Ht Hstar) as (f' & Hf' & -> & _ & HE). rewrite Hf' in Ef. injection Ef as ->.
    cbn [try]. destruct ks as [|k ks].
    + destruct (at_string_end _ _ Hs) as [i ->]. done.
    + pose proof (Forall_inv Hks) as Hk. destruct (at_char _ _ k ks Hk Hs) as [-> _]. pose proof (char_range mb1 k Hk). cbn [mbind option_bind]. destruct (Z.eqb_spec k 0); [lia|].
      rewrite (token_try _ _ t f _ k Ht Hf' Hk Hp). cbn [mbind option_bind]. destruct (f k); [|done]. cbn [negb]. rewrite !pattern_text_cons, text_cons, !length_app, !Nat.add_assoc in *.
      apply Forall_inv_tail in Hts, Hcs, Hks. rewrite <- app_assoc in E, Es. apply drop_app_more in E, Es.
      etransitivity; [apply (IH fuel _ _ mid ks r r' fs); [done..|simpl in Hf; lia]|]. destruct (try fs ks) as [rest| |] eqn:Et; [|done..]. do 2 f_equal.
      apply try_fits in Et as [Et _]. rewrite Et, text_app, length_app. lia.
Qed.

Lemma advance_correct s k ks fuel : chars_ok (k :: ks) -> (exists r, drop s T = text mb1 (k :: ks) ++ r) -> advance_str mb1 T fuel s (s + length (text mb1 (k :: ks))) = Some (s + length (bytes_of mb1 k))%nat.
Proof.
  intros Hks [r Es]. pose proof (Forall_inv Hks) as Hk. destruct (at_char _ _ k ks Hk (sized_exact _ _ _ _ Es)) as [E _]. unfold advance_str. rewrite E. cbn [mbind option_bind].
  pose proof (char_range mb1 k Hk). by destruct (Z.ltb_spec 0 k); [|lia].
Qed.

Lemma starless_ones cs : starless cs -> exists fs, test <$> cs = ones fs /\ length fs = length cs.
Proof.
  induction 1 as [|t cs Ht _ (fs & E & El)]; [by exists []|]. cbn [fmap list_fmap]. rewrite E.
  destruct t as [| |esc k|inv first its]; [done|..]; (eexists (_ :: fs); split; [reflexivity|simpl; lia]).
Qed.
Lemma closed_split mid : closed mid -> mid = [] \/ exists cs mid', mid = cs ++ Star :: mid' /\ starless cs /\ closed mid'.
Proof.
  induction mid as [|t mid IH]; [by left|]. intros [?|[ts E]]; [done|right]. destruct (decide (t = Star)) as [->|Ht].
  - exists [], mid. split_and!; [done|apply Forall_nil_2|]. destruct ts as [|t' ts]; [injection E as ->; by left|]. injection E as _ ->. right. by exists ts.
  - destruct ts as [|t' ts]; [injection E as -> _; done|]. injection E as -> E. destruct IH as [->|(cs & mid' & -> & Hcs & Hm)]; [right; by exists ts|by destruct ts|].
    exists (t' :: cs), mid'. split_and!; [done|by constructor|done].
Qed.

Lemma sea_correct fuel : forall mid pat str ks r r', tokens_ok mid -> closed mid -> chars_ok ks -> drop pat P = pattern_text mb1 mid ++ r -> drop str T = text mb1 ks ++ r' ->
  (length mid + length ks < fuel)%nat ->
  sea_of_stars mb1 P T towupper towlower wctype iswctype fuel flags pat (pat + length (pattern_text mb1 mid)) str (str + length (text mb1 ks)) = Some (verdict (M (Star :: mid) ks)).
Proof.
  induction fuel as [|fuel IH]; intros mid pat str ks r r' Hts Hmid Hks E Es Hf; [lia|]. unfold sea_of_stars. cbn [oloop]. destruct (closed_split mid Hmid) as [->|(cs & mid' & -> & Hcs & Hmid')].
  - cbn [pattern_text mbind list_bind length]. destruct (Nat.ltb_spec (pat + 0) (pat + 0)); [lia|]. rewrite Nat.add_0_r. destruct (Nat.ltb_spec pat pat); [lia|]. unfold pattern_matches. cbn [fmap list_fmap token_test].
    assert (matches (K:=Z) [None] ks = true) as ->; [|done]. apply matches_star_true. exists (length ks). split; [done|]. by rewrite drop_all.
  - pose proof (pattern_length _ Hts) as Hpl. pose proof (drop_short _ _ _ _ E) as Hsh. rewrite length_app in Hpl. cbn [length] in Hpl.
    assert (Hlt : (pat < pat + length (pattern_text mb1 (cs ++ Star :: mid')))%nat) by lia. destruct (Nat.ltb_spec pat (pat + length (pattern_text mb1 (cs ++ Star :: mid')))); [|lia].
    destruct (starless_ones cs Hcs) as (fs & Efs & _). rewrite (match_component_correct cs (length P) pat str mid' ks r r' fs) by (done || lia). cbn [mbind option_bind].
    assert (EM : forall ks, M (Star :: cs ++ Star :: mid') ks = matches (None :: ones fs ++ None :: (test <$> mid')) ks) by (intros; unfold pattern_matches; cbn [fmap list_fmap]; by rewrite fmap_app, Efs).
    rewrite EM, greedy. pose proof Hts as Hts'. apply Forall_app in Hts' as [_ Hts']. apply Forall_inv_tail in Hts'.
    rewrite length_app in Hf. cbn [length] in Hf. destruct (try fs ks) as [rest| |] eqn:Et; [|done|].
    + apply try_fits in Et as [Et _]. rewrite Et in Hks, Es |- *. apply Forall_app in Hks as [_ Hks]. rewrite text_app in Es |- *. rewrite length_app.
      assert (Epat : pattern_text mb1 (cs ++ Star :: mid') = pattern_text mb1 (cs ++ [Star]) ++ pattern_text mb1 mid') by (rewrite <- pattern_text_app, <- app_assoc; done).
      rewrite Epat in E |- *. rewrite length_app, Nat.add_assoc. replace (length (text mb1 (take (length fs) ks)) + length (text mb1 rest) - length (text mb1 rest))%nat with (length (text mb1 (take (length fs) ks))) by lia. rewrite Nat.add_assoc.
      rewrite <- app_assoc in E, Es. apply drop_app_more in E, Es. etransitivity; [apply (IH mid' _ _ rest r r'); try done|done]. apply (f_equal length) in Et. rewrite length_app in Et. lia.
    + pose proof (try_differs _ _ Et) as Hne. destruct ks as [|k ks]; [done|]. rewrite (advance_correct str k ks) by (done || by exists r'). cbn [mbind option_bind]. rewrite <- EM.
      rewrite text_cons in Es |- *. rewrite length_app, Nat.add_assoc. rewrite <- app_assoc in Es. apply drop_app_more in Es. apply Forall_inv_tail in Hks.
      by apply (IH (cs ++ Star :: mid') pat _ ks r r'); try done; rewrite length_app; simpl in *; lia.
Qed.

(** ** The whole of fnmatch_internal *)

Lemma split_tail mid tl ks : starless tl -> M (Star :: mid ++ tl) ks =
  (length tl <=? length ks)%nat && M tl (drop (length ks - length tl) ks) && M (Star :: mid) (take (length ks - length tl) ks).
Proof.
  intros Htl. destruct (starless_ones tl Htl) as (fs & Efs & El). unfold pattern_matches. cbn [fmap list_fmap]. rewrite fmap_app, Efs, <- El.
  exact (matches_tail (None :: (test <$> mid)) fs ks).
Qed.

(** A leading period must be matched by a period, escaped or not. *)
Definition period (t : token) : bool := match t with Lit _ k => k =? 46 | _ => false end.
Definition hidden (ts : list token) (ks : list Z) : bool :=
  flag flags FNM_PERIOD && bool_decide (head ks = Some 46) && negb (match head ts with Some t => period t | None => false end).
(** Where the first byte of the pattern tells: it is not the backslash of an
    escaped period. *)
Definition visible_period (ts : list token) : bool :=
  match ts with Lit true k :: _ => negb (flag flags FNM_PERIOD && (k =? 46)) | _ => true end.
Definition segment_matches (ts : list token) (ks : list Z) : bool := negb (hidden ts ks) && M ts ks.

(** [body] stands at [p], and what follows is no period. *)
Definition followed (l : list Z) (p : nat) (body : list Z) : Prop := exists b r, drop p l = body ++ b :: r /\ b <> 46.

Lemma followed_head l p body : followed l p body -> exists b, l !! p = Some b /\ (b =? 46) = bool_decide (head body = Some 46).
Proof.
  intros (b & r & E & Hb). destruct body as [|x body]; (eexists; split; [by eapply drop_head|]); cbn [head].
  - by destruct (Z.eqb_spec b 46).
  - destruct (Z.eqb_spec x 46) as [->|]; symmetry; [by apply bool_decide_eq_true|apply bool_decide_eq_false; congruence].
Qed.

Lemma bytes_period k : char_ok mb1 k = true -> bool_decide (head (bytes_of mb1 k) = Some 46) = (k =? 46).
Proof.
  intros Hk. pose proof (char_range mb1 k Hk). destruct (Z_lt_le_dec k 128) as [Hlt|Hge].
  - rewrite bytes_ascii by done. cbn [head]. destruct (Z.eqb_spec k 46) as [->|]; [done|]. apply bool_decide_eq_false. congruence.
  - destruct (bytes_high mb1 k Hk Hge) as (b & c & -> & Hb & _). apply Forall_inv in Hb. cbv beta in Hb. destruct (Z.eqb_spec k 46); [lia|]. apply bool_decide_eq_false. cbn [head]. intros [=]. lia.
Qed.
Lemma bytes_head k r : char_ok mb1 k = true -> head (bytes_of mb1 k ++ r) = head (bytes_of mb1 k).
Proof. intros Hk. pose proof (bytes_length mb1 k Hk). by destruct (bytes_of mb1 k); [simpl in *; lia|]. Qed.

(** The first bytes show a leading period, and a pattern that takes one. *)
Lemma text_period ks : chars_ok ks -> bool_decide (head (text mb1 ks) = Some 46) = bool_decide (head ks = Some 46).
Proof.
  intros Hks. destruct ks as [|k ks]; [done|]. apply Forall_inv in Hks. rewrite text_cons, bytes_head, bytes_period by done. cbn [head].
  destruct (Z.eqb_spec k 46) as [->|]; symmetry; [by apply bool_decide_eq_true|apply bool_decide_eq_false; congruence].
Qed.
Lemma pattern_period ts : tokens_ok ts -> flag flags FNM_PERIOD = true -> visible_period ts = true ->
  bool_decide (head (pattern_text mb1 ts) = Some 46) = match head ts with Some t => period t | None => false end.
Proof.
  intros Hts Hflag Hv. destruct ts as [|t ts]; [done|]. apply Forall_inv in Hts. rewrite pattern_text_cons. cbn [head].
  destruct t as [| |[] k|inv first its]; cbn [token_text period app head]; try done.
  - cbn [visible_period] in Hv. rewrite Hflag in Hv. by destruct (k =? 46).
  - cbn [token_ok] in Hts. apply andb_true_iff in Hts as [Hk _]. by rewrite bytes_head, bytes_period by done.
Qed.

Lemma after_star fuel pat m str n ts ks : tokens_ok ts -> chars_ok ks -> sized P pat m (pattern_text mb1 ts) -> sized T str n (text mb1 ks) -> (length P + length T < fuel)%nat ->
  (m ← strnlen P pat m; let endpat := (pat + m)%nat in t ← find_tail mb1 P fuel flags endpat (pat, pat, 0);
   match t with
   | None => Some FNM_NOMATCH
   | Some (ptail, tailcnt) =>
       n ← strnlen T str n; let endstr := (str + n)%nat in if Z.of_nat n <? tailcnt then Some FNM_NOMATCH else
       '(s, missing) ← tail_start mb1 T fuel str endstr tailcnt; if truth missing then Some FNM_NOMATCH else
       ok ← match_tail mb1 P T towupper towlower wctype iswctype fuel flags ptail endpat s endstr; if negb (ok : bool) then Some FNM_NOMATCH else
       sea_of_stars mb1 P T towupper towlower wctype iswctype fuel flags pat ptail str s
   end) = Some (verdict (M (Star :: ts) ks)).
Proof.
  intros Hts Hks Hp Hs Hf. rewrite (strnlen_correct P pat m _ Hp) by by apply pattern_nonzero. rewrite (strnlen_correct T str n _ Hs) by by apply text_nonzero. cbn [mbind option_bind]. cbv zeta.
  destruct Hp as (r & E & _), Hs as (r' & Es & _). pose proof (pattern_length _ Hts) as Hlp. pose proof (text_length _ Hks) as Hlt. pose proof (drop_short _ _ _ _ E) as Hsp. pose proof (drop_short _ _ _ _ Es) as Hst.
  destruct (find_tail_correct ts fuel r pat [] []) as (mid & tl & Eq & Hmid & Htl & Hr); [done|by apply Forall_nil_2|by left|done|lia|]. cbn [app pattern_text mbind list_bind length] in Hr, Eq. fold (pattern_text mb1 ts) in Hr. rewrite !Nat.add_0_r in Hr.
  change (Z.of_nat 0) with 0 in Hr. rewrite Hr. cbn [mbind option_bind]. subst ts. rewrite split_tail by done. rewrite pattern_text_app, length_app in *. rewrite length_app in Hlp.
  apply Forall_app in Hts as [Hmok Htok]. destruct (Z.ltb_spec (lenZ (text mb1 ks)) (lenZ tl)) as [Hlt'|Hge].
  { destruct (Nat.leb_spec (length tl) (length ks)); [lia|done]. }
  rewrite (tail_start_correct ks fuel str r' (length tl)) by (done || lia). cbn [mbind option_bind]. destruct (Nat.leb_spec (length tl) (length ks)) as [Hle|Hgt]; [|by rewrite truth_nz by lia].
  replace (length tl - length ks)%nat with 0%nat by lia. change (truth (Z.of_nat 0)) with false. cbv iota. cbn [andb].
  set (ks1 := take (length ks - length tl) ks). set (ks2 := drop (length ks - length tl) ks). assert (Ek : ks = ks1 ++ ks2) by (symmetry; apply take_drop). rewrite Ek, text_app in Es |- *. rewrite Ek in Hks. apply Forall_app in Hks as [Hk1 Hk2].
  rewrite <- app_assoc in E, Es. pose proof (drop_app_more _ _ _ _ E) as E2. pose proof (drop_app_more _ _ _ _ Es) as Es2. rewrite length_app, !Nat.add_assoc.
  rewrite (match_tail_correct tl fuel _ _ ks2 r r') by (done || lia). cbn [mbind option_bind]. destruct (M tl ks2); [|done]. cbn [negb andb].
  assert (length ks1 <= length ks)%nat by (unfold ks1; rewrite length_take; lia). by apply (sea_correct fuel mid pat str ks1 (pattern_text mb1 tl ++ r) (text mb1 ks2 ++ r')); try done; lia.
Qed.

Lemma internal_correct fuel pat m str n ts ks : tokens_ok ts -> chars_ok ks -> sized P pat m (pattern_text mb1 ts) -> sized T str n (text mb1 ks) ->
  visible_period ts = true -> followed P pat (pattern_text mb1 ts) -> followed T str (text mb1 ks) -> m < 2 ^ 64 -> n < 2 ^ 64 -> (length P + length T < fuel)%nat ->
  fnmatch_internal mb1 P T towupper towlower wctype iswctype fuel pat m str n flags = Some (verdict (segment_matches ts ks)).
Proof.
  intros Hts Hks Hp Hs Hv Fp Fs Hm Hn Hf. unfold fnmatch_internal, segment_matches, hidden. destruct (followed_head _ _ _ Fp) as (b & -> & Eb), (followed_head _ _ _ Fs) as (a & -> & Ea). rewrite text_period in Ea by done. rewrite <- Ea. cbn [mbind option_bind].
  assert (Hrest : (r ← head_loop mb1 P T towupper towlower wctype iswctype fuel flags (pat, m, str, n); match r with inr r => Some r | inl (pat, m, str, n) => 
    m ← strnlen P pat m; let endpat := (pat + m)%nat in t ← find_tail mb1 P fuel flags endpat (pat, pat, 0);
   match t with
   | None => Some FNM_NOMATCH
   | Some (ptail, tailcnt) =>
       n ← strnlen T str n; let endstr := (str + n)%nat in if Z.of_nat n <? tailcnt then Some FNM_NOMATCH else
       '(s, missing) ← tail_start mb1 T fuel str endstr tailcnt; if truth missing then Some FNM_NOMATCH else
       ok ← match_tail mb1 P T towupper towlower wctype iswctype fuel flags ptail endpat s endstr; if negb (ok : bool) then Some FNM_NOMATCH else
       sea_of_stars mb1 P T towupper towlower wctype iswctype fuel flags pat ptail str s
   end end) = Some (verdict (M ts ks))).
  { pose proof (pattern_length _ Hts) as Hlp. assert (length (pattern_text mb1 ts) <= length P)%nat as Hlp' by (destruct Hp as (r & E & _); apply drop_short in E; lia).
    destruct (head_correct ts fuel pat m str n ks) as (r & -> & Hr); [done..|lia|]. cbn [mbind option_bind]. destruct r as [[[[pat' m'] str'] n']|v]; [|by subst v].
    destruct Hr as (ts' & ks' & Hts' & Hks' & Hp' & Hs' & ->). by apply (after_star fuel). }
  destruct (flag flags FNM_PERIOD) eqn:Hflag; cbn [andb negb]; [|exact Hrest]. rewrite (pattern_period _ Hts Hflag Hv) in Eb. rewrite <- Eb. cbn [mbind option_bind]. destruct ((a =? 46) && negb (b =? 46)); [done|exact Hrest].
Qed.

(** The backslash of an escaped period hides a leading period. *)
Lemma internal_escaped_period fuel pat m str n ts ks : flag flags FNM_PERIOD = true ->
  followed P pat (pattern_text mb1 (Lit true 46 :: ts)) -> followed T str (text mb1 (46 :: ks)) ->
  fnmatch_internal mb1 P T towupper towlower wctype iswctype fuel pat m str n flags = Some FNM_NOMATCH.
Proof.
  clear Hfold. intros Hflag Fp Fs. unfold fnmatch_internal. destruct (followed_head _ _ _ Fp) as (b & -> & Eb), (followed_head _ _ _ Fs) as (a & -> & Ea).
  rewrite Hflag. cbn [mbind option_bind]. rewrite pattern_text_cons in Eb. rewrite text_cons, bytes_ascii in Ea by (done || by destruct mb1). rewrite Eb, Ea. done.
Qed.
End matching.
