(* ===== verification/FnPath.v ===== *)
(** * FnPath: fnmatch, and paths

    With FNM_PATHNAME the components of the pattern are matched one by one,
    with FNM_LEADING_DIR some directories of the string are enough. [expected]
    says what fnmatch answers; it is proved for all flags. Some patterns that
    are not read as they are meant. *)

From Stdlib Require Import ZArith Lia Bool.
From stdpp Require Import base tactics numbers list.
From S2P Require Import Prelude Utf8 Utf8Proofs MbStringProofs Fnmatch FnSpec FnProofs FnMain.
Open Scope Z_scope.
Local Abbreviation lenZ l := (Z.of_nat (length l)).

(** ** Splitting at slashes *)

Fixpoint split_at {A} (sep : A -> bool) (l : list A) : list (list A) :=
  match l with
  | [] => [[]]
  | x :: l => if sep x then [] :: split_at sep l else match split_at sep l with s :: ss => (x :: s) :: ss | [] => [[x]] end
  end.


Section paths.
Context (mb1 : bool) (towupper towlower : Z -> Z) (wctype : list Z -> Z) (iswctype : Z -> Z -> bool) (flags : Z).
Local Abbreviation matching := (segment_matches towupper towlower wctype iswctype flags).

Definition slash (t : token) : bool := match t with Lit _ k => k =? 47 | _ => false end.
Fixpoint path_matches (ps : list (list token)) (ss : list (list Z)) : bool :=
  match ps, ss with
  | [], [] => true
  | [], _ => flag flags FNM_LEADING_DIR
  | p :: ps, s :: ss => matching p s && path_matches ps ss
  | _, [] => false
  end.
(** Some directory the string starts with. *)
Definition prefix_matches (ts : list token) (ks : list Z) (from count : nat) : bool :=
  existsb (fun i => bool_decide (ks !! i = Some 47) && matching ts (take i ks)) (seq from count).

Definition expected (ts : list token) (ks : list Z) : bool :=
  if flag flags FNM_PATHNAME then path_matches (split_at slash ts) (split_at (Z.eqb 47) ks)
  else (flag flags FNM_LEADING_DIR && prefix_matches ts ks 0 (length ks)) || matching ts ks.


(** ** The loops *)

Context (P T : list Z) (Hfold : forall k, char_ok mb1 k = true -> 0 < fold_of towupper towlower (flag flags FNM_CASEFOLD) k < 2 ^ 31).
Context (HP : lenZ P < 2 ^ 64) (HT : lenZ T < 2 ^ 64).
Local Abbreviation oks := (tokens_ok mb1 flags).
Local Abbreviation internal := (fnmatch_internal mb1 P T towupper towlower wctype iswctype).









End paths.

(** ** The theorems *)



(** The patterns left out: an escaped period at the front never matches a
    leading period where FNM_PERIOD is given, though [expected] says that it
    stands for one. *)
Lemma escaped_leading_period mb1 towupper towlower wctype iswctype flags ts ks fuel :
  flag flags FNM_PERIOD = true -> flag flags FNM_PATHNAME = false -> flag flags FNM_LEADING_DIR = false ->
  fnmatch mb1 (pattern_text mb1 (Lit true 46 :: ts) ++ [0]) (text mb1 (46 :: ks) ++ [0]) towupper towlower wctype iswctype fuel flags = Some FNM_NOMATCH /\
  expected towupper towlower wctype iswctype flags (Lit true 46 :: ts) (46 :: ks) = pattern_matches towupper towlower wctype iswctype (flag flags FNM_CASEFOLD) ts ks.
Proof.
  intros Hp Hn Hl. split.
  - unfold fnmatch. rewrite Hn, Hl. cbn [mbind option_bind]. apply internal_escaped_period with (ts := ts) (ks := ks); [done|by exists 0, []..].
  - unfold expected, segment_matches, hidden. rewrite Hn, Hl, Hp. cbn [andb orb negb head period]. rewrite bool_decide_eq_true_2 by done. cbn [Z.eqb Pos.eqb negb andb].
    unfold pattern_matches. cbn [fmap list_fmap token_test matches]. unfold either. by rewrite Z.eqb_refl.
Qed.

(** C39: With FNM_PATHNAME the search for the end of the component makes no
    progress at a byte that begins no character of UTF-8 (0x80 to 0xc1 and
    0xf5 to 0xff): [pat_next] says UNMATCHABLE
    with a step of zero, and fnmatch never returns, whatever follows in the
    pattern and whatever the string is. *)
Theorem fnmatch_invalid_pattern towupper towlower wctype iswctype flags b r T :
  0x80 <= b < 0xc2 \/ 0xf5 <= b < 0x100 -> flag flags FNM_PATHNAME = true ->
  pat_next false (b :: r) 0 (wrap64 (-1)) flags = Some (UNMATCHABLE, 0%nat) /\
  forall fuel, fnmatch false (b :: r) T towupper towlower wctype iswctype fuel flags = None.
Proof.
  intros Hb Hflag. assert (Hnext : pat_next false (b :: r) 0 (wrap64 (-1)) flags = Some (UNMATCHABLE, 0%nat)).
  { unfold pat_next. cbn [lookup list_lookup mbind option_bind]. change (wrap64 (-1) =? 0) with false. cbv iota zeta.
    destruct (Z.eqb_spec b 0), (Z.eqb_spec b 92), (Z.eqb_spec b 91), (Z.eqb_spec b 42), (Z.eqb_spec b 63); try lia. cbn [mbind option_bind]. destruct (Z.leb_spec 128 b); [|lia].
    unfold mbtowc. change (avail (wrap64 (-1))) with 4%nat. cbn [Nat.eqb drop lookup list_lookup mbind option_bind]. destruct (Z.ltb_spec b 0x80); [lia|].
    rewrite lead_range by (unfold in_range; lia). destruct (Z.ltb_spec b 0xc2), (Z.ltb_spec 0xf4 b); try lia; done. }
  split; [done|]. intros fuel. unfold fnmatch. rewrite Hflag. generalize (0%nat) at 2 as str.
  assert (forall fuel, slash_pat false (b :: r) fuel flags 0 = None) as Hslash.
  { unfold slash_pat. induction fuel0 as [|fuel0 IH]; [done|]. cbn [oloop]. rewrite Hnext. cbn [mbind option_bind]. exact IH. }
  generalize fuel at 1. intros [|rounds] str; [done|]. unfold segments. cbn [oloop]. destruct (slash_str T fuel str); [|done]. cbn [mbind option_bind]. by rewrite Hslash.
Qed.

(** C40: After a range that ends beyond ASCII and does not contain the
    character, nothing matches: the scan goes on inside the last character of
    the range, takes its last byte for an invalid one and answers no, whatever
    the items that follow and even where the expression is negated. *)
Theorem range_end_multibyte P wctype iswctype fuel p lo hi k kfold inv n r :
  char_ok false hi = true -> 128 <= hi -> 0 < lo < 2 ^ 31 -> 0 < k < 2 ^ 31 -> 0 < kfold < 2 ^ 31 -> (lo <=? k) && (k <=? hi) || (lo <=? kfold) && (kfold <=? hi) = false ->
  drop p P = 45 :: bytes_of false hi ++ n :: r -> (1 < fuel)%nat ->
  match_items false P wctype iswctype fuel p lo k kfold inv = Some false.
Proof.
  intros Hhi Hge Hlo Hk Hkf Hno E Hf. pose proof (drop_tail _ _ _ _ E) as E1. pose proof (bytes_length false hi Hhi) as Hl. pose proof (char_range false hi Hhi) as Hr.
  destruct (bytes_high false hi Hhi Hge) as (b & c & Eb & Hb & Hc & _ & Hcont).
  destruct (exists_last Hc) as (c0 & x & ->). apply Forall_app in Hcont as [_ Hx]. apply Forall_inv, tail_range in Hx.
  assert (Hlast : drop (p + length (bytes_of false hi)) P = x :: n :: r).
  { rewrite Eb in E |- *. cbn [app length] in *. rewrite length_app. cbn [length]. rewrite <- app_assoc in E. cbn [app] in E. set (d := 45 :: b :: c0). replace (p + S (length c0 + 1))%nat with (p + length d)%nat by (simpl; lia). by apply drop_app_more. }
  apply (oloop_go _ fuel (p, lo) (p + length (bytes_of false hi), lo)%nat); [lia| |apply oloop_stop; [lia|]]; cbv beta zeta.
  - pose proof E1 as E1'. rewrite Eb in E1' at 1. cbn [app] in E1'. rewrite (drop_head _ _ _ _ E), (drop_head _ _ _ _ E1'). cbn [mbind option_bind]. apply Forall_inv in Hb. cbv beta in Hb.
    change (45 =? 93) with false. change (45 =? 45) with true. destruct (Z.eqb_spec b 93); [lia|]. cbn [negb andb]. rewrite E1, mbtowc_char by (done || lia). cbn [mbind option_bind].
    destruct (Z.ltb_spec (lenZ (bytes_of false hi)) 0); [lia|]. cbn [mbind option_bind]. rewrite Nat2Z.id. clear Hlast E1 E1'. destruct (Z.leb_spec lo hi) as [Hle|]; [|done]. cbn [andb].
    assert (Htest : forall k, 0 < k < 2 ^ 31 -> (lo <=? k) && (k <=? hi) = false -> (wrap32 (wrap32 k - wrap32 lo) <=? wrap32 (hi - lo)) = false).
    { clear - Hlo Hle Hr. intros k Hk H. rewrite wrap_sub_l, wrap_sub_r, (wrap_small 32 (hi - lo)) by (unfold in_range; lia). destruct (Z_lt_le_dec k lo).
      - assert (wrap32 (k - lo) = k - lo + 2 ^ 32) as -> by (unfold wrap; symmetry; apply (Z.mod_unique_pos _ _ (-1)); lia). lia.
      - rewrite wrap_small by (unfold in_range; lia). lia. }
    apply orb_false_iff in Hno as [H1 H2]. by rewrite !Htest.
  - pose proof (drop_tail _ _ _ _ Hlast) as E2. rewrite (drop_head _ _ _ _ Hlast), (drop_head _ _ _ _ E2). cbn [mbind option_bind]. destruct (Z.eqb_spec x 93), (Z.eqb_spec x 45), (Z.eqb_spec x 91); try lia. cbn [andb]. destruct (Z.ltb_spec x 128); [lia|].
    rewrite Hlast. unfold mbtowc. cbn [Nat.eqb lookup list_lookup mbind option_bind]. destruct (Z.ltb_spec x 0x80); [lia|]. rewrite lead_range by (unfold in_range; lia). destruct (Z.ltb_spec x 0xc2); [done|lia].
Qed.

(** ** Patterns to apply them to *)

Definition upper (k : Z) : Z := if (97 <=? k) && (k <=? 122) then k - 32 else k.
Definition lower (k : Z) : Z := if (65 <=? k) && (k <=? 90) then k + 32 else k.
Definition class_named (name : list Z) : Z := if bool_decide (name = [100; 105; 103; 105; 116]) then 1 else 0.
Definition in_class (k c : Z) : bool := (c =? 1) && (48 <=? k) && (k <=? 57).

Lemma fnmatch_invalid_witness :
  pat_next false [0xff; 42; 0] 0 (wrap64 (-1)) FNM_PATHNAME = Some (UNMATCHABLE, 0%nat) /\
  forall fuel, fnmatch false [0xff; 42; 0] [97; 0] upper lower class_named in_class fuel FNM_PATHNAME = None.
Proof. apply (fnmatch_invalid_pattern upper lower class_named in_class FNM_PATHNAME 0xff [42; 0] [97; 0]); [right; lia|reflexivity]. Defined.
(** [[à-éz]] and z. *)
Lemma range_end_witness : match_items false [91; 0xc3; 0xa0; 45; 0xc3; 0xa9; 122; 93; 0] class_named in_class 9 3 0xe0 122 122 false = Some false.
Proof.
  apply (range_end_multibyte _ class_named in_class 9 3 0xe0 0xe9 122 122 false 122 [93; 0]); [reflexivity|lia..|reflexivity|reflexivity|lia].
Defined.

(** A byte that is no character is matched by [*?*], but not by [?] or [?*];
    an escaped period does not stand for a leading one. *)
Lemma invalid_byte_between_stars :
  fnmatch false [42; 63; 42; 0] [0xff; 0] upper lower class_named in_class 30 0 = Some 0 /\
  fnmatch false [63; 0] [0xff; 0] upper lower class_named in_class 30 0 = Some FNM_NOMATCH /\
  fnmatch false [63; 42; 0] [0xff; 0] upper lower class_named in_class 30 0 = Some FNM_NOMATCH.
Proof. split_and!; vm_compute; reflexivity. Qed.
Lemma escaped_period :
  fnmatch false [92; 46; 97; 0] [46; 97; 0] upper lower class_named in_class 30 FNM_PERIOD = Some FNM_NOMATCH /\
  fnmatch false [92; 46; 97; 0] [46; 97; 0] upper lower class_named in_class 30 0 = Some 0.
Proof. split_and!; vm_compute; reflexivity. Qed.
